(* ===== verification/_CoqProject ===== *)
-Q . S2P
Prelude.v
Bytes.v
Queue.v
HashTable.v
Dircache.v
DircacheIndex.v
DircacheArc.v
DircacheFacts.v
DircacheTheorems.v
AdLock.v
AdLockFacts.v
AdLockTheorems.v
Utf8.v
Utf8Theorems.v
AdHeader.v
AdHeaderTheorems.v
Spotlight.v
SpotlightFacts.v
SpotlightRoundTrip.v
SpotlightTheorems.v
Dsi.v
DsiFacts.v
DsiTheorems.v
Ofork.v
OforkFacts.v
OforkTable.v
OforkTheorems.v
ForkModes.v
ForkModesTheorems.v
ForkClaims.v
WriteFork.v
UnicodeTables.v
Unicode.v
UnicodeFacts.v
UnicodeCompose.v
UnicodeTheorems.v
UnicodeCase.v
Vfs.v
VfsFacts.v
VfsTheorems.v
Ea.v
EaFacts.v
EaStore.v
EaOps.v
EaSafe.v
EaMove.v
EaTheorems.v
CharsetTables.v
Charsets.v
Charcnv.v
CharcnvTests.v
CharsetFacts.v
CharsetTheorems.v
CharcnvFacts.v
CharcnvSafe.v
Punctuation.v
CharcnvTheorems.v
Mangle.v
MangleFacts.v
MangleTheorems.v
NameText.v
NameTheorems.v
