(* ===== verification/Prelude.v ===== *)
(** * Netatalk: a verification library for the AFP file server

    Netatalk serves files to Macintosh clients over the Apple Filing Protocol.  A client's
    requests arrive as DSI frames on a TCP connection; afpd decodes them, resolves the
    catalogue node IDs they name through a cache of directories, and works on files that
    have two forks and a block of metadata in the AppleDouble format, under byte range
    and share mode locks, and extended attributes.  File names are converted between the character sets
    of the client and of the volume, and shortened where the client cannot take them.
    Searches travel as Spotlight payloads inside AFP commands.

    The library models these parts of the program, translated from the sources, and
    proves the theorems that make them correct.  All paths below are relative to src/.

    ** Parts and files

    - [Prelude] (this file): machine integers, outcomes, tactics and the lemmas on lists
      that several parts use.  [Bytes]: bytes, masks, copies into buffers.
    - [Queue]: libatalk/util/queue.c.  A heap of doubly linked nodes with a sentinel;
      one definition per operation.  The theorems show that every sequence of operations
      behaves as the list operations do and touches no other node.
    - [HashTable]: etc/afpd/hash.c.  The chained table with doubling, halving and scans.
      The theorems show that it refines a finite map.  The end of the file states the
      interface [HashOps]/[HashLaws] and discharges it.
    - [Dircache] and its companions: etc/afpd/dircache.c.  [Dircache] holds the state and
      the operations, written against [HashOps], with queues as the lists [Queue] shows
      them to be.  [DircacheIndex], [DircacheArc] and [DircacheFacts] prove what each
      operation does to the indexes, to the ARC lists and to the whole cache;
      [DircacheTheorems] has the claims: no assertion fails in any reachable state, the
      bounds of ARC, and what addition, hits, removal, eviction and purge do.
    - [AdLock] and its companions: libatalk/adouble/ad_lock.c.  The lock array of a
      descriptor, the binary-searched windows, the walk over the bytes no entry covers,
      and the locks, temporary locks and probes of forks.  The claims relate array and
      kernel to an abstract collection of locks.
    - [Utf8]: libatalk/unicode/utf8.c, both converters, against the encodings of the
      Unicode standard.
    - [AdHeader]: parsers, checks, builders and copies of metadata headers from
      libatalk/adouble/ad_open.c and ad_flush.c: safety on arbitrary bytes, round trips.
    - [Spotlight] and its companions: etc/afpd/spotlight_marshalling.c, packing and
      unpacking of trees of values: round trip, safety on arbitrary bytes, bounds.
    - [Dsi] and its companions: libatalk/dsi, with the payload of FPWrite from
      etc/afpd/fork.c.  A session with its read-ahead buffer against a kernel that cuts
      the streams as it likes: requests whole and in order, replies whole, writes that
      leave the stream at the next request.
    - [Ofork] and its companions: the table of open forks of etc/afpd/ofork.c: slots by
      fork number, the ring of free numbers, the hash chains by device and inode, and the
      AppleDouble handle the forks of a file share.  [OforkFacts] and [OforkTable] prove
      what each operation does to the chains and to the slots; [OforkTheorems] shows that
      the whole refines a table of open forks.
    - [ForkModes]: the access and deny modes of an open and the byte range locks of
      etc/afpd/fork.c, and the claims a deletion or replacement respects, from ofork.c and
      file.c, on top of [AdLock].  [ForkModesTheorems] shows that the bytes of the share
      mode band implement exclusion between the forks of all processes, [ForkClaims] that
      the claims seen are those that stand.
    - [UnicodeTables] and [Unicode]: the tables of libatalk/unicode/precompose.h and
      utf16_casetable.h, and the functions of utf16_case.c and util_unistr.c on them.
      [UnicodeFacts] has the searches and the tables, [UnicodeCompose] and
      [UnicodeTheorems] composition and decomposition and how they undo each other,
      [UnicodeCase] the comparison that ignores case.

    - [Vfs] and [VfsFacts]: the file system as libatalk/vfs sees it, with calls that may
      fail or be cut short, the helpers of libatalk/vfs/unix.c, and the rules by which
      computations on it are verified.  [VfsTheorems]: copies of files.
    - [Ea] and its companions: extended attributes in files beside the metadata,
      libatalk/vfs/ea_ad.c, with the metadata path of ad_open.c.  [EaFacts] has the bytes
      of the header, [EaStore] the abstract list of attributes and how files hold it,
      [EaOps] what each call does to it, [EaMove] renames and copies, [EaSafe] the calls
      against any kernel and any header; [EaTheorems] has the claims.
    - [CharsetTables] and [Charsets]: the tables of libatalk/unicode/charsets, the
      conversions of generic_mb.c, mac_hebrew.c and iconv.c, and the registry of sets of
      charcnv.c.  [CharsetFacts] states what a set promises as the classes [ByteCharset]
      and [Charset] and discharges them; [CharsetTheorems] has the round trip of the sets.
    - [Charcnv]: [convert_charset] of charcnv.c with its phases.  [CharcnvTests] runs the
      cases of test/libatalk/test_unicode.c on it.  [CharcnvFacts] and [CharcnvSafe] show
      that it keeps to its buffers, against the classes of the sets; [Punctuation] and
      [CharcnvTheorems] what becomes of slashes, colons and dots.
    - [Mangle]: etc/afpd/mangle.c, and [mtoupath] and [utompath] of etc/afpd/desktop.c.
      The directory cache, the stat of an object and the CNID database are the class
      [Catalog], and [CatalogLaws] what the search relies on: lookups change no object, an
      entry whose stat matches names its object, the database names the others.
      [MangleFacts] has the form of a mangled name; [MangleTheorems] the claims, with a
      catalog that satisfies the laws; [NameText] and [NameTheorems] the names of UTF-8
      volumes, there and back.

    ** Conventions

    A w-bit integer is a [Z] with [wrap] where C arithmetic can wrap.  An assertion or a
    panic is [Abort] of [res]; an error return is a value.  Code outside src/ is an
    argument: the answers of the kernel to locks, reads, sends and writes are lists in
    the state or in the kernel's record, the allocator's success is a boolean of the
    call or an answer of such a list, and the conversion of UTF-16 strings in Spotlight payloads is a function with
    its round trip as a hypothesis.  Log output is left out.

    ** Loops and fuel

    Loops over a list recurse on it.  Other loops have fuel, an upper bound of their
    turns that the definition computes, and the theorems show that it is never
    exhausted: the DSI loops have one turn per byte left or per answer of the kernel left
    (outcome [Stuck] when exhausted); the quantum search has 66 turns, since it grows by
    pages up to 256 KiB; the Spotlight unpacker has one turn per byte of the payload and
    a depth limit of 20, as in the code; the scans of the hash table have a turn per
    chain; the purge and eviction loops a turn per queued entry; the walks of the chains
    of open forks a turn per fork in the heap; the composition of a string a turn per unit
    of its input, the binary searches a turn per row of their table; the copy of a file a
    turn per byte and per answer of the kernel left; a conversion a turn per byte of its
    input, the loops of [push_charset_flags] three, since each turn takes a unit or
    changes the loop; the escapes of a character a turn per byte of the buffer tried.

    ** Not modelled

    The sendfile and splice paths of DSI, the accept loop and the signals of afpd; the
    dispatch of AFP commands and the commands that are sequences of system calls on
    paths, the reads, writes and truncations of forks among them; validation of cached directories against the file system and the deferred
    cleanup ring of the cache; owners and modes of the files of extended attributes and
    the attributes the file system itself keeps; opening, converting and flushing AppleDouble files; the
    CNID databases; the system's iconv and the sets that need it, which a build without it
    leaves out; ACLs, authentication, configuration but for the conversion flags of a volume;
    the printing and AppleTalk daemons.  They call the kernel, SQL databases or other
    libraries in every step, or are separate programs. *)

From stdpp Require Export base gmap list numbers sets.

(** ** Machine integers

    A w-bit unsigned integer is a [Z] in [0, 2^w); the wrap-around of C
    arithmetic is written out with [wrap]. *)

Declare Scope c_scope.
Delimit Scope c_scope with C.

Open Scope Z_scope.

Definition wrap (w z : Z) : Z := z `mod` 2 ^ w.

Notation "'u32' z" := (wrap 32 z) (at level 10, z at level 9) : c_scope.
Notation "'u64' z" := (wrap 64 z) (at level 10, z at level 9) : c_scope.

Open Scope c_scope.

Lemma wrap_range w z : 0 <= w -> 0 <= wrap w z < 2 ^ w.
Proof. intros. apply Z.mod_pos_bound. lia. Qed.

Lemma wrap_small w z : 0 <= z < 2 ^ w -> wrap w z = z.
Proof. apply Z.mod_small. Qed.

(** Network byte order on a little-endian host: [ntohl] and [htonl] are the
    same byte reversal. *)
Definition bswap32 (z : Z) : Z :=
  Z.lor (Z.shiftl (Z.land z 255) 24)
    (Z.lor (Z.shiftl (Z.land (Z.shiftr z 8) 255) 16)
       (Z.lor (Z.shiftl (Z.land (Z.shiftr z 16) 255) 8)
          (Z.land (Z.shiftr z 24) 255))).

Definition ntohl : Z -> Z := bswap32.
Definition htonl : Z -> Z := bswap32.

(** ** Outcomes

    [assert], [AFP_ASSERT] and [AFP_PANIC] end the process.  A fallible
    operation returns [Ok] with its result or [Abort] with the reason. *)

Inductive why : Type :=
  | Assertion   (** a failed [assert] or [AFP_ASSERT] *)
  | Panic       (** an [AFP_PANIC] *)
  | OutOfMemory (** an allocation failure the code answers with an exit or a panic *)
  | Undefined   (** a dereference of a pointer that names no object *).

Inductive res (A : Type) : Type :=
  | Ok (a : A)
  | Abort (w : why).
Arguments Ok {_} a.
Arguments Abort {_} w.

#[export] Instance why_eq_dec : EqDecision why.
Proof. solve_decision. Defined.

#[export] Instance res_ret : MRet res := fun A a => Ok a.
#[export] Instance res_bind : MBind res := fun A B f m =>
  match m with Ok a => f a | Abort w => Abort w end.

Definition assert_ (b : bool) : res unit := if b then Ok tt else Abort Assertion.

Lemma res_bind_Ok {A B} (f : A -> res B) (m : res A) b :
  (m ≫= f) = Ok b <-> exists a, m = Ok a /\ f a = Ok b.
Proof. destruct m; cbn; naive_solver. Qed.

(** ** Lists *)

Lemma list_filter_ext_in {A} (P Q : A -> Prop) `{forall x, Decision (P x), forall x, Decision (Q x)} (l : list A) :
  (forall x, x ∈ l -> P x <-> Q x) -> filter P l = filter Q l.
Proof.
  induction l as [|x l IH]; intros Hl; [done|].
  rewrite !filter_cons, IH by set_solver.
  destruct (decide (P x)), (decide (Q x)); set_solver.
Qed.

Lemma list_filter_all {A} (P : A -> Prop) `{forall x, Decision (P x)} (l : list A) :
  (forall x, x ∈ l -> P x) -> filter P l = l.
Proof.
  induction l as [|x l IH]; intros Hl; [done|].
  rewrite filter_cons_True, IH; set_solver.
Qed.

Lemma list_filter_none {A} (P : A -> Prop) `{forall x, Decision (P x)} (l : list A) :
  (forall x, x ∈ l -> ~ P x) -> filter P l = [].
Proof.
  induction l as [|x l IH]; intros Hl; [done|].
  rewrite filter_cons_False, IH; set_solver.
Qed.

(** ** Tactics *)

(** Split the boolean tests of the code into propositions. *)
Ltac bool_cases :=
  repeat match goal with
  | H : _ && _ = true |- _ => apply andb_true_iff in H as [? ?]
  | H : _ || _ = false |- _ => apply orb_false_iff in H as [? ?]
  | H : negb _ = true |- _ => apply negb_true_iff in H
  | H : negb _ = false |- _ => apply negb_false_iff in H
  | H : (_ =? _) = true |- _ => apply Z.eqb_eq in H
  | H : (_ =? _) = false |- _ => apply Z.eqb_neq in H
  | H : (_ <? _) = true |- _ => apply Z.ltb_lt in H
  | H : (_ <? _) = false |- _ => apply Z.ltb_ge in H
  | H : (_ <=? _) = true |- _ => apply Z.leb_le in H
  | H : (_ <=? _) = false |- _ => apply Z.leb_gt in H
  | H : (_ >? _) = true |- _ => rewrite Z.gtb_ltb in H
  | H : (_ >? _) = false |- _ => rewrite Z.gtb_ltb in H
  | H : (_ >=? _) = true |- _ => rewrite Z.geb_leb in H
  | H : (_ >=? _) = false |- _ => rewrite Z.geb_leb in H
  | H : bool_decide _ = true |- _ => apply bool_decide_eq_true in H
  | H : bool_decide _ = false |- _ => apply bool_decide_eq_false in H
  end.

(** Arithmetic from the boolean tests of the context, disjunctions included. *)
Ltac bool_lia :=
  exfalso + idtac; bool_cases;
  repeat match goal with
  | H : _ && _ = false |- _ => apply andb_false_iff in H as [H|H]; bool_cases
  | H : _ || _ = true |- _ => apply orb_true_iff in H as [H|H]; bool_cases
  end; lia.

(** Case analysis on the tests of the conditionals of the goal. *)
Ltac case_test :=
  match goal with
  | |- context [if ?b then _ else _] =>
      match type of b with
      | bool => let E := fresh "E" in destruct b eqn:E
      | sumbool _ _ => destruct b
      end
  end; bool_cases.

Create HintDb netatalk.
