(* ===== verification/Bytes.v ===== *)
(** * Bytes

    Bytes are [Z] in 0..255 and memory a list of them.  The masks and shifts of the
    code as arithmetic, and the lemmas on copies into a buffer that the parsers and
    builders of binary formats share. *)

From S2P Require Import Prelude.

Definition byte (b : Z) : Prop := 0 <= b < 256.

Notation zlen l := (Z.of_nat (length l)).

Ltac zmod := Z.to_euclidean_division_equations; lia.

Lemma byte_check (P : Z -> bool) : forallb P (seqZ 0 256) = true -> forall b, byte b -> P b = true.
Proof. rewrite forallb_forall. intros H b Hb. apply H, list_elem_of_In, elem_of_seqZ. exact Hb. Qed.

Lemma byte_list l : forallb (fun b => (0 <=? b) && (b <? 256)) l = true -> Forall byte l.
Proof.
  intros H. apply Forall_forall. intros b Hb%list_elem_of_In. apply (proj1 (forallb_forall _ _) H) in Hb. unfold byte. lia.
Qed.

Lemma nth_byte l i : Forall byte l -> byte (nth i l 0).
Proof.
  intros Hl. destruct (decide (i < length l)%nat) as [Hi|Hi]; [|rewrite nth_overflow by lia; unfold byte; lia].
  rewrite Forall_forall in Hl. by apply Hl, list_elem_of_In, nth_In.
Qed.

(** The low bits of one number under another. *)
Lemma lor_add x y n : 0 <= n -> 0 <= y < 2 ^ n -> x mod 2 ^ n = 0 -> Z.lor x y = x + y.
Proof.
  intros Hn Hy Hx. rewrite <- Z.add_lor_land. assert (Z.land x y = 0) as ->; [|lia].
  apply Z.bits_inj'. intros i Hi. rewrite Z.land_spec, Z.bits_0.
  destruct (decide (i < n)) as [Hin|Hin].
  - rewrite <- (Z.mod_pow2_bits_low x n i) by lia. by rewrite Hx, Z.bits_0.
  - rewrite <- (Z.mod_small y (2 ^ n)) by done. rewrite (Z.mod_pow2_bits_high y) by lia. apply andb_false_r.
Qed.

Lemma mask_1f b : Z.land b 0x1f = b mod 32. Proof. apply (Z.land_ones b 5). lia. Qed.
Lemma mask_0f b : Z.land b 0x0f = b mod 16. Proof. apply (Z.land_ones b 4). lia. Qed.
Lemma mask_07 b : Z.land b 0x07 = b mod 8. Proof. apply (Z.land_ones b 3). lia. Qed.
Lemma mask_3f b : Z.land b 0x3f = b mod 64. Proof. apply (Z.land_ones b 6). lia. Qed.
Lemma mask_ff b : Z.land b 0xff = b mod 256. Proof. apply (Z.land_ones b 8). lia. Qed.
Lemma mask_3ff b : Z.land b 0x3ff = b mod 1024. Proof. apply (Z.land_ones b 10). lia. Qed.

(** ** Copies *)

(** [memcpy] of [bs] to the offset [off] of a buffer. *)
Definition blit (off : nat) (bs data : list Z) : list Z := take off data ++ bs ++ drop (off + length bs) data.

Lemma length_blit off bs d : (off + length bs <= length d)%nat -> length (blit off bs d) = length d.
Proof. intros H. unfold blit. rewrite !length_app, length_take, length_drop. lia. Qed.

Lemma blit_0 bs d : blit 0 bs d = bs ++ drop (length bs) d.
Proof. done. Qed.

Lemma blit_app p o bs d : blit (length p + o) bs (p ++ d) = p ++ blit o bs d.
Proof.
  unfold blit. rewrite take_app_add, <- !app_assoc. do 2 f_equal.
  replace (length p + o + length bs)%nat with (length p + (o + length bs))%nat by lia. by rewrite drop_app_add.
Qed.

Lemma blit_past p m n bs d : (length p + n)%nat = m -> blit m bs (p ++ d) = p ++ blit n bs d.
Proof. intros <-. apply blit_app. Qed.

Lemma blit_blit off a b d :
  (off + length a + length b <= length d)%nat -> blit (off + length a) b (blit off a d) = blit off (a ++ b) d.
Proof.
  intros H. unfold blit at 2.
  replace (off + length a)%nat with (length (take off d) + length a)%nat by (rewrite length_take; lia).
  rewrite blit_app. replace (length a) with (length a + 0)%nat at 1 by lia. rewrite blit_app, blit_0, drop_drop.
  unfold blit. rewrite length_app, <- app_assoc, length_take. do 4 f_equal. lia.
Qed.

Lemma drop_blit off bs d : (off <= length d)%nat -> drop off (blit off bs d) = bs ++ drop (off + length bs) d.
Proof. intros H. unfold blit. rewrite drop_app_ge by (rewrite length_take; lia). rewrite length_take. replace (off - min off (length d))%nat with O by lia. done. Qed.

Lemma drop_past (p d : list Z) m n : (length p + n)%nat = m -> drop m (p ++ d) = drop n d.
Proof. intros <-. apply drop_app_add. Qed.

Lemma take_past (p d : list Z) m n : (length p + n)%nat = m -> take m (p ++ d) = p ++ take n d.
Proof. intros <-. apply take_app_add. Qed.

Lemma split_at (d : list Z) n : (n <= length d)%nat -> exists a b, d = a ++ b /\ length a = n.
Proof. intros H. exists (take n d), (drop n d). rewrite take_drop, length_take. split; [done|lia]. Qed.

Lemma blit_buffer got (d : list Z) : (length got <= length d)%nat -> length (blit 0 got d) = length d.
Proof. intros H. apply length_blit. lia. Qed.

Lemma nth_blit off bs d p : (off + length bs <= length d)%nat ->
  nth p (blit off bs d) 0 = if decide (off <= p < off + length bs)%nat then nth (p - off) bs 0 else nth p d 0.
Proof.
  intros H. unfold blit. assert (length (take off d) = off) as Ho by (rewrite length_take; lia). case_decide as Hp.
  - rewrite app_nth2, Ho by lia. by rewrite app_nth1 by lia.
  - destruct (decide (p < off)%nat).
    + rewrite app_nth1 by lia. rewrite <- (take_drop off d) at 2. by rewrite app_nth1 by lia.
    + rewrite !app_nth2, Ho by lia. rewrite <- (take_drop (off + length bs) d) at 2.
      rewrite (app_nth2 (take (off + length bs) d)) by (rewrite length_take; lia). rewrite length_take. f_equal. lia.
Qed.

Lemma nth_window (d : list Z) off len k : (k < len)%nat -> nth k (take len (drop off d)) 0 = nth (off + k) d 0.
Proof.
  intros H. rewrite !nth_lookup. rewrite lookup_take_lt by done. by rewrite lookup_drop.
Qed.

(** ** Byte order *)

Lemma bswap32_range z : 0 <= bswap32 z < 2 ^ 32.
Proof.
  unfold bswap32. rewrite !mask_ff.
  pose proof (Z.mod_pos_bound z 256 ltac:(lia)). pose proof (Z.mod_pos_bound (Z.shiftr z 8) 256 ltac:(lia)).
  pose proof (Z.mod_pos_bound (Z.shiftr z 16) 256 ltac:(lia)). pose proof (Z.mod_pos_bound (Z.shiftr z 24) 256 ltac:(lia)).
  rewrite !Z.shiftl_mul_pow2 by lia.
  rewrite (lor_add (_ * 2 ^ 8) _ 8) by (lia || apply Z.mod_mul; lia).
  rewrite (lor_add (_ * 2 ^ 16) _ 16) by (lia || apply Z.mod_mul; lia).
  rewrite (lor_add (_ * 2 ^ 24) _ 24) by (lia || apply Z.mod_mul; lia). lia.
Qed.

Lemma bswap32_sum z : 0 <= z < 2 ^ 32 ->
  bswap32 z = z mod 256 * 2 ^ 24 + z / 2 ^ 8 mod 256 * 2 ^ 16 + z / 2 ^ 16 mod 256 * 2 ^ 8 + z / 2 ^ 24.
Proof.
  intros Hz. unfold bswap32. rewrite !mask_ff, !Z.shiftr_div_pow2 by lia. rewrite !Z.shiftl_mul_pow2 by lia.
  assert (z / 2 ^ 24 mod 256 = z / 2 ^ 24) as -> by (apply Z.mod_small; zmod).
  assert (0 <= z / 2 ^ 24 < 256) by zmod.
  pose proof (Z.mod_pos_bound (z / 2 ^ 8) 256 ltac:(lia)). pose proof (Z.mod_pos_bound (z / 2 ^ 16) 256 ltac:(lia)).
  rewrite (lor_add (_ * 2 ^ 8) _ 8) by (lia || apply Z.mod_mul; lia).
  rewrite (lor_add (_ * 2 ^ 16) _ 16) by (lia || apply Z.mod_mul; lia).
  rewrite (lor_add (_ * 2 ^ 24) _ 24) by (lia || apply Z.mod_mul; lia). lia.
Qed.

Lemma bswap32_twice z : 0 <= z < 2 ^ 32 -> bswap32 (bswap32 z) = z.
Proof.
  intros Hz. rewrite (bswap32_sum (bswap32 z)) by apply bswap32_range. rewrite bswap32_sum by done.
  set (a := z mod 256). set (b := z / 2 ^ 8 mod 256). set (c := z / 2 ^ 16 mod 256). set (d := z / 2 ^ 24).
  assert (0 <= a < 256 /\ 0 <= b < 256 /\ 0 <= c < 256 /\ 0 <= d < 256 /\ z = a + b * 2 ^ 8 + c * 2 ^ 16 + d * 2 ^ 24) as (Ha & Hb & Hc & Hd & E)
    by (unfold a, b, c, d; split_and!; zmod).
  clearbody a b c d. subst z. clear Hz.
  replace ((a * 2 ^ 24 + b * 2 ^ 16 + c * 2 ^ 8 + d) mod 256) with d by zmod.
  replace ((a * 2 ^ 24 + b * 2 ^ 16 + c * 2 ^ 8 + d) / 2 ^ 8 mod 256) with c by zmod.
  replace ((a * 2 ^ 24 + b * 2 ^ 16 + c * 2 ^ 8 + d) / 2 ^ 16 mod 256) with b by zmod.
  replace ((a * 2 ^ 24 + b * 2 ^ 16 + c * 2 ^ 8 + d) / 2 ^ 24) with a by zmod. lia.
Qed.
