(* ===== verification/Queue.v ===== *)
(** * The intrusive queue of libatalk/util/queue.c

    A queue is a circular doubly linked list of heap nodes with a sentinel.
    The first half of the file is the code, on an explicit heap; the second
    half shows that each operation implements the list operation it stands
    for and touches nothing outside the queue. *)

From S2P Require Import Prelude.

Notation loc := positive (only parsing).

Section Queue.
Context {D : Type}.

(** [qnode_t]: a link that was never written, or [NULL], is [None]; a [NULL]
    element is [None]. *)
Record qnode := Qnode {
  prev : option loc;
  next : option loc;
  data : option D
}.

Notation heap := (gmap loc qnode).

(** Computations on the heap; [None] is a dereference of a pointer that names
    no live node. *)
Definition M (A : Type) := heap -> option (A * heap).

#[local] Instance M_ret : MRet M := fun A a h => Some (a, h).
#[local] Instance M_bind : MBind M := fun A B f m h =>
  match m h with Some (a, h') => f a h' | None => None end.

Definition load (p : option loc) : M qnode := fun h =>
  match p with
  | Some l => match h !! l with Some n => Some (n, h) | None => None end
  | None => None
  end.

Definition store (p : option loc) (f : qnode -> qnode) : M unit := fun h =>
  match p with
  | Some l => match h !! l with Some n => Some (tt, <[l := f n]> h) | None => None end
  | None => None
  end.

Definition set_next (p v : option loc) : M unit :=
  store p (fun n => Qnode (prev n) v (data n)).
Definition set_prev (p v : option loc) : M unit :=
  store p (fun n => Qnode v (next n) (data n)).
Definition get_next (p : option loc) : M (option loc) := n ← load p; mret (next n).
Definition get_prev (p : option loc) : M (option loc) := n ← load p; mret (prev n).
Definition get_data (p : option loc) : M (option D) := n ← load p; mret (data n).

(** [malloc] returns an address outside the live heap, or [NULL] when [ok] is
    false; [free] takes the node out of the heap. *)
Definition malloc (ok : bool) (n : qnode) : M (option loc) := fun h =>
  if ok then let l := fresh (dom h) in Some (Some l, <[l := n]> h)
  else Some (None, h).

Definition free (p : option loc) : M unit := fun h =>
  match p with
  | Some l => match h !! l with Some _ => Some (tt, delete l h) | None => None end
  | None => Some (tt, h)
  end.

(** ** The operations *)

Definition alloc_init_node (ok : bool) (d : option D) : M (option loc) :=
  malloc ok (Qnode None None d).

Definition queue_init (ok : bool) : M (option loc) :=
  queue ← alloc_init_node ok None;
  match queue with
  | None => mret None
  | Some q =>
      _ ← set_next (Some q) (Some q);
      _ ← set_prev (Some q) (Some q);
      mret (Some q)
  end.

(** [node->prev->next = node->next; node->next->prev = node->prev;] *)
Definition unlink (node : option loc) : M unit :=
  np ← get_prev node; nn ← get_next node;
  _ ← set_next np nn;
  nn' ← get_next node; np' ← get_prev node;
  set_prev nn' np'.

(** [node->next = q; node->prev = q->prev; q->prev->next = node; q->prev = node;] *)
Definition link_tail (q node : option loc) : M unit :=
  _ ← set_next node q;
  qp ← get_prev q;
  _ ← set_prev node qp;
  qp' ← get_prev q;
  _ ← set_next qp' node;
  set_prev q node.

Definition enqueue (ok : bool) (q : option loc) (d : option D) : M (option loc) :=
  node ← alloc_init_node ok d;
  match node with
  | None => mret None
  | Some _ => _ ← link_tail q node; mret node
  end.

Definition queue_move_to_tail_of (from_q to_q node : option loc) : M (option loc) :=
  match from_q, to_q, node with
  | Some f, Some t, Some n =>
      if bool_decide (n = f) || bool_decide (n = t) then mret None else
      _ ← unlink node;
      _ ← link_tail to_q node;
      mret node
  | _, _, _ => mret None
  end.

Definition queue_move_to_tail (q node : option loc) : M (option loc) :=
  match q, node with
  | Some q', Some n =>
      if bool_decide (n = q') then mret None else
      nn ← get_next node;
      if bool_decide (nn = q) then mret node else
      _ ← unlink node;
      _ ← link_tail q node;
      mret node
  | _, _ => mret None
  end.

Definition prequeue (ok : bool) (q : option loc) (d : option D) : M (option loc) :=
  node ← alloc_init_node ok d;
  match node with
  | None => mret None
  | Some _ =>
      qn ← get_next q;
      _ ← set_prev qn node;
      qn' ← get_next q;
      _ ← set_next node qn';
      _ ← set_prev node q;
      _ ← set_next q node;
      mret node
  end.

Definition queue_remove (node : option loc) : M (option D) :=
  match node with
  | None => mret None
  | Some _ =>
      d ← get_data node;
      _ ← unlink node;
      _ ← free node;
      mret d
  end.

Definition dequeue (q : option loc) : M (option D) :=
  match q with
  | None => mret None
  | Some _ =>
      qn ← get_next q;
      if bool_decide (qn = q) then mret None else
      d ← get_data qn;
      nn ← get_next qn;
      _ ← set_next q nn;
      nn' ← get_next qn; np ← get_prev qn;
      _ ← set_prev nn' np;
      _ ← free qn;
      mret d
  end.

(** [queue_destroy] walks until [dequeue] returns [NULL]; [fuel] bounds the
    walk and the callback sees the returned elements in order. *)
Fixpoint queue_drain (fuel : nat) (q : option loc) : M (list D) :=
  match fuel with
  | O => fun _ => None
  | S k =>
      p ← dequeue q;
      match p with
      | None => mret []
      | Some d => ds ← queue_drain k q; mret (d :: ds)
      end
  end.

Definition queue_destroy (fuel : nat) (q : option loc) : M (list D) :=
  ds ← queue_drain fuel q;
  _ ← free q;
  mret ds.

(** ** Representation

    [rep h q ns]: the heap holds a queue with sentinel [q] whose nodes, from
    head to tail, are [ns], each with its element. *)

Definition nxt (h : heap) (x : loc) : option loc := h !! x ≫= next.
Definition prv (h : heap) (x : loc) : option loc := h !! x ≫= prev.
Definition dat (h : heap) (x : loc) : option (option D) := data <$> h !! x.

Fixpoint links (h : heap) (l : list loc) : Prop :=
  match l with
  | a :: ((b :: _) as tl) => nxt h a = Some b /\ prv h b = Some a /\ links h tl
  | _ => True
  end.

Definition rep (h : heap) (q : loc) (ns : list (loc * option D)) : Prop :=
  NoDup (q :: ns.*1) /\ links h (q :: ns.*1 ++ [q]) /\
  Forall (fun nd => dat h nd.1 = Some nd.2) ns.

(** The heap changed at most at [l]. *)
Definition same_but (l : list loc) (h h' : heap) : Prop :=
  forall x, x ∉ l -> h' !! x = h !! x.

Lemma same_but_one a l h h' : same_but [a] h h' -> a ∈ l -> same_but l h h'.
Proof. intros H Ha x Hx. apply H. set_solver. Qed.

Lemma same_but_trans l h1 h2 h3 : same_but l h1 h2 -> same_but l h2 h3 -> same_but l h1 h3.
Proof. intros H1 H2 x Hx. by rewrite H2, H1. Qed.

Ltac same_but_tac :=
  repeat first [ eassumption
    | match goal with
      | H : same_but [_] ?h ?h' |- same_but _ ?g ?h' =>
          eapply same_but_trans; [|apply (same_but_one _ _ _ _ H); first [assumption | repeat constructor]]
      end
    | intros ? ?; reflexivity ].

Lemma links_cons2 h a b l :
  links h (a :: b :: l) <-> nxt h a = Some b /\ prv h b = Some a /\ links h (b :: l).
Proof. done. Qed.

Lemma links_app h l1 x l2 : links h (l1 ++ x :: l2) <-> links h (l1 ++ [x]) /\ links h (x :: l2).
Proof.
  induction l1 as [|a [|b l1] IH]; [simpl; naive_solver| |].
  - destruct l2; simpl; naive_solver.
  - cbn [app] in *. rewrite !links_cons2, IH. naive_solver.
Qed.

Lemma links_frame h h' l :
  links h l ->
  (forall x, x ∈ removelast l -> nxt h' x = nxt h x) ->
  (forall x, x ∈ tail l -> prv h' x = prv h x) ->
  links h' l.
Proof.
  induction l as [|a [|b l] IH]; [done..|].
  intros (H1 & H2 & H3) Hn Hp. split; [|split].
  - rewrite Hn; [done|]. set_solver.
  - rewrite Hp; [done|]. set_solver.
  - apply IH; [done| |].
    + intros x Hx. apply Hn. change (x ∈ a :: removelast (b :: l)). set_solver.
    + intros x Hx. apply Hp. simpl in *. set_solver.
Qed.

Lemma rep_frame h h' q ns :
  rep h q ns -> (forall x, x ∈ q :: ns.*1 -> h' !! x = h !! x) -> rep h' q ns.
Proof.
  intros (Hnd & Hl & Hd) Hf. split; [done|split].
  - eapply links_frame; [done| |]; intros x Hx.
    + change (q :: ns.*1 ++ [q]) with ((q :: ns.*1) ++ [q]) in Hx.
      rewrite removelast_last in Hx. unfold nxt. by rewrite Hf.
    + simpl in Hx. unfold prv. rewrite Hf; set_solver.
  - rewrite Forall_forall in *. intros [x d] Hx. unfold dat. rewrite Hf.
    + by apply (Hd (x, d)).
    + apply list_elem_of_further, list_elem_of_fmap. by exists (x, d).
Qed.

(** ** The effect of the primitive accesses *)

Lemma nxt_live h x y : nxt h x = Some y -> is_Some (h !! x).
Proof. unfold nxt. destruct (h !! x); naive_solver. Qed.

Lemma prv_live h x y : prv h x = Some y -> is_Some (h !! x).
Proof. unfold prv. destruct (h !! x); naive_solver. Qed.

Lemma get_next_run h x : is_Some (h !! x) -> get_next (Some x) h = Some (nxt h x, h).
Proof. intros [n Hn]. unfold get_next, load, nxt, mbind, M_bind. rewrite Hn. done. Qed.

Lemma get_prev_run h x : is_Some (h !! x) -> get_prev (Some x) h = Some (prv h x, h).
Proof. intros [n Hn]. unfold get_prev, load, prv, mbind, M_bind. rewrite Hn. done. Qed.

Lemma get_data_run h x d : dat h x = Some d -> get_data (Some x) h = Some (d, h).
Proof.
  unfold get_data, load, dat, mbind, M_bind.
  destruct (h !! x) eqn:E; naive_solver.
Qed.

Lemma set_next_run h a v : is_Some (h !! a) ->
  exists h', set_next (Some a) v h = Some (tt, h') /\
    (forall x, nxt h' x = if decide (x = a) then v else nxt h x) /\
    (forall x, prv h' x = prv h x) /\ (forall x, dat h' x = dat h x) /\
    same_but [a] h h' /\ dom h' = dom h.
Proof.
  intros [n Hn]. unfold set_next, store. rewrite Hn. eexists; split; [done|].
  unfold nxt, prv, dat, same_but. repeat split.
  - intros x. rewrite lookup_insert. repeat case_decide; simplify_eq; done.
  - intros x. rewrite lookup_insert. case_decide; simplify_eq; [by rewrite Hn|done].
  - intros x. rewrite lookup_insert. case_decide; simplify_eq; [by rewrite Hn|done].
  - intros x Hx. rewrite lookup_insert_ne; set_solver.
  - rewrite dom_insert_L. apply elem_of_dom_2 in Hn. set_solver.
Qed.

Lemma set_prev_run h a v : is_Some (h !! a) ->
  exists h', set_prev (Some a) v h = Some (tt, h') /\
    (forall x, prv h' x = if decide (x = a) then v else prv h x) /\
    (forall x, nxt h' x = nxt h x) /\ (forall x, dat h' x = dat h x) /\
    same_but [a] h h' /\ dom h' = dom h.
Proof.
  intros [n Hn]. unfold set_prev, store. rewrite Hn. eexists; split; [done|].
  unfold nxt, prv, dat, same_but. repeat split.
  - intros x. rewrite lookup_insert. repeat case_decide; simplify_eq; done.
  - intros x. rewrite lookup_insert. case_decide; simplify_eq; [by rewrite Hn|done].
  - intros x. rewrite lookup_insert. case_decide; simplify_eq; [by rewrite Hn|done].
  - intros x Hx. rewrite lookup_insert_ne; set_solver.
  - rewrite dom_insert_L. apply elem_of_dom_2 in Hn. set_solver.
Qed.

Lemma live_dom (h h' : heap) x : dom h' = dom h -> is_Some (h !! x) -> is_Some (h' !! x).
Proof. intros Hd. rewrite <-!elem_of_dom. by rewrite Hd. Qed.

Lemma bind_run {A B} (m : M A) (f : A -> M B) h a h' :
  m h = Some (a, h') -> (m ≫= f) h = f a h'.
Proof. unfold mbind, M_bind. by intros ->. Qed.

(** ** Unlinking and linking *)

Lemma links_join h h' A a b B :
  links h (A ++ [a]) -> links h (b :: B) ->
  nxt h' a = Some b -> prv h' b = Some a ->
  (forall x, x ∈ A -> nxt h' x = nxt h x) ->
  (forall x, x ∈ tail (A ++ [a]) -> prv h' x = prv h x) ->
  (forall x, x ∈ removelast (b :: B) -> nxt h' x = nxt h x) ->
  (forall x, x ∈ B -> prv h' x = prv h x) ->
  links h' (A ++ a :: b :: B).
Proof.
  intros HA HB Hn Hp H1 H2 H3 H4. apply links_app. split; [|split; [done|split; [done|]]].
  - eapply links_frame; [done| |done]. by rewrite removelast_last.
  - by eapply links_frame.
Qed.

(** The nodes around a gap of the ring: the one before is the last of
    [q :: l1], the one after the first of [l2 ++ [q]]. *)
Lemma ring_split (q : loc) l1 l2 : NoDup (q :: l1 ++ l2) ->
  exists A a b B, q :: l1 = A ++ [a] /\ l2 ++ [q] = b :: B /\
    tail (A ++ [a]) = l1 /\ removelast (b :: B) = l2 /\
    a ∉ A /\ a ∉ l2 /\ b ∉ l1 /\ b ∉ B /\ a ∈ q :: l1 /\ b ∈ q :: l2 /\
    (forall x, x ∈ A -> x ∈ q :: l1) /\ (forall x, x ∈ B -> x ∈ q :: l2).
Proof.
  intros [Hq [H1 [Hd H2]]%NoDup_app]%NoDup_cons.
  destruct (exists_last (l := q :: l1)) as (A & a & HA); [done|].
  assert (exists b B, l2 ++ [q] = b :: B) as (b & B & HB) by (destruct l2; eauto).
  exists A, a, b, B. rewrite <-HA, <-HB, removelast_last.
  assert (NoDup (A ++ [a])) as [_ [Ha _]]%NoDup_app.
  { rewrite <-HA. apply NoDup_cons; set_solver. }
  assert (NoDup (b :: B)) as [Hb _]%NoDup_cons.
  { rewrite <-HB. apply NoDup_app. split; [done|]. split; [set_solver|]. apply NoDup_singleton. }
  assert (a ∈ q :: l1) by (rewrite HA; set_solver).
  assert (b ∈ l2 ++ [q]) by (rewrite HB; set_solver).
  assert (forall x, x ∈ B -> x ∈ l2 ++ [q]) by (rewrite HB; set_solver).
  assert (forall x, x ∈ A -> x ∈ q :: l1) by (rewrite HA; set_solver).
  repeat split; set_solver.
Qed.

Lemma unlink_run h q l1 n d l2 :
  rep h q (l1 ++ (n, d) :: l2) ->
  exists h', unlink (Some n) h = Some (tt, h') /\ rep h' q (l1 ++ l2) /\
    h' !! n = h !! n /\ dat h n = Some d /\
    same_but (q :: (l1 ++ l2).*1) h h' /\ dom h' = dom h.
Proof.
  intros (Hnd & Hl & Hd). unfold rep. rewrite fmap_app, fmap_cons in Hnd, Hl.
  rewrite fmap_app. cbn [fst] in Hnd, Hl. set (L1 := l1.*1) in *. set (L2 := l2.*1) in *.
  assert (n ∉ q :: L1 ++ L2 /\ NoDup (q :: L1 ++ L2)) as [Hn Hnd'].
  { assert (q :: L1 ++ n :: L2 ≡ₚ n :: q :: L1 ++ L2) as Hp by solve_Permutation.
    rewrite Hp in Hnd. by apply NoDup_cons. }
  destruct (ring_split q L1 L2 Hnd')
    as (A & a & b & B & HA & HB & Ht & Hr & HaA & HaL & HbL & HbB & Ha & Hb & _ & _).
  assert (links h (A ++ a :: n :: b :: B)) as [HlA (Hna & Hpn & Hnn & Hpb & HlB)]%links_app.
  { rewrite <-HB. replace (A ++ a :: n :: L2 ++ [q]) with ((A ++ [a]) ++ n :: L2 ++ [q])
      by (by rewrite <-app_assoc). rewrite <-HA. cbn [app]. by rewrite <-app_assoc in Hl. }
  pose proof (nxt_live _ _ _ Hna) as La. pose proof (nxt_live _ _ _ Hnn) as Ln.
  pose proof (prv_live _ _ _ Hpb) as Lb.
  unfold unlink.
  rewrite (bind_run _ _ _ _ _ (get_prev_run _ _ Ln)), Hpn.
  rewrite (bind_run _ _ _ _ _ (get_next_run _ _ Ln)), Hnn.
  destruct (set_next_run h a (Some b) La) as (h1 & R1 & N1 & P1 & D1 & S1 & Dm1).
  rewrite (bind_run _ _ _ _ _ R1).
  pose proof (live_dom _ _ _ Dm1 Ln) as Ln1. pose proof (live_dom _ _ _ Dm1 Lb) as Lb1.
  rewrite (bind_run _ _ _ _ _ (get_next_run _ _ Ln1)).
  rewrite (bind_run _ _ _ _ _ (get_prev_run _ _ Ln1)).
  rewrite N1, P1, Hnn, Hpn. rewrite decide_False by set_solver.
  destruct (set_prev_run h1 b (Some a) Lb1) as (h2 & R2 & P2 & N2 & D2 & S2 & Dm2).
  exists h2. split; [done|].
  assert (same_but (q :: L1 ++ L2) h h2) as Hsame.
  { assert (a ∈ q :: L1 ++ L2) by (clear -Ha; set_solver).
    assert (b ∈ q :: L1 ++ L2) by (clear -Hb; set_solver). same_but_tac. }
  split_and!.
  - done.
  - replace (q :: (L1 ++ L2) ++ [q]) with (A ++ a :: b :: B).
    2: { rewrite <-HB. change (q :: (L1 ++ L2) ++ [q]) with ((q :: L1 ++ L2) ++ [q]).
         change (q :: L1 ++ L2) with ((q :: L1) ++ L2). rewrite HA, <-!app_assoc. done. }
    apply (links_join h); [done|done|..].
    + by rewrite N2, N1, decide_True.
    + by rewrite P2, decide_True.
    + intros x Hx. rewrite N2, N1, decide_False; [done|set_solver].
    + rewrite Ht. intros x Hx. rewrite P2, decide_False, P1; [done|set_solver].
    + rewrite Hr. intros x Hx. rewrite N2, N1, decide_False; [done|set_solver].
    + intros x Hx. rewrite P2, decide_False, P1; [done|set_solver].
  - apply Forall_app in Hd as [Hd1 [_ Hd2]%Forall_cons].
    apply Forall_app; split; eapply Forall_impl; eauto; cbn; intros; by rewrite D2, D1.
  - apply Hsame. done.
  - apply Forall_app in Hd as [_ [Hd _]%Forall_cons]. done.
  - done.
  - congruence.
Qed.

Lemma link_tail_run h q ns n d :
  rep h q ns -> n ∉ q :: ns.*1 -> dat h n = Some d ->
  exists h', link_tail (Some q) (Some n) h = Some (tt, h') /\ rep h' q (ns ++ [(n, d)]) /\
    same_but (n :: q :: ns.*1) h h' /\ dom h' = dom h.
Proof.
  intros (Hnd & Hl & Hd) Hn Hdn. unfold rep. rewrite fmap_app. cbn [fmap list_fmap fst].
  set (L := ns.*1) in *.
  destruct (ring_split q L [] ltac:(by rewrite app_nil_r))
    as (A & a & b & B & HA & HB & Ht & Hr & HaA & _ & _ & _ & Ha & _ & HAi & _).
  injection HB as <- <-.
  assert (links h (A ++ a :: [q])) as [HlA (Hna & Hpq & _)]%links_app.
  { replace (A ++ a :: [q]) with ((A ++ [a]) ++ [q]) by (by rewrite <-app_assoc).
    by rewrite <-HA. }
  assert (is_Some (h !! n)) as Ln by (unfold dat in Hdn; destruct (h !! n); naive_solver).
  pose proof (nxt_live _ _ _ Hna) as La. pose proof (prv_live _ _ _ Hpq) as Lq.
  unfold link_tail.
  destruct (set_next_run h n (Some q) Ln) as (h1 & R1 & N1 & P1 & D1 & S1 & Dm1).
  rewrite (bind_run _ _ _ _ _ R1).
  rewrite (bind_run _ _ _ _ _ (get_prev_run _ _ (live_dom _ _ _ Dm1 Lq))), P1, Hpq.
  destruct (set_prev_run h1 n (Some a) (live_dom _ _ _ Dm1 Ln)) as (h2 & R2 & P2 & N2 & D2 & S2 & Dm2).
  rewrite (bind_run _ _ _ _ _ R2).
  assert (dom h2 = dom h) as Dm2' by congruence.
  rewrite (bind_run _ _ _ _ _ (get_prev_run _ _ (live_dom _ _ _ Dm2' Lq))), P2, P1, Hpq.
  rewrite decide_False by set_solver.
  destruct (set_next_run h2 a (Some n) (live_dom _ _ _ Dm2' La)) as (h3 & R3 & N3 & P3 & D3 & S3 & Dm3).
  rewrite (bind_run _ _ _ _ _ R3).
  assert (dom h3 = dom h) as Dm3' by congruence.
  destruct (set_prev_run h3 q (Some n) (live_dom _ _ _ Dm3' Lq)) as (h4 & R4 & P4 & N4 & D4 & S4 & Dm4).
  exists h4. split; [done|].
  assert (forall x, nxt h4 x = if decide (x = a) then Some n else if decide (x = n) then Some q else nxt h x)
    as HN by (intros x; by rewrite N4, N3, N2, N1).
  assert (forall x, prv h4 x = if decide (x = q) then Some n else if decide (x = n) then Some a else prv h x)
    as HP by (intros x; by rewrite P4, P3, P2, P1).
  split_and!.
  - change (q :: L ++ [n]) with ((q :: L) ++ [n]). apply NoDup_app. split; [done|].
    split; [set_solver|apply NoDup_singleton].
  - replace (q :: (L ++ [n]) ++ [q]) with (A ++ a :: n :: [q]).
    2: { change (q :: (L ++ [n]) ++ [q]) with (((q :: L) ++ [n]) ++ [q]).
         rewrite HA, <-!app_assoc. done. }
    apply links_app; split; [|cbn; rewrite !HN, !HP].
    + eapply links_frame; [done| |].
      * rewrite removelast_last. intros x Hx. rewrite HN, !decide_False; set_solver.
      * rewrite Ht. intros x Hx. apply NoDup_cons in Hnd. rewrite HP, !decide_False; set_solver.
    + assert (n <> a) by (intros ->; by apply Hn). assert (n <> q) by set_solver.
      split_and!; repeat case_decide; first [done | congruence].
  - apply Forall_app; split.
    + eapply Forall_impl; eauto; cbn; intros. by rewrite D4, D3, D2, D1.
    + apply Forall_singleton. cbn. by rewrite D4, D3, D2, D1.
  - assert (a ∈ n :: q :: L) by (clear -Ha; set_solver).
    assert (q ∈ n :: q :: L) by (clear; set_solver).
    assert (n ∈ n :: q :: L) by (clear; set_solver). same_but_tac.
  - congruence.
Qed.

(** ** The operations implement the list operations *)

Lemma cons_head (q : loc) (l : list loc) : exists b l', l ++ [q] = b :: l'.
Proof. destruct l; eauto. Qed.

Lemma rep_live h q ns x : rep h q ns -> x ∈ q :: ns.*1 -> is_Some (h !! x).
Proof.
  intros (_ & Hl & _) Hx. change (q :: ns.*1 ++ [q]) with ((q :: ns.*1) ++ [q]) in Hl.
  apply list_elem_of_split in Hx as (l1 & l2 & Hx). rewrite Hx in Hl.
  rewrite <-app_assoc in Hl. cbn [app] in Hl. apply links_app in Hl as [_ Hl].
  destruct (cons_head q l2) as (b & B & HB). rewrite HB in Hl.
  destruct Hl as [Hl _]. by eapply nxt_live.
Qed.

Lemma alloc_run h d :
  exists n, alloc_init_node true d h = Some (Some n, <[n := Qnode None None d]> h) /\ h !! n = None.
Proof.
  eexists. split; [done|]. apply not_elem_of_dom, is_fresh.
Qed.

Lemma rep_alloc h q ns n v : rep h q ns -> h !! n = None ->
  n ∉ q :: ns.*1 /\ rep (<[n := v]> h) q ns.
Proof.
  intros Hr Hn. assert (n ∉ q :: ns.*1) as Hnin.
  { intros Hin. destruct (rep_live _ _ _ _ Hr Hin). congruence. }
  split; [done|]. eapply rep_frame; [done|]. intros x Hx. apply lookup_insert_ne. set_solver.
Qed.

Lemma rep_disjoint_frame h h' q' ns' l :
  rep h q' ns' -> same_but l h h' -> (forall x, x ∈ l -> x ∉ q' :: ns'.*1) -> rep h' q' ns'.
Proof. intros Hr Hs Hd. eapply rep_frame; [done|]. intros x Hx. apply Hs. naive_solver. Qed.

Lemma queue_init_run h :
  exists q h', queue_init true h = Some (Some q, h') /\ h !! q = None /\ rep h' q [] /\
    same_but [q] h h'.
Proof.
  destruct (alloc_run h None) as (q & Ra & Hq). exists q. unfold queue_init.
  rewrite (bind_run _ _ _ _ _ Ra).
  set (h0 := <[q := _]> h). assert (is_Some (h0 !! q)) as L0 by (subst h0; by rewrite lookup_insert_eq).
  destruct (set_next_run h0 q (Some q) L0) as (h1 & R1 & N1 & P1 & _ & S1 & Dm1).
  rewrite (bind_run _ _ _ _ _ R1).
  destruct (set_prev_run h1 q (Some q) (live_dom _ _ _ Dm1 L0)) as (h2 & R2 & P2 & N2 & _ & S2 & _).
  rewrite (bind_run _ _ _ _ _ R2). exists h2. split_and!; [done|done| |].
  - split; [apply NoDup_singleton|]. cbn. rewrite N2, N1, P2, !decide_True by done.
    split; [done|constructor].
  - intros x Hx. rewrite S2, S1 by done. apply lookup_insert_ne. set_solver.
Qed.

Lemma enqueue_run h q ns d :
  rep h q ns ->
  exists n h', enqueue true (Some q) d h = Some (Some n, h') /\ h !! n = None /\
    rep h' q (ns ++ [(n, d)]) /\ same_but (n :: q :: ns.*1) h h'.
Proof.
  intros Hr. destruct (alloc_run h d) as (n & Ra & Hn).
  destruct (rep_alloc h q ns n (Qnode None None d) Hr Hn) as [Hnin Hr'].
  destruct (link_tail_run _ q ns n d Hr' Hnin) as (h' & Rl & Hrep & Hs & _).
  { unfold dat. by rewrite lookup_insert_eq. }
  exists n, h'. unfold enqueue. rewrite (bind_run _ _ _ _ _ Ra), (bind_run _ _ _ _ _ Rl).
  split_and!; [done..|]. intros x Hx. rewrite Hs by done. apply lookup_insert_ne. set_solver.
Qed.

Lemma free_run h n : is_Some (h !! n) -> free (Some n) h = Some (tt, delete n h).
Proof. intros [v Hv]. unfold free. by rewrite Hv. Qed.

Lemma queue_remove_run h q l1 n d l2 :
  rep h q (l1 ++ (n, d) :: l2) ->
  exists h', queue_remove (Some n) h = Some (d, h') /\ rep h' q (l1 ++ l2) /\ h' !! n = None /\
    same_but (n :: q :: (l1 ++ l2).*1) h h'.
Proof.
  intros Hr. pose proof Hr as (Hnd & _ & _).
  destruct (unlink_run _ _ _ _ _ _ Hr) as (h1 & R1 & Hr1 & E1 & Hd & Hs & _).
  assert (is_Some (h1 !! n)) as L1.
  { rewrite E1. unfold dat in Hd. destruct (h !! n); naive_solver. }
  exists (delete n h1). unfold queue_remove.
  rewrite (bind_run _ _ _ _ _ (get_data_run _ _ _ Hd)), (bind_run _ _ _ _ _ R1),
    (bind_run _ _ _ _ _ (free_run _ _ L1)).
  assert (n ∉ q :: (l1 ++ l2).*1) as Hn.
  { rewrite fmap_app, fmap_cons in Hnd. rewrite fmap_app. cbn in Hnd.
    assert (q :: l1.*1 ++ n :: l2.*1 ≡ₚ n :: q :: l1.*1 ++ l2.*1) as Hp by solve_Permutation.
    rewrite Hp in Hnd. by apply NoDup_cons in Hnd as [? _]. }
  split_and!; [done| | |].
  - eapply rep_frame; [done|]. intros x Hx. apply lookup_delete_ne. set_solver.
  - apply lookup_delete_eq.
  - intros x Hx. rewrite lookup_delete_ne by set_solver. apply Hs. set_solver.
Qed.

Lemma dequeue_empty h q : rep h q [] -> dequeue (Some q) h = Some (None, h).
Proof.
  intros (_ & (Hn & _) & _). unfold dequeue.
  rewrite (bind_run _ _ _ _ _ (get_next_run _ _ (nxt_live _ _ _ Hn))), Hn.
  by rewrite bool_decide_true.
Qed.

(** [dequeue] unlinks the head in place, which is [queue_remove] of the head. *)
Lemma dequeue_head h q n d ns :
  rep h q ((n, d) :: ns) -> dequeue (Some q) h = queue_remove (Some n) h.
Proof.
  intros Hr. pose proof Hr as (Hnd & Hl & Hd).
  destruct (cons_head q ns.*1) as (b & B & HB).
  cbn [fmap list_fmap fst app] in Hl. rewrite HB in Hl.
  destruct Hl as (Hnq & Hpn & Hnn & Hpb & _).
  apply Forall_cons in Hd as [Hdn _]. cbn in Hdn.
  assert (n <> q) by (intros ->; apply NoDup_cons in Hnd as [Hq _]; apply Hq; cbn; set_solver).
  pose proof (nxt_live _ _ _ Hnq) as Lq. pose proof (nxt_live _ _ _ Hnn) as Ln.
  unfold dequeue, queue_remove, unlink.
  rewrite (bind_run _ _ _ _ _ (get_next_run _ _ Lq)), Hnq, bool_decide_false by congruence.
  rewrite !(bind_run _ _ _ _ _ (get_data_run _ _ _ Hdn)).
  unfold mbind, M_bind. rewrite (get_next_run _ _ Ln), Hnn.
  rewrite (get_prev_run _ _ Ln), Hpn. rewrite (get_next_run _ _ Ln), Hnn.
  destruct (set_next (Some q) (Some b) h) as [[[] h1]|]; [|done].
  destruct (get_next (Some n) h1) as [[x h2]|]; [|done].
  destruct (get_prev (Some n) h2) as [[y h3]|]; done.
Qed.

Lemma queue_move_to_tail_run h q l1 n d l2 :
  rep h q (l1 ++ (n, d) :: l2) ->
  exists h', queue_move_to_tail (Some q) (Some n) h = Some (Some n, h') /\
    rep h' q (l1 ++ l2 ++ [(n, d)]) /\ same_but (n :: q :: (l1 ++ l2).*1) h h'.
Proof.
  intros Hr. destruct (unlink_run _ _ _ _ _ _ Hr) as (h1 & R1 & Hr1 & E1 & Hd & Hs & Hdom).
  pose proof Hr as (Hnd & Hl & _). rewrite fmap_app, fmap_cons in Hnd, Hl. cbn in Hnd.
  assert (q :: l1.*1 ++ n :: l2.*1 ≡ₚ n :: q :: (l1 ++ l2).*1) as Hp
    by (rewrite fmap_app; solve_Permutation).
  rewrite Hp in Hnd. apply NoDup_cons in Hnd as [Hn _].
  assert (n <> q) as Hnq by set_solver.
  unfold queue_move_to_tail. rewrite bool_decide_false by done.
  destruct (cons_head q l2.*1) as (b & B & HB).
  assert (nxt h n = Some b) as Hnn.
  { cbn [fst] in Hl. rewrite <-app_assoc in Hl. cbn [app] in Hl. rewrite HB in Hl.
    change (q :: l1.*1 ++ n :: b :: B) with ((q :: l1.*1) ++ n :: b :: B) in Hl.
    apply links_app in Hl as [_ Hl]. by destruct Hl. }
  rewrite (bind_run _ _ _ _ _ (get_next_run _ _ (nxt_live _ _ _ Hnn))), Hnn.
  case_bool_decide as Hb.
  - assert (l2 = []) as ->.
    { destruct l2 as [|[m e] l2]; [done|]. cbn in HB. injection HB as -> _. injection Hb as ->.
      exfalso. destruct Hr as (Hnd & _ & _). rewrite fmap_app in Hnd. cbn in Hnd.
      apply NoDup_cons in Hnd as [Hq _]. apply Hq. set_solver. }
    exists h. split; [done|]. split; [by rewrite app_nil_l|]. by intros x _.
  - destruct (link_tail_run h1 q (l1 ++ l2) n d Hr1 Hn) as (h2 & R2 & Hr2 & Hs2 & _).
    { unfold dat. by rewrite E1. }
    exists h2. rewrite (bind_run _ _ _ _ _ R1), (bind_run _ _ _ _ _ R2).
    split; [done|]. split; [by rewrite app_assoc|].
    intros x Hx. rewrite Hs2 by done. apply Hs. set_solver.
Qed.

Lemma queue_move_to_tail_of_run h f t l1 n d l2 ns :
  rep h f (l1 ++ (n, d) :: l2) -> rep h t ns ->
  (forall x, x ∈ f :: (l1 ++ (n, d) :: l2).*1 -> x ∉ t :: ns.*1) ->
  exists h', queue_move_to_tail_of (Some f) (Some t) (Some n) h = Some (Some n, h') /\
    rep h' f (l1 ++ l2) /\ rep h' t (ns ++ [(n, d)]) /\
    same_but (f :: (l1 ++ (n, d) :: l2).*1 ++ t :: ns.*1) h h'.
Proof.
  intros Hf Ht Hdis. destruct (unlink_run _ _ _ _ _ _ Hf) as (h1 & R1 & Hr1 & E1 & Hd & Hs & Hdom).
  pose proof Hf as (Hnd & _ & _). rewrite fmap_app, fmap_cons in Hnd, Hdis |- *. cbn in Hnd, Hdis.
  assert (n ∉ t :: ns.*1) as Hnt by (apply Hdis; set_solver).
  assert (n ∉ f :: (l1 ++ l2).*1) as Hnf.
  { assert (f :: l1.*1 ++ n :: l2.*1 ≡ₚ n :: f :: l1.*1 ++ l2.*1) as Hp by solve_Permutation.
    rewrite Hp in Hnd. rewrite fmap_app. by apply NoDup_cons in Hnd as [? _]. }
  assert (rep h1 t ns) as Ht1.
  { eapply rep_disjoint_frame; [done..|]. rewrite fmap_app. intros x Hx. apply Hdis. set_solver. }
  destruct (link_tail_run h1 t ns n d Ht1 Hnt) as (h2 & R2 & Hr2 & Hs2 & _).
  { unfold dat. by rewrite E1. }
  exists h2. unfold queue_move_to_tail_of.
  rewrite !bool_decide_false by set_solver. cbn [orb].
  rewrite (bind_run _ _ _ _ _ R1), (bind_run _ _ _ _ _ R2). split_and!; [done| |done|].
  - eapply rep_disjoint_frame; [done..|]. rewrite fmap_app in *.
    intros x [->|Hx]%elem_of_cons; [done|]. intros Hx'. apply (Hdis x); set_solver.
  - rewrite fmap_app in Hs. cbn [fst]. intros x Hx. rewrite Hs2 by set_solver. apply Hs. set_solver.
Qed.

Lemma prequeue_run h q ns d :
  rep h q ns ->
  exists n h', prequeue true (Some q) d h = Some (Some n, h') /\ h !! n = None /\
    rep h' q ((n, d) :: ns) /\ same_but (n :: q :: ns.*1) h h'.
Proof.
  intros Hr. destruct (alloc_run h d) as (n & Ra & Hn).
  destruct (rep_alloc h q ns n (Qnode None None d) Hr Hn) as [Hnin Hr'].
  set (h0 := <[n := _]> h) in *. pose proof Hr' as (Hnd & Hl & Hd).
  assert (is_Some (h0 !! n)) as Ln by (subst h0; by rewrite lookup_insert_eq).
  destruct (cons_head q ns.*1) as (b & B & HB).
  cbn [app] in Hl. rewrite HB in Hl. destruct Hl as (Hnq & Hpb & HlB).
  pose proof (nxt_live _ _ _ Hnq) as Lq. pose proof (prv_live _ _ _ Hpb) as Lb.
  assert (b ∈ q :: ns.*1 /\ b ∉ B /\ (forall x, x ∈ B -> x ∈ q :: ns.*1)) as (Hb & HbB & HB').
  { assert (b ∈ ns.*1 ++ [q]) by (rewrite HB; set_solver).
    assert (NoDup (ns.*1 ++ [q])) as HndB by (rewrite Permutation_app_comm; done).
    rewrite HB in HndB. apply NoDup_cons in HndB as [? _].
    assert (forall x, x ∈ B -> x ∈ ns.*1 ++ [q]) by (rewrite HB; set_solver). set_solver. }
  unfold prequeue. rewrite (bind_run _ _ _ _ _ Ra).
  fold h0. rewrite (bind_run _ _ _ _ _ (get_next_run _ _ Lq)), Hnq.
  destruct (set_prev_run h0 b (Some n) Lb) as (h1 & R1 & P1 & N1 & D1 & S1 & M1).
  rewrite (bind_run _ _ _ _ _ R1).
  rewrite (bind_run _ _ _ _ _ (get_next_run _ _ (live_dom _ _ _ M1 Lq))), N1, Hnq.
  destruct (set_next_run h1 n (Some b) (live_dom _ _ _ M1 Ln)) as (h2 & R2 & N2 & P2 & D2 & S2 & M2).
  rewrite (bind_run _ _ _ _ _ R2). assert (dom h2 = dom h0) as M2' by congruence.
  destruct (set_prev_run h2 n (Some q) (live_dom _ _ _ M2' Ln)) as (h3 & R3 & P3 & N3 & D3 & S3 & M3).
  rewrite (bind_run _ _ _ _ _ R3). assert (dom h3 = dom h0) as M3' by congruence.
  destruct (set_next_run h3 q (Some n) (live_dom _ _ _ M3' Lq)) as (h4 & R4 & N4 & P4 & D4 & S4 & M4).
  rewrite (bind_run _ _ _ _ _ R4). exists n, h4.
  assert (forall x, nxt h4 x = if decide (x = q) then Some n else if decide (x = n) then Some b else nxt h0 x)
    as HN by (intros x; by rewrite N4, N3, N2, N1).
  assert (forall x, prv h4 x = if decide (x = n) then Some q else if decide (x = b) then Some n else prv h0 x)
    as HP by (intros x; by rewrite P4, P3, P2, P1).
  assert (n <> q /\ n <> b) as [Hnq' Hnb] by (split; intros ->; apply Hnin; [left|done]).
  split_and!; [done|done|split_and!|].
  - cbn. apply NoDup_cons in Hnd. rewrite !NoDup_cons. clear -Hnd Hnin. set_solver.
  - cbn [fmap list_fmap fst app]. rewrite HB, !links_cons2, !HN, !HP.
    split_and!; try (repeat case_decide; congruence).
    eapply links_frame; [done| |]; intros x Hx; rewrite ?HN, ?HP.
    + rewrite <-HB, removelast_last in Hx. apply NoDup_cons in Hnd as [Hq _].
      clear -Hx Hq Hnin. rewrite !decide_False; set_solver.
    + cbn in Hx. clear -Hx HbB HB' Hnin. rewrite !decide_False; [done|set_solver..].
  - apply Forall_cons. split; cbn.
    + rewrite D4, D3, D2, D1. subst h0. unfold dat. by rewrite lookup_insert_eq.
    + eapply Forall_impl; eauto. cbn. intros. by rewrite D4, D3, D2, D1.
  - assert (same_but (n :: q :: ns.*1) h h0) as S0.
    { intros x Hx. apply lookup_insert_ne. intros <-. apply Hx. left. }
    assert (b ∈ n :: q :: ns.*1) by (right; done).
    assert (q ∈ n :: q :: ns.*1) by (right; left).
    assert (n ∈ n :: q :: ns.*1) by left. same_but_tac.
Qed.

(** Draining: the callback of [queue_destroy] sees the elements up to the
    first [NULL] one. *)
Definition some_nodes (ps : list (loc * D)) : list (loc * option D) :=
  (fun p => (p.1, Some p.2)) <$> ps.

Lemma some_nodes_cons n d ps : some_nodes ((n, d) :: ps) = (n, Some d) :: some_nodes ps.
Proof. done. Qed.

(** What stops the walk: the end of the queue, or a [NULL] element. *)
Definition stops (tl : list (loc * option D)) : Prop :=
  tl = [] \/ exists n tl', tl = (n, None) :: tl'.

Lemma queue_drain_run ps : forall fuel h q tl,
  rep h q (some_nodes ps ++ tl) -> stops tl -> (length ps < fuel)%nat ->
  exists h', queue_drain fuel (Some q) h = Some (ps.*2, h') /\ rep h' q (tail tl) /\
    (forall x, x ∈ ps.*1 -> h' !! x = None) /\ same_but (q :: (some_nodes ps ++ tl).*1) h h'.
Proof.
  induction ps as [|[n d] ps IH]; intros [|fuel] h q tl Hr Hst Hf; [simpl in Hf; lia| |simpl in Hf; lia|];
    cbn [queue_drain].
  - destruct Hst as [->|(n & tl' & ->)].
    + exists h. rewrite (bind_run _ _ _ _ _ (dequeue_empty _ _ Hr)).
      split_and!; [done|done|set_solver|by intros x _].
    + destruct (queue_remove_run h q [] n None tl' Hr) as (h' & R & Hr' & _ & Hs).
      exists h'. rewrite <-(dequeue_head _ _ _ _ _ Hr) in R. rewrite (bind_run _ _ _ _ _ R).
      split_and!; [done|done|set_solver|]. intros x Hx. apply Hs. cbn in *. set_solver.
  - rewrite some_nodes_cons in *. cbn [app] in *.
    destruct (queue_remove_run h q [] n (Some d) _ Hr) as (h1 & R & Hr' & Hn & Hs).
    rewrite <-(dequeue_head _ _ _ _ _ Hr) in R. rewrite (bind_run _ _ _ _ _ R).
    destruct (IH fuel h1 q tl Hr' Hst) as (h2 & R2 & Hr2 & Hnone & Hs2); [simpl in Hf; lia|].
    exists h2. rewrite (bind_run _ _ _ _ _ R2). pose proof Hr as (Hnd & _ & _).
    cbn [fmap list_fmap fst] in Hnd.
    split_and!; [done|done| |].
    + cbn. intros x [->|Hx]%elem_of_cons; [|by apply Hnone].
      rewrite Hs2; [done|]. rewrite !NoDup_cons in Hnd. set_solver.
    + intros x Hx. cbn in Hx, Hs. rewrite Hs2, Hs; [done|set_solver..].
Qed.

(** ** Operation sequences

    A client names a node by the pointer an insertion returned; here it is
    named by its distance from the head, found by following [next]. *)

Fixpoint nth_node (k : nat) (q p : option loc) : M (option loc) :=
  nn ← get_next p;
  if bool_decide (nn = q) then mret None else
  match k with
  | O => mret nn
  | S k => nth_node k q nn
  end.

Inductive qop : Type :=
  | OpEnqueue (d : option D)
  | OpPrequeue (d : option D)
  | OpDequeue
  | OpRemove (k : nat)
  | OpMoveToTail (k : nat).

Definition heap_op (q : option loc) (op : qop) : M (option D) :=
  match op with
  | OpEnqueue d => _ ← enqueue true q d; mret None
  | OpPrequeue d => _ ← prequeue true q d; mret None
  | OpDequeue => dequeue q
  | OpRemove k => p ← nth_node k q q; queue_remove p
  | OpMoveToTail k => p ← nth_node k q q; _ ← queue_move_to_tail q p; mret None
  end.

(** The list each operation stands for. *)
Definition list_op (op : qop) (l : list (option D)) : option D * list (option D) :=
  match op with
  | OpEnqueue d => (None, l ++ [d])
  | OpPrequeue d => (None, d :: l)
  | OpDequeue => match l with [] => (None, []) | d :: l' => (d, l') end
  | OpRemove k => (mjoin (l !! k), delete k l)
  | OpMoveToTail k => (None, match l !! k with Some d => delete k l ++ [d] | None => l end)
  end.

Fixpoint heap_ops (q : option loc) (ops : list qop) : M (list (option D)) :=
  match ops with
  | [] => mret []
  | op :: ops => o ← heap_op q op; os ← heap_ops q ops; mret (o :: os)
  end.

Fixpoint list_ops (ops : list qop) (l : list (option D)) : list (option D) * list (option D) :=
  match ops with
  | [] => ([], l)
  | op :: ops =>
      let '(o, l') := list_op op l in
      let '(os, l'') := list_ops ops l' in
      (o :: os, l'')
  end.

Lemma nth_node_walk h q l2 : forall k p l1,
  rep h q (l1 ++ l2) -> last (q :: l1.*1) = Some p ->
  nth_node k (Some q) (Some p) h = Some (fst <$> l2 !! k, h).
Proof.
  induction l2 as [|[n d] l2 IH]; intros k p l1 Hr Hlast; pose proof Hr as (Hnd & Hl & _);
    apply last_Some in Hlast as [A HA].
  - rewrite app_nil_r in Hl. assert (links h (A ++ p :: [q])) as [_ [Hn _]]%links_app.
    { replace (A ++ p :: [q]) with ((A ++ [p]) ++ [q]) by (by rewrite <-app_assoc). by rewrite <-HA. }
    destruct k; cbn [nth_node];
      rewrite (bind_run _ _ _ _ _ (get_next_run _ _ (nxt_live _ _ _ Hn))), Hn;
      by rewrite bool_decide_true.
  - rewrite fmap_app in Hl, Hnd. cbn [fmap list_fmap fst] in Hl, Hnd.
    assert (links h (A ++ p :: n :: l2.*1 ++ [q])) as [_ [Hn _]]%links_app.
    { replace (A ++ p :: n :: l2.*1 ++ [q]) with ((A ++ [p]) ++ n :: l2.*1 ++ [q]) by (by rewrite <-app_assoc).
      rewrite <-HA. cbn [app]. by rewrite <-app_assoc in Hl. }
    destruct k; cbn [nth_node];
      rewrite (bind_run _ _ _ _ _ (get_next_run _ _ (nxt_live _ _ _ Hn))), Hn;
      (rewrite bool_decide_false; [|intros [= ->]; apply NoDup_cons in Hnd as [Hq _]; apply Hq; set_solver]).
    + done.
    + apply (IH k n (l1 ++ [(n, d)])); [by rewrite <-app_assoc|].
      rewrite fmap_app, app_comm_cons. apply last_snoc.
Qed.

Lemma heap_op_refines op h q ns :
  rep h q ns ->
  exists h' ns', heap_op (Some q) op h = Some ((list_op op ns.*2).1, h') /\
    rep h' q ns' /\ ns'.*2 = (list_op op ns.*2).2.
Proof.
  intros Hr. destruct op as [d|d| |k|k]; cbn [heap_op list_op].
  - destruct (enqueue_run _ _ _ d Hr) as (n & h' & R & _ & Hr' & _).
    exists h', (ns ++ [(n, d)]). rewrite (bind_run _ _ _ _ _ R), fmap_app. done.
  - destruct (prequeue_run _ _ _ d Hr) as (n & h' & R & _ & Hr' & _).
    exists h', ((n, d) :: ns). rewrite (bind_run _ _ _ _ _ R). done.
  - destruct ns as [|[n d] ns].
    + exists h, []. by rewrite (dequeue_empty _ _ Hr).
    + destruct (queue_remove_run h q [] n d ns Hr) as (h' & R & Hr' & _).
      exists h', ns. by rewrite (dequeue_head _ _ _ _ _ Hr), R.
  - rewrite (bind_run _ _ _ _ _ (nth_node_walk h q ns k q [] Hr eq_refl)).
    rewrite list_lookup_fmap. destruct (ns !! k) as [[n d]|] eqn:Hk; cbn.
    + rewrite <-(take_drop_middle _ _ _ Hk) in Hr.
      destruct (queue_remove_run _ _ _ _ _ _ Hr) as (h' & R & Hr' & _).
      exists h', (take k ns ++ drop (S k) ns). split; [done|]. split; [done|].
      by rewrite delete_take_drop, fmap_app, fmap_take, fmap_drop.
    + apply lookup_ge_None in Hk. exists h, ns. split; [done|]. split; [done|].
      rewrite delete_take_drop, take_ge, drop_ge, app_nil_r; rewrite ?length_fmap; [done|lia..].
  - rewrite (bind_run _ _ _ _ _ (nth_node_walk h q ns k q [] Hr eq_refl)).
    rewrite list_lookup_fmap. destruct (ns !! k) as [[n d]|] eqn:Hk; cbn [fmap option_fmap option_map fst snd].
    + rewrite <-(take_drop_middle _ _ _ Hk) in Hr.
      destruct (queue_move_to_tail_run _ _ _ _ _ _ Hr) as (h' & R & Hr' & _).
      rewrite (bind_run _ _ _ _ _ R).
      exists h', (take k ns ++ drop (S k) ns ++ [(n, d)]). split; [done|]. split; [done|].
      by rewrite delete_take_drop, !fmap_app, fmap_take, fmap_drop, <-app_assoc.
    + by exists h, ns.
Qed.

(** C36: Any sequence of [enqueue], [prequeue], [dequeue], [queue_remove] and
    [queue_move_to_tail] on a queue held in the heap runs without touching a
    dead node, returns the elements the same sequence of list operations
    returns, and leaves the heap holding the resulting list. *)
Theorem queue_ops_refine ops : forall h q ns,
  rep h q ns ->
  exists h' ns', heap_ops (Some q) ops h = Some ((list_ops ops ns.*2).1, h') /\
    rep h' q ns' /\ ns'.*2 = (list_ops ops ns.*2).2.
Proof.
  induction ops as [|op ops IH]; intros h q ns Hr.
  - by exists h, ns.
  - destruct (heap_op_refines op _ _ _ Hr) as (h1 & ns1 & R1 & Hr1 & E1).
    destruct (IH _ _ _ Hr1) as (h2 & ns2 & R2 & Hr2 & E2). exists h2, ns2.
    cbn [heap_ops list_ops]. rewrite (bind_run _ _ _ _ _ R1), (bind_run _ _ _ _ _ R2).
    destruct (list_op op ns.*2) as [o l]. cbn [fst snd] in *. subst l.
    by destruct (list_ops ops ns1.*2).
Qed.

(** [queue_move_to_tail_of] takes a node out of one queue and appends it to
    another without allocating: the node keeps its address and element, the
    rest of both queues keeps its order, and every other queue of the heap is
    untouched. *)
Theorem queue_move_to_tail_of_moves h f t l1 n d l2 ns :
  rep h f (l1 ++ (n, d) :: l2) -> rep h t ns ->
  (forall x, x ∈ f :: (l1 ++ (n, d) :: l2).*1 -> x ∉ t :: ns.*1) ->
  exists h', queue_move_to_tail_of (Some f) (Some t) (Some n) h = Some (Some n, h') /\
    rep h' f (l1 ++ l2) /\ rep h' t (ns ++ [(n, d)]) /\
    (forall q' ns', rep h q' ns' ->
       (forall x, x ∈ q' :: ns'.*1 -> x ∉ f :: (l1 ++ (n, d) :: l2).*1 /\ x ∉ t :: ns.*1) ->
       rep h' q' ns').
Proof.
  intros Hf Ht Hd. destruct (queue_move_to_tail_of_run _ _ _ _ _ _ _ _ Hf Ht Hd)
    as (h' & R & Hf' & Ht' & Hs). exists h'. split_and!; [done..|].
  intros q' ns' Hq Hdq. eapply rep_disjoint_frame; [done..|].
  intros x Hx Hin. destruct (Hdq x Hin) as [H1 H2].
  rewrite app_comm_cons in Hx. apply elem_of_app in Hx as [|]; contradiction.
Qed.

(** [queue_destroy] hands the callback the elements from head to tail and
    frees their nodes and the sentinel; a [NULL] element ends the walk, and the
    nodes behind it stay allocated. *)
Theorem queue_destroy_drains h q ps tl :
  rep h q (some_nodes ps ++ tl) -> stops tl ->
  exists h', queue_destroy (S (length ps)) (Some q) h = Some (ps.*2, h') /\
    (forall x, x ∈ q :: ps.*1 -> h' !! x = None) /\
    (forall x, x ∈ (tail tl).*1 -> is_Some (h' !! x)).
Proof.
  intros Hr Hst. destruct (queue_drain_run ps (S (length ps)) h q tl Hr Hst) as (h1 & R & Hr1 & Hn & _);
    [lia|].
  assert (is_Some (h1 !! q)) as Lq by (eapply rep_live; [done|left]).
  exists (delete q h1). unfold queue_destroy.
  rewrite (bind_run _ _ _ _ _ R), (bind_run _ _ _ _ _ (free_run _ _ Lq)). split_and!; [done| |].
  - intros x [->|Hx]%elem_of_cons; [apply lookup_delete_eq|]. rewrite lookup_delete_None. auto.
  - intros x Hx. pose proof Hr1 as (Hnd & _ & _). apply NoDup_cons in Hnd as [Hq _].
    rewrite lookup_delete_ne by (intros ->; done). eapply rep_live; [done|by right].
Qed.

End Queue.

(** ** Witnesses *)

(** A heap with two queues, [1] holding 10 and 20, and [2] holding 30. *)
Definition heap2 : gmap positive (@qnode nat) :=
  {[ 1%positive := Qnode (Some 4%positive) (Some 3%positive) None;
     3%positive := Qnode (Some 1%positive) (Some 4%positive) (Some 10%nat);
     4%positive := Qnode (Some 3%positive) (Some 1%positive) (Some 20%nat);
     2%positive := Qnode (Some 5%positive) (Some 5%positive) None;
     5%positive := Qnode (Some 2%positive) (Some 2%positive) (Some 30%nat) ]}.

Lemma heap2_rep1 : rep heap2 1%positive [(3%positive, Some 10%nat); (4%positive, Some 20%nat)].
Proof. split; [by apply (bool_decide_unpack _)|]. split; [done|]. by repeat constructor. Qed.

Lemma heap2_rep2 : rep heap2 2%positive [(5%positive, Some 30%nat)].
Proof. split; [by apply (bool_decide_unpack _)|]. split; [done|]. by repeat constructor. Qed.

Lemma queue_ops_refine_witness :
  exists h' ns', heap_ops (Some 1%positive)
      [OpMoveToTail 0; OpPrequeue (Some 5%nat); OpDequeue; OpDequeue] heap2
      = Some ([None; None; Some 5%nat; Some 20%nat], h') /\
    rep h' 1%positive ns' /\ ns'.*2 = [Some 10%nat].
Proof.
  apply (queue_ops_refine [OpMoveToTail 0; OpPrequeue (Some 5%nat); OpDequeue; OpDequeue]
           heap2 1%positive _ heap2_rep1).
Defined.

Lemma queue_move_to_tail_of_moves_witness :
  exists h', queue_move_to_tail_of (Some 1%positive) (Some 2%positive) (Some 3%positive) heap2
      = Some (Some 3%positive, h') /\
    rep h' 1%positive [(4%positive, Some 20%nat)] /\
    rep h' 2%positive [(5%positive, Some 30%nat); (3%positive, Some 10%nat)].
Proof.
  destruct (queue_move_to_tail_of_moves heap2 1%positive 2%positive [] 3%positive (Some 10%nat)
              [(4%positive, Some 20%nat)] [(5%positive, Some 30%nat)] heap2_rep1 heap2_rep2)
    as (h' & R & H1 & H2 & _).
  - intros x Hx Hx'. cbn in *. set_solver.
  - exists h'. split; [exact R|]. split; [exact H1|exact H2].
Defined.

Lemma queue_destroy_drains_witness :
  exists h', queue_destroy 3 (Some 1%positive) heap2 = Some ([10%nat; 20%nat], h') /\
    h' !! 3%positive = None /\ h' !! 1%positive = None.
Proof.
  destruct (queue_destroy_drains heap2 1%positive [(3%positive, 10%nat); (4%positive, 20%nat)] [])
    as (h' & R & Hn & _).
  - exact heap2_rep1.
  - by left.
  - exists h'. split; [exact R|]. split; apply Hn; cbn; set_solver.
Defined.
