(* ===== verification/HashTable.v ===== *)
(** * The chained hash table of etc/afpd/hash.c

    The dynamic table that doubles and halves with its population.  The first
    part is the code; the second shows that a well-formed table behaves as a
    finite map, whatever its resizes; the last is the interface the directory
    cache is written against, with this table as its implementation. *)

From S2P Require Import Prelude.

(** ** Constants and helpers that do not depend on the keys *)

Definition INIT_BITS : Z := 10.
Definition INIT_SIZE : Z := Z.shiftl 1 INIT_BITS.
Definition INIT_MASK : Z := INIT_SIZE - 1.
Definition HASH_VAL_T_MAX : Z := 2 ^ 32 - 1.

(** [while (val) { bits++; val >>= 1; }], bounded by [fuel] steps. *)
Fixpoint compute_bits_loop (fuel : nat) (val bits : Z) : Z :=
  match fuel with
  | O => bits
  | S k => if val =? 0 then bits else compute_bits_loop k (Z.shiftr val 1) (bits + 1)
  end.

Definition compute_bits : Z := compute_bits_loop 33 HASH_VAL_T_MAX 0.

(** [while ((arg & 1) == 0) arg >>= 1;] on a 32-bit [arg]; 32 steps drop every
    trailing zero of a nonzero argument. *)
Fixpoint strip_zeros (fuel : nat) (arg : Z) : Z :=
  match fuel with
  | O => arg
  | S k => if Z.land arg 1 =? 0 then strip_zeros k (Z.shiftr arg 1) else arg
  end.

Definition is_power_of_two (arg : Z) : bool :=
  let arg := wrap 32 arg in
  if arg =? 0 then false else strip_zeros 32 arg =? 1.

(** The table of [hash_fun_default]. *)
Definition randbox : list Z :=
  [ 0x49848f1b; 0xe6255dba; 0x36da5bdc; 0x47bf94e9;
    0x8cbcce22; 0x559fc06a; 0xd268f536; 0xe10af79a;
    0xc1af4d69; 0x1d2917b5; 0xec4c304d; 0x9ee5016c;
    0x69232f74; 0xfead7bb3; 0xe9089ab6; 0xf012f6ae ].

Definition rand_at (i : Z) : Z := default 0 (randbox !! Z.to_nat (Z.land i 0xf)).

Definition hash_fun_step (acc c : Z) : Z :=
  let acc := Z.lxor acc (rand_at (u32(c + acc))) in
  let acc := Z.lor (u32(Z.shiftl acc 1)) (Z.shiftr acc 31) in
  let acc := Z.land acc 0xffffffff in
  let acc := Z.lxor acc (rand_at (u32(Z.shiftr c 4 + acc))) in
  let acc := Z.lor (u32(Z.shiftl acc 2)) (Z.shiftr acc 30) in
  Z.land acc 0xffffffff.

(** [str] is the bytes before the terminating NUL. *)
Definition hash_fun_default (str : list Z) : Z := foldl hash_fun_step 0 str.

Section Hash.
Context {K V : Type} `{Countable K}.
(** [hash->function] and [hash->compare], set once when the table is created. *)
Context (hfun : K -> Z) (compare : K -> K -> Z).

(** [hnode_t]: [n_addr] stands for the node's address, which the code compares;
    a chain's [next] links are the order of its list. *)
Record hnode := Hnode { n_addr : positive; n_key : K; n_data : V; n_hkey : Z }.

(** [hash_t]; [table] has one list of nodes per chain. *)
Record hash_t := Hash {
  table : list (list hnode);
  nchains : Z;
  nodecount : Z;
  maxcount : Z;
  highmark : Z;
  lowmark : Z;
  mask : Z;
  dynamic : bool
}.

Definition chain_of (t : hash_t) (i : Z) : list hnode := default [] (table t !! Z.to_nat i).

Definition set_chain (t : hash_t) (i : Z) (c : list hnode) (count : Z) : hash_t :=
  Hash (<[Z.to_nat i := c]> (table t)) (nchains t) count (maxcount t)
    (highmark t) (lowmark t) (mask t) (dynamic t).

Definition clear_table (t : hash_t) : hash_t :=
  Hash (replicate (Z.to_nat (nchains t)) []) (nchains t) (nodecount t) (maxcount t)
    (highmark t) (lowmark t) (mask t) (dynamic t).

(** The inner loop of [grow_table]: each node goes to the front of the low or
    the high chain. *)
Definition split_chain (exposed_bit : Z) (c : list hnode) : list hnode * list hnode :=
  foldl (fun lh hptr =>
    if negb (Z.land (n_hkey hptr) exposed_bit =? 0) then (lh.1, hptr :: lh.2)
    else (hptr :: lh.1, lh.2)) ([], []) c.

(** [ok] tells whether [realloc] succeeds. *)
Definition grow_table (ok : bool) (t : hash_t) : res hash_t :=
  _ ← assert_ (nchains t <? u64(2 * nchains t));
  if ok then
    let mask' := Z.lor (u32(Z.shiftl (mask t) 1)) 1 in
    let exposed_bit := Z.lxor mask' (mask t) in
    _ ← assert_ (negb (mask' =? mask t));
    let parts := split_chain exposed_bit <$> table t in
    Ok (Hash (parts.*1 ++ parts.*2) (u64(nchains t * 2)) (nodecount t) (maxcount t)
          (u64(highmark t * 2)) (u64(lowmark t * 2)) mask' (dynamic t))
  else Ok t.

(** One step of [shrink_table]'s loop. *)
Definition join_chain (low_chain high_chain : list hnode) : list hnode :=
  match low_chain with
  | [] => high_chain
  | _ => low_chain ++ high_chain
  end.

(** A failed [realloc] keeps the old allocation, whose upper half is no longer
    part of the table. *)
Definition shrink_table (ok : bool) (t : hash_t) : res hash_t :=
  _ ← assert_ (2 <=? nchains t);
  let n := nchains t / 2 in
  Ok (Hash (zip_with join_chain (take (Z.to_nat n) (table t)) (drop (Z.to_nat n) (table t)))
        n (nodecount t) (maxcount t) (highmark t / 2) (lowmark t / 2)
        (Z.shiftr (mask t) 1) (dynamic t)).

(** [ok1] and [ok2] are the outcomes of the two allocations. *)
Definition hash_create (ok1 ok2 : bool) (maxcount : Z) : option hash_t :=
  if ok1 then
    if ok2 then
      Some (clear_table (Hash [] INIT_SIZE 0 maxcount (INIT_SIZE * 2) (INIT_SIZE / 2) INIT_MASK true))
    else None
  else None.

Definition hash_count (t : hash_t) : Z := nodecount t.
Definition hash_size (t : hash_t) : Z := nchains t.
Definition hash_isempty (t : hash_t) : bool := nodecount t =? 0.

Definition hash_lookup (t : hash_t) (k : K) : option hnode :=
  let hkey := hfun k in
  let chain := Z.land hkey (mask t) in
  snd <$> list_find (fun nptr => n_hkey nptr = hkey /\ compare (n_key nptr) k = 0) (chain_of t chain).

(** [addr] is the address of the node the caller allocated. *)
Definition hash_insert (ok : bool) (t : hash_t) (addr : positive) (k : K) (d : V) : res hash_t :=
  _ ← assert_ (nodecount t <? maxcount t);
  _ ← assert_ (bool_decide (hash_lookup t k = None));
  t ← (if dynamic t && (highmark t <=? nodecount t) then grow_table ok t else Ok t);
  let hkey := hfun k in
  let chain := Z.land hkey (mask t) in
  Ok (set_chain t chain (Hnode addr k d hkey :: chain_of t chain) (u64(nodecount t + 1))).

(** Walk a chain to the node at [addr] and unlink it; [None] when the walk runs
    off the end of the chain. *)
Fixpoint unlink_node (addr : positive) (c : list hnode) : option (list hnode) :=
  match c with
  | [] => None
  | hptr :: c' =>
      if bool_decide (n_addr hptr = addr) then Some c' else (hptr ::.) <$> unlink_node addr c'
  end.

Definition same_node (n : option hnode) (node : hnode) : bool :=
  match n with Some m => bool_decide (n_addr m = n_addr node) | None => false end.

(** What [hash_delete] and [hash_scan_delete] share. *)
Definition delete_in_chain (t : hash_t) (node : hnode) : res hash_t :=
  let chain := Z.land (n_hkey node) (mask t) in
  match unlink_node (n_addr node) (chain_of t chain) with
  | Some c => Ok (set_chain t chain c (u64(nodecount t - 1)))
  | None => Abort Undefined
  end.

Definition hash_delete (ok : bool) (t : hash_t) (node : hnode) : res hash_t :=
  _ ← assert_ (same_node (hash_lookup t (n_key node)) node);
  t ← (if dynamic t && (nodecount t <=? lowmark t) && (INIT_SIZE <? nodecount t)
       then shrink_table ok t else Ok t);
  delete_in_chain t node.

Definition hash_scan_delete (t : hash_t) (node : hnode) : res hash_t :=
  _ ← assert_ (same_node (hash_lookup t (n_key node)) node);
  delete_in_chain t node.

(** [hash_alloc_insert_node]: [alloc] is the outcome of the node allocation,
    whose address is not that of a node of the table. *)
Definition fresh_addr (t : hash_t) : positive :=
  fresh (list_to_set (n_addr <$> concat (table t)) : gset positive).

Definition hash_alloc_insert_node (alloc ok : bool) (t : hash_t) (k : K) (d : V)
  : res (option positive * hash_t) :=
  if alloc then
    let addr := fresh_addr t in
    t ← hash_insert ok t addr k d; Ok (Some addr, t)
  else Ok (None, t).

Definition hash_alloc_insert (alloc ok : bool) (t : hash_t) (k : K) (d : V) : res (Z * hash_t) :=
  '(node, t) ← hash_alloc_insert_node alloc ok t k d;
  Ok (if node is Some _ then 1 else 0, t).

(** [hscan_t]: [s_next] is the chain from the next node on, [[]] for [NULL]. *)
Record hscan := Hscan { s_chain : Z; s_next : list hnode }.

(** [for (; chain < nchains && table[chain] == NULL; chain++);] *)
Fixpoint next_chain (fuel : nat) (t : hash_t) (chain : Z) : Z :=
  match fuel with
  | O => chain
  | S k =>
      if (chain <? nchains t) && bool_decide (chain_of t chain = [])
      then next_chain k t (chain + 1) else chain
  end.

Definition hash_scan_begin (t : hash_t) : hscan :=
  let chain := next_chain (Z.to_nat (nchains t)) t 0 in
  if chain <? nchains t then Hscan chain (chain_of t chain) else Hscan 0 [].

Definition hash_scan_next (t : hash_t) (s : hscan) : option hnode * hscan :=
  match s_next s with
  | [] => (None, s)
  | node :: ((_ :: _) as c) => (Some node, Hscan (s_chain s) c)
  | [node] =>
      let chain := next_chain (Z.to_nat (nchains t)) t (s_chain s + 1) in
      if chain <? nchains t then (Some node, Hscan chain (chain_of t chain))
      else (Some node, Hscan (s_chain s) [])
  end.

(** [hash_free_nodes]: scan, unlinking each node the scan returned. *)
Fixpoint free_nodes_loop (fuel : nat) (t : hash_t) (s : hscan) (freed : list hnode)
  : res (hash_t * list hnode) :=
  match fuel with
  | O => Abort Undefined
  | S k =>
      match hash_scan_next t s with
      | (None, _) => Ok (t, freed)
      | (Some node, s) =>
          t ← hash_scan_delete t node;
          free_nodes_loop k t s (freed ++ [node])
      end
  end.

Definition hash_free_nodes (t : hash_t) : res (hash_t * list hnode) :=
  '(t', freed) ← free_nodes_loop (S (length (concat (table t)))) t (hash_scan_begin t) [];
  Ok (clear_table (Hash (table t') (nchains t') 0 (maxcount t') (highmark t') (lowmark t')
                     (mask t') (dynamic t')), freed).

Definition hash_destroy (t : hash_t) : res unit := assert_ (hash_isempty t).

(** The check debug builds run after every change. *)
Definition chain_ok (t : hash_t) (i : Z) : bool :=
  forallb (fun hptr => Z.land (n_hkey hptr) (mask t) =? i) (chain_of t i).

Definition hash_verify (t : hash_t) : bool :=
  (if dynamic t then
     negb (highmark t <=? lowmark t) && is_power_of_two (highmark t) && is_power_of_two (lowmark t)
   else true) &&
  forallb (chain_ok t) (seqZ 0 (nchains t)) &&
  (u64(Z.of_nat (length (concat (table t)))) =? nodecount t).

(** ** Well-formed tables *)

Section Facts.
Context (hfun_range : forall k, 0 <= hfun k < 2 ^ 32).
Context (compare_eq : forall a b, compare a b = 0 <-> a = b).

Notation nodes t := (concat (table t)).

(** The invariant of a dynamic table with [2 ^ b] chains. *)
Record hash_wf (t : hash_t) : Prop := {
  wf_bits : exists b, 10 <= b <= 30 /\ nchains t = 2 ^ b /\ mask t = Z.ones b /\
              highmark t = 2 ^ (b + 1) /\ lowmark t = 2 ^ (b - 1);
  wf_length : length (table t) = Z.to_nat (nchains t);
  wf_chain : forall i c n, table t !! i = Some c -> n ∈ c ->
              n_hkey n = hfun (n_key n) /\ Z.land (n_hkey n) (mask t) = Z.of_nat i;
  wf_keys : NoDup (n_key <$> nodes t);
  wf_addrs : NoDup (n_addr <$> nodes t);
  wf_count : nodecount t = Z.of_nat (length (nodes t));
  wf_max : nodecount t <= maxcount t <= 2 ^ 31;
  wf_dynamic : dynamic t = true
}.

Lemma elem_of_concat {A} (l : list (list A)) x :
  x ∈ concat l <-> exists i c, l !! i = Some c /\ x ∈ c.
Proof.
  rewrite list_elem_of_In, in_concat. split.
  - intros (c & Hc%list_elem_of_In & Hx%list_elem_of_In).
    apply list_elem_of_lookup in Hc as [i Hi]. eauto.
  - intros (i & c & Hi & Hx). exists c. rewrite <-!list_elem_of_In. split; [|done].
    by eapply list_elem_of_lookup_2.
Qed.

Lemma concat_insert {A} (l : list (list A)) i c c' :
  l !! i = Some c ->
  exists r, concat l ≡ₚ c ++ r /\ concat (<[i := c']> l) ≡ₚ c' ++ r.
Proof.
  intros Hi. exists (concat (take i l) ++ concat (drop (S i) l)).
  rewrite insert_take_drop by (by eapply lookup_lt_Some).
  rewrite <-(take_drop_middle _ _ _ Hi) at 1. rewrite !concat_app. cbn.
  split; solve_Permutation.
Qed.

Lemma NoDup_app_split_inj {A} (l1 l1' : list A) x l2 l2' :
  NoDup (l1 ++ x :: l2) -> l1 ++ x :: l2 = l1' ++ x :: l2' -> l1 = l1' /\ l2 = l2'.
Proof.
  revert l1'. induction l1 as [|a l1 IH]; intros [|b l1'] Hnd Heq; cbn in *.
  - by simplify_eq.
  - injection Heq as <- ->. apply NoDup_cons in Hnd as [Hx _]. set_solver.
  - injection Heq as -> <-. apply NoDup_cons in Hnd as [Hx _]. set_solver.
  - injection Heq as <- Heq. apply NoDup_cons in Hnd as [_ Hnd].
    destruct (IH _ Hnd Heq). by subst.
Qed.

Lemma ones_pow b : 0 <= b -> Z.ones b = 2 ^ b - 1.
Proof. intros. rewrite Z.ones_equiv. lia. Qed.

Lemma land_ones_idx x b : 0 <= b -> 0 <= x -> 0 <= Z.land x (Z.ones b) < 2 ^ b.
Proof. intros. rewrite Z.land_ones by lia. apply Z.mod_pos_bound. lia. Qed.

(** The chain a key hashes to exists. *)
Lemma wf_chain_of t x : hash_wf t -> 0 <= x ->
  table t !! Z.to_nat (Z.land x (mask t)) = Some (chain_of t (Z.land x (mask t))).
Proof.
  intros Hw Hx. destruct (wf_bits _ Hw) as (b & Hb & Hn & Hm & _).
  destruct (lookup_lt_is_Some_2 (table t) (Z.to_nat (Z.land x (mask t)))) as [c Hc].
  - rewrite (wf_length _ Hw), Hn, Hm. pose proof (land_ones_idx x b). lia.
  - unfold chain_of. by rewrite Hc.
Qed.

Lemma nodes_key_inj t n m : NoDup (n_key <$> nodes t) ->
  n ∈ nodes t -> m ∈ nodes t -> n_key n = n_key m -> n = m.
Proof.
  intros Hnd Hn Hm Heq. apply list_elem_of_lookup in Hn as [i Hi], Hm as [j Hj].
  assert (i = j) as ->; [|congruence].
  eapply NoDup_lookup; [done| |]; rewrite list_lookup_fmap.
  - by rewrite Hi.
  - by rewrite Hj, Heq.
Qed.

Lemma nodes_addr_inj t n m : NoDup (n_addr <$> nodes t) ->
  n ∈ nodes t -> m ∈ nodes t -> n_addr n = n_addr m -> n = m.
Proof.
  intros Hnd Hn Hm Heq. apply list_elem_of_lookup in Hn as [i Hi], Hm as [j Hj].
  assert (i = j) as ->; [|congruence].
  eapply NoDup_lookup; [done| |]; rewrite list_lookup_fmap.
  - by rewrite Hi.
  - by rewrite Hj, Heq.
Qed.

(** Where a node of the table sits. *)
Lemma wf_node_chain t n : hash_wf t -> n ∈ nodes t ->
  n_hkey n = hfun (n_key n) /\ n ∈ chain_of t (Z.land (n_hkey n) (mask t)).
Proof.
  intros Hw (i & c & Hi & Hn)%elem_of_concat.
  destruct (wf_chain _ Hw _ _ _ Hi Hn) as [Hk Hc]. split; [done|].
  unfold chain_of. by rewrite Hc, Nat2Z.id, Hi.
Qed.

Lemma chain_of_nodes t i n : n ∈ chain_of t i -> n ∈ nodes t.
Proof.
  unfold chain_of. destruct (table t !! Z.to_nat i) as [c|] eqn:Hc; cbn; [|set_solver].
  intros. apply elem_of_concat. eauto.
Qed.

Lemma hash_lookup_Some t k n : hash_wf t ->
  hash_lookup t k = Some n <-> n ∈ nodes t /\ n_key n = k.
Proof.
  intros Hw. unfold hash_lookup.
  destruct (list_find _ _) as [[i m]|] eqn:Hf; cbn.
  - apply list_find_Some in Hf as (Hi & [Hk Hc] & _).
    apply compare_eq in Hc. apply list_elem_of_lookup_2, chain_of_nodes in Hi. split.
    + by intros [= ->].
    + intros [Hn Hkn]. f_equal. eapply nodes_key_inj; [apply Hw|..]; congruence.
  - split; [done|]. intros [Hn <-]. apply list_find_None in Hf.
    destruct (wf_node_chain _ _ Hw Hn) as [Hk Hin]. rewrite Hk in Hin.
    rewrite Forall_forall in Hf. exfalso. apply (Hf n Hin). split; [done|]. by apply compare_eq.
Qed.

Lemma hash_lookup_None t k : hash_wf t ->
  hash_lookup t k = None <-> k ∉ n_key <$> nodes t.
Proof.
  intros Hw. split.
  - intros Hl (n & -> & Hn)%list_elem_of_fmap.
    rewrite (proj2 (hash_lookup_Some t (n_key n) n Hw)) in Hl; done.
  - intros Hk. destruct (hash_lookup t k) as [n|] eqn:E; [|done].
    apply (hash_lookup_Some t k n Hw) in E as [Hn <-].
    exfalso. apply Hk, list_elem_of_fmap. eauto.
Qed.

(** ** The table as a finite map *)

Definition node_pair (n : hnode) : K * V := (n_key n, n_data n).
Definition hash_map (t : hash_t) : gmap K V := list_to_map (node_pair <$> nodes t).

Lemma node_pair_fst (l : list hnode) : (node_pair <$> l).*1 = n_key <$> l.
Proof. rewrite <-list_fmap_compose. done. Qed.

Lemma hash_map_lookup t k : hash_wf t -> hash_map t !! k = n_data <$> hash_lookup t k.
Proof.
  intros Hw. unfold hash_map. destruct (hash_lookup t k) as [n|] eqn:E; cbn.
  - apply (hash_lookup_Some t k n Hw) in E as [Hn <-]. apply elem_of_list_to_map_1.
    + rewrite node_pair_fst. apply Hw.
    + apply list_elem_of_fmap. exists n. done.
  - apply not_elem_of_list_to_map_1. rewrite node_pair_fst. by apply hash_lookup_None in E.
Qed.

(** Two tables with the same nodes up to order are the same map. *)
Lemma hash_map_perm (t1 t2 : hash_t) :
  NoDup (n_key <$> nodes t1) -> nodes t1 ≡ₚ nodes t2 -> hash_map t1 = hash_map t2.
Proof.
  intros Hnd Hp. unfold hash_map. apply list_to_map_proper.
  - by rewrite node_pair_fst.
  - by rewrite Hp.
Qed.

Lemma size_hash_map t : hash_wf t -> nodecount t = Z.of_nat (size (hash_map t)).
Proof.
  intros Hw. rewrite (wf_count _ Hw). unfold hash_map. f_equal.
  rewrite map_size_list_to_map; rewrite ?node_pair_fst; [by rewrite length_fmap|apply Hw].
Qed.

(** ** Resizing *)

Lemma land_pow2 x b : 0 <= b -> Z.land x (2 ^ b) = if Z.testbit x b then 2 ^ b else 0.
Proof.
  intros Hb. apply Z.bits_inj'. intros n Hn. rewrite Z.land_spec, Z.pow2_bits_eqb by lia.
  destruct (Z.eqb_spec b n) as [<-|Hne].
  - destruct (Z.testbit x b) eqn:E; rewrite ?Z.pow2_bits_true by lia; [done|].
    by rewrite Z.bits_0.
  - rewrite andb_false_r. destruct (Z.testbit x b); rewrite ?Z.pow2_bits_false, ?Z.bits_0; [done|lia|done].
Qed.

Lemma ones_succ b : 0 <= b -> Z.ones (b + 1) = Z.lor (Z.ones b) (2 ^ b).
Proof.
  intros Hb. rewrite <-Z.add_nocarry_lor.
  - rewrite !ones_pow, Z.pow_add_r by lia. lia.
  - rewrite Z.land_comm, Z.land_ones by lia. apply Z.mod_same. lia.
Qed.

(** One more bit of the mask adds [2 ^ b] to the index when that bit is set. *)
Lemma land_ones_succ x b : 0 <= b ->
  Z.land x (Z.ones (b + 1)) = Z.land x (Z.ones b) + (if Z.testbit x b then 2 ^ b else 0).
Proof.
  intros Hb. rewrite ones_succ, Z.land_lor_distr_r, <-land_pow2 by lia.
  symmetry. apply Z.add_nocarry_lor. apply Z.bits_inj'. intros n Hn.
  rewrite !Z.land_spec, Z.bits_0, Z.pow2_bits_eqb by lia.
  destruct (Z.eqb_spec b n) as [<-|]; [|by rewrite !andb_false_r].
  rewrite Z.ones_spec_high by lia. by rewrite andb_false_r.
Qed.

Lemma grow_masks b : 10 <= b <= 30 ->
  Z.lor (u32(Z.shiftl (Z.ones b) 1)) 1 = Z.ones (b + 1) /\
  Z.lxor (Z.ones (b + 1)) (Z.ones b) = 2 ^ b.
Proof.
  intros Hb.
  assert (Forall (fun b => Z.lor (u32(Z.shiftl (Z.ones b) 1)) 1 = Z.ones (b + 1) /\
            Z.lxor (Z.ones (b + 1)) (Z.ones b) = 2 ^ b) (seqZ 10 21)) as HF.
  { apply (bool_decide_unpack _). by vm_compute. }
  rewrite Forall_forall in HF. apply HF, elem_of_seqZ. lia.
Qed.

Lemma split_chain_filter e c :
  split_chain e c = (reverse (filter (fun n => Z.land (n_hkey n) e = 0) c),
                     reverse (filter (fun n => Z.land (n_hkey n) e <> 0) c)).
Proof.
  unfold split_chain.
  enough (forall l h, foldl (fun lh hptr =>
      if negb (Z.land (n_hkey hptr) e =? 0) then (lh.1, hptr :: lh.2) else (hptr :: lh.1, lh.2)) (l, h) c
    = (reverse (filter (fun n => Z.land (n_hkey n) e = 0) c) ++ l,
       reverse (filter (fun n => Z.land (n_hkey n) e <> 0) c) ++ h)) as E.
  { rewrite (E [] []). by rewrite !app_nil_r. }
  induction c as [|n c IH]; intros l h; [done|]. cbn [foldl]. rewrite !filter_cons.
  destruct (Z.eqb_spec (Z.land (n_hkey n) e) 0) as [Hz|Hz]; cbn [negb]; rewrite IH.
  - rewrite decide_True, decide_False by (done || naive_solver).
    by rewrite reverse_cons, <-app_assoc.
  - rewrite decide_False, decide_True by (done || naive_solver).
    by rewrite reverse_cons, <-app_assoc.
Qed.

Lemma split_concat e (l : list (list hnode)) :
  concat ((split_chain e <$> l).*1 ++ (split_chain e <$> l).*2) ≡ₚ concat l.
Proof.
  rewrite concat_app. induction l as [|c l IH]; [done|]. cbn. rewrite <-IH, split_chain_filter. cbn.
  rewrite !reverse_Permutation.
  rewrite <-(filter_app_complement (fun n => Z.land (n_hkey n) e = 0) c) at 3.
  solve_Permutation.
Qed.

Lemma grow_table_wf ok t : hash_wf t -> highmark t <= nodecount t -> nodecount t < maxcount t ->
  exists t', grow_table ok t = Ok t' /\ hash_wf t' /\ nodes t' ≡ₚ nodes t /\
    nodecount t' = nodecount t /\ maxcount t' = maxcount t.
Proof.
  intros Hw Hhi Hlt. destruct (wf_bits _ Hw) as (b & Hb & Hn & Hm & Hh & Hl).
  assert (b + 1 < 31) as Hb'.
  { destruct (Z.lt_ge_cases (b + 1) 31) as [|Hge]; [done|].
    pose proof (Z.pow_le_mono_r 2 31 (b + 1)). pose proof (wf_max _ Hw). lia. }
  assert (forall d, 0 <= d <= 33 -> wrap 64 (2 ^ d) = 2 ^ d) as Hwr.
  { intros d Hd. apply wrap_small. pose proof (Z.pow_lt_mono_r 2 d 64). lia. }
  pose proof (Z.pow_pos_nonneg 2 b ltac:(lia) ltac:(lia)) as Hpos.
  unfold grow_table. rewrite Hn.
  replace (2 * 2 ^ b) with (2 ^ (b + 1)) by (rewrite Z.pow_add_r; lia).
  rewrite Hwr by lia. rewrite (proj2 (Z.ltb_lt _ _)) by (apply Z.pow_lt_mono_r; lia).
  cbn [assert_ mbind res_bind]. destruct ok; [|exists t; by split_and!].
  destruct (grow_masks b ltac:(lia)) as [Hm1 Hm2]. rewrite Hm, Hm1, Hm2.
  rewrite (proj2 (Z.eqb_neq _ _)).
  2: { rewrite !ones_pow, Z.pow_add_r by lia. lia. }
  cbn [negb assert_ mbind res_bind]. eexists; split; [done|].
  pose proof (split_concat (2 ^ b) (table t)) as Hp. split; [|done].
  constructor; cbn.
  - exists (b + 1). rewrite Hh, Hl.
    replace (2 ^ b * 2) with (2 ^ (b + 1)) by (rewrite Z.pow_add_r; lia).
    replace (2 ^ (b + 1) * 2) with (2 ^ (b + 1 + 1)) by (rewrite (Z.pow_add_r 2 (b + 1)); lia).
    replace (2 ^ (b - 1) * 2) with (2 ^ (b + 1 - 1)).
    2: { replace (b + 1 - 1) with (b - 1 + 1) by lia. rewrite Z.pow_add_r; lia. }
    rewrite !Hwr by lia. split_and!; lia.
  - rewrite length_app, !length_fmap, (wf_length _ Hw), Hn.
    replace (2 ^ b * 2) with (2 ^ (b + 1)) by (rewrite Z.pow_add_r; lia).
    rewrite Hwr, Z.pow_add_r by lia. lia.
  - intros i c n Hi Hin. rewrite <-list_fmap_compose, <-list_fmap_compose in Hi.
    assert (exists j c0, table t !! j = Some c0 /\ n ∈ c0 /\
      (i = j /\ Z.land (n_hkey n) (2 ^ b) = 0 \/
       i = (Z.to_nat (2 ^ b) + j)%nat /\ Z.land (n_hkey n) (2 ^ b) <> 0)) as (j & c0 & Hj & Hn0 & Hcase).
    { apply lookup_app_Some in Hi as [Hi|[Hge Hi]]; rewrite list_lookup_fmap in Hi;
        apply fmap_Some in Hi as (c0 & Hc0 & ->); cbn in Hin; rewrite split_chain_filter in Hin; cbn in Hin;
        rewrite elem_of_reverse, list_elem_of_filter in Hin.
      - exists i, c0. naive_solver.
      - rewrite length_fmap, (wf_length _ Hw), Hn in *.
        exists (i - Z.to_nat (2 ^ b))%nat, c0. split_and!; [done|naive_solver|]. right. split; [lia|naive_solver]. }
    destruct (wf_chain _ Hw _ _ _ Hj Hn0) as [Hk Hc]. split; [done|].
    rewrite land_ones_succ by lia. rewrite Hm in Hc. rewrite Hc.
    rewrite !land_pow2 in Hcase by lia. destruct (Z.testbit (n_hkey n) b); lia.
  - rewrite Hp. apply Hw.
  - rewrite Hp. apply Hw.
  - rewrite Hp. apply Hw.
  - apply Hw.
  - apply Hw.
Qed.

Lemma join_chain_app (l h : list hnode) : join_chain l h = l ++ h.
Proof. by destruct l. Qed.

Lemma join_concat (l1 l2 : list (list hnode)) : length l1 = length l2 ->
  concat (zip_with join_chain l1 l2) ≡ₚ concat (l1 ++ l2).
Proof.
  rewrite concat_app. revert l2.
  induction l1 as [|c l1 IH]; intros [|c2 l2]; cbn; [done..|]. intros [= Hl].
  rewrite IH, join_chain_app by done. solve_Permutation.
Qed.

Lemma shrink_table_wf ok t : hash_wf t -> nodecount t <= lowmark t -> INIT_SIZE < nodecount t ->
  exists t', shrink_table ok t = Ok t' /\ hash_wf t' /\ nodes t' ≡ₚ nodes t /\
    nodecount t' = nodecount t /\ maxcount t' = maxcount t.
Proof.
  intros Hw Hlo Hin. destruct (wf_bits _ Hw) as (b & Hb & Hn & Hm & Hh & Hl).
  change INIT_SIZE with (2 ^ 10) in Hin.
  assert (10 < b - 1) as Hb' by (apply (Z.pow_lt_mono_r_iff 2); lia).
  unfold shrink_table. rewrite Hn, Hm, Hh, Hl.
  assert (2 ^ b = 2 * 2 ^ (b - 1)) as Hd by (rewrite <-Z.pow_succ_r by lia; f_equal; lia).
  pose proof (Z.pow_pos_nonneg 2 (b - 1) ltac:(lia) ltac:(lia)) as Hpos.
  replace (2 ^ b / 2) with (2 ^ (b - 1)) by (rewrite Hd, Z.mul_comm, Z.div_mul; lia).
  rewrite (proj2 (Z.leb_le _ _)) by lia. cbn [assert_ mbind res_bind].
  assert (Z.shiftr (Z.ones b) 1 = Z.ones (b - 1)) as E1.
  { rewrite <-Z.div2_spec, Z.div2_div, !ones_pow, Hd by lia. clear -Hpos.
    generalize dependent (2 ^ (b - 1)). intros x Hx.
    symmetry. apply (Z.div_unique _ _ _ 1); lia. }
  assert (2 ^ (b + 1) / 2 = 2 ^ (b - 1 + 1)) as E2.
  { rewrite Z.pow_add_r, Z.div_mul by lia. f_equal. lia. }
  assert (2 ^ (b - 1) / 2 = 2 ^ (b - 1 - 1)) as E3.
  { replace (2 ^ (b - 1)) with (2 ^ (b - 1 - 1) * 2); [by rewrite Z.div_mul by lia|].
    rewrite Z.mul_comm, <-Z.pow_succ_r by lia. f_equal. lia. }
  rewrite E1, E2, E3. eexists; split; [done|]. set (h := Z.to_nat (2 ^ (b - 1))).
  assert (length (table t) = (h + h)%nat) as Hlen by (rewrite (wf_length _ Hw), Hn; lia).
  assert (concat (zip_with join_chain (take h (table t)) (drop h (table t))) ≡ₚ nodes t) as Hp.
  { rewrite join_concat, take_drop; [done|]. rewrite length_take, length_drop. lia. }
  split; [|done]. constructor; cbn.
  - exists (b - 1). split_and!; [lia|lia|done|done..].
  - rewrite length_zip_with, length_take, length_drop. lia.
  - intros i c n Hi Hc. apply lookup_zip_with_Some in Hi as (c1 & c2 & -> & H1 & H2).
    rewrite join_chain_app in Hc.
    apply lookup_take_Some in H1 as [H1 Hih]. rewrite lookup_drop in H2.
    assert (exists j c0, table t !! j = Some c0 /\ n ∈ c0 /\ (j = i \/ j = (h + i)%nat)) as (j & c0 & Hj & Hn0 & Hji).
    { apply elem_of_app in Hc as [Hc|Hc]; eauto 10. }
    destruct (wf_chain _ Hw _ _ _ Hj Hn0) as [Hk Hcc]. split; [done|].
    rewrite Hm in Hcc. replace b with (b - 1 + 1) in Hcc by lia. rewrite land_ones_succ in Hcc by lia.
    pose proof (land_ones_idx (n_hkey n) (b - 1) ltac:(lia)) as Hr.
    assert (0 <= n_hkey n) as H0 by (rewrite Hk; apply hfun_range). specialize (Hr H0).
    destruct (Z.testbit (n_hkey n) (b - 1)); lia.
  - rewrite Hp. apply Hw.
  - rewrite Hp. apply Hw.
  - rewrite Hp. apply Hw.
  - apply Hw.
  - apply Hw.
Qed.

(** ** Insertion and deletion *)

Lemma land_mask_nonneg t x : hash_wf t -> 0 <= Z.land x (mask t).
Proof.
  intros Hw. destruct (wf_bits _ Hw) as (b & Hb & _ & -> & _).
  rewrite Z.land_ones by lia. apply Z.mod_pos_bound. lia.
Qed.

(** Replacing one chain keeps the table well formed when the new chain's nodes
    belong there and the node set stays consistent. *)
Lemma set_chain_wf t x c' cnt :
  hash_wf t -> 0 <= x ->
  let i := Z.land x (mask t) in
  (forall n, n ∈ c' -> n_hkey n = hfun (n_key n) /\ Z.land (n_hkey n) (mask t) = i) ->
  (forall r, nodes t ≡ₚ chain_of t i ++ r ->
     NoDup (n_key <$> c' ++ r) /\ NoDup (n_addr <$> c' ++ r) /\
     cnt = Z.of_nat (length (c' ++ r)) /\ cnt <= maxcount t) ->
  hash_wf (set_chain t i c' cnt) /\
  exists r, nodes t ≡ₚ chain_of t i ++ r /\ nodes (set_chain t i c' cnt) ≡ₚ c' ++ r.
Proof.
  intros Hw Hx i Hc Hr.
  destruct (concat_insert (table t) _ _ c' (wf_chain_of t x Hw Hx)) as (r & Hp & Hp').
  fold i in Hp, Hp'.
  destruct (Hr r Hp) as (Hk & Ha & Hcnt & Hmax). split; [|by exists r].
  constructor; cbn.
  - apply Hw.
  - rewrite length_insert. apply Hw.
  - intros j c n Hj Hn. apply list_lookup_insert_Some in Hj as [(Hij & <- & _)|(_ & Hj)].
    + destruct (Hc n Hn) as [? ->]. split; [done|]. subst j.
      rewrite Z2Nat.id; [done|]. by apply land_mask_nonneg.
    + by eapply wf_chain.
  - by rewrite Hp'.
  - by rewrite Hp'.
  - by rewrite Hp'.
  - pose proof (wf_max _ Hw). lia.
  - apply Hw.
Qed.

Lemma hash_insert_wf ok t addr k d :
  hash_wf t -> hash_lookup t k = None -> nodecount t < maxcount t ->
  addr ∉ n_addr <$> nodes t ->
  exists t', hash_insert ok t addr k d = Ok t' /\ hash_wf t' /\
    nodes t' ≡ₚ Hnode addr k d (hfun k) :: nodes t /\ maxcount t' = maxcount t.
Proof.
  intros Hw Hk Hlt Ha. unfold hash_insert.
  rewrite (proj2 (Z.ltb_lt _ _) Hlt), bool_decide_true by done. cbn [assert_ mbind res_bind].
  assert (exists t1, (if dynamic t && (highmark t <=? nodecount t) then grow_table ok t else Ok t) = Ok t1 /\
    hash_wf t1 /\ nodes t1 ≡ₚ nodes t /\ nodecount t1 = nodecount t /\ maxcount t1 = maxcount t)
    as (t1 & -> & Hw1 & Hp & Hn & Hm).
  { rewrite (wf_dynamic _ Hw). cbn [andb]. destruct (Z.leb_spec (highmark t) (nodecount t)).
    - by apply grow_table_wf.
    - by exists t. }
  apply hash_lookup_None in Hk; [|done]. eexists; split; [done|].
  destruct (set_chain_wf t1 (hfun k) (Hnode addr k d (hfun k) :: chain_of t1 (Z.land (hfun k) (mask t1)))
    (u64(nodecount t1 + 1)) Hw1 (proj1 (hfun_range k))) as (Hw' & r & Hr & Hr').
  - intros n [->|Hn']%elem_of_cons; [done|].
    pose proof (wf_chain_of t1 (hfun k) Hw1 (proj1 (hfun_range k))) as Hl.
    destruct (wf_chain _ Hw1 _ _ _ Hl Hn') as [? ->]. split; [done|].
    rewrite Z2Nat.id; [done|]. by apply land_mask_nonneg.
  - intros r Hr. cbn. rewrite <-Hr, Hp. split_and!.
    + constructor; [done|apply Hw].
    + constructor; [done|apply Hw].
    + rewrite Hn, (wf_count _ Hw), wrap_small; [lia|].
      pose proof (wf_max _ Hw). pose proof (wf_count _ Hw). lia.
    + rewrite Hn, Hm, wrap_small; [lia|]. pose proof (wf_max _ Hw). pose proof (wf_count _ Hw). lia.
  - split; [done|]. split; [|done]. rewrite Hr'. cbn. by rewrite <-Hr, Hp.
Qed.

Lemma unlink_node_split addr c n :
  n ∈ c -> n_addr n = addr -> NoDup (n_addr <$> c) ->
  exists c1 c2, c = c1 ++ n :: c2 /\ unlink_node addr c = Some (c1 ++ c2).
Proof.
  intros Hn Ha. induction c as [|m c IH]; cbn; [set_solver|]. intros [Hm Hnd]%NoDup_cons.
  apply elem_of_cons in Hn as [<-|Hn].
  - exists [], c. by rewrite bool_decide_true.
  - destruct (IH Hn Hnd) as (c1 & c2 & -> & E). exists (m :: c1), c2.
    rewrite bool_decide_false, E; [done|].
    intros Hma. apply Hm. apply list_elem_of_fmap. exists n. split; [congruence|set_solver].
Qed.

Lemma delete_in_chain_wf t node : hash_wf t -> node ∈ nodes t ->
  exists t', delete_in_chain t node = Ok t' /\ hash_wf t' /\ nodes t ≡ₚ node :: nodes t' /\
    maxcount t' = maxcount t /\
    exists c1 c2, let i := Z.land (n_hkey node) (mask t) in
      chain_of t i = c1 ++ node :: c2 /\ t' = set_chain t i (c1 ++ c2) (nodecount t - 1).
Proof.
  intros Hw Hn. destruct (wf_node_chain _ _ Hw Hn) as [Hk Hin].
  assert (0 <= n_hkey node) as H0 by (rewrite Hk; apply hfun_range).
  set (i := Z.land (n_hkey node) (mask t)) in *.
  pose proof (wf_chain_of t _ Hw H0) as Hl. fold i in Hl.
  assert (NoDup (n_addr <$> chain_of t i)) as Hnd.
  { destruct (concat_insert (table t) _ _ [] Hl) as (r & Hp & _).
    pose proof (wf_addrs _ Hw) as Hnd. rewrite Hp, fmap_app in Hnd. by apply NoDup_app in Hnd as [? _]. }
  destruct (unlink_node_split (n_addr node) (chain_of t i) node Hin eq_refl Hnd) as (c1 & c2 & Hc & Hu).
  unfold delete_in_chain. fold i. rewrite Hu.
  assert (0 < nodecount t) as Hpos.
  { rewrite (wf_count _ Hw). destruct (nodes t); [set_solver|]. cbn. lia. }
  rewrite (wrap_small 64 (nodecount t - 1)) by (pose proof (wf_max _ Hw); lia).
  eexists; split; [done|].
  destruct (set_chain_wf t (n_hkey node) (c1 ++ c2) (nodecount t - 1) Hw H0) as (Hw' & r & Hr & Hr').
  - fold i. intros n Hn'. assert (n ∈ chain_of t i) as Hnc by (rewrite Hc; set_solver).
    destruct (wf_chain _ Hw _ _ _ Hl Hnc) as [? ->]. split; [done|].
    rewrite Z2Nat.id; [done|]. by apply land_mask_nonneg.
  - fold i. intros r Hr.
    assert (nodes t ≡ₚ node :: (c1 ++ c2) ++ r) as Hp.
    { rewrite Hr, Hc. solve_Permutation. }
    pose proof (wf_keys _ Hw) as Hk'. pose proof (wf_addrs _ Hw) as Ha'. pose proof (wf_count _ Hw) as Hcnt.
    rewrite Hp in Hk', Ha', Hcnt. cbn in Hk', Ha', Hcnt.
    apply NoDup_cons in Hk' as [_ Hk'], Ha' as [_ Ha'].
    pose proof (wf_max _ Hw). split_and!; [done|done|lia|lia].
  - fold i in Hr, Hr', Hw'. split_and!; [done| |done|by exists c1, c2].
    rewrite Hr', Hr, Hc. solve_Permutation.
Qed.

Lemma same_node_lookup t node : hash_wf t -> node ∈ nodes t ->
  same_node (hash_lookup t (n_key node)) node = true.
Proof.
  intros Hw Hn. rewrite (proj2 (hash_lookup_Some t _ node Hw) (conj Hn eq_refl)).
  cbn. by rewrite bool_decide_true.
Qed.

Lemma hash_scan_delete_wf t node : hash_wf t -> node ∈ nodes t ->
  exists t', hash_scan_delete t node = Ok t' /\ hash_wf t' /\ nodes t ≡ₚ node :: nodes t' /\
    maxcount t' = maxcount t.
Proof.
  intros Hw Hn. unfold hash_scan_delete. rewrite same_node_lookup by done. cbn [assert_ mbind res_bind].
  destruct (delete_in_chain_wf t node Hw Hn) as (t' & E & Hw' & Hp & Hm & _). eauto.
Qed.

Lemma hash_delete_wf ok t node : hash_wf t -> node ∈ nodes t ->
  exists t', hash_delete ok t node = Ok t' /\ hash_wf t' /\ nodes t ≡ₚ node :: nodes t' /\
    maxcount t' = maxcount t.
Proof.
  intros Hw Hn. unfold hash_delete. rewrite same_node_lookup by done. cbn [assert_ mbind res_bind].
  assert (exists t1, (if dynamic t && (nodecount t <=? lowmark t) && (INIT_SIZE <? nodecount t)
      then shrink_table ok t else Ok t) = Ok t1 /\
    hash_wf t1 /\ nodes t1 ≡ₚ nodes t /\ maxcount t1 = maxcount t)
    as (t1 & -> & Hw1 & Hp & Hm).
  { case_test; [|by exists t].
    destruct (shrink_table_wf ok t) as (t1 & ? & ? & ? & _ & ?); [done|done|done|]. eauto. }
  cbn [mbind res_bind].
  destruct (delete_in_chain_wf t1 node Hw1) as (t' & E & Hw' & Hp' & Hm' & _).
  - by rewrite Hp.
  - exists t'. split_and!; [done|done| |congruence]. by rewrite <-Hp, Hp'.
Qed.

Lemma hash_map_cons t t' n : hash_wf t -> nodes t ≡ₚ n :: nodes t' ->
  hash_map t = <[n_key n := n_data n]> (hash_map t') /\ hash_map t' !! n_key n = None.
Proof.
  intros Hw Hp. pose proof (wf_keys _ Hw) as Hk. split.
  - unfold hash_map. rewrite (list_to_map_proper _ (node_pair <$> n :: nodes t')).
    + done.
    + by rewrite node_pair_fst.
    + by rewrite Hp.
  - rewrite Hp in Hk. cbn in Hk. apply NoDup_cons in Hk as [Hk _].
    apply not_elem_of_list_to_map_1. by rewrite node_pair_fst.
Qed.

Lemma fresh_addr_ok t : fresh_addr t ∉ n_addr <$> nodes t.
Proof.
  unfold fresh_addr. set (X := list_to_set _ : gset positive). intros Hin.
  apply (is_fresh X). by apply elem_of_list_to_set.
Qed.

Lemma hash_create_wf m : 0 <= m <= 2 ^ 31 ->
  exists t, hash_create true true m = Some t /\ hash_wf t /\ nodes t = [] /\ maxcount t = m.
Proof.
  intros Hm. eexists. split; [done|]. cbn [clear_table table nchains maxcount].
  assert (forall n, concat (replicate n ([] : list hnode)) = []) as Hc by (induction n; done).
  rewrite Hc. split; [|done]. constructor; cbn -[INIT_SIZE replicate concat].
  - exists 10. done.
  - by rewrite length_replicate.
  - intros i c n Hi Hn. apply lookup_replicate in Hi as [-> _]. set_solver.
  - rewrite Hc. constructor.
  - rewrite Hc. constructor.
  - by rewrite Hc.
  - done.
  - done.
Qed.

(** ** Scanning

    What a scan has still to return: the rest of the current chain and every
    later chain. *)

Definition remaining (t : hash_t) (s : hscan) : list hnode :=
  match s_next s with
  | [] => []
  | c => c ++ concat (drop (S (Z.to_nat (s_chain s))) (table t))
  end.

Definition scan_wf (t : hash_t) (s : hscan) : Prop :=
  s_next s = [] \/
  0 <= s_chain s < nchains t /\ exists c, chain_of t (s_chain s) = c ++ s_next s.

(** The whole scan: call [hash_scan_next] until it returns [NULL]. *)
Fixpoint scan_all (fuel : nat) (t : hash_t) (s : hscan) : list hnode :=
  match fuel with
  | O => []
  | S k => match hash_scan_next t s with
           | (None, _) => []
           | (Some n, s') => n :: scan_all k t s'
           end
  end.

Lemma drop_chain t i : hash_wf t -> 0 <= i < nchains t ->
  drop (Z.to_nat i) (table t) = chain_of t i :: drop (S (Z.to_nat i)) (table t).
Proof.
  intros Hw Hi. destruct (lookup_lt_is_Some_2 (table t) (Z.to_nat i)) as [c Hc].
  { rewrite (wf_length _ Hw). lia. }
  unfold chain_of. rewrite Hc. cbn. by apply drop_S.
Qed.

(** The search for the next chain with a node stops at the first one. *)
Lemma next_chain_spec t : hash_wf t -> forall fuel i,
  0 <= i <= nchains t -> nchains t - i <= Z.of_nat fuel ->
  let r := next_chain fuel t i in
  i <= r <= nchains t /\
  concat (drop (Z.to_nat i) (table t)) =
    (if r <? nchains t then chain_of t r ++ concat (drop (S (Z.to_nat r)) (table t)) else []) /\
  (r < nchains t -> chain_of t r <> []).
Proof.
  intros Hw. induction fuel as [|fuel IH]; intros i Hi Hf; cbn [next_chain].
  - assert (i = nchains t) as -> by lia. rewrite Z.ltb_irrefl.
    rewrite drop_ge by (rewrite (wf_length _ Hw); lia). split_and!; [lia|lia|done|lia].
  - destruct (Z.ltb_spec i (nchains t)) as [Hlt|Hge]; cbn [andb].
    + rewrite (drop_chain t i Hw) by lia. cbn [concat].
      case_bool_decide as Hc.
      * destruct (IH (i + 1)) as (H1 & H2 & H3); [lia|lia|].
        rewrite Hc. cbn [app]. rewrite <-H2. split_and!; [lia|lia| |done].
        do 3 f_equal. lia.
      * rewrite (proj2 (Z.ltb_lt _ _)) by lia. split_and!; [lia|lia|done|done].
    + assert (i = nchains t) as -> by lia. rewrite Z.ltb_irrefl.
      rewrite drop_ge by (rewrite (wf_length _ Hw); lia). split_and!; [lia|lia|done|lia].
Qed.

Lemma remaining_chain t i : chain_of t i <> [] ->
  remaining t (Hscan i (chain_of t i)) = chain_of t i ++ concat (drop (S (Z.to_nat i)) (table t)).
Proof. unfold remaining. cbn. by destruct (chain_of t i). Qed.

Lemma scan_begin_spec t : hash_wf t ->
  remaining t (hash_scan_begin t) = nodes t /\ scan_wf t (hash_scan_begin t).
Proof.
  intros Hw. destruct (wf_bits _ Hw) as (b & Hb & Hn & _).
  assert (0 < nchains t) by (rewrite Hn; lia).
  destruct (next_chain_spec t Hw (Z.to_nat (nchains t)) 0) as (H1 & H2 & H3); [lia|lia|].
  unfold hash_scan_begin. cbn [drop] in H2. rewrite Z2Nat.inj_0, drop_0 in H2.
  destruct (Z.ltb_spec (next_chain (Z.to_nat (nchains t)) t 0) (nchains t)).
  - rewrite remaining_chain by auto. split; [done|]. right. split; [cbn; lia|]. by exists [].
  - rewrite H2. split; [done|by left].
Qed.

Lemma scan_next_spec t s : hash_wf t -> scan_wf t s -> s_next s <> [] ->
  exists n s', hash_scan_next t s = (Some n, s') /\ remaining t s = n :: remaining t s' /\
    scan_wf t s' /\ (exists c, s_next s = n :: c /\
      (c <> [] /\ s' = Hscan (s_chain s) c \/ s_next s' = [] \/ s_chain s < s_chain s')) /\
    n ∈ chain_of t (s_chain s).
Proof.
  intros Hw [Hs|(Hr & c0 & Hc)] Hne; [done|]. unfold hash_scan_next, remaining.
  destruct (s_next s) as [|n [|m c]] eqn:E; [done| |].
  - destruct (next_chain_spec t Hw (Z.to_nat (nchains t)) (s_chain s + 1)) as (H1 & H2 & H3); [lia|lia|].
    assert (n ∈ chain_of t (s_chain s)) by (rewrite Hc; set_solver).
    replace (Z.to_nat (s_chain s + 1)) with (S (Z.to_nat (s_chain s))) in H2 by lia.
    destruct (Z.ltb_spec (next_chain (Z.to_nat (nchains t)) t (s_chain s + 1)) (nchains t)).
    + exists n. eexists. split; [done|]. rewrite H2. cbn [s_next s_chain].
      destruct (chain_of t (next_chain _ t _)) as [|x c] eqn:Ex; [exfalso; by apply H3|].
      split_and!; [done| |exists []; split; [done|]; right; right; cbn; lia|done].
      right. cbn. split; [lia|]. exists []. by rewrite Ex.
    + exists n. eexists. split; [done|]. rewrite H2. cbn.
      split_and!; [done|by left|exists []; split; [done|]; right; by left|done].
  - exists n. eexists. split; [done|]. cbn [s_next s_chain tail].
    split_and!; [done| |exists (m :: c); split; [done|]; by left|rewrite Hc; set_solver].
    right. cbn. split; [lia|]. exists (c0 ++ [n]). by rewrite <-app_assoc.
Qed.

(** Unlinking the node a scan just returned leaves the rest of the scan as it
    was: [hash_scan_delete] never moves the other nodes. *)
Lemma scan_delete_step t s n s' : hash_wf t -> scan_wf t s -> s_next s <> [] ->
  hash_scan_next t s = (Some n, s') ->
  exists t', hash_scan_delete t n = Ok t' /\ hash_wf t' /\ nodes t ≡ₚ n :: nodes t' /\
    maxcount t' = maxcount t /\
    remaining t' s' = remaining t s' /\ scan_wf t' s'.
Proof.
  intros Hw Hs Hne Hnext.
  destruct (scan_next_spec t s Hw Hs Hne) as (n' & s'' & Hn' & _ & Hs' & (c & Hsn & Hcase) & Hin).
  rewrite Hn' in Hnext. injection Hnext as -> ->.
  destruct Hs as [Hs|(Hr & c0 & Hc)]; [done|]. rewrite Hsn in Hc.
  pose proof (chain_of_nodes _ _ _ Hin) as Hnt.
  destruct (delete_in_chain_wf t n Hw Hnt) as (t' & E & Hw' & Hp & Hm & c1 & c2 & Hcc & ->).
  assert (Z.land (n_hkey n) (mask t) = s_chain s) as Hidx.
  { destruct (lookup_lt_is_Some_2 (table t) (Z.to_nat (s_chain s))) as [cc Hcc'].
    { rewrite (wf_length _ Hw). lia. }
    unfold chain_of in Hin. rewrite Hcc' in Hin. destruct (wf_chain _ Hw _ _ _ Hcc' Hin) as [_ ->]. lia. }
  rewrite Hidx in *. eexists. unfold hash_scan_delete.
  rewrite same_node_lookup by done. cbn [assert_ mbind res_bind].
  split; [done|]. split_and!; [done|done|done| |].
  - unfold remaining. destruct (s_next s') eqn:Es; [done|]. do 2 f_equal. cbn.
    destruct Hcase as [[_ ->]|[?|?]]; [|done|]; rewrite drop_insert_lt; cbn in *; lia || done.
  - destruct Hs' as [?|(Hr' & c' & Hc')]; [by left|]. right. split; [done|].
    destruct Hcase as [[Hcn ->]|[Hnil|Hlt]].
    + cbn [s_chain s_next]. exists c1. unfold chain_of, set_chain. cbn.
      rewrite list_lookup_insert_eq by (rewrite (wf_length _ Hw); lia). cbn.
      rewrite Hcc in Hc. enough (c2 = c) as -> by done.
      assert (NoDup (c1 ++ n :: c2)) as Hnd.
      { rewrite <-Hcc. pose proof (wf_addrs _ Hw) as Hnd. apply NoDup_fmap_1 in Hnd.
        destruct (lookup_lt_is_Some_2 (table t) (Z.to_nat (s_chain s))) as [cc Hcc'].
        { rewrite (wf_length _ Hw). lia. }
        destruct (concat_insert _ _ _ [] Hcc') as (r & Hpr & _). rewrite Hpr in Hnd.
        apply NoDup_app in Hnd as [Hnd _]. unfold chain_of. by rewrite Hcc'. }
      apply (NoDup_app_split_inj c1 c0 n c2 c) in Hc as [_ ?]; done.
    + exists (chain_of (set_chain t (s_chain s) (c1 ++ c2) (nodecount t - 1)) (s_chain s')).
      by rewrite Hnil, app_nil_r.
    + exists c'. unfold chain_of, set_chain in *. cbn.
      rewrite list_lookup_insert_ne by lia. done.
Qed.

(** ** The table against a finite map *)

Inductive hop : Type :=
  | HLookup (k : K)
  | HInsert (alloc ok : bool) (k : K) (d : V)
  | HDelete (ok : bool) (k : K)
  | HScanDelete (k : K).

(** A deletion is given the node a lookup of its key finds.  An insertion answers the value
    when there was memory for its node, [None] when there was not. *)
Definition table_op (op : hop) (t : hash_t) : res (option V * hash_t) :=
  match op with
  | HLookup k => Ok (n_data <$> hash_lookup t k, t)
  | HInsert alloc ok k d =>
      '(a, t) ← hash_alloc_insert_node alloc ok t k d; Ok (match a with Some _ => Some d | None => None end, t)
  | HDelete ok k =>
      match hash_lookup t k with
      | Some n => t ← hash_delete ok t n; Ok (Some (n_data n), t)
      | None => Ok (None, t)
      end
  | HScanDelete k =>
      match hash_lookup t k with
      | Some n => t ← hash_scan_delete t n; Ok (Some (n_data n), t)
      | None => Ok (None, t)
      end
  end.

(** The same operation on a map with room for [max] keys. *)
Definition map_op (max : Z) (op : hop) (m : gmap K V) : res (option V * gmap K V) :=
  match op with
  | HLookup k => Ok (m !! k, m)
  | HInsert alloc _ k d =>
      if alloc then
        _ ← assert_ (Z.of_nat (size m) <? max);
        _ ← assert_ (bool_decide (m !! k = None));
        Ok (Some d, <[k := d]> m)
      else Ok (None, m)
  | HDelete _ k | HScanDelete k => Ok (m !! k, delete k m)
  end.

Fixpoint table_ops (ops : list hop) (t : hash_t) : res (list (option V) * hash_t) :=
  match ops with
  | [] => Ok ([], t)
  | op :: ops =>
      '(o, t) ← table_op op t; '(os, t) ← table_ops ops t; Ok (o :: os, t)
  end.

Fixpoint map_ops (max : Z) (ops : list hop) (m : gmap K V) : res (list (option V) * gmap K V) :=
  match ops with
  | [] => Ok ([], m)
  | op :: ops =>
      '(o, m) ← map_op max op m; '(os, m) ← map_ops max ops m; Ok (o :: os, m)
  end.

(** [r] on the table is [r'] on the map. *)
Definition refines {A} (max : Z) (r : res (A * hash_t)) (r' : res (A * gmap K V)) : Prop :=
  match r' with
  | Ok (a, m) => exists t, r = Ok (a, t) /\ hash_wf t /\ hash_map t = m /\ maxcount t = max
  | Abort w => r = Abort w
  end.

Lemma hash_map_None t k : hash_wf t -> hash_map t !! k = None <-> hash_lookup t k = None.
Proof. intros Hw. rewrite hash_map_lookup by done. apply fmap_None. Qed.

Lemma table_delete_refines (del : hash_t -> hnode -> res hash_t) t k :
  hash_wf t ->
  (forall n, n ∈ nodes t -> exists t', del t n = Ok t' /\ hash_wf t' /\ nodes t ≡ₚ n :: nodes t' /\
     maxcount t' = maxcount t) ->
  refines (maxcount t)
    (match hash_lookup t k with
     | Some n => t' ← del t n; Ok (Some (n_data n), t')
     | None => Ok (None, t)
     end) (Ok (hash_map t !! k, delete k (hash_map t))).
Proof.
  intros Hw Hdel. cbn. rewrite hash_map_lookup by done.
  destruct (hash_lookup t k) as [n|] eqn:E; cbn.
  - apply (hash_lookup_Some t k n Hw) in E as [Hn <-].
    destruct (Hdel n Hn) as (t' & -> & Hw' & Hp & Hm). exists t'.
    destruct (hash_map_cons _ _ _ Hw Hp) as [-> HN]. split_and!; [done|done| |done].
    by rewrite delete_insert_id.
  - exists t. split_and!; [done|done| |done]. symmetry. apply delete_id. by apply hash_map_None.
Qed.

Lemma table_op_refines op t : hash_wf t ->
  refines (maxcount t) (table_op op t) (map_op (maxcount t) op (hash_map t)).
Proof.
  intros Hw. destruct op as [k|[] ok k d|ok k|k]; cbn [table_op map_op].
  - exists t. by rewrite hash_map_lookup.
  - rewrite <-size_hash_map by done. unfold hash_alloc_insert_node, hash_insert.
    destruct (Z.ltb_spec (nodecount t) (maxcount t)) as [Hlt|Hge]; [|done].
    cbn [assert_ mbind res_bind].
    rewrite <-(bool_decide_ext _ _ (hash_map_None t k Hw)).
    case_bool_decide as Hk; [|done].
    destruct (hash_insert_wf ok t (fresh_addr t) k d Hw (proj1 (hash_map_None t k Hw) Hk) Hlt (fresh_addr_ok t))
      as (t' & E & Hw' & Hp & Hm).
    unfold hash_insert in E.
    rewrite (proj2 (Z.ltb_lt _ _) Hlt), <-(bool_decide_ext _ _ (hash_map_None t k Hw)),
      bool_decide_true in E by done.
    cbn [assert_ mbind res_bind] in E |- *. rewrite E. exists t'. cbn. split_and!; [done|done| |done].
    by destruct (hash_map_cons t' t _ Hw' Hp) as [-> _].
  - by exists t.
  - apply (table_delete_refines (hash_delete ok)); [done|]. intros n Hn. by apply hash_delete_wf.
  - apply (table_delete_refines hash_scan_delete); [done|]. intros n Hn. by apply hash_scan_delete_wf.
Qed.

Lemma table_ops_refines ops : forall t, hash_wf t ->
  refines (maxcount t) (table_ops ops t) (map_ops (maxcount t) ops (hash_map t)).
Proof.
  induction ops as [|op ops IH]; intros t Hw; cbn [table_ops map_ops]; [by exists t|].
  pose proof (table_op_refines op t Hw) as H1. unfold refines in *.
  destruct (map_op (maxcount t) op (hash_map t)) as [[o m]|w]; [|by rewrite H1].
  destruct H1 as (t1 & -> & Hw1 & <- & Hm1). cbn [mbind res_bind].
  specialize (IH t1 Hw1). rewrite Hm1 in IH.
  destruct (map_ops (maxcount t) ops (hash_map t1)) as [[os m]|w]; [|by rewrite IH].
  destruct IH as (t2 & -> & Hw2 & <- & Hm2). cbn. exists t2. done.
Qed.

(** C20: Whatever sequence of lookups, insertions and deletions a new table
    goes through, and whichever allocations of nodes and resizes fail, it
    answers every operation as a finite map of the same capacity does and ends
    well formed; an insertion without memory for its node changes nothing and
    says so.  An insertion into a full table, or of a key that is there, fails
    the assertion that the code makes, exactly when the map would exceed its
    capacity or bind a key twice.  The hash function gives 32 bits, the
    comparison 0 on equal keys only. *)
Theorem hash_ops_refine ops max : 0 <= max <= 2 ^ 31 ->
  exists t, hash_create true true max = Some t /\
    refines max (table_ops ops t) (map_ops max ops ∅).
Proof.
  intros Hmax. destruct (hash_create_wf max Hmax) as (t & E & Hw & Hn & <-). exists t.
  split; [done|]. replace ∅ with (hash_map t); [by apply table_ops_refines|].
  unfold hash_map. by rewrite Hn.
Qed.

Lemma is_power_of_two_pow k : 0 <= k <= 31 -> is_power_of_two (2 ^ k) = true.
Proof.
  intros Hk. assert (Forall (fun k => is_power_of_two (2 ^ k) = true) (seqZ 0 32)) as HF.
  { apply (bool_decide_unpack _). by vm_compute. }
  rewrite Forall_forall in HF. apply HF, elem_of_seqZ. lia.
Qed.

(** [hash_verify], which debug builds assert after every change, accepts
    every well-formed table. *)
Theorem hash_verify_wf t : hash_wf t -> hash_verify t = true.
Proof.
  intros Hw. destruct (wf_bits _ Hw) as (b & Hb & Hn & Hm & Hh & Hl). unfold hash_verify.
  rewrite (wf_dynamic _ Hw), Hh, Hl, !is_power_of_two_pow by lia.
  rewrite (proj2 (Z.leb_gt _ _)) by (apply Z.pow_lt_mono_r; lia). cbn [negb andb].
  apply andb_true_iff; split.
  - apply forallb_forall. intros i Hi%list_elem_of_In. apply elem_of_seqZ in Hi.
    apply forallb_forall. intros n Hnc%list_elem_of_In.
    unfold chain_of in Hnc. destruct (table t !! Z.to_nat i) as [c|] eqn:Hc; cbn in Hnc; [|set_solver].
    destruct (wf_chain _ Hw _ _ _ Hc Hnc) as [_ ->]. apply Z.eqb_eq. lia.
  - apply Z.eqb_eq. rewrite <-(wf_count _ Hw). apply wrap_small.
    pose proof (wf_max _ Hw). pose proof (wf_count _ Hw). lia.
Qed.

(** A scan returns every node of the table exactly once, in chain order,
    and then [NULL]. *)
Theorem scan_all_nodes t : hash_wf t ->
  scan_all (S (length (nodes t))) t (hash_scan_begin t) = nodes t.
Proof.
  intros Hw. destruct (scan_begin_spec t Hw) as [Hr Hs]. rewrite <-Hr at 2. rewrite <-Hr at 1. clear Hr.
  revert Hs. generalize (hash_scan_begin t) as s. intros s Hs.
  remember (length (remaining t s)) as len eqn:Hlen. revert s Hs Hlen.
  induction len as [|len IH]; intros s Hs Hlen; cbn [scan_all].
  - unfold remaining in *. unfold hash_scan_next. destruct (s_next s) as [|n c]; [done|]. cbn in Hlen. lia.
  - assert (s_next s <> []) as Hne.
    { unfold remaining in Hlen. destruct (s_next s); [cbn in Hlen; lia|done]. }
    destruct (scan_next_spec t s Hw Hs Hne) as (n & s' & -> & Hr & Hs' & _).
    rewrite Hr in Hlen |- *. f_equal. apply IH; [done|]. cbn in Hlen. lia.
Qed.

Lemma free_nodes_run : forall fuel t s freed, hash_wf t -> scan_wf t s ->
  nodes t ≡ₚ remaining t s -> (length (remaining t s) < fuel)%nat ->
  exists t', free_nodes_loop fuel t s freed = Ok (t', freed ++ remaining t s) /\
    hash_wf t' /\ nodes t' = [] /\ maxcount t' = maxcount t.
Proof.
  induction fuel as [|fuel IH]; intros t s freed Hw Hs Hp Hf; [lia|]. cbn [free_nodes_loop].
  destruct (s_next s) as [|n0 c0] eqn:E.
  - unfold hash_scan_next, remaining in *. rewrite E in *.
    exists t. rewrite app_nil_r. split_and!; [done|done| |done]. by apply Permutation_nil_r.
  - assert (s_next s <> []) as Hne by (by rewrite E).
    destruct (scan_next_spec t s Hw Hs Hne) as (n & s' & Hnext & Hr & Hs' & _).
    destruct (scan_delete_step t s n s' Hw Hs Hne Hnext) as (t' & Hd & Hw' & Hp' & Hm & Hr' & Hs'').
    rewrite Hnext, Hd, Hr in *. cbn [mbind res_bind].
    destruct (IH t' s' (freed ++ [n]) Hw' Hs'') as (t2 & -> & Hw2 & Hn2 & Hm2).
    + rewrite Hr'. rewrite Hp' in Hp. by apply (inj (cons n)) in Hp.
    + rewrite Hr'. cbn in Hf. lia.
    + exists t2. rewrite Hr', <-app_assoc. cbn [app]. split_and!; [done|done|done|congruence].
Qed.

(** [hash_free_nodes], which unlinks nodes while it scans, terminates,
    releases every node exactly once and leaves an empty well-formed table. *)
Theorem hash_free_nodes_empties t : hash_wf t ->
  exists t', hash_free_nodes t = Ok (t', nodes t) /\ hash_wf t' /\ hash_map t' = ∅ /\
    hash_isempty t' = true.
Proof.
  intros Hw. destruct (scan_begin_spec t Hw) as [Hr Hs]. unfold hash_free_nodes.
  destruct (free_nodes_run (S (length (nodes t))) t (hash_scan_begin t) [] Hw Hs) as (t1 & -> & Hw1 & Hn1 & Hm1).
  - by rewrite Hr.
  - rewrite Hr. lia.
  - rewrite Hr. cbn [mbind res_bind app]. eexists; split; [done|].
    assert (forall n, concat (replicate n ([] : list hnode)) = []) as Hc by (induction n; done).
    unfold hash_map. cbn -[replicate]. rewrite Hc. split_and!; [|done|done].
    constructor; cbn -[replicate]; rewrite ?Hc; try by constructor.
    + apply Hw1.
    + by rewrite length_replicate.
    + intros i c n Hi Hin. apply lookup_replicate in Hi as [-> _]. set_solver.
    + pose proof (wf_max _ Hw1). pose proof (wf_count _ Hw1). lia.
    + apply Hw1.
Qed.

End Facts.

End Hash.

Arguments hnode K V : clear implicits.
Arguments hash_t K V : clear implicits.

(** ** The interface the directory cache uses

    [HashOps] is what the client calls; [HashLaws] is what it may rely on: a
    finite map [h_map] that the operations follow.  [noshrink] selects
    [hash_scan_delete]; the other flags are allocation outcomes. *)

Class HashOps (T K V : Type) := {
  h_create : bool -> bool -> Z -> option T;
  h_lookup : T -> K -> option V;
  h_insert : bool -> K -> V -> T -> res T;
  h_delete : bool -> bool -> K -> T -> res T;
  h_count : T -> Z;
  h_max : T -> Z;
  h_size : T -> Z;
  h_chain : T -> Z -> list V
}.

(** A scan: the chains in order. *)
Definition h_scan {T K V} `{HashOps T K V} (t : T) : list V :=
  concat (h_chain t <$> seqZ 0 (h_size t)).

Class HashLaws (T K V : Type) `{HashOps T K V} `{Countable K} := {
  h_wf : T -> Prop;
  h_map : T -> gmap K V;
  h_create_law m : 0 <= m <= 2 ^ 31 ->
    exists t, h_create true true m = Some t /\ h_wf t /\ h_map t = ∅ /\ h_max t = m;
  h_lookup_law t k : h_wf t -> h_lookup t k = h_map t !! k;
  h_count_law t : h_wf t -> h_count t = Z.of_nat (size (h_map t));
  h_insert_law ok k v t : h_wf t -> h_map t !! k = None -> h_count t < h_max t ->
    exists t', h_insert ok k v t = Ok t' /\ h_wf t' /\ h_map t' = <[k := v]> (h_map t) /\
      h_max t' = h_max t;
  h_delete_law ns ok k v t : h_wf t -> h_map t !! k = Some v ->
    exists t', h_delete ns ok k t = Ok t' /\ h_wf t' /\ h_map t' = delete k (h_map t) /\
      h_max t' = h_max t;
  h_scan_law t : h_wf t -> h_scan t ≡ₚ (map_to_list (h_map t)).*2
}.

Section Instance.
Context {K V : Type} `{Countable K}.
Context (hfun : K -> Z) (compare : K -> K -> Z).
Context (hfun_range : forall k, 0 <= hfun k < 2 ^ 32).
Context (compare_eq : forall a b, compare a b = 0 <-> a = b).

(** The node a client holds for a key is the one the table holds under it. *)
Definition delete_key (noshrink ok : bool) (k : K) (t : hash_t K V) : res (hash_t K V) :=
  match hash_lookup hfun compare t k with
  | Some n => if noshrink then hash_scan_delete hfun compare t n else hash_delete hfun compare ok t n
  | None => Abort Undefined
  end.

Definition insert_key (ok : bool) (k : K) (v : V) (t : hash_t K V) : res (hash_t K V) :=
  '(_, t) ← hash_alloc_insert_node hfun compare true ok t k v; Ok t.

Definition table_hash_ops : HashOps (hash_t K V) K V := {|
  h_create := hash_create;
  h_lookup t k := n_data <$> hash_lookup hfun compare t k;
  h_insert := insert_key;
  h_delete := delete_key;
  h_count := hash_count;
  h_max := maxcount;
  h_size := hash_size;
  h_chain t i := n_data <$> chain_of t i
|}.

Lemma chains_table (t : hash_t K V) : length (table t) = Z.to_nat (nchains t) ->
  chain_of t <$> seqZ 0 (nchains t) = table t.
Proof.
  intros Hl. apply list_eq. intros i. rewrite list_lookup_fmap.
  destruct (decide (i < length (table t))%nat) as [Hi|Hi].
  - rewrite (proj2 (lookup_seqZ 0 (nchains t) i (0 + Z.of_nat i))) by lia. cbn.
    destruct (lookup_lt_is_Some_2 _ _ Hi) as [c Hc].
    unfold chain_of. rewrite Z.add_0_l, Nat2Z.id, Hc. done.
  - rewrite (proj2 (lookup_ge_None (table t) i)) by lia.
    rewrite lookup_seqZ_ge by lia. done.
Qed.

#[local] Instance table_hash_ops_inst : HashOps (hash_t K V) K V := table_hash_ops.

(** The table discharges the interface. *)
Program Definition table_hash_laws : HashLaws (hash_t K V) K V := {|
  h_wf := hash_wf hfun;
  h_map := hash_map
|}.
Next Obligation.
  intros m Hm. destruct (hash_create_wf (V := V) hfun compare hfun_range compare_eq m Hm)
    as (t & E & Hw & Hn & Hmx).
  exists t. split_and!; [done|done| |done]. unfold hash_map. by rewrite Hn.
Qed.
Next Obligation.
  intros t k Hw. cbn. symmetry. by eapply hash_map_lookup.
Qed.
Next Obligation. intros t Hw. by eapply size_hash_map. Qed.
Next Obligation.
  intros ok k v t Hw Hk Hlt. cbn in *. unfold insert_key, hash_alloc_insert_node.
  destruct (hash_insert_wf hfun compare hfun_range compare_eq ok t (fresh_addr t) k v Hw) as (t' & -> & Hw' & Hp & Hm).
  - by eapply hash_map_None in Hk.
  - done.
  - apply fresh_addr_ok.
  - exists t'. cbn. split_and!; [done|done| |done]. by destruct (hash_map_cons hfun t' t _ Hw' Hp) as [-> _].
Qed.
Next Obligation.
  intros ns ok k v t Hw Hk. cbn in *. unfold delete_key.
  rewrite (hash_map_lookup hfun compare hfun_range compare_eq) in Hk by done.
  apply fmap_Some in Hk as (n & Hn & _). rewrite Hn.
  apply (hash_lookup_Some hfun compare hfun_range compare_eq t k n Hw) in Hn as [Hn <-].
  assert (exists t', (if ns then hash_scan_delete hfun compare t n else hash_delete hfun compare ok t n) = Ok t' /\
    hash_wf hfun t' /\ concat (table t) ≡ₚ n :: concat (table t') /\ maxcount t' = maxcount t)
    as (t' & -> & Hw' & Hp & Hm).
  { destruct ns; [by apply hash_scan_delete_wf|by apply hash_delete_wf]. }
  exists t'. destruct (hash_map_cons hfun t t' n Hw Hp) as [-> HN]. split_and!; [done|done| |done].
  by rewrite delete_insert_id.
Qed.
Next Obligation.
  intros t Hw. unfold h_scan. cbn.
  rewrite <-(list_fmap_compose (chain_of t) (fmap n_data)) || idtac.
  replace ((fun i => n_data <$> chain_of t i) <$> seqZ 0 (hash_size t))
    with (fmap n_data <$> (chain_of t <$> seqZ 0 (nchains t))) by (by rewrite <-list_fmap_compose).
  rewrite chains_table by (by apply (wf_length hfun)).
  assert (concat (fmap n_data <$> table t) = n_data <$> concat (table t)) as ->.
  { induction (table t) as [|c l IH]; [done|]. cbn. by rewrite IH, fmap_app. }
  unfold hash_map. rewrite map_to_list_to_map.
  - rewrite <-list_fmap_compose. done.
  - rewrite node_pair_fst. by apply (wf_keys hfun).
Qed.
End Instance.

(** ** Witnesses: integer keys hashed to their low 32 bits *)

Definition zfun (k : Z) : Z := wrap 32 k.
Definition zcmp (a b : Z) : Z := a - b.

Lemma zfun_range k : 0 <= zfun k < 2 ^ 32.
Proof. apply wrap_range. lia. Qed.
Lemma zcmp_eq a b : zcmp a b = 0 <-> a = b.
Proof. unfold zcmp. lia. Qed.

Definition ztable : hash_t Z Z := default (Hash [] 0 0 0 0 0 0 true) (hash_create true true 4096).

Lemma ztable_wf : hash_wf zfun ztable.
Proof. destruct (hash_create_wf (V := Z) zfun zcmp zfun_range zcmp_eq 4096) as (t & [= <-] & Hw & _); [lia|done]. Qed.

Lemma hash_ops_refine_witness :
  exists t, hash_create true true 4096 = Some t /\
  refines zfun 4096
    (table_ops zfun zcmp [HInsert true true 5 50; HInsert true false 1029 60; HInsert false true 7 70; HLookup 5; HDelete true 5; HLookup 5] t)
    (Ok ([Some 50; Some 60; None; Some 50; Some 50; None], {[ 1029 := 60 ]})).
Proof.
  destruct (hash_ops_refine zfun zcmp zfun_range zcmp_eq
    [HInsert true true 5 50; HInsert true false 1029 60; HInsert false true 7 70; HLookup 5; HDelete true 5; HLookup 5] 4096)
    as (t & E & Hr); [lia|].
  assert (map_ops 4096 [HInsert true true 5 50; HInsert true false 1029 60; HInsert false true 7 70; HLookup 5; HDelete true 5; HLookup 5] ∅
    = Ok ([Some 50; Some 60; None; Some 50; Some 50; None], {[ 1029 := 60 ]})) as Em by (by vm_compute).
  rewrite Em in Hr. exists t. split; [exact E|exact Hr].
Defined.

Lemma hash_verify_wf_witness : hash_wf zfun ztable /\ hash_verify ztable = true.
Proof. split; [exact ztable_wf|exact (hash_verify_wf zfun zcmp zfun_range zcmp_eq ztable ztable_wf)]. Defined.

Definition ztable2 : hash_t Z Z :=
  match table_ops zfun zcmp [HInsert true true 5 50; HInsert true true 1029 60; HInsert true true 7 70] ztable with
  | Ok (_, t) => t
  | Abort _ => ztable
  end.

Lemma ztable2_wf : hash_wf zfun ztable2.
Proof.
  pose proof (table_ops_refines zfun zcmp zfun_range zcmp_eq
    [HInsert true true 5 50; HInsert true true 1029 60; HInsert true true 7 70] ztable ztable_wf) as Hr.
  assert (map_ops (maxcount ztable) [HInsert true true 5 50; HInsert true true 1029 60; HInsert true true 7 70] (hash_map ztable)
    = Ok ([Some 50; Some 60; Some 70], {[ 5 := 50; 1029 := 60; 7 := 70 ]})) as E by (by vm_compute).
  unfold refines in Hr. rewrite E in Hr. destruct Hr as (t & Et & Hw & _).
  unfold ztable2. by rewrite Et.
Qed.

Lemma scan_all_nodes_witness :
  (n_data <$> concat (table ztable2)) = [60; 50; 70] /\
  scan_all 4 ztable2 (hash_scan_begin ztable2) = concat (table ztable2).
Proof. split; [by vm_compute|]. exact (scan_all_nodes zfun zcmp zfun_range zcmp_eq ztable2 ztable2_wf). Defined.

Lemma hash_free_nodes_empties_witness :
  exists t', hash_free_nodes zfun zcmp ztable2 = Ok (t', concat (table ztable2)) /\
    hash_isempty t' = true.
Proof.
  destruct (hash_free_nodes_empties zfun zcmp zfun_range zcmp_eq ztable2 ztable2_wf) as (t' & E & _ & _ & He).
  exists t'. split; [exact E|exact He].
Defined.
