(* ===== verification/Dircache.v ===== *)
(** * The directory cache of etc/afpd/dircache.c

    The cache holds [struct dir] entries under two hash indexes, by volume and
    directory ID and by volume, parent ID and name, and in the queues that pick
    the entry to evict: one queue in LRU mode, the four lists T1, T2, B1 and B2
    in ARC mode.  This file holds the data and the operations; the tables are
    any implementation of [HashOps], and a queue is the list [Queue.v] shows a
    heap queue to be.  A queue node is named by the entry it carries, since the
    code enqueues an entry only while its [qidx_node] is [NULL]. *)

From S2P Require Import Prelude HashTable.

Notation dirptr := positive (only parsing).

(** ** Data *)

Inductive arc_list_t : Type := ARC_NONE | ARC_T1 | ARC_T2 | ARC_B1 | ARC_B2.

#[export] Instance arc_list_t_eq_dec : EqDecision arc_list_t.
Proof. solve_decision. Defined.

Definition CNID_INVALID : Z := 0.
Definition CNID_START : Z := 17.
Definition DIRDID_ROOT_PARENT : Z := htonl 1.
Definition DIRDID_ROOT : Z := htonl 2.

Definition DIRF_ISFILE : Z := 8.
Definition DIRF_ARC_GHOST : Z := 64.
Definition DIRF_INDEXED : Z := 128.

(** Flags of [dircache_remove]. *)
Definition DIRCACHE : Z := 1.
Definition DIDNAME_INDEX : Z := 2.
Definition QUEUE_INDEX : Z := 4.
Definition DIRCACHE_NOSHRINK : Z := 8.
Definition DIRCACHE_ALL : Z := Z.lor DIRCACHE (Z.lor DIDNAME_INDEX QUEUE_INDEX).

Definition MIN_DIRCACHE_SIZE : Z := 1024.
Definition MAX_DIRCACHE_SIZE : Z := 1048576.
Definition DEFAULT_DIRCACHE_SIZE : Z := 65536.
Definition DIRCACHE_FREE_QUANTUM : nat := 256.

Definition has (flags f : Z) : bool := negb (Z.land flags f =? 0).

(** The fields of [struct dir] the cache works on.  [d_did], [d_pdid] are in
    network byte order, as stored; the three node fields tell whether the entry
    holds a node of its queue, of the directory ID index and of the name index;
    [ea_cached] is whether the extended attribute payload is cached. *)
Record dir := Dir {
  d_did : Z;
  d_pdid : Z;
  d_vid : Z;
  d_u_name : list Z;
  d_fullpath : option (list Z);
  d_flags : Z;
  arc_list : arc_list_t;
  qidx_node : bool;
  d_index_node : bool;
  d_didname_node : bool;
  ea_cached : bool
}.

Definition upd_d_did (f : Z -> Z) (x : dir) : dir :=
  Dir (f (d_did x)) (d_pdid x) (d_vid x) (d_u_name x) (d_fullpath x) (d_flags x) (arc_list x) (qidx_node x) (d_index_node x) (d_didname_node x) (ea_cached x).
Definition upd_d_pdid (f : Z -> Z) (x : dir) : dir :=
  Dir (d_did x) (f (d_pdid x)) (d_vid x) (d_u_name x) (d_fullpath x) (d_flags x) (arc_list x) (qidx_node x) (d_index_node x) (d_didname_node x) (ea_cached x).
Definition upd_d_vid (f : Z -> Z) (x : dir) : dir :=
  Dir (d_did x) (d_pdid x) (f (d_vid x)) (d_u_name x) (d_fullpath x) (d_flags x) (arc_list x) (qidx_node x) (d_index_node x) (d_didname_node x) (ea_cached x).
Definition upd_d_u_name (f : list Z -> list Z) (x : dir) : dir :=
  Dir (d_did x) (d_pdid x) (d_vid x) (f (d_u_name x)) (d_fullpath x) (d_flags x) (arc_list x) (qidx_node x) (d_index_node x) (d_didname_node x) (ea_cached x).
Definition upd_d_fullpath (f : option (list Z) -> option (list Z)) (x : dir) : dir :=
  Dir (d_did x) (d_pdid x) (d_vid x) (d_u_name x) (f (d_fullpath x)) (d_flags x) (arc_list x) (qidx_node x) (d_index_node x) (d_didname_node x) (ea_cached x).
Definition upd_d_flags (f : Z -> Z) (x : dir) : dir :=
  Dir (d_did x) (d_pdid x) (d_vid x) (d_u_name x) (d_fullpath x) (f (d_flags x)) (arc_list x) (qidx_node x) (d_index_node x) (d_didname_node x) (ea_cached x).
Definition upd_arc_list (f : arc_list_t -> arc_list_t) (x : dir) : dir :=
  Dir (d_did x) (d_pdid x) (d_vid x) (d_u_name x) (d_fullpath x) (d_flags x) (f (arc_list x)) (qidx_node x) (d_index_node x) (d_didname_node x) (ea_cached x).
Definition upd_qidx_node (f : bool -> bool) (x : dir) : dir :=
  Dir (d_did x) (d_pdid x) (d_vid x) (d_u_name x) (d_fullpath x) (d_flags x) (arc_list x) (f (qidx_node x)) (d_index_node x) (d_didname_node x) (ea_cached x).
Definition upd_d_index_node (f : bool -> bool) (x : dir) : dir :=
  Dir (d_did x) (d_pdid x) (d_vid x) (d_u_name x) (d_fullpath x) (d_flags x) (arc_list x) (qidx_node x) (f (d_index_node x)) (d_didname_node x) (ea_cached x).
Definition upd_d_didname_node (f : bool -> bool) (x : dir) : dir :=
  Dir (d_did x) (d_pdid x) (d_vid x) (d_u_name x) (d_fullpath x) (d_flags x) (arc_list x) (qidx_node x) (d_index_node x) (f (d_didname_node x)) (ea_cached x).
Definition upd_ea_cached (f : bool -> bool) (x : dir) : dir :=
  Dir (d_did x) (d_pdid x) (d_vid x) (d_u_name x) (d_fullpath x) (d_flags x) (arc_list x) (qidx_node x) (d_index_node x) (d_didname_node x) (f (ea_cached x)).

(** Statistics of the ARC lists. *)
Record arc_stats := ArcStats {
  hits_t1 : Z;
  hits_t2 : Z;
  ghost_hits_b1 : Z;
  ghost_hits_b2 : Z;
  adaptations : Z;
  evictions_t1 : Z;
  evictions_t2 : Z;
  promotions_t1_to_t2 : Z;
  p_min : Z;
  p_max : Z;
  p_increases : Z;
  p_decreases : Z
}.

Definition upd_hits_t1 (f : Z -> Z) (x : arc_stats) : arc_stats :=
  ArcStats (f (hits_t1 x)) (hits_t2 x) (ghost_hits_b1 x) (ghost_hits_b2 x) (adaptations x) (evictions_t1 x) (evictions_t2 x) (promotions_t1_to_t2 x) (p_min x) (p_max x) (p_increases x) (p_decreases x).
Definition upd_hits_t2 (f : Z -> Z) (x : arc_stats) : arc_stats :=
  ArcStats (hits_t1 x) (f (hits_t2 x)) (ghost_hits_b1 x) (ghost_hits_b2 x) (adaptations x) (evictions_t1 x) (evictions_t2 x) (promotions_t1_to_t2 x) (p_min x) (p_max x) (p_increases x) (p_decreases x).
Definition upd_ghost_hits_b1 (f : Z -> Z) (x : arc_stats) : arc_stats :=
  ArcStats (hits_t1 x) (hits_t2 x) (f (ghost_hits_b1 x)) (ghost_hits_b2 x) (adaptations x) (evictions_t1 x) (evictions_t2 x) (promotions_t1_to_t2 x) (p_min x) (p_max x) (p_increases x) (p_decreases x).
Definition upd_ghost_hits_b2 (f : Z -> Z) (x : arc_stats) : arc_stats :=
  ArcStats (hits_t1 x) (hits_t2 x) (ghost_hits_b1 x) (f (ghost_hits_b2 x)) (adaptations x) (evictions_t1 x) (evictions_t2 x) (promotions_t1_to_t2 x) (p_min x) (p_max x) (p_increases x) (p_decreases x).
Definition upd_adaptations (f : Z -> Z) (x : arc_stats) : arc_stats :=
  ArcStats (hits_t1 x) (hits_t2 x) (ghost_hits_b1 x) (ghost_hits_b2 x) (f (adaptations x)) (evictions_t1 x) (evictions_t2 x) (promotions_t1_to_t2 x) (p_min x) (p_max x) (p_increases x) (p_decreases x).
Definition upd_evictions_t1 (f : Z -> Z) (x : arc_stats) : arc_stats :=
  ArcStats (hits_t1 x) (hits_t2 x) (ghost_hits_b1 x) (ghost_hits_b2 x) (adaptations x) (f (evictions_t1 x)) (evictions_t2 x) (promotions_t1_to_t2 x) (p_min x) (p_max x) (p_increases x) (p_decreases x).
Definition upd_evictions_t2 (f : Z -> Z) (x : arc_stats) : arc_stats :=
  ArcStats (hits_t1 x) (hits_t2 x) (ghost_hits_b1 x) (ghost_hits_b2 x) (adaptations x) (evictions_t1 x) (f (evictions_t2 x)) (promotions_t1_to_t2 x) (p_min x) (p_max x) (p_increases x) (p_decreases x).
Definition upd_promotions_t1_to_t2 (f : Z -> Z) (x : arc_stats) : arc_stats :=
  ArcStats (hits_t1 x) (hits_t2 x) (ghost_hits_b1 x) (ghost_hits_b2 x) (adaptations x) (evictions_t1 x) (evictions_t2 x) (f (promotions_t1_to_t2 x)) (p_min x) (p_max x) (p_increases x) (p_decreases x).
Definition upd_p_min (f : Z -> Z) (x : arc_stats) : arc_stats :=
  ArcStats (hits_t1 x) (hits_t2 x) (ghost_hits_b1 x) (ghost_hits_b2 x) (adaptations x) (evictions_t1 x) (evictions_t2 x) (promotions_t1_to_t2 x) (f (p_min x)) (p_max x) (p_increases x) (p_decreases x).
Definition upd_p_max (f : Z -> Z) (x : arc_stats) : arc_stats :=
  ArcStats (hits_t1 x) (hits_t2 x) (ghost_hits_b1 x) (ghost_hits_b2 x) (adaptations x) (evictions_t1 x) (evictions_t2 x) (promotions_t1_to_t2 x) (p_min x) (f (p_max x)) (p_increases x) (p_decreases x).
Definition upd_p_increases (f : Z -> Z) (x : arc_stats) : arc_stats :=
  ArcStats (hits_t1 x) (hits_t2 x) (ghost_hits_b1 x) (ghost_hits_b2 x) (adaptations x) (evictions_t1 x) (evictions_t2 x) (promotions_t1_to_t2 x) (p_min x) (p_max x) (f (p_increases x)) (p_decreases x).
Definition upd_p_decreases (f : Z -> Z) (x : arc_stats) : arc_stats :=
  ArcStats (hits_t1 x) (hits_t2 x) (ghost_hits_b1 x) (ghost_hits_b2 x) (adaptations x) (evictions_t1 x) (evictions_t2 x) (promotions_t1_to_t2 x) (p_min x) (p_max x) (p_increases x) (f (p_decreases x)).

(** [arc_cache]: the lists from LRU to MRU, and the sizes kept beside them. *)
Record arc_cache_t := ArcCache {
  enabled : bool;
  t1 : list dirptr;
  t2 : list dirptr;
  b1 : list dirptr;
  b2 : list dirptr;
  t1_size : Z;
  t2_size : Z;
  b1_size : Z;
  b2_size : Z;
  arc_p : Z;
  arc_c : Z;
  stats : arc_stats
}.

Definition upd_enabled (f : bool -> bool) (x : arc_cache_t) : arc_cache_t :=
  ArcCache (f (enabled x)) (t1 x) (t2 x) (b1 x) (b2 x) (t1_size x) (t2_size x) (b1_size x) (b2_size x) (arc_p x) (arc_c x) (stats x).
Definition upd_t1 (f : list dirptr -> list dirptr) (x : arc_cache_t) : arc_cache_t :=
  ArcCache (enabled x) (f (t1 x)) (t2 x) (b1 x) (b2 x) (t1_size x) (t2_size x) (b1_size x) (b2_size x) (arc_p x) (arc_c x) (stats x).
Definition upd_t2 (f : list dirptr -> list dirptr) (x : arc_cache_t) : arc_cache_t :=
  ArcCache (enabled x) (t1 x) (f (t2 x)) (b1 x) (b2 x) (t1_size x) (t2_size x) (b1_size x) (b2_size x) (arc_p x) (arc_c x) (stats x).
Definition upd_b1 (f : list dirptr -> list dirptr) (x : arc_cache_t) : arc_cache_t :=
  ArcCache (enabled x) (t1 x) (t2 x) (f (b1 x)) (b2 x) (t1_size x) (t2_size x) (b1_size x) (b2_size x) (arc_p x) (arc_c x) (stats x).
Definition upd_b2 (f : list dirptr -> list dirptr) (x : arc_cache_t) : arc_cache_t :=
  ArcCache (enabled x) (t1 x) (t2 x) (b1 x) (f (b2 x)) (t1_size x) (t2_size x) (b1_size x) (b2_size x) (arc_p x) (arc_c x) (stats x).
Definition upd_t1_size (f : Z -> Z) (x : arc_cache_t) : arc_cache_t :=
  ArcCache (enabled x) (t1 x) (t2 x) (b1 x) (b2 x) (f (t1_size x)) (t2_size x) (b1_size x) (b2_size x) (arc_p x) (arc_c x) (stats x).
Definition upd_t2_size (f : Z -> Z) (x : arc_cache_t) : arc_cache_t :=
  ArcCache (enabled x) (t1 x) (t2 x) (b1 x) (b2 x) (t1_size x) (f (t2_size x)) (b1_size x) (b2_size x) (arc_p x) (arc_c x) (stats x).
Definition upd_b1_size (f : Z -> Z) (x : arc_cache_t) : arc_cache_t :=
  ArcCache (enabled x) (t1 x) (t2 x) (b1 x) (b2 x) (t1_size x) (t2_size x) (f (b1_size x)) (b2_size x) (arc_p x) (arc_c x) (stats x).
Definition upd_b2_size (f : Z -> Z) (x : arc_cache_t) : arc_cache_t :=
  ArcCache (enabled x) (t1 x) (t2 x) (b1 x) (b2 x) (t1_size x) (t2_size x) (b1_size x) (f (b2_size x)) (arc_p x) (arc_c x) (stats x).
Definition upd_arc_p (f : Z -> Z) (x : arc_cache_t) : arc_cache_t :=
  ArcCache (enabled x) (t1 x) (t2 x) (b1 x) (b2 x) (t1_size x) (t2_size x) (b1_size x) (b2_size x) (f (arc_p x)) (arc_c x) (stats x).
Definition upd_arc_c (f : Z -> Z) (x : arc_cache_t) : arc_cache_t :=
  ArcCache (enabled x) (t1 x) (t2 x) (b1 x) (b2 x) (t1_size x) (t2_size x) (b1_size x) (b2_size x) (arc_p x) (f (arc_c x)) (stats x).
Definition upd_stats (f : arc_stats -> arc_stats) (x : arc_cache_t) : arc_cache_t :=
  ArcCache (enabled x) (t1 x) (t2 x) (b1 x) (b2 x) (t1_size x) (t2_size x) (b1_size x) (b2_size x) (arc_p x) (arc_c x) (f (stats x)).

Definition arc_init_state : arc_cache_t :=
  ArcCache false [] [] [] [] 0 0 0 0 0 0 (ArcStats 0 0 0 0 0 0 0 0 0 0 0 0).

(** The counters of [dircache_stat] the modelled operations change. *)
Record dircache_stat_t := DircacheStat {
  hits : Z;
  ghost_hits : Z;
  added : Z;
  removed : Z;
  expunged : Z;
  evicted : Z
}.

Definition upd_hits (f : Z -> Z) (x : dircache_stat_t) : dircache_stat_t :=
  DircacheStat (f (hits x)) (ghost_hits x) (added x) (removed x) (expunged x) (evicted x).
Definition upd_ghost_hits (f : Z -> Z) (x : dircache_stat_t) : dircache_stat_t :=
  DircacheStat (hits x) (f (ghost_hits x)) (added x) (removed x) (expunged x) (evicted x).
Definition upd_added (f : Z -> Z) (x : dircache_stat_t) : dircache_stat_t :=
  DircacheStat (hits x) (ghost_hits x) (f (added x)) (removed x) (expunged x) (evicted x).
Definition upd_removed (f : Z -> Z) (x : dircache_stat_t) : dircache_stat_t :=
  DircacheStat (hits x) (ghost_hits x) (added x) (f (removed x)) (expunged x) (evicted x).
Definition upd_expunged (f : Z -> Z) (x : dircache_stat_t) : dircache_stat_t :=
  DircacheStat (hits x) (ghost_hits x) (added x) (removed x) (f (expunged x)) (evicted x).
Definition upd_evicted (f : Z -> Z) (x : dircache_stat_t) : dircache_stat_t :=
  DircacheStat (hits x) (ghost_hits x) (added x) (removed x) (expunged x) (f (evicted x)).

(** Calls into other components, in order. *)
Inductive event : Type :=
  | PfdPurge (vid did : Z)   (** [pfd_purge] *)
  | NoteWork                 (** [iw_note_work] *).

(** The part of [struct vol] the cache reads. *)
Record vol := Vol { v_vid : Z; v_root : option dirptr }.

(** The address of the static entry [rootParent]. *)
Definition rootParent : dirptr := 1%positive.

(** ** Hash functions of the two indexes *)

Definition fnv_step (hash x : Z) : Z := u32(Z.lxor hash x * 16777619).

Definition hash_vid_did (key : Z * Z) : Z :=
  let '(vid, did) := key in
  let hash := 2166136261 in
  let hash := fnv_step hash (Z.shiftr vid 8) in
  let hash := fnv_step hash vid in
  let hash := fnv_step hash (Z.shiftr did 24) in
  let hash := fnv_step hash (Z.land (Z.shiftr did 16) 0xff) in
  let hash := fnv_step hash (Z.land (Z.shiftr did 8) 0xff) in
  fnv_step hash (Z.land (Z.shiftr did 0) 0xff).

Definition hash_comp_vid_did (k1 k2 : Z * Z) : Z :=
  if (k1.2 =? k2.2) && (k1.1 =? k2.1) then 0 else 1.

Definition get16bits (lo hi : Z) : Z := u32(u32(Z.shiftl hi 8) + lo).

(** The main loop takes four bytes at a time; the rest, of at most three, is
    the [switch]. *)
Fixpoint hash_didname_loop (hash : Z) (data : list Z) : Z :=
  match data with
  | a :: b :: c :: d :: data =>
      let hash := u32(hash + get16bits a b) in
      let tmp := Z.lxor (u32(Z.shiftl (get16bits c d) 11)) hash in
      let hash := Z.lxor (u32(Z.shiftl hash 16)) tmp in
      hash_didname_loop (u32(hash + Z.shiftr hash 11)) data
  | [a; b; c] =>
      let hash := u32(hash + get16bits a b) in
      let hash := Z.lxor hash (u32(Z.shiftl hash 16)) in
      let hash := Z.lxor hash (u32(Z.shiftl c 18)) in
      u32(hash + Z.shiftr hash 11)
  | [a; b] =>
      let hash := u32(hash + get16bits a b) in
      let hash := Z.lxor hash (u32(Z.shiftl hash 11)) in
      u32(hash + Z.shiftr hash 17)
  | [a] =>
      let hash := u32(hash + a) in
      let hash := Z.lxor hash (u32(Z.shiftl hash 10)) in
      u32(hash + Z.shiftr hash 1)
  | [] => hash
  end.

Definition hash_didname (key : Z * Z * list Z) : Z :=
  let '(vid, pdid, name) := key in
  let hash := hash_didname_loop (u32(pdid + vid)) name in
  let hash := Z.lxor hash (u32(Z.shiftl hash 3)) in
  let hash := u32(hash + Z.shiftr hash 5) in
  let hash := Z.lxor hash (u32(Z.shiftl hash 4)) in
  let hash := u32(hash + Z.shiftr hash 17) in
  let hash := Z.lxor hash (u32(Z.shiftl hash 25)) in
  u32(hash + Z.shiftr hash 6).

Definition hash_comp_didname (k1 k2 : Z * Z * list Z) : Z :=
  if (k1.1.1 =? k2.1.1) && (k1.1.2 =? k2.1.2) && bool_decide (k1.2 = k2.2) then 0 else 1.

Definition did_key (e : dir) : Z * Z := (d_vid e, d_did e).
Definition name_key (e : dir) : Z * Z * list Z := (d_vid e, d_pdid e, d_u_name e).

Section Dircache.
Context {T1 T2 : Type} `{HashOps T1 (Z * Z) dirptr} `{HashOps T2 (Z * Z * list Z) dirptr}.

(** ** The state of the component *)

Record cstate := Cstate {
  dirs : gmap dirptr dir;
  dircache : T1;
  index_didname : T2;
  arc_cache : arc_cache_t;
  index_queue : list dirptr;
  queue_count : Z;
  queue_count_max : Z;
  curdir : option dirptr;
  arc_promoting_ghost : option dirptr;
  invalid_dircache_entries : list dirptr;
  vid_entry_count : gmap Z Z;
  dircache_maxsize : Z;
  dircache_stat : dircache_stat_t;
  events : list event;
  mallocs : list bool
}.

Definition upd_dirs (f : gmap dirptr dir -> gmap dirptr dir) (x : cstate) : cstate :=
  Cstate (f (dirs x)) (dircache x) (index_didname x) (arc_cache x) (index_queue x) (queue_count x) (queue_count_max x) (curdir x) (arc_promoting_ghost x) (invalid_dircache_entries x) (vid_entry_count x) (dircache_maxsize x) (dircache_stat x) (events x) (mallocs x).
Definition upd_dircache (f : T1 -> T1) (x : cstate) : cstate :=
  Cstate (dirs x) (f (dircache x)) (index_didname x) (arc_cache x) (index_queue x) (queue_count x) (queue_count_max x) (curdir x) (arc_promoting_ghost x) (invalid_dircache_entries x) (vid_entry_count x) (dircache_maxsize x) (dircache_stat x) (events x) (mallocs x).
Definition upd_index_didname (f : T2 -> T2) (x : cstate) : cstate :=
  Cstate (dirs x) (dircache x) (f (index_didname x)) (arc_cache x) (index_queue x) (queue_count x) (queue_count_max x) (curdir x) (arc_promoting_ghost x) (invalid_dircache_entries x) (vid_entry_count x) (dircache_maxsize x) (dircache_stat x) (events x) (mallocs x).
Definition upd_arc_cache (f : arc_cache_t -> arc_cache_t) (x : cstate) : cstate :=
  Cstate (dirs x) (dircache x) (index_didname x) (f (arc_cache x)) (index_queue x) (queue_count x) (queue_count_max x) (curdir x) (arc_promoting_ghost x) (invalid_dircache_entries x) (vid_entry_count x) (dircache_maxsize x) (dircache_stat x) (events x) (mallocs x).
Definition upd_index_queue (f : list dirptr -> list dirptr) (x : cstate) : cstate :=
  Cstate (dirs x) (dircache x) (index_didname x) (arc_cache x) (f (index_queue x)) (queue_count x) (queue_count_max x) (curdir x) (arc_promoting_ghost x) (invalid_dircache_entries x) (vid_entry_count x) (dircache_maxsize x) (dircache_stat x) (events x) (mallocs x).
Definition upd_queue_count (f : Z -> Z) (x : cstate) : cstate :=
  Cstate (dirs x) (dircache x) (index_didname x) (arc_cache x) (index_queue x) (f (queue_count x)) (queue_count_max x) (curdir x) (arc_promoting_ghost x) (invalid_dircache_entries x) (vid_entry_count x) (dircache_maxsize x) (dircache_stat x) (events x) (mallocs x).
Definition upd_queue_count_max (f : Z -> Z) (x : cstate) : cstate :=
  Cstate (dirs x) (dircache x) (index_didname x) (arc_cache x) (index_queue x) (queue_count x) (f (queue_count_max x)) (curdir x) (arc_promoting_ghost x) (invalid_dircache_entries x) (vid_entry_count x) (dircache_maxsize x) (dircache_stat x) (events x) (mallocs x).
Definition upd_curdir (f : option dirptr -> option dirptr) (x : cstate) : cstate :=
  Cstate (dirs x) (dircache x) (index_didname x) (arc_cache x) (index_queue x) (queue_count x) (queue_count_max x) (f (curdir x)) (arc_promoting_ghost x) (invalid_dircache_entries x) (vid_entry_count x) (dircache_maxsize x) (dircache_stat x) (events x) (mallocs x).
Definition upd_arc_promoting_ghost (f : option dirptr -> option dirptr) (x : cstate) : cstate :=
  Cstate (dirs x) (dircache x) (index_didname x) (arc_cache x) (index_queue x) (queue_count x) (queue_count_max x) (curdir x) (f (arc_promoting_ghost x)) (invalid_dircache_entries x) (vid_entry_count x) (dircache_maxsize x) (dircache_stat x) (events x) (mallocs x).
Definition upd_invalid_dircache_entries (f : list dirptr -> list dirptr) (x : cstate) : cstate :=
  Cstate (dirs x) (dircache x) (index_didname x) (arc_cache x) (index_queue x) (queue_count x) (queue_count_max x) (curdir x) (arc_promoting_ghost x) (f (invalid_dircache_entries x)) (vid_entry_count x) (dircache_maxsize x) (dircache_stat x) (events x) (mallocs x).
Definition upd_vid_entry_count (f : gmap Z Z -> gmap Z Z) (x : cstate) : cstate :=
  Cstate (dirs x) (dircache x) (index_didname x) (arc_cache x) (index_queue x) (queue_count x) (queue_count_max x) (curdir x) (arc_promoting_ghost x) (invalid_dircache_entries x) (f (vid_entry_count x)) (dircache_maxsize x) (dircache_stat x) (events x) (mallocs x).
Definition upd_dircache_maxsize (f : Z -> Z) (x : cstate) : cstate :=
  Cstate (dirs x) (dircache x) (index_didname x) (arc_cache x) (index_queue x) (queue_count x) (queue_count_max x) (curdir x) (arc_promoting_ghost x) (invalid_dircache_entries x) (vid_entry_count x) (f (dircache_maxsize x)) (dircache_stat x) (events x) (mallocs x).
Definition upd_dircache_stat (f : dircache_stat_t -> dircache_stat_t) (x : cstate) : cstate :=
  Cstate (dirs x) (dircache x) (index_didname x) (arc_cache x) (index_queue x) (queue_count x) (queue_count_max x) (curdir x) (arc_promoting_ghost x) (invalid_dircache_entries x) (vid_entry_count x) (dircache_maxsize x) (f (dircache_stat x)) (events x) (mallocs x).
Definition upd_events (f : list event -> list event) (x : cstate) : cstate :=
  Cstate (dirs x) (dircache x) (index_didname x) (arc_cache x) (index_queue x) (queue_count x) (queue_count_max x) (curdir x) (arc_promoting_ghost x) (invalid_dircache_entries x) (vid_entry_count x) (dircache_maxsize x) (dircache_stat x) (f (events x)) (mallocs x).
Definition upd_mallocs (f : list bool -> list bool) (x : cstate) : cstate :=
  Cstate (dirs x) (dircache x) (index_didname x) (arc_cache x) (index_queue x) (queue_count x) (queue_count_max x) (curdir x) (arc_promoting_ghost x) (invalid_dircache_entries x) (vid_entry_count x) (dircache_maxsize x) (dircache_stat x) (events x) (f (mallocs x)).


(** ** A state and abort monad *)

Definition M (A : Type) := cstate -> res (A * cstate).

#[export] Instance M_ret : MRet M := fun A a s => Ok (a, s).
#[export] Instance M_bind : MBind M := fun A B f m s =>
  match m s with Ok (a, s') => f a s' | Abort w => Abort w end.

Definition gets {A} (f : cstate -> A) : M A := fun s => Ok (f s, s).
Definition modify (f : cstate -> cstate) : M unit := fun s => Ok (tt, f s).
Definition abort {A} (w : why) : M A := fun _ => Abort w.
Definition afp_assert (b : bool) : M unit := if b then mret tt else abort Assertion.
Definition lift {A} (r : res A) : M A := fun s =>
  match r with Ok a => Ok (a, s) | Abort w => Abort w end.
Definition when (b : bool) (m : M unit) : M unit := if b then m else mret tt.

(** The outcome of the next allocation; an exhausted oracle always succeeds. *)
Definition malloc : M bool := fun s =>
  match mallocs s with
  | [] => Ok (true, s)
  | b :: bs => Ok (b, upd_mallocs (fun _ => bs) s)
  end.

Definition get_dir (d : dirptr) : M dir := fun s =>
  match dirs s !! d with Some e => Ok (e, s) | None => Abort Undefined end.
Definition set_dir (d : dirptr) (f : dir -> dir) : M unit :=
  e ← get_dir d; modify (upd_dirs (<[d := f e]>)).
Definition set_arc (f : arc_cache_t -> arc_cache_t) : M unit := modify (upd_arc_cache f).
Definition set_stat (f : dircache_stat_t -> dircache_stat_t) : M unit := modify (upd_dircache_stat f).
Definition emit (ev : event) : M unit := modify (upd_events (fun evs => evs ++ [ev])).

(** [size_t] counters. *)
Definition inc (z : Z) : Z := u64(z + 1).
Definition dec (z : Z) : Z := u64(z - 1).

(** ** Queue operations on the lists *)

Definition q_del (d : dirptr) (q : list dirptr) : list dirptr := filter (fun x => x <> d) q.

(** [queue_remove(dir->qidx_node)]: the node leaves the list that holds it. *)
Definition queue_remove_node (d : dirptr) : M unit :=
  _ ← set_arc (fun a => upd_t1 (q_del d) (upd_t2 (q_del d) (upd_b1 (q_del d) (upd_b2 (q_del d) a))));
  modify (upd_index_queue (q_del d)).

Definition get_list (l : arc_list_t) (a : arc_cache_t) : list dirptr :=
  match l with ARC_T1 => t1 a | ARC_T2 => t2 a | ARC_B1 => b1 a | ARC_B2 => b2 a | ARC_NONE => [] end.
Definition upd_list (l : arc_list_t) (f : list dirptr -> list dirptr) (a : arc_cache_t) : arc_cache_t :=
  match l with
  | ARC_T1 => upd_t1 f a | ARC_T2 => upd_t2 f a | ARC_B1 => upd_b1 f a | ARC_B2 => upd_b2 f a
  | ARC_NONE => a
  end.
Definition upd_size (l : arc_list_t) (f : Z -> Z) (a : arc_cache_t) : arc_cache_t :=
  match l with
  | ARC_T1 => upd_t1_size f a | ARC_T2 => upd_t2_size f a
  | ARC_B1 => upd_b1_size f a | ARC_B2 => upd_b2_size f a
  | ARC_NONE => a
  end.

(** [queue_move_to_tail_of(src, dst, dir->qidx_node)]. *)
Definition move_to_tail_of (src dst : arc_list_t) (d : dirptr) : M unit :=
  set_arc (fun a => upd_list dst (fun q => q ++ [d]) (upd_list src (q_del d) a)).

(** ** Removal *)

Definition dircache_defer_free (d : dirptr) : M unit :=
  _ ← set_dir d (upd_d_did (fun _ => CNID_INVALID));
  ok ← malloc;
  if (ok : bool) then
    _ ← modify (upd_invalid_dircache_entries (fun q => q ++ [d]));
    emit NoteWork
  else mret tt.

(** The queue part of [dircache_remove]. *)
Definition remove_queue_index (d : dirptr) : M unit :=
  e ← get_dir d;
  arc ← gets (fun s => enabled (arc_cache s));
  if (arc : bool) then
    when (qidx_node e)
      (_ ← queue_remove_node d;
       _ ← set_arc (upd_size (arc_list e) dec);
       set_dir d (fun e => upd_arc_list (fun _ => ARC_NONE) (upd_qidx_node (fun _ => false) e)))
  else
    when (qidx_node e)
      (_ ← queue_remove_node d;
       _ ← set_dir d (upd_qidx_node (fun _ => false));
       modify (upd_queue_count dec)).

Definition remove_didname_index (d : dirptr) (noshrink : bool) : M unit :=
  e ← get_dir d;
  when (d_didname_node e)
    (ok ← malloc;
     t ← gets index_didname;
     t ← lift (h_delete noshrink ok (name_key e) t);
     _ ← modify (upd_index_didname (fun _ => t));
     set_dir d (upd_d_didname_node (fun _ => false))).

Definition vid_count (s : cstate) (vid : Z) : Z := default 0 (vid_entry_count s !! vid).

Definition remove_did_index (d : dirptr) (noshrink : bool) : M unit :=
  e ← get_dir d;
  when (d_index_node e)
    (ok ← malloc;
     t ← gets dircache;
     t ← lift (h_delete noshrink ok (did_key e) t);
     _ ← modify (upd_dircache (fun _ => t));
     _ ← set_dir d (fun e => upd_d_index_node (fun _ => false)
                               (upd_d_flags (fun f => Z.ldiff f DIRF_INDEXED) e));
     n ← gets (fun s => vid_count s (d_vid e));
     _ ← afp_assert (0 <? n);
     modify (upd_vid_entry_count (<[d_vid e := n - 1]>))).

(** The node an entry stores must carry the entry itself.  A node of a queue
    is the place of the entry in the list, so that the third comparison of the
    code, of [qidx_node->data] with the entry, has no counterpart. *)
Definition node_mismatch (d : dirptr) (e : dir) (s : cstate) : bool :=
  (d_didname_node e && negb (bool_decide (h_lookup (index_didname s) (name_key e) = Some d))) ||
  (d_index_node e && negb (bool_decide (h_lookup (dircache s) (did_key e) = Some d))).

Definition dircache_remove (d : dirptr) (flags : Z) : M unit :=
  _ ← afp_assert (Z.ldiff flags (Z.lor DIRCACHE_ALL DIRCACHE_NOSHRINK) =? 0);
  _ ← afp_assert (negb (has flags DIRCACHE_NOSHRINK) || has flags (Z.lor DIRCACHE DIDNAME_INDEX));
  e ← get_dir d;
  bad ← gets (node_mismatch d e);
  if (bad : bool) then abort Panic else
  if has flags DIRCACHE && negb (d_index_node e) && has (d_flags e) DIRF_INDEXED then abort Panic else
  let noshrink := has flags DIRCACHE_NOSHRINK in
  _ ← when (has flags QUEUE_INDEX) (remove_queue_index d);
  _ ← when (has flags DIDNAME_INDEX) (remove_didname_index d noshrink);
  _ ← when (has flags DIRCACHE) (remove_did_index d noshrink);
  _ ← when (has flags DIRCACHE && negb (has (d_flags e) DIRF_ISFILE))
        (emit (PfdPurge (d_vid e) (d_did e)));
  set_stat (upd_removed inc).

(** ** The ARC algorithm *)

Definition arc_init (cache_size : Z) : M unit :=
  set_arc (fun _ => ArcCache true [] [] [] [] 0 0 0 0 0 cache_size
                      (ArcStats 0 0 0 0 0 0 0 0 cache_size 0 0 0)).

Definition arc_ghost_trim_candidate (q : list dirptr) (skip : option dirptr) : option dirptr :=
  match q with
  | [] => None
  | n :: q' => if bool_decide (Some n = skip) then head q' else Some n
  end.

(** [target] is B1 or B2. *)
Definition arc_ensure_ghost_capacity (target : arc_list_t) : M unit :=
  a ← gets arc_cache;
  if u64(b1_size a + b2_size a) <? arc_c a then mret tt else
  skip ← gets arc_promoting_ghost;
  match arc_ghost_trim_candidate (get_list target a) skip with
  | None => mret tt
  | Some ghost =>
      _ ← queue_remove_node ghost;
      _ ← set_arc (upd_size target (fun z => if 0 <? z then dec z else z));
      _ ← set_dir ghost (upd_qidx_node (fun _ => false));
      _ ← dircache_remove ghost (Z.lor DIRCACHE DIDNAME_INDEX);
      dircache_defer_free ghost
  end.

Definition arc_find_victim (queue : list dirptr) (queue_size : Z) : M (option dirptr) :=
  match queue with
  | [] => mret None
  | v :: q' =>
      if queue_size =? 0 then mret None else
      e ← get_dir v;
      if negb (qidx_node e) then mret None else
      cur ← gets curdir;
      if bool_decide (Some v = cur) then
        if queue_size <? 2 then mret None else
        match q' with
        | [] => mret None
        | w :: _ =>
            e ← get_dir w;
            if negb (qidx_node e) || bool_decide (Some w = cur) then mret None else mret (Some w)
        end
      else mret (Some v)
  end.

Definition arc_evict_to_ghost (victim : dirptr) (src dst : arc_list_t) : M unit :=
  _ ← arc_ensure_ghost_capacity dst;
  _ ← move_to_tail_of src dst victim;
  _ ← set_dir victim (fun e => upd_arc_list (fun _ => dst)
        (upd_d_flags (fun f => Z.lor f DIRF_ARC_GHOST) (upd_ea_cached (fun _ => false) e)));
  set_arc (fun a => upd_size dst inc (upd_size src dec
    (upd_stats (if bool_decide (dst = ARC_B1) then upd_evictions_t1 inc else upd_evictions_t2 inc) a))).

(** Evict from [first], or from [other] when [first] is empty or blocked by
    curdir; [true] when an entry was evicted. *)
Definition arc_replace_from (first first_ghost other other_ghost : arc_list_t)
    (first_size other_size : arc_cache_t -> Z) : M bool :=
  a ← gets arc_cache;
  victim ← arc_find_victim (get_list first a) (first_size a);
  match victim with
  | Some v => _ ← arc_evict_to_ghost v first first_ghost; mret true
  | None =>
      victim ← arc_find_victim (get_list other a) (other_size a);
      match victim with
      | Some v => _ ← arc_evict_to_ghost v other other_ghost; mret true
      | None => mret false
      end
  end.

(** [arc_verify_invariants].  Builds with DEBUG call it at the end of the ARC operations;
    the operations below are those of the other builds, without that call. *)
Definition arc_verify_invariants (s : cstate) : bool :=
  let a := arc_cache s in
  let slack := if arc_promoting_ghost s is Some _ then 1 else 0 in
  let l1 := t1_size a + b1_size a in
  let l2 := t2_size a + b2_size a in
  enabled a &&
  (t1_size a + t2_size a <=? arc_c a) &&
  (b1_size a + b2_size a <=? arc_c a + slack) &&
  (arc_p a <=? arc_c a) &&
  (l1 + l2 <=? 2 * arc_c a + slack) &&
  (if (slack =? 0) && (l1 + l2 =? 2 * arc_c a)
   then (t1_size a + t2_size a =? arc_c a) && (b1_size a + b2_size a =? arc_c a) else true).

(** [true] is the code's 0, [false] its -1. *)
Definition arc_replace (in_b2 : bool) : M bool :=
  a ← gets arc_cache;
  let try_t1_first := (1 <=? t1_size a) &&
    ((in_b2 && (t1_size a =? arc_p a)) || (arc_p a <? t1_size a)) in
  if try_t1_first
  then arc_replace_from ARC_T1 ARC_B1 ARC_T2 ARC_B2 t1_size t2_size
  else arc_replace_from ARC_T2 ARC_B2 ARC_T1 ARC_B1 t2_size t1_size.

Definition arc_case_i (d : dirptr) : M unit :=
  e ← get_dir d;
  if negb (qidx_node e) then mret tt else
  if bool_decide (arc_list e = ARC_T1) then
    _ ← move_to_tail_of ARC_T1 ARC_T2 d;
    _ ← set_arc (fun a => upd_t1_size dec (upd_t2_size inc
          (upd_stats (fun x => upd_hits_t1 inc (upd_promotions_t1_to_t2 inc x)) a)));
    set_dir d (upd_arc_list (fun _ => ARC_T2))
  else
    _ ← move_to_tail_of ARC_T2 ARC_T2 d;
    _ ← set_arc (upd_stats (upd_hits_t2 inc));
    set_dir d (upd_arc_list (fun _ => ARC_T2)).

(** The ratio the target size moves by on a ghost hit. *)
Definition adapt_delta (num den : Z) : Z :=
  if (0 <? num) && (0 <? den) then (if 1 <? num / den then num / den else 1) else 1.

(** The tail of Cases II and III: evict, then move the ghost to T2. *)
Definition promote_ghost (d : dirptr) (src : arc_list_t) (in_b2 : bool) : M unit :=
  _ ← modify (upd_arc_promoting_ghost (fun _ => Some d));
  _ ← arc_replace in_b2;
  _ ← modify (upd_arc_promoting_ghost (fun _ => None));
  _ ← move_to_tail_of src ARC_T2 d;
  _ ← set_dir d (fun e => upd_arc_list (fun _ => ARC_T2) (upd_d_flags (fun f => Z.ldiff f DIRF_ARC_GHOST) e));
  set_arc (fun a => upd_size src dec (upd_t2_size inc
    (upd_stats (if in_b2 then upd_ghost_hits_b2 inc else upd_ghost_hits_b1 inc) a))).

Definition arc_case_ii_adapt_and_replace (d : dirptr) : M unit :=
  e ← get_dir d;
  _ ← afp_assert (bool_decide (arc_list e = ARC_B1));
  _ ← afp_assert (has (d_flags e) DIRF_ARC_GHOST);
  a ← gets arc_cache;
  let delta := adapt_delta (b2_size a) (b1_size a) in
  let p' := if arc_c a <? u64(arc_p a + delta) then arc_c a else u64(arc_p a + delta) in
  _ ← set_arc (upd_arc_p (fun _ => p'));
  _ ← when (negb (p' =? arc_p a))
        (set_arc (upd_stats (fun x => upd_adaptations inc (upd_p_increases inc
           (upd_p_max (fun m => if m <? p' then p' else m) x)))));
  if negb (qidx_node e) then abort Panic else
  promote_ghost d ARC_B1 false.

Definition arc_case_iii_adapt_and_replace (d : dirptr) : M unit :=
  e ← get_dir d;
  _ ← afp_assert (bool_decide (arc_list e = ARC_B2));
  _ ← afp_assert (has (d_flags e) DIRF_ARC_GHOST);
  a ← gets arc_cache;
  let delta := adapt_delta (b1_size a) (b2_size a) in
  let p' := if delta <? arc_p a then arc_p a - delta else 0 in
  _ ← set_arc (upd_arc_p (fun _ => p'));
  _ ← when (negb (p' =? arc_p a))
        (set_arc (upd_stats (fun x => upd_adaptations inc (upd_p_decreases inc
           (upd_p_min (fun m => if p' <? m then p' else m) x)))));
  if negb (qidx_node e) then abort Panic else
  promote_ghost d ARC_B2 true.

(** Delete the LRU ghost of a list, if it has one. *)
Definition drop_lru_ghost (l : arc_list_t) : M unit :=
  a ← gets arc_cache;
  match get_list l a with
  | [] => mret tt
  | ghost :: q =>
      _ ← set_arc (upd_list l (fun _ => q));
      _ ← set_arc (upd_size l dec);
      _ ← set_dir ghost (upd_qidx_node (fun _ => false));
      _ ← dircache_remove ghost (Z.lor DIRCACHE DIDNAME_INDEX);
      dircache_defer_free ghost
  end.

Definition arc_case_iv_make_room : M unit :=
  a ← gets arc_cache;
  let l1_size := u64(t1_size a + b1_size a) in
  let l2_size := u64(t2_size a + b2_size a) in
  if l1_size =? arc_c a then
    if t1_size a <? arc_c a then
      _ ← drop_lru_ghost ARC_B1;
      _ ← arc_replace false; mret tt
    else
      victim ← arc_find_victim (t1 a) (t1_size a);
      victim ← match victim with
               | Some v => mret (Some v)
               | None => arc_find_victim (t2 a) (t2_size a)
               end;
      match victim with
      | None => mret tt
      | Some v =>
          _ ← queue_remove_node v;
          _ ← set_dir v (upd_qidx_node (fun _ => false));
          e ← get_dir v;
          _ ← set_arc (upd_size (if bool_decide (arc_list e = ARC_T1) then ARC_T1 else ARC_T2) dec);
          _ ← dircache_remove v (Z.lor DIRCACHE DIDNAME_INDEX);
          dircache_defer_free v
      end
  else if (l1_size <? arc_c a) && (arc_c a <=? u64(l1_size + l2_size)) then
    _ ← when (u64(l1_size + l2_size) =? u64(2 * arc_c a)) (drop_lru_ghost ARC_B2);
    _ ← arc_replace false; mret tt
  else mret tt.

Definition track_peak (total : Z) : M unit :=
  modify (upd_queue_count_max (fun m => if m <? total then total else m)).

Definition arc_case_iv_insert (d : dirptr) : M unit :=
  ok ← malloc;
  if negb ok then abort OutOfMemory else
  _ ← set_arc (fun a => upd_t1 (fun q => q ++ [d]) (upd_t1_size inc a));
  _ ← set_dir d (fun e => upd_qidx_node (fun _ => true) (upd_arc_list (fun _ => ARC_T1) e));
  a ← gets arc_cache;
  track_peak (u64(t1_size a + t2_size a)).

(** ** LRU mode *)

Definition evict_one : M unit :=
  q ← gets index_queue;
  match q with
  | [] => abort Panic
  | d :: q' =>
      _ ← modify (upd_index_queue (fun _ => q'));
      _ ← modify (upd_queue_count dec);
      _ ← set_dir d (upd_qidx_node (fun _ => false));
      cur ← gets curdir;
      if bool_decide (cur = Some d) then
        ok ← malloc;
        if negb ok then abort OutOfMemory else
        _ ← modify (upd_index_queue (fun q => q ++ [d]));
        _ ← set_dir d (upd_qidx_node (fun _ => true));
        modify (upd_queue_count inc)
      else
        _ ← dircache_remove d (Z.lor DIRCACHE DIDNAME_INDEX);
        dircache_defer_free d
  end.

Fixpoint repeat_m (n : nat) (m : M unit) : M unit :=
  match n with
  | O => mret tt
  | S k => _ ← m; repeat_m k m
  end.

Definition dircache_evict : M unit :=
  _ ← repeat_m DIRCACHE_FREE_QUANTUM evict_one;
  qc ← gets queue_count;
  n ← gets (fun s => h_count (dircache s));
  _ ← afp_assert (qc =? n);
  set_stat (upd_evicted (fun z => u64(z + Z.of_nat DIRCACHE_FREE_QUANTUM))).

(** ** Lookup *)

Definition is_ghost (e : dir) : bool := has (d_flags e) DIRF_ARC_GHOST.
Definition is_file (e : dir) : bool := has (d_flags e) DIRF_ISFILE.

Definition dircache_lookup_did (v : vol) (did : Z) : M (option dirptr) :=
  if (did =? CNID_INVALID) || (ntohl did <? CNID_START) then mret None else
  t ← gets dircache;
  match h_lookup t (v_vid v, did) with
  | None => mret None
  | Some d => e ← get_dir d; mret (if is_ghost e then None else Some d)
  end.

Definition dircache_lookup_parent (v : vol) (did : Z) : M (option dirptr) :=
  if did =? DIRDID_ROOT then mret (v_root v) else
  r ← dircache_lookup_did v did;
  match r with
  | None => mret None
  | Some d => e ← get_dir d; mret (if is_file e then None else Some d)
  end.

(** What the two searches do with an entry they found and kept. *)
Definition search_hit (d : dirptr) : M unit :=
  arc ← gets (fun s => enabled (arc_cache s));
  if (arc : bool) then
    e ← get_dir d;
    if is_ghost e then
      _ ← (match arc_list e with
           | ARC_B1 => arc_case_ii_adapt_and_replace d
           | ARC_B2 => arc_case_iii_adapt_and_replace d
           | _ => mret tt
           end);
      set_stat (upd_ghost_hits inc)
    else
      _ ← arc_case_i d;
      set_stat (upd_hits inc)
  else set_stat (upd_hits inc).

(** [queue_move_to_tail(index_queue, dir->qidx_node)]. *)
Definition lru_move_to_tail (d : dirptr) : M unit :=
  modify (upd_index_queue (fun q => q_del d q ++ [d])).

Definition dircache_promote (d : dirptr) : M unit :=
  arc ← gets (fun s => enabled (arc_cache s));
  e ← get_dir d;
  if (arc : bool) then
    match arc_list e with
    | ARC_T1 | ARC_T2 => arc_case_i d
    | ARC_B1 => arc_case_ii_adapt_and_replace d
    | ARC_B2 => arc_case_iii_adapt_and_replace d
    | ARC_NONE => mret tt
    end
  else when (qidx_node e) (lru_move_to_tail d).

(** ** Insertion *)

(** [true] when the retired entry was curdir. *)
Definition dircache_expunge_duplicate (dup : dirptr) : M bool :=
  e ← get_dir dup;
  _ ← afp_assert (negb (d_did e =? DIRDID_ROOT_PARENT) && negb (d_did e =? DIRDID_ROOT) &&
                  negb (d_did e =? CNID_INVALID));
  cur ← gets curdir;
  let took := bool_decide (cur = Some dup) && negb (is_file e) in
  _ ← when took (modify (upd_curdir (fun _ => None)));
  _ ← dircache_remove dup (Z.lor DIRCACHE (Z.lor DIDNAME_INDEX QUEUE_INDEX));
  _ ← dircache_defer_free dup;
  _ ← set_stat (upd_expunged inc);
  mret took.

Definition expunge_found (o : option dirptr) : M bool :=
  match o with Some dup => dircache_expunge_duplicate dup | None => mret false end.

(** Where curdir goes when the entry it named was retired in favour of [d]. *)
Definition curdir_successor (v : vol) (d : dirptr) (e : dir) : option dirptr :=
  if is_file e then (if v_root v is Some r then Some r else Some rootParent) else Some d.

Definition insert_did_index (d : dirptr) (e : dir) : M unit :=
  node ← malloc;
  if negb node then abort OutOfMemory else
  ok ← malloc;
  t ← gets dircache;
  t ← lift (h_insert ok (did_key e) d t);
  _ ← modify (upd_dircache (fun _ => t));
  _ ← set_dir d (upd_d_index_node (fun _ => true));
  modify (upd_vid_entry_count (fun m => <[d_vid e := default 0 (m !! d_vid e) + 1]> m)).

Definition insert_didname_index (d : dirptr) (e : dir) : M unit :=
  node ← malloc;
  if negb node then abort OutOfMemory else
  ok ← malloc;
  t ← gets index_didname;
  t ← lift (h_insert ok (name_key e) d t);
  _ ← modify (upd_index_didname (fun _ => t));
  set_dir d (upd_d_didname_node (fun _ => true)).

Definition dircache_add (v : vol) (d : dirptr) : M unit :=
  e ← get_dir d;
  _ ← afp_assert (2 <=? ntohl (d_pdid e));
  _ ← afp_assert (CNID_START <=? ntohl (d_did e));
  _ ← afp_assert (negb (d_vid e =? 0));
  arc ← gets (fun s => enabled (arc_cache s));
  max ← gets dircache_maxsize;
  n ← gets (fun s => h_count (dircache s));
  _ ← afp_assert (if (arc : bool) then n <=? u32(max * 2) else n <=? max);
  o1 ← gets (fun s => h_lookup (dircache s) (did_key e));
  took1 ← expunge_found o1;
  o2 ← gets (fun s => h_lookup (index_didname s) (name_key e));
  took2 ← expunge_found o2;
  n ← gets (fun s => h_count (dircache s));
  _ ← (if (arc : bool) then arc_case_iv_make_room else when (max <=? n) dircache_evict);
  _ ← insert_did_index d e;
  _ ← insert_didname_index d e;
  _ ← set_dir d (upd_d_flags (fun f => Z.lor f DIRF_INDEXED));
  _ ← when (took1 || took2) (modify (upd_curdir (fun _ => curdir_successor v d e)));
  _ ← (if (arc : bool) then arc_case_iv_insert d
       else
         ok ← malloc;
         if negb ok then abort OutOfMemory else
         _ ← modify (upd_index_queue (fun q => q ++ [d]));
         _ ← set_dir d (upd_qidx_node (fun _ => true));
         _ ← modify (upd_queue_count inc);
         qc ← gets queue_count;
         track_peak qc);
  _ ← set_stat (upd_added inc);
  if (arc : bool) then mret tt else
  qc ← gets queue_count;
  n1 ← gets (fun s => h_count (index_didname s));
  n2 ← gets (fun s => h_count (dircache s));
  afp_assert ((qc =? n1) && (qc =? n2)).

(** [false] when the node allocation failed, the code's -1. *)
Definition dircache_reindex_didname (v : vol) (d : dirptr) : M bool :=
  e ← get_dir d;
  o ← gets (fun s => h_lookup (index_didname s) (name_key e));
  took ← expunge_found o;
  _ ← when took (modify (upd_curdir (fun _ => curdir_successor v d e)));
  node ← malloc;
  if negb node then mret false else
  ok ← malloc;
  t ← gets index_didname;
  t ← lift (h_insert ok (name_key e) d t);
  _ ← modify (upd_index_didname (fun _ => t));
  _ ← set_dir d (upd_d_didname_node (fun _ => true));
  mret true.

(** ** Closing a volume *)

(** The loop over the entries the scan returns. *)
Fixpoint purge_loop (vid : Z) (remaining : Z) (scan : list dirptr) : M unit :=
  match scan with
  | [] => mret tt
  | e :: scan =>
      if remaining <=? 0 then mret tt else
      entry ← get_dir e;
      if negb (d_vid entry =? vid) then purge_loop vid remaining scan else
      cur ← gets curdir;
      _ ← when (bool_decide (cur = Some e)) (modify (upd_curdir (fun _ => Some rootParent)));
      _ ← dircache_remove e (Z.lor DIRCACHE_ALL DIRCACHE_NOSHRINK);
      _ ← dircache_defer_free e;
      purge_loop vid (remaining - 1) scan
  end.

Definition dircache_purge_vol (v : vol) : M unit :=
  remaining ← gets (fun s => vid_count s (v_vid v));
  if remaining =? 0 then mret tt else
  scan ← gets (fun s => h_scan (dircache s));
  purge_loop (v_vid v) remaining scan.

(** ** Initialisation *)

(** [while (size < reqsize && size < MAX_DIRCACHE_SIZE) size *= 2;] *)
Fixpoint round_up (fuel : nat) (reqsize size : Z) : Z :=
  match fuel with
  | O => size
  | S k => if (size <? reqsize) && (size <? MAX_DIRCACHE_SIZE)
           then round_up k reqsize (size * 2) else size
  end.

Definition dircache_resolve_size (reqsize : Z) : Z :=
  if (0 <? reqsize) && (MIN_DIRCACHE_SIZE <=? reqsize) && (reqsize <=? MAX_DIRCACHE_SIZE)
  then round_up 11 reqsize MIN_DIRCACHE_SIZE
  else if MAX_DIRCACHE_SIZE <? reqsize then MAX_DIRCACHE_SIZE
  else DEFAULT_DIRCACHE_SIZE.

(** The tables, queues and counters [dircache_init] sets up for a size, with
    every allocation succeeding; [None] when a table cannot be created.  The
    budget of the resource fork cache and the fields of [rootParent], which it
    sets after them, are not part of the state. *)
Definition dircache_setup (use_arc : bool) (maxsize : Z) : option cstate :=
  let hash_size := if use_arc then u32(maxsize * 2) else maxsize in
  d ← h_create true true hash_size;
  n ← h_create true true hash_size;
  let s := Cstate ∅ d n arc_init_state [] 0 0 None None [] ∅ maxsize
             (DircacheStat 0 0 0 0 0 0) [] [] in
  if use_arc then match arc_init maxsize s with Ok (_, s) => Some s | Abort _ => None end
  else Some s.

Definition dircache_init (use_arc : bool) (reqsize : Z) : option cstate :=
  dircache_setup use_arc (dircache_resolve_size reqsize).

End Dircache.
