(* ===== verification/DircacheIndex.v ===== *)
(** * The two indexes of the directory cache

    The invariant of the hash indexes of [Dircache.v], and what the operations
    that change them do to it: removal of an entry, its deferred release, the
    two insertions.  Everything is proved against the interface [HashLaws]. *)

From S2P Require Import Prelude HashTable Dircache.

(** ** Flag words *)

Ltac bits := apply Z.bits_inj; intros i; rewrite ?Z.land_spec, ?Z.lor_spec, ?Z.ldiff_spec, ?Z.bits_0;
  repeat match goal with |- context [Z.testbit ?z ?j] => destruct (Z.testbit z j) eqn:? end; try done.

Lemma has_ldiff_self f g : has (Z.ldiff f g) g = false.
Proof. apply negb_false_iff, Z.eqb_eq. bits. Qed.
Lemma has_lor_self f g : g <> 0 -> has (Z.lor f g) g = true.
Proof.
  intros Hg. apply negb_true_iff, Z.eqb_neq. replace (Z.land (Z.lor f g) g) with g; [done|]. bits.
Qed.
Lemma disjoint_bit g h i : Z.land g h = 0 -> Z.testbit g i = true -> Z.testbit h i = false.
Proof.
  intros E Hg. apply (f_equal (fun z => Z.testbit z i)) in E. by rewrite Z.land_spec, Z.bits_0, Hg in E.
Qed.
Lemma has_ldiff_other f g h : Z.land g h = 0 -> has (Z.ldiff f g) h = has f h.
Proof.
  intros E. unfold has. f_equal. f_equal. apply Z.bits_inj. intros i. pose proof (disjoint_bit g h i E) as Hi.
  rewrite !Z.land_spec, ?Z.lor_spec, ?Z.ldiff_spec.
  destruct (Z.testbit g i); [rewrite Hi by done; by rewrite !andb_false_r|].
  by rewrite andb_true_r.
Qed.
Lemma has_lor_other f g h : Z.land g h = 0 -> has (Z.lor f g) h = has f h.
Proof.
  intros E. unfold has. f_equal. f_equal. apply Z.bits_inj. intros i. pose proof (disjoint_bit g h i E) as Hi.
  rewrite !Z.land_spec, ?Z.lor_spec, ?Z.ldiff_spec.
  destruct (Z.testbit g i); [rewrite Hi by done; by rewrite !andb_false_r|].
  by rewrite orb_false_r.
Qed.

Section Wp.
Context {T1 T2 : Type} {HO1 : HashOps T1 (Z * Z) dirptr} {HO2 : HashOps T2 (Z * Z * list Z) dirptr}.
Notation cstate := (@cstate T1 T2).

(** ** Weakest preconditions

    [wp oom m s Q]: [m] run from [s] ends in a result and a state that satisfy
    [Q], or exits for lack of memory, which happens only where [oom] allows. *)
Definition wp (oom : Prop) {A} (m : M A) (s : cstate) (Q : A -> cstate -> Prop) : Prop :=
  match m s with Ok (a, s') => Q a s' | Abort w => w = OutOfMemory /\ oom end.

(** Every allocation to come succeeds, or running out of memory is allowed. *)
Definition mem_ok (oom : Prop) (s : cstate) : Prop := oom \/ Forall (eq true) (mallocs s).

Context (oom : Prop).

Lemma wp_and {A} (m : M A) s (Q R : A -> cstate -> Prop) : wp oom m s Q -> wp oom m s R -> wp oom m s (fun a s' => Q a s' /\ R a s').
Proof. unfold wp. by destruct (m s) as [[]|]. Qed.
Lemma wp_mono {A} (m : M A) s (Q R : A -> cstate -> Prop) :
  wp oom m s Q -> (forall a s', Q a s' -> R a s') -> wp oom m s R.
Proof. unfold wp. destruct (m s) as [[a s']|w]; auto. Qed.
Lemma wp_ret {A} (a : A) s (Q : A -> cstate -> Prop) : Q a s -> wp oom (mret a) s Q.
Proof. done. Qed.
Lemma wp_bind {A B} (m : M A) (f : A -> M B) s (Q : B -> cstate -> Prop) :
  wp oom m s (fun a s' => wp oom (f a) s' Q) -> wp oom (m ≫= f) s Q.
Proof. unfold wp, mbind, M_bind. destruct (m s) as [[a s']|w]; auto. Qed.
Lemma wp_gets {A} (f : cstate -> A) s (Q : A -> cstate -> Prop) : Q (f s) s -> wp oom (gets f) s Q.
Proof. done. Qed.
Lemma wp_modify f s (Q : unit -> cstate -> Prop) : Q tt (f s) -> wp oom (modify f) s Q.
Proof. done. Qed.
Lemma wp_assert b s (Q : unit -> cstate -> Prop) : b = true -> Q tt s -> wp oom (afp_assert b) s Q.
Proof. by intros ->. Qed.
Lemma wp_when b m s (Q : unit -> cstate -> Prop) :
  (b = true -> wp oom m s Q) -> (b = false -> Q tt s) -> wp oom (when b m) s Q.
Proof. destruct b; cbn; auto. Qed.
Lemma wp_get_dir d e s (Q : dir -> cstate -> Prop) : dirs s !! d = Some e -> Q e s -> wp oom (get_dir d) s Q.
Proof. unfold wp, get_dir. by intros ->. Qed.
Lemma wp_set_dir d f e s (Q : unit -> cstate -> Prop) : dirs s !! d = Some e ->
  Q tt (upd_dirs (<[d := f e]>) s) -> wp oom (set_dir d f) s Q.
Proof. intros E HQ. unfold set_dir. apply wp_bind. by eapply wp_get_dir. Qed.
Lemma wp_lift {A} (r : res A) a s (Q : A -> cstate -> Prop) : r = Ok a -> Q a s -> wp oom (lift r) s Q.
Proof. by intros ->. Qed.
Lemma wp_malloc s (Q : bool -> cstate -> Prop) : mem_ok oom s ->
  (forall b bs, (b = true \/ oom) -> mem_ok oom (upd_mallocs (fun _ => bs) s) -> Q b (upd_mallocs (fun _ => bs) s)) ->
  wp oom malloc s Q.
Proof.
  unfold wp, malloc, mem_ok. intros Hm HQ. destruct (mallocs s) as [|b bs] eqn:E.
  - assert (upd_mallocs (fun _ => []) s = s) as Es by (destruct s; cbn in *; by subst).
    rewrite <- Es. apply HQ; [by left|]. right. constructor.
  - apply HQ; destruct Hm as [?|Hf]; auto; inversion Hf; subst; auto.
Qed.
Lemma wp_oom {A} s (Q : A -> cstate -> Prop) : oom -> wp oom (abort OutOfMemory) s Q.
Proof. done. Qed.
End Wp.

(** One step of symbolic execution; the facts it needs about the current state
    are taken from the context. *)
Ltac wstep :=
  lazymatch goal with
  | |- wp _ (dircache_remove _ _ ≫= _) _ _ => fail
  | |- wp _ (_ ≫= _) _ _ => apply wp_bind
  | |- wp _ (mret _) _ _ => apply wp_ret
  | |- wp _ (gets _) _ _ => apply wp_gets
  | |- wp _ (modify _) _ _ => apply wp_modify
  | |- wp _ (set_arc _) _ _ => apply wp_modify
  | |- wp _ (set_stat _) _ _ => apply wp_modify
  | |- wp _ (emit _) _ _ => apply wp_modify
  | |- wp _ (get_dir _) _ _ => eapply wp_get_dir; [eassumption|]
  | |- wp _ (set_dir _ _) _ _ => eapply wp_set_dir; [eassumption|]
  | |- wp _ malloc _ _ => apply wp_malloc; [assumption|intros ? ? ? ?]
  | |- wp _ (abort OutOfMemory) _ _ => apply wp_oom
  end.
Ltac wsteps := repeat (wstep; cbv beta).

Section Index.
Context {T1 T2 : Type} {HO1 : HashOps T1 (Z * Z) dirptr} {HO2 : HashOps T2 (Z * Z * list Z) dirptr}.
Context {HL1 : HashLaws T1 (Z * Z) dirptr} {HL2 : HashLaws T2 (Z * Z * list Z) dirptr}.
Notation cstate := (@cstate T1 T2).

(** ** The invariant

    What the indexes see of an entry, and what the queues see of it. *)
Record iview := IView {
  iv_did : Z * Z;
  iv_name : Z * Z * list Z;
  iv_n1 : bool;
  iv_n2 : bool;
  iv_indexed : bool;
  iv_file : bool
}.
Definition iview_of (e : dir) : iview :=
  IView (did_key e) (name_key e) (d_index_node e) (d_didname_node e) (has (d_flags e) DIRF_INDEXED) (is_file e).
Definition qview_of (e : dir) : bool * arc_list_t * bool := (qidx_node e, arc_list e, is_ghost e).
Definition idirs (s : cstate) : gmap dirptr iview := iview_of <$> dirs s.
Definition qdirs (s : cstate) : gmap dirptr (bool * arc_list_t * bool) := qview_of <$> dirs s.

Definition on_vol (iv : gmap dirptr iview) (vid : Z) (d : dirptr) : Prop :=
  (fun v => (iv_did v).1) <$> iv !! d = Some vid.

#[global] Instance on_vol_dec iv vid d : Decision (on_vol iv vid d).
Proof. unfold on_vol. apply _. Defined.

(** [m] holds the entries of [X], each under its key. *)
Definition keyed {K} `{Countable K} (key : iview -> K) (X : list dirptr) (iv : gmap dirptr iview)
    (m : gmap K dirptr) : Prop :=
  forall k d, m !! k = Some d <-> d ∈ X /\ key <$> iv !! d = Some k.

(** [X1] and [X2] are the entries the ID index and the name index hold. *)
Record idxP (X1 X2 : list dirptr) (iv : gmap dirptr iview) (t1 : T1) (t2 : T2) (cnt : gmap Z Z) : Prop := {
  idx_wf1 : h_wf t1;
  idx_wf2 : h_wf t2;
  idx_nd1 : NoDup X1;
  idx_nd2 : NoDup X2;
  idx_m1 : keyed iv_did X1 iv (h_map t1);
  idx_m2 : keyed iv_name X2 iv (h_map t2);
  idx_n1 d v : iv !! d = Some v -> iv_n1 v = true <-> d ∈ X1;
  idx_n2 d v : iv !! d = Some v -> iv_n2 v = true <-> d ∈ X2;
  idx_flag d v : iv !! d = Some v -> iv_indexed v = true -> d ∈ X1;
  idx_dom d : d ∈ X1 \/ d ∈ X2 -> is_Some (iv !! d);
  idx_valid d v : iv !! d = Some v -> d ∈ X1 \/ d ∈ X2 -> CNID_START <= ntohl (iv_did v).2;
  idx_vid vid : default 0 (cnt !! vid) = Z.of_nat (length (filter (on_vol iv vid) X1))
}.
Definition idx (X1 X2 : list dirptr) (s : cstate) : Prop :=
  idxP X1 X2 (idirs s) (dircache s) (index_didname s) (vid_entry_count s).

(** What the index operations on [d] leave alone. *)
Record iframe (d : dirptr) (s s' : cstate) : Prop := {
  if_arc : arc_cache s' = arc_cache s;
  if_queue : index_queue s' = index_queue s;
  if_count : queue_count s' = queue_count s;
  if_cur : curdir s' = curdir s;
  if_promoting : arc_promoting_ghost s' = arc_promoting_ghost s;
  if_max : dircache_maxsize s' = dircache_maxsize s;
  if_max1 : h_max (dircache s') = h_max (dircache s);
  if_max2 : h_max (index_didname s') = h_max (index_didname s);
  if_q : qdirs s' = qdirs s;
  if_other d' : d' <> d -> dirs s' !! d' = dirs s !! d'
}.

Lemma iframe_refl d s : iframe d s s.
Proof. by constructor. Qed.
Lemma iframe_trans d s1 s2 s3 : iframe d s1 s2 -> iframe d s2 s3 -> iframe d s1 s3.
Proof.
  intros H12 H23. pose proof (if_other _ _ _ H12). pose proof (if_other _ _ _ H23).
  destruct H12, H23. constructor; try congruence. intros d' Hd. rewrite H0 by done. auto.
Qed.

Lemma idirs_lookup s d e : dirs s !! d = Some e -> idirs s !! d = Some (iview_of e).
Proof. intros E. unfold idirs. by rewrite lookup_fmap, E. Qed.
Lemma idirs_Some s d : is_Some (idirs s !! d) <-> is_Some (dirs s !! d).
Proof. unfold idirs. by rewrite lookup_fmap, fmap_is_Some. Qed.
Lemma idirs_upd s d e : idirs (upd_dirs (<[d := e]>) s) = <[d := iview_of e]> (idirs s).
Proof. unfold idirs; cbn. apply fmap_insert. Qed.
Lemma qdirs_upd s d e : qdirs (upd_dirs (<[d := e]>) s) = <[d := qview_of e]> (qdirs s).
Proof. unfold qdirs; cbn. apply fmap_insert. Qed.
Lemma idirs_same s d e f : dirs s !! d = Some e -> iview_of (f e) = iview_of e ->
  idirs (upd_dirs (<[d := f e]>) s) = idirs s.
Proof. intros E Ei. rewrite idirs_upd, Ei. apply insert_id. by apply idirs_lookup. Qed.
Lemma qdirs_same s d e f : dirs s !! d = Some e -> qview_of (f e) = qview_of e ->
  qdirs (upd_dirs (<[d := f e]>) s) = qdirs s.
Proof. intros E Ei. rewrite qdirs_upd, Ei. apply insert_id. unfold qdirs. by rewrite lookup_fmap, E. Qed.

Lemma idx_perm X1 X2 Y1 Y2 iv t1 t2 cnt : X1 ≡ₚ Y1 -> X2 ≡ₚ Y2 -> idxP X1 X2 iv t1 t2 cnt -> idxP Y1 Y2 iv t1 t2 cnt.
Proof.
  intros H1 H2 []. constructor; try done.
  - by rewrite <- H1.
  - by rewrite <- H2.
  - intros k d. by rewrite <- H1.
  - intros k d. by rewrite <- H2.
  - intros. rewrite <- H1. eauto.
  - intros. rewrite <- H2. eauto.
  - intros. rewrite <- H1. eauto.
  - intros d. rewrite <- H1, <- H2. eauto.
  - intros d v. rewrite <- H1, <- H2. eauto.
  - intros vid. by rewrite <- H1.
Qed.

(** A table whose entries are the members of [X] under their own keys holds
    as many entries as [X]. *)
Lemma map_size_list {K} `{Countable K} (m : gmap K dirptr) (key : dirptr -> option K) X :
  NoDup X -> (forall d, d ∈ X -> is_Some (key d)) ->
  (forall k d, m !! k = Some d <-> d ∈ X /\ key d = Some k) -> (map_to_list m).*2 ≡ₚ X.
Proof.
  intros Hnd Hdom Hm. apply NoDup_Permutation; [|done|].
  - apply NoDup_fmap_2_strong; [|apply NoDup_map_to_list].
    intros [k1 d1] [k2 d2] E1 E2 E. cbn in E. subst d2.
    apply elem_of_map_to_list, Hm in E1 as [_ E1]. apply elem_of_map_to_list, Hm in E2 as [_ E2]. congruence.
  - intros d. rewrite list_elem_of_fmap. split.
    + intros ([k d'] & -> & Hin). apply elem_of_map_to_list, Hm in Hin. by destruct Hin.
    + intros Hd. destruct (Hdom d Hd) as [k Ek]. exists (k, d). split; [done|].
      apply elem_of_map_to_list, Hm. done.
Qed.

Lemma idx_scan X1 X2 s : idx X1 X2 s -> h_scan (dircache s) ≡ₚ X1.
Proof.
  intros []. rewrite h_scan_law by done. eapply (map_size_list _ (fun d => iv_did <$> idirs s !! d)); try done.
  intros d Hd. apply fmap_is_Some. eauto.
Qed.
Lemma idx_count1 X1 X2 s : idx X1 X2 s -> h_count (dircache s) = Z.of_nat (length X1).
Proof.
  intros Hi. rewrite <- (idx_scan _ _ _ Hi). destruct Hi. rewrite h_count_law, h_scan_law by done.
  by rewrite length_fmap, length_map_to_list.
Qed.
Lemma idx_count2 X1 X2 s : idx X1 X2 s -> h_count (index_didname s) = Z.of_nat (length X2).
Proof.
  intros []. rewrite h_count_law by done. f_equal.
  assert ((map_to_list (h_map (index_didname s))).*2 ≡ₚ X2) as <-.
  { eapply (map_size_list _ (fun d => iv_name <$> idirs s !! d)); try done.
    intros d Hd. apply fmap_is_Some. eauto. }
  by rewrite length_fmap, length_map_to_list.
Qed.

(** ** Changing an index and the node flags of one entry *)

Lemma fmap_lookup_insert {A} (f : iview -> A) (iv : gmap dirptr iview) d v v' d' :
  iv !! d = Some v -> f v' = f v -> f <$> <[d := v']> iv !! d' = f <$> iv !! d'.
Proof.
  intros E Ef. destruct (decide (d' = d)) as [->|?].
  - by rewrite lookup_insert_eq, E; cbn; rewrite Ef.
  - by rewrite lookup_insert_ne.
Qed.

Lemma on_vol_insert iv d v v' vid (X : list dirptr) : iv !! d = Some v -> iv_did v' = iv_did v ->
  filter (on_vol (<[d := v']> iv) vid) X = filter (on_vol iv vid) X.
Proof.
  intros E Ef. apply list_filter_iff. intros d'. unfold on_vol.
  rewrite (fmap_lookup_insert (fun v => (iv_did v).1) iv d v v') by (done || by rewrite Ef). done.
Qed.

Section Keyed.
Context {K : Type} `{Countable K} (key : iview -> K).
Context (iv : gmap dirptr iview) (d : dirptr) (v v' : iview).
Context (Hv : iv !! d = Some v) (Hk : key v' = key v).

Lemma keyed_same X m : keyed key X iv m -> keyed key X (<[d := v']> iv) m.
Proof. intros Hm k d'. rewrite (fmap_lookup_insert key iv d v) by done. apply Hm. Qed.

Lemma keyed_delete X m : NoDup (d :: X) -> keyed key (d :: X) iv m ->
  keyed key X (<[d := v']> iv) (delete (key v) m).
Proof.
  intros [Hd Hnd]%NoDup_cons Hm. apply keyed_same. intros k d'. rewrite lookup_delete_Some, (Hm _ _).
  rewrite elem_of_cons. split.
  - intros (Hkk & [->|Hin] & E); [|done]. rewrite Hv in E. by injection E.
  - intros (Hin & E). split_and!; try done; [|by right]. intros <-.
    assert (m !! key v = Some d') as E1 by (apply Hm; set_solver).
    assert (m !! key v = Some d) as E2 by (apply Hm; rewrite Hv; set_solver). congruence.
Qed.

Lemma keyed_insert X m : keyed key X iv m -> m !! key v = None ->
  keyed key (d :: X) (<[d := v']> iv) (<[key v := d]> m).
Proof.
  intros Hm Hno. apply keyed_same. intros k d'. rewrite lookup_insert_Some, (Hm _ _), elem_of_cons. split.
  - intros [[<- <-]|(? & ? & ?)]; [|by auto]. split; [by left|]. by rewrite Hv.
  - intros [[->|Hin] E]; [rewrite Hv in E; injection E; auto|]. right. split_and!; try done.
    intros <-. assert (m !! key v = Some d') by (by apply Hm). congruence.
Qed.
End Keyed.

Lemma keyed_outside {K} `{Countable K} (key : iview -> K) X iv m d w : d ∉ X -> keyed key X iv m -> keyed key X (<[d := w]> iv) m.
Proof.
  intros Hd Hm k d'. rewrite (Hm _ _).
  destruct (decide (d' = d)) as [->|?]; [set_solver|by rewrite lookup_insert_ne].
Qed.

(** An entry of neither index may change at will. *)
Lemma idx_outside X1 X2 iv t1 t2 cnt d v' : idxP X1 X2 iv t1 t2 cnt -> d ∉ X1 -> d ∉ X2 ->
  iv_n1 v' = false -> iv_n2 v' = false -> iv_indexed v' = false ->
  idxP X1 X2 (<[d := v']> iv) t1 t2 cnt.
Proof.
  intros [] H1 H2 E1 E2 E3. constructor; try done.
  - by apply keyed_outside.
  - by apply keyed_outside.
  - intros d' w [[-> <-]|[? ?]]%lookup_insert_Some; [by rewrite E1|eauto].
  - intros d' w [[-> <-]|[? ?]]%lookup_insert_Some; [by rewrite E2|eauto].
  - intros d' w [[-> <-]|[? ?]]%lookup_insert_Some; [by rewrite E3|eauto].
  - intros d' Hd'. apply lookup_insert_is_Some'. auto.
  - intros d' w [[-> <-]|[? ?]]%lookup_insert_Some; [naive_solver|eauto].
  - intros vid. rewrite idx_vid0. do 2 f_equal. eapply list_filter_ext_in. 
    intros d' Hd'. unfold on_vol. rewrite lookup_insert_ne; [done|]. intros ->. done.
Qed.

Section Change.
Context (X1 X2 : list dirptr) (iv : gmap dirptr iview) (t1 : T1) (t2 : T2) (cnt : gmap Z Z).
Context (d : dirptr) (v : iview) (Hv : iv !! d = Some v).

(** A fact about every entry after the change, from the facts about [d] and
    about the others. *)
Ltac entries := intros d' w;
  destruct (decide (d' = d)) as [->|?];
  [rewrite lookup_insert_eq; intros [= <-]; cbn | rewrite lookup_insert_ne by done; intros ?].

Lemma idx_del2 t2' : idxP X1 (d :: X2) iv t1 t2 cnt -> h_wf t2' ->
  h_map t2' = delete (iv_name v) (h_map t2) ->
  idxP X1 X2 (<[d := IView (iv_did v) (iv_name v) (iv_n1 v) false (iv_indexed v) (iv_file v)]> iv) t1 t2' cnt.
Proof.
  intros [] Hw Hm. pose proof (proj1 (NoDup_cons _ _) idx_nd4) as [Hd Hnd]. constructor; try done.
  - by eapply keyed_same.
  - rewrite Hm. by eapply keyed_delete.
  - entries; [|by eauto]. by apply idx_n3.
  - entries; [done|]. rewrite idx_n4 by done. set_solver.
  - entries; by eauto.
  - intros d' Hd'. apply lookup_insert_is_Some. destruct (decide (d = d')); [by left|right]. split; [done|].
    apply idx_dom0. set_solver.
  - entries; intros; eapply idx_valid0; try done; set_solver.
  - intros vid. by rewrite (on_vol_insert iv d v).
Qed.

Lemma idx_del1 t1' : idxP (d :: X1) X2 iv t1 t2 cnt -> h_wf t1' ->
  h_map t1' = delete (iv_did v) (h_map t1) ->
  let vid := (iv_did v).1 in
  0 < default 0 (cnt !! vid) /\
  idxP X1 X2 (<[d := IView (iv_did v) (iv_name v) false (iv_n2 v) false (iv_file v)]> iv) t1' t2
    (<[vid := default 0 (cnt !! vid) - 1]> cnt).
Proof.
  intros [] Hw Hm. pose proof (proj1 (NoDup_cons _ _) idx_nd3) as [Hd Hnd]. cbv zeta.
  assert (on_vol iv (iv_did v).1 d) as Hov by (unfold on_vol; by rewrite Hv).
  split; [rewrite idx_vid0, filter_cons_True by done; cbn; lia|].
  constructor; try done.
  - rewrite Hm. by eapply keyed_delete.
  - by eapply keyed_same.
  - entries; [done|]. rewrite idx_n3 by done. set_solver.
  - entries; [|by eauto]. by apply idx_n4.
  - entries; [done|]. intros. pose proof (idx_flag0 d' w). set_solver.
  - intros d' Hd'. apply lookup_insert_is_Some. destruct (decide (d = d')); [by left|right]. split; [done|].
    apply idx_dom0. set_solver.
  - entries; intros; eapply idx_valid0; try done; set_solver.
  - intros vid. rewrite (on_vol_insert iv d v) by done. pose proof (idx_vid0 vid) as Ev.
    destruct (decide (vid = (iv_did v).1)) as [->|Hne].
    + rewrite lookup_insert_eq, Ev, filter_cons_True by done. cbn. lia.
    + rewrite lookup_insert_ne, Ev, filter_cons_False; [done| |done].
      unfold on_vol. rewrite Hv. cbn. congruence.
Qed.

Lemma idx_ins1 t1' : idxP X1 X2 iv t1 t2 cnt -> d ∉ X1 -> h_wf t1' ->
  CNID_START <= ntohl (iv_did v).2 -> h_map t1 !! iv_did v = None ->
  h_map t1' = <[iv_did v := d]> (h_map t1) ->
  let vid := (iv_did v).1 in
  idxP (d :: X1) X2 (<[d := IView (iv_did v) (iv_name v) true (iv_n2 v) (iv_indexed v) (iv_file v)]> iv) t1' t2
    (<[vid := default 0 (cnt !! vid) + 1]> cnt).
Proof.
  intros [] Hd Hw Hcn Hno Hm. cbv zeta. constructor; try done.
  - by constructor.
  - rewrite Hm. by eapply keyed_insert.
  - by eapply keyed_same.
  - entries; [set_solver|]. rewrite idx_n3 by done. set_solver.
  - entries; [|by eauto]. by apply idx_n4.
  - entries; [set_solver|]. intros. pose proof (idx_flag0 d' w). set_solver.
  - intros d' Hd'. apply lookup_insert_is_Some. destruct (decide (d = d')); [by left|right]. split; [done|].
    apply idx_dom0. set_solver.
  - entries; intros; [done|]. eapply idx_valid0; try done; set_solver.
  - intros vid. rewrite (on_vol_insert iv d v) by done. pose proof (idx_vid0 vid) as Ev.
    destruct (decide (vid = (iv_did v).1)) as [->|Hne].
    + rewrite lookup_insert_eq, Ev, filter_cons_True; [cbn; lia|]. unfold on_vol. by rewrite Hv.
    + rewrite lookup_insert_ne, Ev, filter_cons_False; [done| |done].
      unfold on_vol. rewrite Hv. cbn. congruence.
Qed.

Lemma idx_ins2 t2' : idxP X1 X2 iv t1 t2 cnt -> d ∉ X2 -> h_wf t2' ->
  CNID_START <= ntohl (iv_did v).2 -> h_map t2 !! iv_name v = None ->
  h_map t2' = <[iv_name v := d]> (h_map t2) ->
  idxP X1 (d :: X2) (<[d := IView (iv_did v) (iv_name v) (iv_n1 v) true (iv_indexed v) (iv_file v)]> iv) t1 t2' cnt.
Proof.
  intros [] Hd Hw Hcn Hno Hm. constructor; try done.
  - by constructor.
  - by eapply keyed_same.
  - rewrite Hm. by eapply keyed_insert.
  - entries; [|by eauto]. by apply idx_n3.
  - entries; [set_solver|]. rewrite idx_n4 by done. set_solver.
  - entries; by eauto.
  - intros d' Hd'. apply lookup_insert_is_Some. destruct (decide (d = d')); [by left|right]. split; [done|].
    apply idx_dom0. set_solver.
  - entries; intros; [done|]. eapply idx_valid0; try done; set_solver.
  - intros vid. by rewrite (on_vol_insert iv d v).
Qed.
End Change.

(** ** Removal *)

Lemma idx_entry X1 X2 s d : idx X1 X2 s -> d ∈ X1 \/ d ∈ X2 -> exists e, dirs s !! d = Some e.
Proof. intros [] Hd. by apply idirs_Some, idx_dom0. Qed.

Lemma idx_node1 X1 X2 s d e : idx X1 X2 s -> dirs s !! d = Some e -> d_index_node e = true <-> d ∈ X1.
Proof. intros Hi E. by apply (idx_n1 _ _ _ _ _ _ Hi d (iview_of e)), idirs_lookup. Qed.
Lemma idx_node2 X1 X2 s d e : idx X1 X2 s -> dirs s !! d = Some e -> d_didname_node e = true <-> d ∈ X2.
Proof. intros Hi E. by apply (idx_n2 _ _ _ _ _ _ Hi d (iview_of e)), idirs_lookup. Qed.
Lemma idx_lookup1 X1 X2 s d e : idx X1 X2 s -> dirs s !! d = Some e ->
  d ∈ X1 <-> h_lookup (dircache s) (did_key e) = Some d.
Proof.
  intros Hi E. rewrite h_lookup_law, (idx_m1 _ _ _ _ _ _ Hi _ _), (idirs_lookup _ _ _ E) by apply Hi. naive_solver.
Qed.
Lemma idx_lookup2 X1 X2 s d e : idx X1 X2 s -> dirs s !! d = Some e ->
  d ∈ X2 <-> h_lookup (index_didname s) (name_key e) = Some d.
Proof.
  intros Hi E. rewrite h_lookup_law, (idx_m2 _ _ _ _ _ _ Hi _ _), (idirs_lookup _ _ _ E) by apply Hi. naive_solver.
Qed.

Section Ops.
Context (oom : Prop).

(** What an operation on the indexes of [d] establishes. *)
Definition reindexed (d : dirptr) (X1 X2 : list dirptr) (s s' : cstate) : Prop :=
  idx X1 X2 s' /\ iframe d s s' /\ mem_ok oom s'.

Lemma remove_didname_spec X1 X2 d ns s : idx X1 (d :: X2) s -> mem_ok oom s ->
  wp oom (remove_didname_index d ns) s (fun _ s' => reindexed d X1 X2 s s').
Proof.
  intros Hi Hm. destruct (idx_entry _ _ _ d Hi) as [e He]; [set_solver|].
  unfold remove_didname_index. wsteps. apply wp_when; intros Hn.
  2: { apply not_true_iff_false in Hn. rewrite (idx_node2 _ _ _ _ _ Hi He) in Hn. set_solver. }
  wsteps. destruct (h_delete_law ns b (name_key e) d (index_didname s)) as (t' & Et & Hw & Hmap & Hmax).
  { apply Hi. } { rewrite <- h_lookup_law by apply Hi. apply (idx_lookup2 _ _ _ _ _ Hi He). set_solver. }
  eapply wp_lift; [exact Et|]. wsteps. split_and!; [|constructor; try done|done].
  - unfold idx. rewrite idirs_upd.
    apply (idx_del2 X1 X2 _ _ _ _ d (iview_of e) (idirs_lookup _ _ _ He) t' Hi Hw Hmap).
  - by apply (qdirs_same s d e (upd_d_didname_node (fun _ => false))).
  - intros. cbn. by rewrite lookup_insert_ne.
Qed.

Lemma remove_did_spec X1 X2 d ns s : idx (d :: X1) X2 s -> mem_ok oom s ->
  wp oom (remove_did_index d ns) s (fun _ s' => reindexed d X1 X2 s s').
Proof.
  intros Hi Hm. destruct (idx_entry _ _ _ d Hi) as [e He]; [set_solver|].
  unfold remove_did_index. wsteps. apply wp_when; intros Hn.
  2: { apply not_true_iff_false in Hn. rewrite (idx_node1 _ _ _ _ _ Hi He) in Hn. set_solver. }
  wsteps. destruct (h_delete_law ns b (did_key e) d (dircache s)) as (t' & Et & Hw & Hmap & Hmax).
  { apply Hi. } { rewrite <- h_lookup_law by apply Hi. apply (idx_lookup1 _ _ _ _ _ Hi He). set_solver. }
  eapply wp_lift; [exact Et|]. wsteps.
  destruct (idx_del1 X1 X2 _ _ _ _ d (iview_of e) (idirs_lookup _ _ _ He) t' Hi Hw Hmap) as [Hpos Hi'].
  apply wp_assert; [by apply Z.ltb_lt|]. wsteps. split_and!; [|constructor; try done|done].
  - set (e' := upd_d_index_node (fun _ => false) (upd_d_flags (fun f => Z.ldiff f DIRF_INDEXED) e)).
    replace (IView _ _ _ _ _ _) with (iview_of e') in Hi'
      by (unfold iview_of, is_file; cbn; by rewrite has_ldiff_self, has_ldiff_other).
    rewrite <- idirs_upd in Hi'. exact Hi'.
  - apply (qdirs_same s d e (fun e => upd_d_index_node (fun _ => false)
      (upd_d_flags (fun f => Z.ldiff f DIRF_INDEXED) e))); [done|]. unfold qview_of, is_ghost; cbn.
    by rewrite has_ldiff_other.
  - intros. cbn. by rewrite lookup_insert_ne.
Qed.
Lemma node_match X1 X2 s d e : idx X1 X2 s -> dirs s !! d = Some e -> node_mismatch d e s = false.
Proof.
  intros Hi He. unfold node_mismatch. apply orb_false_iff. split; apply andb_false_iff.
  - destruct (d_didname_node e) eqn:En; [right|by left].
    apply negb_false_iff, bool_decide_eq_true, (idx_lookup2 _ _ _ _ _ Hi He), (idx_node2 _ _ _ _ _ Hi He), En.
  - destruct (d_index_node e) eqn:En; [right|by left].
    apply negb_false_iff, bool_decide_eq_true, (idx_lookup1 _ _ _ _ _ Hi He), (idx_node1 _ _ _ _ _ Hi He), En.
Qed.

(** The sanity checks of [dircache_remove] hold, for an entry of both indexes
    that leaves both; [Q] is what the queue part establishes. *)
Lemma dircache_remove_spec X1 X2 d flags s (Q : cstate -> Prop) :
  Z.ldiff flags (Z.lor DIRCACHE_ALL DIRCACHE_NOSHRINK) = 0 ->
  has flags DIRCACHE = true -> has flags DIDNAME_INDEX = true -> has flags (Z.lor DIRCACHE DIDNAME_INDEX) = true ->
  idx (d :: X1) (d :: X2) s ->
  wp oom (when (has flags QUEUE_INDEX) (remove_queue_index d)) s
    (fun _ s1 => Q s1 /\ idx (d :: X1) (d :: X2) s1 /\ mem_ok oom s1) ->
  wp oom (dircache_remove d flags) s (fun _ s2 => exists s1, Q s1 /\ reindexed d X1 X2 s1 s2).
Proof.
  intros Hf H1 H2 H3 Hi Hq. destruct (idx_entry _ _ _ d Hi) as [e He]; [set_solver|].
  unfold dircache_remove. wsteps. apply wp_assert; [by rewrite Hf|]. wsteps.
  apply wp_assert; [by rewrite H3, orb_true_r|]. wsteps. rewrite (node_match _ _ _ _ _ Hi He), H1, H2.
  rewrite (proj2 (idx_node1 _ _ _ _ _ Hi He)) by set_solver. cbn [negb andb].
  wsteps. eapply wp_mono; [exact Hq|]. intros _ s1 (HQ & Hi1 & Hm1).
  wsteps. eapply wp_mono; [by apply remove_didname_spec|]. intros _ s2 (Hi2 & Hf2 & Hm2).
  wsteps. eapply wp_mono; [by apply remove_did_spec|]. intros _ s3 (Hi3 & Hf3 & Hm3).
  assert (reindexed d X1 X2 s1 s3) as (? & Hfr & ?) by (split_and!; [done|by eapply iframe_trans|done]).
  wsteps. apply wp_when; intros _; wsteps; exists s1; (split; [done|]); (split_and!; [done| |done]);
    eapply iframe_trans; try exact Hfr; by constructor.
Qed.

Lemma defer_free_spec X1 X2 d e s : idx X1 X2 s -> mem_ok oom s -> dirs s !! d = Some e ->
  d ∉ X1 -> d ∉ X2 -> wp oom (dircache_defer_free d) s (fun _ s' => reindexed d X1 X2 s s').
Proof.
  intros Hi Hm He H1 H2. unfold dircache_defer_free.
  assert (idx X1 X2 (upd_dirs (<[d := upd_d_did (fun _ => CNID_INVALID) e]>) s)) as Hi'.
  { unfold idx. rewrite idirs_upd. apply idx_outside; try done; cbn.
    - apply not_true_iff_false. by rewrite (idx_node1 _ _ _ _ _ Hi He).
    - apply not_true_iff_false. by rewrite (idx_node2 _ _ _ _ _ Hi He).
    - apply not_true_iff_false. intros Ef. apply H1.
      by apply (idx_flag _ _ _ _ _ _ Hi d (iview_of e) (idirs_lookup _ _ _ He)). }
  assert (iframe d s (upd_dirs (<[d := upd_d_did (fun _ => CNID_INVALID) e]>) s)) as Hf.
  { constructor; try done; [by apply qdirs_same|]. intros. cbn. by rewrite lookup_insert_ne. }
  wsteps. destruct b; wsteps; (split_and!; [exact Hi'|destruct Hf; by constructor|done]).
Qed.

(** Dropping an entry that has left its queue. *)
Lemma retire_spec X1 X2 d s : idx (d :: X1) (d :: X2) s -> mem_ok oom s ->
  wp oom (_ ← dircache_remove d (Z.lor DIRCACHE DIDNAME_INDEX); dircache_defer_free d) s
    (fun _ s' => reindexed d X1 X2 s s').
Proof.
  intros Hi Hm. apply wp_bind. eapply wp_mono.
  { apply (dircache_remove_spec X1 X2 d _ s (eq s)); done. }
  intros _ s2 (s1 & <- & Hi2 & Hf2 & Hm2).
  assert (exists e, dirs s2 !! d = Some e) as [e He].
  { pose proof (if_q _ _ _ Hf2) as Eq. apply (f_equal (fun m => m !! d)) in Eq. unfold qdirs in Eq.
    rewrite !lookup_fmap in Eq. destruct (idx_entry _ _ _ d Hi) as [e0 He]; [set_solver|].
    rewrite He in Eq. destruct (dirs s2 !! d); [eauto|done]. }
  eapply wp_mono; [eapply defer_free_spec; try done|].
  - pose proof (idx_nd1 _ _ _ _ _ _ Hi) as Hnd. by apply NoDup_cons in Hnd as [? _].
  - pose proof (idx_nd2 _ _ _ _ _ _ Hi) as Hnd. by apply NoDup_cons in Hnd as [? _].
  - intros _ s3 (? & ? & ?). split_and!; [done|by eapply iframe_trans|done].
Qed.
(** ** Insertion *)

Lemma insert_did_spec X1 X2 d e s : idx X1 X2 s -> mem_ok oom s -> d ∉ X1 -> dirs s !! d = Some e ->
  CNID_START <= ntohl (d_did e) -> h_lookup (dircache s) (did_key e) = None ->
  Z.of_nat (length X1) < h_max (dircache s) ->
  wp oom (insert_did_index d e) s (fun _ s' => reindexed d (d :: X1) X2 s s' /\
    dirs s' !! d = Some (upd_d_index_node (fun _ => true) e) /\ index_didname s' = index_didname s).
Proof.
  intros Hi Hm Hd He Hcn Hno Hlt. unfold insert_did_index. wsteps. destruct b; cbn [negb]; wsteps; [|naive_solver].
  rewrite <- (idx_count1 _ _ _ Hi) in Hlt.
  rewrite h_lookup_law in Hno by apply Hi.
  destruct (h_insert_law b (did_key e) d (dircache s)) as (t' & Et & Hw & Hmap & Hmax); try done.
  { apply Hi. }
  eapply wp_lift; [exact Et|]. wsteps. split_and!; [split_and!; [|constructor; try done|done]| |done].
  - pose proof (idx_ins1 X1 X2 _ _ _ _ d (iview_of e) (idirs_lookup _ _ _ He) t' Hi Hd Hw Hcn Hno Hmap) as Hi'.
    change (IView _ _ _ _ _ _) with (iview_of (upd_d_index_node (fun _ => true) e)) in Hi'.
    rewrite <- idirs_upd in Hi'. exact Hi'.
  - by apply (qdirs_same s d e (upd_d_index_node (fun _ => true))).
  - intros. cbn. by rewrite lookup_insert_ne.
  - cbn. apply lookup_insert_eq.
Qed.

Lemma insert_didname_spec X1 X2 d e e' s : idx X1 X2 s -> mem_ok oom s -> d ∉ X2 -> dirs s !! d = Some e' ->
  name_key e' = name_key e ->
  CNID_START <= ntohl (d_did e') -> h_lookup (index_didname s) (name_key e) = None ->
  Z.of_nat (length X2) < h_max (index_didname s) ->
  wp oom (insert_didname_index d e) s (fun _ s' => reindexed d X1 (d :: X2) s s' /\
    dirs s' !! d = Some (upd_d_didname_node (fun _ => true) e')).
Proof.
  intros Hi Hm Hd He Hk Hcn Hno Hlt. unfold insert_didname_index. wsteps. destruct b; cbn [negb]; wsteps; [|naive_solver].
  rewrite <- (idx_count2 _ _ _ Hi) in Hlt.
  rewrite h_lookup_law in Hno by apply Hi. rewrite <- Hk in *.
  destruct (h_insert_law b (name_key e') d (index_didname s)) as (t' & Et & Hw & Hmap & Hmax); try done.
  { apply Hi. }
  eapply wp_lift; [exact Et|]. wsteps. split_and!; [split_and!; [|constructor; try done|done]|].
  - pose proof (idx_ins2 X1 X2 _ _ _ _ d (iview_of e') (idirs_lookup _ _ _ He) t' Hi Hd Hw Hcn Hno Hmap) as Hi'.
    change (IView _ _ _ _ _ _) with (iview_of (upd_d_didname_node (fun _ => true) e')) in Hi'.
    rewrite <- idirs_upd in Hi'. exact Hi'.
  - by apply (qdirs_same s d e' (upd_d_didname_node (fun _ => true))).
  - intros. cbn. by rewrite lookup_insert_ne.
  - cbn. apply lookup_insert_eq.
Qed.

(** Marking the entry as indexed. *)
Lemma mark_indexed_spec X1 X2 d e s : idx X1 X2 s -> d ∈ X1 -> dirs s !! d = Some e -> mem_ok oom s ->
  wp oom (set_dir d (upd_d_flags (fun f => Z.lor f DIRF_INDEXED))) s (fun _ s' => reindexed d X1 X2 s s' /\
    dirs s' !! d = Some (upd_d_flags (fun f => Z.lor f DIRF_INDEXED) e)).
Proof.
  intros Hi Hd He Hm. wsteps. split; [split_and!; [|constructor; try done|done]|].
  - unfold idx. rewrite idirs_upd. pose proof (idirs_lookup _ _ _ He) as Hv. cbn.
    destruct Hi. constructor; try done.
    + by eapply keyed_same.
    + by eapply keyed_same.
    + intros d' v [[-> <-]|[? ?]]%lookup_insert_Some; [|eauto]. by apply (idx_n3 d' (iview_of e)).
    + intros d' v [[-> <-]|[? ?]]%lookup_insert_Some; [|eauto]. by apply (idx_n4 d' (iview_of e)).
    + intros d' v [[-> <-]|[? ?]]%lookup_insert_Some; [done|eauto].
    + intros d' Hd'. apply lookup_insert_is_Some'. auto.
    + intros d' v [[-> <-]|[? ?]]%lookup_insert_Some; [|eauto]. by apply (idx_valid0 d' (iview_of e)).
    + intros vid. by rewrite (on_vol_insert _ d (iview_of e)).
  - apply qdirs_same; [done|]. unfold qview_of, is_ghost. cbn. by rewrite has_lor_other.
  - intros. cbn. by rewrite lookup_insert_ne.
  - cbn. apply lookup_insert_eq.
Qed.
End Ops.

End Index.
