(* ===== verification/DircacheArc.v ===== *)
(** * The ARC lists of the directory cache

    The invariant of the four lists T1, T2, B1 and B2 of [Dircache.v], the
    bounds of the ARC algorithm on them, and what each case of the algorithm
    does: REPLACE, the hit cases I, II and III, making room and inserting. *)

From S2P Require Import Prelude HashTable Dircache DircacheIndex.

(** Decide the equations between constructors. *)
Ltac decides := repeat match goal with
  | |- context [decide ?P] =>
      first [rewrite (decide_True (P := P)) by done | rewrite (decide_False (P := P)) by done]
  end.

(** ** The lists *)

Definition is_b (l : arc_list_t) : bool := match l with ARC_B1 | ARC_B2 => true | _ => false end.
Definition get_size (l : arc_list_t) (a : arc_cache_t) : Z :=
  match l with
  | ARC_T1 => t1_size a | ARC_T2 => t2_size a | ARC_B1 => b1_size a | ARC_B2 => b2_size a | ARC_NONE => 0
  end.
Definition all_q (a : arc_cache_t) : list dirptr := t1 a ++ t2 a ++ b1 a ++ b2 a.

(** The length of a list. *)
Definition sz (l : arc_list_t) (a : arc_cache_t) : Z := Z.of_nat (length (get_list l a)).

(** Taking an entry off a list, and appending one. *)
Definition del (l : arc_list_t) (d : dirptr) (a : arc_cache_t) : arc_cache_t :=
  upd_size l dec (upd_list l (q_del d) a).
Definition ins (l : arc_list_t) (d : dirptr) (a : arc_cache_t) : arc_cache_t :=
  upd_size l inc (upd_list l (fun q => q ++ [d]) a).

(** Equal up to the target size and the statistics. *)
Record arc_eqv (a a' : arc_cache_t) : Prop := {
  ae_list l : get_list l a' = get_list l a;
  ae_size l : get_size l a' = get_size l a;
  ae_enabled : enabled a' = enabled a;
  ae_c : arc_c a' = arc_c a
}.
#[export] Instance arc_eqv_equiv : Equivalence arc_eqv.
Proof.
  split.
  - by constructor.
  - intros a b []; by constructor.
  - intros a b c [] []; constructor; intros; congruence.
Qed.

Lemma q_del_notin d q : d ∉ q -> q_del d q = q.
Proof. intros Hd. apply list_filter_all. intros x Hx ->. done. Qed.
Lemma elem_of_q_del d d' q : d' ∈ q_del d q <-> d' <> d /\ d' ∈ q.
Proof. unfold q_del. by rewrite list_elem_of_filter. Qed.
Lemma q_del_perm d q : NoDup q -> d ∈ q -> q ≡ₚ d :: q_del d q.
Proof.
  intros Hnd Hd. apply NoDup_Permutation; [done| |].
  - constructor; [rewrite elem_of_q_del; naive_solver|]. by apply NoDup_filter.
  - intros x. rewrite elem_of_cons, elem_of_q_del. destruct (decide (x = d)); naive_solver.
Qed.
Lemma length_q_del d q : NoDup q -> d ∈ q -> Z.of_nat (length (q_del d q)) = Z.of_nat (length q) - 1.
Proof. intros Hnd Hd. rewrite (q_del_perm d q Hnd Hd) at 2. cbn. lia. Qed.
Lemma q_del_head d q : NoDup (d :: q) -> q_del d (d :: q) = q.
Proof.
  intros [Hd _]%NoDup_cons. unfold q_del. rewrite filter_cons_False by naive_solver. by apply q_del_notin.
Qed.

Lemma get_list_del l l' d a :
  get_list l' (del l d a) = if decide (l = l') then q_del d (get_list l' a) else get_list l' a.
Proof. by destruct l, l', a. Qed.
Lemma get_list_ins l l' d a : l <> ARC_NONE ->
  get_list l' (ins l d a) = if decide (l = l') then get_list l' a ++ [d] else get_list l' a.
Proof. by destruct l, l', a. Qed.
Lemma get_size_del l l' d a : l <> ARC_NONE ->
  get_size l' (del l d a) = if decide (l = l') then dec (get_size l' a) else get_size l' a.
Proof. by destruct l, l', a. Qed.
Lemma get_size_ins l l' d a : l <> ARC_NONE ->
  get_size l' (ins l d a) = if decide (l = l') then inc (get_size l' a) else get_size l' a.
Proof. by destruct l, l', a. Qed.
Lemma del_const l d a : enabled (del l d a) = enabled a /\ arc_c (del l d a) = arc_c a /\ arc_p (del l d a) = arc_p a.
Proof. by destruct l, a. Qed.
Lemma ins_const l d a : enabled (ins l d a) = enabled a /\ arc_c (ins l d a) = arc_c a /\ arc_p (ins l d a) = arc_p a.
Proof. by destruct l, a. Qed.

Lemma elem_of_all_q d a : d ∈ all_q a <-> exists l, d ∈ get_list l a.
Proof.
  unfold all_q. rewrite !elem_of_app. split.
  - intros [?|[?|[?|?]]]; [exists ARC_T1|exists ARC_T2|exists ARC_B1|exists ARC_B2]; done.
  - intros [[] ?]; cbn in *; set_solver.
Qed.
Lemma length_all_q a : Z.of_nat (length (all_q a)) = sz ARC_T1 a + sz ARC_T2 a + sz ARC_B1 a + sz ARC_B2 a.
Proof. unfold all_q, sz. rewrite !length_app. cbn. lia. Qed.

(** ** The invariant *)

(** The lists, the sizes beside them and the queue fields of the entries
    agree; [qd] is what the queues see of the entries. *)
Record qarc (qd : gmap dirptr (bool * arc_list_t * bool)) (a : arc_cache_t) : Prop := {
  qa_in d l : d ∈ get_list l a -> qd !! d = Some (true, l, is_b l);
  qa_out d l g : qd !! d = Some (true, l, g) -> d ∈ get_list l a;
  qa_nd l : NoDup (get_list l a);
  qa_size l : get_size l a = sz l a;
  qa_enabled : enabled a = true
}.

Lemma sz_eqv l a a' : arc_eqv a a' -> sz l a' = sz l a.
Proof. intros []. unfold sz. by rewrite ae_list0. Qed.
Lemma qarc_eqv qd a a' : arc_eqv a a' -> qarc qd a -> qarc qd a'.
Proof.
  intros He []. constructor.
  - intros d l. rewrite (ae_list _ _ He). eauto.
  - intros d l g. rewrite (ae_list _ _ He). eauto.
  - intros l. rewrite (ae_list _ _ He). eauto.
  - intros l. by rewrite (ae_size _ _ He), (sz_eqv l _ _ He).
  - by rewrite (ae_enabled _ _ He).
Qed.
#[export] Instance qarc_proper qd : Proper (arc_eqv ==> iff) (qarc qd).
Proof. intros a a' Ha. split; by apply qarc_eqv. Qed.

(** The bounds the algorithm keeps on the lists: the cache holds at most [c]
    entries, T1 and its ghosts at most [c], everything at most [2c]. *)
Record bnd (a : arc_cache_t) : Prop := {
  bn_c : 2 <= arc_c a <= MAX_DIRCACHE_SIZE;
  bn_p : 0 <= arc_p a <= arc_c a;
  bn_cache : sz ARC_T1 a + sz ARC_T2 a <= arc_c a;
  bn_l1 : sz ARC_T1 a + sz ARC_B1 a <= arc_c a;
  bn_total : sz ARC_T1 a + sz ARC_T2 a + sz ARC_B1 a + sz ARC_B2 a <= 2 * arc_c a;
  bn_ghosts : sz ARC_B1 a + sz ARC_B2 a <= arc_c a + 1;
  bn_b2 : sz ARC_B2 a <= arc_c a
}.

Lemma sz_nonneg l a : 0 <= sz l a.
Proof. unfold sz. lia. Qed.

Ltac sizes a := pose proof (sz_nonneg ARC_T1 a); pose proof (sz_nonneg ARC_T2 a);
  pose proof (sz_nonneg ARC_B1 a); pose proof (sz_nonneg ARC_B2 a).

Section Lists.
Context (qd : gmap dirptr (bool * arc_list_t * bool)) (a : arc_cache_t) (Hq : qarc qd a).

Lemma qa_none d l : d ∈ get_list l a -> l <> ARC_NONE.
Proof. intros Hd ->. cbn in Hd. set_solver. Qed.
Lemma qa_unique d l l' : d ∈ get_list l a -> d ∈ get_list l' a -> l = l'.
Proof. intros H1%(qa_in _ _ Hq) H2%(qa_in _ _ Hq). congruence. Qed.

Lemma sz_del l l' d : d ∈ get_list l a -> sz l' (del l d a) = if decide (l = l') then sz l' a - 1 else sz l' a.
Proof.
  intros Hd. unfold sz. rewrite get_list_del. case_decide as E; [subst l'|done]. apply length_q_del; [by eapply qa_nd|done].
Qed.

Lemma qarc_del l d g x : d ∈ get_list l a -> sz l a < 2 ^ 63 -> qarc (<[d := (false, x, g)]> qd) (del l d a).
Proof.
  intros Hd Hs. pose proof (qa_none _ _ Hd) as Hn. constructor.
  - intros d' l'. rewrite get_list_del. case_decide as E; [subst l'|].
    + intros [Hne Hin]%elem_of_q_del. rewrite lookup_insert_ne by done. by eapply qa_in.
    + intros Hin. rewrite lookup_insert_ne; [by eapply qa_in|]. intros ->. by eapply E, qa_unique.
  - intros d' l' g'. rewrite lookup_insert_Some, get_list_del. intros [[-> [=]]|[Hne E]].
    apply (qa_out _ _ Hq) in E. case_decide; [|done]. by rewrite elem_of_q_del.
  - intros l'. rewrite get_list_del. case_decide; [apply NoDup_filter|]; by eapply qa_nd.
  - intros l'. rewrite get_size_del, sz_del, (qa_size _ _ Hq) by done. case_decide as E; [subst l'|done].
    unfold dec. apply wrap_small. assert (0 < sz l a); [|lia].
    unfold sz. rewrite (q_del_perm d _ (qa_nd _ _ Hq l) Hd). cbn. lia.
  - rewrite (proj1 (del_const l d a)). by eapply qa_enabled.
Qed.

Lemma sz_ins l l' d : l <> ARC_NONE -> sz l' (ins l d a) = if decide (l = l') then sz l' a + 1 else sz l' a.
Proof. intros. unfold sz. rewrite get_list_ins by done. case_decide; [rewrite length_app; cbn; lia|done]. Qed.

Lemma qarc_ins l d x g : qd !! d = Some (false, x, g) -> l <> ARC_NONE -> sz l a < 2 ^ 63 ->
  qarc (<[d := (true, l, is_b l)]> qd) (ins l d a).
Proof.
  intros Hd Hn Hs. assert (forall l', d ∉ get_list l' a) as Hno.
  { intros l' Hin%(qa_in _ _ Hq). congruence. }
  constructor.
  - intros d' l'. rewrite get_list_ins by done. intros Hin. destruct (decide (d' = d)) as [->|Hne].
    + rewrite lookup_insert_eq. case_decide; [congruence|]. by destruct (Hno l').
    + rewrite lookup_insert_ne by done. apply (qa_in _ _ Hq). case_decide; [set_solver|done].
  - intros d' l' g'. rewrite lookup_insert_Some, get_list_ins by done. intros [[-> [= <- <-]]|[Hne E]].
    + rewrite decide_True by done. set_solver.
    + apply (qa_out _ _ Hq) in E. case_decide; set_solver.
  - intros l'. rewrite get_list_ins by done. case_decide; [|by eapply qa_nd]. apply NoDup_app.
    split_and!; [by eapply qa_nd| |by apply NoDup_singleton]. intros x' Hx ->%list_elem_of_singleton. by apply (Hno l').
  - intros l'. rewrite get_size_ins, sz_ins, (qa_size _ _ Hq) by done. case_decide; [|done].
    pose proof (sz_nonneg l' a). apply wrap_small. subst. lia.
  - rewrite (proj1 (ins_const l d a)). by eapply qa_enabled.
Qed.

Lemma all_q_NoDup : NoDup (all_q a).
Proof.
  unfold all_q. rewrite !NoDup_app. setoid_rewrite elem_of_app. setoid_rewrite elem_of_app. pose proof (qa_nd _ _ Hq) as Hnd.
  assert (forall l l' d, d ∈ get_list l a -> d ∈ get_list l' a -> l = l') as Hu by (intros; by eapply qa_unique).
  split_and!.
  - apply (Hnd ARC_T1).
  - intros d H1 [H2|[H2|H2]];
      [apply (Hu ARC_T1 ARC_T2 d H1) in H2|apply (Hu ARC_T1 ARC_B1 d H1) in H2|apply (Hu ARC_T1 ARC_B2 d H1) in H2]; done.
  - apply (Hnd ARC_T2).
  - intros d H1 [H2|H2]; [apply (Hu ARC_T2 ARC_B1 d H1) in H2|apply (Hu ARC_T2 ARC_B2 d H1) in H2]; done.
  - apply (Hnd ARC_B1).
  - intros d H1 H2. by apply (Hu ARC_B1 ARC_B2 d H1) in H2.
  - apply (Hnd ARC_B2).
Qed.

Lemma elem_of_all_q_del d d' l : d ∈ get_list l a -> d' ∈ all_q (del l d a) <-> d' <> d /\ d' ∈ all_q a.
Proof.
  intros Hd. rewrite !elem_of_all_q. split.
  - intros [l' Hin]. rewrite get_list_del in Hin. case_decide as E.
    + apply elem_of_q_del in Hin. naive_solver.
    + split; [|eauto]. intros ->. by eapply E, qa_unique.
  - intros [Hne [l' Hin]]. exists l'. rewrite get_list_del. case_decide; [|done]. by rewrite elem_of_q_del.
Qed.

(** [queue_remove] takes the entry off the one list that holds it. *)
Lemma remove_node_list d l : d ∈ get_list l a ->
  upd_t1 (q_del d) (upd_t2 (q_del d) (upd_b1 (q_del d) (upd_b2 (q_del d) a))) = upd_list l (q_del d) a.
Proof.
  intros Hd. assert (forall l', l' <> l -> q_del d (get_list l' a) = get_list l' a) as Ho.
  { intros l' Hne. apply q_del_notin. intros Hd'. by eapply Hne, qa_unique. }
  pose proof (Ho ARC_T1) as H1. pose proof (Ho ARC_T2) as H2.
  pose proof (Ho ARC_B1) as H3. pose proof (Ho ARC_B2) as H4. pose proof (qa_none _ _ Hd).
  destruct a, l; cbn in *; try done; unfold upd_t1, upd_t2, upd_b1, upd_b2; cbn;
    rewrite ?H1, ?H2, ?H3, ?H4 by done; done.
Qed.
End Lists.

Lemma all_q_del qd a l d : qarc qd a -> d ∈ get_list l a -> sz l a < 2 ^ 63 -> all_q a ≡ₚ d :: all_q (del l d a).
Proof.
  intros Hq Hd Hs. apply NoDup_Permutation.
  - by eapply all_q_NoDup.
  - constructor; [rewrite elem_of_all_q_del by done; naive_solver|].
    eapply all_q_NoDup, (qarc_del _ _ Hq l d false ARC_NONE Hd Hs).
  - intros x. rewrite elem_of_cons, (elem_of_all_q_del _ _ Hq) by done.
    destruct (decide (x = d)) as [->|]; [|naive_solver].
    assert (d ∈ all_q a) by (apply elem_of_all_q; eauto). naive_solver.
Qed.
Lemma all_q_ins a l d : l <> ARC_NONE -> all_q (ins l d a) ≡ₚ d :: all_q a.
Proof. intros. destruct l, a; try done; unfold all_q; cbn; solve_Permutation. Qed.
Lemma all_q_eqv a a' : arc_eqv a a' -> all_q a' = all_q a.
Proof.
  intros []. unfold all_q. pose proof (ae_list0 ARC_T1). pose proof (ae_list0 ARC_T2).
  pose proof (ae_list0 ARC_B1). pose proof (ae_list0 ARC_B2). cbn in *. congruence.
Qed.

Section Arc.
Context {T1 T2 : Type} {HO1 : HashOps T1 (Z * Z) dirptr} {HO2 : HashOps T2 (Z * Z * list Z) dirptr}.
Context {HL1 : HashLaws T1 (Z * Z) dirptr} {HL2 : HashLaws T2 (Z * Z * list Z) dirptr}.
Notation cstate := (@cstate T1 T2).
Context (oom : Prop).

(** ** The cache in ARC mode

    [F] holds the entries in flight: indexed but on no list. *)
Record awf (F : list dirptr) (s : cstate) : Prop := {
  aw_q : qarc (qdirs s) (arc_cache s);
  aw_i : idx (all_q (arc_cache s) ++ F) (all_q (arc_cache s) ++ F) s;
  aw_m : mem_ok oom s;
  aw_small : Z.of_nat (length (all_q (arc_cache s))) <= 2 ^ 30;
  aw_max1 : h_max (dircache s) = 2 * arc_c (arc_cache s);
  aw_max2 : h_max (index_didname s) = 2 * arc_c (arc_cache s);
  aw_max : dircache_maxsize s = arc_c (arc_cache s)
}.

Lemma sz_all l a : sz l a <= Z.of_nat (length (all_q a)).
Proof.
  rewrite length_all_q. pose proof (sz_nonneg ARC_T1 a). pose proof (sz_nonneg ARC_T2 a).
  pose proof (sz_nonneg ARC_B1 a). pose proof (sz_nonneg ARC_B2 a).
  destruct l; try lia. unfold sz. cbn. lia.
Qed.
Lemma sz_small F s l : awf F s -> sz l (arc_cache s) < 2 ^ 63.
Proof. intros Hw. pose proof (sz_all l (arc_cache s)). pose proof (aw_small _ _ Hw). lia. Qed.

Lemma aw_entry F s d l : awf F s -> d ∈ get_list l (arc_cache s) ->
  exists e, dirs s !! d = Some e /\ qidx_node e = true /\ arc_list e = l /\ is_ghost e = is_b l.
Proof.
  intros Hw Hd. pose proof (qa_in _ _ (aw_q _ _ Hw) d l Hd) as E. unfold qdirs in E.
  apply lookup_fmap_Some in E as (e & E & ?). exists e. unfold qview_of in E. by injection E as -> -> ->.
Qed.

(** The rest of the state the queue steps leave alone. *)
Record same_index (s s' : cstate) : Prop := {
  si_dircache : dircache s' = dircache s;
  si_didname : index_didname s' = index_didname s;
  si_count : vid_entry_count s' = vid_entry_count s;
  si_mallocs : mallocs s' = mallocs s;
  si_max : dircache_maxsize s' = dircache_maxsize s
}.

Lemma awf_step F F' s s' d e e' : awf F s -> same_index s s' -> dirs s !! d = Some e ->
  dirs s' = <[d := e']> (dirs s) -> iview_of e' = iview_of e ->
  qarc (<[d := qview_of e']> (qdirs s)) (arc_cache s') ->
  all_q (arc_cache s) ++ F ≡ₚ all_q (arc_cache s') ++ F' ->
  Z.of_nat (length (all_q (arc_cache s'))) <= 2 ^ 30 ->
  arc_c (arc_cache s') = arc_c (arc_cache s) -> awf F' s'.
Proof.
  intros [] [] He Hd Hv Hq Hp Hs Hc. constructor; try congruence.
  - unfold qdirs. by rewrite Hd, fmap_insert.
  - unfold idx, idirs. rewrite Hd, fmap_insert, Hv, insert_id by (by rewrite lookup_fmap, He).
    rewrite si_dircache0, si_didname0, si_count0. by eapply idx_perm.
  - unfold mem_ok in *. by rewrite si_mallocs0.
Qed.

Lemma awf_unqueue F s s' d l e e' : awf F s -> d ∈ get_list l (arc_cache s) -> same_index s s' ->
  dirs s !! d = Some e -> dirs s' = <[d := e']> (dirs s) -> iview_of e' = iview_of e -> qidx_node e' = false ->
  arc_eqv (del l d (arc_cache s)) (arc_cache s') -> awf (d :: F) s'.
Proof.
  intros Hw Hd Hsi He Hd' Hv Hq Ha. pose proof (sz_small F s l Hw) as Hs.
  pose proof (all_q_del _ _ _ _ (aw_q _ _ Hw) Hd Hs) as Hp.
  eapply awf_step; try done.
  - unfold qview_of. rewrite Hq, <- Ha. apply qarc_del; try done. apply Hw.
  - rewrite (all_q_eqv _ _ Ha), Hp. solve_Permutation.
  - rewrite (all_q_eqv _ _ Ha). pose proof (aw_small _ _ Hw) as Hm. rewrite Hp in Hm. cbn in Hm. lia.
  - rewrite (ae_c _ _ Ha). apply del_const.
Qed.

Lemma qarc_move qd a l l' d : qarc qd a -> d ∈ get_list l a -> sz l a < 2 ^ 62 -> sz l' a < 2 ^ 62 -> l' <> ARC_NONE ->
  qarc (<[d := (true, l', is_b l')]> qd) (ins l' d (del l d a)).
Proof.
  intros Hq Hd Hs Hs' Hn. rewrite <- (insert_insert_eq qd d (true, l', is_b l') (false, ARC_NONE, false)).
  eapply qarc_ins; [by apply qarc_del; try lia|apply lookup_insert_eq|done|].
  rewrite (sz_del qd) by done. case_decide; lia.
Qed.

Lemma awf_move F s s' d l l' e e' : awf F s -> d ∈ get_list l (arc_cache s) -> l' <> ARC_NONE -> same_index s s' ->
  dirs s !! d = Some e -> dirs s' = <[d := e']> (dirs s) -> iview_of e' = iview_of e ->
  qview_of e' = (true, l', is_b l') -> arc_eqv (ins l' d (del l d (arc_cache s))) (arc_cache s') -> awf F s'.
Proof.
  intros Hw Hd Hn Hsi He Hd' Hv Hq Ha. pose proof (sz_all l (arc_cache s)). pose proof (sz_all l' (arc_cache s)).
  pose proof (aw_small _ _ Hw) as Hs. pose proof (all_q_del _ _ _ _ (aw_q _ _ Hw) Hd (sz_small F s l Hw)) as Hp.
  assert (all_q (arc_cache s) ≡ₚ all_q (arc_cache s')) as Hp'.
  { rewrite (all_q_eqv _ _ Ha), all_q_ins by done. exact Hp. }
  eapply awf_step; try done.
  - rewrite Hq, <- Ha. apply qarc_move; try done; try lia. apply Hw.
  - by rewrite Hp'.
  - by rewrite <- Hp'.
  - rewrite (ae_c _ _ Ha). destruct (ins_const l' d (del l d (arc_cache s))) as (_ & -> & _). apply del_const.
Qed.

(** Dropping an entry in flight. *)
Lemma awf_retire F d s : awf (d :: F) s ->
  wp oom (_ ← dircache_remove d (Z.lor DIRCACHE DIDNAME_INDEX); dircache_defer_free d) s
    (fun _ s' => awf F s' /\ iframe d s s').
Proof.
  intros []. eapply wp_mono.
  { apply (retire_spec oom (all_q (arc_cache s) ++ F) (all_q (arc_cache s) ++ F)); [|done].
    eapply idx_perm; [..|exact aw_i0]; solve_Permutation. }
  intros _ s' (Hi & Hf & Hm). split; [|done]. destruct Hf.
  constructor; rewrite ?if_q0, ?if_arc0; congruence.
Qed.

(** What an ARC step leaves alone: entries outside the lists, and the keys of
    the entries that stay on them. *)
Record aframe (s s' : cstate) : Prop := {
  af_cur : curdir s' = curdir s;
  af_promoting : arc_promoting_ghost s' = arc_promoting_ghost s;
  af_c : arc_c (arc_cache s') = arc_c (arc_cache s);
  af_p : 0 <= arc_p (arc_cache s) <= arc_c (arc_cache s) -> 0 <= arc_p (arc_cache s') <= arc_c (arc_cache s');
  af_sub d : d ∈ all_q (arc_cache s') -> d ∈ all_q (arc_cache s);
  af_other d : d ∉ all_q (arc_cache s) -> dirs s' !! d = dirs s !! d;
  af_keys d : d ∈ all_q (arc_cache s') -> idirs s' !! d = idirs s !! d
}.

Lemma aframe_refl s : aframe s s.
Proof. by constructor. Qed.
Lemma aframe_trans s1 s2 s3 : aframe s1 s2 -> aframe s2 s3 -> aframe s1 s3.
Proof.
  intros H1 H2. constructor.
  - rewrite (af_cur _ _ H2). apply H1.
  - rewrite (af_promoting _ _ H2). apply H1.
  - rewrite (af_c _ _ H2). apply H1.
  - intros. by apply H2, H1.
  - intros d Hd. by apply H1, H2.
  - intros d Hd. rewrite (af_other _ _ H2); [by apply H1|]. intros Hd2. by apply Hd, H1.
  - intros d Hd. rewrite (af_keys _ _ H2) by done. by apply H1, H2.
Qed.

(** Taking an entry off its list and dropping it. *)
Lemma awf_drop F s s1 d l e e' : awf F s -> d ∈ get_list l (arc_cache s) -> same_index s s1 ->
  dirs s !! d = Some e -> dirs s1 = <[d := e']> (dirs s) -> iview_of e' = iview_of e -> qidx_node e' = false ->
  arc_eqv (del l d (arc_cache s)) (arc_cache s1) -> arc_p (arc_cache s1) = arc_p (arc_cache s) ->
  curdir s1 = curdir s -> arc_promoting_ghost s1 = arc_promoting_ghost s ->
  wp oom (_ ← dircache_remove d (Z.lor DIRCACHE DIDNAME_INDEX); dircache_defer_free d) s1
    (fun _ s' => awf F s' /\ aframe s s' /\ arc_eqv (del l d (arc_cache s)) (arc_cache s')).
Proof.
  intros Hw Hd Hsi He Hd1 Hv Hq Ha Hp Hc Hpr.
  assert (forall d', d' ∈ all_q (arc_cache s1) <-> d' <> d /\ d' ∈ all_q (arc_cache s)) as Hin.
  { intros d'. rewrite (all_q_eqv _ _ Ha). apply (elem_of_all_q_del _ _ (aw_q _ _ Hw)). done. }
  eapply wp_mono; [apply awf_retire; by eapply awf_unqueue|]. intros _ s' (Hw' & Hf). split; [done|].
  rewrite (if_arc _ _ _ Hf). split; [|done]. pose proof (if_other _ _ _ Hf) as Ho.
  assert (arc_c (arc_cache s1) = arc_c (arc_cache s)) as Hcc by (rewrite (ae_c _ _ Ha); apply del_const).
  constructor; rewrite ?(if_arc _ _ _ Hf), ?Hcc, ?Hp; try (destruct Hf; congruence).
  - intros d' Hd'. by apply Hin in Hd' as [? ?].
  - intros d' Hd'. assert (d' <> d) by (intros ->; apply Hd', elem_of_all_q; eauto).
    rewrite Ho, Hd1 by done. by apply lookup_insert_ne.
  - intros d' Hd'. apply Hin in Hd' as [? ?]. unfold idirs. rewrite !lookup_fmap, Ho, Hd1 by done.
    by rewrite lookup_insert_ne.
Qed.

Lemma size_sum F s l l' : awf F s ->
  u64(get_size l (arc_cache s) + get_size l' (arc_cache s)) = sz l (arc_cache s) + sz l' (arc_cache s).
Proof.
  intros Hw. rewrite !(qa_size _ _ (aw_q _ _ Hw)). pose proof (sz_all l (arc_cache s)). pose proof (sz_all l' (arc_cache s)).
  pose proof (aw_small _ _ Hw). pose proof (sz_nonneg l (arc_cache s)). pose proof (sz_nonneg l' (arc_cache s)).
  apply wrap_small. lia.
Qed.

Lemma get_list_same l a a' : arc_eqv a a' -> get_list l a' = get_list l a.
Proof. by intros []. Qed.

Lemma upd_size_ext l f g a : f (get_size l a) = g (get_size l a) -> upd_size l f a = upd_size l g a.
Proof.
  intros E. destruct l; cbn in *; unfold upd_t1_size, upd_t2_size, upd_b1_size, upd_b2_size; congruence.
Qed.
Lemma get_size_upd_list l l' f a : get_size l (upd_list l' f a) = get_size l a.
Proof. by destruct l, l', a. Qed.
Lemma size_pos F s l d : awf F s -> d ∈ get_list l (arc_cache s) -> 0 < get_size l (arc_cache s).
Proof.
  intros Hw Hd. rewrite (qa_size _ _ (aw_q _ _ Hw)). unfold sz.
  rewrite (q_del_perm d _ (qa_nd _ _ (aw_q _ _ Hw) l) Hd). cbn. lia.
Qed.

(** The room made among the ghosts of [l] before a cached entry joins them:
    none is needed, the list has no ghost to give up, or one goes. *)
Definition trimmed (l : arc_list_t) (promoting : option dirptr) (a a' : arc_cache_t) : Prop :=
  (arc_eqv a a' /\ (sz ARC_B1 a + sz ARC_B2 a < arc_c a \/ get_list l a = [] \/
     exists g, promoting = Some g /\ get_list l a = [g])) \/
  (exists g, g ∈ get_list l a /\ promoting <> Some g /\ arc_eqv (del l g a) a').

Lemma trim_candidate_None q skip : arc_ghost_trim_candidate q skip = None ->
  q = [] \/ exists g, skip = Some g /\ q = [g].
Proof.
  destruct q as [|g q]; cbn; [by left|]. case_bool_decide as E; [|done].
  destruct q; [|done]. right. by exists g.
Qed.
Lemma trim_candidate_Some q skip g : NoDup q -> arc_ghost_trim_candidate q skip = Some g -> g ∈ q /\ skip <> Some g.
Proof.
  destruct q as [|g0 q]; cbn; [done|]. case_bool_decide as E; intros Hnd Hg.
  - destruct q as [|g1 q]; [done|]. injection Hg as ->. rewrite !NoDup_cons in Hnd. subst skip.
    split; [set_solver|]. intros [= ->]. set_solver.
  - injection Hg as ->. split; [set_solver|]. congruence.
Qed.

Lemma ensure_ghost_capacity_spec F s l : awf F s -> is_b l = true ->
  wp oom (arc_ensure_ghost_capacity l) s (fun _ s' => awf F s' /\ aframe s s' /\
    trimmed l (arc_promoting_ghost s) (arc_cache s) (arc_cache s')).
Proof.
  intros Hw Hb. unfold arc_ensure_ghost_capacity. wsteps.
  rewrite (size_sum F s ARC_B1 ARC_B2 Hw : u64(b1_size _ + b2_size _) = _). case_test.
  { wsteps. split_and!; [done|apply aframe_refl|]. left. split; [done|by left]. }
  wsteps. destruct (arc_ghost_trim_candidate _ _) as [g|] eqn:Eg.
  2: { wsteps. apply trim_candidate_None in Eg. split_and!; [done|apply aframe_refl|]. left. split; [done|by right]. }
  apply trim_candidate_Some in Eg as [Hg Hsk]; [|eapply qa_nd, Hw].
  destruct (aw_entry F s g l Hw Hg) as (e & He & Hqe & Hl & _).
  wsteps. unfold queue_remove_node. wsteps.
  eapply wp_mono; [eapply (awf_drop F s _ g l e)|]; try done.
  all: try (cbn; rewrite (remove_node_list _ _ (aw_q _ _ Hw) g l Hg)).
  - rewrite (upd_size_ext l _ dec); [done|]. rewrite get_size_upd_list.
    pose proof (size_pos F s l g Hw Hg). by destruct (Z.ltb_spec 0 (get_size l (arc_cache s))); [|lia].
  - by destruct l, (arc_cache s).
  - intros _ s' (? & ? & ?). split_and!; [done|done|]. right. eauto.
Qed.

(** Moving an entry from one list to another. *)
Lemma awf_move_frame F s s' d l l' e e' : awf F s -> d ∈ get_list l (arc_cache s) -> l' <> ARC_NONE -> same_index s s' ->
  dirs s !! d = Some e -> dirs s' = <[d := e']> (dirs s) -> iview_of e' = iview_of e ->
  qview_of e' = (true, l', is_b l') -> arc_eqv (ins l' d (del l d (arc_cache s))) (arc_cache s') ->
  arc_p (arc_cache s') = arc_p (arc_cache s) ->
  curdir s' = curdir s -> arc_promoting_ghost s' = arc_promoting_ghost s -> awf F s' /\ aframe s s'.
Proof.
  intros Hw Hd Hn Hsi He Hd' Hv Hq Ha Hp Hc Hpr. split; [by eapply awf_move|].
  assert (forall d', d' ∈ all_q (arc_cache s') <-> d' ∈ all_q (arc_cache s)) as Hall.
  { intros d'. rewrite (all_q_eqv _ _ Ha), all_q_ins by done.
    by rewrite <- (all_q_del _ _ _ _ (aw_q _ _ Hw) Hd (sz_small F s l Hw)). }
  assert (arc_c (arc_cache s') = arc_c (arc_cache s)) as Hcc.
  { rewrite (ae_c _ _ Ha). destruct (ins_const l' d (del l d (arc_cache s))) as (_ & -> & _). apply del_const. }
  constructor; rewrite ?Hcc, ?Hp; try done.
  - intros d'. apply Hall.
  - intros d' Hd2. rewrite Hd'. apply lookup_insert_ne. intros ->. apply Hd2, elem_of_all_q. eauto.
  - intros d' _. unfold idirs. rewrite Hd', fmap_insert, Hv, insert_id; [done|]. by rewrite lookup_fmap, He.
Qed.

(** The least recently used entry of a list other than curdir. *)
Definition victim_of (cur : option dirptr) (q : list dirptr) : option dirptr :=
  head (filter (fun x => Some x <> cur) q).

Lemma victim_of_Some cur q v : victim_of cur q = Some v -> v ∈ q /\ cur <> Some v.
Proof.
  unfold victim_of. intros Hv%head_Some_elem_of. apply list_elem_of_filter in Hv as [? ?]. naive_solver.
Qed.
Lemma victim_of_None cur q : NoDup q -> victim_of cur q = None -> (length q <= 1)%nat /\
  (forall v, v ∈ q -> cur = Some v).
Proof.
  unfold victim_of. intros Hnd Hh%head_None.
  assert (forall v, v ∈ q -> cur = Some v) as Hc.
  { intros v Hv. destruct (decide (Some v = cur)); [done|]. assert (v ∈ filter (fun x => Some x <> cur) q) as Hin.
    { by apply list_elem_of_filter. } rewrite Hh in Hin. set_solver. }
  split; [|done]. destruct q as [|v [|w q]]; cbn; try lia.
  rewrite !NoDup_cons in Hnd. pose proof (Hc v ltac:(set_solver)). pose proof (Hc w ltac:(set_solver)).
  assert (v = w) as -> by congruence. set_solver.
Qed.

Lemma find_victim_spec F s l : awf F s ->
  wp oom (arc_find_victim (get_list l (arc_cache s)) (get_size l (arc_cache s))) s (fun r s' => s' = s /\
    r = victim_of (curdir s) (get_list l (arc_cache s))).
Proof.
  intros Hw. pose proof (qa_nd _ _ (aw_q _ _ Hw) l) as Hnd. pose proof (aw_entry F s) as Hen.
  rewrite (qa_size _ _ (aw_q _ _ Hw)). unfold sz, victim_of.
  destruct (get_list l (arc_cache s)) as [|v q] eqn:Eq; [apply wp_ret; auto|].
  cbn [arc_find_victim]. destruct (Z.eqb_spec (Z.of_nat (length (v :: q))) 0) as [|_]; [cbn in *; lia|].
  destruct (Hen v l Hw) as (e & He & Hqe & _); [rewrite Eq; set_solver|].
  wsteps. rewrite Hqe. cbn [negb]. wsteps. case_bool_decide as Ec.
  2: { wsteps. split; [done|]. by rewrite filter_cons_True. }
  rewrite filter_cons_False by auto.
  destruct q as [|w q]; [apply wp_ret; eauto|].
  destruct (Z.ltb_spec (Z.of_nat (length (v :: w :: q))) 2) as [|_]; [cbn in *; lia|].
  destruct (Hen w l Hw) as (e2 & He2 & Hqe2 & _); [rewrite Eq; set_solver|].
  wsteps. rewrite Hqe2. cbn [negb orb]. rewrite !NoDup_cons in Hnd.
  case_bool_decide as Ec2; wsteps; [|split; [done|]; by rewrite filter_cons_True].
  rewrite <- Ec in Ec2. injection Ec2 as ->. set_solver.
Qed.

(** The lists after [v] of [src] becomes a ghost of [dst]. *)
Definition evicted_to (v : dirptr) (src dst : arc_list_t) (promoting : option dirptr) (a a' : arc_cache_t) : Prop :=
  exists a1, trimmed dst promoting a a1 /\ arc_eqv (ins dst v (del src v a1)) a'.

Lemma evict_to_ghost_spec F s v src dst : awf F s -> v ∈ get_list src (arc_cache s) -> is_b src = false -> is_b dst = true ->
  wp oom (arc_evict_to_ghost v src dst) s (fun _ s' => awf F s' /\ aframe s s' /\
    evicted_to v src dst (arc_promoting_ghost s) (arc_cache s) (arc_cache s')).
Proof.
  intros Hw Hv Hsrc Hdst. unfold arc_evict_to_ghost. wsteps.
  eapply wp_mono; [by apply (ensure_ghost_capacity_spec F)|]. intros _ s1 (Hw1 & Hf1 & Ht).
  assert (v ∈ get_list src (arc_cache s1)) as Hv1.
  { assert (src <> dst) by (intros ->; congruence). destruct Ht as [[Ha _]|(g & _ & _ & Ha)]; rewrite (get_list_same _ _ _ Ha); [done|].
    rewrite get_list_del, decide_False by congruence. done. }
  destruct (aw_entry F s1 v src Hw1 Hv1) as (e & He & Hqe & Hl & Hg).
  assert (dst <> ARC_NONE) by (intros ->; done).
  unfold move_to_tail_of. wsteps.
  assert (forall st, arc_eqv (ins dst v (del src v (arc_cache s1)))
    (upd_size dst inc (upd_size src dec (upd_stats st
       (upd_list dst (fun q => q ++ [v]) (upd_list src (q_del v) (arc_cache s1))))))) as Ha.
  { intros st. destruct src, dst, (arc_cache s1); try done; by constructor. }
  match goal with |- awf F ?s' /\ _ => destruct (awf_move_frame F s1 s' v src dst e
    (upd_arc_list (fun _ => dst) (upd_d_flags (fun f => Z.lor f DIRF_ARC_GHOST) (upd_ea_cached (fun _ => false) e)))) as [Hw2 Hf2] end;
    try done.
  - unfold iview_of, is_file; cbn. by rewrite !has_lor_other.
  - unfold qview_of, is_ghost; cbn. by rewrite has_lor_self, Hqe, Hdst.
  - apply Ha.
  - cbn. by destruct src, dst, (arc_cache s1).
  - split_and!; [done|by eapply aframe_trans|]. exists (arc_cache s1). split; [done|apply Ha].
Qed.

(** What REPLACE evicts: from T1 when it exceeds the target size [p], or meets
    it on a B2 hit, else from T2; from the other list when the first has only
    curdir to give. *)
Definition t1_first (in_b2 : bool) (a : arc_cache_t) : bool :=
  (1 <=? sz ARC_T1 a) && ((in_b2 && (sz ARC_T1 a =? arc_p a)) || (arc_p a <? sz ARC_T1 a)).
Definition replace_choice (in_b2 : bool) (cur : option dirptr) (a : arc_cache_t) :
    option (dirptr * arc_list_t * arc_list_t) :=
  let of1 := (fun v => (v, ARC_T1, ARC_B1)) <$> victim_of cur (t1 a) in
  let of2 := (fun v => (v, ARC_T2, ARC_B2)) <$> victim_of cur (t2 a) in
  if t1_first in_b2 a then of1 ∪ of2 else of2 ∪ of1.

Definition replaced (in_b2 : bool) (s s' : cstate) : Prop :=
  match replace_choice in_b2 (curdir s) (arc_cache s) with
  | Some (v, src, dst) => evicted_to v src dst (arc_promoting_ghost s) (arc_cache s) (arc_cache s')
  | None => arc_cache s' = arc_cache s
  end.

Lemma replace_from_spec F s l1 g1 l2 g2 : awf F s ->
  is_b l1 = false -> is_b l2 = false -> is_b g1 = true -> is_b g2 = true ->
  wp oom (arc_replace_from l1 g1 l2 g2 (get_size l1) (get_size l2)) s (fun r s' => awf F s' /\ aframe s s' /\
    match ((fun v => (v, l1, g1)) <$> victim_of (curdir s) (get_list l1 (arc_cache s))) ∪
          ((fun v => (v, l2, g2)) <$> victim_of (curdir s) (get_list l2 (arc_cache s))) with
    | Some (v, src, dst) => r = true /\
        evicted_to v src dst (arc_promoting_ghost s) (arc_cache s) (arc_cache s')
    | None => r = false /\ s' = s
    end).
Proof.
  intros Hw H1 H2 H3 H4. unfold arc_replace_from. wsteps.
  eapply wp_mono; [by apply (find_victim_spec F)|]. intros r1 s1 [-> ->].
  destruct (victim_of (curdir s) (get_list l1 _)) as [v|] eqn:E1; cbn.
  { apply victim_of_Some in E1 as [Hv _]. rewrite union_Some_l. wsteps.
    eapply wp_mono; [by eapply evict_to_ghost_spec|]. intros _ s' (? & ? & ?). wsteps. done. }
  rewrite (left_id_L None (∪)). wsteps. eapply wp_mono; [by apply (find_victim_spec F)|]. intros r2 s2 [-> ->].
  destruct (victim_of (curdir s) (get_list l2 _)) as [v|] eqn:E2; cbn.
  - apply victim_of_Some in E2 as [Hv _]. wsteps.
    eapply wp_mono; [by eapply evict_to_ghost_spec|]. intros _ s' (? & ? & ?). wsteps. done.
  - wsteps. split_and!; [done|apply aframe_refl|done|done].
Qed.

Lemma replace_spec F s in_b2 : awf F s ->
  wp oom (arc_replace in_b2) s (fun _ s' => awf F s' /\ aframe s s' /\ replaced in_b2 s s').
Proof.
  intros Hw. unfold arc_replace, replaced, replace_choice, t1_first. wsteps.
  change (t1_size (arc_cache s)) with (get_size ARC_T1 (arc_cache s)).
  rewrite (qa_size _ _ (aw_q _ _ Hw)). case_test.
  - eapply wp_mono; [by apply (replace_from_spec F s ARC_T1 ARC_B1 ARC_T2 ARC_B2)|].
    intros r s' (Hw' & Hf & Hm). split_and!; try done. cbn in Hm.
    destruct (_ ∪ _) as [[[v src] dst]|]; [by destruct Hm|]. by destruct Hm as [_ ->].
  - eapply wp_mono; [by apply (replace_from_spec F s ARC_T2 ARC_B2 ARC_T1 ARC_B1)|].
    intros r s' (Hw' & Hf & Hm). split_and!; try done. cbn in Hm.
    destruct (_ ∪ _) as [[[v src] dst]|]; [by destruct Hm|]. by destruct Hm as [_ ->].
Qed.

(** How REPLACE changes the length of a cache list [x] and of its ghost list
    [y], when [w] is the length of the other ghost list. *)
Definition shifted (c x y w x' y' : Z) (only : Prop) : Prop :=
  x' = x - 1 /\ 1 <= x /\ (y' = y \/ (y' = y + 1 /\ (y + w < c \/ y = 0 \/ (y = 1 /\ only)))).

Definition replaced_sizes (a a' : arc_cache_t) (pr : option dirptr) : Prop :=
  let only l := exists g, pr = Some g /\ g ∈ get_list l a in
  ((forall l, sz l a' = sz l a) /\ sz ARC_T1 a + sz ARC_T2 a <= 1) \/
  (shifted (arc_c a) (sz ARC_T1 a) (sz ARC_B1 a) (sz ARC_B2 a) (sz ARC_T1 a') (sz ARC_B1 a') (only ARC_B1) /\
     sz ARC_T2 a' = sz ARC_T2 a /\ sz ARC_B2 a' = sz ARC_B2 a) \/
  (shifted (arc_c a) (sz ARC_T2 a) (sz ARC_B2 a) (sz ARC_B1 a) (sz ARC_T2 a') (sz ARC_B2 a') (only ARC_B2) /\
     sz ARC_T1 a' = sz ARC_T1 a /\ sz ARC_B1 a' = sz ARC_B1 a).

Lemma trimmed_qarc qd a a1 l pr : qarc qd a -> sz l a < 2 ^ 63 -> trimmed l pr a a1 ->
  exists qd1, qarc qd1 a1 /\ forall l', (l' <> l -> get_list l' a1 = get_list l' a) /\
    (forall d, pr = Some d -> d ∈ get_list l' a -> d ∈ get_list l' a1).
Proof.
  intros Hq Hs [[Ha _]|(g & Hg & Hne & Ha)].
  - exists qd. split; [by rewrite <- Ha|]. intros l'. by rewrite (get_list_same _ _ _ Ha).
  - exists (<[g := (false, ARC_NONE, false)]> qd). split; [rewrite <- Ha; by apply qarc_del|].
    intros l'. rewrite (get_list_same _ _ _ Ha), get_list_del. split.
    + intros. by rewrite decide_False.
    + intros d -> Hd. case_decide; [|done]. rewrite elem_of_q_del. split; [congruence|done].
Qed.

Lemma trimmed_sz qd a a1 l pr : qarc qd a -> trimmed l pr a a1 ->
  (sz l a1 = sz l a - 1 \/ (sz l a1 = sz l a /\ (sz ARC_B1 a + sz ARC_B2 a < arc_c a \/ sz l a = 0 \/
    (sz l a = 1 /\ exists g, pr = Some g /\ g ∈ get_list l a)))) /\ forall l', l' <> l -> sz l' a1 = sz l' a.
Proof.
  intros Hq [[Ha Hwhy]|(g & Hg & Hne & Ha)].
  - split; [|intros; by apply sz_eqv]. right. split; [by apply sz_eqv|].
    destruct Hwhy as [?|[El|(g & -> & El)]]; [by left|right|right].
    + left. unfold sz. by rewrite El.
    + right. unfold sz. rewrite El. split; [done|]. exists g. set_solver.
  - split; [left|intros l' ?]; rewrite (sz_eqv _ _ _ Ha), (sz_del qd) by done; by case_decide.
Qed.

Lemma evicted_sz qd a a' v l g pr : qarc qd a -> sz g a < 2 ^ 63 -> v ∈ get_list l a -> is_b l = false -> is_b g = true ->
  evicted_to v l g pr a a' ->
  sz l a' = sz l a - 1 /\ 1 <= sz l a /\
  (sz g a' = sz g a \/ (sz g a' = sz g a + 1 /\ (sz ARC_B1 a + sz ARC_B2 a < arc_c a \/ sz g a = 0 \/
    (sz g a = 1 /\ exists x, pr = Some x /\ x ∈ get_list g a)))) /\
  forall l', l' <> l -> l' <> g -> sz l' a' = sz l' a.
Proof.
  intros Hq Hs Hv Hl Hg (a1 & Ht & Ha). destruct (trimmed_qarc _ _ _ _ _ Hq Hs Ht) as (qd1 & Hq1 & Hlist).
  destruct (trimmed_sz _ _ _ _ _ Hq Ht) as (Hsg & Hso).
  assert (l <> g) by (intros ->; congruence). assert (g <> ARC_NONE) by (intros ->; done).
  assert (v ∈ get_list l a1) as Hv1 by (rewrite (proj1 (Hlist l)); done).
  assert (forall l', sz l' a' = sz l' a1 + (if decide (g = l') then 1 else 0) - (if decide (l = l') then 1 else 0)) as Hsz.
  { intros l'. rewrite (sz_eqv _ _ _ Ha), sz_ins, (sz_del qd1) by done. do 2 case_decide; lia. }
  assert (1 <= sz l a) by (unfold sz; rewrite (q_del_perm v _ (qa_nd _ _ Hq l) Hv); cbn; lia).
  split_and!; [|done| |].
  - rewrite Hsz, (decide_False _ _ (P := g = l)), decide_True, Hso by done. lia.
  - rewrite Hsz, decide_True, decide_False by done. destruct Hsg as [?|[? ?]]; [left; lia|right]. split; [lia|done].
  - intros l' ? ?. rewrite Hsz, !decide_False, Hso by done. lia.
Qed.

Lemma replace_choice_list in_b2 cur a v l g : replace_choice in_b2 cur a = Some (v, l, g) ->
  ((l = ARC_T1 /\ g = ARC_B1) \/ (l = ARC_T2 /\ g = ARC_B2)) /\ v ∈ get_list l a /\ cur <> Some v.
Proof.
  unfold replace_choice.
  destruct (victim_of cur (t1 a)) as [v1|] eqn:E1, (victim_of cur (t2 a)) as [v2|] eqn:E2, (t1_first in_b2 a); cbn;
    intros [= <- <- <-]; (split; [auto|by apply victim_of_Some]).
Qed.

Lemma replaced_counts F in_b2 s s' : awf F s -> replaced in_b2 s s' ->
  replaced_sizes (arc_cache s) (arc_cache s') (arc_promoting_ghost s).
Proof.
  intros Hw Hr. unfold replaced in Hr. destruct (replace_choice _ _ _) as [[[v l] g]|] eqn:E.
  - apply replace_choice_list in E as (Hlg & Hv & _). right.
    destruct Hlg as [[-> ->]|[-> ->]]; [left|right];
      (eapply evicted_sz in Hr; [|by apply Hw|by eapply sz_small|done|done|done]);
      destruct Hr as (? & ? & ? & Ho); unfold shifted.
    + rewrite (Ho ARC_T2), (Ho ARC_B2) by done. split_and!; try done.
    + rewrite (Ho ARC_T1), (Ho ARC_B1) by done. split_and!; try done.
      rewrite (Z.add_comm (sz ARC_B2 _) (sz ARC_B1 _)). done.
  - left. rewrite Hr. split; [done|]. unfold replace_choice in E.
    destruct (victim_of _ (t1 _)) eqn:E1, (victim_of _ (t2 _)) eqn:E2, (t1_first _ _); try done.
    all: pose proof (qa_nd _ _ (aw_q _ _ Hw)) as Hnd.
    all: apply (victim_of_None _ _ (Hnd ARC_T1)) in E1 as [H1 H1']; apply (victim_of_None _ _ (Hnd ARC_T2)) in E2 as [H2 H2'].
    all: unfold sz; cbn in *; destruct (t1 (arc_cache s)) as [|x [|??]] eqn:Et1, (t2 (arc_cache s)) as [|y [|??]] eqn:Et2; cbn in *; try lia.
    all: assert (x = y) as -> by (pose proof (H1' x ltac:(set_solver)); pose proof (H2' y ltac:(set_solver)); congruence).
    all: assert (ARC_T1 = ARC_T2) by (eapply (qa_unique _ _ (aw_q _ _ Hw) y); cbn; rewrite ?Et1, ?Et2; set_solver); done.
Qed.

(** REPLACE keeps curdir on its list, and the ghost being promoted on its. *)
Lemma replaced_keeps F in_b2 s s' d l : awf F s -> replaced in_b2 s s' -> d ∈ get_list l (arc_cache s) ->
  curdir s = Some d /\ is_b l = false \/ arc_promoting_ghost s = Some d /\ is_b l = true ->
  d ∈ get_list l (arc_cache s').
Proof.
  intros Hw Hr Hd Hwhy. unfold replaced in Hr. destruct (replace_choice _ _ _) as [[[v src] dst]|] eqn:E; [|by rewrite Hr].
  apply replace_choice_list in E as (Hlg & Hv & Hne). destruct Hr as (a1 & Ht & Ha).
  assert (is_b src = false /\ is_b dst = true) as [Hsrc Hdst] by (destruct Hlg as [[-> ->]|[-> ->]]; done).
  destruct (trimmed_qarc _ _ _ _ _ (aw_q _ _ Hw) (sz_small _ _ _ Hw) Ht) as (qd1 & Hq1 & Hlist).
  rewrite (get_list_same _ _ _ Ha), get_list_ins, get_list_del by (intros ->; done).
  destruct Hwhy as [[Hc Hb]|[Hp Hb]].
  - rewrite decide_False by congruence. rewrite (proj1 (Hlist l)) by congruence.
    case_decide; [|done]. rewrite elem_of_q_del. split; [congruence|done].
  - rewrite (decide_False (P := src = l)) by congruence. pose proof (proj2 (Hlist l) d Hp Hd).
    case_decide; [|done]. rewrite elem_of_app. by left.
Qed.

(** Moving a ghost to the cache keeps the bounds, after the REPLACE before it. *)
Lemma promoted_bnd a a1 a' d src qd : qarc qd a1 -> bnd a -> replaced_sizes a a1 (Some d) -> d ∈ get_list src a1 -> d ∈ get_list src a ->
  is_b src = true -> arc_c a1 = arc_c a ->
  arc_eqv (ins ARC_T2 d (del src d a1)) a' -> 0 <= arc_p a' <= arc_c a -> bnd a'.
Proof.
  intros Hq [] Hr Hd Hd0 Hb Hc Ha Hp'.
  assert (forall l, sz l a' = sz l a1 + (if decide (ARC_T2 = l) then 1 else 0) - (if decide (src = l) then 1 else 0)) as Hsz.
  { intros l. rewrite (sz_eqv _ _ _ Ha), sz_ins, (sz_del qd) by done. do 2 case_decide; lia. }
  assert (arc_c a' = arc_c a) as Hc'.
  { rewrite (ae_c _ _ Ha), <- Hc. destruct (ins_const ARC_T2 d (del src d a1)) as (_ & -> & _). apply del_const. }
  assert (1 <= sz src a).
  { unfold sz. assert (get_list src a <> []) as Hne by (intros En; rewrite En in Hd0; set_solver).
    destruct (get_list src a); [done|]. cbn. lia. }
  pose proof (sz_nonneg ARC_T1 a). pose proof (sz_nonneg ARC_T2 a). pose proof (sz_nonneg ARC_B1 a). pose proof (sz_nonneg ARC_B2 a).
  unfold replaced_sizes, shifted in Hr.
  constructor; rewrite ?Hsz, ?Hc'; try done;
    (destruct src; try done; decides;
     destruct Hr as [[Hr ?]|[(Hr & ? & ?)|(Hr & ? & ?)]]; rewrite ?Hr; lia).
Qed.

(** A cached curdir stays cached. *)
Definition cur_kept (s s' : cstate) : Prop :=
  forall x, curdir s = Some x -> x ∈ t1 (arc_cache s) ++ t2 (arc_cache s) -> x ∈ t1 (arc_cache s') ++ t2 (arc_cache s').

Lemma promote_ghost_spec F s d src in_b2 : awf F s -> bnd (arc_cache s) -> d ∈ get_list src (arc_cache s) ->
  is_b src = true -> arc_promoting_ghost s = None ->
  wp oom (promote_ghost d src in_b2) s (fun _ s' => awf F s' /\ aframe s s' /\ bnd (arc_cache s') /\
    d ∈ t2 (arc_cache s') /\ cur_kept s s').
Proof.
  intros Hw Hbnd Hd Hb Hpr. unfold promote_ghost. wsteps.
  set (s0 := upd_arc_promoting_ghost _ s). assert (awf F s0) as Hw0 by (by destruct Hw).
  eapply wp_mono; [by apply (replace_spec F)|]. intros r s1 (Hw1 & Hf1 & Hr).
  pose proof (replaced_counts F _ _ _ Hw0 Hr) as Hsz. cbn [arc_promoting_ghost s0 upd_arc_promoting_ghost] in Hsz.
  assert (d ∈ get_list src (arc_cache s1)) as Hd1 by (eapply (replaced_keeps F in_b2 s0); auto).
  destruct (aw_entry F s1 d src Hw1 Hd1) as (e & He & Hqe & Hl & Hg).
  unfold move_to_tail_of. wsteps.
  match goal with |- awf F ?s' /\ _ => set (s2 := s') end.
  assert (arc_eqv (ins ARC_T2 d (del src d (arc_cache s1))) (arc_cache s2)) as Ha
    by (subst s2; cbn; destruct src, in_b2, (arc_cache s1); try done; by constructor).
  assert (arc_p (arc_cache s2) = arc_p (arc_cache s1)) as Hp by (subst s2; cbn; by destruct src, in_b2, (arc_cache s1)).
  destruct (awf_move_frame F s1 (upd_arc_promoting_ghost (fun _ => Some d) s2) d src ARC_T2 e
    (upd_arc_list (fun _ => ARC_T2) (upd_d_flags (fun f => Z.ldiff f DIRF_ARC_GHOST) e))) as [Hw2 Hf2]; try done.
  - unfold iview_of, is_file; cbn. by rewrite !has_ldiff_other.
  - unfold qview_of, is_ghost; cbn. by rewrite has_ldiff_self, Hqe.
  - by rewrite (af_promoting _ _ Hf1).
  - split_and!.
    + by destruct Hw2.
    + pose proof (aframe_trans _ _ _ Hf1 Hf2) as []. by constructor.
    + by eapply (promoted_bnd (arc_cache s) (arc_cache s1)); [apply Hw1|..]; try done; [apply Hf1|rewrite Hp; change (arc_c (arc_cache s)) with (arc_c (arc_cache s0)); rewrite <- (af_c _ _ Hf1); apply Hf1, Hbnd].
    + rewrite (ae_list _ _ Ha ARC_T2 : t2 (arc_cache s2) = _). rewrite get_list_ins by done. decides. set_solver.
    + intros x Hx Hin. rewrite elem_of_app in *.
      rewrite (ae_list _ _ Ha ARC_T1 : t1 (arc_cache s2) = _), (ae_list _ _ Ha ARC_T2 : t2 (arc_cache s2) = _).
      rewrite !get_list_ins, !get_list_del by done. rewrite !(decide_False (P := src = _)) by (intros ->; done).
      decides. destruct Hin as [Hin|Hin]; [left|right; rewrite elem_of_app; left];
        [eapply (replaced_keeps F in_b2 s0 s1 x ARC_T1)|eapply (replaced_keeps F in_b2 s0 s1 x ARC_T2)]; auto.
Qed.

(** A hit on [d]: it is the most recently used entry of T2. *)
Definition hit_done F d (s s' : cstate) : Prop :=
  awf F s' /\ aframe s s' /\ bnd (arc_cache s') /\ d ∈ t2 (arc_cache s') /\ cur_kept s s'.

Lemma case_i_spec F s d l : awf F s -> bnd (arc_cache s) -> d ∈ get_list l (arc_cache s) -> is_b l = false ->
  wp oom (arc_case_i d) s (fun _ s' => hit_done F d s s').
Proof.
  intros Hw Hbnd Hd Hb. destruct (aw_entry F s d l Hw Hd) as (e & He & Hqe & Hl & Hg).
  assert (l <> ARC_NONE) as Hnone by (eapply qa_none; [apply Hw|exact Hd]).
  unfold arc_case_i. wsteps. rewrite Hqe, Hl. cbn [negb].
  assert (forall s', same_index s s' -> dirs s' = <[d := upd_arc_list (fun _ => ARC_T2) e]> (dirs s) ->
    arc_eqv (ins ARC_T2 d (del l d (arc_cache s))) (arc_cache s') -> arc_p (arc_cache s') = arc_p (arc_cache s) ->
    curdir s' = curdir s -> arc_promoting_ghost s' = arc_promoting_ghost s -> hit_done F d s s') as Hall.
  { intros s' Hsi Hds Ha Hp Hc Hpr.
    destruct (awf_move_frame F s s' d l ARC_T2 e (upd_arc_list (fun _ => ARC_T2) e)) as [Hw2 Hf2]; try done.
    { unfold qview_of. cbn. by rewrite Hqe, (Hg : is_ghost (upd_arc_list _ e) = _), Hb. }
    assert (forall l', sz l' (arc_cache s') = sz l' (arc_cache s) + (if decide (ARC_T2 = l') then 1 else 0) - (if decide (l = l') then 1 else 0)) as Hsz.
    { intros l'. rewrite (sz_eqv _ _ _ Ha), sz_ins, (sz_del _ _ (aw_q _ _ Hw)) by done. do 2 case_decide; lia. }
    split_and!; [done|done| | |].
    - destruct Hbnd. pose proof (sz_nonneg ARC_T1 (arc_cache s)).
      constructor; rewrite ?Hsz, ?(af_c _ _ Hf2), ?Hp; try done; (destruct l; try done; decides; try lia).
    - rewrite (ae_list _ _ Ha ARC_T2 : t2 _ = _), get_list_ins by done. decides. set_solver.
    - intros x Hx Hin. rewrite elem_of_app in *.
      rewrite (ae_list _ _ Ha ARC_T1 : t1 _ = _), (ae_list _ _ Ha ARC_T2 : t2 _ = _), !get_list_ins, !get_list_del by done.
      destruct (decide (x = d)) as [->|]; [right; decides; set_solver|].
      destruct l; try done; decides; cbn [get_list]; rewrite ?elem_of_app, ?elem_of_q_del; destruct Hin; auto. }
  destruct (bool_decide_reflect (l = ARC_T1)) as [->|Hne]; unfold move_to_tail_of; wsteps; apply Hall; try done.
  destruct l; try done. assert (0 < t2_size (arc_cache s) < 2 ^ 63) as Hs.
  { split; [by eapply (size_pos F s ARC_T2)|]. rewrite (qa_size _ _ (aw_q _ _ Hw) ARC_T2 : t2_size _ = _). by eapply sz_small. }
  cbn. destruct (arc_cache s). cbn in *. constructor; try done. intros [| | | |]; cbn; try done. unfold inc, dec.
  rewrite (wrap_small _ (_ - 1)) by lia. rewrite wrap_small; lia.
Qed.

Lemma adapt_bounds num den : 0 <= num <= 2 ^ 30 -> 0 <= den <= 2 ^ 30 -> 1 <= adapt_delta num den <= 2 ^ 30.
Proof.
  intros Hn Hd. unfold adapt_delta. repeat case_test; try lia. split; [lia|]. apply Z.div_le_upper_bound; nia.
Qed.

Lemma awf_adapt F s s' : awf F s -> bnd (arc_cache s) -> same_index s s' -> dirs s' = dirs s ->
  arc_eqv (arc_cache s) (arc_cache s') -> 0 <= arc_p (arc_cache s') <= arc_c (arc_cache s) ->
  curdir s' = curdir s -> arc_promoting_ghost s' = arc_promoting_ghost s ->
  awf F s' /\ bnd (arc_cache s') /\ aframe s s'.
Proof.
  intros [] [] [] Hd Ha Hp Hc Hpr. pose proof (all_q_eqv _ _ Ha) as Eq. split_and!.
  - constructor; unfold idx, idirs, qdirs, mem_ok in *; rewrite ?Eq, ?Hd, ?(ae_c _ _ Ha); try congruence.
    by rewrite <- Ha.
  - constructor; rewrite ?(ae_c _ _ Ha), ?(sz_eqv _ _ _ Ha); done.
  - constructor; unfold idirs; rewrite ?Eq, ?(ae_c _ _ Ha), ?Hd; done.
Qed.

Lemma hit_done_frame F d s s0 s' : aframe s s0 -> arc_eqv (arc_cache s) (arc_cache s0) ->
  awf F s' /\ aframe s0 s' /\ bnd (arc_cache s') /\ d ∈ t2 (arc_cache s') /\ cur_kept s0 s' -> hit_done F d s s'.
Proof.
  intros Hf Ha (? & ? & ? & ? & Hk). split_and!; try done; [by eapply aframe_trans|].
  intros x Hx Hin. apply Hk; [by rewrite (af_cur _ _ Hf)|].
  by rewrite (ae_list _ _ Ha ARC_T1 : t1 _ = _), (ae_list _ _ Ha ARC_T2 : t2 _ = _).
Qed.

(** The target size moves up on a B1 hit and down on a B2 hit, and stays in
    [0, c]. *)
Definition p_after (in_b2 : bool) (a : arc_cache_t) : Z :=
  if in_b2 then Z.max 0 (arc_p a - adapt_delta (sz ARC_B1 a) (sz ARC_B2 a))
  else Z.min (arc_c a) (arc_p a + adapt_delta (sz ARC_B2 a) (sz ARC_B1 a)).

Lemma small_size F s l : awf F s -> 0 <= get_size l (arc_cache s) <= 2 ^ 30.
Proof.
  intros Hw. rewrite (qa_size _ _ (aw_q _ _ Hw)). pose proof (sz_nonneg l (arc_cache s)).
  pose proof (sz_all l (arc_cache s)). pose proof (aw_small _ _ Hw). lia.
Qed.

Lemma p_after_range F in_b2 s : awf F s -> bnd (arc_cache s) -> 0 <= p_after in_b2 (arc_cache s) <= arc_c (arc_cache s).
Proof.
  intros Hw []. unfold p_after. rewrite <- !(qa_size _ _ (aw_q _ _ Hw)).
  pose proof (small_size F s ARC_B1 Hw) as H1. pose proof (small_size F s ARC_B2 Hw) as H2.
  pose proof (adapt_bounds _ _ H1 H2). pose proof (adapt_bounds _ _ H2 H1). unfold MAX_DIRCACHE_SIZE in *.
  destruct in_b2; lia.
Qed.

Lemma case_ii_spec F s d : awf F s -> bnd (arc_cache s) -> d ∈ b1 (arc_cache s) -> arc_promoting_ghost s = None ->
  wp oom (arc_case_ii_adapt_and_replace d) s (fun _ s' => hit_done F d s s').
Proof.
  intros Hw Hbnd Hd Hpr. destruct (aw_entry F s d ARC_B1 Hw Hd) as (e & He & Hqe & Hl & Hg).
  pose proof (p_after_range F false s Hw Hbnd) as Hp. pose proof (bn_c _ Hbnd). pose proof (bn_p _ Hbnd). unfold p_after in Hp.
  rewrite <- (qa_size _ _ (aw_q _ _ Hw) ARC_B1), <- (qa_size _ _ (aw_q _ _ Hw) ARC_B2) in Hp.
  pose proof (adapt_bounds _ _ (small_size F s ARC_B2 Hw) (small_size F s ARC_B1 Hw)) as Hdelta. cbn [get_size] in *.
  unfold arc_case_ii_adapt_and_replace. wsteps. apply wp_assert; [by apply bool_decide_eq_true|]. wsteps.
  apply wp_assert; [exact Hg|]. wsteps. rewrite Hqe. cbn [negb].
  unfold MAX_DIRCACHE_SIZE in *. rewrite wrap_small by lia.
  apply wp_when; intros _; wsteps; match goal with |- wp _ _ ?s0 _ => set (s1 := s0) end;
    (destruct (awf_adapt F s s1) as (Hw1 & Hb1 & Hf1); try done; [|eapply wp_mono;
      [by apply (promote_ghost_spec F s1 d ARC_B1)|intros [] s'; by apply hit_done_frame]]);
    subst s1; cbn; case_test; lia.
Qed.

Lemma case_iii_spec F s d : awf F s -> bnd (arc_cache s) -> d ∈ b2 (arc_cache s) -> arc_promoting_ghost s = None ->
  wp oom (arc_case_iii_adapt_and_replace d) s (fun _ s' => hit_done F d s s').
Proof.
  intros Hw Hbnd Hd Hpr. destruct (aw_entry F s d ARC_B2 Hw Hd) as (e & He & Hqe & Hl & Hg).
  pose proof (bn_p _ Hbnd) as Hp.
  pose proof (adapt_bounds _ _ (small_size F s ARC_B1 Hw) (small_size F s ARC_B2 Hw)) as Hdelta. cbn [get_size] in *.
  unfold arc_case_iii_adapt_and_replace. wsteps. apply wp_assert; [by apply bool_decide_eq_true|]. wsteps.
  apply wp_assert; [exact Hg|]. wsteps. rewrite Hqe. cbn [negb].
  apply wp_when; intros _; wsteps; match goal with |- wp _ _ ?s0 _ => set (s1 := s0) end;
    (destruct (awf_adapt F s s1) as (Hw1 & Hb1 & Hf1); try done; [|eapply wp_mono;
      [by apply (promote_ghost_spec F s1 d ARC_B2)|intros [] s'; by apply hit_done_frame]]);
    subst s1; cbn; case_test; lia.
Qed.

(** ** Making room for a new entry *)

Lemma drop_lru_ghost_spec F s l : awf F s -> is_b l = true ->
  wp oom (drop_lru_ghost l) s (fun _ s' => awf F s' /\ aframe s s' /\
    match get_list l (arc_cache s) with
    | [] => arc_cache s' = arc_cache s
    | g :: _ => arc_eqv (del l g (arc_cache s)) (arc_cache s')
    end).
Proof.
  intros Hw Hb. unfold drop_lru_ghost. wsteps. pose proof (qa_nd _ _ (aw_q _ _ Hw) l) as Hnd.
  destruct (get_list l (arc_cache s)) as [|g q] eqn:Eq; [wsteps; split_and!; [done|apply aframe_refl|done]|].
  assert (g ∈ get_list l (arc_cache s)) as Hg by (rewrite Eq; set_solver).
  destruct (aw_entry F s g l Hw Hg) as (e & He & Hqe & Hl & _). wsteps.
  assert (upd_list l (fun _ => q) (arc_cache s) = upd_list l (q_del g) (arc_cache s)) as El.
  { rewrite <- (q_del_head g q Hnd). destruct l, (arc_cache s); cbn in *; try done; by subst. }
  eapply awf_drop; try done; cbn; rewrite El; [done|]. by destruct l, (arc_cache s).
Qed.

(** Room for one more entry in T1, the bounds kept; and the state REPLACE
    makes it from. *)
Definition room (k : Z) (a : arc_cache_t) : Prop :=
  2 <= arc_c a <= MAX_DIRCACHE_SIZE /\ 0 <= arc_p a <= arc_c a /\
  sz ARC_T1 a + sz ARC_T2 a + k <= arc_c a /\ sz ARC_T1 a + sz ARC_B1 a < arc_c a /\
  sz ARC_T1 a + sz ARC_T2 a + sz ARC_B1 a + sz ARC_B2 a < 2 * arc_c a /\
  sz ARC_B1 a + sz ARC_B2 a <= arc_c a + 1 /\ sz ARC_B2 a <= arc_c a.

Lemma replaced_room a a' : room 0 a -> replaced_sizes a a' None -> arc_c a' = arc_c a -> 0 <= arc_p a' <= arc_c a' -> room 1 a'.
Proof.
  unfold room, replaced_sizes, shifted. intros (? & ? & ? & ? & ? & ? & ?) Hr Hc Hp. rewrite Hc in *. cbv zeta beta in Hr. sizes a.
  assert (forall l, ~ exists g, None = Some g /\ g ∈ get_list l a) as Hno by naive_solver.
  destruct Hr as [[Hr ?]|[(Hr & ? & ?)|(Hr & ? & ?)]]; [rewrite !Hr; lia| |];
    destruct Hr as (? & ? & [?|(? & [?|[?|[_ Hg]]])]); try lia; by destruct (Hno _ Hg).
Qed.

(** At most [n] entries fewer are cached and at most [m] fewer queued. *)
Definition lost (n m : Z) (a a' : arc_cache_t) : Prop :=
  sz ARC_T1 a + sz ARC_T2 a <= sz ARC_T1 a' + sz ARC_T2 a' + n /\
  sz ARC_T1 a + sz ARC_T2 a + sz ARC_B1 a + sz ARC_B2 a <= sz ARC_T1 a' + sz ARC_T2 a' + sz ARC_B1 a' + sz ARC_B2 a' + m.

Lemma replaced_lost a a' pr : replaced_sizes a a' pr -> lost 1 1 a a'.
Proof.
  unfold lost, replaced_sizes, shifted. cbv zeta beta.
  intros [[Hr ?]|[(Hr & ? & ?)|(Hr & ? & ?)]]; [rewrite !Hr; lia| |];
    destruct Hr as (? & ? & [?|(? & _)]); lia.
Qed.

Lemma make_room_replace F s : awf F s -> room 0 (arc_cache s) -> arc_promoting_ghost s = None ->
  wp oom (_ ← arc_replace false; mret tt) s (fun _ s' => awf F s' /\ aframe s s' /\ room 1 (arc_cache s') /\
    cur_kept s s' /\ lost 1 1 (arc_cache s) (arc_cache s')).
Proof.
  intros Hw Hr Hpr. wsteps. eapply wp_mono; [by apply (replace_spec F)|]. intros r s1 (Hw1 & Hf1 & Hr1).
  wsteps. split_and!; [done|done| | |by eapply replaced_lost, replaced_counts].
  - eapply replaced_room; [done|rewrite <- Hpr; by eapply replaced_counts|by apply Hf1|]. apply Hf1, Hr.
  - intros x Hx Hin. rewrite elem_of_app in *. destruct Hin as [Hin|Hin]; [left|right];
      [apply (replaced_keeps F _ _ _ x ARC_T1 Hw Hr1)|apply (replaced_keeps F _ _ _ x ARC_T2 Hw Hr1)]; auto.
Qed.

Lemma drop_room F (s s' : cstate) l g : awf F s -> g ∈ get_list l (arc_cache s) -> arc_eqv (del l g (arc_cache s)) (arc_cache s') ->
  forall l', sz l' (arc_cache s') = sz l' (arc_cache s) - (if decide (l = l') then 1 else 0).
Proof. intros Hw Hg Ha l'. rewrite (sz_eqv _ _ _ Ha), (sz_del _ _ (aw_q _ _ Hw)) by done. case_decide; lia. Qed.

Lemma drop_cur_kept F (s s' : cstate) l g : awf F s -> g ∈ get_list l (arc_cache s) -> arc_eqv (del l g (arc_cache s)) (arc_cache s') ->
  curdir s <> Some g \/ is_b l = true -> cur_kept s s'.
Proof.
  intros Hw Hg Ha Hwhy x Hx Hin. rewrite elem_of_app in *.
  rewrite (ae_list _ _ Ha ARC_T1 : t1 _ = _), (ae_list _ _ Ha ARC_T2 : t2 _ = _), !get_list_del.
  repeat case_decide; subst; rewrite ?elem_of_q_del; cbn; try (destruct Hwhy; [|done]); destruct Hin; auto.
  all: try (left; split; [congruence|done]); try (right; split; [congruence|done]).
Qed.

Lemma cur_kept_trans s1 s2 s3 : curdir s2 = curdir s1 -> cur_kept s1 s2 -> cur_kept s2 s3 -> cur_kept s1 s3.
Proof. intros Hc H1 H2 x Hx Hin. apply H2; [congruence|]. by apply H1. Qed.

(** Deleting the LRU ghost of [l], then REPLACE. *)
Lemma drop_and_replace F s l : awf F s -> is_b l = true -> arc_promoting_ghost s = None -> get_list l (arc_cache s) <> [] ->
  (forall a', (forall l', sz l' a' = sz l' (arc_cache s) - (if decide (l = l') then 1 else 0)) ->
     arc_c a' = arc_c (arc_cache s) -> 0 <= arc_p a' <= arc_c a' -> room 0 a') ->
  0 <= arc_p (arc_cache s) <= arc_c (arc_cache s) ->
  wp oom (drop_lru_ghost l) s (fun _ s1 => wp oom (_ ← arc_replace false; mret tt) s1 (fun _ s' =>
    awf F s' /\ aframe s s' /\ room 1 (arc_cache s') /\ cur_kept s s' /\ lost 1 2 (arc_cache s) (arc_cache s'))).
Proof.
  intros Hw Hb Hpr Hne Hroom Hp. eapply wp_mono; [by apply (drop_lru_ghost_spec F)|]. intros _ s1 (Hw1 & Hf1 & Ha).
  destruct (get_list l (arc_cache s)) as [|g q] eqn:Eq; [done|].
  assert (g ∈ get_list l (arc_cache s)) as Hg by (rewrite Eq; set_solver).
  eapply wp_mono; [apply (make_room_replace F s1 Hw1)|].
  - apply Hroom; [by eapply drop_room|by apply Hf1|by apply Hf1].
  - by rewrite (af_promoting _ _ Hf1).
  - intros _ s2 (Hw2 & Hf2 & Hr2 & Hk2 & Hl2). split_and!; [done|by eapply aframe_trans|done| |].
    + eapply cur_kept_trans; [by apply Hf1| |done]. eapply drop_cur_kept; eauto.
    + pose proof (drop_room F s s1 l g Hw Hg Ha) as Hsz. destruct Hl2 as [Hl2 Hl3]. unfold lost.
      pose proof (Hsz ARC_T1). pose proof (Hsz ARC_T2). pose proof (Hsz ARC_B1). pose proof (Hsz ARC_B2). repeat case_decide; subst; try done; lia.
Qed.

(** T1 alone fills the cache: its least recently used entry other than curdir
    goes, ghost and all. *)
Lemma delete_t1_spec F s (m : dirptr -> M unit) : awf F s -> bnd (arc_cache s) -> sz ARC_T1 (arc_cache s) = arc_c (arc_cache s) ->
  (forall v, v ∈ t1 (arc_cache s) -> curdir s <> Some v -> wp oom (m v) s (fun _ s' => awf F s' /\ aframe s s' /\
     arc_eqv (del ARC_T1 v (arc_cache s)) (arc_cache s'))) ->
  wp oom (victim ← arc_find_victim (t1 (arc_cache s)) (t1_size (arc_cache s));
          victim ← match victim with
                   | Some v => mret (Some v)
                   | None => arc_find_victim (t2 (arc_cache s)) (t2_size (arc_cache s))
                   end;
          match victim with None => mret tt | Some v => m v end) s
    (fun _ s' => awf F s' /\ aframe s s' /\ room 1 (arc_cache s') /\ cur_kept s s' /\ lost 1 2 (arc_cache s) (arc_cache s')).
Proof.
  intros Hw Hbnd Hfull Hm. wsteps. eapply wp_mono; [by apply (find_victim_spec F s ARC_T1)|]. intros r s1 [-> ->].
  cbn [get_list]. destruct (victim_of _ _) as [v|] eqn:Ev.
  2: { apply victim_of_None in Ev as [Hlen _]; [|apply (qa_nd _ _ (aw_q _ _ Hw) ARC_T1)].
       unfold sz in Hfull. cbn in Hfull. destruct Hbnd. lia. }
  apply victim_of_Some in Ev as [Hv Hcur]. wsteps. eapply wp_mono; [by apply Hm|]. intros _ s' (Hw' & Hf & Ha).
  pose proof (drop_room F s s' ARC_T1 v Hw Hv Ha) as Hsz.
  split_and!; [done|done| |by eapply (drop_cur_kept F s s' ARC_T1); eauto|unfold lost; rewrite !Hsz; decides; lia].
  destruct Hbnd. sizes (arc_cache s).
  unfold room. rewrite !Hsz, (af_c _ _ Hf). decides.
  assert (0 <= arc_p (arc_cache s') <= arc_c (arc_cache s)) by (rewrite <- (af_c _ _ Hf); by apply Hf). lia.
Qed.

Lemma make_room_spec F s : awf F s -> bnd (arc_cache s) -> arc_promoting_ghost s = None ->
  wp oom arc_case_iv_make_room s (fun _ s' => awf F s' /\ aframe s s' /\ room 1 (arc_cache s') /\ cur_kept s s' /\
    lost 1 2 (arc_cache s) (arc_cache s')).
Proof.
  intros Hw Hbnd Hpr. unfold arc_case_iv_make_room. wsteps. pose proof Hbnd as Hbnd'. destruct Hbnd'. sizes (arc_cache s).
  rewrite (size_sum F s ARC_T1 ARC_B1 Hw : u64(t1_size _ + b1_size _) = _).
  rewrite (size_sum F s ARC_T2 ARC_B2 Hw : u64(t2_size _ + b2_size _) = _).
  unfold MAX_DIRCACHE_SIZE in *. rewrite !(wrap_small 64) by lia.
  assert (forall l, get_list l (arc_cache s) = [] -> sz l (arc_cache s) = 0) as Hnil by (intros l El; unfold sz; by rewrite El).
  case_test; [|case_test].
  - rewrite (qa_size _ _ (aw_q _ _ Hw) ARC_T1 : t1_size _ = _). case_test.
    + wsteps. apply (drop_and_replace F s ARC_B1); try done.
      { intros El%Hnil. lia. }
      intros a' Hsz Hc Hp. unfold room, MAX_DIRCACHE_SIZE. rewrite !Hsz, Hc in *. decides. lia.
    + rewrite <- (qa_size _ _ (aw_q _ _ Hw) ARC_T1 : t1_size _ = _).
      apply (delete_t1_spec F s); [done|done|lia|]. intros v Hv Hcur.
      destruct (aw_entry F s v ARC_T1 Hw Hv) as (e & He & Hqe & Hl & _).
      unfold queue_remove_node. wsteps. eapply wp_get_dir; [apply lookup_insert_eq|]. wsteps.
      eapply awf_drop; try done; cbn; rewrite Hl, (remove_node_list _ _ (aw_q _ _ Hw) v ARC_T1 Hv); [done|].
      by destruct (arc_cache s).
  - wsteps. apply wp_when; intros E2; bool_cases.
    + apply (drop_and_replace F s ARC_B2); try done.
      { intros El%Hnil. lia. }
      intros a' Hsz Hc Hp. unfold room, MAX_DIRCACHE_SIZE. rewrite !Hsz, Hc in *. decides. lia.
    + eapply wp_mono; [apply make_room_replace; [done| |done]; unfold room, MAX_DIRCACHE_SIZE; lia|].
      intros _ s' (? & ? & ? & ? & [? ?]). split_and!; try done. split; lia.
  - apply andb_false_iff in E0. wsteps. split_and!; [done|apply aframe_refl| |by intros ? ?|split; lia].
    unfold room, MAX_DIRCACHE_SIZE. destruct E0; bool_cases; lia.
Qed.

(** Nothing is dropped while the queues hold fewer than [c] entries. *)
Lemma make_room_idle F s : awf F s -> bnd (arc_cache s) -> Z.of_nat (length (all_q (arc_cache s))) < arc_c (arc_cache s) ->
  wp oom arc_case_iv_make_room s (fun _ s' => s' = s).
Proof.
  intros Hw [] Hlt. rewrite length_all_q in Hlt. unfold arc_case_iv_make_room. wsteps. sizes (arc_cache s).
  rewrite (size_sum F s ARC_T1 ARC_B1 Hw : u64(t1_size _ + b1_size _) = _).
  rewrite (size_sum F s ARC_T2 ARC_B2 Hw : u64(t2_size _ + b2_size _) = _).
  unfold MAX_DIRCACHE_SIZE in *. rewrite !(wrap_small 64) by lia.
  case_test; [lia|]. case_test; [lia|]. by wsteps.
Qed.

(** Inserting the new entry at the most recently used end of T1. *)
Lemma case_iv_insert_spec F s d e : awf (d :: F) s -> room 1 (arc_cache s) -> dirs s !! d = Some e ->
  qidx_node e = false -> is_ghost e = false ->
  wp oom (arc_case_iv_insert d) s (fun _ s' => awf F s' /\ bnd (arc_cache s') /\ t1 (arc_cache s') = t1 (arc_cache s) ++ [d] /\
    t2 (arc_cache s') = t2 (arc_cache s) /\ all_q (arc_cache s') ≡ₚ d :: all_q (arc_cache s) /\
    curdir s' = curdir s /\ arc_promoting_ghost s' = arc_promoting_ghost s /\ idirs s' = idirs s /\
    forall d', d' <> d -> dirs s' !! d' = dirs s !! d').
Proof.
  intros Hw Hr He Hqe Hg. unfold arc_case_iv_insert. pose proof (aw_m _ _ Hw) as Hm. wsteps.
  destruct b; cbn [negb]; wsteps; [|naive_solver]. unfold track_peak. wsteps.
  match goal with |- awf F ?s' /\ _ => set (s2 := s') end.
  assert (arc_cache s2 = ins ARC_T1 d (arc_cache s)) as Ha by (subst s2; cbn; by destruct (arc_cache s)).
  destruct Hr as (Hc & Hp & ? & ? & ? & ? & ?). sizes (arc_cache s).
  pose proof (all_q_ins (arc_cache s) ARC_T1 d ltac:(done)) as Hall. pose proof (length_all_q (arc_cache s)).
  unfold MAX_DIRCACHE_SIZE in *.
  pose (e' := upd_qidx_node (fun _ => true) (upd_arc_list (fun _ => ARC_T1) e)).
  assert (idirs s2 = idirs s) as Hid.
  { unfold idirs. subst s2. cbn. rewrite fmap_insert. apply insert_id. by rewrite lookup_fmap, He. }
  split_and!; try done; try (rewrite Ha; by destruct (arc_cache s)).
  - assert (awf (d :: F) (upd_mallocs (fun _ => mallocs s2) s)) as Hw' by (destruct Hw; by constructor).
    eapply (awf_step _ _ _ s2 d e e'); [exact Hw'|..]; try done; rewrite ?Ha; cbn.
    + replace (qview_of e') with (true, ARC_T1, is_b ARC_T1)
        by (unfold qview_of; cbn; by rewrite (Hg : is_ghost e' = _)).
      apply (qarc_ins _ _ (aw_q _ _ Hw) ARC_T1 d (arc_list e) false); [|done|lia].
      unfold qdirs. rewrite lookup_fmap, He. cbn. unfold qview_of. by rewrite Hqe, Hg.
    + rewrite Hall. solve_Permutation.
    + rewrite Hall. cbn. lia.
  - assert (forall l, sz l (arc_cache s2) = sz l (arc_cache s) + if decide (ARC_T1 = l) then 1 else 0) as Hsz.
    { intros l. rewrite Ha, sz_ins by done. case_decide; lia. }
    destruct (ins_const ARC_T1 d (arc_cache s)) as (_ & Ec & Ep).
    constructor; rewrite ?Hsz, ?Ha, ?Ec, ?Ep; unfold MAX_DIRCACHE_SIZE; decides; lia.
  - intros d' Hd'. subst s2. cbn. by rewrite lookup_insert_ne.
Qed.

End Arc.
