(* ===== verification/DircacheFacts.v ===== *)
(** * Correctness of the directory cache

    The invariant of the whole cache, in LRU and in ARC mode, and what
    [dircache_add], the hits, [dircache_remove] with its deferred release,
    [dircache_evict] and [dircache_purge_vol] do to it. *)

From S2P Require Import Prelude HashTable Dircache DircacheIndex DircacheArc.

Section Cache.
Context {T1 T2 : Type} {HO1 : HashOps T1 (Z * Z) dirptr} {HO2 : HashOps T2 (Z * Z * list Z) dirptr}.
Context {HL1 : HashLaws T1 (Z * Z) dirptr} {HL2 : HashLaws T2 (Z * Z * list Z) dirptr}.
Notation cstate := (@cstate T1 T2).

Definition arc_mode (s : cstate) : bool := enabled (arc_cache s).

(** The entries on a queue, and those of them that are cached. *)
Definition queued (s : cstate) : list dirptr := if arc_mode s then all_q (arc_cache s) else index_queue s.
Definition cached (s : cstate) : list dirptr :=
  if arc_mode s then t1 (arc_cache s) ++ t2 (arc_cache s) else index_queue s.

Section Facts.
Context (oom : Prop).

(** The cache in LRU mode; [F] holds the entries in flight. *)
Record lwf (F : list dirptr) (s : cstate) : Prop := {
  lw_off : arc_mode s = false;
  lw_in d : d ∈ index_queue s <-> exists l g, qdirs s !! d = Some (true, l, g);
  lw_ghost d l g : qdirs s !! d = Some (true, l, g) -> g = false;
  lw_nd : NoDup (index_queue s);
  lw_i : idx (index_queue s ++ F) (index_queue s ++ F) s;
  lw_m : mem_ok oom s;
  lw_count : queue_count s = Z.of_nat (length (index_queue s));
  lw_max : MIN_DIRCACHE_SIZE <= dircache_maxsize s <= MAX_DIRCACHE_SIZE;
  lw_len : queue_count s <= dircache_maxsize s;
  lw_max1 : h_max (dircache s) = dircache_maxsize s;
  lw_max2 : h_max (index_didname s) = dircache_maxsize s
}.

Definition wf (F : list dirptr) (s : cstate) : Prop :=
  if arc_mode s then awf oom F s /\ bnd (arc_cache s) /\ arc_promoting_ghost s = None else lwf F s.

Lemma queued_arc s : arc_mode s = true -> queued s = all_q (arc_cache s).
Proof. unfold queued. by intros ->. Qed.
Lemma queued_lru s : arc_mode s = false -> queued s = index_queue s.
Proof. unfold queued. by intros ->. Qed.
Lemma cached_arc s : arc_mode s = true -> cached s = t1 (arc_cache s) ++ t2 (arc_cache s).
Proof. unfold cached. by intros ->. Qed.
Lemma cached_lru s : arc_mode s = false -> cached s = index_queue s.
Proof. unfold cached. by intros ->. Qed.
Lemma wf_arc F s : wf F s -> arc_mode s = true -> awf oom F s /\ bnd (arc_cache s) /\ arc_promoting_ghost s = None.
Proof. unfold wf. by intros Hw Em; rewrite Em in Hw. Qed.
Lemma wf_lru F s : wf F s -> arc_mode s = false -> lwf F s.
Proof. unfold wf. by intros Hw Em; rewrite Em in Hw. Qed.

Lemma wf_idx F s : wf F s -> idx (queued s ++ F) (queued s ++ F) s.
Proof. unfold wf, queued. destruct (arc_mode s); [intros [[] _]|intros []]; done. Qed.
Lemma wf_mem F s : wf F s -> mem_ok oom s.
Proof. unfold wf. destruct (arc_mode s); [intros [[] _]|intros []]; done. Qed.
Lemma wf_nodup F s : wf F s -> NoDup (queued s).
Proof. intros Hw%wf_idx. pose proof (idx_nd1 _ _ _ _ _ _ Hw) as Hnd. by apply NoDup_app in Hnd as [? _]. Qed.
Lemma cached_queued s d : d ∈ cached s -> d ∈ queued s.
Proof. unfold cached, queued, all_q. destruct (arc_mode s); [set_solver|done]. Qed.

Lemma cached_nodup F s : wf F s -> NoDup (cached s).
Proof.
  intros Hnd%wf_nodup. unfold cached, queued, all_q in *. destruct (arc_mode s); [|done].
  rewrite (assoc_L (++)) in Hnd. by apply NoDup_app in Hnd as [? _].
Qed.

(** The queue flag of an entry says whether it is queued. *)
Lemma wf_qidx F s d e : wf F s -> dirs s !! d = Some e -> qidx_node e = true <-> d ∈ queued s.
Proof.
  unfold wf, queued. intros Hw He. assert (qdirs s !! d = Some (qview_of e)) as Hq by (unfold qdirs; by rewrite lookup_fmap, He).
  destruct (arc_mode s).
  - destruct Hw as [Hw _]. rewrite elem_of_all_q. split.
    + intros Hqe. exists (arc_list e). eapply (qa_out _ _ (aw_q _ _ _ Hw)). rewrite Hq. unfold qview_of. by rewrite Hqe.
    + intros [l Hl]. apply (qa_in _ _ (aw_q _ _ _ Hw)) in Hl. rewrite Hq in Hl. by injection Hl.
  - rewrite (lw_in _ _ Hw), Hq. unfold qview_of. split; [intros ->; eauto|]. intros (l & g & E). by injection E.
Qed.

Lemma wf_entry F s d : wf F s -> d ∈ queued s -> exists e, dirs s !! d = Some e /\ qidx_node e = true.
Proof.
  intros Hw Hd. destruct (idx_entry _ _ _ d (wf_idx _ _ Hw)) as [e He]; [set_solver|].
  exists e. split; [done|]. by eapply wf_qidx.
Qed.

(** Steps on the indexes of one entry. *)
Lemma queued_iframe d s s' : iframe d s s' -> queued s' = queued s /\ cached s' = cached s /\ arc_mode s' = arc_mode s.
Proof. intros []. unfold queued, cached, arc_mode. by rewrite if_arc, if_queue. Qed.

Lemma wf_iframe F F' d s s' : wf F s -> iframe d s s' -> idx (queued s ++ F') (queued s ++ F') s' -> mem_ok oom s' -> wf F' s'.
Proof.
  intros Hw Hf Hi Hm. destruct (queued_iframe _ _ _ Hf) as (Eq & _ & Em). rewrite <- Eq in Hi. unfold wf, queued in *.
  rewrite Em in *. destruct Hf, (arc_mode s).
  - destruct Hw as ([] & ? & ?). split_and!; try congruence. constructor; rewrite ?if_arc, ?if_q; congruence.
  - destruct Hw. constructor; unfold qdirs in *; rewrite ?if_queue, ?if_q, ?if_count, ?if_max, ?if_max1, ?if_max2; try congruence; done.
Qed.

(** What the steps leave alone. *)
Record dframe (s s' : cstate) : Prop := {
  df_mode : arc_mode s' = arc_mode s;
  df_sub d : d ∈ queued s' -> d ∈ queued s;
  df_other d : d ∉ queued s -> dirs s' !! d = dirs s !! d;
  df_keys d : d ∈ queued s' -> idirs s' !! d = idirs s !! d;
  df_max : dircache_maxsize s' = dircache_maxsize s
}.
Lemma dframe_refl s : dframe s s.
Proof. by constructor. Qed.
Lemma dframe_trans s1 s2 s3 : dframe s1 s2 -> dframe s2 s3 -> dframe s1 s3.
Proof.
  intros H1 H2. constructor.
  - rewrite (df_mode _ _ H2). apply H1.
  - intros d Hd. by apply H1, H2.
  - intros d Hd. rewrite (df_other _ _ H2); [by apply H1|]. intros Hd2. by apply Hd, H1.
  - intros d Hd. rewrite (df_keys _ _ H2) by done. by apply H1, H2.
  - rewrite (df_max _ _ H2). apply H1.
Qed.

(** ** Removal *)

Lemma bnd_del qd a a' l d : qarc qd a -> bnd a -> d ∈ get_list l a -> arc_eqv (del l d a) a' -> arc_p a' = arc_p a -> bnd a'.
Proof.
  intros Hq [] Hd Ha Hp. pose proof (sz_nonneg l a).
  assert (forall l', sz l' a' = sz l' a - if decide (l = l') then 1 else 0) as Hsz.
  { intros l'. rewrite (sz_eqv _ _ _ Ha), (sz_del _ _ Hq) by done. case_decide; lia. }
  constructor; rewrite ?(ae_c _ _ Ha), ?(proj1 (proj2 (del_const l d a))), ?Hsz, ?Hp; try done;
    repeat case_decide; lia.
Qed.

Lemma q_del_length_le d (q : list dirptr) : (length (q_del d q) <= length q)%nat.
Proof. apply length_filter. Qed.

(** The entry leaves its queue. *)
Definition unqueued (d : dirptr) (s s' : cstate) : Prop :=
  wf [d] s' /\ dframe s s' /\ queued s ≡ₚ d :: queued s' /\
  (forall x, x <> d -> x ∈ cached s -> x ∈ cached s') /\ curdir s' = curdir s.

Lemma remove_queue_index_arc s d : wf [] s -> d ∈ queued s -> arc_mode s = true ->
  wp oom (remove_queue_index d) s (fun _ s' => unqueued d s s').
Proof.
  intros Hw Hd Em. destruct (wf_entry _ _ _ Hw Hd) as (e & He & Hqe). unfold remove_queue_index. wsteps.
  rewrite (Em : enabled _ = _), Hqe. cbn [when]. rewrite (queued_arc s) in Hd by done.
  destruct (wf_arc _ _ Hw Em) as (Hwa & Hb & Hpr). apply elem_of_all_q in Hd as [l Hl].
  destruct (aw_entry _ _ _ _ _ Hwa Hl) as (e' & He' & _ & Hel & _). rewrite He in He'. injection He' as <-. rewrite Hel.
  unfold queue_remove_node. wsteps. match goal with |- unqueued d s ?s' => set (s2 := s') end.
  assert (arc_cache s2 = del l d (arc_cache s)) as Ha.
  { subst s2. cbn. by rewrite (remove_node_list _ _ (aw_q _ _ _ Hwa) d l Hl). }
  assert (arc_mode s2 = true) as Em2 by (unfold arc_mode; rewrite Ha, (proj1 (del_const l d _)); done).
  assert (all_q (arc_cache s) ≡ₚ d :: all_q (arc_cache s2)) as Hp.
  { rewrite Ha. eapply all_q_del; [apply Hwa|done|by eapply sz_small]. }
  unfold unqueued, wf. rewrite !queued_arc, !cached_arc, Em2 by done. split_and!; try done.
  - eapply (awf_unqueue oom [] s s2 d l e); try done; rewrite ?Ha; done.
  - eapply (bnd_del _ (arc_cache s)); [apply Hwa|done|done|by rewrite Ha|]. rewrite Ha. apply del_const.
  - constructor; rewrite ?queued_arc by done; try congruence.
    + intros x Hx. rewrite Hp. set_solver.
    + intros x Hx. cbn. apply lookup_insert_ne. intros ->. apply Hx, elem_of_all_q. eauto.
    + intros x Hx. unfold idirs. cbn. rewrite !lookup_fmap, lookup_insert_ne; [done|].
      intros ->. pose proof (wf_nodup _ _ Hw) as Hnd. rewrite queued_arc, Hp, NoDup_cons in Hnd by done. by destruct Hnd.
    + done.
  - intros x Hx. rewrite !elem_of_app, Ha.
    change (t1 (del l d (arc_cache s))) with (get_list ARC_T1 (del l d (arc_cache s))).
    change (t2 (del l d (arc_cache s))) with (get_list ARC_T2 (del l d (arc_cache s))).
    rewrite !get_list_del. repeat case_decide; subst; rewrite ?elem_of_q_del; cbn [get_list]; tauto.
Qed.

(** The same in LRU mode, for [dircache_remove] and for eviction alike. *)
Lemma lru_unqueue s s2 d e : wf [] s -> arc_mode s = false -> d ∈ index_queue s -> dirs s !! d = Some e ->
  same_index s s2 -> arc_mode s2 = false -> dirs s2 = <[d := upd_qidx_node (fun _ => false) e]> (dirs s) ->
  index_queue s2 = q_del d (index_queue s) -> queue_count s2 = dec (queue_count s) -> curdir s2 = curdir s ->
  unqueued d s s2.
Proof.
  intros Hw Em Hd He Hsi Em2 Hd2 Hq2 Hc2 Hcur. destruct (wf_lru _ _ Hw Em), Hsi.
  pose proof (q_del_perm d _ lw_nd0 Hd) as Hp.
  assert (length (index_queue s) = S (length (q_del d (index_queue s)))) as Hlen by (rewrite Hp at 1; done).
  unfold MIN_DIRCACHE_SIZE, MAX_DIRCACHE_SIZE in *. unfold dec in Hc2. rewrite wrap_small in Hc2 by lia.
  assert (idirs s2 = idirs s) as Hid.
  { unfold idirs. rewrite Hd2, fmap_insert. apply insert_id. by rewrite lookup_fmap, He. }
  unfold unqueued, wf. rewrite !queued_lru, !cached_lru, Em2, ?Hq2 by done. split_and!; try done.
  - constructor; unfold MIN_DIRCACHE_SIZE, MAX_DIRCACHE_SIZE; rewrite ?Hq2, ?Hc2, ?si_max; try congruence; try lia.
    + intros x. rewrite elem_of_q_del, lw_in0. unfold qdirs. rewrite Hd2, fmap_insert.
      destruct (decide (x = d)) as [->|]; [rewrite lookup_insert_eq|rewrite lookup_insert_ne by done]; naive_solver.
    + intros x l g. unfold qdirs. rewrite Hd2, fmap_insert, lookup_insert_Some. intros [[_ [=]]|[_ E]]. eauto.
    + by apply NoDup_filter.
    + unfold idx. rewrite Hid, si_dircache, si_didname, si_count. rewrite app_nil_r in lw_i0.
      eapply idx_perm; [..|exact lw_i0]; rewrite Hp at 1; solve_Permutation.
    + unfold mem_ok in *. by rewrite si_mallocs.
  - constructor; rewrite ?queued_lru, ?Hq2 by done; try congruence.
    + intros x [_ Hx]%elem_of_q_del. done.
    + intros x Hx. rewrite Hd2. apply lookup_insert_ne. intros ->. done.
  - intros x Hx Hin. apply elem_of_q_del. done.
Qed.

Lemma remove_queue_index_spec s d : wf [] s -> d ∈ queued s ->
  wp oom (remove_queue_index d) s (fun _ s' => unqueued d s s').
Proof.
  intros Hw Hd. destruct (arc_mode s) eqn:Em; [by apply remove_queue_index_arc|].
  destruct (wf_entry _ _ _ Hw Hd) as (e & He & Hqe). rewrite queued_lru in Hd by done. unfold remove_queue_index. wsteps.
  rewrite (Em : enabled _ = _), Hqe. cbn [when]. unfold queue_remove_node. wsteps. eapply lru_unqueue; done.
Qed.

(** The entry is gone from the queues and from both indexes. *)
Definition dropped (d : dirptr) (s s' : cstate) : Prop :=
  wf [] s' /\ dframe s s' /\ queued s ≡ₚ d :: queued s' /\
  (forall x, x <> d -> x ∈ cached s -> x ∈ cached s') /\ curdir s' = curdir s.

Lemma dframe_iframe d s s1 s2 : dframe s s1 -> iframe d s1 s2 -> d ∈ queued s -> d ∉ queued s1 -> dframe s s2.
Proof.
  intros [] Hf Hd Hn. destruct (queued_iframe _ _ _ Hf) as (Eq & _ & Em). pose proof (if_other _ _ _ Hf) as Ho.
  constructor; rewrite ?Eq, ?Em; try done.
  - intros x Hx. rewrite Ho; [auto|]. by intros ->.
  - intros x Hx. unfold idirs in *. rewrite <- df_keys0, !lookup_fmap, Ho; [done| |done]. by intros ->.
  - by rewrite (if_max _ _ _ Hf).
Qed.

Lemma unqueued_notin d s s1 : unqueued d s s1 -> d ∉ queued s1.
Proof.
  intros (Hw & _ & _). pose proof (idx_nd1 _ _ _ _ _ _ (wf_idx _ _ Hw)) as Hnd.
  apply NoDup_app in Hnd as (_ & Hno & _). intros Hd. apply (Hno d Hd). set_solver.
Qed.

Lemma unqueued_dropped d s s1 s2 : unqueued d s s1 -> d ∈ queued s -> reindexed oom d (queued s1) (queued s1) s1 s2 -> dropped d s s2.
Proof.
  intros Hu Hd (Hi & Hf & Hm). pose proof (unqueued_notin _ _ _ Hu) as Hn. destruct Hu as (Hw & Hdf & Hp & Hk & Hc).
  destruct (queued_iframe _ _ _ Hf) as (Eq & Ec & _). unfold dropped. rewrite Eq, Ec. split_and!; try done.
  - eapply wf_iframe; [done|done| |done]. by rewrite app_nil_r.
  - by eapply dframe_iframe.
  - by rewrite (if_cur _ _ _ Hf).
Qed.

Lemma reindexed_trans d X1 X2 Y1 Y2 s1 s2 s3 : reindexed oom d X1 X2 s1 s2 -> reindexed oom d Y1 Y2 s2 s3 -> reindexed oom d Y1 Y2 s1 s3.
Proof. intros (_ & ? & _) (? & ? & ?). split_and!; [done|by eapply iframe_trans|done]. Qed.

Lemma iframe_entry d s s' e : iframe d s s' -> dirs s !! d = Some e -> exists e', dirs s' !! d = Some e'.
Proof.
  intros Hf He. pose proof (if_q _ _ _ Hf) as Eq. apply (f_equal (fun m => m !! d)) in Eq.
  unfold qdirs in Eq. rewrite !lookup_fmap, He in Eq. destruct (dirs s' !! d); [eauto|done].
Qed.

Lemma remove_all_spec d flags s : wf [] s -> d ∈ queued s -> flags ∈ [DIRCACHE_ALL; Z.lor DIRCACHE_ALL DIRCACHE_NOSHRINK] ->
  wp oom (dircache_remove d flags) s (fun _ s2 => exists s1, unqueued d s s1 /\ reindexed oom d (queued s1) (queued s1) s1 s2).
Proof.
  intros Hw Hd Hflags. pose proof (wf_idx _ _ Hw) as Hi. rewrite app_nil_r in Hi.
  pose proof (q_del_perm d _ (wf_nodup _ _ Hw) Hd) as Hp. set (X := q_del d (queued s)) in *.
  assert (forall s1, unqueued d s s1 -> queued s1 ≡ₚ X) as HX.
  { intros s1 (_ & _ & Hp1 & _). apply (Permutation_cons_inv (a := d)). by rewrite <- Hp1. }
  eapply wp_mono; [apply (dircache_remove_spec oom X X d flags s (unqueued d s))|].
  1-4: by set_unfold in Hflags; destruct Hflags as [->|[->|[]]].
  - by eapply idx_perm.
  - apply wp_when; intros Hq; [|by set_unfold in Hflags; destruct Hflags as [->|[->|[]]]].
    eapply wp_mono; [by apply remove_queue_index_spec|]. intros [] s1 Hu. split_and!; [done| |by destruct Hu as (?%wf_mem & _)].
    pose proof (HX _ Hu) as Hp1. pose proof (wf_idx _ _ (proj1 Hu)) as Hw1. eapply idx_perm; [..|exact Hw1]; rewrite Hp1; solve_Permutation.
  - intros _ s2 (s1 & Hu & Hi2 & Hf2 & Hm2). exists s1. split; [done|]. split_and!; try done.
    eapply idx_perm; [..|exact Hi2]; symmetry; by apply HX.
Qed.

Lemma drop_spec d flags s : wf [] s -> d ∈ queued s -> flags ∈ [DIRCACHE_ALL; Z.lor DIRCACHE_ALL DIRCACHE_NOSHRINK] ->
  wp oom (dircache_remove d flags) s (fun _ s2 => wp oom (dircache_defer_free d) s2 (fun _ s' => dropped d s s')).
Proof.
  intros Hw Hd Hflags. eapply wp_mono; [by apply remove_all_spec|]. intros _ s2 (s1 & Hu & Hr).
  pose proof (unqueued_notin _ _ _ Hu) as Hn. destruct (idx_entry _ _ s1 d (wf_idx _ _ (proj1 Hu))) as [e He]; [set_solver|].
  pose proof Hr as (Hi2 & Hf2 & Hm2). destruct (iframe_entry _ _ _ _ Hf2 He) as [e2 He2].
  eapply wp_mono; [by eapply defer_free_spec|]. intros [] s3 Hr3. eapply unqueued_dropped; [done|done|].
  by eapply reindexed_trans.
Qed.

(** ** Lookup and duplicates *)

Lemma lookup_did_queued s k d : wf [] s -> h_lookup (dircache s) k = Some d -> d ∈ queued s /\ iv_did <$> idirs s !! d = Some k.
Proof.
  intros Hi%wf_idx. rewrite app_nil_r in Hi. rewrite h_lookup_law by apply Hi. apply (idx_m1 _ _ _ _ _ _ Hi).
Qed.
Lemma lookup_name_queued s k d : wf [] s -> h_lookup (index_didname s) k = Some d -> d ∈ queued s /\ iv_name <$> idirs s !! d = Some k.
Proof.
  intros Hi%wf_idx. rewrite app_nil_r in Hi. rewrite h_lookup_law by apply Hi. apply (idx_m2 _ _ _ _ _ _ Hi).
Qed.

Lemma wf_counts s : wf [] s -> h_count (dircache s) = Z.of_nat (length (queued s)) /\
  h_count (index_didname s) = Z.of_nat (length (queued s)).
Proof.
  intros Hw. pose proof (wf_idx _ _ Hw) as Hi. rewrite app_nil_r in Hi.
  split; [by eapply idx_count1|by eapply idx_count2].
Qed.

Lemma valid_did did : CNID_START <= ntohl did ->
  negb (did =? DIRDID_ROOT_PARENT) && negb (did =? DIRDID_ROOT) && negb (did =? CNID_INVALID) = true.
Proof.
  intros Hv. rewrite !andb_true_iff, !negb_true_iff, !Z.eqb_neq. split_and!; intros ->; vm_compute in Hv; by apply Hv.
Qed.

(** Retiring a duplicate: curdir goes with it when it was a directory. *)
Definition expunged_ok (dup : dirptr) (e : dir) (s : cstate) (took : bool) (s' : cstate) : Prop :=
  wf [] s' /\ dframe s s' /\ queued s ≡ₚ dup :: queued s' /\ (forall x, x <> dup -> x ∈ cached s -> x ∈ cached s') /\
  took = bool_decide (curdir s = Some dup) && negb (is_file e) /\ curdir s' = (if took then None else curdir s).

Lemma wf_curdir F s c : wf F (upd_curdir c s) <-> wf F s.
Proof.
  unfold wf. change (arc_mode (upd_curdir c s)) with (arc_mode s). destruct (arc_mode s).
  - split; intros ([] & ? & ?); by split_and!.
  - split; intros []; by constructor.
Qed.

Lemma wf_stat F s f : wf F (upd_dircache_stat f s) <-> wf F s.
Proof.
  unfold wf. change (arc_mode (upd_dircache_stat f s)) with (arc_mode s). destruct (arc_mode s).
  - split; intros ([] & ? & ?); by split_and!.
  - split; intros []; by constructor.
Qed.

Lemma expunge_spec s dup e : wf [] s -> dup ∈ queued s -> dirs s !! dup = Some e ->
  wp oom (dircache_expunge_duplicate dup) s (fun took s' => expunged_ok dup e s took s').
Proof.
  intros Hw Hd He. unfold dircache_expunge_duplicate. wsteps. apply wp_assert.
  { apply valid_did. eapply (idx_valid _ _ _ _ _ _ (wf_idx _ _ Hw) dup (iview_of e)); [by apply idirs_lookup|set_solver]. }
  wsteps. set (took := bool_decide (curdir s = Some dup) && negb (is_file e)).
  set (s0 := if took then upd_curdir (fun _ => None) s else s).
  assert (wf [] s0 /\ queued s0 = queued s /\ cached s0 = cached s /\ dframe s s0) as (Hw0 & Eq & Ec & Hdf).
  { subst s0. destruct took; [rewrite wf_curdir|]; (split_and!; [done..|by constructor]). }
  assert (wp oom (when took (modify (upd_curdir (fun _ => None)))) s (fun _ s' => s' = s0)) as Hwhen by (by destruct took).
  eapply wp_mono; [exact Hwhen|]. intros _ ? ->. apply wp_bind.
  eapply wp_mono; [apply (drop_spec dup DIRCACHE_ALL s0 Hw0); [by rewrite Eq|set_solver]|].
  intros [] s2 Hs2. apply wp_bind. eapply wp_mono; [exact Hs2|]. intros _ s3 (Hw3 & Hf3 & Hp3 & Hk3 & Hc3). wsteps.
  rewrite Eq in Hp3. rewrite Ec in Hk3. split_and!; try done.
  - by apply wf_stat.
  - pose proof (dframe_trans _ _ _ Hdf Hf3) as []. by constructor.
  - cbn. rewrite Hc3. subst s0. by destruct took.
Qed.

(** ** LRU eviction *)

(** [n] rounds take the [n] least recently used entries off the queue, and
    put curdir back at its end. *)
Definition after_evict (cur : option dirptr) (n : nat) (q : list dirptr) : list dirptr :=
  drop n q ++ filter (fun x => Some x = cur) (take n q).

Definition evicted_ok (n : nat) (s s' : cstate) : Prop :=
  wf [] s' /\ dframe s s' /\ curdir s' = curdir s /\ index_queue s' = after_evict (curdir s) n (index_queue s).

Lemma evict_rotate s d q e : wf [] s -> arc_mode s = false -> index_queue s = d :: q -> dirs s !! d = Some e -> qidx_node e = true ->
  forall s', same_index (upd_mallocs (fun _ => mallocs s') s) s' -> mem_ok oom s' -> arc_mode s' = false ->
  dirs s' = <[d := e]> (dirs s) -> index_queue s' = q ++ [d] -> queue_count s' = queue_count s -> curdir s' = curdir s ->
  wf [] s' /\ dframe s s'.
Proof.
  intros Hw Em Hq He Hqe s' [] Hm Em' Hd Hq' Hc Hcur. destruct (wf_lru _ _ Hw Em). cbn in *.
  assert (dirs s' = dirs s) as Hd' by (rewrite Hd; by apply insert_id).
  assert (index_queue s' ≡ₚ index_queue s) as Hp by (rewrite Hq, Hq'; solve_Permutation).
  split.
  - unfold wf. rewrite Em'. constructor; unfold qdirs, idx, idirs in *; rewrite ?Hd', ?si_dircache, ?si_didname, ?si_count, ?si_max, ?Hc, ?Hp; try done.
    + intros x. rewrite Hp. apply lw_in0.
    + eapply idx_perm; [..|exact lw_i0]; by rewrite Hp.
  - constructor; unfold idirs; rewrite ?queued_lru, ?Hd' by done; try congruence. intros x. by rewrite Hp.
Qed.

Lemma evict_one_spec s d q : wf [] s -> arc_mode s = false -> index_queue s = d :: q ->
  wp oom evict_one s (fun _ s' => evicted_ok 1 s s').
Proof.
  intros Hw Em Hq. pose proof (wf_lru _ _ Hw Em) as Hl. pose proof (lw_nd _ _ Hl) as Hnd. rewrite Hq in Hnd.
  assert (d ∈ queued s) as Hd by (rewrite queued_lru, Hq by done; set_solver).
  destruct (wf_entry _ _ _ Hw Hd) as (e & He & Hqe). pose proof (wf_mem _ _ Hw) as Hm.
  assert (0 < queue_count s <= MAX_DIRCACHE_SIZE) as Hc.
  { destruct Hl. rewrite lw_count0, Hq in *. cbn in *. lia. }
  unfold evict_one. wsteps. rewrite Hq. wsteps.
  unfold evicted_ok, after_evict. rewrite Hq. cbn [take drop].
  case_bool_decide as Ec.
  - wsteps. destruct b; cbn [negb]; wsteps; [|naive_solver]. eapply wp_set_dir; [apply lookup_insert_eq|]. wsteps.
    match goal with |- wf [] ?s' /\ _ => set (s2 := s') end.
    assert (upd_qidx_node (fun _ => true) (upd_qidx_node (fun _ => false) e) = e) as Ee by (destruct e; cbn in *; by subst).
    destruct (evict_rotate s d q e Hw Em Hq He Hqe s2) as [? ?]; try done.
    + cbn. by rewrite Ee, insert_insert_eq.
    + cbn. unfold inc, dec, MAX_DIRCACHE_SIZE in *. rewrite (wrap_small _ (_ - 1)) by lia. rewrite wrap_small; lia.
    + split_and!; try done. change (q ++ [d] = q ++ filter (fun x => Some x = curdir s) [d]).
      by rewrite filter_cons_True.
  - match goal with |- wp _ _ ?s' _ => set (s1 := s') end.
    assert (unqueued d s s1) as Hu.
    { eapply lru_unqueue; try done; [rewrite Hq; set_solver|]. rewrite Hq, q_del_head by done. done. }
    eapply wp_mono; [apply (retire_spec oom (queued s1) (queued s1))|].
    + pose proof (wf_idx _ _ (proj1 Hu)) as Hi. eapply idx_perm; [..|exact Hi]; solve_Permutation.
    + apply (wf_mem _ _ (proj1 Hu)).
    + intros [] s2 Hr. pose proof Hr as (_ & Hf & _). apply (unqueued_dropped d s) in Hr; try done.
      destruct Hr as (? & ? & _ & _ & ?). split_and!; try done.
      rewrite (if_queue _ _ _ Hf), filter_cons_False, app_nil_r by (intros Ex; by apply Ec). done.
Qed.

Lemma after_evict_S cur n d q : NoDup (d :: q) -> (n <= length q)%nat ->
  after_evict cur n (after_evict cur 1 (d :: q)) = after_evict cur (S n) (d :: q).
Proof.
  intros [Hd Hnd]%NoDup_cons Hn. unfold after_evict. cbn [drop take].
  rewrite drop_app_le, take_app_le, <- app_assoc by done. f_equal. rewrite !filter_cons, drop_0, take_0, filter_nil.
  case_decide as Ec; [|done]. subst cur. destruct (filter _ (take n q)) as [|x l] eqn:Ef; [done|].
  assert (x ∈ filter (fun x => Some x = Some d) (take n q)) as Hx by (rewrite Ef; set_solver).
  apply list_elem_of_filter in Hx as [[= ->] Hx]. apply elem_of_take in Hx as (i & Hi & _).
  apply list_elem_of_lookup_2 in Hi. done.
Qed.

Lemma length_after_evict cur n q : (length q - n <= length (after_evict cur n q) <= length q)%nat.
Proof.
  unfold after_evict. rewrite length_app, length_drop. pose proof (length_filter (fun x => Some x = cur) (take n q)) as Hf.
  rewrite length_take in Hf. lia.
Qed.

Lemma evict_rounds_spec n s : wf [] s -> arc_mode s = false -> (n < length (index_queue s))%nat ->
  wp oom (repeat_m n evict_one) s (fun _ s' => evicted_ok n s s').
Proof.
  revert s. induction n as [|n IH]; intros s Hw Em Hlen; cbn [repeat_m].
  - apply wp_ret. split_and!; [done|apply dframe_refl|done|]. unfold after_evict. cbn. by rewrite app_nil_r.
  - destruct (index_queue s) as [|d q] eqn:Hq; [cbn in Hlen; lia|]. cbn in Hlen.
    wsteps. eapply wp_mono; [by eapply evict_one_spec|]. intros _ s1 (Hw1 & Hf1 & Hc1 & Hq1).
    rewrite Hq in Hq1. pose proof (length_after_evict (curdir s) 1 (d :: q)) as Hl1. rewrite <- Hq1 in Hl1. cbn in Hl1.
    eapply wp_mono; [apply (IH s1 Hw1); [by rewrite (df_mode _ _ Hf1)|]|].
    + lia.
    + intros _ s2 (Hw2 & Hf2 & Hc2 & Hq2). split_and!; [done|by eapply dframe_trans|congruence|].
      rewrite Hq2, Hc1, Hq1, Hq. apply after_evict_S; [|lia]. rewrite <- Hq. apply (wf_lru _ _ Hw Em).
Qed.

Lemma evict_spec s : wf [] s -> arc_mode s = false -> (DIRCACHE_FREE_QUANTUM < length (index_queue s))%nat ->
  wp oom dircache_evict s (fun _ s' => evicted_ok DIRCACHE_FREE_QUANTUM s s').
Proof.
  intros Hw Em Hlen. unfold dircache_evict. wsteps. eapply wp_mono; [by apply evict_rounds_spec|].
  intros _ s1 (Hw1 & Hf1 & Hc1 & Hq1). wsteps. assert (arc_mode s1 = false) as Em1 by (by rewrite (df_mode _ _ Hf1)).
  apply wp_assert.
  - apply Z.eqb_eq. rewrite (lw_count _ _ (wf_lru _ _ Hw1 Em1)).
    pose proof (wf_idx _ _ Hw1) as Hi. rewrite (idx_count1 _ _ _ Hi), app_nil_r, queued_lru by done. done.
  - wsteps. split_and!; try done; [by apply wf_stat|]. destruct Hf1; by constructor.
Qed.

(** ** Insertion *)

(** A key no entry has stays unused. *)
Lemma dframe_absent1 s s' k : wf [] s -> wf [] s' -> dframe s s' ->
  h_lookup (dircache s) k = None -> h_lookup (dircache s') k = None.
Proof.
  intros Hw Hw' Hf Hno. destruct (h_lookup (dircache s') k) as [x|] eqn:Ex; [|done].
  apply (lookup_did_queued _ _ _ Hw') in Ex as [Hx Hk]. rewrite (df_keys _ _ Hf) in Hk by done.
  pose proof (wf_idx _ _ Hw) as Hi. rewrite app_nil_r in Hi. rewrite <- Hno, h_lookup_law by apply Hi.
  symmetry. apply (idx_m1 _ _ _ _ _ _ Hi). split; [by apply Hf|done].
Qed.
Lemma dframe_absent2 s s' k : wf [] s -> wf [] s' -> dframe s s' ->
  h_lookup (index_didname s) k = None -> h_lookup (index_didname s') k = None.
Proof.
  intros Hw Hw' Hf Hno. destruct (h_lookup (index_didname s') k) as [x|] eqn:Ex; [|done].
  apply (lookup_name_queued _ _ _ Hw') in Ex as [Hx Hk]. rewrite (df_keys _ _ Hf) in Hk by done.
  pose proof (wf_idx _ _ Hw) as Hi. rewrite app_nil_r in Hi. rewrite <- Hno, h_lookup_law by apply Hi.
  symmetry. apply (idx_m2 _ _ _ _ _ _ Hi). split; [by apply Hf|done].
Qed.

(** Where curdir is after a step that may retire it ([took]), for a curdir
    that is a cached directory: it keeps its place, or it was the entry the
    step retired, one that satisfies [same]. *)
Definition cur_step (same : iview -> Prop) (took : bool) (s s' : cstate) : Prop :=
  forall x v, curdir s = Some x -> x ∈ cached s -> idirs s !! x = Some v -> iv_file v = false ->
  if took then same v else x ∈ cached s'.

Definition expunge_step (same : iview -> Prop) (s : cstate) (took : bool) (s' : cstate) : Prop :=
  wf [] s' /\ dframe s s' /\ curdir s' = (if took then None else curdir s) /\ cur_step same took s s'.

Lemma expunge_found_spec s o (same : iview -> Prop) : wf [] s ->
  (forall dup, o = Some dup -> dup ∈ queued s /\ forall v, idirs s !! dup = Some v -> same v) ->
  wp oom (expunge_found o) s (fun took s' => expunge_step same s took s' /\
    match o with
    | Some dup => dup ∉ queued s' /\ (forall x, x <> dup -> (x ∈ queued s -> x ∈ queued s') /\ (x ∈ cached s -> x ∈ cached s'))
    | None => s' = s
    end).
Proof.
  intros Hw Ho. destruct o as [dup|]; cbn [expunge_found].
  2: { apply wp_ret. unfold expunge_step. split_and!; try done. by intros x v. }
  destruct (Ho dup eq_refl) as [Hd Hsame]. destruct (wf_entry _ _ _ Hw Hd) as (e & He & _).
  eapply wp_mono; [by apply (expunge_spec s dup e)|]. intros took s' (Hw' & Hf & Hp & Hk & Ht & Hc). unfold expunge_step. split_and!; try done.
  - intros x v Hx Hin Hv Hnf. destruct (decide (x = dup)) as [->|Hne].
    + pose proof (idirs_lookup _ _ _ He) as Ev. rewrite Hv in Ev. injection Ev as ->.
      rewrite Ht, bool_decide_eq_true_2 by done. rewrite (Hnf : is_file e = _). cbn. by apply Hsame.
    + rewrite Ht, bool_decide_eq_false_2 by congruence. cbn. by apply Hk.
  - pose proof (wf_nodup _ _ Hw) as Hnd. rewrite Hp in Hnd. by apply NoDup_cons in Hnd as [? _].
  - intros x Hne. split; [|by apply Hk]. rewrite Hp, elem_of_cons. tauto.
Qed.

Definition same_keys (e : dir) (v : iview) : Prop := iv_did v = did_key e \/ iv_name v = name_key e.

(** The entry at [x] has the ID or the name of [e]. *)
Definition clashes (s : cstate) (e : dir) (x : dirptr) : bool :=
  match dirs s !! x with
  | Some ex => bool_decide (did_key ex = did_key e) || bool_decide (name_key ex = name_key e)
  | None => false
  end.

(** The queued, and the cached, entries that an addition of [e] does not retire. *)
Definition survivors (e : dir) (s : cstate) : list dirptr := filter (fun x => clashes s e x = false) (queued s).
Definition cached_survivors (e : dir) (s : cstate) : list dirptr := filter (fun x => clashes s e x = false) (cached s).

Lemma clashes_keys s e x v : idirs s !! x = Some v -> clashes s e x = true <-> same_keys e v.
Proof.
  unfold idirs, clashes, same_keys. rewrite lookup_fmap. destruct (dirs s !! x) as [ex|]; [|done]. cbn. intros [= <-].
  rewrite orb_true_iff, !bool_decide_eq_true. done.
Qed.
Lemma clashes_view s s' e x : idirs s' !! x = idirs s !! x -> clashes s' e x = clashes s e x.
Proof.
  intros E. destruct (idirs s !! x) as [v|] eqn:Ev.
  - apply eq_true_iff_eq. rewrite !(clashes_keys _ _ _ v) by done. done.
  - unfold idirs, clashes in *. rewrite lookup_fmap in E, Ev. by destruct (dirs s' !! x), (dirs s !! x).
Qed.
Lemma elem_of_survivors s e x : x ∈ survivors e s <-> clashes s e x = false /\ x ∈ queued s.
Proof. unfold survivors. by rewrite list_elem_of_filter. Qed.
Lemma survivors_nodup F s e : wf F s -> NoDup (survivors e s).
Proof. intros Hw. by eapply NoDup_filter, wf_nodup. Qed.
Lemma survivors_all s e : length (survivors e s) = length (queued s) -> forall x, x ∈ queued s -> clashes s e x = false.
Proof.
  unfold survivors. generalize (queued s). intros q. induction q as [|y q IH]; [set_solver|].
  pose proof (length_filter (fun x => clashes s e x = false) q) as Hl.
  rewrite filter_cons. case_decide; [|cbn in *; lia]. intros [= Hq] x [->|Hx]%elem_of_cons; auto.
Qed.

(** An expunged duplicate is one that clashes, so the others stay. *)
Definition spares (e : dir) (s s' : cstate) : Prop :=
  (forall x, clashes s e x = false -> (x ∈ queued s -> x ∈ queued s') /\ (x ∈ cached s -> x ∈ cached s')) /\
  ((forall x, x ∈ queued s -> clashes s e x = false) -> s' = s).

Lemma expunge_found_spares s o e s' : wf [] s ->
  (forall dup, o = Some dup -> dup ∈ queued s /\ forall v, idirs s !! dup = Some v -> same_keys e v) ->
  match o with
  | Some dup => dup ∉ queued s' /\ (forall x, x <> dup -> (x ∈ queued s -> x ∈ queued s') /\ (x ∈ cached s -> x ∈ cached s'))
  | None => s' = s
  end -> spares e s s'.
Proof.
  intros Hw Ho Hs. destruct o as [dup|]; [|by subst]. destruct (Ho dup eq_refl) as [Hd Hsame]. destruct Hs as [Hn Hs].
  assert (clashes s e dup = true) as Hc.
  { destruct (wf_entry _ _ _ Hw Hd) as (ed & He & _). apply (clashes_keys _ _ _ _ (idirs_lookup _ _ _ He)).
    by apply Hsame, idirs_lookup. }
  split; [intros x Hx; apply Hs; congruence|]. intros Hall. rewrite (Hall dup Hd) in Hc. done.
Qed.
Lemma spares_trans e s1 s2 s3 : wf [] s1 -> dframe s1 s2 -> spares e s1 s2 -> spares e s2 s3 -> spares e s1 s3.
Proof.
  intros Hw Hf [H1 E1] [H2 E2].
  assert (forall x, x ∈ queued s2 -> clashes s2 e x = clashes s1 e x) as Hv by (intros x Hx; apply clashes_view; by apply Hf).
  split.
  - intros x Hx. destruct (H1 x Hx) as [Hq Hc]. split; intros Hin.
    + specialize (Hq Hin). apply H2; [by rewrite Hv|done].
    + specialize (Hc Hin). apply H2; [rewrite Hv; [done|by apply cached_queued]|done].
  - intros Hall. specialize (E1 Hall). subst s2. by apply E2.
Qed.

(** Both duplicates of [e] are gone. *)
Lemma expunge_both_spec e s : wf [] s ->
  wp oom (expunge_found (h_lookup (dircache s) (did_key e))) s (fun took1 s1 =>
    wp oom (expunge_found (h_lookup (index_didname s1) (name_key e))) s1 (fun took2 s2 =>
      expunge_step (same_keys e) s (took1 || took2) s2 /\
      h_lookup (dircache s2) (did_key e) = None /\ h_lookup (index_didname s2) (name_key e) = None /\ spares e s s2)).
Proof.
  intros Hw. assert (forall dup, h_lookup (dircache s) (did_key e) = Some dup ->
    dup ∈ queued s /\ forall v, idirs s !! dup = Some v -> same_keys e v) as Hdup1.
  { intros dup Hdup. apply (lookup_did_queued _ _ _ Hw) in Hdup as [? Hk]. split; [done|]. intros v Hv. left.
    rewrite Hv in Hk. by injection Hk. }
  eapply wp_mono; [apply (expunge_found_spec s _ (same_keys e) Hw Hdup1)|].
  intros took1 s1 ((Hw1 & Hf1 & Hc1 & Hcs1) & Ho1). pose proof (expunge_found_spares _ _ e _ Hw Hdup1 Ho1) as Hsp1.
  assert (h_lookup (dircache s1) (did_key e) = None) as Habs1.
  { destruct (h_lookup (dircache s) (did_key e)) as [dup|] eqn:Edup; [|by subst].
    destruct (h_lookup (dircache s1) (did_key e)) as [x|] eqn:Ex; [|done].
    apply (lookup_did_queued _ _ _ Hw1) in Ex as [Hx Hk]. rewrite (df_keys _ _ Hf1) in Hk by done.
    pose proof (wf_idx _ _ Hw) as Hi. rewrite app_nil_r in Hi. rewrite h_lookup_law in Edup by apply Hi.
    assert (h_map (dircache s) !! did_key e = Some x) by (apply (idx_m1 _ _ _ _ _ _ Hi); split; [by apply Hf1|done]).
    destruct Ho1 as [Ho1 _]. congruence. }
  assert (forall dup, h_lookup (index_didname s1) (name_key e) = Some dup ->
    dup ∈ queued s1 /\ forall v, idirs s1 !! dup = Some v -> same_keys e v) as Hdup2.
  { intros dup Hdup. apply (lookup_name_queued _ _ _ Hw1) in Hdup as [? Hk]. split; [done|]. intros v Hv. right.
    rewrite Hv in Hk. by injection Hk. }
  eapply wp_mono; [apply (expunge_found_spec s1 _ (same_keys e) Hw1 Hdup2)|].
  intros took2 s2 ((Hw2 & Hf2 & Hc2 & Hcs2) & Ho2). pose proof (expunge_found_spares _ _ e _ Hw1 Hdup2 Ho2) as Hsp2.
  unfold expunge_step. split_and!.
  - done.
  - by eapply dframe_trans.
  - rewrite Hc2, Hc1. by destruct took1, took2.
  - intros x v Hx Hin Hv Hnf. specialize (Hcs1 x v Hx Hin Hv Hnf). destruct took1; [done|]. cbn.
    apply Hcs2; try done; [congruence|]. rewrite (df_keys _ _ Hf1); [done|by apply cached_queued].
  - by apply (dframe_absent1 s1 s2).
  - destruct (h_lookup (index_didname s1) (name_key e)) as [dup|] eqn:Edup; [|by subst].
    destruct (h_lookup (index_didname s2) (name_key e)) as [x|] eqn:Ex; [|done].
    apply (lookup_name_queued _ _ _ Hw2) in Ex as [Hx Hk]. rewrite (df_keys _ _ Hf2) in Hk by done.
    pose proof (wf_idx _ _ Hw1) as Hi. rewrite app_nil_r in Hi. rewrite h_lookup_law in Edup by apply Hi.
    assert (h_map (index_didname s1) !! name_key e = Some x) by (apply (idx_m2 _ _ _ _ _ _ Hi); split; [by apply Hf2|done]).
    destruct Ho2 as [Ho2 _]. congruence.
  - by eapply spares_trans.
Qed.

(** Room for one more entry. *)
Definition has_room (s : cstate) : Prop :=
  if arc_mode s then room 1 (arc_cache s) else queue_count s < dircache_maxsize s.

Lemma aframe_dframe F s s' : awf oom F s -> awf oom F s' -> aframe s s' -> dframe s s'.
Proof.
  intros Hw Hw' []. pose proof (qa_enabled _ _ (aw_q _ _ _ Hw) : arc_mode s = true) as Em.
  pose proof (qa_enabled _ _ (aw_q _ _ _ Hw') : arc_mode s' = true) as Em'.
  constructor; rewrite ?queued_arc by done; try done; [congruence|].
  by rewrite (aw_max _ _ _ Hw), (aw_max _ _ _ Hw').
Qed.

Lemma room_bnd a : room 1 a -> bnd a.
Proof. intros (? & ? & ? & ? & ? & ? & ?). sizes a. constructor; lia. Qed.

Lemma length_filter_cur cur (q : list dirptr) : NoDup q -> (length (filter (fun x => Some x = cur) q) <= 1)%nat.
Proof.
  intros Hnd. assert (NoDup (filter (fun x => Some x = cur) q)) as Hf by (by apply NoDup_filter).
  assert (forall x, x ∈ filter (fun x => Some x = cur) q -> Some x = cur) as Hall by (intros x; rewrite list_elem_of_filter; tauto).
  destruct (filter _ q) as [|x [|y l]]; cbn; try lia. rewrite !NoDup_cons in Hf.
  pose proof (Hall x ltac:(set_solver)). pose proof (Hall y ltac:(set_solver)). assert (x = y) by congruence. set_solver.
Qed.

Lemma evicted_room s s' : wf [] s -> arc_mode s = false -> evicted_ok DIRCACHE_FREE_QUANTUM s s' ->
  queue_count s' < dircache_maxsize s'.
Proof.
  intros Hw Em (Hw' & Hf & Hc & Hq). assert (arc_mode s' = false) as Em' by (by rewrite (df_mode _ _ Hf)).
  pose proof (wf_lru _ _ Hw Em) as Hl. pose proof (wf_lru _ _ Hw' Em') as Hl'.
  rewrite (lw_count _ _ Hl'), (df_max _ _ Hf), Hq. pose proof (lw_len _ _ Hl) as Hlen. rewrite (lw_count _ _ Hl) in Hlen.
  unfold after_evict. rewrite length_app, length_drop.
  pose proof (length_filter_cur (curdir s) (take DIRCACHE_FREE_QUANTUM (index_queue s))) as H1.
  specialize (H1 (sublist_NoDup _ _ (lw_nd _ _ Hl) (sublist_take _ _))).
  pose proof (lw_max _ _ Hl). unfold MIN_DIRCACHE_SIZE, DIRCACHE_FREE_QUANTUM in *. lia.
Qed.

Lemma elem_of_after_evict cur n q x : cur = Some x -> x ∈ q -> x ∈ after_evict cur n q.
Proof.
  intros -> Hx. rewrite <- (take_drop n q) in Hx. unfold after_evict. rewrite elem_of_app, list_elem_of_filter in *. tauto.
Qed.

Lemma add_room_spec s : wf [] s ->
  wp oom (if arc_mode s then arc_case_iv_make_room else when (dircache_maxsize s <=? h_count (dircache s)) dircache_evict) s
    (fun _ s' => wf [] s' /\ dframe s s' /\ curdir s' = curdir s /\ has_room s' /\
      (forall x, curdir s = Some x -> x ∈ cached s -> x ∈ cached s')).
Proof.
  intros Hw. unfold has_room. destruct (arc_mode s) eqn:Em.
  - destruct (wf_arc _ _ Hw Em) as (Hwa & Hb & Hpr). eapply wp_mono; [by apply (make_room_spec oom [])|].
    intros _ s' (Hw' & Hf & Hr & Hk & _). pose proof (aframe_dframe _ _ _ Hwa Hw' Hf) as Hdf.
    assert (arc_mode s' = true) as Em' by (by rewrite (df_mode _ _ Hdf)).
    unfold wf. rewrite Em', !cached_arc by done. split_and!; try done.
    + by apply room_bnd.
    + by rewrite (af_promoting _ _ Hf).
    + apply Hf.
  - pose proof (wf_lru _ _ Hw Em) as Hl.
    assert (h_count (dircache s) = Z.of_nat (length (index_queue s))) as Hn.
    { by rewrite (idx_count1 _ _ _ (wf_idx _ _ Hw)), app_nil_r, queued_lru. }
    apply wp_when; intros E; bool_cases; rewrite Hn in E.
    + eapply wp_mono; [apply evict_spec; try done|].
      { pose proof (lw_max _ _ Hl). unfold MIN_DIRCACHE_SIZE, DIRCACHE_FREE_QUANTUM in *. lia. }
      intros [] s' Hev. pose proof (evicted_room _ _ Hw Em Hev) as Hroom. destruct Hev as (? & Hf & ? & Hq).
      assert (arc_mode s' = false) as Em' by (by rewrite (df_mode _ _ Hf)). rewrite Em', !cached_lru by done.
      split_and!; try done. intros x Hx Hin. rewrite Hq. by apply elem_of_after_evict.
    + rewrite Em. split_and!; try done. by rewrite (lw_count _ _ Hl).
Qed.

(** What making room drops: nothing while there is room; else one batch of the
    LRU queue, or at most two entries of the ARC lists, one of them cached. *)
Definition made_room (s s' : cstate) : Prop :=
  if Z.of_nat (length (queued s)) <? dircache_maxsize s then s' = s
  else if arc_mode s then
    (length (cached s) <= length (cached s') + 1)%nat /\ (length (queued s) <= length (queued s') + 2)%nat
  else index_queue s' = after_evict (curdir s) DIRCACHE_FREE_QUANTUM (index_queue s).

Lemma length_cached_arc s : arc_mode s = true -> Z.of_nat (length (cached s)) = sz ARC_T1 (arc_cache s) + sz ARC_T2 (arc_cache s).
Proof. intros Em. rewrite cached_arc, length_app by done. unfold sz. cbn. lia. Qed.

Lemma made_room_spec s : wf [] s ->
  wp oom (if arc_mode s then arc_case_iv_make_room else when (dircache_maxsize s <=? h_count (dircache s)) dircache_evict) s
    (fun _ s' => made_room s s').
Proof.
  intros Hw. unfold made_room. destruct (arc_mode s) eqn:Em.
  - destruct (wf_arc _ _ Hw Em) as (Hwa & Hb & Hpr). rewrite (aw_max _ _ _ Hwa), queued_arc by done. case_test.
    { by apply (make_room_idle oom []). }
    eapply wp_mono; [by apply (make_room_spec oom [])|]. intros _ s' (Hw' & Hf & _ & _ & [Hl1 Hl2]).
    pose proof (qa_enabled _ _ (aw_q _ _ _ Hw') : arc_mode s' = true) as Em'. rewrite (queued_arc s') by done.
    pose proof (length_cached_arc s Em). pose proof (length_cached_arc s' Em').
    pose proof (length_all_q (arc_cache s)). pose proof (length_all_q (arc_cache s')). lia.
  - pose proof (wf_lru _ _ Hw Em) as Hl. destruct (wf_counts _ Hw) as [-> _].
    case_test; apply wp_when; intros E2; bool_cases; try lia; [done|]. rewrite queued_lru in * by done.
    eapply wp_mono; [apply evict_spec; try done|by intros _ s' (_ & _ & _ & ?)].
    pose proof (lw_max _ _ Hl). unfold MIN_DIRCACHE_SIZE, DIRCACHE_FREE_QUANTUM in *. lia.
Qed.

Lemma when_spec b s (f : cstate -> cstate) : wp oom (when b (modify f)) s (fun _ s' => s' = if b then f s else s).
Proof. by destruct b. Qed.

(** Indexing the new entry under both keys. *)
Lemma add_index_spec s d e : wf [] s -> has_room s -> d ∉ queued s -> dirs s !! d = Some e ->
  CNID_START <= ntohl (d_did e) ->
  h_lookup (dircache s) (did_key e) = None -> h_lookup (index_didname s) (name_key e) = None ->
  wp oom (insert_did_index d e) s (fun _ s1 => wp oom (insert_didname_index d e) s1 (fun _ s2 =>
    wp oom (set_dir d (upd_d_flags (fun f => Z.lor f DIRF_INDEXED))) s2 (fun _ s3 =>
      wf [d] s3 /\ iframe d s s3 /\ has_room s3 /\
      exists e3, dirs s3 !! d = Some e3 /\ did_key e3 = did_key e /\ name_key e3 = name_key e /\
        qidx_node e3 = qidx_node e /\ is_ghost e3 = is_ghost e))).
Proof.
  intros Hw Hr Hd He Hcn Hn1 Hn2. pose proof (wf_idx _ _ Hw) as Hi. rewrite app_nil_r in Hi.
  assert (Z.of_nat (length (queued s)) < h_max (dircache s) /\ Z.of_nat (length (queued s)) < h_max (index_didname s)) as [Hl1 Hl2].
  { unfold has_room in Hr. destruct (arc_mode s) eqn:Em.
    - destruct (wf_arc _ _ Hw Em) as (Hwa & _). rewrite queued_arc, length_all_q, (aw_max1 _ _ _ Hwa), (aw_max2 _ _ _ Hwa) by done.
      destruct Hr as (_ & _ & _ & _ & ? & _). lia.
    - pose proof (wf_lru _ _ Hw Em) as Hl. rewrite queued_lru, (lw_max1 _ _ Hl), (lw_max2 _ _ Hl), <- (lw_count _ _ Hl) by done. done. }
  eapply wp_mono; [apply (insert_did_spec oom (queued s) (queued s)); try done; by eapply wf_mem|].
  intros _ s1 ((Hi1 & Hf1 & Hm1) & He1 & En).
  eapply wp_mono; [eapply (insert_didname_spec oom (d :: queued s) (queued s) d e); try done|].
  { by rewrite En. } { by rewrite (if_max2 _ _ _ Hf1). }
  intros _ s2 ((Hi2 & Hf2 & Hm2) & He2).
  eapply wp_mono; [eapply (mark_indexed_spec oom _ _ d _ s2 Hi2); [set_solver|done|done]|].
  intros _ s3 ((Hi3 & Hf3 & Hm3) & He3).
  assert (iframe d s s3) as Hf by (eapply iframe_trans; [|done]; by eapply iframe_trans).
  split_and!; [|done| |].
  - eapply wf_iframe; [exact Hw|done| |done]. eapply idx_perm; [..|exact Hi3]; solve_Permutation.
  - unfold has_room, arc_mode in *. destruct Hf. by rewrite if_arc, if_count, if_max.
  - eexists. split; [exact He3|]. cbn. split_and!; try done. unfold is_ghost. cbn. by rewrite has_lor_other.
Qed.

(** Putting the new entry on its queue. *)
Definition enqueued (d : dirptr) (s s' : cstate) : Prop :=
  wf [] s' /\ queued s' ≡ₚ d :: queued s /\ cached s' ≡ₚ d :: cached s /\ curdir s' = curdir s /\ idirs s' = idirs s /\
  arc_mode s' = arc_mode s /\ (arc_mode s = false -> index_queue s' = index_queue s ++ [d]).

Lemma lru_enqueue s s' d e : wf [d] s -> has_room s -> arc_mode s = false -> dirs s !! d = Some e ->
  is_ghost e = false ->
  same_index (upd_mallocs (fun _ => mallocs s') s) s' -> mem_ok oom s' -> arc_mode s' = false ->
  dirs s' = <[d := upd_qidx_node (fun _ => true) e]> (dirs s) -> index_queue s' = index_queue s ++ [d] ->
  queue_count s' = inc (queue_count s) -> curdir s' = curdir s -> enqueued d s s'.
Proof.
  intros Hw Hr Em He Hg [] Hm Em' Hd Hq Hc Hcur. unfold has_room in Hr. rewrite Em in Hr. destruct (wf_lru _ _ Hw Em). cbn in *.
  assert (idirs s' = idirs s) as Hid.
  { unfold idirs. rewrite Hd, fmap_insert. apply insert_id. by rewrite lookup_fmap, He. }
  pose proof (idx_nd1 _ _ _ _ _ _ lw_i0) as Hnd. unfold MIN_DIRCACHE_SIZE, MAX_DIRCACHE_SIZE in *.
  unfold inc in Hc. rewrite wrap_small in Hc by lia.
  unfold enqueued, wf. rewrite !queued_lru, !cached_lru, Em', Hq by done. split_and!; try congruence; try solve_Permutation.
  constructor; unfold MIN_DIRCACHE_SIZE, MAX_DIRCACHE_SIZE; rewrite ?Hq, ?Hc, ?si_max, ?app_nil_r; try congruence; try lia.
  - intros x. rewrite elem_of_app, lw_in0. unfold qdirs. rewrite Hd, fmap_insert.
    destruct (decide (x = d)) as [->|]; [rewrite lookup_insert_eq|rewrite lookup_insert_ne by done]; cbn; [|set_solver].
    split; [eauto|set_solver].
  - intros x l g. unfold qdirs. rewrite Hd, fmap_insert, lookup_insert_Some. intros [[_ [= _ <-]]|[_ E]]; [done|eauto].
  - unfold idx. by rewrite Hid, si_dircache, si_didname, si_count.
  - rewrite length_app. cbn. lia.
Qed.

Lemma add_enqueue_spec s d e : wf [d] s -> has_room s -> dirs s !! d = Some e -> qidx_node e = false -> is_ghost e = false ->
  wp oom (if arc_mode s then arc_case_iv_insert d else
            ok ← malloc;
            if negb ok then abort OutOfMemory else
            _ ← modify (upd_index_queue (fun q => q ++ [d]));
            _ ← set_dir d (upd_qidx_node (fun _ => true));
            _ ← modify (upd_queue_count inc);
            qc ← gets queue_count;
            track_peak qc) s (fun _ s' => enqueued d s s').
Proof.
  intros Hw Hr He Hqe Hg. destruct (arc_mode s) eqn:Em.
  - destruct (wf_arc _ _ Hw Em) as (Hwa & _ & Hpr). unfold has_room in Hr. rewrite Em in Hr.
    eapply wp_mono; [by eapply (case_iv_insert_spec oom [])|].
    intros _ s' (Hw' & Hb' & Ht1 & Ht2 & Hall & Hc & Hp & Hid & _).
    pose proof (qa_enabled _ _ (aw_q _ _ _ Hw') : arc_mode s' = true) as Em'.
    unfold enqueued, wf. rewrite !queued_arc, !cached_arc, Em', Ht1, Ht2 by done. split_and!; try congruence.
    solve_Permutation.
  - pose proof (wf_mem _ _ Hw) as Hm. wsteps. destruct b; cbn [negb]; wsteps; [|naive_solver]. unfold track_peak. wsteps.
    by eapply lru_enqueue.
Qed.

(** What becomes of the entries that do not clash with the new one: they stay
    while there is room; a full LRU queue loses one batch, the full ARC lists at
    most two entries, and the number of cached entries does not go down. *)
Definition others_kept (d : dirptr) (e : dir) (s s' : cstate) : Prop :=
  (forall x, x ∈ queued s' -> x = d \/ x ∈ survivors e s) /\
  (if Z.of_nat (length (survivors e s)) <? dircache_maxsize s then
     queued s' ≡ₚ d :: survivors e s /\ forall x, x ∈ cached_survivors e s -> x ∈ cached s'
   else if arc_mode s then
     (length (cached_survivors e s) <= length (cached s'))%nat /\ (length (survivors e s) <= length (queued s') + 1)%nat
   else index_queue s' = after_evict (curdir s) DIRCACHE_FREE_QUANTUM (index_queue s) ++ [d]).

(** What [dircache_add] establishes for the entry [e] at [d]. *)
Definition added_ok (v : vol) (d : dirptr) (e : dir) (s s' : cstate) : Prop :=
  wf [] s' /\ arc_mode s' = arc_mode s /\ d ∈ cached s' /\
  h_lookup (dircache s') (did_key e) = Some d /\ h_lookup (index_didname s') (name_key e) = Some d /\
  others_kept d e s s' /\
  (forall x w, curdir s = Some x -> x ∈ cached s -> idirs s !! x = Some w -> iv_file w = false ->
     curdir s' = Some x /\ x ∈ cached s' \/ same_keys e w /\ curdir s' = curdir_successor v d e).

Lemma wf_lookups s d e : wf [] s -> d ∈ queued s -> iv_did <$> idirs s !! d = Some (did_key e) ->
  iv_name <$> idirs s !! d = Some (name_key e) ->
  h_lookup (dircache s) (did_key e) = Some d /\ h_lookup (index_didname s) (name_key e) = Some d.
Proof.
  intros Hw Hd H1 H2. pose proof (wf_idx _ _ Hw) as Hi. rewrite app_nil_r in Hi. rewrite !h_lookup_law by apply Hi.
  split; [by apply (idx_m1 _ _ _ _ _ _ Hi)|by apply (idx_m2 _ _ _ _ _ _ Hi)].
Qed.

(** The entry a caller may add: allocated, on no queue, with valid IDs. *)
Definition addable (s : cstate) (d : dirptr) (e : dir) : Prop :=
  dirs s !! d = Some e /\ d ∉ queued s /\ is_ghost e = false /\
  2 <= ntohl (d_pdid e) /\ CNID_START <= ntohl (d_did e) /\ d_vid e <> 0.

Lemma add_size_ok s : wf [] s ->
  (if arc_mode s then h_count (dircache s) <=? u32(dircache_maxsize s * 2) else h_count (dircache s) <=? dircache_maxsize s) = true.
Proof.
  intros Hw. destruct (wf_counts _ Hw) as [-> _]. destruct (arc_mode s) eqn:Em; apply Z.leb_le.
  - destruct (wf_arc _ _ Hw Em) as (Hwa & [] & _). unfold MAX_DIRCACHE_SIZE in *.
    rewrite queued_arc, length_all_q, (aw_max _ _ _ Hwa), wrap_small by (done || lia). lia.
  - destruct (wf_lru _ _ Hw Em). rewrite queued_lru by done. lia.
Qed.

(** The state [s'] in which the new entry [e] is to be indexed, with room for
    it and no entry under its keys. *)
Definition prepared (e : dir) (s : cstate) (took : bool) (s' : cstate) : Prop :=
  wf [] s' /\ dframe s s' /\ has_room s' /\ curdir s' = (if took then None else curdir s) /\
  cur_step (same_keys e) took s s' /\
  h_lookup (dircache s') (did_key e) = None /\ h_lookup (index_didname s') (name_key e) = None /\
  exists s1, wf [] s1 /\ dframe s s1 /\ dframe s1 s' /\ spares e s s1 /\ made_room s1 s' /\ h_lookup (dircache s1) (did_key e) = None /\
    h_lookup (index_didname s1) (name_key e) = None.

Lemma prepare_spec e s took s1 : expunge_step (same_keys e) s took s1 ->
  h_lookup (dircache s1) (did_key e) = None -> h_lookup (index_didname s1) (name_key e) = None -> spares e s s1 ->
  wp oom (if arc_mode s1 then arc_case_iv_make_room else when (dircache_maxsize s1 <=? h_count (dircache s1)) dircache_evict) s1
    (fun _ s' => prepared e s took s').
Proof.
  intros (Hw1 & Hf1 & Hc1 & Hcs1) Hn1 Hn2 Hsp. eapply wp_mono; [apply wp_and; [by apply add_room_spec|by apply made_room_spec]|].
  intros _ s2 ((Hw2 & Hf2 & Hc2 & Hr2 & Hk2) & Hmade). split_and!; try done.
  - by eapply dframe_trans.
  - congruence.
  - intros x w Hx Hin Hw' Hnf. specialize (Hcs1 x w Hx Hin Hw' Hnf). destruct took; [done|]. apply Hk2; [congruence|done].
  - by apply (dframe_absent1 s1).
  - by apply (dframe_absent2 s1).
  - by exists s1.
Qed.

(** After the expunging exactly the survivors are queued. *)
Lemma spares_survivors e s s1 : wf [] s -> wf [] s1 -> dframe s s1 -> spares e s s1 ->
  h_lookup (dircache s1) (did_key e) = None -> h_lookup (index_didname s1) (name_key e) = None -> queued s1 ≡ₚ survivors e s.
Proof.
  intros Hw Hw1 Hf [Hsp _] Hn1 Hn2. apply NoDup_Permutation; [by eapply wf_nodup|by eapply survivors_nodup|]. intros x.
  rewrite elem_of_survivors. split; [|intros [? ?]; by apply Hsp]. intros Hx. split; [|by apply Hf].
  rewrite <- (clashes_view s s1) by (by apply Hf). destruct (clashes s1 e x) eqn:Ec; [|done].
  destruct (wf_entry _ _ _ Hw1 Hx) as (ex & Hex & _). pose proof (idirs_lookup _ _ _ Hex) as Hv.
  rewrite (clashes_keys _ _ _ _ Hv) in Ec. destruct (wf_lookups s1 x ex Hw1 Hx) as [Hl1 Hl2]; [by rewrite Hv..|].
  destruct Ec as [Ec|Ec]; [rewrite (Ec : did_key ex = _) in Hl1|rewrite (Ec : name_key ex = _) in Hl2]; congruence.
Qed.

Lemma prepared_kept d e s took s2 s5 : wf [] s -> prepared e s took s2 ->
  queued s5 ≡ₚ d :: queued s2 -> cached s5 ≡ₚ d :: cached s2 ->
  (arc_mode s2 = false -> index_queue s5 = index_queue s2 ++ [d]) -> others_kept d e s s5.
Proof.
  intros Hw (Hw2 & Hf2 & _ & _ & _ & Hn1 & Hn2 & s1 & Hw1 & Hf1 & Hf12 & Hsp & Hmade & Hn3 & Hn4) Hq5 Hc5 Hi5.
  pose proof (spares_survivors e s s1 Hw Hw1 Hf1 Hsp Hn3 Hn4) as Hsv. destruct Hsp as [Hsp Hall].
  assert (forall x, x ∈ queued s2 -> x ∈ survivors e s) as Hsub.
  { intros x Hx. rewrite <- Hsv. by apply Hf12. }
  split; [intros x; rewrite Hq5, elem_of_cons; naive_solver|].
  assert (cached_survivors e s ⊆+ cached s1) as Hcs.
  { apply NoDup_submseteq; [by eapply NoDup_filter, cached_nodup|]. intros x [? ?]%list_elem_of_filter. by apply Hsp. }
  unfold made_room in Hmade. rewrite (Permutation_length Hsv), (df_max _ _ Hf1), (df_mode _ _ Hf1) in Hmade. case_test.
  - subst s2. split; [by rewrite Hq5, Hsv|]. intros x [Hx Hin]%list_elem_of_filter. rewrite Hc5, elem_of_cons. right. by apply Hsp.
  - destruct (arc_mode s) eqn:Em.
    + apply Permutation_length in Hq5, Hc5, Hsv. apply submseteq_length in Hcs. cbn in *. lia.
    + assert (length (survivors e s) = length (queued s)) as Hlen.
      { pose proof (length_filter (fun x => clashes s e x = false) (queued s)). pose proof (wf_lru _ _ Hw Em) as [].
        rewrite queued_lru in * by done. unfold survivors in *. rewrite queued_lru in * by done. lia. }
      rewrite (Hall (survivors_all _ _ Hlen)) in Hmade. rewrite Hi5, Hmade; [done|]. by rewrite (df_mode _ _ Hf2).
Qed.

(** From there to the end. *)
Lemma enqueued_added v d e s took s2 s3 e3 s4 s5 : wf [] s -> addable s d e -> prepared e s took s2 -> iframe d s2 s3 ->
  dirs s3 !! d = Some e3 -> did_key e3 = did_key e -> name_key e3 = name_key e ->
  s4 = (if took then upd_curdir (fun _ => curdir_successor v d e) s3 else s3) -> enqueued d s4 s5 -> added_ok v d e s s5.
Proof.
  intros Hw Ha Hprep Hf3 He3 Hk1 Hk2 E4 (Hw5 & Hq5 & Hca5 & Hc5 & Hid5 & Em5 & Hi5).
  pose proof Hprep as (Hw2 & Hf2 & Hr2 & Hc2 & Hcs & Hn1 & Hn2 & _).
  destruct (queued_iframe _ _ _ Hf3) as (Eq3 & Ec3 & Em3).
  assert (idirs s4 = idirs s3 /\ queued s4 = queued s3 /\ cached s4 = cached s3 /\ arc_mode s4 = arc_mode s3 /\
    index_queue s4 = index_queue s3) as (Ed4 & Eq4 & Ec4 & Em4 & Ei4) by (subst s4; by destruct took).
  destruct (wf_lookups s5 d e Hw5) as [Hl1 Hl2].
  { rewrite Hq5. set_solver. }
  { rewrite Hid5, Ed4. unfold idirs. rewrite lookup_fmap, He3. cbn. by rewrite Hk1. }
  { rewrite Hid5, Ed4. unfold idirs. rewrite lookup_fmap, He3. cbn. by rewrite Hk2. }
  split_and!; try done.
  - by rewrite Em5, <- (df_mode _ _ Hf2), <- Em3.
  - rewrite Hca5. set_solver.
  - eapply prepared_kept; [done|exact Hprep|by rewrite Hq5, Eq4, Eq3|by rewrite Hca5, Ec4, Ec3|].
    intros Em2. rewrite Hi5, Ei4, (if_queue _ _ _ Hf3) by congruence. done.
  - intros x w Hx Hin Hw' Hnf. specialize (Hcs x w Hx Hin Hw' Hnf). rewrite Hc5, Hca5, Ec4, Ec3. subst s4.
    destruct took; [by right|left]. rewrite (if_cur _ _ _ Hf3), Hc2.
    split; [done|]. apply elem_of_cons. by right.
Qed.

Lemma add_spec v d e s : wf [] s -> addable s d e -> wp oom (dircache_add v d) s (fun _ s' => added_ok v d e s s').
Proof.
  intros Hw Hadd. pose proof Hadd as (He & Hd & Hg & Hp & Hcn & Hv).
  assert (qidx_node e = false) as Hqe by (apply not_true_iff_false; by rewrite (wf_qidx _ _ _ _ Hw He)).
  unfold dircache_add. wsteps. do 3 (apply wp_assert; [apply Z.leb_le || apply negb_true_iff, Z.eqb_neq; done|]; wsteps).
  apply wp_assert; [by apply add_size_ok|]. wsteps.
  eapply wp_mono; [by apply (expunge_both_spec e)|]. intros took1 s1 Hs1. wsteps.
  eapply wp_mono; [exact Hs1|]. intros took2 s2 (Hes & Hn1 & Hn2 & Hsp). clear Hs1. wsteps. pose proof Hes as (_ & Hf2 & _).
  rewrite <- (df_mode _ _ Hf2 : _ = enabled (arc_cache s)), <- (df_max _ _ Hf2).
  eapply wp_mono; [by apply (prepare_spec e s (took1 || took2))|]. intros [] s3 Hprep.
  pose proof Hprep as (Hw3 & Hf & Hr3 & _ & _ & Hn1' & Hn2' & _). assert (d ∉ queued s3) as Hd3 by (intros Hin; by apply Hd, Hf).
  wsteps. eapply wp_mono; [apply (add_index_spec s3 d e Hw3 Hr3 Hd3); [by rewrite (df_other _ _ Hf)|done..]|].
  intros [] s4 Hs4. wsteps. eapply wp_mono; [exact Hs4|]. intros [] s5 Hs5. apply wp_bind. eapply wp_mono; [exact Hs5|].
  intros _ s6 (Hw6 & Hf6 & Hr6 & e6 & He6 & Hk1 & Hk2 & Hq6 & Hg6). clear Hs4 Hs5. apply wp_bind.
  eapply wp_mono; [apply (when_spec _ _ (fun s => upd_curdir (fun _ => curdir_successor v d e) s))|]. intros [] s7 Es7.
  assert (wf [d] s7 /\ has_room s7 /\ dirs s7 = dirs s6 /\ arc_mode s7 = arc_mode s2) as (Hw7 & Hr7 & Ed7 & Em7).
  { destruct (queued_iframe _ _ _ Hf6) as (_ & _ & Em6). rewrite (df_mode _ _ Hf2), <- (df_mode _ _ Hf), <- Em6.
    rewrite Es7. destruct (took1 || took2); [split; [by apply wf_curdir|done]|done]. }
  rewrite <- Em7. apply wp_bind.
  eapply wp_mono; [eapply (add_enqueue_spec s7 d e6 Hw7 Hr7); [by rewrite Ed7|congruence|congruence]|].
  intros [] s8 Henq. pose proof (enqueued_added v d e s _ s3 s6 e6 s7 s8 Hw Hadd Hprep Hf6 He6 Hk1 Hk2 Es7 Henq) as Hok.
  destruct Henq as (Hw8 & _ & _ & _ & _ & Em8 & _). wsteps.
  assert (added_ok v d e s (upd_dircache_stat (upd_added inc) s8)) as Hok'.
  { destruct Hok as (? & ? & ? & ? & ? & ? & ?). split_and!; try done. by apply wf_stat. }
  destruct (arc_mode s7) eqn:Em; wsteps; [done|]. apply wp_assert; [|done].
  destruct (wf_counts _ Hw8) as [Hn8 Hm8]. rewrite (queued_lru s8) in * by congruence.
  pose proof (lw_count _ _ (wf_lru _ _ Hw8 Em8)) as Hcnt. cbn. rewrite Hn8, Hm8, Hcnt, !Z.eqb_refl. done.
Qed.

(** ** Hits *)

Definition hit_ok (d : dirptr) (s s' : cstate) : Prop :=
  wf [] s' /\ dframe s s' /\ curdir s' = curdir s /\ d ∈ cached s' /\
  (forall x, curdir s = Some x -> x ∈ cached s -> x ∈ cached s').

Lemma hit_done_ok d s s' : wf [] s -> arc_mode s = true -> hit_done oom [] d s s' -> hit_ok d s s'.
Proof.
  intros Hw Em (Hw' & Hf & Hb & Hd & Hk). destruct (wf_arc _ _ Hw Em) as (Hwa & _ & Hpr).
  pose proof (aframe_dframe _ _ _ Hwa Hw' Hf) as Hdf. assert (arc_mode s' = true) as Em' by (by rewrite (df_mode _ _ Hdf)).
  unfold hit_ok, wf. rewrite Em', !cached_arc by done. split_and!; try done.
  - by rewrite (af_promoting _ _ Hf).
  - apply Hf.
  - set_solver.
Qed.

Lemma hit_ok_stat d s s' f : hit_ok d s s' -> hit_ok d s (upd_dircache_stat f s').
Proof.
  intros (? & [] & ? & ? & ?). split_and!; try done. by apply wf_stat.
Qed.

(** A queued entry in ARC mode: its list, and the hit case for it. *)
Lemma arc_hit_spec d e s : wf [] s -> arc_mode s = true -> d ∈ queued s -> dirs s !! d = Some e ->
  wp oom (match arc_list e with
          | ARC_T1 | ARC_T2 => arc_case_i d
          | ARC_B1 => arc_case_ii_adapt_and_replace d
          | ARC_B2 => arc_case_iii_adapt_and_replace d
          | ARC_NONE => mret tt
          end) s (fun _ s' => hit_ok d s s') /\ is_ghost e = is_b (arc_list e) /\ arc_list e <> ARC_NONE.
Proof.
  intros Hw Em Hd He. destruct (wf_arc _ _ Hw Em) as (Hwa & Hb & Hpr). rewrite queued_arc in Hd by done.
  apply elem_of_all_q in Hd as [l Hl]. destruct (aw_entry _ _ _ _ _ Hwa Hl) as (e' & He' & _ & Hel & Hg).
  rewrite He in He'. injection He' as <-. rewrite Hel. split_and!; [|done|eapply qa_none; [by apply Hwa|done]].
  destruct l; [by cbn in Hl; set_solver|..];
    (eapply (wp_mono oom _ _ (fun _ s' => hit_done oom [] d s s')); [|intros [] s'; by apply hit_done_ok]).
  - by eapply case_i_spec.
  - by eapply case_i_spec.
  - by eapply case_ii_spec.
  - by eapply case_iii_spec.
Qed.

Lemma search_hit_spec d s : wf [] s -> d ∈ queued s -> wp oom (search_hit d) s (fun _ s' => hit_ok d s s').
Proof.
  intros Hw Hd. destruct (wf_entry _ _ _ Hw Hd) as (e & He & _). unfold search_hit. wsteps.
  destruct (arc_mode s) eqn:Em; rewrite (Em : enabled _ = _).
  - destruct (arc_hit_spec d e s Hw Em Hd He) as (Hcase & Hg & Hn). wsteps. rewrite Hg.
    destruct (arc_list e); try done; cbn [is_b]; wsteps;
      (eapply wp_mono; [exact Hcase|]; intros [] s' Hok; wsteps; by apply hit_ok_stat).
  - wsteps. apply hit_ok_stat. split_and!; try done. by rewrite cached_lru, <- queued_lru.
Qed.

Lemma promote_spec d s : wf [] s -> d ∈ queued s -> wp oom (dircache_promote d) s (fun _ s' => hit_ok d s s').
Proof.
  intros Hw Hd. destruct (wf_entry _ _ _ Hw Hd) as (e & He & Hqe). unfold dircache_promote. wsteps.
  destruct (arc_mode s) eqn:Em; rewrite (Em : enabled _ = _).
  - by destruct (arc_hit_spec d e s Hw Em Hd He) as (Hcase & _).
  - rewrite Hqe. cbn [when]. unfold lru_move_to_tail. wsteps. rewrite queued_lru in Hd by done. destruct (wf_lru _ _ Hw Em).
    assert (q_del d (index_queue s) ++ [d] ≡ₚ index_queue s) as Hp
      by (rewrite (q_del_perm d (index_queue s) lw_nd0 Hd) at 2; solve_Permutation).
    assert (index_queue (upd_index_queue (fun q => q_del d q ++ [d]) s) ≡ₚ index_queue s) as Hp' by exact Hp.
    unfold hit_ok, wf. rewrite !cached_lru by done. change (arc_mode (upd_index_queue _ s)) with (arc_mode s). rewrite Em.
    split_and!; try done.
    + constructor; rewrite ?Hp'; try done; [intros x; rewrite Hp'; apply lw_in0|].
      eapply idx_perm; [..|exact lw_i0]; by rewrite Hp'.
    + constructor; rewrite ?queued_lru by done; try done. intros x. by rewrite Hp'.
    + by rewrite Hp'.
    + intros x _. by rewrite Hp'.
Qed.

(** ** Closing a volume *)

Definition purged (vid : Z) (s s' : cstate) : Prop :=
  wf [] s' /\ dframe s s' /\ (forall x, x ∈ queued s' <-> x ∈ queued s /\ ~ on_vol (idirs s) vid x) /\
  (forall x, curdir s = Some x -> curdir s' = (if decide (x ∈ queued s /\ on_vol (idirs s) vid x) then Some rootParent else Some x)).

Lemma on_vol_entry (s : cstate) d e vid : dirs s !! d = Some e -> on_vol (idirs s) vid d <-> d_vid e = vid.
Proof. intros He. unfold on_vol. rewrite (idirs_lookup _ _ _ He). cbn. naive_solver. Qed.

(** Dropping one entry of the volume, then the others. *)
Lemma purged_cons vid d s s0 s1 s2 : d ∈ queued s -> on_vol (idirs s) vid d -> NoDup (queued s) -> rootParent ∉ queued s ->
  dirs s0 = dirs s -> queued s0 = queued s -> dframe s s0 ->
  curdir s0 = (if bool_decide (curdir s = Some d) then Some rootParent else curdir s) ->
  dropped d s0 s1 -> purged vid s1 s2 -> purged vid s s2.
Proof.
  intros Hd Hv Hnd Hroot Ed Eq Hf0 Hc0 (_ & Hf1 & Hp & _ & Hc1) (Hw2 & Hf2 & Hq2 & Hc2). rewrite Eq in Hp.
  assert (dframe s s1) as Hf by (by eapply dframe_trans).
  assert (forall x, x ∈ queued s1 <-> x <> d /\ x ∈ queued s) as Hin.
  { rewrite Hp, NoDup_cons in Hnd. intros x. rewrite Hp, elem_of_cons. destruct (decide (x = d)); naive_solver. }
  assert (forall x, x ∈ queued s1 -> on_vol (idirs s1) vid x <-> on_vol (idirs s) vid x) as Hov.
  { intros x Hx. unfold on_vol. by rewrite (df_keys _ _ Hf). }
  split_and!; [done|by eapply dframe_trans| |].
  - intros x. rewrite Hq2. split.
    + intros [Hx Hn]. rewrite Hov in Hn by done. apply Hin in Hx. tauto.
    + intros [Hx Hn]. assert (x ∈ queued s1) by (apply Hin; split; [by intros ->|done]). by rewrite Hov.
  - intros x Hx. case_bool_decide as Ec.
    + rewrite Hx in Ec. injection Ec as ->. rewrite decide_True by done.
      rewrite (Hc2 rootParent) by congruence. rewrite decide_False; [done|]. intros [Hr _]. apply Hin in Hr. tauto.
    + rewrite (Hc2 x) by congruence. assert (x ∈ queued s1 <-> x ∈ queued s) as Hxq by (rewrite Hin; split; [tauto|split; [congruence|done]]).
      do 2 case_decide; try done; exfalso; naive_solver.
Qed.

Lemma purge_loop_spec vid scan remaining s : wf [] s -> rootParent ∉ queued s -> NoDup scan -> (forall x, x ∈ scan -> x ∈ queued s) ->
  (forall x, x ∈ queued s -> on_vol (idirs s) vid x -> x ∈ scan) ->
  remaining = Z.of_nat (length (filter (on_vol (idirs s) vid) scan)) ->
  wp oom (purge_loop vid remaining scan) s (fun _ s' => purged vid s s').
Proof.
  revert remaining s. induction scan as [|d scan IH]; intros remaining s Hw Hroot Hnd Hsub Hall Hrem; cbn [purge_loop].
  - apply wp_ret. split_and!; try done; [split; [|tauto]|].
    + intros Hx. split; [done|]. intros Ho. by apply (Hall _ Hx) in Ho; set_solver.
    + intros x Hx. rewrite decide_False; [done|]. intros [Hin Ho]. by apply (Hall _ Hin) in Ho; set_solver.
  - destruct (Z.leb_spec remaining 0) as [Hle|Hlt].
    { assert (forall x, x ∈ queued s -> ~ on_vol (idirs s) vid x) as Hnone.
      { intros x Hx Ho. assert (x ∈ filter (on_vol (idirs s) vid) (d :: scan)) as Hin by (apply list_elem_of_filter; auto).
        destruct (filter _ _); [set_solver|cbn in Hrem; lia]. }
      apply wp_ret. split_and!; try done; [intros x; split; [auto|tauto]|].
      intros x Hx. rewrite decide_False; [done|]. intros [Hin Ho]. by apply (Hnone x). }
    apply NoDup_cons in Hnd as [Hdn Hnd]. destruct (wf_entry _ _ _ Hw (Hsub d ltac:(set_solver))) as (e & He & _).
    wsteps. destruct (Z.eqb_spec (d_vid e) vid) as [Ev|Ev]; cbn [negb].
    + pose proof (proj2 (on_vol_entry s d e vid He) Ev) as Ho. rewrite filter_cons_True in Hrem by done. cbn in Hrem.
      wsteps. eapply wp_mono; [apply when_spec|]. intros [] s0 E0. apply wp_bind.
      assert (wf [] s0 /\ dirs s0 = dirs s /\ queued s0 = queued s /\ dframe s s0) as (Hw0 & Ed0 & Eq0 & Hf0).
      { subst s0. case_bool_decide; [split; [by apply wf_curdir|]|]; split_and!; try done; by constructor. }
      eapply wp_mono; [apply (drop_spec d _ s0 Hw0); [rewrite Eq0; apply Hsub; set_solver|set_solver]|].
      intros [] s1 Hs1. apply wp_bind. eapply wp_mono; [exact Hs1|]. intros [] s2 Hdr. clear Hs1.
      pose proof Hdr as (Hw2 & Hf2 & Hp2 & _). rewrite Eq0 in Hp2. pose proof (dframe_trans _ _ _ Hf0 Hf2) as Hf.
      assert (forall x, x ∈ scan -> x ∈ queued s2) as Hsub2.
      { intros x Hx. pose proof (Hsub x ltac:(set_solver)) as Hin. rewrite Hp2 in Hin. set_solver. }
      eapply wp_mono; [apply (IH (remaining - 1) s2); try done|].
      * intros Hr. by apply Hroot, Hf.
      * intros x Hx Hox. unfold on_vol in Hox. rewrite (df_keys _ _ Hf) in Hox by done.
        pose proof (Hall x ltac:(by apply Hf) Hox) as Hin. apply elem_of_cons in Hin as [->|]; [|done].
        pose proof (wf_nodup _ _ Hw) as Hnd2. rewrite Hp2, NoDup_cons in Hnd2. tauto.
      * rewrite (list_filter_ext_in _ (on_vol (idirs s) vid)); [lia|]. intros x Hx. unfold on_vol.
        by rewrite (df_keys _ _ Hf) by auto.
      * intros [] s3 Hpu. eapply (purged_cons vid d s s0 s2 s3); try done; [apply Hsub; set_solver|by eapply wf_nodup|].
        subst s0. by case_bool_decide.
    + assert (~ on_vol (idirs s) vid d) as Ho by (by rewrite (on_vol_entry s d e vid He)).
      rewrite filter_cons_False in Hrem by done. apply IH; try done; [set_solver|].
      intros x Hx Hox. pose proof (Hall x Hx Hox) as Hin. apply elem_of_cons in Hin as [->|]; done.
Qed.

Lemma purge_vol_spec v s : wf [] s -> rootParent ∉ queued s ->
  wp oom (dircache_purge_vol v) s (fun _ s' => purged (v_vid v) s s').
Proof.
  intros Hw Hroot. pose proof (wf_idx _ _ Hw) as Hi. rewrite app_nil_r in Hi. pose proof (idx_scan _ _ _ Hi) as Hscan.
  pose proof (idx_vid _ _ _ _ _ _ Hi (v_vid v)) as Hcnt. fold (vid_count s (v_vid v)) in Hcnt.
  assert (NoDup (h_scan (dircache s))) as Hnd by (rewrite Hscan; by eapply wf_nodup).
  assert (forall rem, rem = vid_count s (v_vid v) ->
    wp oom (purge_loop (v_vid v) rem (h_scan (dircache s))) s (fun _ s' => purged (v_vid v) s s')) as Hloop.
  { intros rem ->. apply purge_loop_spec; try done.
    - intros x. by rewrite Hscan.
    - intros x. by rewrite Hscan.
    - rewrite Hcnt. by rewrite Hscan. }
  unfold dircache_purge_vol. wsteps. destruct (Z.eqb_spec (vid_count s (v_vid v)) 0) as [E|E]; [|wsteps; by apply Hloop].
  specialize (Hloop 0 (eq_sym E)). revert Hloop. destruct (h_scan (dircache s)); cbn [purge_loop]; done.
Qed.

(** A queued entry is cached exactly when it is not a ghost. *)
Lemma cached_ghost s d e : wf [] s -> d ∈ queued s -> dirs s !! d = Some e -> is_ghost e = false <-> d ∈ cached s.
Proof.
  intros Hw Hd He. assert (qdirs s !! d = Some (qview_of e)) as Hq by (unfold qdirs; by rewrite lookup_fmap, He).
  destruct (arc_mode s) eqn:Em.
  - destruct (wf_arc _ _ Hw Em) as (Hwa & _). rewrite cached_arc, elem_of_app by done. rewrite queued_arc in Hd by done.
    apply elem_of_all_q in Hd as [l Hl]. pose proof (qa_in _ _ (aw_q _ _ _ Hwa) d l Hl) as E. rewrite Hq in E. injection E as _ _ Hg.
    rewrite Hg. split.
    + destruct l; cbn in *; try done; [set_solver|auto..].
    + intros [Ht|Ht]; [assert (l = ARC_T1) as ->|assert (l = ARC_T2) as ->]; try done;
        eapply (qa_unique _ _ (aw_q _ _ _ Hwa) d); done.
  - rewrite cached_lru by done. rewrite queued_lru in Hd by done. split; [done|]. intros _.
    pose proof (wf_lru _ _ Hw Em) as Hl. apply (lw_in _ _ Hl) in Hd as (l & g & E). rewrite Hq in E.
    pose proof (lw_ghost _ _ Hl d (arc_list e) (is_ghost e)) as Hg. apply Hg. rewrite Hq. unfold qview_of in *. congruence.
Qed.

(** ** Allocating an entry, and starting up *)

Definition fresh_entry (e : dir) : Prop :=
  qidx_node e = false /\ d_index_node e = false /\ d_didname_node e = false /\ has (d_flags e) DIRF_INDEXED = false /\
  is_ghost e = false.

Lemma new_entry_wf s d e : wf [] s -> dirs s !! d = None -> fresh_entry e -> wf [] (upd_dirs (<[d := e]>) s).
Proof.
  intros Hw Hd (Hq & H1 & H2 & H3 & H4). pose proof (wf_idx _ _ Hw) as Hi. rewrite app_nil_r in Hi.
  assert (d ∉ queued s) as Hdq.
  { intros Hin. destruct (wf_entry _ _ _ Hw Hin) as (e0 & He0 & _). congruence. }
  assert (idx (queued s) (queued s) (upd_dirs (<[d := e]>) s)) as Hi'.
  { unfold idx. rewrite idirs_upd. by apply idx_outside. }
  assert (qdirs s !! d = None) as Hqd by (unfold qdirs; by rewrite lookup_fmap, Hd).
  unfold wf. change (arc_mode (upd_dirs _ s)) with (arc_mode s). destruct (arc_mode s) eqn:Em.
  - destruct (wf_arc _ _ Hw Em) as ([] & ? & ?). rewrite queued_arc in * by done. split_and!; try done.
    constructor; rewrite ?app_nil_r; try done. rewrite qdirs_upd. destruct aw_q. constructor; try done.
    + intros x l Hx. rewrite lookup_insert_ne; [by apply qa_in|]. intros ->. rewrite (qa_in _ _ Hx) in Hqd. done.
    + intros x l g. rewrite lookup_insert_Some. unfold qview_of. intros [[_ E]|[_ E]]; [congruence|by eapply qa_out].
  - destruct (wf_lru _ _ Hw Em). rewrite queued_lru in * by done. constructor; rewrite ?app_nil_r; try done.
    2: { intros x l g. rewrite qdirs_upd, lookup_insert_Some. unfold qview_of. intros [[_ E]|[_ E]]; [congruence|eauto]. }
    intros x. rewrite qdirs_upd. change (index_queue (upd_dirs _ s)) with (index_queue s). rewrite lw_in0. destruct (decide (x = d)) as [->|]; [|by rewrite lookup_insert_ne].
    rewrite Hqd, lookup_insert_eq. unfold qview_of. split; intros (l & g & E); congruence.
Qed.

Lemma round_up_spec fuel reqsize k : 10 <= k <= 20 -> reqsize <= MAX_DIRCACHE_SIZE -> (20 - k < Z.of_nat fuel) ->
  exists j, k <= j <= 20 /\ round_up fuel reqsize (2 ^ k) = 2 ^ j /\ reqsize <= 2 ^ j /\ (j = k \/ 2 ^ j < 2 * reqsize).
Proof.
  unfold MAX_DIRCACHE_SIZE. revert k. induction fuel as [|n IH]; intros k Hk Hr Hf; [lia|]. cbn [round_up]. unfold MAX_DIRCACHE_SIZE.
  destruct (Z.ltb_spec (2 ^ k) reqsize) as [Hlt|Hge]; cbn [andb].
  - destruct (decide (k = 20)) as [->|Hne].
    { change (2 ^ 20) with 1048576 in *. lia. }
    assert (2 ^ k <= 2 ^ 19) by (apply Z.pow_le_mono_r; lia).
    rewrite (proj2 (Z.ltb_lt _ _)) by lia. replace (2 ^ k * 2) with (2 ^ (k + 1)) by (rewrite Z.pow_add_r; lia).
    destruct (IH (k + 1)) as (j & Hj & Er & Hr1 & Hr2); [lia|done|lia|]. exists j. split_and!; try done; try lia.
    right. destruct Hr2 as [->|?]; [|done]. rewrite Z.pow_add_r by lia. lia.
  - exists k. split_and!; try done; try lia.
Qed.

Lemma resolve_size_range reqsize : MIN_DIRCACHE_SIZE <= dircache_resolve_size reqsize <= MAX_DIRCACHE_SIZE.
Proof.
  unfold dircache_resolve_size, MIN_DIRCACHE_SIZE, MAX_DIRCACHE_SIZE, DEFAULT_DIRCACHE_SIZE. repeat case_test; try lia.
  destruct (round_up_spec 11 reqsize 10) as (j & Hj & E & _); unfold MAX_DIRCACHE_SIZE; try lia. change (2 ^ 10) with 1024 in E.
  rewrite E. change 1024 with (2 ^ 10). change 1048576 with (2 ^ 20). split; apply Z.pow_le_mono_r; lia.
Qed.

(** An empty cache; the ARC lists need a size of 2 only. *)
Lemma setup_wf (use_arc : bool) m : (if use_arc then 2 else MIN_DIRCACHE_SIZE) <= m <= MAX_DIRCACHE_SIZE ->
  exists s, dircache_setup use_arc m = Some s /\ wf [] s /\
  arc_mode s = use_arc /\ dircache_maxsize s = m /\ queued s = [] /\ dirs s = ∅.
Proof.
  intros Hm. unfold dircache_setup. unfold MIN_DIRCACHE_SIZE, MAX_DIRCACHE_SIZE in Hm.
  assert (2 <= m <= 1048576) as Hm' by (destruct use_arc; lia).
  set (h := if use_arc then u32(m * 2) else m).
  assert (h = if use_arc then 2 * m else m) as Eh by (subst h; destruct use_arc; [rewrite wrap_small; lia|done]).
  assert (0 <= h <= 2 ^ 31) as Hh by (destruct use_arc; lia).
  destruct (h_create_law (K := Z * Z) (V := dirptr) (T := T1) h Hh) as (t1 & -> & Hw1 & Em1 & Hx1).
  destruct (h_create_law (K := Z * Z * list Z) (V := dirptr) (T := T2) h Hh) as (t2 & -> & Hw2 & Em2 & Hx2). cbn.
  assert (forall a q c, let s := Cstate ∅ t1 t2 a [] q c None None [] ∅ m (DircacheStat 0 0 0 0 0 0) [] [] in idx [] [] s) as Hi.
  { intros a q c. constructor; cbn; try done; try set_solver.
    - constructor.
    - constructor.
    - intros k d. rewrite Em1, lookup_empty. set_solver.
    - intros k d. rewrite Em2, lookup_empty. set_solver. }
  destruct use_arc; eexists; (split; [reflexivity|]); split_and!; try done; unfold wf, arc_mode; cbn.
  - split_and!; [constructor; cbn; try done; try lia|constructor; unfold sz, MAX_DIRCACHE_SIZE; cbn; lia|done].
    + constructor; try done.
      * intros d []; cbn; set_solver.
      * intros []; constructor.
      * by intros [].
    + apply Hi.
    + by right.
  - constructor; cbn; unfold MIN_DIRCACHE_SIZE, MAX_DIRCACHE_SIZE; try done; try lia.
    + intros d. split; [set_solver|]. intros (l & g & E). done.
    + constructor.
    + by right.
Qed.

Lemma init_wf use_arc reqsize : exists s, dircache_init use_arc reqsize = Some s /\ wf [] s /\
  arc_mode s = use_arc /\ dircache_maxsize s = dircache_resolve_size reqsize /\ queued s = [] /\ dirs s = ∅.
Proof.
  apply setup_wf. pose proof (resolve_size_range reqsize). unfold MIN_DIRCACHE_SIZE in *. destruct use_arc; lia.
Qed.

End Facts.
End Cache.
