(* ===== verification/DircacheTheorems.v ===== *)
(** * The directory cache: theorems

    The properties of the cache of etc/afpd/dircache.c, over the reachable
    states of the component, with the hash tables of [HashTable.v] as the
    tables of the witnesses. *)

From S2P Require Import Prelude HashTable Dircache DircacheIndex DircacheArc DircacheFacts.

Section Reach.
Context {T1 T2 : Type} {HO1 : HashOps T1 (Z * Z) dirptr} {HO2 : HashOps T2 (Z * Z * list Z) dirptr}.
Context {HL1 : HashLaws T1 (Z * Z) dirptr} {HL2 : HashLaws T2 (Z * Z * list Z) dirptr}.
Notation cstate := (@cstate T1 T2).

(** ** Runs of the component *)

(** The calls of the rest of the server: allocating an entry, adding it,
    finding it again, promoting it, removing it for good, closing a volume,
    changing the current directory; and the fate of the allocations to come. *)
Inductive op : Type :=
  | ONew (d : dirptr) (e : dir)
  | OAdd (v : vol) (d : dirptr)
  | OHit (d : dirptr)
  | OPromote (d : dirptr)
  | ODrop (d : dirptr)
  | OPurge (v : vol)
  | OChdir (d : dirptr)
  | OMemory (bs : list bool).

Definition run_op (o : op) : M unit :=
  match o with
  | ONew d e => modify (upd_dirs (<[d := e]>))
  | OAdd v d => dircache_add v d
  | OHit d => search_hit d
  | OPromote d => dircache_promote d
  | ODrop d => _ ← dircache_remove d DIRCACHE_ALL; dircache_defer_free d
  | OPurge v => dircache_purge_vol v
  | OChdir d => modify (upd_curdir (fun _ => Some d))
  | OMemory bs => modify (upd_mallocs (fun _ => bs))
  end.

(** What the callers guarantee: only an entry on no queue is added, under
    valid IDs, and only entries the cache holds are hit, promoted or removed. *)
Definition op_ok (s : cstate) (o : op) : Prop :=
  match o with
  | ONew d e => dirs s !! d = None /\ fresh_entry e /\ d <> rootParent
  | OAdd v d => d <> rootParent /\ exists e, addable s d e
  | OHit d | OPromote d | ODrop d => d ∈ queued s
  | OPurge _ | OChdir _ | OMemory _ => True
  end.

Inductive reach (s0 : cstate) : cstate -> Prop :=
  | reach_start : reach s0 s0
  | reach_step s o s' : reach s0 s -> op_ok s o -> run_op o s = Ok (tt, s') -> reach s0 s'.

Definition good (mode : bool) (s : cstate) : Prop := wf True [] s /\ rootParent ∉ queued s /\ arc_mode s = mode.

Lemma good_frame mode s s' : good mode s -> wf True [] s' -> dframe s s' -> good mode s'.
Proof.
  intros (_ & Hr & Hm) Hw Hf. split_and!; [done| |by rewrite (df_mode _ _ Hf)]. intros ?%Hf. done.
Qed.

Lemma op_good mode s o : good mode s -> op_ok s o -> wp True (run_op o) s (fun _ s' => good mode s').
Proof.
  intros Hg Hok. pose proof Hg as (Hw & Hr & Hm). destruct o as [d e|v d|d|d|d|v|d|bs]; cbn [run_op op_ok] in *.
  - wsteps. destruct Hok as (Hd & He & Hne). split; [by apply new_entry_wf|]. done.
  - destruct Hok as (Hne & e & Hadd). eapply wp_mono; [by eapply add_spec|]. intros _ s' (Hw' & Em & _ & _ & _ & [Hsub _] & _).
    split_and!; [done| |congruence]. intros [?|[_ ?]%elem_of_survivors]%Hsub; [congruence|done].
  - eapply wp_mono; [by apply search_hit_spec|]. intros _ s' (? & ? & _). by eapply good_frame.
  - eapply wp_mono; [by apply promote_spec|]. intros _ s' (? & ? & _). by eapply good_frame.
  - apply wp_bind. eapply wp_mono; [apply (drop_spec True d); [done|done|set_solver]|]. intros [] s1 Hs1.
    eapply wp_mono; [exact Hs1|]. intros _ s' (? & ? & _). by eapply good_frame.
  - eapply wp_mono; [by apply purge_vol_spec|]. intros _ s' (? & ? & _). by eapply good_frame.
  - wsteps. split; [by apply wf_curdir|done].
  - wsteps. split; [|done]. unfold wf in *. change (arc_mode (upd_mallocs _ s)) with (arc_mode s). destruct (arc_mode s).
    + destruct Hw as ([] & ? & ?). split_and!; try done. constructor; try done. by left.
    + destruct Hw. constructor; try done. by left.
Qed.

Lemma good_reach mode s0 s : good mode s0 -> reach s0 s -> good mode s.
Proof.
  intros Hg Hr. induction Hr as [|s o s' Hr IH Hok Hrun]; [done|].
  pose proof (op_good _ s o IH Hok) as Hwp. unfold wp in Hwp. by rewrite Hrun in Hwp.
Qed.

Lemma setup_good (use_arc : bool) m s0 : (if use_arc then 2 else MIN_DIRCACHE_SIZE) <= m <= MAX_DIRCACHE_SIZE ->
  dircache_setup use_arc m = Some s0 -> good use_arc s0.
Proof.
  intros Hm E0. destruct (setup_wf True use_arc m Hm) as (s1 & E1 & Hw & Hmode & _ & Hq & _). rewrite E0 in E1. injection E1 as <-.
  split_and!; [done| |done]. rewrite Hq. set_solver.
Qed.

Lemma reach_good use_arc reqsize s0 s : dircache_init use_arc reqsize = Some s0 -> reach s0 s -> good use_arc s.
Proof.
  intros E0. apply good_reach. eapply setup_good, E0. pose proof (resolve_size_range reqsize). unfold MIN_DIRCACHE_SIZE in *.
  destruct use_arc; lia.
Qed.

(** What every state is like between two operations: the queues hold each
    entry once and only entries that are alive; each index finds exactly the
    queued entries, under their own keys; the counters are the numbers of
    entries; and an entry is a ghost exactly when it is queued and not cached. *)
Record consistent (s : cstate) : Prop := {
  cs_once : NoDup (queued s);
  cs_alive d : d ∈ queued s -> is_Some (dirs s !! d);
  cs_did k d : h_lookup (dircache s) k = Some d <-> d ∈ queued s /\ did_key <$> dirs s !! d = Some k;
  cs_name k d : h_lookup (index_didname s) k = Some d <-> d ∈ queued s /\ name_key <$> dirs s !! d = Some k;
  cs_counts : h_count (dircache s) = Z.of_nat (length (queued s)) /\ h_count (index_didname s) = Z.of_nat (length (queued s));
  cs_ghost d e : d ∈ queued s -> dirs s !! d = Some e -> is_ghost e = true <-> d ∉ cached s;
  cs_vid vid : default 0 (vid_entry_count s !! vid) =
    Z.of_nat (length (filter (fun d => d_vid <$> dirs s !! d = Some vid) (queued s)));
  cs_sizes : if arc_mode s then forall l, get_size l (arc_cache s) = Z.of_nat (length (get_list l (arc_cache s)))
             else queue_count s = Z.of_nat (length (index_queue s)) /\ queue_count s <= dircache_maxsize s
}.

Lemma wf_consistent oom s : wf oom [] s -> consistent s.
Proof.
  intros Hw. pose proof (wf_idx _ _ _ Hw) as Hi. rewrite app_nil_r in Hi. constructor.
  - by eapply wf_nodup.
  - intros d Hd. destruct (wf_entry _ _ _ _ Hw Hd) as (e & -> & _). done.
  - intros k d. rewrite h_lookup_law by apply Hi. etrans; [apply (idx_m1 _ _ _ _ _ _ Hi)|]. unfold idirs. rewrite lookup_fmap.
    by destruct (dirs s !! d).
  - intros k d. rewrite h_lookup_law by apply Hi. etrans; [apply (idx_m2 _ _ _ _ _ _ Hi)|]. unfold idirs. rewrite lookup_fmap.
    by destruct (dirs s !! d).
  - by eapply wf_counts.
  - intros d e Hd He. rewrite <- (cached_ghost oom s d e Hw Hd He). by destruct (is_ghost e).
  - intros vid. rewrite (idx_vid _ _ _ _ _ _ Hi). do 2 f_equal. apply list_filter_iff. intros d.
    unfold on_vol, idirs. rewrite lookup_fmap. destruct (dirs s !! d); cbn; naive_solver.
  - unfold wf in Hw. destruct (arc_mode s); [apply (aw_q _ _ _ (proj1 Hw))|by destruct Hw].
Qed.

(** ** Theorems *)

(** C1: Whatever the server does with the cache after [dircache_init], in LRU
    or ARC mode and with any allocation failures, the state is [consistent],
    and the next operation, called within its contract [op_ok], fails no
    assertion that a release build compiles, does not panic and follows no
    dangling pointer: it returns in a consistent state, or the process exits for
    lack of memory.  [arc_verify_invariants], which only builds with DEBUG
    compile and which asserts too much, is apart: see [arc_bounds]. *)
Theorem dircache_ops_safe use_arc reqsize s0 s o :
  dircache_init use_arc reqsize = Some s0 -> reach s0 s -> op_ok s o ->
  consistent s /\
  match run_op o s with Ok (_, s') => consistent s' | Abort w => w = OutOfMemory end.
Proof.
  intros E0 Hr Hok. pose proof (reach_good _ _ _ _ E0 Hr) as Hg. split; [eapply wf_consistent, Hg|].
  pose proof (op_good _ s o Hg Hok) as Hwp. unfold wp in Hwp.
  destruct (run_op o s) as [[[] s']|w]; [eapply wf_consistent, Hwp|]. by destruct Hwp.
Qed.

(** The bounds of the ARC lists in every reachable state. *)
Lemma reach_arc_bounds c s0 s : 2 <= c <= MAX_DIRCACHE_SIZE -> dircache_setup true c = Some s0 -> reach s0 s ->
  let a := arc_cache s in
  t1_size a + t2_size a <= arc_c a /\ t1_size a + b1_size a <= arc_c a /\
  t1_size a + t2_size a + b1_size a + b2_size a <= 2 * arc_c a /\
  b1_size a + b2_size a <= arc_c a + 1 /\ 0 <= arc_p a <= arc_c a.
Proof.
  intros Hc E0 Hr. destruct (good_reach _ _ _ (setup_good true c s0 Hc E0) Hr) as (Hw & _ & Hm).
  destruct (wf_arc _ _ _ Hw Hm) as (Hwa & [] & _). cbv zeta. pose proof (qa_size _ _ (aw_q _ _ _ Hwa)) as Hs.
  rewrite (Hs ARC_T1 : t1_size _ = _), (Hs ARC_T2 : t2_size _ = _), (Hs ARC_B1 : b1_size _ = _), (Hs ARC_B2 : b2_size _ = _).
  split_and!; done || lia.
Qed.


(** C23: Removing an entry from everything and releasing it: neither index finds
    it under its keys any more, and the other entries stay indexed and queued. *)
Theorem dircache_remove_correct oom d e s : wf oom [] s -> d ∈ queued s -> dirs s !! d = Some e ->
  wp oom (_ ← dircache_remove d DIRCACHE_ALL; dircache_defer_free d) s (fun _ s' => wf oom [] s' /\
    h_lookup (dircache s') (did_key e) = None /\ h_lookup (index_didname s') (name_key e) = None /\
    queued s ≡ₚ d :: queued s' /\
    forall x ex, x <> d -> x ∈ queued s -> dirs s !! x = Some ex ->
      h_lookup (dircache s') (did_key ex) = Some x /\ h_lookup (index_didname s') (name_key ex) = Some x).
Proof.
  intros Hw Hd He. apply wp_bind. eapply wp_mono; [apply (drop_spec oom d); [done|done|set_solver]|]. intros [] s1 Hs1.
  eapply wp_mono; [exact Hs1|]. intros _ s' (Hw' & Hf & Hp & _ & _).
  assert (d ∉ queued s') as Hd' by (pose proof (wf_nodup _ _ _ Hw) as Hnd; rewrite Hp, NoDup_cons in Hnd; tauto).
  pose proof (idirs_lookup _ _ _ He) as Hv. pose proof (wf_idx _ _ _ Hw) as Hi. rewrite app_nil_r in Hi.
  split_and!; try done.
  - destruct (h_lookup (dircache s') (did_key e)) as [x|] eqn:Ex; [|done].
    apply (lookup_did_queued _ _ _ _ Hw') in Ex as [Hx Hk]. rewrite (df_keys _ _ Hf) in Hk by done.
    assert (h_map (dircache s) !! did_key e = Some x) as E1 by (apply (idx_m1 _ _ _ _ _ _ Hi); split; [by apply Hf|done]).
    assert (h_map (dircache s) !! did_key e = Some d) as E2 by (apply (idx_m1 _ _ _ _ _ _ Hi); by rewrite Hv).
    congruence.
  - destruct (h_lookup (index_didname s') (name_key e)) as [x|] eqn:Ex; [|done].
    apply (lookup_name_queued _ _ _ _ Hw') in Ex as [Hx Hk]. rewrite (df_keys _ _ Hf) in Hk by done.
    assert (h_map (index_didname s) !! name_key e = Some x) as E1 by (apply (idx_m2 _ _ _ _ _ _ Hi); split; [by apply Hf|done]).
    assert (h_map (index_didname s) !! name_key e = Some d) as E2 by (apply (idx_m2 _ _ _ _ _ _ Hi); by rewrite Hv).
    congruence.
  - intros x ex Hne Hx Hex. assert (x ∈ queued s') as Hx' by (rewrite Hp in Hx; set_solver).
    pose proof (idirs_lookup _ _ _ Hex) as Hvx. apply (wf_lookups oom); try done; by rewrite (df_keys _ _ Hf), Hvx.
Qed.

(** Closing a volume drops exactly its entries, in one scan that stops as
    early as the per-volume counter allows; a current directory on it falls
    back to [rootParent]. *)
Theorem dircache_purge_vol_correct oom v s : wf oom [] s -> rootParent ∉ queued s ->
  wp oom (dircache_purge_vol v) s (fun _ s' => wf oom [] s' /\
    (forall d e, dirs s !! d = Some e -> d ∈ queued s' <-> d ∈ queued s /\ d_vid e <> v_vid v) /\
    (forall d e, curdir s = Some d -> dirs s !! d = Some e -> d ∈ queued s ->
       curdir s' = Some (if d_vid e =? v_vid v then rootParent else d))).
Proof.
  intros Hw Hr. eapply wp_mono; [by apply purge_vol_spec|]. intros _ s' (Hw' & Hf & Hq & Hc). split_and!; [done| |].
  - intros d e He. by rewrite Hq, (on_vol_entry s d e _ He).
  - intros d e Hd He Hin. rewrite (Hc d Hd). pose proof (on_vol_entry s d e (v_vid v) He) as Hv.
    destruct (Z.eqb_spec (d_vid e) (v_vid v)); [rewrite decide_True|rewrite decide_False]; tauto || done.
Qed.

(** When the LRU cache is full, eviction takes its 256 least recently used
    entries off the queue in order, except the current directory, which moves
    to the most recently used end. *)
Theorem dircache_evict_lru oom s : wf oom [] s -> arc_mode s = false ->
  (DIRCACHE_FREE_QUANTUM < length (index_queue s))%nat ->
  wp oom dircache_evict s (fun _ s' => wf oom [] s' /\ curdir s' = curdir s /\
    index_queue s' = drop DIRCACHE_FREE_QUANTUM (index_queue s) ++
      filter (fun x => Some x = curdir s) (take DIRCACHE_FREE_QUANTUM (index_queue s))).
Proof.
  intros Hw Em Hl. eapply wp_mono; [by apply evict_spec|]. intros _ s' (? & _ & ? & ?). done.
Qed.

(** The lookup by ID finds exactly the cached entry of that ID: a ghost is
    kept for the algorithm's history and never returned. *)
Theorem lookup_did_cached oom v did s : wf oom [] s ->
  wp oom (dircache_lookup_did v did) s (fun r s' => s' = s /\
    forall d, r = Some d <-> d ∈ cached s /\ exists e, dirs s !! d = Some e /\ did_key e = (v_vid v, did)).
Proof.
  intros Hw. pose proof (wf_idx _ _ _ Hw) as Hi. rewrite app_nil_r in Hi.
  assert (forall d e, d ∈ cached s -> dirs s !! d = Some e -> did_key e = (v_vid v, did) ->
    h_lookup (dircache s) (v_vid v, did) = Some d /\ CNID_START <= ntohl did) as Hfound.
  { intros d e Hd%cached_queued He Hk. split; [rewrite <- Hk; by apply (idx_lookup1 _ _ _ _ _ Hi He)|].
    pose proof (idx_valid _ _ _ _ _ _ Hi d (iview_of e) (idirs_lookup _ _ _ He) (or_introl Hd)) as Hv.
    unfold iview_of in Hv. cbn in Hv. unfold did_key in Hk. by injection Hk as _ <-. }
  unfold dircache_lookup_did. destruct ((did =? CNID_INVALID) || (ntohl did <? CNID_START)) eqn:E.
  { wsteps. split; [done|]. intros d. split; [done|]. intros (Hd & e & He & Hk). destruct (Hfound d e Hd He Hk) as [_ Hv].
    apply orb_true_iff in E as [E|E]; bool_cases; [|lia]. subst did. vm_compute in Hv. by destruct Hv. }
  wsteps. destruct (h_lookup (dircache s) (v_vid v, did)) as [x|] eqn:Ex.
  2: { wsteps. split; [done|]. intros d. split; [done|]. intros (Hd & e & He & Hk). by destruct (Hfound d e Hd He Hk). }
  pose proof (lookup_did_queued _ _ _ _ Hw Ex) as [Hq Hk]. destruct (wf_entry _ _ _ _ Hw Hq) as (e & He & Hqe).
  rewrite (idirs_lookup _ _ _ He) in Hk. assert (did_key e = (v_vid v, did)) as Hke by (cbn in Hk; congruence). wsteps. split; [done|]. intros d.
  pose proof (cached_ghost oom s x e Hw Hq He) as Hgc. split.
  - destruct (is_ghost e); [done|]. intros [= <-]. split; [by apply Hgc|by exists e].
  - intros (Hd & e' & He' & Hk'). destruct (Hfound d e' Hd He' Hk') as [Hl _]. assert (d = x) as -> by congruence.
    by rewrite (proj2 Hgc Hd).
Qed.

(** A hit on an entry the cache holds, cached or ghost: it is cached
    afterwards, a ghost having been promoted; no entry comes in, the invariant
    holds, and a cached current directory is not evicted for it. *)
Theorem dircache_hit_correct oom d s : wf oom [] s -> d ∈ queued s ->
  wp oom (search_hit d) s (fun _ s' => wf oom [] s' /\ d ∈ cached s' /\ curdir s' = curdir s /\
    (forall x, x ∈ queued s' -> x ∈ queued s) /\
    (forall x, curdir s = Some x -> x ∈ cached s -> x ∈ cached s')).
Proof.
  intros Hw Hd. eapply wp_mono; [by apply search_hit_spec|]. intros _ s' (? & Hf & ? & ? & ?). split_and!; try done. apply Hf.
Qed.

(** ** REPLACE and the adaptation of the target size *)

(** [m] leaves [f] of the state alone. *)
Definition keeps {A B} (f : cstate -> B) (m : M A) : Prop :=
  forall s, match m s with Ok (_, s') => f s' = f s | Abort _ => True end.

Section Keeps.
Context {B : Type} (f : cstate -> B).
Lemma keeps_ret {A} (a : A) : keeps f (mret a).
Proof. by intros s. Qed.
Lemma keeps_bind {A C} (m : M A) (k : A -> M C) : keeps f m -> (forall a, keeps f (k a)) -> keeps f (m ≫= k).
Proof.
  intros Hm Hk s. unfold mbind, M_bind. specialize (Hm s). destruct (m s) as [[a s1]|]; [|done].
  specialize (Hk a s1). destruct (k a s1) as [[c s2]|]; [congruence|done].
Qed.
Lemma keeps_gets {A} (g : cstate -> A) : keeps f (gets g).
Proof. by intros s. Qed.
Lemma keeps_abort {A} w : keeps f (abort w : M A).
Proof. by intros s. Qed.
Lemma keeps_assert b : keeps f (afp_assert b).
Proof. by destruct b; intros s. Qed.
Lemma keeps_when b m : keeps f m -> keeps f (when b m).
Proof. intros Hm. destruct b; [done|by intros s]. Qed.
Lemma keeps_get_dir d : keeps f (get_dir d).
Proof. intros s. unfold get_dir. by destruct (dirs s !! d). Qed.
Lemma keeps_lift {A} (r : res A) : keeps f (lift r).
Proof. by destruct r; intros s. Qed.
Lemma keeps_modify g : (forall s, f (g s) = f s) -> keeps f (modify g).
Proof. intros Hg s. apply Hg. Qed.
End Keeps.

Definition target (s : cstate) : Z := arc_p (arc_cache s).

Lemma keeps_malloc : keeps target malloc.
Proof. intros s. unfold malloc. by destruct (mallocs s). Qed.
Lemma keeps_set_dir d g : keeps target (set_dir d g).
Proof. apply keeps_bind; [apply keeps_get_dir|]. intros e. by apply keeps_modify. Qed.
Lemma keeps_set_arc g : (forall a, arc_p (g a) = arc_p a) -> keeps target (set_arc g).
Proof. intros Hg. apply keeps_modify. intros s. apply Hg. Qed.

Ltac keeps_step :=
  lazymatch goal with
  | |- keeps _ (match ?x with _ => _ end) => destruct x
  | |- keeps _ (_ ≫= _) => apply keeps_bind; [|intros ?]
  | |- keeps _ (mret _) => apply keeps_ret
  | |- keeps _ (gets _) => apply keeps_gets
  | |- keeps _ (abort _) => apply keeps_abort
  | |- keeps _ (afp_assert _) => apply keeps_assert
  | |- keeps _ (when _ _) => apply keeps_when
  | |- keeps _ (get_dir _) => apply keeps_get_dir
  | |- keeps _ (set_dir _ _) => apply keeps_set_dir
  | |- keeps _ (lift _) => apply keeps_lift
  | |- keeps _ malloc => apply keeps_malloc
  | |- keeps _ (set_arc _) => apply keeps_set_arc; intros []; try done
  | |- keeps _ (modify _) => apply keeps_modify; done
  | |- keeps _ (emit _) => apply keeps_modify; done
  | |- keeps _ (set_stat _) => apply keeps_modify; done
  end.
Ltac keeps := repeat (keeps_step; cbv beta).

Lemma upd_size_p l g a : arc_p (upd_size l g a) = arc_p a.
Proof. by destruct l, a. Qed.
Lemma upd_list_p l g a : arc_p (upd_list l g a) = arc_p a.
Proof. by destruct l, a. Qed.

Lemma remove_keeps d flags : keeps target (dircache_remove d flags).
Proof.
  unfold dircache_remove, remove_queue_index, remove_didname_index, remove_did_index, queue_remove_node. keeps.
  all: apply upd_size_p.
Qed.
Lemma defer_free_keeps d : keeps target (dircache_defer_free d).
Proof. unfold dircache_defer_free. keeps. Qed.

Lemma evict_to_ghost_keeps v src dst : keeps target (arc_evict_to_ghost v src dst).
Proof.
  unfold arc_evict_to_ghost, arc_ensure_ghost_capacity, queue_remove_node, move_to_tail_of. keeps.
  all: try apply remove_keeps; try apply defer_free_keeps; rewrite ?upd_size_p, ?upd_list_p; done.
Qed.
Lemma find_victim_keeps q n : keeps target (arc_find_victim q n).
Proof. unfold arc_find_victim. keeps. Qed.
Lemma replace_keeps in_b2 : keeps target (arc_replace in_b2).
Proof.
  unfold arc_replace, arc_replace_from. keeps.
  all: try apply find_victim_keeps; apply evict_to_ghost_keeps.
Qed.
Lemma promote_ghost_keeps d src in_b2 : keeps target (promote_ghost d src in_b2).
Proof.
  unfold promote_ghost, move_to_tail_of. keeps; try apply replace_keeps; rewrite ?upd_size_p, ?upd_list_p; done.
Qed.

Lemma wp_keeps {A B} oom (f : cstate -> B) (m : M A) s Q : keeps f m -> wp oom m s Q ->
  wp oom m s (fun a s' => Q a s' /\ f s' = f s).
Proof. unfold wp. intros Hk HQ. specialize (Hk s). by destruct (m s) as [[a s']|]. Qed.

(** Promotion from the state with the new target size. *)
Lemma promote_adapted oom d s s1 src in_b2 : awf oom [] s -> bnd (arc_cache s) -> arc_promoting_ghost s = None ->
  d ∈ get_list src (arc_cache s) -> is_b src = true -> same_index s s1 -> dirs s1 = dirs s ->
  arc_eqv (arc_cache s) (arc_cache s1) -> 0 <= arc_p (arc_cache s1) <= arc_c (arc_cache s) ->
  curdir s1 = curdir s -> arc_promoting_ghost s1 = arc_promoting_ghost s ->
  wp oom (promote_ghost d src in_b2) s1 (fun _ s' => arc_p (arc_cache s') = arc_p (arc_cache s1) /\ d ∈ t2 (arc_cache s')).
Proof.
  intros Hw Hb Hpr Hd Hsrc Hsi Hds Ha Hp Hc Hpr1. destruct (awf_adapt oom [] s s1) as (Hw1 & Hb1 & _); try done.
  eapply wp_mono; [apply (wp_keeps oom target), (promote_ghost_spec oom [] s1 d src); try done; [apply promote_ghost_keeps| |]|].
  - by rewrite (get_list_same _ _ _ Ha).
  - congruence.
  - intros _ s' ((_ & _ & _ & ? & _) & ?). done.
Qed.

(** A hit on a ghost adapts the target size [p] of T1 as ARC prescribes: a
    B1 hit raises it by max(1, |B2|/|B1|), at most to [c]; a B2 hit lowers it by
    max(1, |B1|/|B2|), at least to 0.  The REPLACE that follows keeps it. *)
Theorem ghost_hit_adapts oom d s (in_b2 : bool) : awf oom [] s -> bnd (arc_cache s) -> arc_promoting_ghost s = None ->
  d ∈ (if in_b2 then b2 (arc_cache s) else b1 (arc_cache s)) ->
  wp oom (if in_b2 then arc_case_iii_adapt_and_replace d else arc_case_ii_adapt_and_replace d) s
    (fun _ s' => arc_p (arc_cache s') = p_after in_b2 (arc_cache s) /\ d ∈ t2 (arc_cache s')).
Proof.
  intros Hw Hb Hpr Hd. pose proof (small_size _ _ _ ARC_B1 Hw) as H1. pose proof (small_size _ _ _ ARC_B2 Hw) as H2.
  pose proof (adapt_bounds _ _ H1 H2). pose proof (adapt_bounds _ _ H2 H1). pose proof (bn_p _ Hb). pose proof (bn_c _ Hb).
  unfold p_after, MAX_DIRCACHE_SIZE in *. pose proof (qa_size _ _ (aw_q _ _ _ Hw)) as Hs.
  rewrite <- (Hs ARC_B1), <- (Hs ARC_B2). cbn [get_size] in *.
  destruct in_b2.
  - destruct (aw_entry _ _ _ _ ARC_B2 Hw Hd) as (e & He & Hqe & Hl & Hg). unfold arc_case_iii_adapt_and_replace. wsteps.
    apply wp_assert; [by apply bool_decide_eq_true|]. wsteps. apply wp_assert; [exact Hg|]. wsteps. rewrite Hqe. cbn [negb].
    apply wp_when; intros _; wsteps;
      (eapply wp_mono; [apply (promote_adapted oom d s _ ARC_B2); try done; cbn; case_test; lia
                       |intros _ s' [-> ?]; split; [cbn; case_test; lia|done]]).
  - destruct (aw_entry _ _ _ _ ARC_B1 Hw Hd) as (e & He & Hqe & Hl & Hg). unfold arc_case_ii_adapt_and_replace. wsteps.
    apply wp_assert; [by apply bool_decide_eq_true|]. wsteps. apply wp_assert; [exact Hg|]. wsteps. rewrite Hqe. cbn [negb].
    rewrite (wrap_small 64) by lia.
    apply wp_when; intros _; wsteps;
      (eapply wp_mono; [apply (promote_adapted oom d s _ ARC_B1); try done; cbn; case_test; lia
                       |intros _ s' [-> ?]; split; [cbn; case_test; lia|done]]).
Qed.

(** REPLACE evicts the least recently used entry other than the current
    directory from T1 when T1 exceeds its target size, or meets it on a B2 hit,
    else from T2, and from the other list when the first has nothing to give;
    the victim becomes the most recently used ghost of the matching list, whose
    oldest ghost is dropped when the ghosts fill [c]. *)
Theorem arc_replace_policy oom in_b2 s : awf oom [] s ->
  wp oom (arc_replace in_b2) s (fun _ s' => awf oom [] s' /\
    match replace_choice in_b2 (curdir s) (arc_cache s) with
    | Some (v, src, dst) => exists a1, trimmed dst (arc_promoting_ghost s) (arc_cache s) a1 /\
        get_list dst (arc_cache s') = get_list dst a1 ++ [v] /\
        get_list src (arc_cache s') = filter (fun x => x <> v) (get_list src (arc_cache s))
    | None => arc_cache s' = arc_cache s
    end).
Proof.
  intros Hw. eapply wp_mono; [by apply (replace_spec oom [])|]. intros _ s' (Hw' & _ & Hr). split; [done|].
  unfold replaced in Hr. destruct (replace_choice _ _ _) as [[[v src] dst]|] eqn:E; [|done].
  apply replace_choice_list in E as (Hlg & Hv & _). destruct Hr as (a1 & Ht & Ha). exists a1. split; [done|].
  destruct (trimmed_qarc _ _ _ _ _ (aw_q _ _ _ Hw) (sz_small _ _ _ _ Hw) Ht) as (qd1 & Hq1 & Hlist).
  assert (src <> dst /\ dst <> ARC_NONE) as [Hne Hn] by (destruct Hlg as [[-> ->]|[-> ->]]; done).
  rewrite !(get_list_same _ _ _ Ha), !get_list_ins, !get_list_del by done.
  rewrite (decide_True (P := dst = dst)), (decide_False (P := src = dst)), (decide_False (P := dst = src)), (decide_True (P := src = src)) by done.
  by rewrite (proj1 (Hlist src)).
Qed.

(** The configured cache size: a power of two between 1024 and 1048576, the
    smallest that holds the request when the request is in that range. *)
Theorem dircache_resolve_size_correct reqsize : exists j, 10 <= j <= 20 /\ dircache_resolve_size reqsize = 2 ^ j /\
  (MIN_DIRCACHE_SIZE <= reqsize <= MAX_DIRCACHE_SIZE -> reqsize <= 2 ^ j /\ (j = 10 \/ 2 ^ j < 2 * reqsize)).
Proof.
  unfold dircache_resolve_size, MIN_DIRCACHE_SIZE, MAX_DIRCACHE_SIZE, DEFAULT_DIRCACHE_SIZE. case_test; [|case_test].
  - destruct (round_up_spec 11 reqsize 10) as (j & Hj & E & Hr & Hk); unfold MAX_DIRCACHE_SIZE; try lia. exists j. done.
  - exists 20. split_and!; try done. lia.
  - exists 16. split_and!; try done. intros [? ?]. rewrite !andb_false_iff in E. naive_solver lia.
Qed.

(** ** Executable runs *)

Definition fresh_entryb (e : dir) : bool :=
  negb (qidx_node e) && negb (d_index_node e) && negb (d_didname_node e) && negb (has (d_flags e) DIRF_INDEXED) && negb (is_ghost e).
Definition addableb (s : cstate) (d : dirptr) : bool :=
  match dirs s !! d with
  | Some e => negb (bool_decide (d ∈ queued s)) && negb (is_ghost e) && (2 <=? ntohl (d_pdid e)) &&
              (CNID_START <=? ntohl (d_did e)) && negb (d_vid e =? 0)
  | None => false
  end.
Definition op_okb (s : cstate) (o : op) : bool :=
  match o with
  | ONew d e => bool_decide (dirs s !! d = None) && fresh_entryb e && negb (bool_decide (d = rootParent))
  | OAdd v d => negb (bool_decide (d = rootParent)) && addableb s d
  | OHit d | OPromote d | ODrop d => bool_decide (d ∈ queued s)
  | OPurge _ | OChdir _ | OMemory _ => true
  end.
Fixpoint run_ops (os : list op) (s : cstate) : option cstate :=
  match os with
  | [] => Some s
  | o :: os => if op_okb s o then match run_op o s with Ok (_, s') => run_ops os s' | Abort _ => None end else None
  end.

Lemma addableb_ok s d : addableb s d = true -> exists e, addable s d e.
Proof.
  unfold addableb. destruct (dirs s !! d) as [e|] eqn:E; [|done]. intros Hb. bool_cases. exists e. done.
Qed.
Lemma op_okb_ok s o : op_okb s o = true -> op_ok s o.
Proof.
  destruct o; cbn; intros Hb; unfold fresh_entryb in *; bool_cases; try done. split; [done|]. by apply addableb_ok.
Qed.
Lemma run_ops_reach s0 os s s' : reach s0 s -> run_ops os s = Some s' -> reach s0 s'.
Proof.
  revert s. induction os as [|o os IH]; intros s Hr E; cbn in E; [by injection E as <-|].
  destruct (op_okb s o) eqn:Eo; [|done]. destruct (run_op o s) as [[[] s1]|] eqn:E1; [|done].
  eapply IH; [|done]. eapply reach_step; [done|by apply op_okb_ok|done].
Qed.

End Reach.

(** ** The tables of the server *)

Lemma hash_vid_did_range k : 0 <= hash_vid_did k < 2 ^ 32.
Proof. destruct k. apply wrap_range. lia. Qed.
Lemma hash_didname_range k : 0 <= hash_didname k < 2 ^ 32.
Proof. destruct k as [[vid pdid] name]. apply wrap_range. lia. Qed.
Lemma hash_comp_vid_did_eq a b : hash_comp_vid_did a b = 0 <-> a = b.
Proof.
  destruct a as [v1 d1], b as [v2 d2]. unfold hash_comp_vid_did. cbn.
  destruct (Z.eqb_spec d1 d2), (Z.eqb_spec v1 v2); cbn; naive_solver.
Qed.
Lemma hash_comp_didname_eq a b : hash_comp_didname a b = 0 <-> a = b.
Proof.
  destruct a as [[v1 d1] n1], b as [[v2 d2] n2]. unfold hash_comp_didname. cbn.
  destruct (Z.eqb_spec v1 v2), (Z.eqb_spec d1 d2); cbn; try naive_solver. case_bool_decide; naive_solver.
Qed.

Definition did_table : Type := hash_t (Z * Z) dirptr.
Definition name_table : Type := hash_t (Z * Z * list Z) dirptr.
#[export] Instance did_table_ops : HashOps did_table (Z * Z) dirptr := table_hash_ops hash_vid_did hash_comp_vid_did.
#[export] Instance name_table_ops : HashOps name_table (Z * Z * list Z) dirptr := table_hash_ops hash_didname hash_comp_didname.
#[export] Instance did_table_laws : HashLaws did_table (Z * Z) dirptr :=
  table_hash_laws hash_vid_did hash_comp_vid_did hash_vid_did_range hash_comp_vid_did_eq.
#[export] Instance name_table_laws : HashLaws name_table (Z * Z * list Z) dirptr :=
  table_hash_laws hash_didname hash_comp_didname hash_didname_range hash_comp_didname_eq.

(** An entry with the directory ID [did], parent 2 and a one-byte name. *)
Definition sample (did : Z) : dir :=
  Dir (htonl did) (htonl 2) 1 [did] None 0 ARC_NONE false false false false.
Definition sample_vol : vol := Vol 1 None.

(** A server that has started and gone through [os]. *)
Definition started (use_arc : bool) (os : list op) : option (@cstate did_table name_table) :=
  s ← dircache_init use_arc 1024; run_ops os s.

Lemma started_ok use_arc os s : started use_arc os = Some s -> exists s0, dircache_init use_arc 1024 = Some s0 /\ reach s0 s.
Proof.
  unfold started. destruct (dircache_init use_arc 1024) as [s0|] eqn:E0; [|done]. cbn. intros E.
  exists s0. split; [done|]. eapply run_ops_reach; [apply reach_start|done].
Qed.

Definition two_entries : list op :=
  [ONew 2 (sample 20); OAdd sample_vol 2; ONew 3 (sample 21); OAdd sample_vol 3; ONew 4 (sample 22)].

Lemma two_entries_run : is_Some (started true two_entries).
Proof. vm_compute. eauto. Qed.

(** The entry at [d] of a run, and the test that an operation is in contract. *)
Lemma started_op use_arc os o s : started use_arc os = Some s ->
  (st ← started use_arc os; Some (op_okb st o)) = Some true -> op_ok s o.
Proof. intros ->. cbn. intros [= E]. by apply op_okb_ok. Qed.

Lemma dircache_ops_safe_witness : exists s0 s : @cstate did_table name_table,
  dircache_init true 1024 = Some s0 /\ reach s0 s /\ op_ok s (OAdd sample_vol 4) /\
  consistent s /\ match run_op (OAdd sample_vol 4) s with Ok (_, s') => consistent s' | Abort w => w = OutOfMemory end.
Proof.
  destruct two_entries_run as [s E]. destruct (started_ok _ _ _ E) as (s0 & E0 & Hr).
  assert (op_ok s (OAdd sample_vol 4)) as Hok by (eapply started_op; [exact E|vm_compute; reflexivity]).
  exists s0, s. split; [exact E0|]. split; [exact Hr|]. split; [exact Hok|].
  apply (dircache_ops_safe true 1024 s0 s (OAdd sample_vol 4) E0 Hr Hok).
Defined.

(** Facts about the run of [two_entries] the other witnesses share. *)
Lemma two_entries_facts s : started true two_entries = Some s ->
  wf True [] s /\ addable s 4 (sample 22) /\ 2%positive ∈ queued s /\ rootParent ∉ queued s /\
  exists e, dirs s !! 2%positive = Some e /\ did_key e = (1, htonl 20).
Proof.
  intros E. destruct (started_ok _ _ _ E) as (s0 & E0 & Hr). destruct (reach_good _ _ _ _ E0 Hr) as (Hw & Hroot & _).
  assert (op_ok s (OAdd sample_vol 4)) as (_ & e & Ha) by (eapply started_op; [exact E|vm_compute; reflexivity]).
  assert (op_ok s (OHit 2)) as Hh by (eapply started_op; [exact E|vm_compute; reflexivity]).
  assert ((st ← started true two_entries; Some (dirs st !! 4%positive, did_key <$> dirs st !! 2%positive))
    = Some (Some (sample 22), Some (1, htonl 20))) as Ed by (vm_compute; reflexivity).
  rewrite E in Ed. cbn in Ed. injection Ed as Ed4 Ed2. clear E E0 Hr.
  split_and!; try done.
  - destruct Ha as (He & ?). rewrite Ed4 in He. injection He as <-. done.
  - apply fmap_Some in Ed2 as (e2 & ? & ->). eauto.
Qed.


Lemma dircache_remove_correct_witness : exists s : @cstate did_table name_table,
  wf True [] s /\ 2%positive ∈ queued s /\
  wp True (_ ← dircache_remove 2 DIRCACHE_ALL; dircache_defer_free 2) s
    (fun _ s' => h_lookup (dircache s') (1, htonl 20) = None).
Proof.
  destruct two_entries_run as [s E]. destruct (two_entries_facts s E) as (Hw & _ & Hq & _ & e & He & Hk).
  exists s. split_and!; [exact Hw|exact Hq|]. rewrite <- Hk.
  eapply wp_mono; [apply (dircache_remove_correct True 2 e s Hw Hq He)|].
  intros _ s' (_ & H & _). exact H.
Defined.

Lemma dircache_purge_vol_correct_witness : exists s : @cstate did_table name_table,
  wf True [] s /\ 2%positive ∈ queued s /\
  wp True (dircache_purge_vol sample_vol) s (fun _ s' => 2%positive ∉ queued s').
Proof.
  destruct two_entries_run as [s E]. destruct (two_entries_facts s E) as (Hw & _ & Hq & Hr & e & He & Hk).
  exists s. split_and!; [exact Hw|exact Hq|].
  eapply wp_mono; [apply (dircache_purge_vol_correct True sample_vol s Hw Hr)|].
  intros _ s' (_ & H & _). rewrite (H _ _ He). injection Hk as Hv _. rewrite Hv. tauto.
Defined.

Lemma lookup_did_cached_witness : exists s : @cstate did_table name_table,
  wf True [] s /\ wp True (dircache_lookup_did sample_vol (htonl 20)) s (fun r s' => s' = s /\
    (r = Some 2%positive <-> 2%positive ∈ cached s /\ exists e, dirs s !! 2%positive = Some e /\ did_key e = (1, htonl 20))).
Proof.
  destruct two_entries_run as [s E]. destruct (two_entries_facts s E) as (Hw & _).
  exists s. split; [exact Hw|].
  eapply wp_mono; [apply (lookup_did_cached True sample_vol (htonl 20) s Hw)|].
  intros r s' [-> H]. split; [reflexivity|apply H].
Defined.

Lemma dircache_hit_correct_witness : exists s : @cstate did_table name_table,
  wf True [] s /\ 2%positive ∈ queued s /\ wp True (search_hit 2) s (fun _ s' => 2%positive ∈ cached s').
Proof.
  destruct two_entries_run as [s E]. destruct (two_entries_facts s E) as (Hw & _ & Hq & _).
  exists s. split_and!; [exact Hw|exact Hq|].
  eapply wp_mono; [apply (dircache_hit_correct True 2 s Hw Hq)|]. intros _ s' (_ & H & _). exact H.
Defined.

Lemma arc_replace_policy_witness : exists s : @cstate did_table name_table,
  awf True [] s /\ wp True (arc_replace false) s (fun _ s' => awf True [] s' /\ b1 (arc_cache s') = [2%positive]).
Proof.
  destruct two_entries_run as [s E]. destruct (started_ok _ _ _ E) as (s0 & E0 & Hr).
  destruct (reach_good _ _ _ _ E0 Hr) as (Hw & _ & Hm). destruct (wf_arc _ _ _ Hw Hm) as (Hwa & _ & Hpr).
  assert ((st ← started true two_entries; Some (replace_choice false (curdir st) (arc_cache st), b1 (arc_cache st)))
    = Some (Some (2%positive, ARC_T1, ARC_B1), [])) as Ec by (vm_compute; reflexivity).
  rewrite E in Ec. cbn in Ec. injection Ec as Ec Eb.
  exists s. split; [exact Hwa|]. eapply wp_mono; [apply (arc_replace_policy True false s Hwa)|].
  intros _ s' [H1 H2]. split; [exact H1|]. rewrite Ec in H2. destruct H2 as (a1 & Ht & Hb & _). cbn in Hb. rewrite Hb.
  destruct Ht as [[Ha _]|(g & Hg & _)].
  - rewrite (ae_list _ _ Ha ARC_B1 : b1 a1 = _). cbn. rewrite Eb. reflexivity.
  - cbn in Hg. rewrite Eb in Hg. apply not_elem_of_nil in Hg. contradiction.
Defined.

(** The two entries, after one REPLACE. *)
Definition one_ghost : option (@cstate did_table name_table) :=
  s ← started true two_entries; match arc_replace false s with Ok (_, s') => Some s' | Abort _ => None end.

Lemma one_ghost_lists : (st ← one_ghost; Some (t1 (arc_cache st), t2 (arc_cache st), b1 (arc_cache st), b2 (arc_cache st),
    arc_c (arc_cache st), arc_p (arc_cache st))) = Some ([3%positive], [], [2%positive], [], 1024, 0).
Proof. vm_compute. reflexivity. Qed.

Lemma one_ghost_facts s : one_ghost = Some s ->
  awf True [] s /\ bnd (arc_cache s) /\ arc_promoting_ghost s = None /\ b1 (arc_cache s) = [2%positive].
Proof.
  intros E. pose proof one_ghost_lists as El. rewrite E in El. cbn in El. injection El as E1 E2 E3 E4 E5 E6.
  unfold one_ghost in E. destruct (started true two_entries) as [s1|] eqn:Es; [|discriminate E]. cbn in E.
  destruct (started_ok _ _ _ Es) as (s0 & E0 & Hr). clear Es.
  destruct (reach_good _ _ _ _ E0 Hr) as (Hw & _ & Hm). clear E0 Hr. destruct (wf_arc _ _ _ Hw Hm) as (Hwa & _ & Hpr).
  pose proof (replace_spec True [] s1 false Hwa) as Hwp. unfold wp in Hwp.
  destruct (arc_replace false s1) as [[r s2]|]; [|discriminate E]. injection E as ->. destruct Hwp as (Hw' & Hf & _).
  split_and!; [done| |by rewrite (af_promoting _ _ Hf)|done].
  constructor; unfold sz, MAX_DIRCACHE_SIZE; cbn; rewrite ?E1, ?E2, ?E3, ?E4, ?E5, ?E6; cbn; lia.
Qed.

Lemma ghost_hit_adapts_witness : exists s : @cstate did_table name_table,
  awf True [] s /\ bnd (arc_cache s) /\ 2%positive ∈ b1 (arc_cache s) /\
  wp True (arc_case_ii_adapt_and_replace 2) s (fun _ s' => arc_p (arc_cache s') = 1 /\ 2%positive ∈ t2 (arc_cache s')).
Proof.
  pose proof one_ghost_lists as El. destruct one_ghost as [s|] eqn:E; [|discriminate El].
  destruct (one_ghost_facts s E) as (Hw & Hb & Hpr & Hb1). cbn in El. injection El as _ _ _ E4 E5 E6. clear E.
  assert (2%positive ∈ b1 (arc_cache s)) as Hin by (rewrite Hb1; apply elem_of_cons; left; reflexivity).
  exists s. split_and!; [exact Hw|exact Hb|exact Hin|].
  eapply wp_mono; [apply (ghost_hit_adapts True 2 s false Hw Hb Hpr Hin)|].
  intros _ s' [Hp Ht]. split; [|exact Ht]. rewrite Hp. unfold p_after, sz. cbn. rewrite Hb1, E4, E5, E6. reflexivity.
Defined.

(** ** The bound on the ghosts

    [arc_verify_invariants], which debug builds run after every change, also
    asserts |B1| + |B2| <= c.  The algorithm exceeds it: when removals have
    left the cache short of [c] entries, B2 holds [c] ghosts and B1 none, the
    next REPLACE from T1 has no B1 ghost to drop and adds one. *)
Definition new_add (d : dirptr) : list op := [ONew d (sample (16 + Zpos d)); OAdd sample_vol d].
Definition ptrs (a n : nat) : list dirptr := Pos.of_nat <$> seq a n.

(** [c] entries, all hit; [c] more that push them to B2, each hit in its turn;
    one removal and two additions. *)
Definition ghost_trace (c : nat) : list op :=
  concat (new_add <$> ptrs 2 c) ++ (OHit <$> ptrs 2 c) ++
  concat ((fun d => new_add d ++ [OHit d]) <$> ptrs (2 + c) c) ++
  [ODrop (Pos.of_nat (2 + c))] ++ new_add (Pos.of_nat (2 + 2 * c)) ++ new_add (Pos.of_nat (3 + 2 * c)).

Definition ghosts_after (c : nat) : option (@cstate did_table name_table) :=
  s ← dircache_setup true (Z.of_nat c); run_ops (ghost_trace c) s.

Lemma ghost_trace_run : (st ← ghosts_after 8;
    Some (b1_size (arc_cache st) + b2_size (arc_cache st), arc_c (arc_cache st), arc_verify_invariants st)) = Some (9, 8, false).
Proof. vm_compute. reflexivity. Qed.

(** C8: In ARC mode, with any size [c] from 2 to the largest that
    [dircache_resolve_size] gives, every state that operations within their
    contract reach has at most [c] cached entries, at most [c] in T1 and B1, at
    most [2c] in all and a target size in [0, c].  The ghosts are at most [c + 1]
    and not, as [arc_verify_invariants] asserts and the documentation says, at
    most [c]: a run of ordinary calls, here with a size of 8, ends with [c + 1] of
    them in a state that a debug build aborts on. *)
Theorem arc_bounds :
  (forall c (s0 s : @cstate did_table name_table),
     2 <= c <= MAX_DIRCACHE_SIZE -> dircache_setup true c = Some s0 -> reach s0 s ->
     let a := arc_cache s in
     t1_size a + t2_size a <= arc_c a /\ t1_size a + b1_size a <= arc_c a /\
     t1_size a + t2_size a + b1_size a + b2_size a <= 2 * arc_c a /\
     b1_size a + b2_size a <= arc_c a + 1 /\ 0 <= arc_p a <= arc_c a) /\
  (exists s0 s : @cstate did_table name_table, dircache_setup true 8 = Some s0 /\ reach s0 s /\
     b1_size (arc_cache s) + b2_size (arc_cache s) = arc_c (arc_cache s) + 1 /\ arc_verify_invariants s = false).
Proof.
  split; [intros c s0 s; apply reach_arc_bounds|]. pose proof ghost_trace_run as E. unfold ghosts_after in E.
  change (Z.of_nat 8) with 8 in E. destruct (dircache_setup true 8) as [s0|] eqn:E0; [|discriminate E].
  cbn [mbind option_bind] in E.
  destruct (run_ops (ghost_trace 8) s0) as [s|] eqn:Er; [|discriminate E].
  cbn in E. injection E as E1 E2 E3. exists s0, s. split; [reflexivity|]. split; [|by rewrite E1, E2, E3].
  eapply run_ops_reach; [apply reach_start|exact Er].
Qed.

(** ** A reference table

    A finite map with a capacity satisfies the interface of the tables too. *)
Section RefTable.
Context {K V : Type} `{Countable K}.

Definition ref_table : Type := Z * gmap K V.
Definition ref_ops : HashOps ref_table K V := {|
  h_create _ _ m := Some (m, ∅);
  h_lookup t k := t.2 !! k;
  h_insert _ k v t := if bool_decide (t.2 !! k = None) && (Z.of_nat (size t.2) <? t.1) then Ok (t.1, <[k := v]> t.2) else Abort Assertion;
  h_delete _ _ k t := if bool_decide (is_Some (t.2 !! k)) then Ok (t.1, delete k t.2) else Abort Assertion;
  h_count t := Z.of_nat (size t.2);
  h_max t := t.1;
  h_size _ := 1;
  h_chain t _ := (map_to_list t.2).*2
|}.
#[local] Existing Instance ref_ops.
Program Definition ref_laws : HashLaws ref_table K V := {| h_wf _ := True; h_map t := t.2 |}.
Next Obligation. intros m Hm. by exists (m, ∅). Qed.
Next Obligation. done. Qed.
Next Obligation. done. Qed.
Next Obligation.
  intros ok k v t _ Hk Hlt. cbn in *. rewrite bool_decide_eq_true_2, (proj2 (Z.ltb_lt _ _)) by done. by eexists.
Qed.
Next Obligation. intros ns ok k v t _ Hk. cbn. rewrite bool_decide_eq_true_2 by eauto. by eexists. Qed.
Next Obligation. intros t _. change ((map_to_list t.2).*2 ++ [] ≡ₚ (map_to_list t.2).*2). by rewrite app_nil_r. Qed.
End RefTable.

Definition lru_entries : list op := concat (new_add ∘ Pos.of_nat <$> seq 2 257).

#[local] Existing Instances ref_ops ref_laws.
Definition lru_run : option (@cstate (@ref_table (Z * Z) dirptr _ _) (@ref_table (Z * Z * list Z) dirptr _ _)) :=
  s ← dircache_init false 1024; run_ops lru_entries s.

Lemma lru_run_queue : (st ← lru_run; Some (length (index_queue st))) = Some 257%nat.
Proof. vm_compute. reflexivity. Qed.

Lemma dircache_evict_lru_witness : exists s : @cstate (@ref_table (Z * Z) dirptr _ _) (@ref_table (Z * Z * list Z) dirptr _ _),
  wf True [] s /\ length (index_queue s) = 257%nat /\
  wp True dircache_evict s (fun _ s' => (length (index_queue s') <= 257)%nat).
Proof.
  pose proof lru_run_queue as El. unfold lru_run in El. destruct (dircache_init false 1024) as [s0|] eqn:E0; [|discriminate El].
  cbn [mbind option_bind] in El. destruct (run_ops lru_entries s0) as [s|] eqn:Er; [|discriminate El]. injection El as El.
  destruct (reach_good false 1024 s0 s E0 (run_ops_reach _ _ _ _ (reach_start s0) Er)) as (Hw & _ & Hm). clear Er E0.
  exists s. split_and!; [exact Hw|exact El|].
  eapply wp_mono; [apply (dircache_evict_lru True s Hw Hm); rewrite El; unfold DIRCACHE_FREE_QUANTUM; lia|].
  intros _ s' (_ & _ & Hq). rewrite Hq. pose proof (length_after_evict (curdir s) DIRCACHE_FREE_QUANTUM (index_queue s)) as Hl.
  unfold after_evict in Hl. rewrite El in Hl. apply Hl.
Defined.
