(* ===== verification/AdLock.v ===== *)
(** * Byte range and share mode locks on forks, libatalk/adouble/ad_lock.c

    The kernel's fcntl locks belong to the process, so each descriptor keeps an
    array of the ranges its AFP forks hold, in order of start, each entry with
    its reach, the farthest last byte up to it.  This file holds the operations;
    [AdLockFacts.v] has the proofs.

    Offsets are [off_t] values of 64 bits, written as [Z].  The kernel is the
    lock this process holds on each byte of the file, with the answers it will
    give to the next requests, which its limits and the other processes decide,
    and the locks the other processes hold at each of the next probes. *)

From S2P Require Import Prelude.

(** ** Data *)

Inductive lty : Type := F_RDLCK | F_WRLCK | F_UNLCK | F_INVALID.
Inductive errno : Type := EACCES | EAGAIN | EINVAL | EOVERFLOW | ENOLCK | ENOMEM | EBADF.

#[export] Instance lty_eq_dec : EqDecision lty.
Proof. solve_decision. Defined.
#[export] Instance errno_eq_dec : EqDecision errno.
Proof. solve_decision. Defined.

Record flock := Flock { fl_type : lty; fl_start : Z; fl_len : Z }.

(** [adf_lock_t]. *)
Record entry := Entry { l_type : lty; l_start : Z; l_len : Z; user : Z; reach : Z }.

#[export] Instance entry_eq_dec : EqDecision entry.
Proof. solve_decision. Defined.

Record ad_fd := AdFd {
  adf_fd : Z;
  adf_rdwr : bool;          (** [adf_flags & O_RDWR] *)
  adf_lock : list entry;    (** its length is [adf_lockcount] *)
  adf_lockmax : Z
}.

(** What a probe with F_GETLK answers. *)
Inductive probe : Type := PFree | PHeld | PError (e : errno).

(** What the kernel finds at a probe: an error, or the other processes' locks. *)
Inductive sight : Type := Unable (e : errno) | Others (locks : list flock).

Record kern := Kern {
  held : Z -> lty;                 (** this process's lock on each byte, [F_UNLCK] for none *)
  answers : list (option errno);   (** to the next F_SETLK calls that take a lock; exhausted, they succeed *)
  releases : list (option errno);  (** to the next F_SETLK calls with F_UNLCK; exhausted, they succeed *)
  probes : list sight;             (** at the next F_GETLK calls; exhausted, nothing is locked *)
  reallocs : list bool             (** of the next reallocations; exhausted, they succeed *)
}.

Definition AD_SYMLINK : Z := -2.
Definition ADLOCK_CLR : Z := 0.
Definition ADLOCK_RD : Z := 1.
Definition ADLOCK_WR : Z := 2.
Definition ADLOCK_MASK : Z := Z.lor ADLOCK_RD ADLOCK_WR.
Definition ADLOCK_UPGRADE : Z := 4.
Definition ADLOCK_FILELOCK : Z := 8.

(** The largest offset [off_t] holds. *)
Definition LOCK_TOP : Z := 2 ^ 63 - 1.

Definition AD_FILELOCK_BASE : Z := 0x7FFFFFFFFFFFFFFF - 9.
Definition BYTELOCK_MAX : Z := AD_FILELOCK_BASE - 1.
Definition AD_FILELOCK_OPEN_WR : Z := AD_FILELOCK_BASE + 0.
Definition AD_FILELOCK_OPEN_RD : Z := AD_FILELOCK_BASE + 1.
Definition AD_FILELOCK_RSRC_OPEN_WR : Z := AD_FILELOCK_BASE + 2.
Definition AD_FILELOCK_RSRC_OPEN_RD : Z := AD_FILELOCK_BASE + 3.
Definition AD_FILELOCK_DENY_WR : Z := AD_FILELOCK_BASE + 4.
Definition AD_FILELOCK_DENY_RD : Z := AD_FILELOCK_BASE + 5.
Definition AD_FILELOCK_RSRC_DENY_WR : Z := AD_FILELOCK_BASE + 6.
Definition AD_FILELOCK_RSRC_DENY_RD : Z := AD_FILELOCK_BASE + 7.
Definition AD_FILELOCK_OPEN_NONE : Z := AD_FILELOCK_BASE + 8.
Definition AD_FILELOCK_RSRC_OPEN_NONE : Z := AD_FILELOCK_BASE + 9.

Definition ARRAY_BLOCK_SIZE : Z := 10.
Definition ARRAY_FREE_DELTA : Z := 100.

Definition has_bit (flags f : Z) : bool := negb (Z.land flags f =? 0).

(** ** The kernel *)

(** The bytes a lock request names; a zero length runs to the end of the file. *)
Definition in_request (start len b : Z) : bool := (start <=? b) && ((len =? 0) || (b <? start + len)).

(** The next answer of a list and the rest of it. *)
Definition next_answer (l : list (option errno)) : option errno * list (option errno) :=
  match l with a :: rest => (a, rest) | [] => (None, []) end.

(** [fcntl(F_SETLK)]: granted, the bytes of the range take the type. *)
Definition setlk (fl : flock) (k : kern) : option errno * kern :=
  let grant b := if in_request (fl_start fl) (fl_len fl) b then fl_type fl else held k b in
  match fl_type fl with
  | F_INVALID => (Some EINVAL, k)
  | F_UNLCK =>
      let '(a, rest) := next_answer (releases k) in
      (a, Kern (match a with None => grant | Some _ => held k end) (answers k) rest (probes k) (reallocs k))
  | _ =>
      let '(a, rest) := next_answer (answers k) in
      (a, Kern (match a with None => grant | Some _ => held k end) rest (releases k) (probes k) (reallocs k))
  end.

(** Two locks of different processes exclude each other: they share a byte and
    one of them is a write lock. *)
Definition excludes (f g : flock) : bool :=
  (in_request (fl_start f) (fl_len f) (fl_start g) || in_request (fl_start g) (fl_len g) (fl_start f)) &&
  (bool_decide (fl_type f = F_WRLCK) || bool_decide (fl_type g = F_WRLCK)).

(** [fcntl(F_GETLK)]: whether the lock asked about could not be placed. *)
Definition getlk (fl : flock) (k : kern) : probe * kern :=
  match probes k with
  | Unable e :: ps => (PError e, Kern (held k) (answers k) (releases k) ps (reallocs k))
  | Others locks :: ps => (if existsb (excludes fl) locks then PHeld else PFree, Kern (held k) (answers k) (releases k) ps (reallocs k))
  | [] => (PFree, k)
  end.

Definition realloc (k : kern) : bool * kern :=
  match reallocs k with
  | b :: bs => (b, Kern (held k) (answers k) (releases k) (probes k) bs)
  | [] => (true, k)
  end.

(** [set_lock] with F_SETLK: [None] is 0, [Some e] is -1 with errno [e]. *)
Definition set_lock (fd : Z) (fl : flock) (k : kern) : option errno * kern :=
  if fd =? AD_SYMLINK then (None, k) else if fd <? 0 then (Some EBADF, k) else setlk fl k.

(** [set_lock] with F_GETLK. *)
Definition get_lock (fd : Z) (fl : flock) (k : kern) : probe * kern :=
  if fd =? AD_SYMLINK then (PFree, k) else if fd <? 0 then (PError EBADF, k) else getlk fl k.

Definition XLATE_FCNTL_LOCK (type : Z) : lty :=
  if type =? ADLOCK_RD then F_RDLCK
  else if type =? ADLOCK_WR then F_WRLCK
  else if type =? ADLOCK_CLR then F_UNLCK
  else F_INVALID.

(** ** The lock array *)

Definition OVERLAP (a alen b blen : Z) : bool :=
  ((alen =? 0) && (a <=? b)) || ((blen =? 0) && (b <=? a)) || ((b - a <? alen) && (a - b <? blen)).

Definition adf_lock_fits (start len : Z) : bool := len - 1 <=? LOCK_TOP - start.

Definition adf_lock_last (start len : Z) : Z := if 0 <? len then start + (len - 1) else LOCK_TOP.

(** The loop of [adf_lock_lower]; the fuel bounds the halvings. *)
Fixpoint lower_loop (fuel : nat) (l : list entry) (key : entry -> Z) (target : Z) (lo hi : nat) : nat :=
  match fuel with
  | O => lo
  | S n =>
      if (lo <? hi)%nat then
        let mid := (lo + (hi - lo) / 2)%nat in
        match l !! mid with
        | Some e => if key e <? target then lower_loop n l key target (mid + 1) hi
                    else lower_loop n l key target lo mid
        | None => lo
        end
      else lo
  end.

Definition adf_lock_lower (l : list entry) (target : Z) (by_reach : bool) : nat :=
  lower_loop (S (length l)) l (if by_reach then reach else l_start) target 0 (length l).

Definition adf_lock_window (l : list entry) (off len : Z) : nat * nat :=
  let last := adf_lock_last off len in
  (adf_lock_lower l off true,
   if last <? LOCK_TOP then adf_lock_lower l (last + 1) false else length l).

Definition set_reach (r : Z) (e : entry) : entry := Entry (l_type e) (l_start e) (l_len e) (user e) r.

(** The loop of [adf_lock_reach]. *)
Fixpoint reach_from (r : Z) (l : list entry) : list entry :=
  match l with
  | [] => []
  | e :: l =>
      let last := adf_lock_last (l_start e) (l_len e) in
      let r := if r <? last then last else r in
      set_reach r e :: reach_from r l
  end.

Definition adf_lock_reach (l : list entry) (from : nat) : list entry :=
  let r := match from with O => -1 | S i => default (-1) (reach <$> l !! i) end in
  take from l ++ reach_from r (drop from l).

(** ** Locking the bytes no entry covers *)

(** The loop of [adf_lock_gaps] over the entries of the window, [done] being the
    last byte covered or dealt with; [undo] releases what a refused take got. *)
Fixpoint gaps_loop (fd : Z) (type : lty) (undo : Z -> kern -> kern) (win : list entry)
    (done last : Z) (ret : option errno) (k : kern) : option errno * kern :=
  if last <=? done then (ret, k) else
  let stop := match win with e :: _ => l_start e - 1 | [] => last end in
  let '(r, k) :=
    if done <? stop
    then set_lock fd (Flock type (done + 1) (if stop <? LOCK_TOP then stop - done else 0)) k
    else (None, k) in
  match r with
  | Some e =>
      if bool_decide (type = F_UNLCK) then
        match win with
        | [] => (Some e, k)
        | w :: win => gaps_loop fd type undo win (if done <? reach w then reach w else done) last (Some e) k
        end
      else (Some e, undo done k)
  | None =>
      match win with
      | [] => (ret, k)
      | w :: win => gaps_loop fd type undo win (if done <? reach w then reach w else done) last ret k
      end
  end.

Definition window_of (l : list entry) (start len : Z) : list entry :=
  let '(lo, hi) := adf_lock_window l start len in take (hi - lo) (drop lo l).

Definition gaps_with (undo : Z -> kern -> kern) (fd : Z) (l : list entry) (r : flock) (k : kern) : option errno * kern :=
  gaps_loop fd (fl_type r) undo (window_of l (fl_start r) (fl_len r))
    (fl_start r - 1) (adf_lock_last (fl_start r) (fl_len r)) None k.

(** [adf_lock_gaps] on an F_UNLCK request, which never undoes anything. *)
Definition release_gaps (fd : Z) (l : list entry) (start len : Z) (k : kern) : option errno * kern :=
  gaps_with (fun _ k => k) fd l (Flock F_UNLCK start len) k.

Definition adf_lock_gaps (fd : Z) (l : list entry) (r : flock) (k : kern) : option errno * kern :=
  gaps_with (fun done k =>
      if fl_start r <=? done then (release_gaps fd l (fl_start r) (done - fl_start r + 1) k).2 else k)
    fd l r k.

(** ** Dropping entries *)

Definition adf_freelock (a : ad_fd) (i : nat) (k : kern) : ad_fd * kern :=
  match adf_lock a !! i with
  | None => (a, k)
  | Some e =>
      let l := adf_lock_reach (delete i (adf_lock a)) i in
      let '(_, k) := adf_lock_gaps (adf_fd a) l (Flock F_UNLCK (l_start e) (l_len e)) k in
      let count := Z.of_nat (length l) in
      if (ARRAY_FREE_DELTA <? adf_lockmax a) && (count + ARRAY_FREE_DELTA <? adf_lockmax a) then
        let '(ok, k) := realloc k in
        (AdFd (adf_fd a) (adf_rdwr a) l (if (ok : bool) then count + ARRAY_FREE_DELTA else adf_lockmax a), k)
      else (AdFd (adf_fd a) (adf_rdwr a) l (adf_lockmax a), k)
  end.

(** The loop of [adf_unlock] over the indexes below [i], from the top down. *)
Fixpoint unlock_loop (i : nat) (fork : Z) (a : ad_fd) (k : kern) : ad_fd * kern :=
  match i with
  | O => (a, k)
  | S i =>
      match adf_lock a !! i with
      | Some e => if user e =? fork then let '(a, k) := adf_freelock a i k in unlock_loop i fork a k
                  else unlock_loop i fork a k
      | None => unlock_loop i fork a k
      end
  end.

Definition adf_unlock (a : ad_fd) (fork : Z) (k : kern) : ad_fd * kern :=
  unlock_loop (length (adf_lock a)) fork a k.

Definition adf_lock_init (a : ad_fd) : ad_fd := AdFd (adf_fd a) (adf_rdwr a) [] 0.

(** The loop of [adf_lock_free]; the fuel is the number of entries. *)
Fixpoint free_loop (fuel : nat) (a : ad_fd) (k : kern) : ad_fd * kern :=
  match fuel with
  | O => (a, k)
  | S n =>
      match length (adf_lock a) with
      | O => (a, k)
      | S i => let '(a, k) := adf_freelock a i k in free_loop n a k
      end
  end.

(** The array pointer is [NULL] exactly while [adf_lockmax] is 0. *)
Definition adf_lock_free (a : ad_fd) (k : kern) : ad_fd * kern :=
  if adf_lockmax a =? 0 then (a, k) else
  let '(a, k) := if 0 <=? adf_fd a then free_loop (length (adf_lock a)) a k else (a, k) in
  (adf_lock_init a, k).

(** ** Searches *)

Definition type_matches (type : Z) (e : entry) : bool :=
  (has_bit type ADLOCK_RD && bool_decide (l_type e = F_RDLCK)) ||
  (has_bit type ADLOCK_WR && bool_decide (l_type e = F_WRLCK)).

(** The first index from [i] on whose entry satisfies [p]. *)
Fixpoint find_from (p : entry -> bool) (i : nat) (l : list entry) : option nat :=
  match l with
  | [] => None
  | e :: l => if p e then Some i else find_from p (S i) l
  end.

Definition find_in_window (p : entry -> bool) (l : list entry) (off len : Z) : option nat :=
  let '(lo, hi) := adf_lock_window l off len in find_from p lo (take (hi - lo) (drop lo l)).

Definition adf_findlock (l : list entry) (fork type off len : Z) : option nat :=
  find_in_window (fun e => type_matches type e && (user e =? fork) && OVERLAP off len (l_start e) (l_len e)) l off len.

Definition adf_findxlock (l : list entry) (fork type off len : Z) : option nat :=
  find_in_window (fun e => type_matches type e && negb (user e =? fork) && OVERLAP off len (l_start e) (l_len e)) l off len.

Definition rf2off (off : Z) : Z :=
  if off =? AD_FILELOCK_OPEN_WR then AD_FILELOCK_RSRC_OPEN_WR
  else if off =? AD_FILELOCK_OPEN_RD then AD_FILELOCK_RSRC_OPEN_RD
  else if off =? AD_FILELOCK_DENY_RD then AD_FILELOCK_RSRC_DENY_RD
  else if off =? AD_FILELOCK_DENY_WR then AD_FILELOCK_RSRC_DENY_WR
  else if off =? AD_FILELOCK_OPEN_NONE then AD_FILELOCK_RSRC_OPEN_NONE
  else off.

(** ** Taking and releasing a lock *)

Definition insert_entry (l : list entry) (i : nat) (e : entry) : list entry := take i l ++ e :: drop i l.

Definition set_type (ty : lty) (e : entry) : entry := Entry ty (l_start e) (l_len e) (user e) (reach e).

(** [type] with a write lock on a read-only descriptor turned into a read lock. *)
Definition degrade (a : ad_fd) (type : Z) : Z :=
  if negb (adf_rdwr a) && has_bit type ADLOCK_WR then Z.lor (Z.ldiff type ADLOCK_WR) ADLOCK_RD else type.

(** What [ad_lock] does once the range and its type are settled. *)
Definition record_lock (a : ad_fd) (type : Z) (fork : Z) (lock : flock) (k : kern) : option errno * ad_fd * kern :=
  let conflict := match adf_findxlock (adf_lock a) fork (Z.lor ADLOCK_WR (if has_bit type ADLOCK_WR then ADLOCK_RD else 0))
                          (fl_start lock) (fl_len lock) with Some _ => true | None => false end in
  if negb (bool_decide (fl_type lock = F_UNLCK)) && conflict then (Some EACCES, a, k) else
  let own := adf_findlock (adf_lock a) fork (Z.lor ADLOCK_RD ADLOCK_WR) (fl_start lock) (fl_len lock) in
  let bad :=
    match i ← own; adf_lock a !! i with
    | None => bool_decide (fl_type lock = F_UNLCK)
    | Some e => negb (l_start e =? fl_start lock) || negb (l_len e =? fl_len lock) ||
                (negb (has_bit type ADLOCK_UPGRADE) && negb (bool_decide (fl_type lock = F_UNLCK)))
    end in
  if bad then (Some EINVAL, a, k) else
  if bool_decide (fl_type lock = F_UNLCK) then
    match own with
    | Some i => let '(a, k) := adf_freelock a i k in (None, a, k)
    | None => (None, a, k)
    end
  else
  let '(r, k) := set_lock (adf_fd a) lock k in
  match r with
  | Some e => (Some e, a, k)
  | None =>
      match own with
      | Some i =>
          if has_bit type ADLOCK_UPGRADE
          then (None, AdFd (adf_fd a) (adf_rdwr a) (alter (set_type (fl_type lock)) i (adf_lock a)) (adf_lockmax a), k)
          else (None, a, k)
      | None =>
          let count := Z.of_nat (length (adf_lock a)) in
          let full := adf_lockmax a =? count in
          let '(ok, k) := if full then realloc k else (true, k) in
          if negb ok then
            let '(_, k) := adf_lock_gaps (adf_fd a) (adf_lock a) (Flock F_UNLCK (fl_start lock) (fl_len lock)) k in
            (Some ENOMEM, a, k)
          else
            let i := adf_lock_lower (adf_lock a) (fl_start lock) false in
            let l := adf_lock_reach (insert_entry (adf_lock a) i (Entry (fl_type lock) (fl_start lock) (fl_len lock) fork 0)) i in
            (None, AdFd (adf_fd a) (adf_rdwr a) l (if full then adf_lockmax a + ARRAY_BLOCK_SIZE else adf_lockmax a), k)
      end
  end.

(** [ad_lock] on the descriptor and the entry offset it chose. *)
Definition lock_fd (a : ad_fd) (shift type off len fork : Z) (k : kern) : option errno * ad_fd * kern :=
  if (off <? 0) || (LOCK_TOP - shift <? off) then (Some EINVAL, a, k) else
  let type := degrade a type in
  let ty := XLATE_FCNTL_LOCK (Z.land type ADLOCK_MASK) in
  let start := off + shift in
  let len := if len =? BYTELOCK_MAX then len - start else len in
  if len <=? 0 then (Some EINVAL, a, k) else
  if negb (adf_lock_fits start len) then (Some (if bool_decide (ty = F_UNLCK) then EINVAL else EOVERFLOW), a, k) else
  record_lock a type fork (Flock ty start len) k.

(** ** The two forks of a file *)

Inductive eid_t : Type := ADEID_DFORK | ADEID_RFORK.

(** The descriptors of the data fork and of the resource fork ([ad_rfp]), the
    kernel's locks on their files, and the offset [ad_getentryoff] gives for
    the resource fork. *)
Record adouble := Adouble {
  ad_data_fork : ad_fd;
  ad_rfp : ad_fd;
  data_kern : kern;
  rsrc_kern : kern;
  rfork_off : Z
}.

Definition on_data (ad : adouble) (r : option errno * ad_fd * kern) : option errno * adouble :=
  let '(e, a, k) := r in (e, Adouble a (ad_rfp ad) k (rsrc_kern ad) (rfork_off ad)).
Definition on_rsrc (ad : adouble) (r : option errno * ad_fd * kern) : option errno * adouble :=
  let '(e, a, k) := r in (e, Adouble (ad_data_fork ad) a (data_kern ad) k (rfork_off ad)).

Definition ad_lock (ad : adouble) (eid : eid_t) (locktype off len fork : Z) : res (option errno * adouble) :=
  if has_bit locktype ADLOCK_FILELOCK && negb (len =? 1) then Abort Panic else Ok
  match eid with
  | ADEID_DFORK => on_data ad (lock_fd (ad_data_fork ad) 0 locktype off len fork (data_kern ad))
  | ADEID_RFORK =>
      if has_bit locktype ADLOCK_FILELOCK
      then on_data ad (lock_fd (ad_data_fork ad) 0 locktype (rf2off off) len fork (data_kern ad))
      else on_rsrc ad (lock_fd (ad_rfp ad) (rfork_off ad) locktype off len fork (rsrc_kern ad))
  end.

(** [ad_tmplock] on the descriptor and the entry offset it chose. *)
Definition tmplock_fd (a : ad_fd) (shift type off len fork : Z) (k : kern) : option errno * kern :=
  if (off <? 0) || (LOCK_TOP - shift <? off) || (len <? 0) then (Some EINVAL, k) else
  let type := degrade a type in
  let ty := XLATE_FCNTL_LOCK (Z.land type ADLOCK_MASK) in
  let start := off + shift in
  if (0 <? len) && negb (adf_lock_fits start len) then (Some EOVERFLOW, k) else
  let conflict := match adf_findxlock (adf_lock a) fork (Z.lor ADLOCK_WR (if has_bit type ADLOCK_WR then ADLOCK_RD else 0))
                          start len with Some _ => true | None => false end in
  if negb (fork =? 0) && negb (bool_decide (ty = F_UNLCK)) && conflict then (Some EACCES, k) else
  adf_lock_gaps (adf_fd a) (adf_lock a) (Flock ty start len) k.

Definition ad_tmplock (ad : adouble) (eid : eid_t) (locktype off len fork : Z) : option errno * adouble :=
  match eid with
  | ADEID_DFORK =>
      let '(e, k) := tmplock_fd (ad_data_fork ad) 0 locktype off len fork (data_kern ad) in
      (e, Adouble (ad_data_fork ad) (ad_rfp ad) k (rsrc_kern ad) (rfork_off ad))
  | ADEID_RFORK =>
      if adf_fd (ad_rfp ad) =? -1 then (None, ad) else
      let shift := if has_bit locktype ADLOCK_FILELOCK then 0 else rfork_off ad in
      let '(e, k) := tmplock_fd (ad_rfp ad) shift locktype off len fork (rsrc_kern ad) in
      (e, Adouble (ad_data_fork ad) (ad_rfp ad) (data_kern ad) k (rfork_off ad))
  end.

Definition ad_unlock (ad : adouble) (fork : Z) : adouble :=
  let '(d, dk) := if adf_fd (ad_data_fork ad) =? -1 then (ad_data_fork ad, data_kern ad)
                  else adf_unlock (ad_data_fork ad) fork (data_kern ad) in
  let '(r, rk) := if adf_fd (ad_rfp ad) =? -1 then (ad_rfp ad, rsrc_kern ad)
                  else adf_unlock (ad_rfp ad) fork (rsrc_kern ad) in
  Adouble d r dk rk (rfork_off ad).

(** ** Probes *)

(** 1 locked, 0 not, -1 on an error, of an F_GETLK answer. *)
Definition probe_result (p : probe) : Z :=
  match p with
  | PFree => 0
  | PHeld => 1
  | PError e => if bool_decide (e = EACCES \/ e = EAGAIN) then 1 else -1
  end.

Definition testlock (a : ad_fd) (off len : Z) (k : kern) : Z * kern :=
  if existsb (fun e => OVERLAP off 1 (l_start e) (l_len e)) (adf_lock a) then (1, k) else
  let '(p, k) := get_lock (adf_fd a) (Flock F_WRLCK off len) k in (probe_result p, k).

Definition set_data_kern (ad : adouble) (k : kern) : adouble :=
  Adouble (ad_data_fork ad) (ad_rfp ad) k (rsrc_kern ad) (rfork_off ad).

Definition ad_testlock (ad : adouble) (eid : eid_t) (off : Z) : Z * adouble :=
  let lock_offset := match eid with ADEID_DFORK => off | ADEID_RFORK => rf2off off end in
  let '(r, k) := testlock (ad_data_fork ad) lock_offset 1 (data_kern ad) in (r, set_data_kern ad k).

Definition ATTRBIT_DOPEN : Z := 8.
Definition ATTRBIT_ROPEN : Z := 16.

Definition ad_openforks (ad : adouble) (attrbits : Z) : Z * adouble :=
  if adf_fd (ad_data_fork ad) =? -1 then (0, ad) else
  let test ad off len := let '(r, k) := testlock (ad_data_fork ad) off len (data_kern ad) in (r, set_data_kern ad k) in
  let '(any, ad) :=
    if negb (has_bit attrbits (Z.lor ATTRBIT_DOPEN ATTRBIT_ROPEN))
    then test ad AD_FILELOCK_OPEN_WR 4 else (1, ad) in
  if any =? 0 then (0, ad) else
  let '(ret, ad) :=
    if negb (has_bit attrbits ATTRBIT_DOPEN)
    then let '(r, ad) := test ad AD_FILELOCK_OPEN_WR 2 in (if 0 <? r then ATTRBIT_DOPEN else 0, ad) else (0, ad) in
  if negb (has_bit attrbits ATTRBIT_ROPEN)
  then let '(r, ad) := test ad AD_FILELOCK_RSRC_OPEN_WR 2 in (Z.lor ret (if 0 <? r then ATTRBIT_ROPEN else 0), ad)
  else (ret, ad).

(** The offset and length of the probe [ad_testlock_range] makes, if any.  The
    band constants are unsigned, so the comparisons with them are. *)
Definition range_probe (start off len : Z) : option (Z * Z) :=
  if u64(off) <? AD_FILELOCK_BASE then
    if BYTELOCK_MAX <=? u64(start) then None else
    let zone_max := BYTELOCK_MAX - start in
    let len := if (len =? 0) || (zone_max <? len) then zone_max else len in
    if len <=? 0 then None else Some (start, len)
  else Some (start, len).

Definition ad_testlock_range (ad : adouble) (eid : eid_t) (off len : Z) : Z * adouble :=
  let '(a, start, k) :=
    match eid with
    | ADEID_DFORK => (ad_data_fork ad, off, data_kern ad)
    | ADEID_RFORK => (ad_rfp ad, off + rfork_off ad, rsrc_kern ad)
    end in
  if adf_fd a =? -1 then (0, ad) else
  match range_probe start off len with
  | None => (0, ad)
  | Some (start, len) =>
      let '(p, k) := get_lock (adf_fd a) (Flock F_WRLCK start len) k in
      (probe_result p,
       match eid with
       | ADEID_DFORK => set_data_kern ad k
       | ADEID_RFORK => Adouble (ad_data_fork ad) (ad_rfp ad) (data_kern ad) k (rfork_off ad)
       end)
  end.

Definition ad_testlock_whole (ad : adouble) (eid : eid_t) : Z * adouble :=
  let '(a, k) := match eid with ADEID_DFORK => (ad_data_fork ad, data_kern ad) | ADEID_RFORK => (ad_rfp ad, rsrc_kern ad) end in
  if adf_fd a =? -1 then (0, ad) else
  let '(p, k) := get_lock (adf_fd a) (Flock F_WRLCK 0 0) k in
  (probe_result p,
   match eid with
   | ADEID_DFORK => set_data_kern ad k
   | ADEID_RFORK => Adouble (ad_data_fork ad) (ad_rfp ad) (data_kern ad) k (rfork_off ad)
   end).
