(* ===== verification/AdLockFacts.v ===== *)
(** * The lock array of a descriptor: proofs

    The array's invariant (in order of start, each reach the farthest last byte
    so far), what the binary searches and the window they give find, and which
    bytes of the kernel's lock map the stretch walk of [adf_lock_gaps] writes. *)

From Stdlib Require Import Sorting.Sorted.
From S2P Require Import Prelude AdLock.

(** ** Entries and the bytes they cover *)

Definition last_byte (e : entry) : Z := adf_lock_last (l_start e) (l_len e).
Definition covers (e : entry) (b : Z) : Prop := l_start e <= b <= last_byte e.
Definition covered (l : list entry) (b : Z) : Prop := exists e, e ∈ l /\ covers e b.

(** A range past the checks of the callers: from byte zero on, its last byte an
    [off_t]; a zero length runs to the end of the file. *)
Definition range_ok (start len : Z) : Prop := 0 <= start /\ 0 <= len /\ start <= LOCK_TOP /\ start + len - 1 <= LOCK_TOP.

Definition valid (e : entry) : Prop :=
  0 <= l_start e /\ 1 <= l_len e /\ l_start e + l_len e - 1 <= LOCK_TOP /\ (l_type e = F_RDLCK \/ l_type e = F_WRLCK).

#[export] Instance covers_dec e b : Decision (covers e b).
Proof. unfold covers. apply _. Defined.
#[export] Instance covered_dec l b : Decision (covered l b).
Proof.
  destruct (decide (Exists (fun e => covers e b) l)) as [H|H]; [left|right];
    unfold covered; rewrite Exists_exists in H; exact H.
Defined.

Lemma covered_nil b : ~ covered [] b.
Proof. intros (e & He & _). set_solver. Qed.

Lemma covered_cons e l b : covered (e :: l) b <-> covers e b \/ covered l b.
Proof. unfold covered. setoid_rewrite elem_of_cons. naive_solver. Qed.

Lemma covered_app l1 l2 b : covered (l1 ++ l2) b <-> covered l1 b \/ covered l2 b.
Proof. unfold covered. setoid_rewrite elem_of_app. naive_solver. Qed.

#[export] Instance covered_proper : Proper ((≡ₚ) ==> eq ==> iff) covered.
Proof. intros l l' Hp b ? <-. unfold covered. setoid_rewrite Hp. done. Qed.

Lemma valid_range e : valid e -> range_ok (l_start e) (l_len e).
Proof. unfold valid, range_ok. lia. Qed.

Lemma valid_last e : valid e -> last_byte e = l_start e + l_len e - 1.
Proof. unfold valid, last_byte, adf_lock_last. intros. case_test; lia. Qed.

Lemma range_last start len : range_ok start len -> start <= adf_lock_last start len <= LOCK_TOP.
Proof. unfold range_ok, adf_lock_last. intros. case_test; lia. Qed.

(** Two ranges overlap when neither ends before the other starts. *)
Lemma OVERLAP_spec off len s n :
  range_ok off len -> range_ok s n ->
  OVERLAP off len s n = true <-> off <= adf_lock_last s n /\ s <= adf_lock_last off len.
Proof.
  unfold range_ok, OVERLAP, adf_lock_last. intros Ha Hb.
  rewrite !orb_true_iff, !andb_true_iff, !Z.eqb_eq, !Z.leb_le, !Z.ltb_lt.
  repeat case_test; lia.
Qed.

(** ** Order *)

Definition ordered (key : entry -> Z) (l : list entry) : Prop := StronglySorted (fun e e' => key e <= key e') l.

(** Each reach is the farthest last byte so far, [r] before the list. *)
Fixpoint chain (r : Z) (l : list entry) : Prop :=
  match l with
  | [] => True
  | e :: l => reach e = Z.max r (last_byte e) /\ chain (reach e) l
  end.

Lemma chain_ordered l : forall r, chain r l -> ordered reach l /\ Forall (fun e => r <= reach e) l.
Proof.
  induction l as [|e l IH]; intros r H; [split; constructor|].
  destruct H as [He Hl]. destruct (IH _ Hl) as [Ho Hf]. split.
  - constructor; [exact Ho|exact Hf].
  - constructor; [lia|]. eapply Forall_impl; [exact Hf|]. cbn. lia.
Qed.

(** The reach of the last entry, [r] when there is none. *)
Definition top_reach (r : Z) (l : list entry) : Z := default r (reach <$> last l).

Lemma top_reach_cons r e l : top_reach r (e :: l) = top_reach (reach e) l.
Proof. unfold top_reach. destruct l; [done|]. rewrite last_cons_cons. destruct (last (e0 :: l)) eqn:E; [done|]. apply last_None in E. done. Qed.

Lemma chain_app l1 l2 : forall r, chain r (l1 ++ l2) <-> chain r l1 /\ chain (top_reach r l1) l2.
Proof.
  induction l1 as [|e l1 IH]; intros r; cbn [app chain]; [cbn; tauto|].
  rewrite IH, top_reach_cons. tauto.
Qed.

Lemma chain_last r l e : chain r l -> e ∈ l -> last_byte e <= top_reach r l.
Proof.
  revert r. induction l as [|e' l IH]; intros r Hc He; [set_solver|].
  destruct Hc as [H1 H2]. rewrite top_reach_cons. apply elem_of_cons in He as [->|He]; [|eauto].
  destruct (chain_ordered _ _ H2) as [_ Hf]. unfold top_reach.
  destruct (last l) eqn:E; cbn; [|lia]. apply last_Some in E as [l' ->].
  rewrite Forall_app, Forall_singleton in Hf. lia.
Qed.

Lemma ordered_lookup key l i j e e' :
  ordered key l -> (i <= j)%nat -> l !! i = Some e -> l !! j = Some e' -> key e <= key e'.
Proof.
  intros Ho Hij Hi Hj. destruct (decide (i = j)) as [->|]; [simplify_eq; lia|].
  revert i j Hij Hi Hj n. induction Ho as [|x l Hl IH Hx]; intros i j Hij Hi Hj Hn; [done|].
  destruct j as [|j]; [lia|]. destruct i as [|i]; cbn in *; simplify_eq.
  - rewrite Forall_forall in Hx. apply Hx. by eapply list_elem_of_lookup_2.
  - eapply (IH i j); eauto; lia.
Qed.

Lemma ordered_app key l1 l2 :
  ordered key (l1 ++ l2) <-> ordered key l1 /\ ordered key l2 /\ (forall x y, x ∈ l1 -> y ∈ l2 -> key x <= key y).
Proof.
  unfold ordered. induction l1 as [|e l1 IH]; cbn.
  - split; [intros; split_and!; [constructor|done|set_solver]|tauto].
  - split.
    + intros H. inversion H as [|? ? H1 H2]; subst. apply IH in H1 as (? & ? & ?).
      rewrite Forall_app in H2. destruct H2 as [H2 Hy]. rewrite Forall_forall in Hy.
      split_and!; [by constructor|done|]. intros x y [->|?]%elem_of_cons ?; eauto.
    + intros (H1 & H2 & H3). inversion H1 as [|? ? H4 H5]; subst. constructor.
      * apply IH. split_and!; [done..|]. intros; apply H3; set_solver.
      * rewrite Forall_app. split; [done|]. rewrite Forall_forall. intros; apply H3; set_solver.
Qed.

(** ** The binary searches *)

(** [i] splits the list at the first entry whose key is at or past [t]. *)
Definition splits (key : entry -> Z) (t : Z) (l : list entry) (i : nat) : Prop :=
  (i <= length l)%nat /\ Forall (fun e => key e < t) (take i l) /\ Forall (fun e => t <= key e) (drop i l).

Lemma lower_loop_splits key t l : ordered key l -> forall fuel lo hi,
  (hi - lo < fuel)%nat -> (lo <= hi <= length l)%nat ->
  (forall i e, (i < lo)%nat -> l !! i = Some e -> key e < t) ->
  (forall i e, (hi <= i)%nat -> l !! i = Some e -> t <= key e) ->
  splits key t l (lower_loop fuel l key t lo hi).
Proof.
  intros Ho. induction fuel as [|n IH]; intros lo hi Hf Hb Hlo Hhi; [lia|]. cbn [lower_loop].
  destruct (Nat.ltb_spec lo hi) as [Hl|Hl].
  - set (mid := (lo + (hi - lo) / 2)%nat).
    assert (lo <= mid < hi)%nat as Hm.
    { pose proof (Nat.div_lt (hi - lo) 2 ltac:(lia) ltac:(lia)). subst mid. lia. }
    destruct (lookup_lt_is_Some_2 l mid ltac:(lia)) as [e He]. rewrite He. case_test.
    + apply IH; [lia..| |done]. intros i e' Hi He'.
      pose proof (ordered_lookup _ _ i mid e' e Ho ltac:(lia) He' He). lia.
    + apply IH; [lia..|done|]. intros i e' Hi He'.
      pose proof (ordered_lookup _ _ mid i e e' Ho Hi He He'). lia.
  - assert (lo = hi) as -> by lia. split_and!; [lia| |].
    + rewrite Forall_lookup. intros i e [Hi Hl']%lookup_take_Some. eauto.
    + rewrite Forall_lookup. intros i e Hi. rewrite lookup_drop in Hi. eapply Hhi; [|exact Hi]. lia.
Qed.

Lemma adf_lock_lower_splits l t by_reach :
  let key := if by_reach : bool then reach else l_start in
  ordered key l -> splits key t l (adf_lock_lower l t by_reach).
Proof.
  intros key Ho. apply lower_loop_splits; [done|lia|lia|lia|].
  intros i e Hi He. apply lookup_lt_Some in He. lia.
Qed.

(** ** The window *)

(** The array's invariant but for the locks the entries name. *)
Record arr (l : list entry) : Prop := {
  arr_ordered : ordered l_start l;
  arr_chain : chain (-1) l;
  arr_valid : Forall valid l
}.

(** The window is a stretch of the array; the entries before it end before the
    range, the ones after it start past the range. *)
Record framed (l pre win post : list entry) (off last : Z) : Prop := {
  framed_split : l = pre ++ win ++ post;
  framed_pre : forall e, e ∈ pre -> last_byte e < off;
  framed_post : forall e, e ∈ post -> last < l_start e;
  framed_win : forall e, e ∈ win -> l_start e <= last;
  framed_chain : exists r, r < off /\ chain r win;
  framed_ordered : ordered l_start win
}.

Lemma top_reach_lt r l t : r < t -> Forall (fun e => reach e < t) l -> top_reach r l < t.
Proof.
  unfold top_reach. intros Hr Hf. destruct (last l) eqn:E; cbn; [|done].
  apply last_Some in E as [l' ->]. rewrite Forall_app, Forall_singleton in Hf. tauto.
Qed.

Lemma window_framed l off len :
  arr l -> range_ok off len ->
  exists pre post, framed l pre (window_of l off len) post off (adf_lock_last off len) /\
    forall p, find_in_window p l off len = find_from p (length pre) (window_of l off len).
Proof.
  intros [Ho Hc Hv] Hr. pose proof (range_last _ _ Hr) as Hlast.
  destruct (chain_ordered _ _ Hc) as [Hor _].
  destruct (adf_lock_lower_splits l off true Hor) as (L1 & L2 & L3).
  unfold window_of, find_in_window, adf_lock_window.
  set (lo := adf_lock_lower l off true) in *. set (last := adf_lock_last off len) in *.
  set (hi := if last <? LOCK_TOP then _ else _).
  assert (exists h, hi = h /\ (h <= length l)%nat /\ Forall (fun e => l_start e <= last) (take h l) /\
            Forall (fun e => last < l_start e) (drop h l)) as (h & -> & H1 & H2 & H3).
  { exists hi. split; [done|]. subst hi. case_test.
    - destruct (adf_lock_lower_splits l (last + 1) false Ho) as (K1 & K2 & K3).
      split_and!; [done|eapply Forall_impl; [exact K2|]; cbn; lia|eapply Forall_impl; [exact K3|]; cbn; lia].
    - rewrite firstn_all, drop_all. split_and!; [done| |constructor].
      eapply Forall_impl; [exact Hv|]. unfold valid. lia. }
  exists (take lo l), (drop (h - lo) (drop lo l)). split; [|by rewrite length_take, Nat.min_l].
  assert (l = take lo l ++ take (h - lo) (drop lo l) ++ drop (h - lo) (drop lo l)) as Hs by by rewrite !take_drop.
  rewrite Hs in Hc, Ho. apply chain_app in Hc as [Hc1 [Hc2 _]%chain_app].
  apply ordered_app in Ho as (_ & (Ho & _ & _)%ordered_app & _).
  pose proof (top_reach_lt (-1) (take lo l) off ltac:(unfold range_ok in Hr; lia) L2) as Ht.
  split; [done| | | |by eauto|done].
  - intros e He. pose proof (chain_last _ _ _ Hc1 He). lia.
  - intros e He. rewrite Forall_forall in H3. apply H3.
    rewrite drop_drop in He. replace (lo + (h - lo))%nat with (h + (lo - h))%nat in He by lia.
    rewrite <- drop_drop in He. by apply subseteq_drop in He.
  - intros e He. rewrite Forall_forall in H2. apply H2.
    destruct (decide (lo <= h)%nat) as [|]; [|replace (h - lo)%nat with O in He by lia; set_solver].
    replace h with (lo + (h - lo))%nat at 1 by lia. rewrite <- take_take_drop. set_solver.
Qed.

(** ** Searches *)

Lemma find_from_app p l1 l2 : forall i,
  find_from p i (l1 ++ l2) = match find_from p i l1 with Some j => Some j | None => find_from p (i + length l1) l2 end.
Proof.
  induction l1 as [|e l1 IH]; intros i; cbn; [by rewrite Nat.add_0_r|].
  destruct (p e); [done|]. rewrite IH. replace (S i + length l1)%nat with (i + S (length l1))%nat by lia. done.
Qed.

Lemma find_from_none p l i : (forall e, e ∈ l -> p e = false) -> find_from p i l = None.
Proof.
  revert i. induction l as [|e l IH]; intros i H; [done|]. cbn. rewrite H by set_solver. apply IH. set_solver.
Qed.

Lemma find_from_Some p l i j :
  find_from p i l = Some j -> exists e, (i <= j)%nat /\ l !! (j - i)%nat = Some e /\ p e = true.
Proof.
  revert i. induction l as [|e l IH]; intros i; cbn; [done|]. destruct (p e) eqn:E.
  - intros [= ->]. exists e. rewrite Nat.sub_diag. done.
  - intros (e' & Hle & He & Hp)%IH. exists e'. split_and!; [lia| |done].
    replace (j - i)%nat with (S (j - S i))%nat by lia. done.
Qed.

Lemma find_from_is_Some p l i : is_Some (find_from p i l) <-> exists e, e ∈ l /\ p e = true.
Proof.
  revert i. induction l as [|e l IH]; intros i; cbn.
  - split; [by intros [? ?]|]. intros (e & He & _). set_solver.
  - setoid_rewrite elem_of_cons. destruct (p e) eqn:E; [split; [by eauto|done]|]. rewrite IH.
    split; intros (e' & He & Hp); [by eauto|]. destruct He as [->|He]; [congruence|eauto].
Qed.

(** A search of the window finds what a search of the whole array does. *)
Lemma find_in_window_linear p l off len :
  arr l -> range_ok off len -> (forall e, p e = true -> OVERLAP off len (l_start e) (l_len e) = true) ->
  find_in_window p l off len = find_from p 0 l.
Proof.
  intros Ha Hr Hp. destruct (window_framed l off len Ha Hr) as (pre & post & [Hs Hpre Hpost _ _ _] & Hfind).
  pose proof (arr_valid _ Ha) as Hv. rewrite Forall_forall in Hv.
  assert (forall e, e ∈ l -> p e = true -> off <= last_byte e /\ l_start e <= adf_lock_last off len) as Hov.
  { intros e He Hpe. apply Hp in Hpe. apply OVERLAP_spec in Hpe; [exact Hpe|exact Hr|by apply valid_range, Hv]. }
  rewrite Hfind. set (w := window_of _ _ _) in *. rewrite Hs, !find_from_app. rewrite (find_from_none p pre).
  - cbn [Nat.add]. destruct (find_from p (length pre) w); [done|]. symmetry. apply find_from_none. intros e He.
    destruct (p e) eqn:E; [|done]. specialize (Hpost _ He). destruct (Hov e) as [_ ?]; [|done|lia].
    rewrite Hs. set_solver.
  - intros e He. destruct (p e) eqn:E; [|done]. specialize (Hpre _ He). destruct (Hov e) as [? _]; [|done|lia].
    rewrite Hs. set_solver.
Qed.

(** ** The walk over the stretches no entry covers *)

(** From [k] to [k'] the bytes after [lo] up to [hi] that no entry of [win] covers
    have become [ty] and the others are as they were. *)
Definition painted (win : list entry) (ty : lty) (lo hi : Z) (k k' : kern) : Prop :=
  forall b, b <= LOCK_TOP -> held k' b = if decide (lo < b <= hi /\ ~ covered win b) then ty else held k b.

(** The kernel granted some requests, and in [refused] then denied one with [e]. *)
Definition passed (k k' : kern) : Prop :=
  exists pre, answers k = pre ++ answers k' /\ Forall (fun a => a = None) pre /\
    (releases k = [] -> releases k' = []) /\ probes k' = probes k /\ reallocs k' = reallocs k.
Definition refused (e : errno) (k k' : kern) : Prop :=
  exists pre, answers k = pre ++ Some e :: answers k' /\ Forall (fun a => a = None) pre /\
    (releases k = [] -> releases k' = []) /\ probes k' = probes k /\ reallocs k' = reallocs k.

Lemma passed_refl k : passed k k.
Proof. exists []. auto. Qed.

Lemma passed_trans k1 k2 k3 : passed k1 k2 -> passed k2 k3 -> passed k1 k3.
Proof.
  intros (p1 & E1 & F1 & R1 & P1 & A1) (p2 & E2 & F2 & R2 & P2 & A2). exists (p1 ++ p2).
  rewrite E1, E2, <- app_assoc, Forall_app. split_and!; try done; try congruence. auto.
Qed.

Lemma passed_refused e k1 k2 k3 : passed k1 k2 -> refused e k2 k3 -> refused e k1 k3.
Proof.
  intros (p1 & E1 & F1 & R1 & P1 & A1) (p2 & E2 & F2 & R2 & P2 & A2). exists (p1 ++ p2).
  rewrite E1, E2, <- app_assoc, Forall_app. split_and!; try done; try congruence. auto.
Qed.

Lemma passed_granting k k' : answers k = [] -> passed k k' -> answers k' = [].
Proof. intros Hk (pre & H & _). rewrite Hk in H. symmetry in H. apply app_eq_nil in H. tauto. Qed.

Lemma passed_yielding k k' : releases k = [] -> passed k k' -> releases k' = [].
Proof. intros Hk (pre & _ & _ & H & _). auto. Qed.

Lemma granting_not_refused e k k' : answers k = [] -> ~ refused e k k'.
Proof. intros Hk (pre & H & _). rewrite Hk in H. by destruct pre. Qed.

Lemma set_lock_cases fd fl k :
  0 <= fd -> fl_type fl <> F_INVALID -> (fl_type fl = F_UNLCK -> releases k = []) ->
  (exists k', set_lock fd fl k = (None, k') /\ passed k k' /\ (fl_type fl <> F_UNLCK -> forall e l, answers k <> Some e :: l) /\
     forall b, held k' b = if in_request (fl_start fl) (fl_len fl) b then fl_type fl else held k b) \/
  (exists e k', set_lock fd fl k = (Some e, k') /\ held k' = held k /\ answers k = Some e :: answers k' /\
     fl_type fl <> F_UNLCK /\ releases k' = releases k /\ probes k' = probes k /\ reallocs k' = reallocs k).
Proof.
  intros Hfd Hty Hrel. unfold set_lock, AD_SYMLINK. case_test; [lia|]. case_test; [lia|].
  unfold setlk. destruct (decide (fl_type fl = F_UNLCK)) as [Hu|Hu].
  { rewrite Hu, Hrel by done. cbn [next_answer]. left. eexists. split; [reflexivity|]. split_and!; [|done|done]. exists []. done. }
  assert (forall A (x y z : A), match fl_type fl with F_INVALID => x | F_UNLCK => y | _ => z end = z) as Hm by (intros; by destruct (fl_type fl)).
  rewrite Hm. clear Hm. destruct (answers k) as [|[e|] l] eqn:Ha; cbn [next_answer].
  - left. eexists. split; [reflexivity|]. split_and!; [|done|done]. exists []. cbn. by rewrite Ha.
  - right. do 2 eexists. split; [reflexivity|]. done.
  - left. eexists. split; [reflexivity|]. split_and!; [|done|done]. exists [None]. cbn. split_and!; try done. by repeat constructor.
Qed.

Lemma painted_stretch w ws ty done stop hi k k1 k' :
  l_start w - 1 = stop -> ordered l_start (w :: ws) ->
  (forall b, b <= LOCK_TOP -> held k1 b = if decide (done < b <= stop) then ty else held k b) ->
  stop < hi -> done <= hi ->
  painted ws ty (Z.max done (last_byte w)) hi k1 k' -> painted (w :: ws) ty done hi k k'.
Proof.
  intros Hstop Ho H1 Hhi Hd Hp b Hb. rewrite (Hp b Hb), (H1 b Hb).
  assert (covered ws b -> stop < b) as Hcov.
  { intros (e & He & Hc). inversion Ho as [|? ? _ Hf]; subst. rewrite Forall_forall in Hf.
    apply Hf in He. unfold covers in Hc. lia. }
  pose proof (covered_cons w ws b) as Hcc. unfold covers in *.
  destruct (decide (done < b <= stop)) as [Hin|Hout].
  - rewrite (decide_True (P := done < b <= hi /\ _)); [by case_decide|].
    split; [lia|]. rewrite Hcc. intros [?|?%Hcov]; lia.
  - apply decide_ext. rewrite Hcc. split; intros [Hr Hn]; (split; [|tauto || (intros [?|?]; [lia|done])]); [lia|].
    destruct (decide (b <= last_byte w)); [destruct Hn; lia|lia].
Qed.

(** One stretch of the walk, before the entry at [stop + 1] or the end. *)
Lemma stretch_cases fd ty done stop k :
  0 <= fd -> ty <> F_INVALID -> stop <= LOCK_TOP -> (ty = F_UNLCK -> releases k = []) ->
  let fl := Flock ty (done + 1) (if stop <? LOCK_TOP then stop - done else 0) in
  (exists k1, (if done <? stop then set_lock fd fl k else (None, k)) = (None, k1) /\ passed k k1 /\
     forall b, b <= LOCK_TOP -> held k1 b = if decide (done < b <= stop) then ty else held k b) \/
  (exists e km, (if done <? stop then set_lock fd fl k else (None, k)) = (Some e, km) /\ ty <> F_UNLCK /\
     refused e k km /\ held km = held k).
Proof.
  intros Hfd Hty Hs Hrel fl. case_test.
  - destruct (set_lock_cases fd fl k Hfd Hty Hrel) as [(k' & H1 & H2 & _ & H3)|(e & k' & H1 & H2 & H3 & H4)].
    + left. exists k'. split_and!; [done..|]. intros b Hb. rewrite H3. subst fl. unfold in_request. cbn.
      destruct (stop <? LOCK_TOP) eqn:E'; bool_cases; repeat case_decide; repeat case_test; try done; exfalso; lia.
    + right. destruct H4 as (Hu & E1 & E2 & E3). exists e, k'. split_and!; [done|done| |done]. exists []. rewrite E1. auto.
  - left. exists k. split_and!; [done|apply passed_refl|]. intros b Hb. case_decide; [lia|done].
Qed.

Lemma painted_none win ty lo hi k k' : hi <= lo -> held k' = held k -> painted win ty lo hi k k'.
Proof. intros H1 H2 b _. rewrite H2. case_decide; [lia|done]. Qed.

Lemma gaps_loop_spec fd ty undo last :
  0 <= fd -> ty <> F_INVALID -> last <= LOCK_TOP -> forall win r dn ret k,
  chain r win -> r <= dn -> ordered l_start win ->
  (forall e, e ∈ win -> l_start e <= last /\ l_start e <= last_byte e) -> (ty = F_UNLCK -> releases k = []) ->
  (exists k', gaps_loop fd ty undo win dn last ret k = (ret, k') /\ passed k k' /\ painted win ty dn last k k') \/
  (exists e d km, gaps_loop fd ty undo win dn last ret k = (Some e, undo d km) /\ ty <> F_UNLCK /\
     dn <= d < last /\ refused e k km /\ painted win ty dn d k km).
Proof.
  intros Hfd Hty Hlast. induction win as [|w ws IH]; intros r dn ret k Hc Hr Ho Hs Hg; cbn [gaps_loop];
    (case_test; [left; exists k; split_and!; [done|apply passed_refl|by apply painted_none]|]).
  - destruct (stretch_cases fd ty dn last k Hfd Hty Hlast Hg) as [(k1 & -> & Hp & Hh)|(e & km & -> & Hu & Hp & Hh)].
    + left. exists k1. split_and!; [done..|]. intros b Hb. rewrite Hh by done.
      apply decide_ext. pose proof (covered_nil b). tauto.
    + rewrite bool_decide_eq_false_2 by done.
      right. exists e, dn, km. split_and!; try done; by apply painted_none.
  - destruct Hc as [Hc1 Hc2]. destruct (Hs w ltac:(set_solver)) as [Hw1 Hw2].
    assert ((if dn <? reach w then reach w else dn) = Z.max dn (last_byte w)) as -> by (case_test; lia).
    destruct (stretch_cases fd ty dn (l_start w - 1) k Hfd Hty ltac:(lia) Hg)
      as [(k1 & -> & Hp & Hh)|(e & km & -> & Hu & Hp & Hh)].
    + destruct (IH (reach w) (Z.max dn (last_byte w)) ret k1) as [(k' & H1 & H2 & H3)|(e & d & km & H1 & H2 & H3 & H4 & H5)];
        [done|lia|by inversion Ho|set_solver| | |].
      * intros Hu. eapply passed_yielding, Hp. auto.
      * left. exists k'. split_and!; [done|by eapply passed_trans|].
        eapply painted_stretch; [reflexivity|done|exact Hh|lia|lia|done].
      * right. exists e, d, km. split_and!; [done|done|lia|lia|by eapply passed_refused|].
        eapply painted_stretch; [reflexivity|done|exact Hh|lia|lia|done].
    + rewrite bool_decide_eq_false_2 by done.
      right. exists e, dn, km. split_and!; try done; by apply painted_none.
Qed.

Lemma painted_window l pre win post ty off hi last k k' :
  framed l pre win post off last -> hi <= last -> painted win ty (off - 1) hi k k' -> painted l ty (off - 1) hi k k'.
Proof.
  intros [-> Hpre Hpost _ _ _] Hhi Hp b Hb. rewrite Hp by done. apply decide_ext.
  rewrite !covered_app.
  assert (off <= b -> ~ covered pre b) by (intros ? (e & He%Hpre & Hc); unfold covers in Hc; lia).
  assert (b <= last -> ~ covered post b) by (intros ? (e & He%Hpost & Hc); unfold covers in Hc; lia).
  split; intros [? ?]; (split; [lia|]); [intros [?|[?|?]]|]; tauto || (apply H; [lia|done]) || (apply H0; [lia|done]).
Qed.

Lemma gaps_with_spec undo fd l ty start len k :
  0 <= fd -> ty <> F_INVALID -> arr l -> range_ok start len -> (ty = F_UNLCK -> releases k = []) ->
  (exists k', gaps_with undo fd l (Flock ty start len) k = (None, k') /\ passed k k' /\
     painted l ty (start - 1) (adf_lock_last start len) k k') \/
  (exists e d km, gaps_with undo fd l (Flock ty start len) k = (Some e, undo d km) /\ ty <> F_UNLCK /\
     start - 1 <= d < adf_lock_last start len /\ refused e k km /\ painted l ty (start - 1) d k km).
Proof.
  intros Hfd Hty Ha Hr Hg. destruct (window_framed l start len Ha Hr) as (pre & post & Hf & _).
  pose proof (range_last _ _ Hr). destruct (framed_chain _ _ _ _ _ _ Hf) as (r & Hr' & Hc).
  destruct (gaps_loop_spec fd ty undo (adf_lock_last start len) Hfd Hty ltac:(lia)
              (window_of l start len) r (start - 1) None k)
    as [(k' & H1 & H2 & H3)|(e & d & km & H1 & H2 & H3 & H4 & H5)]; try done; [lia|apply Hf| | |].
  - intros e He. split; [by apply Hf|]. pose proof (arr_valid _ Ha) as Hv. rewrite Forall_forall in Hv.
    assert (valid e) as Hve; [|pose proof (valid_last _ Hve); unfold valid in Hve; lia].
    apply Hv. rewrite (framed_split _ _ _ _ _ _ Hf). set_solver.
  - left. exists k'. split_and!; [done..|]. eapply painted_window; [done|lia|done].
  - right. exists e, d, km. split_and!; try done; try lia. eapply painted_window; [done|lia|done].
Qed.

(** A release the kernel grants clears exactly the bytes no entry covers. *)
Lemma release_spec undo fd l start len k :
  0 <= fd -> arr l -> range_ok start len -> releases k = [] ->
  exists k', gaps_with undo fd l (Flock F_UNLCK start len) k = (None, k') /\ passed k k' /\
    painted l F_UNLCK (start - 1) (adf_lock_last start len) k k'.
Proof.
  intros Hfd Ha Hr Hg. edestruct gaps_with_spec as [H|(e & d & km & _ & H & _)]; [done| | | | |exact H|]; done.
Qed.

(** A take either covers every byte no entry covers, or is refused and, its
    releases granted, leaves the kernel's locks as they were. *)
Lemma take_spec fd l ty start len k :
  0 <= fd -> ty = F_RDLCK \/ ty = F_WRLCK -> arr l -> range_ok start len ->
  (forall b, start <= b <= adf_lock_last start len -> ~ covered l b -> held k b = F_UNLCK) ->
  (exists k', adf_lock_gaps fd l (Flock ty start len) k = (None, k') /\ passed k k' /\
     painted l ty (start - 1) (adf_lock_last start len) k k') \/
  (exists e km k', adf_lock_gaps fd l (Flock ty start len) k = (Some e, k') /\ refused e k km /\
     (releases k = [] -> releases k' = [] /\ forall b, b <= LOCK_TOP -> held k' b = held k b)).
Proof.
  intros Hfd Hty Ha Hr Hun. unfold adf_lock_gaps.
  edestruct gaps_with_spec as [H|(e & d & km & H1 & _ & H3 & H4 & H5)]; [done| |done|done| |left; exact H|].
  1,2: by destruct Hty; subst.
  right. exists e, km. cbn [fl_start] in *. pose proof (range_last _ _ Hr) as Hl.
  assert (forall b, b <= LOCK_TOP -> start <= b <= d -> ~ covered l b -> held k b = F_UNLCK) as Hun' by (intros; apply Hun; [lia|done]).
  eexists. split_and!; [exact H1|exact H4|]. intros Hg0.
  assert (releases km = []) as Hg by (destruct H4 as (? & _ & _ & H4 & _); auto). cbv beta. case_test.
  - assert (adf_lock_last start (d - start + 1) = d) as Hd by (unfold adf_lock_last; case_test; lia).
    destruct (release_spec (fun _ k => k) fd l start (d - start + 1) km) as (k' & K1 & K2 & K3); [done..| |done|].
    { unfold range_ok in *. lia. }
    unfold release_gaps. rewrite K1. cbn. split; [by eapply passed_yielding|].
    intros b Hb. rewrite (K3 b Hb), (H5 b Hb), Hd. repeat case_decide; try done. symmetry. apply Hun'; [done|lia|tauto].
  - split; [done|]. intros b Hb. rewrite (H5 b Hb). case_decide; [lia|done].
Qed.

(** ** Updates of the array *)

(** The entries without their reach. *)
Definition recs (l : list entry) : list entry := set_reach 0 <$> l.

#[export] Instance recs_proper : Proper ((≡ₚ) ==> (≡ₚ)) recs.
Proof. intros l l' Hp. unfold recs. by rewrite Hp. Qed.

Lemma covered_recs l b : covered (recs l) b <-> covered l b.
Proof.
  unfold covered, recs. setoid_rewrite list_elem_of_fmap. split.
  - intros (? & (e & -> & He) & Hc). eauto.
  - intros (e & He & Hc). exists (set_reach 0 e). eauto.
Qed.

Lemma Forall_recs (P : entry -> Prop) l : (forall e, P (set_reach 0 e) <-> P e) -> Forall P (recs l) <-> Forall P l.
Proof. intros H. unfold recs. rewrite Forall_fmap. apply Forall_iff. exact H. Qed.

Lemma recs_valid l : Forall valid (recs l) <-> Forall valid l.
Proof. by apply Forall_recs. Qed.

Lemma recs_ordered l : ordered l_start (recs l) <-> ordered l_start l.
Proof.
  unfold ordered, recs. induction l as [|e l IH]; [done|]. cbn [fmap list_fmap].
  split; intros H; inversion H as [|? ? H1 H2]; subst; constructor; try tauto; rewrite Forall_fmap in *; exact H2.
Qed.

Lemma reach_from_recs l : forall r, recs (reach_from r l) = recs l.
Proof. induction l as [|e l IH]; intros r; [done|]. cbn. f_equal. apply IH. Qed.

Lemma reach_from_chain l : forall r, chain r (reach_from r l).
Proof.
  induction l as [|e l IH]; intros r; [done|]. cbn. split; [|apply IH].
  change (last_byte (set_reach _ e)) with (adf_lock_last (l_start e) (l_len e)). case_test; lia.
Qed.

Lemma adf_lock_reach_recs l i : recs (adf_lock_reach l i) = recs l.
Proof.
  unfold adf_lock_reach, recs. rewrite fmap_app. fold (recs (reach_from (match i with O => -1 | S j => default (-1) (reach <$> l !! j) end) (drop i l))).
  rewrite reach_from_recs. unfold recs. by rewrite <- fmap_app, take_drop.
Qed.

Lemma adf_lock_reach_arr l i :
  (i <= length l)%nat -> chain (-1) (take i l) -> ordered l_start l -> Forall valid l -> arr (adf_lock_reach l i).
Proof.
  intros Hi Hc Ho Hv. split.
  - by rewrite <- recs_ordered, adf_lock_reach_recs, recs_ordered.
  - unfold adf_lock_reach. apply chain_app. split; [done|].
    assert (top_reach (-1) (take i l) = match i with O => -1 | S j => default (-1) (reach <$> l !! j) end) as ->.
    { unfold top_reach. destruct i as [|i]; [done|].
      destruct (lookup_lt_is_Some_2 l i ltac:(lia)) as [e He]. rewrite He. cbn.
      by rewrite (take_S_r _ _ _ He), last_snoc. }
    apply reach_from_chain.
  - by rewrite <- recs_valid, adf_lock_reach_recs, recs_valid.
Qed.

Lemma arr_delete l i e :
  arr l -> l !! i = Some e ->
  arr (adf_lock_reach (delete i l) i) /\ l ≡ₚ e :: delete i l /\ recs (adf_lock_reach (delete i l) i) = recs (delete i l).
Proof.
  intros [Ho Hc Hv] He. pose proof (lookup_lt_Some _ _ _ He) as Hi.
  pose proof (take_drop_middle _ _ _ He) as Hs. rewrite delete_take_drop.
  split_and!; [| |apply adf_lock_reach_recs].
  - rewrite <- Hs in Ho, Hc, Hv. apply adf_lock_reach_arr.
    + rewrite length_app, length_take. lia.
    + rewrite take_app_le, take_take, Nat.min_id by (rewrite length_take; lia). by apply chain_app in Hc as [? _].
    + apply ordered_app in Ho as (O1 & O2 & O3). inversion O2; subst.
      apply ordered_app. split_and!; [done..|]. intros; apply O3; set_solver.
    + rewrite Forall_app, Forall_cons in Hv. rewrite Forall_app. tauto.
  - rewrite <- Hs at 1. by rewrite Permutation_middle.
Qed.

Lemma arr_insert l e :
  arr l -> valid e ->
  let i := adf_lock_lower l (l_start e) false in
  arr (adf_lock_reach (insert_entry l i e) i) /\ recs (adf_lock_reach (insert_entry l i e) i) ≡ₚ recs (e :: l).
Proof.
  intros [Ho Hc Hv] He i. destruct (adf_lock_lower_splits l (l_start e) false Ho) as (Hi & H1 & H2).
  fold i in Hi, H1, H2. clearbody i. unfold insert_entry. split.
  - rewrite <- (take_drop i l) in Ho, Hc, Hv. apply adf_lock_reach_arr.
    + rewrite length_app, length_take. lia.
    + rewrite take_app_le, take_take, Nat.min_id by (rewrite length_take; lia). by apply chain_app in Hc as [? _].
    + apply ordered_app in Ho as (O1 & O2 & O3). rewrite Forall_forall in H1.
      apply ordered_app. split_and!; [done|by constructor|].
      intros x y Hx [->|Hy]%elem_of_cons; [apply H1 in Hx; cbn in Hx; lia|auto].
    + rewrite Forall_app in Hv. rewrite Forall_app, Forall_cons. tauto.
  - rewrite adf_lock_reach_recs. unfold recs. apply fmap_Permutation.
    rewrite <- Permutation_middle. by rewrite take_drop.
Qed.
