(* ===== verification/AdLockTheorems.v ===== *)
(** * Locks on forks: specification and theorems

    The abstract state of a descriptor is the collection of locks its forks
    hold, without order.  The theorems show that the array and the kernel's lock
    map implement it: the requests give the answers of the specification, and
    the kernel holds exactly the bytes of the locks recorded. *)

From S2P Require Import Prelude AdLock AdLockFacts.

(** ** The specification *)

(** The bytes [start .. last] meet the entry. *)
Definition meets (start last : Z) (e : entry) : Prop := start <= last_byte e /\ l_start e <= last.

(** Recorded locks that share a byte are read locks of different forks. *)
Definition compatible (e e' : entry) : Prop :=
  meets (l_start e) (last_byte e) e' -> user e <> user e' /\ l_type e = F_RDLCK /\ l_type e' = F_RDLCK.

Fixpoint pairwise (R : entry -> entry -> Prop) (l : list entry) : Prop :=
  match l with
  | [] => True
  | e :: l => Forall (R e) l /\ pairwise R l
  end.

(** What the kernel holds for this process on each byte. *)
Definition synced (l : list entry) (k : kern) : Prop := forall b, 0 <= b <= LOCK_TOP ->
  (forall e, e ∈ l -> covers e b -> held k b = l_type e) /\ (~ covered l b -> held k b = F_UNLCK).

Record good (a : ad_fd) (k : kern) : Prop := {
  good_fd : 0 <= adf_fd a;
  good_arr : arr (adf_lock a);
  good_compat : pairwise compatible (adf_lock a);
  good_synced : synced (adf_lock a) k;
  good_room : Z.of_nat (length (adf_lock a)) <= adf_lockmax a
}.

(** What is still to come in [k'] was to come in [k]. *)
Definition later (k k' : kern) : Prop :=
  (forall x, x ∈ answers k' -> x ∈ answers k) /\ (forall x, x ∈ reallocs k' -> x ∈ reallocs k).

#[export] Instance meets_dec start last e : Decision (meets start last e).
Proof. unfold meets. apply _. Defined.

Section spec.
Context (ty : lty) (start len fork : Z) (upgrade : bool).

Definition own (e : entry) : Prop := user e = fork /\ meets start (start + len - 1) e.
Definition exact (e : entry) : Prop := l_start e = start /\ l_len e = len.
Definition conflicts (e : entry) : Prop :=
  user e <> fork /\ meets start (start + len - 1) e /\ (ty = F_WRLCK \/ l_type e = F_WRLCK).

#[export] Instance own_dec e : Decision (own e).
Proof. unfold own. apply _. Defined.
#[export] Instance exact_dec e : Decision (exact e).
Proof. unfold exact. apply _. Defined.
#[export] Instance conflicts_dec e : Decision (conflicts e).
Proof. unfold conflicts. apply _. Defined.

(** A request for the bytes from [start] on: the answer and the locks after it. *)
Definition spec_record (L : list entry) : option errno * list entry :=
  let mine := filter own L in
  if decide (ty = F_UNLCK) then
    if decide (mine <> [] /\ Forall exact mine) then (None, filter (fun e => ~ own e) L) else (Some EINVAL, L)
  else if decide (Exists conflicts L) then (Some EACCES, L)
  else if decide (mine = []) then (None, Entry ty start len fork 0 :: L)
  else if decide (Forall exact mine /\ upgrade = true) then (None, Entry ty start len fork 0 :: filter (fun e => ~ own e) L)
  else (Some EINVAL, L).

End spec.

(** A read-only descriptor takes a read lock for a write lock. *)
Definition granted_type (rdwr : bool) (ty : lty) : lty :=
  if negb rdwr && bool_decide (ty = F_WRLCK) then F_RDLCK else ty.

Definition spec_lock (rdwr : bool) (shift : Z) (ty : lty) (upgrade : bool) (off len fork : Z) (L : list entry) :
    option errno * list entry :=
  let ty := granted_type rdwr ty in
  let start := off + shift in
  let len := if decide (len = BYTELOCK_MAX) then len - start else len in
  if decide (off < 0 \/ LOCK_TOP < start \/ len <= 0) then (Some EINVAL, L)
  else if decide (LOCK_TOP < start + len - 1) then (Some (if decide (ty = F_UNLCK) then EINVAL else EOVERFLOW), L)
  else spec_record ty start len fork upgrade L.

(** The lock type argument of a call. *)
Definition locktype (ty : lty) (upgrade filelock : bool) : Z :=
  Z.lor (match ty with F_RDLCK => ADLOCK_RD | F_WRLCK => ADLOCK_WR | _ => ADLOCK_CLR end)
        (Z.lor (if upgrade then ADLOCK_UPGRADE else 0) (if filelock then ADLOCK_FILELOCK else 0)).

(** The answers to a request for which the specification has [s], from the
    locks [L]: a take that [s] grants fails with the errno of the kernel if that
    refuses it, and may fail with [ENOMEM] when there is no room for the entry. *)
Definition allowed (refusal : option errno) (room take : bool) (s : option errno * list entry) (L : list entry) :
    list (option errno * list entry) :=
  match s.1 with
  | Some _ => [s]
  | None =>
      if negb take then [s] else
      match refusal with
      | Some e => [(Some e, L)]
      | None => s :: (if room then [] else [(Some ENOMEM, L)])
      end
  end.

(** What the kernel answers to the next take, the allocator to the next call. *)
Definition next_take (k : kern) : option errno := (next_answer (answers k)).1.
Definition next_room (k : kern) : bool := default true (head (reallocs k)).

(** ** Pairs of entries *)

Lemma compatible_sym e e' : compatible e e' -> compatible e' e.
Proof. unfold compatible, meets. intros H ?. destruct H as (? & ? & ?); [lia|]. auto. Qed.

Lemma pairwise_perm R l l' : (forall e e', R e e' -> R e' e) -> l ≡ₚ l' -> pairwise R l -> pairwise R l'.
Proof.
  intros Hs. induction 1 as [|e l l' Hp IH|e e' l|]; cbn; [done| | |tauto].
  - intros [H1 H2]. split; [by rewrite <- Hp|auto].
  - rewrite !Forall_cons. intuition.
Qed.

#[export] Instance pairwise_compatible_proper : Proper ((≡ₚ) ==> iff) (pairwise compatible).
Proof. intros l l' Hp. split; apply pairwise_perm; try apply compatible_sym; done. Qed.

Lemma pairwise_recs l : pairwise compatible (recs l) <-> pairwise compatible l.
Proof.
  induction l as [|e l IH]; [done|]. cbn. fold (recs l). rewrite IH.
  rewrite (Forall_recs (compatible (set_reach 0 e))) by done. done.
Qed.

Lemma pairwise_elem l i j e e' :
  pairwise compatible l -> l !! i = Some e -> l !! j = Some e' -> i <> j -> compatible e e'.
Proof.
  revert i j. induction l as [|x l IH]; intros i j Hp Hi Hj Hn; [done|]. destruct Hp as [H1 H2].
  rewrite Forall_forall in H1. destruct i as [|i], j as [|j]; cbn in *; simplify_eq.
  - apply H1. by eapply list_elem_of_lookup_2.
  - apply compatible_sym, H1. by eapply list_elem_of_lookup_2.
  - eapply IH; eauto.
Qed.

#[export] Instance synced_proper : Proper ((≡ₚ) ==> eq ==> iff) synced.
Proof. intros l l' Hp k ? <-. unfold synced. setoid_rewrite Hp. done. Qed.

Lemma synced_recs l k : synced (recs l) k <-> synced l k.
Proof.
  unfold synced. split; intros H b Hb; destruct (H b Hb) as [H1 H2]; (split; [|rewrite covered_recs in *; exact H2]).
  - intros e He Hc. apply (H1 (set_reach 0 e)); [|done]. apply list_elem_of_fmap. eauto.
  - intros ? (e & -> & He)%list_elem_of_fmap Hc. exact (H1 e He Hc).
Qed.

(** ** The specification on the cases of the code *)

Section cases.
Context (ty : lty) (start len fork : Z) (upgrade : bool).
Notation own := (own start len fork).
Notation exact := (exact start len).
Notation conflicts := (conflicts ty start len fork).
Notation spec := (spec_record ty start len fork upgrade).
Notation new := (Entry ty start len fork 0).

Definition answers_alike (x y : option errno * list entry) : Prop := x.1 = y.1 /\ x.2 ≡ₚ y.2.

#[export] Instance answers_alike_equiv : Equivalence answers_alike.
Proof.
  unfold answers_alike. split; [done| |].
  - intros x y [? ?]. split; [congruence|by symmetry].
  - intros x y z [? ?] [? ?]. split; [congruence|by etrans].
Qed.

Lemma spec_record_perm L L' : L ≡ₚ L' -> answers_alike (spec L) (spec L').
Proof.
  intros Hp. unfold spec_record, answers_alike.
  assert (forall P `{forall x, Decision (P x)}, filter P L ≡ₚ filter P L') as Hf by (intros; by rewrite Hp).
  assert (filter own L = [] <-> filter own L' = []) as H1.
  { split; intros H; apply Permutation_nil; [rewrite <- H|rewrite <- H]; rewrite Hf; done. }
  assert (Forall exact (filter own L) <-> Forall exact (filter own L')) as H2 by by rewrite Hf.
  assert (Exists conflicts L <-> Exists conflicts L') as H3 by by rewrite Hp.
  repeat case_decide; cbn; try tauto; split; try done; by rewrite ?Hf, ?Hp.
Qed.

Lemma filter_own_nil L : Forall (fun e => ~ own e) L -> filter own L = [] /\ filter (fun e => ~ own e) L = L.
Proof.
  intros H. rewrite Forall_forall in H. split; [|by apply list_filter_all].
  apply elem_of_nil_inv. intros e [Ho He]%list_elem_of_filter. by eapply H.
Qed.

Lemma spec_record_none L :
  Forall (fun e => ~ own e) L ->
  spec L = if decide (ty = F_UNLCK) then (Some EINVAL, L)
           else if decide (Exists conflicts L) then (Some EACCES, L) else (None, new :: L).
Proof.
  intros [H _]%filter_own_nil. unfold spec_record. rewrite H.
  repeat case_decide; try done; tauto.
Qed.

Lemma spec_record_exact e D :
  own e -> exact e -> Forall (fun e => ~ own e) D ->
  spec (e :: D) = if decide (ty = F_UNLCK) then (None, D)
                  else if decide (Exists conflicts (e :: D)) then (Some EACCES, e :: D)
                  else if upgrade then (None, new :: D) else (Some EINVAL, e :: D).
Proof.
  intros Ho He [H1 H2]%filter_own_nil. unfold spec_record.
  rewrite !filter_cons, (decide_True (P := own e)), (decide_False (P := ~ own e)), H1, H2 by tauto.
  assert (Forall exact [e]) by by constructor.
  repeat case_decide; try done; destruct upgrade; try done; naive_solver.
Qed.

Lemma spec_record_inexact e L :
  e ∈ L -> own e -> ~ exact e ->
  spec L = if decide (ty = F_UNLCK) then (Some EINVAL, L)
           else if decide (Exists conflicts L) then (Some EACCES, L) else (Some EINVAL, L).
Proof.
  intros HL Ho He. unfold spec_record.
  assert (e ∈ filter own L) as Hm by by apply list_elem_of_filter.
  assert (~ Forall exact (filter own L)) by (rewrite Forall_forall; eauto).
  assert (filter own L <> []) by (intros E; rewrite E in Hm; set_solver).
  repeat case_decide; try done; tauto.
Qed.

End cases.

(** ** The searches of a request *)

Section searches.
Context (l : list entry) (start len fork : Z) (Hl : arr l) (Hr : range_ok start len) (Hlen : 1 <= len).

Lemma overlap_meets e : e ∈ l -> OVERLAP start len (l_start e) (l_len e) = true <-> meets start (start + len - 1) e.
Proof.
  intros He. pose proof (arr_valid _ Hl) as Hv. rewrite Forall_forall in Hv.
  rewrite OVERLAP_spec by (done || by apply valid_range, Hv).
  unfold meets, last_byte. replace (adf_lock_last start len) with (start + len - 1); [done|].
  unfold adf_lock_last. case_test; lia.
Qed.

Lemma entry_type e : e ∈ l -> l_type e = F_RDLCK \/ l_type e = F_WRLCK.
Proof. intros He. pose proof (arr_valid _ Hl) as Hv. rewrite Forall_forall in Hv. apply Hv, He. Qed.

Lemma findxlock_conflicts ty t :
  has_bit t ADLOCK_WR = bool_decide (ty = F_WRLCK) ->
  match adf_findxlock l fork (Z.lor ADLOCK_WR (if has_bit t ADLOCK_WR then ADLOCK_RD else 0)) start len
  with Some _ => true | None => false end = bool_decide (Exists (conflicts ty start len fork) l).
Proof.
  intros ->. unfold adf_findxlock. rewrite find_in_window_linear; [|done..|by intros e [_ ?]%andb_true_iff].
  set (p := fun e => _). pose proof (find_from_is_Some p l 0) as H.
  assert ((exists e, e ∈ l /\ p e = true) <-> Exists (conflicts ty start len fork) l) as Hp.
  { rewrite Exists_exists. f_equiv. intros e. split; intros [He H']; (split; [done|]).
    - subst p. cbn in H'. rewrite !andb_true_iff, negb_true_iff, Z.eqb_neq, overlap_meets in H' by done.
      destruct H' as [[Ht Hu] Hm]. split_and!; try done. unfold type_matches in Ht. case_bool_decide; [by left|right].
      destruct (entry_type _ He) as [E|E]; rewrite E in *; done.
    - subst p. cbn. destruct H' as (Hu & Hm & Ht).
      rewrite !andb_true_iff, negb_true_iff, Z.eqb_neq, overlap_meets by done. split_and!; try done.
      unfold type_matches. destruct (entry_type _ He) as [E|E]; rewrite E in *; case_bool_decide; try done; naive_solver. }
  case_bool_decide as Hb.
  - by destruct (proj2 H (proj2 Hp Hb)) as [j ->].
  - destruct (find_from p 0 l) eqn:E; [|done]. destruct Hb. apply Hp, H. eauto.
Qed.

Lemma findlock_own :
  match adf_findlock l fork (Z.lor ADLOCK_RD ADLOCK_WR) start len with
  | Some i => exists e, l !! i = Some e /\ own start len fork e
  | None => Forall (fun e => ~ own start len fork e) l
  end.
Proof.
  unfold adf_findlock. rewrite find_in_window_linear; [|done..|by intros e [_ ?]%andb_true_iff].
  set (p := fun e => _). assert (forall e, e ∈ l -> p e = true <-> own start len fork e) as Hp.
  { intros e He. subst p. cbn. rewrite !andb_true_iff, Z.eqb_eq, overlap_meets by done. unfold own, type_matches.
    destruct (entry_type _ He) as [E|E]; rewrite E; cbn; tauto. }
  destruct (find_from p 0 l) as [i|] eqn:E.
  - apply find_from_Some in E as (e & _ & He & H). rewrite Nat.sub_0_r in He. exists e. split; [done|].
    apply Hp; [by eapply list_elem_of_lookup_2|done].
  - rewrite Forall_forall. intros e He Ho%Hp; [|done].
    assert (is_Some (find_from p 0 l)) as [? ?]; [|congruence]. apply find_from_is_Some. eauto.
Qed.

End searches.

(** ** Kernel and array together *)

Lemma release_synced e D k k' :
  synced (e :: D) k -> painted D F_UNLCK (l_start e - 1) (last_byte e) k k' -> synced D k'.
Proof.
  intros Hs Hp b Hb. destruct (Hs b Hb) as [H1 H2]. rewrite (Hp b) by lia. split.
  - intros e' He' Hc. rewrite decide_False; [apply H1; set_solver|]. intros [_ []]. by exists e'.
  - intros Hn. case_decide as Hd; [done|]. apply H2. rewrite covered_cons. intros [Hc|Hc]; [|done].
    apply Hd. unfold covers in Hc. split; [lia|done].
Qed.

Lemma painted_ext l l' ty lo hi k k' : (forall b, covered l b <-> covered l' b) -> painted l ty lo hi k k' -> painted l' ty lo hi k k'.
Proof. intros H Hp b Hb. rewrite Hp by done. apply decide_ext. by rewrite H. Qed.

Lemma later_refl k : later k k.
Proof. done. Qed.
Lemma worlds_later_trans k1 k2 k3 : later k1 k2 -> later k2 k3 -> later k1 k3.
Proof. intros [? ?] [? ?]. split; auto. Qed.
Lemma passed_later k k' : passed k k' -> later k k'.
Proof. intros (pre & E & _ & _ & _ & Er). split; intros x Hx; [rewrite E; set_solver|by rewrite <- Er]. Qed.
Lemma realloc_later k : later k (realloc k).2 /\ held (realloc k).2 = held k /\ releases (realloc k).2 = releases k.
Proof. unfold realloc, later. destruct (reallocs k) eqn:E; cbn; rewrite ?E; split_and!; try done; set_solver. Qed.

Lemma good_held a k k' : good a k -> (forall b, 0 <= b <= LOCK_TOP -> held k' b = held k b) -> good a k'.
Proof.
  intros [? ? ? Hs ?] Hh. split; try done. intros b Hb. rewrite (Hh b Hb). by apply Hs.
Qed.

Lemma freelock_good a i e k :
  good a k -> releases k = [] -> adf_lock a !! i = Some e ->
  exists a' k', adf_freelock a i k = (a', k') /\ good a' k' /\
    recs (adf_lock a') = recs (delete i (adf_lock a)) /\ releases k' = [] /\ later k k' /\
    adf_fd a' = adf_fd a /\ adf_rdwr a' = adf_rdwr a.
Proof.
  intros [Hfd Ha Hc Hs Hm] Hg He. unfold adf_freelock. rewrite He.
  destruct (arr_delete _ _ _ Ha He) as (Ha' & Hp & Hrec).
  set (l' := adf_lock_reach (delete i (adf_lock a)) i) in *.
  assert (valid e) as Hve.
  { pose proof (arr_valid _ Ha) as Hv. rewrite Forall_forall in Hv. apply Hv. by eapply list_elem_of_lookup_2. }
  destruct (release_spec (fun done k => if l_start e <=? done then (release_gaps (adf_fd a) l' (l_start e) (done - l_start e + 1) k).2 else k)
              (adf_fd a) l' (l_start e) (l_len e) k Hfd Ha' (valid_range _ Hve) Hg) as (k1 & H1 & H2 & H3).
  unfold adf_lock_gaps. cbn [fl_start]. rewrite H1. fold (last_byte e) in H3.
  assert (synced l' k1) as Hs'.
  { rewrite <- synced_recs, Hrec, synced_recs. eapply release_synced; [by rewrite <- Hp|].
    eapply painted_ext; [|exact H3]. intros b. by rewrite <- covered_recs, Hrec, covered_recs. }
  assert (pairwise compatible l') as Hc'.
  { rewrite <- pairwise_recs, Hrec, pairwise_recs. rewrite Hp in Hc. apply Hc. }
  assert (length l' < length (adf_lock a))%nat as Hlen.
  { apply (f_equal length) in Hrec. unfold recs in Hrec. rewrite !length_fmap in Hrec. rewrite Hrec.
    rewrite length_delete by eauto. apply lookup_lt_Some in He. lia. }
  pose proof (passed_yielding _ _ Hg H2) as Hg1. pose proof (passed_later _ _ H2) as Hlat.
  destruct (realloc_later k1) as (Hl2 & Hh2 & Hr2). pose proof (worlds_later_trans _ _ _ Hlat Hl2) as Hl3.
  unfold ARRAY_FREE_DELTA. case_test; [destruct (realloc k1) as [[] k2]|]; cbn in *;
    (do 2 eexists; split; [reflexivity|]; split; [split; cbn; try done; try lia; unfold synced in *; by rewrite ?Hh2|]);
    cbn; split_and!; try done; congruence.
Qed.

(** A take leaves the other entries that meet it with its own type. *)
Section take.
Context (ty : lty) (start len fork : Z).
Notation new := (Entry ty start len fork 0).
Context (Hty : ty = F_RDLCK \/ ty = F_WRLCK) (Hr : range_ok start len) (Hlen : 1 <= len).

Lemma new_valid : valid new.
Proof. unfold valid. unfold range_ok in Hr. cbn. split_and!; try lia. done. Qed.

Lemma new_last r : last_byte (Entry ty start len fork r) = start + len - 1.
Proof. unfold last_byte, adf_lock_last. cbn. case_test; lia. Qed.

Lemma take_compatible D :
  Forall valid D -> Forall (fun e => ~ own start len fork e) D -> ~ Exists (conflicts ty start len fork) D ->
  Forall (compatible new) D.
Proof.
  rewrite Exists_exists, !Forall_forall. intros Hv Hown Hx e He Hm.
  rewrite new_last in Hm. cbn [l_start] in Hm. specialize (Hown _ He). assert (~ conflicts ty start len fork e) as Hx' by eauto. unfold own, conflicts in *. cbn.
  destruct (Hv _ He) as (_ & _ & _ & Ht). destruct Hty, Ht; naive_solver.
Qed.

Lemma take_synced L D k k1 :
  (forall b, held k1 b = if in_request start len b then ty else held k b) ->
  synced L k -> (forall e, e ∈ L <-> e ∈ D \/ e ∈ L /\ exact start len e) -> Forall (compatible new) D -> synced (new :: D) k1.
Proof.
  intros Hk Hs HLD Hc b Hb. destruct (Hs b Hb) as [H1 H2]. rewrite Forall_forall in Hc.
  assert (in_request start len b = true <-> covers new b) as Hin.
  { unfold covers. rewrite new_last. unfold in_request. cbn. rewrite andb_true_iff, orb_true_iff, Z.leb_le, Z.eqb_eq, Z.ltb_lt. lia. }
  rewrite Hk. destruct (in_request start len b); split.
  - intros e [->|He]%elem_of_cons Hce; [done|]. destruct (Hc _ He) as (_ & H & H'); [|cbn in *; congruence].
    assert (covers new b) as Hn by by apply Hin. unfold meets, covers in *. lia.
  - intros Hn. destruct Hn. apply covered_cons. left. by apply Hin.
  - intros e [->|He]%elem_of_cons Hce; [exfalso; by apply Hin in Hce|]. apply H1; [|done]. apply HLD. auto.
  - intros Hn. apply H2. intros (e & He & Hce). apply Hn. apply HLD in He as [He|[_ [E1 E2]]].
    + exists e. set_solver.
    + exfalso. assert (covers new b) as Hx%Hin; [|done]. unfold covers, last_byte in *. cbn. by rewrite <- E1, <- E2.
Qed.

End take.

(** A take the allocator has no room for is given back. *)
Lemma give_back ty start len fork L k k1 k2 :
  ty = F_RDLCK \/ ty = F_WRLCK -> range_ok start len -> 1 <= len ->
  (forall b, held k1 b = if in_request start len b then ty else held k b) -> synced L k ->
  Forall (compatible (Entry ty start len fork 0)) L -> painted L F_UNLCK (start - 1) (adf_lock_last start len) k1 k2 ->
  forall b, 0 <= b <= LOCK_TOP -> held k2 b = held k b.
Proof.
  intros Hty Hr Hlen Hk Hs Hc Hp b Hb. destruct (Hs b Hb) as [H1 H2]. rewrite (Hp b), Hk by lia.
  assert (adf_lock_last start len = start + len - 1) as -> by (unfold adf_lock_last; case_test; lia).
  assert (in_request start len b = bool_decide (start <= b <= start + len - 1)) as ->.
  { apply Bool.eq_true_iff_eq. unfold in_request. rewrite bool_decide_eq_true, andb_true_iff, orb_true_iff, Z.leb_le, Z.eqb_eq, Z.ltb_lt. lia. }
  case_decide as Hd; [symmetry; apply H2; tauto|]. case_bool_decide as Hi; [|done].
  destruct (decide (covered L b)) as [(e & He & Hce)|Hn]; [|exfalso; apply Hd; split; [lia|done]].
  rewrite (H1 e He Hce). rewrite Forall_forall in Hc. destruct (Hc e He) as (_ & E1 & E2); [|cbn in E1; congruence].
  rewrite new_last by done. cbn [l_start]. unfold meets, covers in *. lia.
Qed.

(** The array after an upgrade of entry [i]. *)
Lemma alter_arr l i e ty :
  arr l -> l !! i = Some e -> ty = F_RDLCK \/ ty = F_WRLCK ->
  arr (alter (set_type ty) i l) /\ alter (set_type ty) i l ≡ₚ set_type ty e :: delete i l.
Proof.
  intros [Ho Hc Hv] He Hty. pose proof (take_drop_middle _ _ _ He) as Hs.
  assert (alter (set_type ty) i l = take i l ++ set_type ty e :: drop (S i) l) as ->.
  { apply lookup_lt_Some in He as Hi. rewrite <- Hs at 1. rewrite alter_app_r_alt by (rewrite length_take; lia).
    rewrite length_take, Nat.min_l, Nat.sub_diag by lia. done. }
  rewrite delete_take_drop. split; [|by rewrite Permutation_middle].
  rewrite <- Hs in Ho, Hc, Hv. split.
  - rewrite ordered_app in *. destruct Ho as (O1 & O2 & O3). split_and!; [done| |].
    + inversion O2; subst. by constructor.
    + intros x y Hx [->|Hy]%elem_of_cons; [apply (O3 x e); set_solver|apply O3; set_solver].
  - rewrite chain_app in *. exact Hc.
  - rewrite Forall_app, Forall_cons in *. unfold valid in *. cbn. tauto.
Qed.

(** Two runs of the specification agree on the order-free state of the array. *)
Definition refines (a : ad_fd) (r : option errno) (a' : ad_fd) (k' : kern) (s : list entry -> option errno * list entry) : Prop :=
  good a' k' /\ answers_alike (r, recs (adf_lock a')) (s (recs (adf_lock a))) /\
  adf_fd a' = adf_fd a /\ adf_rdwr a' = adf_rdwr a.

(** The same with what the kernel and the allocator may refuse. *)
Definition implements (a : ad_fd) (k : kern) (r : option errno) (a' : ad_fd) (k' : kern) (take : bool)
    (s : list entry -> option errno * list entry) : Prop :=
  good a' k' /\ releases k' = [] /\ later k k' /\
  (exists y, y ∈ allowed (next_take k) (next_room k) take (s (recs (adf_lock a))) (recs (adf_lock a)) /\
     answers_alike (r, recs (adf_lock a')) y) /\
  adf_fd a' = adf_fd a /\ adf_rdwr a' = adf_rdwr a.

Lemma allowed_self refusal room take s L : s.1 <> None \/ take = false \/ refusal = None -> s ∈ allowed refusal room take s L.
Proof.
  intros H. unfold allowed. destruct (s.1); [set_solver|]. destruct take; cbn; [|set_solver].
  destruct refusal; [exfalso; naive_solver|]. set_solver.
Qed.

Lemma refines_implements a k r a' k' take s :
  refines a r a' k' s -> releases k' = [] -> later k k' -> r <> None \/ take = false \/ next_take k = None ->
  implements a k r a' k' take s.
Proof.
  intros (H1 & [H2 H2'] & H3 & H4) Hr Hl Hw. cbn in H2. split_and!; try done. eexists. split; [apply allowed_self|by split].
  by rewrite <- H2.
Qed.

(** A refusal that leaves the locks as they were. *)
Lemma refused_implements a k k' e s :
  good a k -> (forall b, 0 <= b <= LOCK_TOP -> held k' b = held k b) -> releases k' = [] -> later k k' ->
  (s (recs (adf_lock a))).1 = None -> next_take k = Some e \/ (next_take k = None /\ next_room k = false /\ e = ENOMEM) ->
  implements a k (Some e) a k' true s.
Proof.
  intros Hg Hh Hr Hl Hs He. split_and!; try done; [by eapply good_held|]. exists (Some e, recs (adf_lock a)). split; [|done].
  unfold allowed. rewrite Hs. cbn. destruct He as [->|(-> & -> & ->)]; set_solver.
Qed.

Lemma set_lock_world fd fl k :
  0 <= fd -> fl_type fl <> F_INVALID -> fl_type fl <> F_UNLCK -> releases k = [] ->
  exists k', set_lock fd fl k = (next_take k, k') /\ releases k' = [] /\ later k k' /\ reallocs k' = reallocs k /\
    forall b, held k' b = match next_take k with
                          | None => if in_request (fl_start fl) (fl_len fl) b then fl_type fl else held k b
                          | Some _ => held k b
                          end.
Proof.
  intros Hfd Hi Hu Hr. unfold next_take.
  destruct (set_lock_cases fd fl k Hfd Hi ltac:(done)) as [(k1 & H1 & H2 & H3 & H4)|(e & k1 & H1 & H2 & H3 & _ & H4 & _ & H5)]; exists k1.
  - specialize (H3 Hu). destruct (answers k) as [|[e|] l]; cbn [next_answer fst]; [|by destruct (H3 e l)|];
      (split_and!; [done|by eapply passed_yielding|by apply passed_later|by destruct H2 as (? & _ & _ & _ & _ & ?)|done]).
  - rewrite H3. cbn [next_answer fst]. split_and!; try done; [congruence| |by rewrite H2]. split; [rewrite H3; set_solver|by rewrite H5].
Qed.

Section record.
Context (a : ad_fd) (k : kern) (t : Z) (ty : lty) (start len fork : Z) (upgrade : bool).
Context (Hgood : good a k) (Hrel : releases k = []) (Hr : range_ok start len) (Hlen : 1 <= len).
Context (Hwr : has_bit t ADLOCK_WR = bool_decide (ty = F_WRLCK)) (Hup : has_bit t ADLOCK_UPGRADE = upgrade).
Notation spec := (spec_record ty start len fork upgrade).
Notation new := (Entry ty start len fork 0).
Notation L := (recs (adf_lock a)).

Lemma exists_recs : Exists (conflicts ty start len fork) L <-> Exists (conflicts ty start len fork) (adf_lock a).
Proof. unfold recs. rewrite Exists_fmap. done. Qed.

Lemma own_recs l : Forall (fun e => ~ own start len fork e) (recs l) <-> Forall (fun e => ~ own start len fork e) l.
Proof. by apply Forall_recs. Qed.

(** With an entry of the fork on the same bytes, no other entry of it meets them. *)
Lemma own_alone i e :
  adf_lock a !! i = Some e -> own start len fork e -> exact start len e ->
  Forall (fun e => ~ own start len fork e) (delete i (adf_lock a)).
Proof.
  intros He Ho [E1 E2]. destruct (arr_delete _ _ _ (good_arr _ _ Hgood) He) as (_ & Hp & _).
  pose proof (good_compat _ _ Hgood) as Hc. rewrite Hp in Hc. destruct Hc as [Hc _]. rewrite Forall_forall in *.
  intros e' He' [Hu Hm]. destruct (Hc _ He') as [Hn _].
  - unfold last_byte at 1. rewrite E1, E2. unfold adf_lock_last. case_test; [|lia]. by replace (start + (len - 1)) with (start + len - 1) by lia.
  - destruct Ho. congruence.
Qed.

Lemma record_take_new k1 :
  ty = F_RDLCK \/ ty = F_WRLCK -> Forall (fun e => ~ own start len fork e) (adf_lock a) ->
  ~ Exists (conflicts ty start len fork) (adf_lock a) ->
  (forall b, held k1 b = if in_request start len b then ty else held k b) ->
  forall max, Z.of_nat (length (adf_lock a)) < max ->
  let i := adf_lock_lower (adf_lock a) start false in
  let a' := AdFd (adf_fd a) (adf_rdwr a) (adf_lock_reach (insert_entry (adf_lock a) i new) i) max in
  refines a None a' k1 (fun L => (None, new :: L)).
Proof.
  intros Hty Hown Hcx Hk max Hmax i a'. destruct Hgood as [Hfd Ha Hc Hs Hm].
  destruct (arr_insert (adf_lock a) new Ha (new_valid _ _ _ _ Hty Hr Hlen)) as [Hai Hpi]. cbn [l_start] in Hai, Hpi. fold i in Hai, Hpi.
  pose proof (take_compatible ty start len fork Hty Hlen _ (arr_valid _ Ha) Hown Hcx) as Hcn.
  clearbody i. split_and!; try done. split; subst a'; cbn [adf_fd adf_rdwr adf_lock adf_lockmax]; try done.
  - rewrite <- pairwise_recs, Hpi, pairwise_recs. done.
  - rewrite <- synced_recs, Hpi, synced_recs. eapply take_synced; try done. naive_solver.
  - apply Permutation_length in Hpi. unfold recs in Hpi. rewrite !length_fmap in Hpi. cbn in Hpi. lia.
Qed.

Lemma record_take_upgrade i e k1 :
  ty = F_RDLCK \/ ty = F_WRLCK -> adf_lock a !! i = Some e -> own start len fork e -> exact start len e ->
  ~ Exists (conflicts ty start len fork) (adf_lock a) ->
  (forall b, held k1 b = if in_request start len b then ty else held k b) ->
  let a' := AdFd (adf_fd a) (adf_rdwr a) (alter (set_type ty) i (adf_lock a)) (adf_lockmax a) in
  refines a None a' k1 (fun L => (None, new :: recs (delete i (adf_lock a)))).
Proof.
  intros Hty He Ho Hx Hcx Hk a'. destruct Hgood as [Hfd Ha Hc Hs Hm].
  destruct (arr_delete _ _ _ Ha He) as (_ & Hp & _). destruct (alter_arr _ _ _ ty Ha He Hty) as [Haa Hpa].
  pose proof (own_alone _ _ He Ho Hx) as Hal. set (D := delete i (adf_lock a)) in *.
  assert (set_type ty e :: D = Entry ty start len fork (reach e) :: D) as Hnew.
  { unfold set_type. destruct Ho as [-> _], Hx as [-> ->]. done. }
  pose proof (arr_valid _ Ha) as Hv. rewrite Hp, Forall_cons in Hv.
  assert (Forall (compatible new) D) as Hcn.
  { apply (take_compatible ty start len fork Hty Hlen _ (proj2 Hv) Hal). rewrite Hp, Exists_cons in Hcx. tauto. }
  split_and!; try done; [split; subst a'; cbn [adf_fd adf_rdwr adf_lock adf_lockmax]; try done|].
  - rewrite Hpa, Hnew. rewrite Hp in Hc. destruct Hc as [_ Hc]. by split.
  - rewrite Hpa, Hnew. rewrite <- synced_recs. change (synced (recs (new :: D)) k1). rewrite synced_recs.
    rewrite Hp in Hs. eapply take_synced; [done..| |done]. intros e'. rewrite elem_of_cons. naive_solver.
  - rewrite length_alter. done.
  - split; cbn [fst snd]; [done|]. subst a'. cbn [adf_lock]. rewrite Hpa, Hnew. done.
Qed.

Lemma refines_error e : answers_alike (Some e, L) (spec L) -> refines a (Some e) a k spec.
Proof. intros H. by split_and!. Qed.

Lemma refines_alike r a' k' s : answers_alike (s L) (spec L) -> refines a r a' k' s -> refines a r a' k' spec.
Proof. intros H (H1 & H2 & H3 & H4). split_and!; try done. by rewrite H2. Qed.

Lemma recs_split i e : adf_lock a !! i = Some e -> L ≡ₚ set_reach 0 e :: recs (delete i (adf_lock a)).
Proof.
  intros He. destruct (arr_delete _ _ _ (good_arr _ _ Hgood) He) as (_ & Hp & _).
  set (D := delete i (adf_lock a)) in *. by rewrite Hp.
Qed.

Lemma conflicts_cons e i :
  adf_lock a !! i = Some e ->
  Exists (conflicts ty start len fork) (set_reach 0 e :: recs (delete i (adf_lock a))) <->
  Exists (conflicts ty start len fork) (adf_lock a).
Proof.
  intros He. by rewrite <- exists_recs, (recs_split _ _ He).
Qed.

(** The take of a new entry, with the growth of the array. *)
Definition take_new : option errno * ad_fd * kern :=
  let '(r, k) := set_lock (adf_fd a) (Flock ty start len) k in
  match r with
  | Some e => (Some e, a, k)
  | None =>
      let full := adf_lockmax a =? Z.of_nat (length (adf_lock a)) in
      let '(ok, k) := if full then realloc k else (true, k) in
      if negb ok then
        let '(_, k) := adf_lock_gaps (adf_fd a) (adf_lock a) (Flock F_UNLCK start len) k in (Some ENOMEM, a, k)
      else
        let i := adf_lock_lower (adf_lock a) start false in
        (None, AdFd (adf_fd a) (adf_rdwr a) (adf_lock_reach (insert_entry (adf_lock a) i new) i)
                 (if full then adf_lockmax a + ARRAY_BLOCK_SIZE else adf_lockmax a), k)
  end.

Lemma record_new_refines :
  ty <> F_INVALID -> Forall (fun e => ~ own start len fork e) (adf_lock a) ->
  ty <> F_UNLCK -> ~ Exists (conflicts ty start len fork) (adf_lock a) ->
  exists r a' k', take_new = (r, a', k') /\ implements a k r a' k' true spec.
Proof.
  intros Hinv Hown Hu Hx. assert (ty = F_RDLCK \/ ty = F_WRLCK) as Hty by (destruct ty; auto; done).
  assert (spec L = (None, new :: L)) as Hspec.
  { rewrite spec_record_none by by apply own_recs. rewrite !decide_False; [done|by rewrite exists_recs|done]. }
  unfold take_new. pose proof Hgood as [Hfd Ha _ Hs Hroom].
  destruct (set_lock_world (adf_fd a) (Flock ty start len) k Hfd Hinv Hu Hrel) as (k1 & -> & K1 & K2 & K3 & K4). cbn [fl_type fl_start fl_len] in K4.
  destruct (next_take k) as [e|] eqn:Et.
  { do 3 eexists. split; [reflexivity|]. apply refused_implements; try done; [by rewrite Hspec|by left]. }
  set (full := adf_lockmax a =? Z.of_nat (length (adf_lock a))).
  assert (exists ok k2, (if full then realloc k1 else (true, k1)) = (ok, k2) /\ later k k2 /\ releases k2 = [] /\ held k2 = held k1 /\
            (ok = false -> next_room k = false)) as (ok & k2 & -> & M1 & M2 & M3 & M4).
  { destruct (realloc_later k1) as (R1 & R2 & R3). unfold next_room. rewrite <- K3. destruct full.
    - exists (realloc k1).1, (realloc k1).2. split; [by destruct (realloc k1)|]. split_and!; [by eapply worlds_later_trans|congruence|done|].
      unfold realloc. destruct (reallocs k1); cbn; by intros.
    - exists true, k1. done. }
  destruct ok; cbn [negb].
  - do 3 eexists. split; [reflexivity|]. apply refines_implements; [|done|done|by right; right].
    apply (refines_alike _ _ _ (fun L => (None, new :: L))); [by rewrite Hspec|]. apply (record_take_new k2); try done.
    + intros b. rewrite M3. apply K4.
    + subst full. unfold ARRAY_BLOCK_SIZE. case_test; lia.
  - destruct (release_spec (fun dn k => if start <=? dn then (release_gaps (adf_fd a) (adf_lock a) start (dn - start + 1) k).2 else k)
                (adf_fd a) (adf_lock a) start len k2 Hfd Ha Hr M2) as (k3 & E1 & E2 & E3).
    unfold adf_lock_gaps. cbn [fl_start]. rewrite E1. do 3 eexists. split; [reflexivity|].
    apply refused_implements; try done.
    + eapply give_back; [exact Hty|exact Hr|done|exact K4|exact Hs| |].
      * eapply take_compatible; try done. apply Ha.
      * intros b Hb. rewrite (E3 b Hb), M3. done.
    + by eapply passed_yielding.
    + eapply worlds_later_trans; [done|by apply passed_later].
    + by rewrite Hspec.
    + right. split_and!; auto.
Qed.

(** The entry of the fork on the same bytes is released or changes its type. *)
Definition take_exact (i : nat) : option errno * ad_fd * kern :=
  if bool_decide (ty = F_UNLCK) then let '(a, k) := adf_freelock a i k in (None, a, k) else
  let '(r, k) := set_lock (adf_fd a) (Flock ty start len) k in
  match r with
  | Some e => (Some e, a, k)
  | None => (None, AdFd (adf_fd a) (adf_rdwr a) (alter (set_type ty) i (adf_lock a)) (adf_lockmax a), k)
  end.

Lemma record_exact_refines i e :
  ty <> F_INVALID -> adf_lock a !! i = Some e -> own start len fork e -> exact start len e ->
  negb (bool_decide (ty = F_UNLCK)) && bool_decide (Exists (conflicts ty start len fork) (adf_lock a)) = false ->
  negb upgrade && negb (bool_decide (ty = F_UNLCK)) = false ->
  exists r a' k', take_exact i = (r, a', k') /\ implements a k r a' k' (negb (bool_decide (ty = F_UNLCK))) spec.
Proof.
  intros Hinv He Ho Hx Hnc Hnu. pose proof (own_alone _ _ He Ho Hx) as Hal. unfold take_exact.
  pose proof (recs_split _ _ He) as Hp. pose proof (conflicts_cons _ _ He) as Hcc.
  pose proof (spec_record_perm ty start len fork upgrade _ _ Hp) as Hsp.
  rewrite spec_record_exact in Hsp; [|done|done|by apply own_recs].
  case_bool_decide as Hu; cbn [negb] in *.
  - rewrite decide_True in Hsp by done.
    destruct (freelock_good a i e k Hgood Hrel He) as (a' & k' & -> & H2 & H3 & H4 & H5 & H6 & H7).
    do 3 eexists. split; [reflexivity|]. apply refines_implements; try done; [|by right; left]. split; [done|]. split; [|done].
    rewrite H3. by symmetry.
  - apply bool_decide_eq_false in Hnc. rewrite decide_False, decide_False in Hsp by (done || by rewrite Hcc).
    assert (answers_alike (spec L) (None, new :: recs (delete i (adf_lock a)))) as Hsp' by by destruct upgrade. clear Hsp.
    destruct (set_lock_world (adf_fd a) (Flock ty start len) k (good_fd _ _ Hgood) Hinv Hu Hrel) as (k1 & -> & K1 & K2 & K3 & K4).
    cbn [fl_type fl_start fl_len] in K4. destruct (next_take k) as [e'|] eqn:Et; (do 3 eexists; split; [reflexivity|]).
    + apply refused_implements; try done; [by apply Hsp'|by left].
    + apply refines_implements; try done; [|by right; right].
      apply (refines_alike _ _ _ (fun _ => (None, new :: recs (delete i (adf_lock a))))); [by symmetry|].
      eapply record_take_upgrade; try done. destruct ty; auto; done.
Qed.

(** A second take of the same bytes without the upgrade flag. *)
Lemma record_relock i e :
  adf_lock a !! i = Some e -> own start len fork e -> exact start len e -> ty <> F_UNLCK -> upgrade = false ->
  negb (bool_decide (ty = F_UNLCK)) && bool_decide (Exists (conflicts ty start len fork) (adf_lock a)) = false ->
  answers_alike (Some EINVAL, L) (spec L).
Proof.
  intros He Ho Hx Hu Hup' Hnc. pose proof (recs_split _ _ He) as Hp.
  rewrite (spec_record_perm ty start len fork upgrade _ _ Hp).
  rewrite spec_record_exact; [|done|done|by apply own_recs, own_alone with e].
  rewrite bool_decide_eq_false_2 in Hnc by done. apply bool_decide_eq_false in Hnc.
  rewrite decide_False, decide_False by (done || by rewrite conflicts_cons). rewrite Hup'. by split.
Qed.

Lemma error_implements e take : answers_alike (Some e, L) (spec L) -> implements a k (Some e) a k take spec.
Proof. intros H. apply refines_implements; [by apply refines_error|done|apply later_refl|by left]. Qed.

Lemma record_lock_refines :
  ty <> F_INVALID ->
  exists r a' k', record_lock a t fork (Flock ty start len) k = (r, a', k') /\
    implements a k r a' k' (negb (bool_decide (ty = F_UNLCK))) spec.
Proof.
  intros Hinv. pose proof (good_arr _ _ Hgood) as Ha. unfold record_lock. cbn [fl_type fl_start fl_len].
  rewrite (findxlock_conflicts _ _ _ _ Ha Hr Hlen ty t Hwr).
  pose proof (findlock_own _ _ _ fork Ha Hr Hlen) as Hown. pose proof exists_recs as Hxr.
  destruct (negb _ && _) eqn:Hnc.
  { apply andb_true_iff in Hnc as [Hu Hx]. bool_cases. do 3 eexists. split; [reflexivity|].
    apply error_implements. unfold spec_record. rewrite decide_False, decide_True by (done || by rewrite Hxr). done. }
  destruct (adf_findlock _ _ _ _ _) as [i|]; cbn [mbind option_bind].
  - destruct Hown as (e & He & Ho). rewrite He, Hup.
    assert (set_reach 0 e ∈ L) as HeL by (apply list_elem_of_fmap; eexists; split; [done|by eapply list_elem_of_lookup_2]).
    assert (negb (l_start e =? start) || negb (l_len e =? len) = bool_decide (~ exact start len e)) as ->.
    { unfold exact. rewrite <- negb_andb. apply Bool.eq_true_iff_eq. rewrite negb_true_iff, bool_decide_eq_true, andb_false_iff, !Z.eqb_neq. lia. }
    destruct (bool_decide (~ exact start len e)) eqn:Hx; bool_cases; cbn [orb].
    + do 3 eexists. split; [reflexivity|]. apply error_implements.
      rewrite (spec_record_inexact ty start len fork upgrade (set_reach 0 e) L HeL Ho Hx).
      apply andb_false_iff in Hnc. repeat case_decide; try done; exfalso; destruct Hnc as [Hnc|Hnc]; bool_cases; tauto.
    + destruct (negb upgrade && _) eqn:Hnu.
      * apply andb_true_iff in Hnu as [Hnu Hu]. bool_cases. do 3 eexists. split; [reflexivity|].
        apply error_implements, record_relock with i e; try done. by apply dec_stable.
      * apply dec_stable in Hx. destruct (record_exact_refines i e Hinv He Ho Hx Hnc Hnu) as (r & a' & k' & H1 & H2).
        exists r, a', k'. split; [|done]. rewrite <- H1. unfold take_exact. case_bool_decide; [done|].
        assert (upgrade = true) as -> by (destruct upgrade; done). by destruct (set_lock _ _ _) as [[] ?].
  - destruct (decide (ty = F_UNLCK)) as [Hu|Hu].
    + rewrite bool_decide_eq_true_2 by done. do 3 eexists. split; [reflexivity|].
      apply error_implements. rewrite spec_record_none by by apply own_recs. by rewrite decide_True.
    + rewrite bool_decide_eq_false_2 in * by done. cbn [negb andb] in *. apply bool_decide_eq_false in Hnc.
      apply (record_new_refines Hinv Hown Hu Hnc).
Qed.

End record.

(** ** The operations of a descriptor *)

Definition taking (ty : lty) : bool := negb (bool_decide (ty = F_UNLCK)).

Lemma lock_fd_refines a k shift ty upgrade filelock off len fork :
  good a k -> releases k = [] -> 0 <= shift -> ty <> F_INVALID ->
  exists r a' k', lock_fd a shift (locktype ty upgrade filelock) off len fork k = (r, a', k') /\
    implements a k r a' k' (taking ty) (spec_lock (adf_rdwr a) shift ty upgrade off len fork).
Proof.
  intros Hgood Hg Hs Hty. unfold lock_fd, spec_lock.
  set (t := degrade a (locktype ty upgrade filelock)). set (g := granted_type (adf_rdwr a) ty).
  assert (XLATE_FCNTL_LOCK (Z.land t ADLOCK_MASK) = g /\ has_bit t ADLOCK_WR = bool_decide (g = F_WRLCK) /\
          has_bit t ADLOCK_UPGRADE = upgrade /\ g <> F_INVALID /\ taking ty = negb (bool_decide (g = F_UNLCK))) as (-> & Hwr & Hup & Hgi & ->).
  { subst t g. unfold degrade, granted_type. destruct (adf_rdwr a), ty, upgrade, filelock; try done; split_and!; reflexivity || done. }
  set (start := off + shift). set (take := negb (bool_decide (g = F_UNLCK))).
  assert (forall e s, s (recs (adf_lock a)) = (Some e, recs (adf_lock a)) -> implements a k (Some e) a k take s) as Herr.
  { intros e s E. apply refines_implements; [|done|apply later_refl|by left]. split_and!; try done; by rewrite E. }
  set (len' := if len =? BYTELOCK_MAX then _ else _).
  assert ((if decide (len = BYTELOCK_MAX) then len - start else len) = len') as Hlen'.
  { subst len'. destruct (decide (len = BYTELOCK_MAX)), (Z.eqb_spec len BYTELOCK_MAX); done. }
  case_test; [do 3 eexists; split; [reflexivity|]; apply Herr; rewrite decide_True; [done|subst start; lia]|].
  case_test; [do 3 eexists; split; [reflexivity|]; apply Herr; rewrite decide_True; [done|subst start; lia]|].
  unfold adf_lock_fits. case_test.
  - do 3 eexists. split; [reflexivity|]. apply Herr. rewrite decide_False, decide_True by (subst start; lia).
    destruct (decide (g = F_UNLCK)); [rewrite bool_decide_eq_true_2|rewrite bool_decide_eq_false_2]; done.
  - destruct (record_lock_refines a k t g start len' fork upgrade Hgood Hg) as (r & a' & k' & K1 & K2);
      [unfold range_ok; subst start; lia|lia|done..|].
    exists r, a', k'. split; [done|]. unfold implements in *.
    fold start. rewrite Hlen', (decide_False (P := off < 0 \/ _)), (decide_False (P := LOCK_TOP < _)); [done|lia|lia].
Qed.

Lemma locktype_filelock ty upgrade filelock : has_bit (locktype ty upgrade filelock) ADLOCK_FILELOCK = filelock.
Proof. by destruct ty, upgrade, filelock. Qed.

(** The specification of a release of all the locks of a fork. *)
Definition spec_unlock (fork : Z) (L : list entry) : list entry := filter (fun e => user e <> fork) L.

Lemma recs_delete i l : recs (delete i l) = delete i (recs l).
Proof. unfold recs. by rewrite list_fmap_delete. Qed.

Lemma unlock_loop_spec fork : forall n a k,
  good a k -> releases k = [] -> (n <= length (adf_lock a))%nat ->
  exists a' k', unlock_loop n fork a k = (a', k') /\ good a' k' /\ (releases k' = [] /\ later k k') /\
    adf_fd a' = adf_fd a /\ adf_rdwr a' = adf_rdwr a /\
    recs (adf_lock a') = spec_unlock fork (take n (recs (adf_lock a))) ++ drop n (recs (adf_lock a)).
Proof.
  induction n as [|n IH]; intros a k Hgood Hg Hn; [by exists a, k|]. cbn [unlock_loop].
  destruct (lookup_lt_is_Some_2 (adf_lock a) n ltac:(lia)) as [e He]. rewrite He.
  assert (recs (adf_lock a) !! n = Some (set_reach 0 e)) as HeL by (unfold recs; by rewrite list_lookup_fmap, He).
  unfold spec_unlock. rewrite (take_S_r _ _ _ HeL), filter_app, filter_cons, filter_nil. cbn [user set_reach]. case_test.
  - destruct (freelock_good a n e k Hgood Hg He) as (a1 & k1 & -> & Hg1 & Hr1 & K1 & K2 & K3 & K4).
    rewrite recs_delete in Hr1.
    assert (length (adf_lock a1) = length (delete n (adf_lock a))) as Hlen.
    { apply (f_equal length) in Hr1. unfold recs in Hr1. by rewrite <- list_fmap_delete, !length_fmap in Hr1. }
    rewrite length_delete in Hlen by eauto.
    destruct (IH a1 k1 Hg1 K1 ltac:(lia)) as (a' & k' & -> & G1 & G2 & G3 & G4 & G5).
    exists a', k'. split_and!; try done; try congruence; try apply G2; [by eapply worlds_later_trans, G2|]. rewrite G5, Hr1, decide_False by tauto.
    unfold spec_unlock. rewrite app_nil_r, delete_take_drop.
    assert (length (take n (recs (adf_lock a))) = n) as Hl by (rewrite length_take; apply lookup_lt_Some in HeL; lia).
    rewrite take_app_le, take_take, Nat.min_id, drop_app_ge, Hl, Nat.sub_diag, drop_0 by lia. done.
  - destruct (IH a k Hgood Hg ltac:(lia)) as (a' & k' & -> & G1 & G2 & G3 & G4 & G5).
    exists a', k'. split_and!; try done; try apply G2. rewrite G5, decide_True by done. unfold spec_unlock.
    rewrite <- app_assoc. cbn. by rewrite (drop_S _ _ _ HeL).
Qed.

Lemma adf_unlock_spec fork a k :
  good a k -> releases k = [] ->
  exists a' k', adf_unlock a fork k = (a', k') /\ good a' k' /\ (releases k' = [] /\ later k k') /\
    adf_fd a' = adf_fd a /\ adf_rdwr a' = adf_rdwr a /\ recs (adf_lock a') = spec_unlock fork (recs (adf_lock a)).
Proof.
  intros H1 H2. destruct (unlock_loop_spec fork (length (adf_lock a)) a k H1 H2 ltac:(lia)) as (a' & k' & G1 & G2 & G3 & G4 & G5 & G6).
  exists a', k'. split_and!; try done; try apply G3. rewrite G6.
  assert (length (adf_lock a) = length (recs (adf_lock a))) as -> by (unfold recs; by rewrite length_fmap).
  by rewrite firstn_all, drop_all, app_nil_r.
Qed.

(** ** Sequences of calls on an open file *)

Inductive call : Type :=
  | Lock (eid : eid_t) (ty : lty) (upgrade filelock : bool) (off len fork : Z)
  | Unlock (fork : Z).

(** The calls [ad_lock] does not panic on. *)
Definition call_ok (c : call) : Prop :=
  match c with
  | Lock _ ty _ filelock _ len _ => ty <> F_INVALID /\ (filelock = true -> len = 1)
  | Unlock _ => True
  end.

#[export] Instance call_ok_dec c : Decision (call_ok c).
Proof. destruct c; cbn; apply _. Defined.

(** What a call meets: the errno with which the kernel refuses the lock it
    takes, if it does, and whether the allocator has room. *)
Record world := World { w_take : option errno; w_room : bool }.

Definition facing_kern (w : world) (k : kern) : kern := Kern (held k) [w_take w] (releases k) (probes k) [w_room w].
Definition facing (w : world) (ad : adouble) : adouble :=
  Adouble (ad_data_fork ad) (ad_rfp ad) (facing_kern w (data_kern ad)) (facing_kern w (rsrc_kern ad)) (rfork_off ad).

Definition run_call (w : world) (c : call) (ad : adouble) : res (option errno * adouble) :=
  match c with
  | Lock eid ty upgrade filelock off len fork => ad_lock (facing w ad) eid (locktype ty upgrade filelock) off len fork
  | Unlock fork => Ok (None, ad_unlock (facing w ad) fork)
  end.

Fixpoint run_calls (cs : list (world * call)) (ad : adouble) : res (list (option errno) * adouble) :=
  match cs with
  | [] => Ok ([], ad)
  | (w, c) :: cs => '(r, ad) ← run_call w c ad; '(rs, ad) ← run_calls cs ad; Ok (r :: rs, ad)
  end.

(** The locks on the data fork's file and on the resource fork's. *)
Definition locks : Type := list entry * list entry.

Section file.
Context (rdwr_d rdwr_r : bool) (shift : Z).

(** The answers a call may give and the locks after them. *)
Definition spec_call (w : world) (c : call) (L : locks) : list (option errno * locks) :=
  match c with
  | Lock ADEID_RFORK ty upgrade false off len fork =>
      (fun y => (y.1, (L.1, y.2))) <$>
        allowed (w_take w) (w_room w) (taking ty) (spec_lock rdwr_r shift ty upgrade off len fork L.2) L.2
  | Lock eid ty upgrade _ off len fork =>
      let off := match eid with ADEID_DFORK => off | ADEID_RFORK => rf2off off end in
      (fun y => (y.1, (y.2, L.2))) <$>
        allowed (w_take w) (w_room w) (taking ty) (spec_lock rdwr_d 0 ty upgrade off len fork L.1) L.1
  | Unlock fork => [(None, (spec_unlock fork L.1, spec_unlock fork L.2))]
  end.

Inductive spec_calls : list (world * call) -> locks -> list (option errno) -> locks -> Prop :=
  | spec_calls_nil L : spec_calls [] L [] L
  | spec_calls_cons w c cs L r L1 rs L2 :
      (r, L1) ∈ spec_call w c L -> spec_calls cs L1 rs L2 -> spec_calls ((w, c) :: cs) L (r :: rs) L2.

End file.

Record good_file (ad : adouble) : Prop := {
  good_data : good (ad_data_fork ad) (data_kern ad);
  good_rsrc : good (ad_rfp ad) (rsrc_kern ad);
  good_data_kern : releases (data_kern ad) = [];
  good_rsrc_kern : releases (rsrc_kern ad) = [];
  good_off : 0 <= rfork_off ad
}.

(** The recorded locks are those of the abstract state, in some order. *)
Definition shows (ad : adouble) (L : locks) : Prop :=
  recs (adf_lock (ad_data_fork ad)) ≡ₚ L.1 /\ recs (adf_lock (ad_rfp ad)) ≡ₚ L.2.

Lemma spec_lock_perm rdwr shift ty upgrade off len fork L L' :
  L ≡ₚ L' -> answers_alike (spec_lock rdwr shift ty upgrade off len fork L) (spec_lock rdwr shift ty upgrade off len fork L').
Proof.
  intros Hp. unfold spec_lock. repeat case_decide; first [by apply spec_record_perm|by split].
Qed.

(** The errno comes from a kernel that refused a take or from the allocator. *)
Definition denied (k : kern) (e : errno) : Prop := Some e ∈ answers k \/ (e = ENOMEM /\ false ∈ reallocs k).

Lemma denied_later k k' e : later k k' -> denied k' e -> denied k e.
Proof. intros [H1 H2] [H|[-> H]]; [left; auto|right; auto]. Qed.

Lemma next_take_denied k e : next_take k = Some e -> denied k e.
Proof. unfold next_take, denied. destruct (answers k) as [|a l]; [done|]. cbn. intros ->. set_solver. Qed.
Lemma next_room_denied k : next_room k = false -> denied k ENOMEM.
Proof. unfold next_room, denied. destruct (reallocs k) as [|b l]; [done|]. cbn. intros ->. set_solver. Qed.

(** An answer is that of the specification, or the refusal of a take it grants. *)
Lemma allowed_cases k take s L r L' :
  (r, L') ∈ allowed (next_take k) (next_room k) take s L ->
  (r, L') = s \/ (s.1 = None /\ take = true /\ L' = L /\ exists e, r = Some e /\ denied k e).
Proof.
  unfold allowed. destruct (s.1); [intros ->%list_elem_of_singleton; by left|].
  destruct take; cbn; [|intros ->%list_elem_of_singleton; by left].
  destruct (next_take k) as [e|] eqn:Et.
  { intros [= -> ->]%list_elem_of_singleton. right. split_and!; try done. exists e. split; [done|by apply next_take_denied]. }
  intros [->|H]%elem_of_cons; [by left|]. destruct (next_room k) eqn:Er; [set_solver|].
  apply list_elem_of_singleton in H as [= -> ->]. right. split_and!; try done. exists ENOMEM. split; [done|by apply next_room_denied].
Qed.

Lemma allowed_perm refusal room take s s' L L' y :
  answers_alike s s' -> L ≡ₚ L' -> y ∈ allowed refusal room take s L ->
  exists y', y' ∈ allowed refusal room take s' L' /\ answers_alike y y'.
Proof.
  intros [E1 E2] Hp. unfold allowed. rewrite <- E1. destruct (s.1) as [e|] eqn:Es.
  { intros ->%list_elem_of_singleton. exists s'. split; [set_solver|split; [congruence|done]]. }
  destruct take; cbn; [|intros ->%list_elem_of_singleton; exists s'; split; [set_solver|split; [congruence|done]]].
  destruct refusal as [e|].
  { intros ->%list_elem_of_singleton. exists (Some e, L'). split; [set_solver|by split]. }
  intros [->|Hy]%elem_of_cons; [exists s'; split; [set_solver|split; [congruence|done]]|].
  destruct room; [set_solver|]. apply list_elem_of_singleton in Hy as ->. exists (Some ENOMEM, L'). split; [set_solver|by split].
Qed.

Lemma lock_fd_shows a k shift ty upgrade filelock off len fork L :
  good a k -> releases k = [] -> 0 <= shift -> ty <> F_INVALID -> recs (adf_lock a) ≡ₚ L ->
  exists r a' k' L', lock_fd a shift (locktype ty upgrade filelock) off len fork k = (r, a', k') /\
    (r, L') ∈ allowed (next_take k) (next_room k) (taking ty) (spec_lock (adf_rdwr a) shift ty upgrade off len fork L) L /\
    recs (adf_lock a') ≡ₚ L' /\ good a' k' /\ (releases k' = [] /\ later k k') /\ adf_rdwr a' = adf_rdwr a.
Proof.
  intros Hg Hk Hs Ht Hp.
  destruct (lock_fd_refines a k shift ty upgrade filelock off len fork Hg Hk Hs Ht) as (r & a' & k' & H1 & H2 & H3 & H4 & (y & H5 & H6) & H7 & H8).
  destruct (allowed_perm _ _ _ _ _ _ _ _ (spec_lock_perm _ _ _ _ _ _ _ _ _ Hp) Hp H5) as ([r' L'] & H9 & H10).
  rewrite <- H6 in H10. destruct H10 as [H10 H11]. cbn in H10, H11. subst r'. exists r, a', k', L'. done.
Qed.

Lemma ad_lock_shows w ad eid ty upgrade filelock off len fork L :
  good_file ad -> shows ad L -> ty <> F_INVALID -> (filelock = true -> len = 1) ->
  exists r ad' L', ad_lock (facing w ad) eid (locktype ty upgrade filelock) off len fork = Ok (r, ad') /\
    (r, L') ∈ spec_call (adf_rdwr (ad_data_fork ad)) (adf_rdwr (ad_rfp ad)) (rfork_off ad) w (Lock eid ty upgrade filelock off len fork) L /\
    good_file ad' /\ shows ad' L' /\ rfork_off ad' = rfork_off ad /\
    adf_rdwr (ad_data_fork ad') = adf_rdwr (ad_data_fork ad) /\ adf_rdwr (ad_rfp ad') = adf_rdwr (ad_rfp ad).
Proof.
  intros [Gd Gr Kd Kr Go] [Sd Sr] Hty Hlen. unfold ad_lock. rewrite locktype_filelock.
  assert (filelock && negb (len =? 1) = false) as ->.
  { destruct filelock; [|done]. rewrite Hlen by done. done. }
  apply (good_held _ _ (facing_kern w (data_kern ad))) in Gd; [|done]. apply (good_held _ _ (facing_kern w (rsrc_kern ad))) in Gr; [|done].
  destruct (lock_fd_shows _ (facing_kern w (data_kern ad)) 0 ty upgrade filelock (match eid with ADEID_DFORK => off | ADEID_RFORK => rf2off off end) len fork _ Gd Kd ltac:(lia) Hty Sd)
    as (r & a' & k' & L' & D1 & D2 & D3 & D4 & [D5 _] & D6).
  destruct (lock_fd_shows _ (facing_kern w (rsrc_kern ad)) (rfork_off ad) ty upgrade filelock off len fork _ Gr Kr Go Hty Sr)
    as (r2 & a2 & k2 & L2 & R1 & R2 & R3 & R4 & [R5 _] & R6).
  unfold next_take, next_room in D2, R2. cbn [facing_kern answers reallocs next_answer fst head default] in D2, R2.
  destruct eid, filelock; cbn [spec_call facing ad_data_fork ad_rfp data_kern rsrc_kern rfork_off]; rewrite ?D1, ?R1; cbn [on_data on_rsrc];
    (eexists _, _, (_, _); split; [reflexivity|]; split; [apply list_elem_of_fmap; eexists; split; [|first [exact D2|exact R2]]; reflexivity|];
     split_and!; try done; split; cbn; done).
Qed.

Lemma ad_unlock_shows w ad fork L :
  good_file ad -> shows ad L ->
  let ad' := ad_unlock (facing w ad) fork in
  good_file ad' /\ shows ad' (spec_unlock fork L.1, spec_unlock fork L.2) /\ rfork_off ad' = rfork_off ad /\
    adf_rdwr (ad_data_fork ad') = adf_rdwr (ad_data_fork ad) /\ adf_rdwr (ad_rfp ad') = adf_rdwr (ad_rfp ad).
Proof.
  intros [Gd Gr Kd Kr Go] [Sd Sr]. unfold ad_unlock. cbn [facing ad_data_fork ad_rfp data_kern rsrc_kern rfork_off].
  pose proof (good_fd _ _ Gd). pose proof (good_fd _ _ Gr). do 2 (rewrite (proj2 (Z.eqb_neq _ _)) by lia).
  apply (good_held _ _ (facing_kern w (data_kern ad))) in Gd; [|done]. apply (good_held _ _ (facing_kern w (rsrc_kern ad))) in Gr; [|done].
  destruct (adf_unlock_spec fork _ _ Gd Kd) as (d & kd & -> & D1 & [D2 _] & D3 & D4 & D5).
  destruct (adf_unlock_spec fork _ _ Gr Kr) as (r & kr & -> & R1 & [R2 _] & R3 & R4 & R5).
  split; [split; try done|]. split; [|done]. unfold shows, spec_unlock in *. cbn. by rewrite D5, R5, Sd, Sr.
Qed.

Lemma record_lock_error a k t ty start len fork r a' k' :
  good a k -> range_ok start len -> 1 <= len -> ty = F_RDLCK \/ ty = F_WRLCK ->
  has_bit t ADLOCK_WR = bool_decide (ty = F_WRLCK) -> releases k = [] ->
  record_lock a t fork (Flock ty start len) k = (Some r, a', k') ->
  a' = a /\ forall b, 0 <= b <= LOCK_TOP -> held k' b = held k b.
Proof.
  intros Hgood Hr Hlen Hty Hwr Hk. pose proof Hgood as [Hfd Ha Hc Hs Hm].
  assert (ty <> F_UNLCK) as Hu by by destruct Hty; subst. assert (ty <> F_INVALID) as Hi by by destruct Hty; subst.
  unfold record_lock. cbn [fl_type fl_start fl_len]. rewrite (bool_decide_eq_false_2 (ty = F_UNLCK)) by done.
  rewrite (findxlock_conflicts _ _ _ _ Ha Hr Hlen ty t Hwr). pose proof (findlock_own _ _ _ fork Ha Hr Hlen) as Hown.
  cbn [negb andb]. destruct (bool_decide (Exists _ _)) eqn:Hx; bool_cases; [by intros [= <- <- <-]|].
  destruct (match _ ≫= _ with Some _ => _ | None => _ end); [by intros [= <- <- <-]|].
  destruct (set_lock_cases (adf_fd a) (Flock ty start len) k Hfd Hi ltac:(done))
    as [(k1 & -> & Hp & Hn & Hh)|(e & k1 & -> & Hh & _)]; [|intros [= <- <- <-]; by rewrite Hh].
  destruct (adf_findlock _ _ _ _ _); [by case_match; intros [=]|]. cbn [fl_start fl_len fl_type] in Hh.
  pose proof (passed_yielding _ _ Hk Hp) as Hg1.
  set (full := adf_lockmax a =? _).
  assert (exists ok k1', (if full then realloc k1 else (true, k1)) = (ok, k1') /\ held k1' = held k1 /\ releases k1' = releases k1)
    as (ok & k1' & -> & Eh & Ea).
  { unfold realloc. destruct full; [destruct (reallocs k1)|]; do 2 eexists; split; (reflexivity || done). }
  destruct ok; cbn [negb]; [by intros [=]|].
  destruct (release_spec (fun dn k => if start <=? dn then (release_gaps (adf_fd a) (adf_lock a) start (dn - start + 1) k).2 else k)
              (adf_fd a) (adf_lock a) start len k1' Hfd Ha Hr ltac:(congruence)) as (k2 & E2 & _ & E4).
  unfold adf_lock_gaps. cbn [fl_start]. rewrite E2. intros [= <- <- <-]. split; [done|].
  eapply give_back; [exact Hty|exact Hr|done|exact Hh|exact Hs| |].
  - eapply take_compatible; try done. apply Ha.
  - intros b Hb. rewrite (E4 b Hb), Eh. done.
Qed.

(** ** Temporary locks *)

(** The request a temporary lock makes once its checks have passed. *)
Lemma tmplock_flags a ty filelock :
  ty = F_RDLCK \/ ty = F_WRLCK \/ ty = F_UNLCK ->
  let t := degrade a (locktype ty false filelock) in let g := granted_type (adf_rdwr a) ty in
  XLATE_FCNTL_LOCK (Z.land t ADLOCK_MASK) = g /\ has_bit t ADLOCK_WR = bool_decide (g = F_WRLCK) /\
  (g = F_UNLCK <-> ty = F_UNLCK) /\ g <> F_INVALID.
Proof.
  intros Hty t g. subst t g. unfold degrade, granted_type.
  destruct Hty as [-> | [-> | ->]], (adf_rdwr a), filelock; split_and!; done.
Qed.

(** No other fork holds a lock that excludes one of type [g] on the range. *)
Definition unopposed (l : list entry) (fork : Z) (g : lty) (start len : Z) : Prop :=
  forall e, e ∈ l -> user e <> fork -> meets start (adf_lock_last start len) e -> g = F_RDLCK /\ l_type e = F_RDLCK.

Lemma unopposed_search l fork g start len t :
  arr l -> range_ok start len -> g = F_RDLCK \/ g = F_WRLCK -> has_bit t ADLOCK_WR = bool_decide (g = F_WRLCK) ->
  unopposed l fork g start len ->
  adf_findxlock l fork (Z.lor ADLOCK_WR (if has_bit t ADLOCK_WR then ADLOCK_RD else 0)) start len = None.
Proof.
  intros Ha Hr Hg Hwr Hun. unfold adf_findxlock. rewrite find_in_window_linear; [|done..|by intros e [_ ?]%andb_true_iff].
  apply find_from_none. intros e He. apply Bool.not_true_iff_false. rewrite !andb_true_iff, negb_true_iff, Z.eqb_neq.
  intros [[Hm Hu] Ho]. pose proof (arr_valid _ Ha) as Hv. rewrite Forall_forall in Hv.
  apply OVERLAP_spec in Ho; [|done|by apply valid_range, Hv].
  destruct (Hun e He Hu Ho) as [-> Ht]. rewrite Hwr in Hm. unfold type_matches in Hm. by rewrite Ht in Hm.
Qed.

Lemma tmplock_granted a k shift ty filelock off len fork :
  0 <= adf_fd a -> arr (adf_lock a) -> answers k = [] -> releases k = [] -> 0 <= off -> 0 <= shift -> range_ok (off + shift) len ->
  ty = F_RDLCK \/ ty = F_WRLCK \/ ty = F_UNLCK ->
  ty = F_UNLCK \/ fork = 0 \/ unopposed (adf_lock a) fork (granted_type (adf_rdwr a) ty) (off + shift) len ->
  exists k', tmplock_fd a shift (locktype ty false filelock) off len fork k = (None, k') /\ (answers k' = [] /\ releases k' = []) /\
    painted (adf_lock a) (granted_type (adf_rdwr a) ty) (off + shift - 1) (adf_lock_last (off + shift) len) k k'.
Proof.
  intros Hfd Ha Hk Hrel Hoff Hs Hr Hty Hun. destruct (tmplock_flags a ty filelock Hty) as (E1 & E2 & E3 & E4).
  pose proof Hr as Hr'. unfold range_ok in Hr'. unfold tmplock_fd. case_test; [lia|].
  set (t := degrade _ _) in *. set (g := granted_type _ _) in *. rewrite E1.
  unfold adf_lock_fits. case_test; [lia|].
  assert (negb (fork =? 0) && negb (bool_decide (g = F_UNLCK)) &&
    match adf_findxlock (adf_lock a) fork (Z.lor ADLOCK_WR (if has_bit t ADLOCK_WR then ADLOCK_RD else 0)) (off + shift) len
    with Some _ => true | None => false end = false) as ->.
  { destruct Hun as [Hu|[->|Hun]]; [|done|].
    - rewrite bool_decide_eq_true_2 by tauto. by rewrite andb_false_r.
    - destruct (decide (g = F_UNLCK)); [rewrite bool_decide_eq_true_2 by done; by rewrite andb_false_r|].
      rewrite unopposed_search with (g := g); try done; [by rewrite andb_false_r|]. destruct g; auto; done. }
  unfold adf_lock_gaps.
  edestruct gaps_with_spec as [(k' & K1 & K2 & K3)|(e & d & km & _ & _ & _ & K & _)];
    [exact Hfd|exact E4|exact Ha|exact Hr|done| |by apply granting_not_refused in K].
  exists k'. split_and!; [exact K1|by eapply passed_granting|by eapply passed_yielding|exact K3].
Qed.

Lemma free_loop_spec : forall n a k,
  good a k -> releases k = [] -> length (adf_lock a) = n ->
  exists a' k', free_loop n a k = (a', k') /\ good a' k' /\ adf_lock a' = [] /\ adf_fd a' = adf_fd a /\ adf_rdwr a' = adf_rdwr a.
Proof.
  induction n as [|n IH]; intros a k Hg Hk Hn; [apply nil_length_inv in Hn; by exists a, k|]. cbn [free_loop]. rewrite Hn.
  destruct (lookup_lt_is_Some_2 (adf_lock a) n ltac:(lia)) as [e He].
  destruct (freelock_good a n e k Hg Hk He) as (a1 & k1 & -> & G1 & G2 & G3 & _ & G4 & G5).
  destruct (IH a1 k1 G1 G3) as (a' & k' & K1 & K2 & K3 & K4 & K5).
  - apply (f_equal length) in G2. unfold recs in G2. rewrite !length_fmap, length_delete in G2 by eauto. lia.
  - exists a', k'. split_and!; try done; congruence.
Qed.

(** ** Claims *)

(** C2: Any sequence of [ad_lock] and [ad_unlock] calls on a file whose two
    descriptors are open, whatever the kernel answers to the locks it takes and
    whatever room the allocator has at each call, as long as the kernel lets go of
    what it is asked to release: each call answers as the specification allows
    ([EACCES] exactly on another fork's conflicting lock, [EINVAL] and [EOVERFLOW]
    on the ranges it refuses, else the errno of a kernel that refuses the lock, or
    [ENOMEM] where there is no room), records exactly the locks of the
    specification, none for a failed call, and keeps the kernel's lock on every
    byte that of the recorded entries covering it. *)
Theorem ad_lock_calls_refine cs : forall ad L,
  good_file ad -> shows ad L -> Forall (fun wc => call_ok wc.2) cs ->
  exists rs ad' L', run_calls cs ad = Ok (rs, ad') /\
    spec_calls (adf_rdwr (ad_data_fork ad)) (adf_rdwr (ad_rfp ad)) (rfork_off ad) cs L rs L' /\
    good_file ad' /\ shows ad' L'.
Proof.
  induction cs as [|[w c] cs IH]; intros ad L Hg Hs Hok; [exists [], ad, L; split_and!; try done; constructor|].
  inversion Hok as [|? ? Hc Hcs]; subst. cbn [run_calls].
  assert (exists r ad1 L1, run_call w c ad = Ok (r, ad1) /\
            (r, L1) ∈ spec_call (adf_rdwr (ad_data_fork ad)) (adf_rdwr (ad_rfp ad)) (rfork_off ad) w c L /\
            good_file ad1 /\ shows ad1 L1 /\ rfork_off ad1 = rfork_off ad /\
            adf_rdwr (ad_data_fork ad1) = adf_rdwr (ad_data_fork ad) /\ adf_rdwr (ad_rfp ad1) = adf_rdwr (ad_rfp ad))
    as (r & ad1 & L1 & H1 & H2 & H3 & H4 & H5 & H6 & H7).
  { destruct c as [eid ty upgrade filelock off len fork|fork]; [destruct Hc; by apply ad_lock_shows|].
    do 3 eexists. split; [reflexivity|]. split; [by apply list_elem_of_singleton|]. by apply ad_unlock_shows. }
  destruct (IH ad1 L1 H3 H4 Hcs) as (rs & ad' & L' & K1 & K2 & K3 & K4). rewrite H5, H6, H7 in K2.
  exists (r :: rs), ad', L'. rewrite H1. cbn. rewrite K1. split_and!; try done. by econstructor.
Qed.

(** A file just opened. *)
Definition fresh_fd (fd : Z) (rdwr : bool) : ad_fd := adf_lock_init (AdFd fd rdwr [] 0).
Definition idle : kern := Kern (fun _ => F_UNLCK) [] [] [] [].
Definition fresh (rdwr : bool) (off : Z) : adouble := Adouble (fresh_fd 3 rdwr) (fresh_fd 4 rdwr) idle idle off.

Lemma fresh_good_fd fd rdwr : 0 <= fd -> good (fresh_fd fd rdwr) idle.
Proof. intros H. split; cbn; try done; [repeat constructor|]. intros b Hb. split; [set_solver|done]. Qed.

Lemma fresh_good rdwr off : 0 <= off -> good_file (fresh rdwr off) /\ shows (fresh rdwr off) ([], []).
Proof. intros H. split; [|done]. split; try done; by apply fresh_good_fd. Qed.

(** Two forks share a read lock, a writer is turned away by the first fork and
    one by another process, one reader leaves. *)
Definition calm : world := World None true.
Definition sample_calls : list (world * call) :=
  [(calm, Lock ADEID_DFORK F_RDLCK false false 10 20 1); (calm, Lock ADEID_DFORK F_RDLCK false false 15 30 2);
   (calm, Lock ADEID_DFORK F_WRLCK false false 12 1 2); (World (Some EAGAIN) true, Lock ADEID_DFORK F_WRLCK false false 90 5 2);
   (calm, Lock ADEID_RFORK F_RDLCK false true AD_FILELOCK_OPEN_RD 1 1); (World None false, Unlock 1)].

Lemma ad_lock_calls_refine_witness :
  exists rs ad' L', run_calls sample_calls (fresh true 82) = Ok (rs, ad') /\ rs = [None; None; Some EACCES; Some EAGAIN; None; None] /\
    spec_calls true true 82 sample_calls ([], []) rs L' /\ good_file ad' /\ shows ad' L'.
Proof.
  destruct (ad_lock_calls_refine sample_calls (fresh true 82) ([], [])) as (rs & ad' & L' & H1 & H2 & H3 & H4).
  - by apply fresh_good.
  - by apply fresh_good.
  - repeat constructor; done.
  - exists rs, ad', L'. split; [exact H1|]. split; [|split; [exact H2|split; [exact H3|exact H4]]].
    assert (match run_calls sample_calls (fresh true 82) with Ok (rs, _) => rs | Abort _ => [] end =
      [None; None; Some EACCES; Some EAGAIN; None; None]) as E by (vm_compute; reflexivity).
    rewrite H1 in E. exact E.
Defined.

(** The searches through the binary-searched window find what a search of the
    whole array finds: the first entry of the fork, or of another fork, with a
    matching type that overlaps the range. *)
Theorem adf_find_linear l fork type off len :
  arr l -> range_ok off len ->
  adf_findlock l fork type off len =
    find_from (fun e => type_matches type e && (user e =? fork) && OVERLAP off len (l_start e) (l_len e)) 0 l /\
  adf_findxlock l fork type off len =
    find_from (fun e => type_matches type e && negb (user e =? fork) && OVERLAP off len (l_start e) (l_len e)) 0 l.
Proof.
  intros Ha Hr. split; apply find_in_window_linear; try done; by intros e [_ ?]%andb_true_iff.
Qed.

Definition sample_array : list entry :=
  [Entry F_RDLCK 10 20 1 29; Entry F_RDLCK 15 30 2 44; Entry F_RDLCK 16 2 3 44; Entry F_WRLCK 50 5 1 54].

Lemma sample_arr : arr sample_array.
Proof.
  split; [unfold ordered| |]; repeat first [apply Sorted.SSorted_nil|apply Sorted.SSorted_cons|apply Forall_nil_2|apply Forall_cons_2];
    unfold valid; cbn; intuition (unfold LOCK_TOP; lia || discriminate || auto).
Qed.

Lemma adf_find_linear_witness :
  adf_findlock sample_array 1 3 40 20 = Some 3%nat /\ adf_findxlock sample_array 1 3 40 20 = Some 1%nat.
Proof.
  destruct (adf_find_linear sample_array 1 3 40 20) as [-> ->]; [exact sample_arr|unfold range_ok, LOCK_TOP; lia|].
  split; reflexivity.
Defined.

(** A take that the kernel grants locks exactly the bytes of its range that no
    recorded entry covers, and a release frees exactly those; all other bytes keep
    their lock. *)
Theorem adf_lock_gaps_exact fd l ty start len k :
  0 <= fd -> ty <> F_INVALID -> arr l -> range_ok start len -> answers k = [] -> releases k = [] ->
  exists k', adf_lock_gaps fd l (Flock ty start len) k = (None, k') /\
    forall b, b <= LOCK_TOP ->
      held k' b = if decide (start <= b <= adf_lock_last start len /\ ~ covered l b) then ty else held k b.
Proof.
  intros Hfd Hty Ha Hr Hg Hrel. unfold adf_lock_gaps.
  edestruct gaps_with_spec as [(k' & H1 & _ & H3)|(e & d & km & _ & _ & _ & H & _)]; [exact Hfd|exact Hty|exact Ha|exact Hr|done| |].
  - exists k'. split; [exact H1|]. intros b Hb. rewrite (H3 b Hb). apply decide_ext. split; intros [? ?]; (split; [lia|done]).
  - by apply granting_not_refused in H.
Qed.

Lemma adf_lock_gaps_exact_witness :
  exists k', adf_lock_gaps 3 sample_array (Flock F_WRLCK 5 46) idle = (None, k') /\
    held k' 9 = F_WRLCK /\ held k' 10 = F_UNLCK /\ held k' 49 = F_WRLCK /\ held k' 50 = F_UNLCK.
Proof.
  destruct (adf_lock_gaps_exact 3 sample_array F_WRLCK 5 46 idle) as (k' & H1 & H2);
    [lia|done|exact sample_arr|unfold range_ok, LOCK_TOP; lia|done|done|].
  exists k'. split; [exact H1|]. split_and!; (rewrite H2; [reflexivity|unfold LOCK_TOP; lia]).
Defined.

(** C22: A take that is not recorded, because another fork's lock, the kernel or the
    allocator refuses it, leaves the array as it was and the kernel's lock on
    every byte as it was, provided that the kernel releases what the code gives
    back. *)
Theorem ad_lock_all_or_nothing a k shift ty upgrade filelock off len fork r a' k' :
  good a k -> 0 <= shift -> ty = F_RDLCK \/ ty = F_WRLCK ->
  releases k = [] ->
  lock_fd a shift (locktype ty upgrade filelock) off len fork k = (Some r, a', k') ->
  a' = a /\ forall b, 0 <= b <= LOCK_TOP -> held k' b = held k b.
Proof.
  intros Hgood Hs Hty Hk. unfold lock_fd. set (t := degrade a (locktype ty upgrade filelock)). set (g := granted_type (adf_rdwr a) ty).
  assert (XLATE_FCNTL_LOCK (Z.land t ADLOCK_MASK) = g /\ has_bit t ADLOCK_WR = bool_decide (g = F_WRLCK) /\ (g = F_RDLCK \/ g = F_WRLCK))
    as (-> & Hwr & Hg).
  { subst t g. unfold degrade, granted_type. destruct Hty, (adf_rdwr a), upgrade, filelock; subst; split_and!; auto. }
  do 3 (case_test; [by intros [= <- <- <-]|]). unfold adf_lock_fits in *. bool_cases.
  apply record_lock_error; try done; unfold range_ok; lia.
Qed.

Lemma ad_lock_all_or_nothing_witness :
  let '(r, a', k') := lock_fd (fresh_fd 3 true) 0 (locktype F_WRLCK false false) 10 20 1 (Kern (fun _ => F_UNLCK) [] [] [] [false]) in
  r = Some ENOMEM /\ a' = fresh_fd 3 true /\ held k' 10 = F_UNLCK.
Proof.
  set (k := Kern (fun _ => F_UNLCK) [] [] [] [false]).
  assert (good (fresh_fd 3 true) k) as Hg by (split; try apply (fresh_good_fd 3 true); done).
  destruct (lock_fd _ _ _ _ _ _ k) as [[r a'] k'] eqn:E.
  assert (r = Some ENOMEM) as -> by (vm_compute in E; congruence).
  destruct (ad_lock_all_or_nothing _ _ _ _ _ _ _ _ _ _ _ _ Hg ltac:(reflexivity) (or_intror eq_refl) eq_refl E) as [-> Hh].
  split_and!; try done. apply Hh. done.
Defined.

(** A temporary lock taken and then released leaves the kernel's lock on every
    byte as it was, whatever the recorded entries hold; in between it holds
    exactly the bytes of its range no entry covers. *)
Theorem ad_tmplock_round_trip a k shift ty filelock off len fork :
  good a k -> answers k = [] -> releases k = [] -> 0 <= off -> 0 <= shift -> range_ok (off + shift) len ->
  ty = F_RDLCK \/ ty = F_WRLCK ->
  fork = 0 \/ unopposed (adf_lock a) fork (granted_type (adf_rdwr a) ty) (off + shift) len ->
  exists k1 k2, tmplock_fd a shift (locktype ty false filelock) off len fork k = (None, k1) /\
    painted (adf_lock a) (granted_type (adf_rdwr a) ty) (off + shift - 1) (adf_lock_last (off + shift) len) k k1 /\
    tmplock_fd a shift (locktype F_UNLCK false filelock) off len fork k1 = (None, k2) /\
    forall b, 0 <= b <= LOCK_TOP -> held k2 b = held k b.
Proof.
  intros Hg Hk Hrel Hoff Hs Hr Hty Hun. pose proof Hg as [Hfd Ha Hc Hsy Hm].
  destruct (tmplock_granted a k shift ty filelock off len fork) as (k1 & H1 & [H2 H2'] & H3); try done; [tauto|tauto|].
  destruct (tmplock_granted a k1 shift F_UNLCK filelock off len fork) as (k2 & K1 & K2 & K3); try done; [tauto..|].
  exists k1, k2. split; [done|]. split; [done|]. split; [done|]. intros b Hb.
  assert (granted_type (adf_rdwr a) F_UNLCK = F_UNLCK) as Eg by (unfold granted_type; by rewrite andb_false_r).
  rewrite (K3 b), (H3 b), Eg by lia. case_decide; [|done].
  symmetry. apply (Hsy b Hb). tauto.
Qed.

(** A descriptor with one lock, on the byte [s], of fork 2. *)
Definition one_fd (s : Z) : ad_fd := AdFd 3 true [Entry F_RDLCK s 1 2 s] 10.
Definition one_kern (s : Z) (ans : list (option errno)) : kern := Kern (fun b => if b =? s then F_RDLCK else F_UNLCK) ans [] [] [].

Lemma one_good s ans : 0 <= s <= LOCK_TOP -> good (one_fd s) (one_kern s ans).
Proof.
  intros Hs. assert (last_byte (Entry F_RDLCK s 1 2 s) = s) as Hl by (unfold last_byte, adf_lock_last; cbn; lia).
  split; [done| |repeat constructor| |done].
  - split; cbn [adf_lock one_fd chain reach]; [repeat constructor|rewrite Hl; split; [lia|done]|].
    apply Forall_singleton. unfold valid. cbn. intuition lia.
  - intros b Hb. cbn [held adf_lock one_fd one_kern]. split.
    + intros e ->%list_elem_of_singleton [? ?]. rewrite Hl in *. cbn in *. case_test; [done|lia].
    + intros Hn. case_test; [|done]. exfalso. apply Hn. exists (Entry F_RDLCK s 1 2 s). split; [set_solver|].
      unfold covers. rewrite Hl. cbn. lia.
Qed.

Definition sample_fd : ad_fd := one_fd 9.
Definition sample_kern : list (option errno) -> kern := one_kern 9.

Lemma sample_good ans : good sample_fd (sample_kern ans).
Proof. apply one_good. unfold LOCK_TOP. lia. Qed.

Lemma ad_tmplock_round_trip_witness :
  exists k1 k2, tmplock_fd sample_fd 0 (locktype F_WRLCK false false) 0 0 2 (sample_kern []) = (None, k1) /\
    held k1 5 = F_WRLCK /\ held k1 9 = F_RDLCK /\
    tmplock_fd sample_fd 0 (locktype F_UNLCK false false) 0 0 2 k1 = (None, k2) /\ held k2 5 = F_UNLCK.
Proof.
  destruct (ad_tmplock_round_trip sample_fd (sample_kern []) 0 F_WRLCK false 0 0 2 (sample_good [])) as (k1 & k2 & K1 & K2 & K3 & K4);
    [done|done|done|done|unfold range_ok, LOCK_TOP; lia|auto| |].
  - right. intros e He Hu. apply list_elem_of_singleton in He as ->. done.
  - exists k1, k2. split; [exact K1|]. split_and!; [rewrite K2 by (unfold LOCK_TOP; lia); reflexivity..|exact K3|].
    rewrite K4 by (unfold LOCK_TOP; lia). reflexivity.
Defined.

(** A temporary lock the kernel refuses part way is given back: whatever the
    kernel answers to the stretches, the take either holds exactly the bytes of its
    range no entry covers, or fails and leaves the kernel's lock on every byte as it
    was. *)
Theorem ad_tmplock_all_or_nothing a k shift ty filelock off len fork :
  good a k -> 0 <= shift -> ty = F_RDLCK \/ ty = F_WRLCK ->
  releases k = [] ->
  exists r k', tmplock_fd a shift (locktype ty false filelock) off len fork k = (r, k') /\
    match r with
    | None => painted (adf_lock a) (granted_type (adf_rdwr a) ty) (off + shift - 1) (adf_lock_last (off + shift) len) k k'
    | Some _ => forall b, 0 <= b <= LOCK_TOP -> held k' b = held k b
    end.
Proof.
  intros [Hfd Ha _ Hsy _] Hs Hty Hk. destruct (tmplock_flags a ty filelock ltac:(tauto)) as (E1 & _ & E3 & E4).
  unfold tmplock_fd. case_test; [do 2 eexists; split; [reflexivity|done]|]. rewrite E1.
  unfold adf_lock_fits. case_test; [do 2 eexists; split; [reflexivity|done]|].
  destruct (negb (fork =? 0) && _ && _); [do 2 eexists; split; [reflexivity|done]|]. set (g := granted_type _ _) in *.
  assert (g = F_RDLCK \/ g = F_WRLCK) as Hg.
  { destruct Hty; subst; destruct g; auto; exfalso; tauto || (apply E4; reflexivity) || (destruct E3; intuition discriminate). }
  assert (range_ok (off + shift) len) as Hr by (unfold range_ok; lia). pose proof (range_last _ _ Hr).
  destruct (take_spec (adf_fd a) (adf_lock a) g (off + shift) len k Hfd Hg Ha Hr) as [(k' & K1 & _ & K2)|(e' & km & k' & K1 & K2 & K3)].
  - intros b Hb Hn. apply (Hsy b); [lia|done].
  - exists None, k'. done.
  - exists (Some e'), k'. split; [done|]. destruct (K3 Hk) as [_ K4]. intros; apply K4; lia.
Qed.

Lemma ad_tmplock_all_or_nothing_witness :
  exists r k', tmplock_fd sample_fd 0 (locktype F_WRLCK false false) 0 0 2 (sample_kern [None; Some EAGAIN]) = (r, k') /\
    r = Some EAGAIN /\ held k' 5 = F_UNLCK.
Proof.
  destruct (ad_tmplock_all_or_nothing sample_fd (sample_kern [None; Some EAGAIN]) 0 F_WRLCK false 0 0 2 (sample_good _))
    as (r & k' & K1 & K2); [done|auto|done|].
  exists r, k'. assert (r = Some EAGAIN) as -> by (vm_compute in K1; congruence).
  split_and!; [exact K1|done|]. rewrite K2 by (unfold LOCK_TOP; lia). reflexivity.
Defined.

(** Closing a descriptor releases everything: [adf_lock_free] ends with an empty
    array and the kernel holding no lock of the process on any byte. *)
Theorem adf_lock_free_releases a k :
  good a k -> releases k = [] ->
  exists k', adf_lock_free a k = (adf_lock_init a, k') /\ forall b, 0 <= b <= LOCK_TOP -> held k' b = F_UNLCK.
Proof.
  intros Hg Hk. assert (forall a' k', good a' k' -> adf_lock a' = [] -> forall b, 0 <= b <= LOCK_TOP -> held k' b = F_UNLCK) as Hfree.
  { intros a' k' Hg' He b Hb. apply (good_synced _ _ Hg' b Hb). rewrite He. apply covered_nil. }
  unfold adf_lock_free. case_test.
  - exists k. pose proof (good_room _ _ Hg) as Hm. destruct a as [fd rdwr [|x l] m]; cbn in *; [|lia].
    subst. split; [done|]. by eapply Hfree.
  - pose proof (good_fd _ _ Hg). case_test; [|lia].
    destruct (free_loop_spec _ a k Hg Hk eq_refl) as (a' & k' & -> & K1 & K2 & K3 & K4).
    exists k'. split; [|by eapply Hfree]. unfold adf_lock_init. by rewrite K3, K4.
Qed.

Lemma adf_lock_free_releases_witness :
  exists k', adf_lock_free sample_fd (sample_kern []) = (fresh_fd 3 true, k') /\ held k' 9 = F_UNLCK.
Proof.
  destruct (adf_lock_free_releases sample_fd (sample_kern []) (sample_good [])) as (k' & K1 & K2); [done|].
  exists k'. split; [exact K1|]. apply K2. unfold LOCK_TOP. lia.
Defined.

(** The byte is one of the lock's. *)
Definition locks_byte (f : flock) (b : Z) : Prop := fl_start f <= b /\ (fl_len f = 0 \/ b < fl_start f + fl_len f).

Lemma write_excludes s n f :
  1 <= n -> 0 <= fl_len f -> excludes (Flock F_WRLCK s n) f = true <-> exists b, locks_byte f b /\ s <= b < s + n.
Proof.
  intros Hn Hf. unfold excludes, in_request, locks_byte. cbn [fl_start fl_len fl_type].
  rewrite bool_decide_eq_true_2 by done. rewrite andb_true_r.
  rewrite orb_true_iff, !andb_true_iff, !orb_true_iff, !Z.leb_le, !Z.eqb_eq, !Z.ltb_lt. split.
  - intros [H|H]; [exists (fl_start f)|exists s]; lia.
  - intros (b & H1 & H2). destruct (decide (s <= fl_start f)); [left|right]; lia.
Qed.

Lemma range_probe_data start off len :
  0 <= start <= LOCK_TOP -> 0 <= off < AD_FILELOCK_BASE -> 0 <= len ->
  range_probe start off len =
    if decide (BYTELOCK_MAX <= start) then None
    else Some (start, if decide (len = 0 \/ BYTELOCK_MAX < start + len) then BYTELOCK_MAX - start else len).
Proof.
  intros Hs Ho Hl. unfold range_probe. rewrite !wrap_small by (unfold LOCK_TOP, AD_FILELOCK_BASE in *; lia).
  rewrite (proj2 (Z.ltb_lt _ _)) by lia. case_decide; case_test; try lia; [done|].
  assert ((if (len =? 0) || (BYTELOCK_MAX - start <? len) then BYTELOCK_MAX - start else len) =
          if decide (len = 0 \/ BYTELOCK_MAX < start + len) then BYTELOCK_MAX - start else len) as ->.
  { case_decide; case_test; lia. }
  case_test; [|done]. case_decide; lia.
Qed.

(** What a probe of a range answers while the other processes hold [ls]. *)
Definition zone (ls : list flock) (start off len : Z) : bool :=
  match range_probe start off len with Some (s, n) => existsb (excludes (Flock F_WRLCK s n)) ls | None => false end.

Lemma zone_content ls start off len :
  Forall (fun f => 0 <= fl_start f /\ 0 <= fl_len f) ls -> 0 <= start <= LOCK_TOP -> 0 <= off < AD_FILELOCK_BASE -> 0 <= len ->
  zone ls start off len = true <-> exists f b, f ∈ ls /\ locks_byte f b /\ start <= b < BYTELOCK_MAX /\ (len = 0 \/ b < start + len).
Proof.
  intros Hl Hs Hoff Hlen. unfold zone. rewrite range_probe_data by done. rewrite Forall_forall in Hl. case_decide as Hz.
  - split; [done|]. intros (f & b & _ & _ & ? & _). lia.
  - set (n := if decide _ then _ else _). assert (1 <= n) as Hn by (subst n; case_decide; lia).
    rewrite existsb_exists. setoid_rewrite <- list_elem_of_In. split.
    + intros (f & Hf & He). destruct (Hl f Hf). apply write_excludes in He as (b & Hb & Hb'); [|lia..].
      exists f, b. split_and!; try done; subst n; case_decide; lia.
    + intros (f & b & Hf & Hb & Hb1 & Hb2). exists f. split; [done|]. destruct (Hl f Hf).
      apply write_excludes; [lia..|]. exists b. split; [done|]. subst n. case_decide; lia.
Qed.

(** [ad_testlock_range] on a request in the data zone answers 1 exactly when
    another process holds a lock on a byte of the range below [BYTELOCK_MAX], so a
    request over the rest of the file never sees the share mode band. *)
Theorem ad_testlock_range_zone ad eid off len locks ps :
  let a := match eid with ADEID_DFORK => ad_data_fork ad | ADEID_RFORK => ad_rfp ad end in
  let k := match eid with ADEID_DFORK => data_kern ad | ADEID_RFORK => rsrc_kern ad end in
  let start := match eid with ADEID_DFORK => off | ADEID_RFORK => off + rfork_off ad end in
  0 <= adf_fd a -> probes k = Others locks :: ps -> Forall (fun f => 0 <= fl_start f /\ 0 <= fl_len f) locks ->
  0 <= off < AD_FILELOCK_BASE -> 0 <= rfork_off ad -> 0 <= len -> start <= LOCK_TOP ->
  ((ad_testlock_range ad eid off len).1 = 1 <->
   exists f b, f ∈ locks /\ locks_byte f b /\ start <= b < BYTELOCK_MAX /\ (len = 0 \/ b < start + len)) /\
  ((ad_testlock_range ad eid off len).1 = 1 \/ (ad_testlock_range ad eid off len).1 = 0).
Proof.
  intros a k start Hfd Hp Hl Hoff Hro Hlen Hs.
  assert (0 <= start) as H0 by (subst start; destruct eid; lia).
  assert ((ad_testlock_range ad eid off len).1 = if zone locks start off len then 1 else 0) as ->.
  { unfold ad_testlock_range, zone. subst a k start.
    destruct eid; (rewrite (proj2 (Z.eqb_neq _ _)) by lia); (destruct (range_probe _ _ _) as [[s n]|]; [|done]);
      unfold get_lock, AD_SYMLINK; (case_test; [lia|]); (case_test; [lia|]); unfold getlk; rewrite Hp; by case_match. }
  pose proof (zone_content locks start off len Hl (conj H0 Hs) Hoff Hlen) as Hz.
  destruct (zone locks start off len); [split; [tauto|by left]|]. split; [|by right]. split; [done|]. intros Hx%Hz. done.
Qed.

(** A peer's lock at the end of the band and one in the data. *)
Lemma ad_testlock_range_zone_witness :
  let seen lk := Adouble (fresh_fd 3 true) (fresh_fd 4 true) (Kern (fun _ => F_UNLCK) [] [] [Others [lk]] []) idle 82 in
  (ad_testlock_range (seen (Flock F_RDLCK AD_FILELOCK_OPEN_RD 1)) ADEID_DFORK 0 0).1 <> 1 /\
  (ad_testlock_range (seen (Flock F_RDLCK 7 1)) ADEID_DFORK 0 0).1 = 1.
Proof.
  split.
  - destruct (ad_testlock_range_zone (Adouble (fresh_fd 3 true) (fresh_fd 4 true)
      (Kern (fun _ => F_UNLCK) [] [] [Others [Flock F_RDLCK AD_FILELOCK_OPEN_RD 1]] []) idle 82) ADEID_DFORK 0 0
      [Flock F_RDLCK AD_FILELOCK_OPEN_RD 1] []) as [H _]; [done|done|by repeat constructor|done|done|done|done|].
    rewrite H. intros (f & b & Hf & [Hb _] & Hb' & _). apply list_elem_of_singleton in Hf as ->.
    unfold AD_FILELOCK_OPEN_RD, BYTELOCK_MAX in *. cbn in Hb. lia.
  - destruct (ad_testlock_range_zone (Adouble (fresh_fd 3 true) (fresh_fd 4 true)
      (Kern (fun _ => F_UNLCK) [] [] [Others [Flock F_RDLCK 7 1]] []) idle 82) ADEID_DFORK 0 0
      [Flock F_RDLCK 7 1] []) as [H _]; [done|done|by repeat constructor|done|done|done|done|].
    apply H. exists (Flock F_RDLCK 7 1), 7. unfold locks_byte. cbn. split_and!; (set_solver || lia || done).
Defined.

(** [testlock] compares its own array with one byte only, whatever length it is
    given: this process holds the resource fork's open mode lock, which lies in
    the four bytes [ad_openforks] tests at once, and the test answers 0. *)
Theorem testlock_one_byte :
  exists ad, good_file ad /\
    (exists e, e ∈ adf_lock (ad_data_fork ad) /\ OVERLAP AD_FILELOCK_OPEN_WR 4 (l_start e) (l_len e) = true) /\
    (testlock (ad_data_fork ad) AD_FILELOCK_OPEN_WR 4 (data_kern ad)).1 = 0 /\ (ad_openforks ad 0).1 = 0.
Proof.
  exists (Adouble (one_fd AD_FILELOCK_RSRC_OPEN_RD) (fresh_fd 4 true) (one_kern AD_FILELOCK_RSRC_OPEN_RD []) idle 82).
  split; [|split_and!; [|reflexivity..]].
  - split; [|by apply fresh_good_fd|done..]. apply one_good. split; discriminate.
  - exists (Entry F_RDLCK AD_FILELOCK_RSRC_OPEN_RD 1 2 AD_FILELOCK_RSRC_OPEN_RD).
    split; [by apply list_elem_of_singleton|reflexivity].
Qed.
