(* ===== verification/Utf8.v ===== *)
(** * The UTF-8 character set, libatalk/unicode/utf8.c

    [utf8_pull] turns UTF-8 into UTF-16 and [utf8_push] UTF-16 into UTF-8, in the
    manner of iconv: they work on an input and an output position, and stop with
    an error where the input is malformed or cut or the output is full.  A byte
    is a [Z] in 0..255; UTF-16 units are stored with their low byte first. *)

From S2P Require Import Prelude.

Inductive errno : Type := EILSEQ | EINVAL | E2BIG.

#[export] Instance errno_eq_dec : EqDecision errno.
Proof. solve_decision. Defined.

(** What a conversion works on: the input left, the output written so far and
    the space left for more. *)
Record conv := Conv { inbuf : list Z; outbuf : list Z; outbytesleft : Z }.

Definition inbytesleft (s : conv) : Z := Z.of_nat (length (inbuf s)).

(** The byte at an index of the input. *)
Definition at_ (c : list Z) (i : nat) : Z := nth i c 0.

Definition GETUCVAL (utf8_trailbyte shift : Z) : Z := Z.shiftl (Z.land utf8_trailbyte 0x3F) shift.
Definition GETUTF8TRAILBYTE (uc shift : Z) : Z := Z.lor 0x80 (Z.land (Z.shiftr uc shift) 0x3F).

(** Write and read a 16 bit unit. *)
Definition SSVAL (v : Z) : list Z := [Z.land v 0xFF; Z.land (Z.shiftr v 8) 0xFF].
Definition SVAL (c : list Z) (pos : nat) : Z := Z.lor (at_ c pos) (Z.shiftl (at_ c (pos + 1)) 8).

(** ** From UTF-8 *)

(** One turn of the loop: an error, or the bytes consumed and the bytes written. *)
Definition pull_char (c : list Z) (outleft : Z) : errno + (nat * list Z) :=
  let left := Z.of_nat (length c) in
  let c0 := at_ c 0 in let c1 := at_ c 1 in let c2 := at_ c 2 in let c3 := at_ c 3 in
  if Z.land c0 0x80 =? 0 then inr (1%nat, SSVAL c0)
  else if Z.land c0 0xe0 =? 0xc0 then
    if left <? 2 then inl EINVAL
    else if c0 <? 0xc2 then inl EILSEQ
    else if negb (Z.land c1 0xc0 =? 0x80) then inl EILSEQ
    else inr (2%nat, SSVAL (wrap 16 (Z.lor (Z.shiftl (Z.land c0 0x1f) 6) (GETUCVAL c1 0))))
  else if Z.land c0 0xf0 =? 0xe0 then
    if left <? 3 then inl EINVAL
    else if negb (((c0 =? 0xe0) && (Z.land c1 0xe0 =? 0xa0)) ||
                  ((0xe1 <=? c0) && (c0 <=? 0xec) && (Z.land c1 0xc0 =? 0x80)) ||
                  ((c0 =? 0xed) && (Z.land c1 0xe0 =? 0x80)) ||
                  ((Z.land c0 0xfe =? 0xee) && (Z.land c1 0xc0 =? 0x80))) then inl EILSEQ
    else if negb (Z.land c2 0xc0 =? 0x80) then inl EILSEQ
    else inr (3%nat, SSVAL (wrap 16 (Z.lor (Z.lor (Z.shiftl (Z.land c0 0x0f) 12) (GETUCVAL c1 6)) (GETUCVAL c2 0))))
  else if Z.land c0 0xf8 =? 0xf0 then
    if left <? 4 then inl EINVAL
    else if outleft <? 4 then inl E2BIG
    else if 0xf4 <? c0 then inl EILSEQ
    else if negb (((c0 =? 0xf0) && (0x90 <=? c1) && (c1 <=? 0xbf)) ||
                  ((0xf1 <=? c0) && (c0 <=? 0xf3) && (Z.land c1 0xc0 =? 0x80)) ||
                  ((c0 =? 0xf4) && (Z.land c1 0xc0 =? 0x80))) then inl EILSEQ
    else if negb (Z.land c2 0xc0 =? 0x80) then inl EILSEQ
    else if negb (Z.land c3 0xc0 =? 0x80) then inl EILSEQ
    else
      let codepoint := Z.lor (Z.lor (Z.lor (Z.shiftl (Z.land c0 0x07) 18) (GETUCVAL c1 12)) (GETUCVAL c2 6)) (GETUCVAL c3 0) in
      inr (4%nat, SSVAL (Z.shiftr (u32(codepoint - 0x10000)) 10 + 0xD800) ++ SSVAL (0xDC00 + Z.land codepoint 0x03FF))
  else inl EILSEQ.

(** The conversion after a turn that consumed [n] bytes and wrote [bs]. *)
Definition advance (s : conv) (n : nat) (bs : list Z) : conv :=
  Conv (drop n (inbuf s)) (outbuf s ++ bs) (outbytesleft s - Z.of_nat (length bs)).

(** The loop of [utf8_pull]; the fuel is one more than the bytes left. *)
Fixpoint pull_loop (fuel : nat) (s : conv) : option errno * conv :=
  match fuel with
  | O => (None, s)
  | S n =>
      if (1 <=? inbytesleft s) && (2 <=? outbytesleft s) then
        match pull_char (inbuf s) (outbytesleft s) with
        | inl e => (Some e, s)
        | inr (len, bs) => pull_loop n (advance s len bs)
        end
      else (if 0 <? inbytesleft s then Some E2BIG else None, s)
  end.

(** [None] is the result 0, [Some e] is -1 with errno [e]. *)
Definition utf8_pull (s : conv) : option errno * conv := pull_loop (S (length (inbuf s))) s.

(** ** To UTF-8 *)

Definition push_char (c : list Z) (outleft : Z) : errno + (nat * list Z) :=
  let uc := SVAL c 0 in
  if uc <? 0x80 then inr (2%nat, [uc])
  else if uc <? 0x800 then
    if outleft <? 2 then inl E2BIG
    else inr (2%nat, [Z.lor 0xc0 (Z.land (Z.shiftr uc 6) 0x1f); GETUTF8TRAILBYTE uc 0])
  else if (0x202a <=? uc) && (uc <=? 0x202e) then inr (2%nat, [])
  else if (0xd800 <=? uc) && (uc <=? 0xdfff) then
    if outleft <? 4 then inl E2BIG
    else if Z.of_nat (length c) <? 4 then inl EINVAL
    else
      let hi := SVAL c 0 in let low := SVAL c 2 in
      if (0xd800 <=? hi) && (hi <=? 0xdbff) && (0xdc00 <=? low) && (low <=? 0xdfff) then
        let codepoint := Z.shiftl (hi - 0xd800) 10 + (low - 0xdc00) + 0x10000 in
        inr (4%nat, [Z.lor 0xf0 (Z.land (Z.shiftr codepoint 18) 0x07); GETUTF8TRAILBYTE codepoint 12;
                     GETUTF8TRAILBYTE codepoint 6; GETUTF8TRAILBYTE codepoint 0])
      else inl EINVAL
  else
    if outleft <? 3 then inl E2BIG
    else inr (2%nat, [Z.lor 0xe0 (Z.land (Z.shiftr uc 12) 0x0f); GETUTF8TRAILBYTE uc 6; GETUTF8TRAILBYTE uc 0]).

Fixpoint push_loop (fuel : nat) (s : conv) : option errno * conv :=
  match fuel with
  | O => (None, s)
  | S n =>
      if (2 <=? inbytesleft s) && (1 <=? outbytesleft s) then
        match push_char (inbuf s) (outbytesleft s) with
        | inl e => (Some e, s)
        | inr (len, bs) => push_loop n (advance s len bs)
        end
      else
        (if inbytesleft s =? 1 then Some EINVAL else if 1 <? inbytesleft s then Some E2BIG else None, s)
  end.

Definition utf8_push (s : conv) : option errno * conv := push_loop (S (length (inbuf s))) s.
