(* ===== verification/Utf8Theorems.v ===== *)
(** * UTF-8 conversion: specification and theorems

    A text is a list of code points; [utf8] and [utf16] are its two encodings as
    the Unicode standard has them.  The theorems relate the converters to these. *)

From S2P Require Import Prelude Bytes Utf8.

(** ** Encodings of a code point *)

Definition utf8 (cp : Z) : list Z :=
  if cp <? 0x80 then [cp]
  else if cp <? 0x800 then [0xC0 + cp / 64; 0x80 + cp mod 64]
  else if cp <? 0x10000 then [0xE0 + cp / 4096; 0x80 + cp / 64 mod 64; 0x80 + cp mod 64]
  else [0xF0 + cp / 262144; 0x80 + cp / 4096 mod 64; 0x80 + cp / 64 mod 64; 0x80 + cp mod 64].

(** A unit, low byte first. *)
Definition unit16 (u : Z) : list Z := [u mod 256; u / 256].

Definition utf16 (cp : Z) : list Z :=
  if cp <? 0x10000 then unit16 cp
  else unit16 (0xD800 + (cp - 0x10000) / 1024) ++ unit16 (0xDC00 + (cp - 0x10000) mod 1024).

(** Unicode's scalar values, and those past the last one whose lead byte is still F4. *)
Definition scalar (cp : Z) : Prop := 0 <= cp < 0xD800 \/ 0xE000 <= cp < 0x110000.
Definition beyond (cp : Z) : Prop := 0x110000 <= cp < 0x140000.

(** The formatting characters [utf8_push] drops. *)
Definition bidi (cp : Z) : Prop := 0x202A <= cp <= 0x202E.

#[export] Instance bidi_dec cp : Decision (bidi cp).
Proof. unfold bidi. apply _. Defined.

Definition to8 (cps : list Z) : list Z := concat (utf8 <$> cps).
Definition to16 (cps : list Z) : list Z := concat (utf16 <$> cps).

(** ** Bytes and bits *)

Ltac by_bytes := intros b Hb; apply Bool.eqb_prop; revert b Hb; apply byte_check; vm_compute; reflexivity.

Lemma lead1 : forall b, byte b -> (Z.land b 0x80 =? 0) = (b <? 0x80).
Proof. by_bytes. Qed.
Lemma lead2 : forall b, byte b -> (Z.land b 0xe0 =? 0xc0) = ((0xc0 <=? b) && (b <? 0xe0)).
Proof. by_bytes. Qed.
Lemma lead3 : forall b, byte b -> (Z.land b 0xf0 =? 0xe0) = ((0xe0 <=? b) && (b <? 0xf0)).
Proof. by_bytes. Qed.
Lemma lead4 : forall b, byte b -> (Z.land b 0xf8 =? 0xf0) = ((0xf0 <=? b) && (b <? 0xf8)).
Proof. by_bytes. Qed.
Lemma trail : forall b, byte b -> (Z.land b 0xc0 =? 0x80) = ((0x80 <=? b) && (b <? 0xc0)).
Proof. by_bytes. Qed.
Lemma trail_high : forall b, byte b -> (Z.land b 0xe0 =? 0xa0) = ((0xa0 <=? b) && (b <? 0xc0)).
Proof. by_bytes. Qed.
Lemma trail_low : forall b, byte b -> (Z.land b 0xe0 =? 0x80) = ((0x80 <=? b) && (b <? 0xa0)).
Proof. by_bytes. Qed.
Lemma lead3_last : forall b, byte b -> (Z.land b 0xfe =? 0xee) = ((0xee <=? b) && (b <? 0xf0)).
Proof. by_bytes. Qed.

Lemma ucval2 a b : Z.lor (Z.shiftl (Z.land a 0x1f) 6) (GETUCVAL b 0) = a mod 32 * 64 + b mod 64.
Proof.
  unfold GETUCVAL. rewrite mask_1f, mask_3f, !Z.shiftl_mul_pow2, Z.mul_1_r by lia. apply (lor_add _ _ 6); zmod.
Qed.

Lemma ucval3 a b c :
  Z.lor (Z.lor (Z.shiftl (Z.land a 0x0f) 12) (GETUCVAL b 6)) (GETUCVAL c 0) = a mod 16 * 4096 + b mod 64 * 64 + c mod 64.
Proof.
  unfold GETUCVAL. rewrite mask_0f, !mask_3f, !Z.shiftl_mul_pow2, Z.mul_1_r by lia.
  rewrite (lor_add _ (_ * 2 ^ 6) 12) by zmod. apply (lor_add _ _ 6); zmod.
Qed.

Lemma ucval4 a b c d :
  Z.lor (Z.lor (Z.lor (Z.shiftl (Z.land a 0x07) 18) (GETUCVAL b 12)) (GETUCVAL c 6)) (GETUCVAL d 0) =
  a mod 8 * 262144 + b mod 64 * 4096 + c mod 64 * 64 + d mod 64.
Proof.
  unfold GETUCVAL. rewrite mask_07, !mask_3f, !Z.shiftl_mul_pow2, Z.mul_1_r by lia.
  rewrite (lor_add _ (_ * 2 ^ 12) 18) by zmod. rewrite (lor_add _ (_ * 2 ^ 6) 12) by zmod. apply (lor_add _ _ 6); zmod.
Qed.

Lemma trailbyte uc s : 0 <= s -> GETUTF8TRAILBYTE uc s = 0x80 + uc / 2 ^ s mod 64.
Proof. intros Hs. unfold GETUTF8TRAILBYTE. rewrite mask_3f, Z.shiftr_div_pow2 by lia. apply (lor_add _ _ 6); [lia|zmod|done]. Qed.

Lemma SSVAL_bytes v : 0 <= v < 65536 -> SSVAL v = unit16 v.
Proof. intros Hv. unfold SSVAL, unit16. rewrite !mask_ff, Z.shiftr_div_pow2 by lia. f_equal. f_equal. zmod. Qed.

Lemma SVAL_unit u rest : 0 <= u < 65536 -> SVAL (unit16 u ++ rest) 0 = u.
Proof.
  intros Hu. unfold SVAL, unit16. cbn. rewrite Z.lor_comm, Z.shiftl_mul_pow2 by lia. rewrite (lor_add _ _ 8); zmod.
Qed.

Lemma SVAL_unit2 u v rest : 0 <= v < 65536 -> SVAL (unit16 u ++ unit16 v ++ rest) 2 = v.
Proof. apply (SVAL_unit v rest). Qed.

(** ** One turn of the decoder *)

(** Decide the tests on bytes in the goal with what is known of them. *)
Ltac on_byte b := rewrite ?(lead1 b), ?(lead2 b), ?(lead3 b), ?(lead4 b), ?(trail b), ?(trail_high b), ?(trail_low b), ?(lead3_last b) by (unfold byte; lia).
Ltac decide_tests := repeat (case_test; try (exfalso; lia)).

Lemma pull1 a rest o : 0 <= a < 0x80 -> pull_char (a :: rest) o = inr (1%nat, unit16 a).
Proof. intros Ha. unfold pull_char. cbn [at_ nth]. on_byte a. decide_tests. by rewrite SSVAL_bytes by lia. Qed.

Lemma pull2 a b rest o :
  0xC2 <= a < 0xE0 -> 0x80 <= b < 0xC0 ->
  pull_char (a :: b :: rest) o = inr (2%nat, unit16 ((a - 0xC0) * 64 + (b - 0x80))).
Proof.
  intros Ha Hb. unfold pull_char. cbn [at_ nth length]. rewrite ucval2. on_byte a. on_byte b. decide_tests.
  rewrite wrap_small, SSVAL_bytes by zmod. do 3 f_equal. zmod.
Qed.

Lemma pull3 a b c rest o :
  0xE0 <= a < 0xF0 -> 0x80 <= b < 0xC0 -> 0x80 <= c < 0xC0 ->
  (a = 0xE0 -> 0xA0 <= b) -> (a = 0xED -> b < 0xA0) ->
  pull_char (a :: b :: c :: rest) o = inr (3%nat, unit16 ((a - 0xE0) * 4096 + (b - 0x80) * 64 + (c - 0x80))).
Proof.
  intros Ha Hb Hc H1 H2. unfold pull_char. cbn [at_ nth length]. rewrite ucval3. on_byte a. on_byte b. on_byte c. decide_tests.
  rewrite wrap_small, SSVAL_bytes by zmod. do 3 f_equal. zmod.
Qed.

Lemma pull4 a b c d rest o :
  0xF0 <= a <= 0xF4 -> 0x80 <= b < 0xC0 -> 0x80 <= c < 0xC0 -> 0x80 <= d < 0xC0 -> (a = 0xF0 -> 0x90 <= b) -> 4 <= o ->
  pull_char (a :: b :: c :: d :: rest) o =
    inr (4%nat, utf16 ((a - 0xF0) * 262144 + (b - 0x80) * 4096 + (c - 0x80) * 64 + (d - 0x80))).
Proof.
  intros Ha Hb Hc Hd H1 Ho. unfold pull_char. cbn [at_ nth length]. rewrite ucval4. on_byte a. on_byte b. on_byte c. on_byte d. decide_tests.
  set (cp := (a - 0xF0) * 262144 + (b - 0x80) * 4096 + (c - 0x80) * 64 + (d - 0x80)).
  replace (a mod 8 * 262144 + b mod 64 * 4096 + c mod 64 * 64 + d mod 64) with cp by (subst cp; zmod).
  assert (0x10000 <= cp < 0x140000) as Hcp by (subst cp; lia). clearbody cp.
  unfold utf16. rewrite (proj2 (Z.ltb_ge _ _)) by lia.
  rewrite mask_3ff, wrap_small, Z.shiftr_div_pow2, !SSVAL_bytes by zmod. do 3 f_equal; f_equal; zmod.
Qed.

Lemma pull_char_utf8 cp rest outleft :
  scalar cp \/ beyond cp -> Z.of_nat (length (utf16 cp)) <= outleft ->
  pull_char (utf8 cp ++ rest) outleft = inr (length (utf8 cp), utf16 cp).
Proof.
  unfold scalar, beyond. intros Hs Ho. unfold utf8.
  destruct (cp <? 0x80) eqn:E1; [|destruct (cp <? 0x800) eqn:E2; [|destruct (cp <? 0x10000) eqn:E3]]; bool_cases; cbn [app length].
  - unfold utf16. rewrite (proj2 (Z.ltb_lt _ _)) by lia. rewrite pull1 by lia. done.
  - unfold utf16. rewrite (proj2 (Z.ltb_lt _ _)) by lia. rewrite pull2 by zmod. do 3 f_equal. zmod.
  - unfold utf16. rewrite (proj2 (Z.ltb_lt _ _)) by lia. rewrite pull3 by zmod. do 3 f_equal. zmod.
  - unfold utf16 in Ho. rewrite (proj2 (Z.ltb_ge _ _)) in Ho by lia. rewrite pull4 by (cbn in Ho; zmod). do 3 f_equal. zmod.
Qed.

(** What the decoder accepts. *)
Lemma pull_char_shape c o r :
  pull_char c o = inr r -> Forall byte c -> c <> [] ->
  (exists a rest, c = a :: rest /\ 0 <= a < 0x80) \/
  (exists a b rest, c = a :: b :: rest /\ 0xC2 <= a < 0xE0 /\ 0x80 <= b < 0xC0) \/
  (exists a b x rest, c = a :: b :: x :: rest /\ 0xE0 <= a < 0xF0 /\ 0x80 <= b < 0xC0 /\ 0x80 <= x < 0xC0 /\
     (a = 0xE0 -> 0xA0 <= b) /\ (a = 0xED -> b < 0xA0)) \/
  (exists a b x y rest, c = a :: b :: x :: y :: rest /\ 0xF0 <= a <= 0xF4 /\ 0x80 <= b < 0xC0 /\ 0x80 <= x < 0xC0 /\
     0x80 <= y < 0xC0 /\ (a = 0xF0 -> 0x90 <= b) /\ 4 <= o).
Proof.
  intros Hp Hb Hn. destruct c as [|a c]; [done|]. inversion Hb as [|? ? Ha Hc]; subst. unfold byte in Ha.
  destruct (decide (a < 0x80)); [left; exists a, c; split; [done|lia]|right].
  unfold pull_char in Hp. cbn [at_ nth] in Hp. revert Hp. on_byte a. case_test; [lia|]. case_test.
  - intros Hp. left. destruct c as [|b c]; [done|]. apply Forall_cons in Hc as [Hb' _]. unfold byte in Hb'. revert Hp. cbn [nth]. on_byte b.
    case_test; [done|]. case_test; [done|]. case_test; [done|]. intros _. exists a, b, c. split; [done|lia].
  - case_test; intros Hp; right.
    + left. destruct c as [|b [|x c]]; [done..|]. apply Forall_cons in Hc as [Hb' [Hx _]%Forall_cons]. unfold byte in *.
      revert Hp. cbn [nth]. on_byte b. on_byte x. case_test; [done|]. case_test; [done|]. case_test; [done|]. intros _.
      exists a, b, x, c. split; [done|lia].
    + right. revert Hp. case_test; [|done]. intros Hp. destruct c as [|b [|x [|y c]]]; [done..|].
      apply Forall_cons in Hc as [Hb' [Hx [Hy _]%Forall_cons]%Forall_cons]. unfold byte in *.
      revert Hp. cbn [nth]. on_byte b. on_byte x. on_byte y. do 6 (case_test; [done|]). intros _. exists a, b, x, y, c. split; [done|lia].
Qed.

Lemma pull_char_inv c o n bs :
  pull_char c o = inr (n, bs) -> Forall byte c -> c <> [] ->
  exists cp, (scalar cp \/ beyond cp) /\ c = utf8 cp ++ drop n c /\ n = length (utf8 cp) /\ bs = utf16 cp /\
    (length bs = 2%nat \/ 4 <= o).
Proof.
  intros H Hb Hn. unfold scalar, beyond, utf8.
  destruct (pull_char_shape c o _ H Hb Hn)
    as [(a & rest & -> & Ha)|[(a & b & rest & -> & Ha & Hb')|[(a & b & x & rest & -> & Ha & Hb' & Hx & H1 & H2)|
        (a & b & x & y & rest & -> & Ha & Hb' & Hx & Hy & H1 & H2)]]].
  - rewrite pull1 in H by done. injection H as <- <-. exists a. unfold utf16. repeat case_test; try lia.
    split_and!; [lia|done..|by left].
  - rewrite pull2 in H by done. injection H as <- <-. set (cp := (a - 0xC0) * 64 + (b - 0x80)).
    exists cp. unfold utf16. repeat case_test; try (subst cp; lia). split_and!; [subst cp; lia| |done..|].
    { cbn. f_equal; [|f_equal]; subst cp; zmod. } by left.
  - rewrite pull3 in H by done. injection H as <- <-. set (cp := (a - 0xE0) * 4096 + (b - 0x80) * 64 + (x - 0x80)).
    exists cp. unfold utf16. repeat case_test; try (subst cp; lia). split_and!; [subst cp; lia| |done..|].
    { cbn. f_equal; [|f_equal; [|f_equal]]; subst cp; zmod. } by left.
  - rewrite pull4 in H by done. injection H as <- <-. set (cp := (a - 0xF0) * 262144 + (b - 0x80) * 4096 + (x - 0x80) * 64 + (y - 0x80)).
    exists cp. repeat case_test; try (subst cp; lia). split_and!; [subst cp; lia| |done..|].
    { cbn. f_equal; [|f_equal; [|f_equal; [|f_equal]]]; subst cp; zmod. } by right.
Qed.

Lemma utf8_length cp : (1 <= length (utf8 cp) <= 4)%nat.
Proof. unfold utf8. repeat case_test; cbn; lia. Qed.

Lemma utf16_length cp : length (utf16 cp) = if cp <? 0x10000 then 2%nat else 4%nat.
Proof. unfold utf16. by case_test. Qed.

(** The bytes of the sequence that a byte announces; none for a continuation byte and
    for F8 to FF. *)
Definition announced (b : Z) : Z :=
  if b <? 0x80 then 1 else if b <? 0xC0 then 0 else if b <? 0xE0 then 2 else if b <? 0xF0 then 3 else if b <? 0xF8 then 4 else 0.

(** The error at which the decoder stops in front of [rest] with [room] bytes for output:
    too little room for a unit, or for the two of a sequence of four; a sequence that is
    cut; otherwise a sequence that is none. *)
Definition stop (rest : list Z) (room : Z) : option errno :=
  match rest with
  | [] => None
  | b :: _ =>
      Some (if room <? 2 then E2BIG
            else if announced b =? 0 then EILSEQ
            else if zlen rest <? announced b then EINVAL
            else if (announced b =? 4) && (room <? 4) then E2BIG
            else EILSEQ)
  end.

Lemma pull_char_error c o e : Forall byte c -> c <> [] -> 2 <= o -> pull_char c o = inl e -> stop c o = Some e.
Proof.
  intros Hb Hne Ho. destruct c as [|a c]; [done|]. apply Forall_cons in Hb as [Ha _]. unfold byte in Ha. unfold pull_char, stop. cbn [at_ nth].
  assert (a < 0x80 /\ announced a = 1 \/ (0x80 <= a < 0xC0 \/ 0xF8 <= a) /\ announced a = 0 \/ 0xC0 <= a < 0xE0 /\ announced a = 2 \/
    0xE0 <= a < 0xF0 /\ announced a = 3 \/ 0xF0 <= a < 0xF8 /\ announced a = 4) as Hk by (unfold announced; decide_tests; lia).
  on_byte a. rewrite (proj2 (Z.ltb_ge o 2)) by lia. set (n := Z.of_nat (length (a :: c))).
  destruct Hk as [[Hr ->]|[[Hr ->]|[[Hr ->]|[[Hr ->]|[Hr ->]]]]]; cbn [Z.eqb Pos.eqb andb]; intros Hp;
    repeat (revert Hp; case_test; intros Hp; try discriminate Hp; try lia); by injection Hp as <-.
Qed.

(** No character is refused but for the room it needs. *)
Lemma pull_char_refused cp rest o e : scalar cp \/ beyond cp -> 2 <= o -> pull_char (utf8 cp ++ rest) o = inl e -> e = E2BIG.
Proof.
  intros Hs Ho H. pose proof (utf16_length cp) as Hl.
  destruct (decide (Z.of_nat (length (utf16 cp)) <= o)) as [Hfit|Hfit].
  - rewrite pull_char_utf8 in H by auto. done.
  - rewrite Hl in Hfit. revert Hfit. case_test; [lia|]. intros Hfit. unfold scalar, beyond in Hs.
    assert (utf8 cp = [0xF0 + cp / 262144; 0x80 + cp / 4096 mod 64; 0x80 + cp / 64 mod 64; 0x80 + cp mod 64]) as Hu.
    { unfold utf8. by repeat (case_test; [lia|]). }
    rewrite Hu in H. cbn [app] in H. set (a := 0xF0 + cp / 262144) in H. assert (0xF0 <= a <= 0xF4) as Ha by (subst a; zmod).
    clearbody a. revert H. unfold pull_char. cbn [at_ nth length]. on_byte a.
    do 3 (case_test; [lia|]). case_test; [|lia]. case_test; [lia|]. case_test; [|lia]. by intros [= <-].
Qed.

(** ** The decoder *)

(** How a run over [inbuf s] that decoded [cps] and ended in [s'] with [r] stands. *)
Definition decoded (s : conv) (cps : list Z) (r : option errno) (s' : conv) : Prop :=
  Forall (fun cp => scalar cp \/ beyond cp) cps /\ inbuf s = to8 cps ++ inbuf s' /\ outbuf s' = outbuf s ++ to16 cps /\
  outbytesleft s' = outbytesleft s - Z.of_nat (length (to16 cps)) /\ 0 <= outbytesleft s' /\
  r = stop (inbuf s') (outbytesleft s') /\
  (r = Some EILSEQ \/ r = Some EINVAL -> forall cp rest, scalar cp \/ beyond cp -> inbuf s' <> utf8 cp ++ rest).

Lemma pull_loop_decodes : forall fuel s,
  (length (inbuf s) < fuel)%nat -> Forall byte (inbuf s) -> 0 <= outbytesleft s ->
  exists cps r s', pull_loop fuel s = (r, s') /\ decoded s cps r s'.
Proof.
  induction fuel as [|n IH]; intros s Hf Hb Ho; [lia|]. cbn [pull_loop]. unfold inbytesleft.
  case_test.
  - assert (inbuf s <> []) as Hne by (intros E; rewrite E in *; cbn in *; lia).
    destruct (pull_char (inbuf s) (outbytesleft s)) as [e|[len bs]] eqn:E.
    + exists [], (Some e), s. split; [done|]. assert (2 <= outbytesleft s) as Ho2 by (bool_cases; lia). pose proof (pull_char_error _ _ _ Hb Hne Ho2 E) as Est.
      assert (forall cp rest, scalar cp \/ beyond cp -> inbuf s = utf8 cp ++ rest -> e = E2BIG) as Hno.
      { intros cp rest Hs Heq. rewrite Heq in E. eapply pull_char_refused; eauto. }
      unfold decoded, to8, to16. cbn. rewrite app_nil_r. split_and!; [constructor|done|done|lia|done|done|].
      intros He cp rest Hs Heq. pose proof (Hno cp rest Hs Heq) as ->. by destruct He.
    + destruct (pull_char_inv _ _ _ _ E Hb Hne) as (cp & Hcp & Hin & Hlen & Hbs & Hroom).
      pose proof (utf8_length cp) as Hul.
      assert (Z.of_nat (length bs) <= outbytesleft s) as Hfit.
      { rewrite Hbs, utf16_length in *. revert Hroom. case_test; lia. }
      destruct (IH (advance s len bs)) as (cps & r & s' & H1 & H2 & H3 & H4 & H5 & H6 & H7 & H8); cbn.
      * rewrite Hin, length_app, length_drop in Hf. rewrite length_drop. lia.
      * rewrite Forall_forall in *. intros x Hx%subseteq_drop. auto.
      * lia.
      * cbn in *. exists (cp :: cps), r, s'. split; [done|]. unfold decoded, to8, to16 in *. cbn.
        rewrite length_app, <- !app_assoc. split_and!; try done; [by constructor| | |].
        -- rewrite Hin, H3 at 1. done.
        -- rewrite H4, Hbs. by rewrite <- app_assoc.
        -- rewrite H5, Hbs. lia.
  - exists [], (if 0 <? inbytesleft s then Some E2BIG else None), s. split; [done|]. unfold decoded, to8, to16, inbytesleft. cbn.
    rewrite app_nil_r. apply andb_false_iff in E. destruct (inbuf s) as [|b l] eqn:Ei; cbn [length stop] in *.
    + split_and!; [constructor|done|done|lia|done|done|]. by intros [].
    + rewrite (proj2 (Z.ltb_lt _ _)) by lia. split_and!; [constructor|done|done|lia|done| |by intros []].
      rewrite (proj2 (Z.ltb_lt _ _)); [done|]. destruct E; bool_cases; lia.
Qed.

(** C21: Decoding is sound and exact about where it stops: whatever bytes come in, what
    [utf8_pull] has consumed is the UTF-8 encoding of the code points whose UTF-16
    encoding it has written, and its result is the one that the rest of the input and the
    room left call for: 0 when nothing is left, [E2BIG] when there is no room for a unit,
    or for the two of a sequence of four bytes that is all there, [EINVAL] when the rest
    is shorter than its first byte announces, and [EILSEQ] otherwise, where no encoding
    follows.  The code points are Unicode's scalar values and, since F4 90 to F4 BF is
    accepted too, those up to 13FFFF, whose two units are then no UTF-16. *)
Theorem utf8_pull_exact s :
  Forall byte (inbuf s) -> 0 <= outbytesleft s ->
  exists cps r s', utf8_pull s = (r, s') /\ decoded s cps r s'.
Proof. intros Hb Ho. apply pull_loop_decodes; [lia|done|done]. Qed.

Lemma utf8_pull_exact_witness :
  exists cps r s', utf8_pull (Conv [0x41; 0xC3; 0xA9; 0xC3] [] 10) = (r, s') /\
    decoded (Conv [0x41; 0xC3; 0xA9; 0xC3] [] 10) cps r s' /\ r = Some EINVAL /\ outbuf s' = [0x41; 0; 0xE9; 0].
Proof.
  destruct (utf8_pull_exact (Conv [0x41; 0xC3; 0xA9; 0xC3] [] 10)) as (cps & r & s' & H1 & H2);
    [repeat constructor; unfold byte; lia|cbn; lia|].
  exists cps, r, s'. split; [exact H1|]. split; [exact H2|]. vm_compute in H1. injection H1 as <- <-. done.
Defined.

(** ** One turn of the encoder *)

Lemma byte_div n a b : 0 <= a < b * n -> 0 < n -> 0 <= a / n < b.
Proof. intros H1 H2. split; [apply Z.div_pos; lia|apply Z.div_lt_upper_bound; lia]. Qed.

(** What [utf8_push] writes for a character. *)
Definition pushed (cp : Z) : list Z := if decide (bidi cp) then [] else utf8 cp.

Lemma push_char_unit u rest o :
  0 <= u < 65536 -> ~ 0xD800 <= u <= 0xDFFF -> Z.of_nat (length (pushed u)) <= o ->
  push_char (unit16 u ++ rest) o = inr (2%nat, pushed u).
Proof.
  intros Hu Hs Ho. unfold push_char. rewrite SVAL_unit by done.
  unfold pushed, bidi, utf8 in *. revert Ho. case_decide; intros Ho.
  - repeat (case_test; try lia). done.
  - revert Ho. repeat (case_test; try lia); cbn [length]; intros Ho; try lia; rewrite ?trailbyte by lia; do 2 f_equal.
    + rewrite mask_1f, Z.shiftr_div_pow2, (lor_add _ _ 5) by zmod. f_equal; [zmod|]. f_equal. zmod.
    + rewrite mask_0f, Z.shiftr_div_pow2, (lor_add _ _ 4) by zmod. f_equal; [zmod|]. f_equal. f_equal. zmod.
Qed.

Lemma push_char_pair h l rest o :
  0xD800 <= h <= 0xDBFF -> 0xDC00 <= l <= 0xDFFF -> 4 <= o ->
  push_char (unit16 h ++ unit16 l ++ rest) o = inr (4%nat, utf8 ((h - 0xD800) * 1024 + (l - 0xDC00) + 0x10000)).
Proof.
  intros Hh Hl Ho. unfold push_char. rewrite SVAL_unit, SVAL_unit2 by lia. rewrite !length_app. cbn [length unit16].
  decide_tests. rewrite Z.shiftl_mul_pow2 by lia. set (cp := (h - 0xD800) * 2 ^ 10 + (l - 0xDC00) + 0x10000).
  change ((h - 0xD800) * 1024 + (l - 0xDC00) + 0x10000) with cp. assert (0x10000 <= cp < 0x110000) by (subst cp; lia). clearbody cp.
  unfold utf8. decide_tests. rewrite !trailbyte by lia. rewrite mask_07, Z.shiftr_div_pow2, (lor_add _ _ 3) by zmod.
  do 2 f_equal. f_equal; [zmod|]. do 2 f_equal. f_equal. f_equal. zmod.
Qed.

Lemma push_char_utf16 cp rest o :
  scalar cp -> Z.of_nat (length (pushed cp)) <= o ->
  push_char (utf16 cp ++ rest) o = inr (length (utf16 cp), pushed cp).
Proof.
  intros Hs Ho. unfold scalar in Hs. unfold utf16. case_test.
  - apply push_char_unit; [lia|lia|done].
  - rewrite <- app_assoc. assert (pushed cp = utf8 cp) as Hp by (unfold pushed, bidi; case_decide; [lia|done]).
    rewrite Hp in *. rewrite push_char_pair.
    + do 3 f_equal. zmod.
    + zmod.
    + zmod.
    + revert Ho. unfold utf8. decide_tests. cbn. lia.
Qed.

Lemma units_of c : Forall byte c -> (2 <= length c)%nat -> exists u, 0 <= u < 65536 /\ c = unit16 u ++ drop 2 c.
Proof.
  intros Hb Hl. destruct c as [|a [|b c]]; cbn in Hl; [lia..|]. apply Forall_cons in Hb as [Ha [Hb _]%Forall_cons]. unfold byte in *.
  exists (b * 256 + a). split; [lia|]. cbn. unfold unit16. cbn. f_equal; [zmod|]. f_equal. zmod.
Qed.

Lemma push_pair_shape c o r :
  push_char c o = inr r -> 0xD800 <= SVAL c 0 <= 0xDFFF ->
  SVAL c 0 <= 0xDBFF /\ 0xDC00 <= SVAL c 2 <= 0xDFFF /\ 4 <= o /\ 4 <= Z.of_nat (length c).
Proof.
  unfold push_char. intros Hp Hs. revert Hp. do 3 (case_test; [lia|]). case_test; [|lia].
  case_test; [done|]. case_test; [done|]. case_test; [|done]. lia.
Qed.

Lemma push_unit_room c o n bs :
  push_char c o = inr (n, bs) -> 1 <= o -> SVAL c 0 < 65536 -> ~ 0xD800 <= SVAL c 0 <= 0xDFFF -> Z.of_nat (length (pushed (SVAL c 0))) <= o.
Proof.
  unfold push_char, pushed, bidi, utf8. intros Hp Ho Hm Hs. revert Hp. repeat (case_test; try lia; try done); try case_decide; cbn; intros; lia.
Qed.

Lemma push_char_inv c o n bs :
  push_char c o = inr (n, bs) -> Forall byte c -> (2 <= length c)%nat -> 1 <= o ->
  exists cp, scalar cp /\ c = utf16 cp ++ drop n c /\ n = length (utf16 cp) /\ bs = pushed cp /\ Z.of_nat (length bs) <= o.
Proof.
  intros H Hb Hl Ho. destruct (units_of c Hb Hl) as (u & Hu & Hc).
  assert (SVAL c 0 = u) as Hu0 by (rewrite Hc; by apply SVAL_unit).
  destruct (decide (0xD800 <= u <= 0xDFFF)) as [Hs|Hs].
  - destruct (push_pair_shape c o _ H) as (H1 & H2 & H3 & H4); [lia|]. rewrite Hu0 in H1.
    destruct (units_of (drop 2 c)) as (v & Hv' & Hc2); [by apply Forall_drop|rewrite length_drop; lia|].
    assert (SVAL c 2 = v) as Hv2 by (rewrite Hc, Hc2; by apply SVAL_unit2). rewrite Hv2 in *.
    set (cp := (u - 0xD800) * 1024 + (v - 0xDC00) + 0x10000). exists cp.
    assert (utf16 cp = unit16 u ++ unit16 v) as Hu16.
    { unfold utf16. case_test; [subst cp; lia|]. f_equal; f_equal; subst cp; zmod. }
    rewrite Hc, Hc2, push_char_pair in H by lia. fold cp in H. injection H as <- <-.
    split_and!.
    + unfold scalar. subst cp. lia.
    + rewrite Hu16, <- app_assoc. rewrite Hc at 1. f_equal. rewrite Hc2 at 1. by rewrite drop_drop.
    + by rewrite Hu16.
    + unfold pushed, bidi. case_decide; [subst cp; lia|done].
    + pose proof (utf8_length cp). lia.
  - pose proof (push_unit_room _ _ _ _ H Ho) as Hroom. rewrite Hu0 in Hroom. specialize (Hroom (proj2 Hu) Hs).
    rewrite Hc, push_char_unit in H by done. injection H as <- <-. exists u.
    assert (utf16 u = unit16 u) as Hu16 by (unfold utf16; case_test; [done|lia]).
    rewrite Hu16. split_and!; try done. unfold scalar. lia.
Qed.

Lemma push_char_error c o e : push_char c o = inl e -> e <> EILSEQ /\ (e = E2BIG -> o < 4).
Proof.
  unfold push_char. intros Hp. repeat (revert Hp; case_test; intros Hp; try discriminate Hp);
    injection Hp as <-; split; intros; try discriminate; lia.
Qed.

Lemma push_char_refused cp rest o e : scalar cp -> push_char (utf16 cp ++ rest) o = inl e -> e = E2BIG.
Proof.
  unfold scalar, utf16. intros Hs. case_test; [|rewrite <- app_assoc]; unfold push_char.
  - rewrite SVAL_unit by lia. repeat (case_test; try lia; try (by intros [= <-])).
  - rewrite SVAL_unit, SVAL_unit2 by zmod. rewrite !length_app. cbn [length unit16].
    repeat (case_test; try zmod; try (by intros [= <-])).
Qed.

(** ** The encoder *)

Definition encoded (s : conv) (cps : list Z) (r : option errno) (s' : conv) : Prop :=
  Forall scalar cps /\ inbuf s = to16 cps ++ inbuf s' /\
  outbuf s' = outbuf s ++ to8 (filter (fun cp => ~ bidi cp) cps) /\ 0 <= outbytesleft s' /\
  match r with
  | None => inbuf s' = []
  | Some E2BIG => inbuf s' <> [] /\ outbytesleft s' < 4
  | Some EINVAL => inbuf s' <> [] /\ forall cp rest, scalar cp -> inbuf s' <> utf16 cp ++ rest
  | Some EILSEQ => False
  end.

Lemma pushed_to8 cps : concat (pushed <$> cps) = to8 (filter (fun cp => ~ bidi cp) cps).
Proof.
  unfold to8. induction cps as [|cp cps IH]; [done|]. rewrite filter_cons, fmap_cons. cbn [concat]. rewrite IH.
  unfold pushed. repeat case_decide; try tauto; done.
Qed.

Lemma push_loop_encodes : forall fuel s,
  (length (inbuf s) < fuel)%nat -> Forall byte (inbuf s) -> 0 <= outbytesleft s ->
  exists cps r s', push_loop fuel s = (r, s') /\ encoded s cps r s'.
Proof.
  induction fuel as [|n IH]; intros s Hf Hb Ho; [lia|]. cbn [push_loop]. unfold inbytesleft.
  case_test.
  - assert (2 <= length (inbuf s))%nat as Hl by lia.
    assert (inbuf s <> []) as Hne by (intros E; rewrite E in *; cbn in *; lia).
    destruct (push_char (inbuf s) (outbytesleft s)) as [e|[len bs]] eqn:E.
    + exists [], (Some e), s. split; [done|]. destruct (push_char_error _ _ _ E) as [E1 E2].
      assert (forall cp rest, scalar cp -> inbuf s = utf16 cp ++ rest -> e = E2BIG) as Hno.
      { intros cp rest Hs Heq. rewrite Heq in E. eapply push_char_refused; eauto. }
      unfold encoded, to8, to16. cbn. rewrite app_nil_r. split_and!; [constructor|done..|].
      destruct e; [by destruct E1| |by auto]. split; [done|]. intros cp rest Hs Heq. discriminate (Hno cp rest Hs Heq).
    + destruct (push_char_inv _ _ _ _ E Hb Hl) as (cp & Hcp & Hin & Hlen & Hbs & Hroom); [lia|].
      pose proof (utf16_length cp) as Hul.
      destruct (IH (advance s len bs)) as (cps & r & s' & H1 & H2 & H3 & H4 & H5 & H6); cbn.
      * rewrite Hin, length_app, length_drop in Hf. rewrite length_drop. revert Hul. case_test; lia.
      * by apply Forall_drop.
      * lia.
      * cbn in *. exists (cp :: cps), r, s'. split; [done|]. unfold encoded in *. rewrite <- pushed_to8 in *. unfold to16 in *. cbn.
        rewrite <- !app_assoc. split_and!; try done; [by constructor| |].
        -- rewrite Hin, H3 at 1. done.
        -- rewrite H4, Hbs. by rewrite <- app_assoc.
  - exists [], (if inbytesleft s =? 1 then Some EINVAL else if 1 <? inbytesleft s then Some E2BIG else None), s.
    split; [done|]. unfold encoded, to8, to16, inbytesleft. cbn.
    rewrite app_nil_r. split_and!; [constructor|done..|]. apply andb_false_iff in E.
    destruct (Z.of_nat (length (inbuf s)) =? 1) eqn:E1; [|destruct (1 <? Z.of_nat (length (inbuf s))) eqn:E2]; bool_cases.
    + split; [intros E2; rewrite E2 in E1; cbn in E1; lia|]. intros cp rest _ Heq. apply (f_equal length) in Heq.
      rewrite length_app, utf16_length in Heq. revert Heq. case_test; lia.
    + split; [intros E3; rewrite E3 in E2; cbn in E2; lia|]. destruct E; bool_cases; lia.
    + destruct (inbuf s); [done|cbn in *; lia].
Qed.

(** Encoding is sound and exact about where it stops: what [utf8_push] has
    consumed is the UTF-16 encoding of scalar values, and what it has written is
    the UTF-8 encoding of those that are not bidirectional formatting characters;
    it fails with [EINVAL] only where the input does not continue with a
    character, and never with [EILSEQ]. *)
Theorem utf8_push_exact s :
  Forall byte (inbuf s) -> 0 <= outbytesleft s ->
  exists cps r s', utf8_push s = (r, s') /\ encoded s cps r s'.
Proof. intros Hb Ho. apply push_loop_encodes; [lia|done|done]. Qed.

Lemma utf8_push_exact_witness :
  exists cps r s', utf8_push (Conv [0x41; 0; 0x2A; 0x20; 0x00; 0xDC] [] 10) = (r, s') /\
    encoded (Conv [0x41; 0; 0x2A; 0x20; 0x00; 0xDC] [] 10) cps r s' /\ r = Some EINVAL /\ outbuf s' = [0x41].
Proof.
  destruct (utf8_push_exact (Conv [0x41; 0; 0x2A; 0x20; 0x00; 0xDC] [] 10)) as (cps & r & s' & H1 & H2);
    [repeat constructor; unfold byte; lia|cbn; lia|].
  exists cps, r, s'. split; [exact H1|]. split; [exact H2|]. vm_compute in H1. injection H1 as <- <-. done.
Defined.

(** ** Texts *)

Lemma pull_loop_text : forall cps fuel out left,
  Forall scalar cps -> (length cps < fuel)%nat -> Z.of_nat (length (to16 cps)) <= left ->
  pull_loop fuel (Conv (to8 cps) out left) = (None, Conv [] (out ++ to16 cps) (left - Z.of_nat (length (to16 cps)))).
Proof.
  induction cps as [|cp cps IH]; intros fuel out left Hs Hf Hl; (destruct fuel as [|n]; [cbn in Hf; lia|]); cbn [pull_loop].
  - cbn. by rewrite app_nil_r, Z.sub_0_r.
  - apply Forall_cons in Hs as [Hcp Hs]. unfold to8, to16 in *. cbn [fmap list_fmap concat] in *. rewrite length_app in Hl.
    pose proof (utf8_length cp). pose proof (utf16_length cp) as Hu.
    unfold inbytesleft. cbn [inbuf outbytesleft]. rewrite length_app.
    rewrite (proj2 (andb_true_iff _ _)) by (rewrite !Z.leb_le; revert Hu; case_test; lia).
    rewrite pull_char_utf8 by (auto; lia). unfold advance. cbn [inbuf outbuf outbytesleft].
    rewrite drop_app_length.
    rewrite IH by (done || (cbn in Hf; lia) || lia). rewrite <- app_assoc, length_app. f_equal. f_equal. lia.
Qed.

Lemma push_loop_text : forall cps fuel out left,
  Forall scalar cps -> (length cps < fuel)%nat ->
  let needed := Z.of_nat (length (concat (pushed <$> cps))) in
  needed <= left -> (Exists bidi cps -> needed < left) ->
  push_loop fuel (Conv (to16 cps) out left) = (None, Conv [] (out ++ concat (pushed <$> cps)) (left - needed)).
Proof.
  induction cps as [|cp cps IH]; intros fuel out left Hs Hf needed Hl Hx; (destruct fuel as [|n]; [cbn in Hf; lia|]); cbn [push_loop].
  - cbn. by rewrite app_nil_r, Z.sub_0_r.
  - apply Forall_cons in Hs as [Hcp Hs]. subst needed. unfold to16 in *. cbn [fmap list_fmap concat] in *. rewrite length_app in *.
    rewrite Exists_cons in Hx. pose proof (utf8_length cp). pose proof (utf16_length cp) as Hu.
    assert (1 <= left) as Hleft.
    { unfold pushed at 1 in Hl. unfold pushed at 1 in Hx. destruct (decide (bidi cp)); [|lia]. assert (bidi cp) as Hb by done. specialize (Hx (or_introl Hb)). lia. }
    unfold inbytesleft. cbn [inbuf outbytesleft]. rewrite length_app.
    rewrite (proj2 (andb_true_iff _ _)) by (rewrite !Z.leb_le; revert Hu; case_test; lia).
    rewrite push_char_utf16 by (auto; lia). unfold advance. cbn [inbuf outbuf outbytesleft]. rewrite drop_app_length.
    rewrite IH; [|done|cbn in Hf; lia|lia|intros; enough (Z.of_nat (length (pushed cp) + length (concat (pushed <$> cps))) < left) by lia; tauto].
    rewrite <- app_assoc. f_equal. f_equal. lia.
Qed.

Lemma to8_length cps : (length cps <= length (to8 cps))%nat.
Proof.
  unfold to8. induction cps as [|cp cps IH]; cbn; [lia|]. rewrite length_app. pose proof (utf8_length cp). lia.
Qed.

Lemma to16_length cps : (length cps <= length (to16 cps))%nat.
Proof.
  unfold to16. induction cps as [|cp cps IH]; cbn; [lia|]. rewrite length_app, utf16_length. case_test; lia.
Qed.

(** Every text is converted: given the room, [utf8_pull] of a text's UTF-8
    encoding is its UTF-16 encoding and [utf8_push] of that is the UTF-8 encoding
    of the text without its bidirectional formatting characters. *)
Theorem utf8_text_converts cps left8 left16 :
  let kept := filter (fun cp => ~ bidi cp) cps in
  Forall scalar cps -> Z.of_nat (length (to16 cps)) <= left16 ->
  Z.of_nat (length (to8 kept)) <= left8 -> (Exists bidi cps -> Z.of_nat (length (to8 kept)) < left8) ->
  exists m n, utf8_pull (Conv (to8 cps) [] left16) = (None, Conv [] (to16 cps) m) /\
    utf8_push (Conv (to16 cps) [] left8) = (None, Conv [] (to8 kept) n).
Proof.
  intros kept Hs H16 H8 Hx. subst kept. rewrite <- pushed_to8 in *.
  pose proof (to8_length cps). pose proof (to16_length cps). unfold utf8_pull, utf8_push. cbn [inbuf].
  do 2 eexists. split; [apply (pull_loop_text cps _ []); [done|lia|done]|apply (push_loop_text cps _ []); [done|lia|done|done]].
Qed.

Lemma utf8_text_converts_witness :
  exists m n, utf8_pull (Conv [0x7A; 0xE2; 0x80; 0xAA; 0xF0; 0x9F; 0x98; 0x80] [] 8) =
      (None, Conv [] [0x7A; 0; 0x2A; 0x20; 0x3D; 0xD8; 0x00; 0xDE] m) /\
    utf8_push (Conv [0x7A; 0; 0x2A; 0x20; 0x3D; 0xD8; 0x00; 0xDE] [] 6) = (None, Conv [] [0x7A; 0xF0; 0x9F; 0x98; 0x80] n).
Proof.
  destruct (utf8_text_converts [0x7A; 0x202A; 0x1F600] 6 8) as (m & n & H1 & H2).
  - repeat constructor; unfold scalar; lia.
  - vm_compute. discriminate.
  - vm_compute. discriminate.
  - intros _. vm_compute. reflexivity.
  - exists m, n. split; [exact H1|exact H2].
Defined.

Lemma unit16_inj u v l l' : 0 <= u < 65536 -> 0 <= v < 65536 -> unit16 u ++ l = unit16 v ++ l' -> u = v /\ l = l'.
Proof. intros Hu Hv [= H1 H2 H3]. split; [zmod|done]. Qed.

(** The UTF-16 encoding tells scalar values apart from what lies beyond them. *)
Lemma to16_inj cps : forall cps',
  Forall (fun cp => scalar cp \/ beyond cp) cps -> Forall scalar cps' -> to16 cps = to16 cps' -> cps = cps'.
Proof.
  assert (forall cp l, to16 (cp :: l) = utf16 cp ++ to16 l) as Hc by done.
  induction cps as [|cp cps IH]; intros [|cp' cps'] H H' E; [done| | |].
  - rewrite Hc in E. apply (f_equal length) in E. rewrite length_app, utf16_length in E. revert E. cbn. case_test; lia.
  - rewrite Hc in E. apply (f_equal length) in E. rewrite length_app, utf16_length in E. revert E. cbn. case_test; lia.
  - apply Forall_cons in H as [Hcp H]. apply Forall_cons in H' as [Hcp' H']. rewrite !Hc in E. unfold utf16, scalar, beyond in *.
    revert E. case_test; case_test; intros E'.
    + apply unit16_inj in E' as [-> E']; [|lia..]. f_equal. auto.
    + rewrite <- app_assoc in E'. apply unit16_inj in E' as [-> _]; [zmod|zmod|zmod].
    + rewrite <- app_assoc in E'. apply unit16_inj in E' as [<- _]; zmod.
    + rewrite <- !app_assoc in E'. apply unit16_inj in E' as [E1 E']; [|zmod..]. apply unit16_inj in E' as [E2 E']; [|zmod..].
      assert (cp = cp') as -> by zmod. f_equal. auto.
Qed.

(** C29: Round trip of accepted input: when [utf8_pull] accepts bytes and [utf8_push]
    accepts what it wrote, the bytes are a text's UTF-8 encoding and the result is
    the encoding of the text without its bidirectional formatting characters;
    without any, it is the very bytes that went in. *)
Theorem utf8_round_trip bs u bs' left16 left8 m n :
  Forall byte bs -> 0 <= left16 -> 0 <= left8 -> Forall byte u ->
  utf8_pull (Conv bs [] left16) = (None, Conv [] u m) -> utf8_push (Conv u [] left8) = (None, Conv [] bs' n) ->
  exists cps, Forall scalar cps /\ bs = to8 cps /\ bs' = to8 (filter (fun cp => ~ bidi cp) cps) /\
    (Forall (fun cp => ~ bidi cp) cps -> bs' = bs).
Proof.
  intros Hb H16 H8 Hu Hp Hq.
  destruct (pull_loop_decodes (S (length bs)) (Conv bs [] left16)) as (cps & r & s & E1 & D1 & D2 & D3 & _); [cbn; lia|done|done|].
  destruct (push_loop_encodes (S (length u)) (Conv u [] left8)) as (cps' & r' & s' & E1' & D1' & D2' & D3' & _); [cbn; lia|done|done|].
  unfold utf8_pull in Hp. unfold utf8_push in Hq. cbn [inbuf] in Hp, Hq. rewrite Hp in E1. rewrite Hq in E1'.
  injection E1 as <- <-. injection E1' as <- <-. cbn in *. rewrite app_nil_r in *. subst u.
  apply to16_inj in D2' as ->; [|done|done]. exists cps'. split_and!; try done.
  intros Hn. rewrite D3', D2, list_filter_all; [done|]. rewrite Forall_forall in Hn. exact Hn.
Qed.

Lemma utf8_round_trip_witness :
  exists cps, Forall scalar cps /\ [0x41; 0xC3; 0xA9] = to8 cps /\ [0x41; 0xC3; 0xA9] = to8 (filter (fun cp => ~ bidi cp) cps).
Proof.
  destruct (utf8_round_trip [0x41; 0xC3; 0xA9] [0x41; 0; 0xE9; 0] [0x41; 0xC3; 0xA9] 4 3 0 0) as (cps & H1 & H2 & H3 & _);
    [repeat constructor; unfold byte; lia|lia|lia|repeat constructor; unfold byte; lia|reflexivity|reflexivity|].
  exists cps. split_and!; [exact H1|exact H2|exact H3].
Defined.

(** [utf8_pull] accepts a lead byte F4 with any continuation byte, although its
    table stops at F4 8F: the bytes F4 90 80 80, which are no character's encoding,
    decode without error to two low surrogates, which [utf8_push] then refuses. *)
Theorem utf8_pull_beyond :
  (forall cp rest, scalar cp -> [0xF4; 0x90; 0x80; 0x80] <> utf8 cp ++ rest) /\
  utf8_pull (Conv [0xF4; 0x90; 0x80; 0x80] [] 4) = (None, Conv [] (unit16 0xDC00 ++ unit16 0xDC00) 0) /\
  (utf8_push (Conv (unit16 0xDC00 ++ unit16 0xDC00) [] 4)).1 = Some EINVAL.
Proof.
  split_and!; [|reflexivity..]. intros cp rest Hs Heq. unfold scalar, utf8 in *. revert Heq.
  repeat case_test; intros Heq; injection Heq; intros; zmod.
Qed.
