(* ===== verification/AdHeader.v ===== *)
(** * AppleDouble headers, libatalk/adouble/ad_open.c and ad_flush.c

    The metadata of a file is a block of at most 1024 bytes: a header of 26 bytes,
    descriptors of 12 bytes that give the offset and length of each entry, and the
    entries.  It is stored in a file of its own (version 2) or in an extended
    attribute (EA).  This file holds the parsers, the checks on entries, the
    builders and the copy of one header into another.  What a read of the store
    returned is an argument; bytes are [Z] in 0..255. *)

From S2P Require Import Prelude Bytes.

(** ** Layout *)

Definition ADEID_DFORK : nat := 1.
Definition ADEID_RFORK : nat := 2.
Definition ADEID_NAME : nat := 3.
Definition ADEID_COMMENT : nat := 4.
Definition ADEID_ICONBW : nat := 5.
Definition ADEID_ICONCOL : nat := 6.
Definition ADEID_FILEI : nat := 7.
Definition ADEID_FILEDATESI : nat := 8.
Definition ADEID_FINDERI : nat := 9.
Definition ADEID_MACFILEI : nat := 10.
Definition ADEID_PRODOSFILEI : nat := 11.
Definition ADEID_MSDOSFILEI : nat := 12.
Definition ADEID_SHORTNAME : nat := 13.
Definition ADEID_AFPFILEI : nat := 14.
Definition ADEID_DID : nat := 15.
Definition ADEID_PRIVDEV : nat := 16.
Definition ADEID_PRIVINO : nat := 17.
Definition ADEID_PRIVSYN : nat := 18.
Definition ADEID_PRIVID : nat := 19.
Definition ADEID_MAX : nat := ADEID_PRIVID + 1.

Definition AD_DEV : Z := 0x80444556.
Definition AD_INO : Z := 0x80494E4F.
Definition AD_SYN : Z := 0x8053594E.
Definition AD_ID : Z := 0x8053567E.

Definition AD_MAGIC : Z := 0x00051607.
Definition AD_VERSION2 : Z := 0x00020000.
Definition AD_VERSION_EA : Z := 0x00020002.

Definition ADEDOFF_VERSION : nat := 4.
Definition ADEDOFF_FILLER : nat := 8.
Definition ADEDOFF_NENTRIES : nat := 24.
Definition AD_HEADER_LEN : nat := 26.
Definition AD_ENTRY_LEN : nat := 12.

Definition ADEDLEN_NAME : Z := 255.
Definition ADEDLEN_COMMENT : Z := 200.
Definition ADEDLEN_FILEI : Z := 16.
Definition ADEDLEN_FINDERI : Z := 32.
Definition ADEDLEN_FILEDATESI : Z := 16.
Definition ADEDLEN_SHORTNAME : Z := 12.
Definition ADEDLEN_AFPFILEI : Z := 4.
Definition ADEDLEN_MACFILEI : Z := 4.
Definition ADEDLEN_PRODOSFILEI : Z := 8.
Definition ADEDLEN_MSDOSFILEI : Z := 2.
Definition ADEDLEN_ICONBW : Z := 128.
Definition ADEDLEN_ICONCOL : Z := 1024.
Definition ADEDLEN_DID : Z := 4.
Definition ADEDLEN_PRIVDEV : Z := 8.
Definition ADEDLEN_PRIVINO : Z := 8.
Definition ADEDLEN_PRIVSYN : Z := 8.
Definition ADEDLEN_PRIVID : Z := 4.
Definition ADEDLEN_INIT : Z := 0.

Definition ADEID_NUM_V2 : nat := 13.
Definition ADEID_NUM_EA : nat := 8.
Definition ADEID_NUM_OSX : nat := 2.
Definition AD_DATASZ2 : nat := 741.
Definition AD_DATASZ_EA : nat := 402.
Definition AD_DATASZ_OSX : nat := 82.
Definition AD_DATASZ_MAX : nat := 1024.
Definition ADEDOFF_FINDERI_OSX : Z := 50.
Definition ADEDOFF_RFORK_OSX : Z := 82.

Record ad_entry_t := Ade { ade_off : Z; ade_len : Z }.

#[export] Instance ad_entry_t_eq_dec : EqDecision ad_entry_t.
Proof. solve_decision. Defined.

(** The fields of [struct adouble] the headers live in. *)
Record adouble := Adouble {
  ad_magic : Z;
  ad_version : Z;
  ad_vers : Z;
  ad_eid : list ad_entry_t;
  ad_rlen : Z;
  valid_data_len : Z;
  ad_data : list Z
}.

Definition set_eid_table (t : list ad_entry_t) (ad : adouble) : adouble :=
  Adouble (ad_magic ad) (ad_version ad) (ad_vers ad) t (ad_rlen ad) (valid_data_len ad) (ad_data ad).
Definition set_data (d : list Z) (ad : adouble) : adouble :=
  Adouble (ad_magic ad) (ad_version ad) (ad_vers ad) (ad_eid ad) (ad_rlen ad) (valid_data_len ad) d.
Definition set_valid (n : Z) (ad : adouble) : adouble :=
  Adouble (ad_magic ad) (ad_version ad) (ad_vers ad) (ad_eid ad) (ad_rlen ad) n (ad_data ad).
Definition set_rlen (n : Z) (ad : adouble) : adouble :=
  Adouble (ad_magic ad) (ad_version ad) (ad_vers ad) (ad_eid ad) n (valid_data_len ad) (ad_data ad).
Definition set_ids (magic version : Z) (ad : adouble) : adouble :=
  Adouble magic version (ad_vers ad) (ad_eid ad) (ad_rlen ad) (valid_data_len ad) (ad_data ad).

(** [ad->ad_eid[eid]], zero past the table's end, where no caller reads. *)
Definition eid_at (ad : adouble) (eid : nat) : ad_entry_t := default (Ade 0 0) (ad_eid ad !! eid).

Inductive errno : Type := EIO | EINVAL | ENOENT | EOTHER.

#[export] Instance errno_eq_dec : EqDecision errno.
Proof. solve_decision. Defined.

(** ** Memory *)

(** [memcpy] of the network byte order of a 16 or 32 bit value. *)
Definition be16 (v : Z) : list Z := [Z.land (Z.shiftr v 8) 0xFF; Z.land v 0xFF].
Definition be32 (v : Z) : list Z :=
  [Z.land (Z.shiftr v 24) 0xFF; Z.land (Z.shiftr v 16) 0xFF; Z.land (Z.shiftr v 8) 0xFF; Z.land v 0xFF].

(** Read a value in network byte order. *)
Definition rd16 (buf : list Z) : Z := nth 0 buf 0 * 2 ^ 8 + nth 1 buf 0.
Definition rd32 (buf : list Z) : Z := nth 0 buf 0 * 2 ^ 24 + nth 1 buf 0 * 2 ^ 16 + nth 2 buf 0 * 2 ^ 8 + nth 3 buf 0.

(** ** Entry IDs *)

Definition get_eid (eid : Z) : nat :=
  if eid <=? 15 then Z.to_nat eid
  else if eid =? AD_DEV then ADEID_PRIVDEV
  else if eid =? AD_INO then ADEID_PRIVINO
  else if eid =? AD_SYN then ADEID_PRIVSYN
  else if eid =? AD_ID then ADEID_PRIVID
  else 0%nat.

Definition set_eid : list Z := [0; 1; 2; 3; 4; 5; 6; 7; 8; 9; 10; 11; 12; 13; 14; 15; AD_DEV; AD_INO; AD_SYN; AD_ID].
Definition EID_DISK (a : nat) : Z := nth a set_eid 0.

(** ** A fresh table *)

Definition entry_order2 : list (nat * (Z * Z)) :=
  [(ADEID_NAME, (182, ADEDLEN_INIT)); (ADEID_COMMENT, (437, ADEDLEN_COMMENT)); (ADEID_FILEDATESI, (637, ADEDLEN_FILEDATESI));
   (ADEID_FINDERI, (653, ADEDLEN_FINDERI)); (ADEID_DID, (685, ADEDLEN_DID)); (ADEID_AFPFILEI, (689, ADEDLEN_AFPFILEI));
   (ADEID_SHORTNAME, (693, ADEDLEN_INIT)); (ADEID_PRODOSFILEI, (705, ADEDLEN_PRODOSFILEI));
   (ADEID_PRIVDEV, (713, ADEDLEN_PRIVDEV)); (ADEID_PRIVINO, (721, ADEDLEN_PRIVINO)); (ADEID_PRIVSYN, (729, ADEDLEN_PRIVSYN));
   (ADEID_PRIVID, (737, ADEDLEN_PRIVID)); (ADEID_RFORK, (741, ADEDLEN_INIT))].

Definition entry_order_ea : list (nat * (Z * Z)) :=
  [(ADEID_FINDERI, (122, ADEDLEN_FINDERI)); (ADEID_COMMENT, (154, ADEDLEN_COMMENT));
   (ADEID_FILEDATESI, (354, ADEDLEN_FILEDATESI)); (ADEID_AFPFILEI, (370, ADEDLEN_AFPFILEI));
   (ADEID_PRIVDEV, (374, ADEDLEN_PRIVDEV)); (ADEID_PRIVINO, (382, ADEDLEN_PRIVINO)); (ADEID_PRIVSYN, (390, ADEDLEN_PRIVSYN));
   (ADEID_PRIVID, (398, ADEDLEN_PRIVID))].

Definition set_entry (t : list ad_entry_t) (eid : nat) (off len : Z) : list ad_entry_t := <[eid := Ade off len]> t.

Definition set_off (t : list ad_entry_t) (eid : nat) (off : Z) : list ad_entry_t := alter (fun e => Ade off (ade_len e)) eid t.
Definition set_len (t : list ad_entry_t) (eid : nat) (len : Z) : list ad_entry_t := alter (fun e => Ade (ade_off e) len) eid t.

Section build.

(** Whether the system has descriptors on extended attributes. *)
Context (HAVE_EAFD : bool).

Definition ad_init_offsets (ad : adouble) : Z * adouble :=
  if ad_magic ad =? AD_MAGIC then (0, ad) else
  let version := Z.land (ad_vers ad) 0x0f0000 in
  let ad := set_ids AD_MAGIC (if version =? 0 then AD_VERSION_EA else version) ad in
  let ad := set_data (replicate AD_DATASZ_MAX 0) ad in
  let fill order size :=
    set_valid (Z.of_nat size) (set_eid_table (foldl (fun t '(eid, (off, len)) => set_entry t eid off len) (ad_eid ad) order) ad) in
  if ad_vers ad =? AD_VERSION2 then (0, fill entry_order2 AD_DATASZ2)
  else if ad_vers ad =? AD_VERSION_EA then
    let ad := fill entry_order_ea AD_DATASZ_EA in
    (0, if HAVE_EAFD then ad else set_eid_table (set_off (ad_eid ad) ADEID_RFORK ADEDOFF_RFORK_OSX) ad)
  else (-1, ad).

(** ** Access to an entry *)

Definition ad_getentryoff (ad : adouble) (eid : nat) : Z :=
  if ad_vers ad =? AD_VERSION2 then ade_off (eid_at ad eid)
  else if (eid =? ADEID_DFORK)%nat then 0
  else if (eid =? ADEID_RFORK)%nat then (if HAVE_EAFD then 0 else ade_off (eid_at ad eid))
  else ade_off (eid_at ad eid).

Definition ad_getentrylen (ad : adouble) (eid : nat) : Z := ade_len (eid_at ad eid).

(** The table [ad_checks]: the length an entry is expected to have, whether it is
    the exact and whether it is the least one; index 0 has no initializer. *)
Definition ad_checks : list (Z * bool * bool) :=
  [(0, false, false); (-1, false, false); (-1, false, false); (ADEDLEN_NAME, false, false); (ADEDLEN_COMMENT, false, false);
   (ADEDLEN_ICONBW, true, false); (ADEDLEN_ICONCOL, false, false); (ADEDLEN_FILEI, true, false);
   (ADEDLEN_FILEDATESI, true, false); (ADEDLEN_FINDERI, false, true); (ADEDLEN_MACFILEI, true, false);
   (ADEDLEN_PRODOSFILEI, true, false); (ADEDLEN_MSDOSFILEI, true, false); (ADEDLEN_SHORTNAME, false, false);
   (ADEDLEN_AFPFILEI, true, false); (ADEDLEN_DID, true, false); (ADEDLEN_PRIVDEV, true, false); (ADEDLEN_PRIVINO, true, false);
   (ADEDLEN_PRIVSYN, true, false); (ADEDLEN_PRIVID, true, false)].

(** [off] and [got_len] are 32 bit values, and so is their sum. *)
Definition ad_entry_check_size (eid : nat) (bufsize off got_len : Z) : bool :=
  if (ADEID_MAX <=? eid)%nat then false
  else if got_len =? 0 then true
  else
  let '(expected_len, fixed_size, minimum_size) := default (0, false, false) (ad_checks !! eid) in
  if expected_len =? 0 then false
  else if expected_len =? -1 then true
  else
  let required_len :=
    if fixed_size : bool then if negb (expected_len =? got_len) then None else Some got_len
    else if minimum_size : bool then if got_len <? expected_len then None else Some got_len
    else if expected_len <? got_len then None else Some expected_len in
  match required_len with
  | None => false
  | Some required_len =>
      if u32(off + required_len) <? off then false
      else if bufsize <? u32(off + required_len) then false
      else true
  end.

Definition ad_entry_fits (ad : adouble) (eid : nat) (len : Z) : bool :=
  let off := ad_getentryoff ad eid in
  negb (off =? 0) && ad_entry_check_size eid (valid_data_len ad) (u32(off)) len.

(** The offset into [ad_data] the pointer stands for, [None] for [NULL]. *)
Definition ad_entry (ad : adouble) (eid : nat) : option Z :=
  let off := ad_getentryoff ad eid in
  if negb (ad_entry_fits ad eid (u32(ad_getentrylen ad eid))) then None else Some off.

(** ** Parsing *)

(** The loop of [parse_entries] at the position [buf]. *)
Fixpoint parse_loop (nentries : nat) (buf : list Z) (valid : Z) (t : list ad_entry_t) : bool * list ad_entry_t :=
  match nentries with
  | O => (true, t)
  | S n =>
      let eid := get_eid (rd32 buf) in
      let off := rd32 (drop 4 buf) in
      let len := rd32 (drop 8 buf) in
      if (eid =? 0)%nat || (ADEID_MAX <? eid)%nat ||
         (negb (eid =? ADEID_RFORK)%nat && ((valid <? off) || (valid - off <? len)))
      then (false, t)
      else parse_loop n (drop 12 buf) valid (set_entry t eid off len)
  end.

Definition parse_entries (ad : adouble) (nentries : nat) (valid : Z) : Z * adouble :=
  let '(ok, t) := parse_loop nentries (drop AD_HEADER_LEN (ad_data ad)) valid (ad_eid ad) in
  let ad := set_eid_table t ad in
  if ok then (0, set_valid valid ad) else (-1, ad).

(** [ad_header_read], given what the read of the metadata file returned (at most
    [AD_DATASZ2] bytes, [None] for an error) and the size of that file, [None]
    when [fstat] fails. *)
Definition ad_header_read (ad : adouble) (pread : option (list Z)) (st_size : option Z) : (Z * option errno) * adouble :=
  match pread with
  | None => ((-1, Some EOTHER), ad)
  | Some got =>
      let header_len := Z.of_nat (length got) in
      let ad := set_data (blit 0 got (ad_data ad)) ad in
      let buf := ad_data ad in
      if header_len <? Z.of_nat AD_HEADER_LEN then ((-1, Some EIO), ad) else
      let ad := set_ids (rd32 buf) (rd32 (drop ADEDOFF_VERSION buf)) ad in
      if negb (ad_magic ad =? AD_MAGIC) || negb (ad_version ad =? AD_VERSION2) then ((-1, Some EIO), ad) else
      let nentries := rd16 (drop ADEDOFF_NENTRIES buf) in
      if 16 <? nentries then ((-1, Some EIO), ad) else
      if header_len <? nentries * Z.of_nat AD_ENTRY_LEN + Z.of_nat AD_HEADER_LEN then ((-1, Some EIO), ad) else
      let '(ret, ad) := parse_entries ad (Z.to_nat nentries) header_len in
      if negb (ret =? 0) then ((-1, Some EIO), ad) else
      if (ad_getentryoff ad ADEID_RFORK =? 0) || (Z.of_nat AD_DATASZ_MAX <? ad_getentryoff ad ADEID_RFORK)
      then ((-1, Some EIO), ad) else
      if header_len <? ad_getentryoff ad ADEID_RFORK then ((-1, Some EIO), ad) else
      match st_size with
      | None => ((1, None), ad)
      | Some size => ((0, None), set_rlen (size - ad_getentryoff ad ADEID_RFORK) ad)
      end
  end.

(** [ad_header_read_ea], given what the read of the extended attribute returned (an
    error, or at most [AD_DATASZ_EA] bytes) and whether the caller passed a path and allows the
    creation of a header; the last component tells whether the attribute was
    removed. *)
Definition ad_header_read_ea (ad : adouble) (getxattr : errno + list Z) (path create : bool) :
    (Z * option errno) * adouble * bool :=
  let fail e := if bool_decide (e = EINVAL) && path && create then ((-1, Some ENOENT), ad, true) else ((-1, Some e), ad, false) in
  match getxattr with
  | inl e => fail e
  | inr got =>
      let header_len := Z.of_nat (length got) in
      if header_len <? 1 then fail EINVAL else
      if header_len <? Z.of_nat AD_DATASZ_EA then fail EINVAL else
      let new := set_data (blit 0 got (ad_data ad)) ad in
      let buf := ad_data new in
      let new := set_ids (rd32 buf) (rd32 (drop ADEDOFF_VERSION buf)) new in
      if negb (ad_magic new =? AD_MAGIC) || negb (ad_version new =? AD_VERSION2) then fail EINVAL else
      let nentries := rd16 (drop ADEDOFF_NENTRIES buf) in
      if negb (nentries =? Z.of_nat ADEID_NUM_EA) then fail EINVAL else
      let '(ret, new) := parse_entries new (Z.to_nat nentries) header_len in
      if negb (ret =? 0) then fail EINVAL else
      if existsb (fun eid => bool_decide (ad_entry new eid = None))
           [ADEID_FINDERI; ADEID_COMMENT; ADEID_FILEDATESI; ADEID_AFPFILEI; ADEID_PRIVDEV; ADEID_PRIVINO; ADEID_PRIVSYN; ADEID_PRIVID]
      then fail EINVAL else
      ((0, None),
       if negb HAVE_EAFD && (ad_vers new =? AD_VERSION_EA)
       then set_eid_table (set_off (ad_eid new) ADEID_RFORK ADEDOFF_RFORK_OSX) new else new, false)
  end.

(** "Netatalk" and eight blanks. *)
Definition AD_FILLER_NETATALK : list Z := [78; 101; 116; 97; 116; 97; 108; 107; 32; 32; 32; 32; 32; 32; 32; 32].

(** [ad_valid_header_osx], given what the read of the file returned. *)
Definition ad_valid_header_osx (pread : option (list Z)) : Z :=
  match pread with
  | None => 1
  | Some buf =>
      if Z.of_nat (length buf) <? Z.of_nat AD_HEADER_LEN then 1
      else if negb (rd32 buf =? AD_MAGIC) || negb (rd32 (drop ADEDOFF_VERSION buf) =? AD_VERSION2) then 1
      else if negb (bool_decide (take 16 (drop ADEDOFF_FILLER buf) = AD_FILLER_NETATALK)) then 1
      else 0
  end.

(** ** Building *)

(** One descriptor at the position [pos], as the three copies write it. *)
Definition put_entry (eid : nat) (e : ad_entry_t) (pos : nat) (data : list Z) : list Z :=
  blit (pos + 8) (be32 (u32(ade_len e))) (blit (pos + 4) (be32 (u32(ade_off e))) (blit pos (be32 (EID_DISK eid)) data)).

(** The loop over the entries from [eid] on that [keep] holds for: the data, and
    the count of entries written. *)
Fixpoint rebuild_loop (keep : nat -> ad_entry_t -> bool) (eid : nat) (t : list ad_entry_t) (pos : nat) (nent : nat) (data : list Z) :
    list Z * nat :=
  match t with
  | [] => (data, nent)
  | e :: t =>
      if keep eid e then rebuild_loop keep (S eid) t (pos + AD_ENTRY_LEN) (S nent) (put_entry eid e pos data)
      else rebuild_loop keep (S eid) t pos nent data
  end.

Definition rebuild (keep : nat -> ad_entry_t -> bool) (ad : adouble) : adouble :=
  let data := blit 4 (be32 (ad_version ad)) (blit 0 (be32 (ad_magic ad)) (ad_data ad)) in
  let '(data, nent) := rebuild_loop keep 0 (ad_eid ad) AD_HEADER_LEN 0 data in
  set_data (blit ADEDOFF_NENTRIES (be16 (Z.of_nat nent)) data) ad.

Definition keep_v2 (eid : nat) (e : ad_entry_t) : bool := negb (ade_off e =? 0).
Definition keep_ea (eid : nat) (e : ad_entry_t) : bool := negb ((ade_off e =? 0) || (eid =? ADEID_RFORK)%nat).

Definition ad_rebuild_adouble_header_v2 (ad : adouble) : Z * adouble :=
  let ad := rebuild keep_v2 ad in (ad_getentryoff ad ADEID_RFORK, ad).

Definition ad_rebuild_adouble_header_ea (ad : adouble) : Z * adouble := (Z.of_nat AD_DATASZ_EA, rebuild keep_ea ad).

(** The header of a ._ file, built in [adbuf]. *)
Definition ad_rebuild_adouble_header_osx (ad : adouble) (adbuf : list Z) : Z * list Z :=
  let b := blit 0 (be32 (ad_magic ad)) adbuf in
  let b := blit 4 (be32 (ad_version ad)) b in
  let b := blit 8 AD_FILLER_NETATALK b in
  let b := blit 24 (be16 (Z.of_nat ADEID_NUM_OSX)) b in
  let b := put_entry ADEID_FINDERI (Ade ADEDOFF_FINDERI_OSX ADEDLEN_FINDERI) AD_HEADER_LEN b in
  let b := match ad_entry ad ADEID_FINDERI with
           | Some off => blit (Z.to_nat ADEDOFF_FINDERI_OSX) (take (Z.to_nat ADEDLEN_FINDERI) (drop (Z.to_nat off) (ad_data ad))) b
           | None => b
           end in
  (Z.of_nat AD_DATASZ_OSX, put_entry ADEID_RFORK (Ade ADEDOFF_RFORK_OSX (ad_rlen ad)) (AD_HEADER_LEN + AD_ENTRY_LEN) b).

(** ** Copying *)

(** The offset and length of the source entry to transfer, [None] to skip it. *)
Definition ad_copy_header_entry (add ads : adouble) (eid : nat) : option (Z * Z) :=
  if (eid =? ADEID_COMMENT)%nat || (eid =? ADEID_DFORK)%nat || (eid =? ADEID_RFORK)%nat then None
  else if (ade_off (eid_at ads eid) =? 0) || (ade_off (eid_at add eid) =? 0) then None
  else if ade_len (eid_at ads eid) <=? 0 then None
  else off ← ad_entry ads eid; Some (off, u32(ade_len (eid_at ads eid))).

(** The body of the second loop. *)
Definition copy_entry (ads : adouble) (add : adouble) (eid : nat) : adouble :=
  match ad_copy_header_entry add ads eid with
  | None => add
  | Some (off, len) =>
      let src := take (Z.to_nat len) (drop (Z.to_nat off) (ad_data ads)) in
      let add' := set_data (blit (Z.to_nat (ad_getentryoff add eid)) src (ad_data add)) add in
      set_eid_table (set_len (ad_eid add') eid len) add'
  end.

Definition ad_copy_header (add ads : adouble) : (Z * option errno) * adouble :=
  if valid_data_len add =? 0 then ((-1, None), add) else
  if existsb (fun eid => match ad_copy_header_entry add ads eid with
                         | None => false
                         | Some (_, len) => negb (ad_entry_fits add eid len)
                         end) (seq 0 ADEID_MAX)
  then ((-1, Some EIO), add) else
  let add := set_rlen (ad_rlen ads) (foldl (copy_entry ads) add (seq 0 ADEID_MAX)) in
  if ((ad_vers ads =? AD_VERSION2) && (ad_vers add =? AD_VERSION_EA)) ||
     ((ad_vers ads =? AD_VERSION_EA) && (ad_vers add =? AD_VERSION2))
  then match ad_entry add ADEID_PRIVID with
       | Some dst =>
           let id := take 4 (drop (Z.to_nat dst) (ad_data add)) in
           ((0, None), set_data (blit (Z.to_nat dst) (reverse id) (ad_data add)) add)
       | None => ((0, None), add)
       end
  else ((0, None), add).

End build.
