(* ===== verification/AdHeaderTheorems.v ===== *)
(** * AppleDouble headers: theorems

    No header, whatever its bytes, makes the code point outside the metadata
    buffer; what the builders write, the parsers read back; and a copy between
    headers is all or nothing and stays in bounds. *)

From S2P Require Import Prelude Bytes AdHeader.

(** ** Bytes *)

Lemma be32_length v : length (be32 v) = 4%nat. Proof. done. Qed.
Lemma be16_length v : length (be16 v) = 2%nat. Proof. done. Qed.

Lemma rd32_be32 v rest : 0 <= v < 2 ^ 32 -> rd32 (be32 v ++ rest) = v.
Proof. intros Hv. unfold rd32, be32. cbn. rewrite !mask_ff, !Z.shiftr_div_pow2 by lia. zmod. Qed.

Lemma rd16_be16 v rest : 0 <= v < 2 ^ 16 -> rd16 (be16 v ++ rest) = v.
Proof. intros Hv. unfold rd16, be16. cbn. rewrite !mask_ff, !Z.shiftr_div_pow2 by lia. zmod. Qed.

Lemma rd32_range l : Forall byte l -> 0 <= rd32 l < 2 ^ 32.
Proof.
  intros Hl. pose proof (nth_byte l 0 Hl). pose proof (nth_byte l 1 Hl). pose proof (nth_byte l 2 Hl). pose proof (nth_byte l 3 Hl).
  unfold rd32, byte in *. lia.
Qed.

Lemma rd16_range l : Forall byte l -> 0 <= rd16 l < 2 ^ 16.
Proof. intros Hl. pose proof (nth_byte l 0 Hl). pose proof (nth_byte l 1 Hl). unfold rd16, byte in *. lia. Qed.



(** ** What the builders write *)

(** A descriptor. *)
Definition desc (eid : nat) (e : ad_entry_t) : list Z := be32 (EID_DISK eid) ++ be32 (u32 (ade_off e)) ++ be32 (u32 (ade_len e)).

Lemma put_entry_blit eid e pos d : (pos + 12 <= length d)%nat -> put_entry eid e pos d = blit pos (desc eid e) d.
Proof.
  intros H. unfold put_entry, desc. change (pos + 4)%nat with (pos + length (be32 (EID_DISK eid)))%nat.
  rewrite blit_blit by (cbn; lia).
  replace (pos + 8)%nat with (pos + length (be32 (EID_DISK eid) ++ be32 (u32 (ade_off e))))%nat by (cbn; lia).
  rewrite blit_blit by (cbn; lia). by rewrite <- app_assoc.
Qed.

(** The entries of the table that [keep] holds for, with their IDs. *)
Fixpoint kept (keep : nat -> ad_entry_t -> bool) (eid : nat) (t : list ad_entry_t) : list (nat * ad_entry_t) :=
  match t with
  | [] => []
  | e :: t => (if keep eid e then [(eid, e)] else []) ++ kept keep (S eid) t
  end.

Definition descs (es : list (nat * ad_entry_t)) : list Z := concat ((fun '(eid, e) => desc eid e) <$> es).

Lemma descs_length es : length (descs es) = (12 * length es)%nat.
Proof. unfold descs. induction es as [|[eid e] es IH]; [done|]. cbn. cbn in IH. lia. Qed.

Lemma rebuild_loop_descs keep t : forall eid pos n d,
  (pos + 12 * length (kept keep eid t) <= length d)%nat ->
  rebuild_loop keep eid t pos n d = (blit pos (descs (kept keep eid t)) d, (n + length (kept keep eid t))%nat).
Proof.
  induction t as [|e t IH]; intros eid pos n d H; cbn [rebuild_loop kept] in *.
  - cbn. rewrite Nat.add_0_r. unfold blit. cbn. by rewrite Nat.add_0_r, take_drop.
  - destruct (keep eid e); cbn [app length] in *.
    + rewrite put_entry_blit by lia. unfold AD_ENTRY_LEN. rewrite IH by (rewrite length_blit by (cbn; lia); lia).
      change 12%nat with (length (desc eid e)). rewrite blit_blit by (rewrite descs_length; cbn; lia). f_equal. lia.
    + apply IH. lia.
Qed.

(** The buffer after a rebuild: the fields, the filler as it was, the descriptors
    and the rest as it was. *)
Lemma rebuild_data keep ad :
  let es := kept keep 0 (ad_eid ad) in
  (26 + 12 * length es <= length (ad_data ad))%nat ->
  exists filler rest, length filler = 16%nat /\ filler = take 16 (drop 8 (ad_data ad)) /\
    (exists old, ad_data ad = old ++ rest /\ length old = (26 + 12 * length es)%nat) /\
    ad_data (rebuild keep ad) =
      be32 (ad_magic ad) ++ be32 (ad_version ad) ++ filler ++ be16 (Z.of_nat (length es)) ++ descs es ++ rest.
Proof.
  intros es H. unfold rebuild. destruct (split_at (ad_data ad) 8) as (a & b & Hd & Ha); [lia|].
  destruct (split_at b 16) as (f & c & Hb & Hf); [apply (f_equal length) in Hd; rewrite length_app in Hd; lia|].
  destruct (split_at c 2) as (n & r & Hc & Hn); [apply (f_equal length) in Hd; subst b; rewrite !length_app in Hd; lia|].
  subst b c. destruct (split_at r (12 * length es)) as (o & rest & Hr & Ho); [apply (f_equal length) in Hd; rewrite !length_app in Hd; lia|].
  subst r. set (mv := be32 (ad_magic ad) ++ be32 (ad_version ad)).
  assert (blit 4 (be32 (ad_version ad)) (blit 0 (be32 (ad_magic ad)) (ad_data ad)) = mv ++ f ++ n ++ o ++ rest) as ->.
  { etransitivity; [apply (blit_blit 0 (be32 (ad_magic ad))); cbn; lia|].
    fold mv. rewrite Hd, blit_0. by rewrite drop_app_length' by (rewrite Ha; done). }
  rewrite rebuild_loop_descs by (rewrite !length_app; unfold AD_HEADER_LEN; fold es; cbn; lia). fold es. cbn [Nat.add].
  exists f, rest. split; [done|].
  split; [rewrite Hd, drop_app_length' by done; by rewrite take_app_length'|]. split; [exists (a ++ f ++ n ++ o); split; [rewrite Hd; by rewrite <- !app_assoc|rewrite !length_app; lia]|].
  cbn [ad_data set_data]. rewrite (blit_past mv AD_HEADER_LEN 18) by done. rewrite (blit_past f 18 2), (blit_past n 2 0) by lia.
  rewrite (blit_past mv ADEDOFF_NENTRIES 16), (blit_past f 16 0), !blit_0 by (done || lia).
  rewrite (drop_app_length' o) by (rewrite descs_length; lia). rewrite drop_app_length' by done.
  unfold mv. by rewrite <- !app_assoc.
Qed.

(** ** What the parser accepts *)

Lemma be32_rd32 a b c d rest : Forall byte [a; b; c; d] -> be32 (rd32 (a :: b :: c :: d :: rest)) = [a; b; c; d].
Proof.
  rewrite !Forall_cons. unfold byte. intros (Ha & Hb & Hc & Hd & _). unfold be32, rd32. cbn [nth].
  rewrite !mask_ff, !Z.shiftr_div_pow2 by lia. repeat (f_equal; try zmod).
Qed.

Lemma be16_rd16 a b rest : Forall byte [a; b] -> be16 (rd16 (a :: b :: rest)) = [a; b].
Proof.
  rewrite !Forall_cons. unfold byte. intros (Ha & Hb & _). unfold be16, rd16. cbn [nth].
  rewrite !mask_ff, !Z.shiftr_div_pow2 by lia. repeat (f_equal; try zmod).
Qed.

Lemma be32_front l : Forall byte l -> (4 <= length l)%nat -> l = be32 (rd32 l) ++ drop 4 l.
Proof.
  intros Hl Hn. destruct l as [|a [|b [|c [|d l]]]]; cbn in Hn; try lia.
  rewrite be32_rd32; [done|]. exact (Forall_take _ 4 _ Hl).
Qed.

Lemma be16_front l : Forall byte l -> (2 <= length l)%nat -> l = be16 (rd16 l) ++ drop 2 l.
Proof.
  intros Hl Hn. destruct l as [|a [|b l]]; cbn in Hn; try lia.
  rewrite be16_rd16; [done|]. exact (Forall_take _ 2 _ Hl).
Qed.

(** The IDs on disk and in memory. *)
Definition valid_eid (eid : nat) : Prop := (1 <= eid < ADEID_MAX)%nat.

Lemma get_eid_disk eid : valid_eid eid -> get_eid (EID_DISK eid) = eid.
Proof. unfold valid_eid, ADEID_MAX, ADEID_PRIVID. intros H. do 20 (destruct eid as [|eid]; [first [done|lia]|]). lia. Qed.

Lemma EID_DISK_range eid : 0 <= EID_DISK eid < 2 ^ 32.
Proof.
  destruct (decide (eid < 20)%nat) as [H|H]; [do 20 (destruct eid as [|eid]; [cbv; done|]); lia|].
  unfold EID_DISK. rewrite nth_overflow by (cbn; lia). lia.
Qed.

Lemma get_eid_inv z : 0 <= z -> get_eid z <> 0%nat -> valid_eid (get_eid z) /\ EID_DISK (get_eid z) = z.
Proof.
  intros Hz. unfold get_eid, valid_eid.
  repeat match goal with |- context [if ?b then _ else _] => destruct b eqn:? end; intros H; try done;
    try (split; [cbv; lia|]; symmetry; by apply Z.eqb_eq).
  split; [cbn; lia|]. assert (1 <= z <= 15) as Hr by lia. clear -Hr.
  rewrite <- (Z2Nat.id z) at 2 by lia. remember (Z.to_nat z) as k. assert (1 <= k <= 15)%nat by lia.
  do 16 (destruct k as [|k]; [done|]). lia.
Qed.

(** An entry the parser takes from a header of [valid] bytes. *)
Definition entry_in (valid : Z) (e : nat * ad_entry_t) : Prop :=
  let '(eid, Ade off len) := e in
  valid_eid eid /\ 0 <= off < 2 ^ 32 /\ 0 <= len < 2 ^ 32 /\ (eid <> ADEID_RFORK -> off + len <= valid).

Definition enter (t : list ad_entry_t) (e : nat * ad_entry_t) : list ad_entry_t := <[e.1 := e.2]> t.
Definition enter_all : list ad_entry_t -> list (nat * ad_entry_t) -> list ad_entry_t := foldl enter.

Lemma rd32_desc eid off len rest : 0 <= off < 2 ^ 32 -> 0 <= len < 2 ^ 32 ->
  rd32 (desc eid (Ade off len) ++ rest) = EID_DISK eid /\
  rd32 (drop 4 (desc eid (Ade off len) ++ rest)) = off /\
  rd32 (drop 8 (desc eid (Ade off len) ++ rest)) = len.
Proof.
  intros Ho Hl. unfold desc. cbn [ade_off ade_len]. unfold wrap. rewrite !(Z.mod_small _ (2 ^ 32)) by done.
  rewrite <- !app_assoc. change (drop 4 _) with (be32 off ++ be32 len ++ rest).
  change (drop 8 _) with (be32 len ++ rest). rewrite !rd32_be32 by (done || apply EID_DISK_range). done.
Qed.

Lemma desc_front l : Forall byte l -> (12 <= length l)%nat ->
  get_eid (rd32 l) <> 0%nat ->
  l = desc (get_eid (rd32 l)) (Ade (rd32 (drop 4 l)) (rd32 (drop 8 l))) ++ drop 12 l.
Proof.
  intros Hl Hn Hid. pose proof (rd32_range l Hl). pose proof (get_eid_inv (rd32 l) ltac:(lia) Hid) as [_ Hd].
  unfold desc. cbn [ade_off ade_len]. rewrite Hd. unfold wrap.
  pose proof (rd32_range (drop 4 l) (Forall_drop _ 4 _ Hl)). pose proof (rd32_range (drop 8 l) (Forall_drop _ 8 _ Hl)).
  rewrite !(Z.mod_small _ (2 ^ 32)) by done. rewrite (be32_front l Hl) at 1 by lia. rewrite <- !app_assoc. f_equal.
  rewrite (be32_front (drop 4 l)) at 1 by (try apply Forall_drop; rewrite ?length_drop; done || lia). f_equal.
  rewrite drop_drop. cbn [Nat.add].
  rewrite (be32_front (drop 8 l)) at 1 by (try apply Forall_drop; rewrite ?length_drop; done || lia). by rewrite drop_drop.
Qed.

Lemma parse_loop_exact n : forall buf valid t t', Forall byte buf -> (12 * n <= length buf)%nat ->
  parse_loop n buf valid t = (true, t') <->
  exists es rest, length es = n /\ buf = descs es ++ rest /\ Forall (entry_in valid) es /\ t' = enter_all t es.
Proof.
  induction n as [|n IH]; intros buf valid t t' Hb Hn.
  - split.
    + intros [= <-]. exists [], buf. done.
    + intros (es & rest & Hl & _ & _ & ->). by destruct es.
  - cbn [parse_loop]. split.
    + destruct (_ || _) eqn:Hc; [done|]. intros H. apply IH in H as (es & rest & Hl & Hbuf & Hes & ->);
        [|by apply Forall_drop|rewrite length_drop; lia].
      apply orb_false_iff in Hc as [[H0%Nat.eqb_neq Hmax]%orb_false_iff Hin].
      pose proof (rd32_range buf Hb). pose proof (get_eid_inv (rd32 buf) ltac:(lia) H0) as [Hv _].
      pose proof (rd32_range (drop 4 buf) (Forall_drop _ 4 _ Hb)). pose proof (rd32_range (drop 8 buf) (Forall_drop _ 8 _ Hb)).
      exists ((get_eid (rd32 buf), Ade (rd32 (drop 4 buf)) (rd32 (drop 8 buf))) :: es), rest.
      split; [cbn; lia|]. split; [|split; [|done]].
      * unfold descs in *. cbn [fmap list_fmap concat]. rewrite <- app_assoc, <- Hbuf. by apply desc_front; [|lia|].
      * constructor; [|done]. split; [done|]. split; [done|]. split; [done|]. intros Hr. apply Nat.eqb_neq in Hr. rewrite Hr in Hin.
        cbn in Hin. lia.
    + intros (es & rest & Hl & -> & Hes & ->). destruct es as [|[eid [off len]] es]; [done|]. cbn in Hl.
      apply Forall_cons in Hes as [(Hv & Ho & Hle & Hin) Hes].
      unfold descs in *. cbn [fmap list_fmap concat]. rewrite <- app_assoc.
      destruct (rd32_desc eid off len (descs es ++ rest) Ho Hle) as (E1 & E2 & E3). unfold descs in E1, E2, E3.
      rewrite E1, E2, E3, get_eid_disk by done.
      rewrite (proj2 (orb_false_iff _ _)).
      2: { unfold valid_eid, ADEID_MAX, ADEID_PRIVID in *. split; [apply orb_false_iff; split; [apply Nat.eqb_neq; lia|apply Nat.ltb_ge; cbn; lia]|].
           destruct (Nat.eqb_spec eid ADEID_RFORK); [done|]. cbn. specialize (Hin n0). lia. }
      cbn [fmap list_fmap concat] in Hn. rewrite <- app_assoc, length_app in Hn. change (length (desc _ _)) with 12%nat in Hn.
      rewrite drop_app_length' by done. apply IH; [|lia|].
      * cbn [fmap list_fmap concat] in Hb. rewrite <- app_assoc in Hb. by apply Forall_app in Hb as [_ Hb].
      * exists es, rest. split; [lia|]. done.
Qed.

Lemma rd32_app a b : (4 <= length a)%nat -> rd32 (a ++ b) = rd32 a.
Proof. intros H. unfold rd32. rewrite !app_nth1 by lia. done. Qed.

Lemma rd16_app a b : (2 <= length a)%nat -> rd16 (a ++ b) = rd16 a.
Proof. intros H. unfold rd16. rewrite !app_nth1 by lia. done. Qed.

(** The parser reads no byte behind the descriptors. *)
Lemma parse_loop_front n : forall a b valid t, (12 * n <= length a)%nat -> parse_loop n (a ++ b) valid t = parse_loop n a valid t.
Proof.
  induction n as [|n IH]; intros a b valid t Hn; [done|]. cbn [parse_loop].
  rewrite !drop_app_le by lia. rewrite !rd32_app by (rewrite ?length_drop; lia). destruct (_ || _); [done|].
  apply IH. rewrite length_drop. lia.
Qed.

(** A header: the identification, the filler, the count, the descriptors, the entries. *)
Definition header_bytes (version : Z) (filler : list Z) (es : list (nat * ad_entry_t)) (rest : list Z) : list Z :=
  be32 AD_MAGIC ++ be32 version ++ filler ++ be16 (Z.of_nat (length es)) ++ descs es ++ rest.

Lemma header_fields version filler es rest : length filler = 16%nat -> 0 <= version < 2 ^ 32 -> Z.of_nat (length es) < 2 ^ 16 ->
  let h := header_bytes version filler es rest in
  (26 <= length h)%nat /\ rd32 h = AD_MAGIC /\ rd32 (drop 4 h) = version /\ rd16 (drop 24 h) = Z.of_nat (length es) /\
  drop 26 h = descs es ++ rest.
Proof.
  intros Hf Hv Hes h. unfold h, header_bytes. split; [rewrite !length_app, Hf; cbn; lia|].
  split; [by apply rd32_be32|]. split; [by apply rd32_be32|]. split.
  - rewrite (drop_past _ _ 24 20), (drop_past _ _ 20 16), (drop_past _ _ 16 0) by (rewrite ?Hf; done). apply rd16_be16. lia.
  - rewrite (drop_past _ _ 26 22), (drop_past _ _ 22 18), (drop_past _ _ 18 2), (drop_past _ _ 2 0) by (rewrite ?Hf; done). done.
Qed.

Lemma header_split h : Forall byte h -> (26 <= length h)%nat ->
  exists filler, length filler = 16%nat /\
    h = be32 (rd32 h) ++ be32 (rd32 (drop 4 h)) ++ filler ++ be16 (rd16 (drop 24 h)) ++ drop 26 h.
Proof.
  intros Hb Hn. exists (take 16 (drop 8 h)). split; [rewrite length_take, length_drop; lia|].
  rewrite (be32_front h Hb) at 1 by lia. f_equal.
  rewrite (be32_front (drop 4 h)) at 1 by (try apply Forall_drop; rewrite ?length_drop; done || lia). f_equal.
  rewrite drop_drop. cbn [Nat.add]. rewrite <- (take_drop 16 (drop 8 h)) at 1. f_equal. rewrite drop_drop. cbn [Nat.add].
  rewrite (be16_front (drop 24 h)) at 1 by (try apply Forall_drop; rewrite ?length_drop; done || lia). by rewrite drop_drop.
Qed.

(** What both readers check of a header [got] in the buffer, before the entries: the
    identification, the count, and that the descriptors parse. *)
Lemma parse_header got tail valid n t t' :
  Forall byte got -> (26 + 12 * n <= length got)%nat -> Z.of_nat n < 2 ^ 16 ->
  let buf := got ++ tail in
  rd32 buf = AD_MAGIC /\ rd32 (drop ADEDOFF_VERSION buf) = AD_VERSION2 /\ rd16 (drop ADEDOFF_NENTRIES buf) = Z.of_nat n /\
    parse_loop n (drop AD_HEADER_LEN buf) valid t = (true, t') <->
  exists filler es rest, length filler = 16%nat /\ length es = n /\ got = header_bytes AD_VERSION2 filler es rest /\
    Forall (entry_in valid) es /\ t' = enter_all t es.
Proof.
  intros Hb Hn Hn16 buf. unfold buf, ADEDOFF_VERSION, ADEDOFF_NENTRIES, AD_HEADER_LEN.
  rewrite !drop_app_le, !rd32_app, rd16_app, parse_loop_front by (rewrite ?length_drop; lia). split.
  - intros (Hm & Hv & Hc & Hp). apply parse_loop_exact in Hp as (es & rest & Hl & Hd & Hes & ->);
      [|by apply Forall_drop|rewrite length_drop; lia].
    destruct (header_split got Hb) as (filler & Hf & Hg); [lia|]. exists filler, es, rest. split; [done|]. split; [done|].
    split; [|done]. rewrite Hg, Hm, Hv, Hc, Hd, <- Hl. done.
  - intros (filler & es & rest & Hf & Hl & -> & Hes & ->).
    destruct (header_fields AD_VERSION2 filler es rest) as (_ & Hm & Hv & Hc & Hd); [done|done|lia|].
    rewrite Hm, Hv, Hc, Hl. split; [done|]. split; [done|]. split; [done|]. rewrite Hd.
    apply parse_loop_exact; [rewrite <- Hd; by apply Forall_drop|rewrite length_app, descs_length; lia|]. exists es, rest. done.
Qed.

(** What a successful read leaves. *)
Definition read_v2 (ad : adouble) (got : list Z) (t : list ad_entry_t) (size : Z) : adouble :=
  Adouble AD_MAGIC AD_VERSION2 (ad_vers ad) t (size - ade_off (default (Ade 0 0) (t !! ADEID_RFORK))) (Z.of_nat (length got))
    (blit 0 got (ad_data ad)).

Lemma getentryoff_v2 HAVE_EAFD ad eid : ad_vers ad = AD_VERSION2 -> ad_getentryoff HAVE_EAFD ad eid = ade_off (eid_at ad eid).
Proof. intros Hv. unfold ad_getentryoff. by rewrite Hv. Qed.

(** The checks of the reader, in one conjunction. *)
Lemma header_read_checks HAVE_EAFD ad got size ad' :
  ad_vers ad = AD_VERSION2 -> (length got <= AD_DATASZ2)%nat ->
  let buf := blit 0 got (ad_data ad) in
  let n := rd16 (drop ADEDOFF_NENTRIES buf) in
  ad_header_read HAVE_EAFD ad (Some got) (Some size) = ((0, None), ad') <->
  (26 <= length got)%nat /\ rd32 buf = AD_MAGIC /\ rd32 (drop ADEDOFF_VERSION buf) = AD_VERSION2 /\ n <= 16 /\
  n * 12 + 26 <= Z.of_nat (length got) /\
  exists t, parse_loop (Z.to_nat n) (drop AD_HEADER_LEN buf) (Z.of_nat (length got)) (ad_eid ad) = (true, t) /\
    ade_off (default (Ade 0 0) (t !! ADEID_RFORK)) <> 0 /\
    ade_off (default (Ade 0 0) (t !! ADEID_RFORK)) <= Z.of_nat (length got) /\ ad' = read_v2 ad got t size.
Proof.
  intros Hv Hlen buf n. unfold ad_header_read, parse_entries. cbn [set_data set_ids ad_data ad_magic ad_version ad_eid].
  fold buf. fold n. unfold AD_HEADER_LEN, AD_ENTRY_LEN, AD_DATASZ_MAX, AD_DATASZ2 in *.
  destruct (Z.ltb_spec (Z.of_nat (length got)) (Z.of_nat 26)); [split; [done|intros [? _]; lia]|].
  destruct (Z.eqb_spec (rd32 buf) AD_MAGIC) as [Hm|]; [|split; [done|by intros (_ & ? & _)]].
  destruct (Z.eqb_spec (rd32 (drop ADEDOFF_VERSION buf)) AD_VERSION2) as [Hve|]; [|split; [done|by intros (_ & _ & ? & _)]].
  cbn [negb orb]. destruct (Z.ltb_spec 16 n); [split; [done|intros (_ & _ & _ & ? & _); lia]|].
  destruct (Z.ltb_spec (Z.of_nat (length got)) (n * Z.of_nat 12 + Z.of_nat 26)); [split; [done|intros (_ & _ & _ & _ & ? & _); lia]|].
  destruct (parse_loop _ _ _ _) as [ok t]. destruct ok; [|split; [done|by intros (_ & _ & _ & _ & _ & ? & [=] & _)]].
  cbn [negb Z.eqb]. rewrite getentryoff_v2 by done.
  unfold eid_at. cbn [set_valid set_eid_table ad_eid]. set (r := ade_off _).
  destruct (Z.eqb_spec r 0); [split; [done|by intros (_ & _ & _ & _ & _ & ? & [= <-] & ? & _)]|].
  destruct (Z.ltb_spec (Z.of_nat 1024) r); [split; [done|intros (_ & _ & _ & _ & _ & ? & [= <-] & _ & Hr & _); fold r in Hr; lia]|].
  cbn [orb]. destruct (Z.ltb_spec (Z.of_nat (length got)) r); [split; [done|intros (_ & _ & _ & _ & _ & ? & [= <-] & _ & Hr & _); fold r in Hr; lia]|].
  rewrite Hm, Hve. split.
  - intros [= <-]. split; [lia|]. do 3 (split; [done|]). split; [lia|]. exists t. done.
  - intros (_ & _ & _ & _ & _ & ? & [= <-] & _ & _ & ->). done.
Qed.

(** C25: The parser of metadata files accepts exactly the well-formed headers.  For
    every sequence of at most 741 bytes that a read can return, the call succeeds if
    and only if the bytes are a version 2 header: the magic number and version, any
    filler, a count of at most 16, that many descriptors of known entry IDs, each
    entry but the resource fork inside the bytes read, and a resource fork that
    starts inside them and not at 0.  The table then holds those descriptors, a
    later one for the same ID winning, and nothing of what the buffer held before. *)
Theorem ad_header_read_exact HAVE_EAFD ad got size ad' :
  ad_vers ad = AD_VERSION2 -> Forall byte got -> (length got <= AD_DATASZ2)%nat ->
  ad_header_read HAVE_EAFD ad (Some got) (Some size) = ((0, None), ad') <->
  exists filler es rest, length filler = 16%nat /\ (length es <= 16)%nat /\ got = header_bytes AD_VERSION2 filler es rest /\
    Forall (entry_in (Z.of_nat (length got))) es /\
    let t := enter_all (ad_eid ad) es in
    let rfork := ade_off (default (Ade 0 0) (t !! ADEID_RFORK)) in
    rfork <> 0 /\ rfork <= Z.of_nat (length got) /\ ad' = read_v2 ad got t size.
Proof.
  intros Hv Hb Hlen. rewrite header_read_checks by done. change (blit 0 got (ad_data ad)) with (got ++ drop (length got) (ad_data ad)).
  set (tl := drop (length got) (ad_data ad)). split.
  - intros (H26 & Hm & Hve & Hn & Hl & t & Hp & Hr0 & Hr & ->).
    assert (0 <= rd16 (drop ADEDOFF_NENTRIES (got ++ tl))) as H0.
    { unfold ADEDOFF_NENTRIES. rewrite drop_app_le, rd16_app by (rewrite ?length_drop; lia). by apply rd16_range, Forall_drop. }
    destruct (proj1 (parse_header got tl (Z.of_nat (length got)) (Z.to_nat (rd16 (drop ADEDOFF_NENTRIES (got ++ tl)))) (ad_eid ad) t
      Hb ltac:(lia) ltac:(lia))) as (filler & es & rest & Hf & Hes & Hg & Hin & ->); [by rewrite Z2Nat.id by lia|].
    exists filler, es, rest. split; [done|]. split; [lia|]. done.
  - intros (filler & es & rest & Hf & Hes & Hg & Hin & Hr0 & Hr & ->).
    assert (26 + 12 * length es <= length got)%nat as Hl.
    { rewrite Hg. unfold header_bytes. rewrite !length_app, descs_length, Hf. cbn. lia. }
    destruct (proj2 (parse_header got tl (Z.of_nat (length got)) (length es) (ad_eid ad) (enter_all (ad_eid ad) es) Hb Hl ltac:(lia)))
      as (Hm & Hve & Hn & Hp); [by exists filler, es, rest|].
    rewrite Hn. split; [lia|]. do 2 (split; [done|]). do 2 (split; [lia|]). exists (enter_all (ad_eid ad) es). by rewrite Nat2Z.id.
Qed.

(** ** Pointers into the buffer *)

Lemma enter_all_lookup es : forall t eid e, enter_all t es !! eid = Some e -> t !! eid = Some e \/ (eid, e) ∈ es.
Proof.
  induction es as [|[i x] es IH]; intros t eid e H; [by left|]. cbn in H. apply IH in H as [H|H]; [|right; by right].
  unfold enter in H. cbn in H. apply list_lookup_insert_Some in H as [(-> & <- & _)|[_ H]]; [right; by left|by left].
Qed.

Lemma enter_all_length es : forall t, length (enter_all t es) = length t.
Proof. induction es as [|e es IH]; intros t; [done|]. cbn. rewrite IH. apply length_insert. Qed.

(** The length the layout gives an entry. *)
Definition layout_len (eid : nat) : Z := (default (0, false, false) (ad_checks !! eid)).1.1.

Lemma no_wrap bufsize off len :
  (if u32 (off + len) <? off then false else if bufsize <? u32 (off + len) then false else true) = true ->
  0 <= off < 2 ^ 32 -> 0 < len < 2 ^ 32 -> off + len <= bufsize.
Proof.
  intros H Ho Hl. unfold wrap in H. destruct (Z.ltb_spec ((off + len) mod 2 ^ 32) off); [done|].
  destruct (Z.ltb_spec bufsize ((off + len) mod 2 ^ 32)); [done|]. zmod.
Qed.

(** The size check leaves room for the entry's length and for the layout's. *)
Lemma check_size_room eid bufsize off len :
  ad_entry_check_size eid bufsize off len = true -> 0 <= off < 2 ^ 32 -> 0 < len < 2 ^ 32 ->
  eid <> ADEID_DFORK -> eid <> ADEID_RFORK -> off + Z.max len (layout_len eid) <= bufsize.
Proof.
  unfold ad_entry_check_size, layout_len. intros H Ho Hl Hd Hr. destruct (ADEID_MAX <=? eid)%nat; [done|].
  destruct (Z.eqb_spec len 0); [lia|].
  assert ((default (0, false, false) (ad_checks !! eid)).1.1 <> -1 /\ (default (0, false, false) (ad_checks !! eid)).1.1 < 2 ^ 31) as [Hm Hs].
  { clear -Hd Hr. unfold ADEID_DFORK, ADEID_RFORK in *. do 20 (destruct eid as [|eid]; [first [exfalso; lia|done]|]). done. }
  destruct (default _ _) as [[expected fixed] minimum]. cbn [fst] in *.
  destruct (expected =? 0); [done|]. destruct (Z.eqb_spec expected (-1)); [done|].
  destruct fixed.
  - destruct (Z.eqb_spec expected len) as [->|]; [|done]. rewrite Z.max_id. by apply no_wrap.
  - destruct minimum.
    + destruct (Z.ltb_spec len expected); [done|]. rewrite Z.max_l by done. by apply no_wrap.
    + destruct (Z.ltb_spec expected len); [done|]. rewrite Z.max_r by done. apply no_wrap; [done|done|lia].
Qed.

(** The table of an [adouble] whose entries are 32 bit values and, the resource fork
    apart, inside [valid] bytes. *)
Definition table_in (valid : Z) (t : list ad_entry_t) : Prop :=
  forall eid e, t !! eid = Some e ->
    0 <= ade_off e < 2 ^ 32 /\ 0 <= ade_len e < 2 ^ 32 /\ (eid <> ADEID_RFORK -> ade_off e + ade_len e <= valid).

Definition fresh_table : list ad_entry_t := replicate ADEID_MAX (Ade 0 0).

Lemma fresh_table_in valid : 0 <= valid -> table_in valid fresh_table.
Proof. intros H eid e [-> _]%lookup_replicate. cbn. lia. Qed.

Lemma enter_all_in valid t es : table_in valid t -> Forall (entry_in valid) es -> table_in valid (enter_all t es).
Proof.
  intros Ht Hes eid e He. apply enter_all_lookup in He as [He|He]; [by apply Ht|].
  rewrite Forall_forall in Hes. apply Hes in He. destruct e as [off len]. destruct He as (_ & Ho & Hl & Hi). done.
Qed.

Lemma table_at valid ad eid : table_in valid (ad_eid ad) -> 0 <= valid ->
  0 <= ade_off (eid_at ad eid) < 2 ^ 32 /\ 0 <= ade_len (eid_at ad eid) < 2 ^ 32 /\
  (eid <> ADEID_RFORK -> ade_off (eid_at ad eid) + ade_len (eid_at ad eid) <= valid).
Proof. intros Ht Hv. unfold eid_at. destruct (ad_eid ad !! eid) eqn:E; [by apply Ht|]. cbn. lia. Qed.

(** A pointer from [ad_entry], for a table of 32 bit values. *)
Lemma ad_entry_room HAVE_EAFD ad eid off valid : table_in valid (ad_eid ad) -> 0 <= valid -> ad_entry HAVE_EAFD ad eid = Some off ->
  off = ade_off (eid_at ad eid) /\ 0 < off /\
  (eid <> ADEID_DFORK -> eid <> ADEID_RFORK -> 0 < ade_len (eid_at ad eid) ->
   off + Z.max (ade_len (eid_at ad eid)) (layout_len eid) <= valid_data_len ad).
Proof.
  intros Ht Hv H. pose proof (table_at valid ad eid Ht Hv) as (Ho & Hl & _). unfold ad_entry, ad_entry_fits in H.
  destruct (Z.eqb_spec (ad_getentryoff HAVE_EAFD ad eid) 0) as [|Hn]; [done|]. cbn [negb andb] in H.
  assert (ad_getentryoff HAVE_EAFD ad eid = ade_off (eid_at ad eid)) as E.
  { clear -Hn. unfold ad_getentryoff in *. destruct (_ =? _); [done|]. destruct (_ =? _)%nat; [done|].
    destruct (_ =? _)%nat; [|done]. by destruct HAVE_EAFD. }
  rewrite E in *. unfold ad_getentrylen, wrap in H. rewrite !Z.mod_small in H by done.
  destruct (ad_entry_check_size _ _ _ _) eqn:Hc; [|done]. cbn in H. injection H as <-. split; [done|]. split; [lia|].
  intros Hd Hr Hlen. apply (check_size_room _ _ _ _ Hc); done || lia.
Qed.

(** C24: Whatever bytes a metadata file holds, no pointer into the metadata buffer
    leads outside of it.  When the read of at most 741 bytes into a fresh [adouble] of
    the 1024 byte buffer succeeds, the offset of every pointer that [ad_entry] hands out
    afterwards lies behind the buffer's start, it and the stored length of the entry are inside the bytes
    that were read, and an entry that is not empty and not a fork also has room for the length the layout
    gives its kind, which is the length its readers copy. *)
Theorem ad_header_read_safe HAVE_EAFD ad got size ad' eid off :
  ad_vers ad = AD_VERSION2 -> Forall byte got -> (length got <= AD_DATASZ2)%nat ->
  ad_eid ad = fresh_table -> length (ad_data ad) = AD_DATASZ_MAX ->
  ad_header_read HAVE_EAFD ad (Some got) (Some size) = ((0, None), ad') ->
  ad_entry HAVE_EAFD ad' eid = Some off ->
  let valid := Z.of_nat (length got) in
  length (ad_data ad') = AD_DATASZ_MAX /\ 0 < off <= valid /\
  (eid <> ADEID_RFORK -> off + ad_getentrylen ad' eid <= valid) /\
  (eid <> ADEID_DFORK -> eid <> ADEID_RFORK -> 0 < ad_getentrylen ad' eid -> off + layout_len eid <= valid).
Proof.
  intros Hv Hb Hlen Ht Hd Hread He valid.
  apply header_read_checks in Hread as (H26 & Hm & Hve & Hn & Hl & t & Hp & Hr0 & Hr & ->); [|done|done].
  set (buf := blit 0 got (ad_data ad)) in *. assert (table_in valid t) as Hin.
  { change buf with (got ++ drop (length got) (ad_data ad)) in Hp, Hl. unfold ADEDOFF_NENTRIES, AD_HEADER_LEN in *.
    rewrite drop_app_le in Hl by lia. rewrite !drop_app_le, rd16_app in Hp by (rewrite ?length_drop; lia).
    rewrite rd16_app in Hl by (rewrite length_drop; lia). pose proof (rd16_range (drop 24 got) (Forall_drop _ 24 _ Hb)).
    rewrite parse_loop_front in Hp by (rewrite length_drop; lia).
    apply parse_loop_exact in Hp as (es & rest & _ & _ & Hes & ->); [|by apply Forall_drop|rewrite length_drop; lia].
    apply enter_all_in; [rewrite Ht; apply fresh_table_in; lia|done]. }
  pose proof (table_at valid (read_v2 ad got t size) eid Hin ltac:(lia)) as (Ho & Hle & Hi).
  apply (ad_entry_room _ _ _ _ valid) in He as (-> & Hpos & Hroom); [|done|lia]. unfold ad_getentrylen.
  split; [by cbn; rewrite blit_buffer by (rewrite Hd; unfold AD_DATASZ2, AD_DATASZ_MAX in *; lia)|].
  split; [split; [done|]|split; [done|]].
  - destruct (decide (eid = ADEID_RFORK)) as [->|Hne]; [done|]. specialize (Hi Hne). lia.
  - intros H1 H2 H3. specialize (Hroom H1 H2 H3). cbn [read_v2 valid_data_len] in Hroom. lia.
Qed.

(** ** Round trips *)

(** The table with the entries that are not kept empty. *)
Definition kept_table (keep : nat -> ad_entry_t -> bool) (i : nat) (t : list ad_entry_t) : list ad_entry_t :=
  imap (fun j e => if keep (i + j)%nat e then e else Ade 0 0) t.

Lemma kept_table_cons keep i e t : kept_table keep i (e :: t) = (if keep i e then e else Ade 0 0) :: kept_table keep (S i) t.
Proof. unfold kept_table. rewrite imap_cons, Nat.add_0_r. f_equal. apply imap_ext. intros j x _. cbn. by rewrite Nat.add_succ_r. Qed.

(** Entering the descriptors of a table into an empty one gives the table back. *)
Lemma enter_kept keep t : forall pre,
  enter_all (pre ++ replicate (length t) (Ade 0 0)) (kept keep (length pre) t) = pre ++ kept_table keep (length pre) t.
Proof.
  induction t as [|e t IH]; intros pre; [done|]. cbn [kept length replicate]. rewrite kept_table_cons.
  assert (forall x, enter_all (pre ++ x :: replicate (length t) (Ade 0 0)) (kept keep (S (length pre)) t) =
    pre ++ x :: kept_table keep (S (length pre)) t) as H.
  { intros x. specialize (IH (pre ++ [x])). rewrite length_app, Nat.add_1_r, <- !app_assoc in IH. exact IH. }
  destruct (keep (length pre) e); [|apply H]. cbn [app enter_all foldl]. unfold enter_all in H. rewrite <- H. f_equal. unfold enter. cbn [fst snd].
  rewrite insert_app_r_alt by lia. by rewrite Nat.sub_diag.
Qed.

Lemma kept_lookup keep t : forall i eid e, (eid, e) ∈ kept keep i t -> (i <= eid)%nat /\ t !! (eid - i)%nat = Some e /\ keep eid e = true.
Proof.
  induction t as [|x t IH]; intros i eid e; cbn [kept]; [by intros ?%elem_of_nil|]. rewrite elem_of_app. intros [H|H].
  - destruct (keep i x) eqn:Hk; [|by apply elem_of_nil in H]. apply list_elem_of_singleton in H. injection H as -> ->.
    split; [lia|]. by rewrite Nat.sub_diag.
  - apply IH in H as (Hle & Hl & Hk). split; [lia|]. replace (eid - i)%nat with (S (eid - S i)) by lia. done.
Qed.

(** The state of a header that can be written: the identification, the buffer, and a
    table inside [valid] bytes whose entry 0 is unused. *)
Record writable (valid : Z) (ad : adouble) : Prop := {
  w_magic : ad_magic ad = AD_MAGIC;
  w_version : ad_version ad = AD_VERSION2;
  w_bytes : Forall byte (ad_data ad);
  w_data : length (ad_data ad) = AD_DATASZ_MAX;
  w_table : length (ad_eid ad) = ADEID_MAX;
  w_zero : ade_off (eid_at ad 0) = 0;
  w_in : table_in valid (ad_eid ad)
}.

Lemma kept_entries_in valid ad keep : writable valid ad -> (forall e, ade_off e = 0 -> keep 0%nat e = false) ->
  Forall (entry_in valid) (kept keep 0 (ad_eid ad)).
Proof.
  intros [_ _ _ _ Hlen Hz Hin] Hk. apply Forall_forall. intros [eid e] H. apply kept_lookup in H as (_ & Hl & Hkeep).
  rewrite Nat.sub_0_r in Hl. pose proof (lookup_lt_Some _ _ _ Hl). specialize (Hin eid e Hl). destruct e as [off len].
  destruct Hin as (Ho & Hle & Hi). split; [|done]. unfold valid_eid. split; [|lia]. destruct eid; [|lia].
  unfold eid_at in Hz. rewrite Hl in Hz. cbn in Hz. by rewrite Hk in Hkeep.
Qed.

Lemma Forall_byte_be32 v : Forall byte (be32 v).
Proof. unfold be32. repeat constructor; rewrite mask_ff; zmod. Qed.

Lemma Forall_byte_be16 v : Forall byte (be16 v).
Proof. unfold be16. repeat constructor; rewrite mask_ff; zmod. Qed.

Lemma Forall_byte_descs es : Forall byte (descs es).
Proof.
  unfold descs. apply Forall_concat, Forall_fmap, Forall_true. intros [eid e]. unfold compose, desc.
  rewrite !Forall_app. auto using Forall_byte_be32.
Qed.

(** The first [len] bytes of a rebuilt buffer are a header of the kept entries, and
    behind the descriptors they are what they were. *)
Lemma rebuild_header valid ad keep (len : nat) :
  let es := kept keep 0 (ad_eid ad) in
  writable valid ad -> (26 + 12 * length es <= len <= AD_DATASZ_MAX)%nat ->
  exists filler, length filler = 16%nat /\
    take len (ad_data (rebuild keep ad)) = header_bytes AD_VERSION2 filler es (drop (26 + 12 * length es) (take len (ad_data ad))) /\
    Forall byte (take len (ad_data (rebuild keep ad))) /\ length (take len (ad_data (rebuild keep ad))) = len.
Proof.
  intros es [Hm Hv Hb Hd _ _ _] Hlen. destruct (rebuild_data keep ad) as (filler & rest & Hf & Hfill & (old & Ho & Hol) & E).
  { fold es. rewrite Hd. lia. }
  fold es in Hol, E. rewrite Hm, Hv in E. exists filler. split; [done|].
  assert (length (ad_data (rebuild keep ad)) = AD_DATASZ_MAX) as HL.
  { rewrite E, !length_app, Hf, descs_length. apply (f_equal length) in Ho. rewrite Hd, length_app in Ho. cbn. unfold AD_DATASZ_MAX in *. lia. }
  assert (Forall byte (ad_data (rebuild keep ad))) as HB.
  { rewrite E, !Forall_app. split; [apply Forall_byte_be32|]. split; [apply Forall_byte_be32|].
    split; [rewrite Hfill; by apply Forall_take, Forall_drop|]. split; [apply Forall_byte_be16|]. split; [apply Forall_byte_descs|].
    rewrite Ho in Hb. by apply Forall_app in Hb as [_ ?]. }
  split; [|split; [by apply Forall_take|rewrite length_take; lia]].
  assert (drop (26 + 12 * length es) (take len (ad_data ad)) = take (len - (26 + 12 * length es)) rest) as ->.
  { rewrite Ho, take_app_ge by lia. rewrite drop_app_length' by done. by rewrite Hol. }
  rewrite E. unfold header_bytes. set (n := (len - _)%nat).
  by rewrite (take_past _ _ len (4 + (16 + (2 + (12 * length es + n))))), (take_past _ _ _ (16 + (2 + (12 * length es + n)))),
    (take_past _ _ _ (2 + (12 * length es + n))), (take_past _ _ _ (12 * length es + n)), (take_past _ _ _ n)
    by (rewrite ?Hf, ?descs_length, ?be32_length, ?be16_length; lia).
Qed.

Lemma getentryoff_rebuild HAVE_EAFD keep ad eid : ad_getentryoff HAVE_EAFD (rebuild keep ad) eid = ad_getentryoff HAVE_EAFD ad eid.
Proof. unfold rebuild. by destruct (rebuild_loop _ _ _ _ _ _). Qed.

Lemma kept_table_lookup keep t eid e : t !! eid = Some e -> keep eid e = true -> kept_table keep 0 t !! eid = Some e.
Proof. intros H Hk. unfold kept_table. rewrite list_lookup_imap, H. cbn. by rewrite Hk. Qed.

Lemma enter_kept_fresh keep t : length t = ADEID_MAX -> enter_all fresh_table (kept keep 0 t) = kept_table keep 0 t.
Proof. intros H. unfold fresh_table. rewrite <- H. exact (enter_kept keep t []). Qed.

(** A header in the buffer: the part behind the descriptors. *)
Lemma buffer_rest version filler es rest d : length filler = 16%nat ->
  let h := header_bytes version filler es rest in
  drop (26 + 12 * length es) (take (length h) (blit 0 h d)) = rest.
Proof.
  intros Hf h. rewrite blit_0, take_app_length. unfold h, header_bytes.
  rewrite (drop_past _ _ _ (22 + 12 * length es)), (drop_past _ _ _ (18 + 12 * length es)), (drop_past _ _ _ (2 + 12 * length es)),
    (drop_past _ _ _ (12 * length es)), (drop_past _ _ _ 0) by (rewrite ?Hf, ?descs_length, ?be32_length, ?be16_length; lia). done.
Qed.

(** C26: What is written to a metadata file is what is read back.  For every version 2
    header in memory with at most 16 used entries that lie in front of the resource
    fork, which starts behind the descriptors and at most at byte 741, the bytes that the builder
    prepares, as many as it returns, are read back into a fresh [adouble] with
    success: the table has every used entry as it was and the others empty, the length of the
    resource fork is the file's size less the header, and the metadata behind the descriptors is
    byte for byte what it was. *)
Theorem ad_header_v2_round_trip HAVE_EAFD ad ad0 size :
  let len := Z.to_nat (ade_off (eid_at ad ADEID_RFORK)) in
  let front := (26 + 12 * length (kept keep_v2 0 (ad_eid ad)))%nat in
  ad_vers ad = AD_VERSION2 -> ad_vers ad0 = AD_VERSION2 -> ad_eid ad0 = fresh_table ->
  writable (Z.of_nat len) ad -> (front <= len <= AD_DATASZ2)%nat -> (length (kept keep_v2 0 (ad_eid ad)) <= 16)%nat ->
  let '(n, ad1) := ad_rebuild_adouble_header_v2 HAVE_EAFD ad in
  n = Z.of_nat len /\
  exists ad2, ad_header_read HAVE_EAFD ad0 (Some (take len (ad_data ad1))) (Some size) = ((0, None), ad2) /\
    ad_eid ad2 = kept_table keep_v2 0 (ad_eid ad) /\ ad_rlen ad2 = size - n /\ valid_data_len ad2 = n /\
    drop front (take len (ad_data ad2)) = drop front (take len (ad_data ad)).
Proof.
  intros len front Hv Hv0 H0 Hw Hlen Hc. set (es := kept keep_v2 0 (ad_eid ad)) in *.
  pose proof (table_at _ ad ADEID_RFORK (w_in _ _ Hw) ltac:(lia)) as (Hr & _).
  assert (0 < ade_off (eid_at ad ADEID_RFORK)) as Hpos by (unfold front, len in Hlen; lia).
  unfold ad_rebuild_adouble_header_v2. rewrite getentryoff_rebuild, getentryoff_v2 by done.
  destruct (rebuild_header _ ad keep_v2 len Hw) as (filler & Hf & Hh & Hb & Hl).
  { fold es front. unfold AD_DATASZ2, AD_DATASZ_MAX in *. lia. }
  fold es front in Hh. set (got := take len (ad_data (rebuild keep_v2 ad))) in *. split; [lia|].
  assert (26 + 12 * length es <= length got)%nat as Hroom by (unfold front in *; lia).
  destruct (proj2 (parse_header got (drop (length got) (ad_data ad0)) (Z.of_nat len) (length es) fresh_table
    (kept_table keep_v2 0 (ad_eid ad)) Hb Hroom ltac:(lia))) as (Hm & Hve & Hn & Hp).
  { exists filler, es, (drop front (take len (ad_data ad))). do 3 (split; [done|]).
    split; [apply kept_entries_in; [done|]; intros e He; unfold keep_v2; by rewrite He|].
    symmetry. apply enter_kept_fresh, Hw. }
  assert (kept_table keep_v2 0 (ad_eid ad) !! ADEID_RFORK = Some (eid_at ad ADEID_RFORK)) as Hrf.
  { destruct (lookup_lt_is_Some_2 (ad_eid ad) ADEID_RFORK) as [e He]; [rewrite (w_table _ _ Hw); cbv; lia|].
    assert (eid_at ad ADEID_RFORK = e) as Hat by (unfold eid_at; by rewrite He). rewrite Hat.
    apply kept_table_lookup; [done|]. unfold keep_v2. apply negb_true_iff, Z.eqb_neq. rewrite <- Hat. lia. }
  exists (read_v2 ad0 got (kept_table keep_v2 0 (ad_eid ad)) size). split; [|split; [done|]].
  - apply header_read_checks; [done|lia|]. change (blit 0 got (ad_data ad0)) with (got ++ drop (length got) (ad_data ad0)).
    rewrite Hn, Nat2Z.id. split; [lia|]. do 2 (split; [done|]). do 2 (split; [lia|]).
    exists (kept_table keep_v2 0 (ad_eid ad)). rewrite H0, Hrf, Hl. rewrite Hl in Hp. split; [done|]. change (default _ (Some ?x)) with x. split; [lia|]. split; [lia|done].
  - cbn [read_v2 ad_rlen valid_data_len ad_data]. rewrite Hrf, Hl. change (default _ (Some ?x)) with x. split; [lia|]. split; [lia|].
    rewrite <- Hl at 1. rewrite Hh. by apply buffer_rest.
Qed.

(** The entries of an extended attribute. *)
Definition ea_eids : list nat :=
  [ADEID_FINDERI; ADEID_COMMENT; ADEID_FILEDATESI; ADEID_AFPFILEI; ADEID_PRIVDEV; ADEID_PRIVINO; ADEID_PRIVSYN; ADEID_PRIVID].

Lemma ad_entry_kept HAVE_EAFD ad new eid :
  ad_eid new = kept_table keep_ea 0 (ad_eid ad) -> ad_vers new = ad_vers ad -> valid_data_len new = valid_data_len ad ->
  eid <> ADEID_DFORK -> eid <> ADEID_RFORK -> ad_entry HAVE_EAFD ad eid <> None -> ad_entry HAVE_EAFD new eid <> None.
Proof.
  intros Ht Hv Hva Hd Hr H. assert (eid_at new eid = eid_at ad eid) as E.
  { unfold eid_at. rewrite Ht. unfold kept_table. rewrite list_lookup_imap. destruct (ad_eid ad !! eid) as [e|] eqn:He; [|done]. cbn.
    destruct (keep_ea eid e) eqn:Hk; [done|]. unfold keep_ea in Hk. apply Nat.eqb_neq in Hr as Hr'. rewrite Hr', orb_false_r in Hk.
    apply negb_false_iff, Z.eqb_eq in Hk. assert (ade_off (eid_at ad eid) = 0) as Hz by (unfold eid_at; rewrite He; exact Hk).
    destruct H. unfold ad_entry, ad_entry_fits, ad_getentryoff. rewrite Hr', Hz. by destruct (ad_vers ad =? AD_VERSION2), (eid =? ADEID_DFORK)%nat. }
  unfold ad_entry, ad_entry_fits, ad_getentryoff, ad_getentrylen in *. rewrite E, Hv, Hva. done.
Qed.

(** What is written to the extended attribute is what is read back.  For every
    header in memory of the EA format, with its eight entries in use and each one
    accessible, the 402 bytes that the builder prepares are read back into a fresh
    [adouble] with success: the table has the eight entries as they were, with the
    resource fork's offset set to the size of a ._ header where the system keeps
    the fork there, and the metadata behind the descriptors is byte for byte what it was. *)
Theorem ad_header_ea_round_trip HAVE_EAFD ad ad0 path create :
  ad_vers ad = AD_VERSION_EA -> ad_vers ad0 = AD_VERSION_EA -> ad_eid ad0 = fresh_table ->
  writable (Z.of_nat AD_DATASZ_EA) ad -> valid_data_len ad = Z.of_nat AD_DATASZ_EA ->
  length (kept keep_ea 0 (ad_eid ad)) = ADEID_NUM_EA -> Forall (fun eid => ad_entry HAVE_EAFD ad eid <> None) ea_eids ->
  let '(n, ad1) := ad_rebuild_adouble_header_ea ad in
  n = Z.of_nat AD_DATASZ_EA /\
  exists ad2, ad_header_read_ea HAVE_EAFD ad0 (inr (take AD_DATASZ_EA (ad_data ad1))) path create = ((0, None), ad2, false) /\
    ad_eid ad2 = (let t := kept_table keep_ea 0 (ad_eid ad) in if HAVE_EAFD then t else set_off t ADEID_RFORK ADEDOFF_RFORK_OSX) /\
    valid_data_len ad2 = n /\
    drop 122 (take AD_DATASZ_EA (ad_data ad2)) = drop 122 (take AD_DATASZ_EA (ad_data ad)).
Proof.
  intros Hv Hv0 H0 Hw Hval Hc Hes. set (es := kept keep_ea 0 (ad_eid ad)) in *. cbn [ad_rebuild_adouble_header_ea]. split; [done|].
  destruct (rebuild_header _ ad keep_ea AD_DATASZ_EA Hw) as (filler & Hf & Hh & Hb & Hl).
  { fold es. rewrite Hc. cbv. lia. }
  fold es in Hh. rewrite Hc in Hh. set (got := take AD_DATASZ_EA (ad_data (rebuild keep_ea ad))) in *.
  destruct (proj2 (parse_header got (drop (length got) (ad_data ad0)) (Z.of_nat (length got)) 8 fresh_table
    (kept_table keep_ea 0 (ad_eid ad)) Hb ltac:(rewrite Hl; cbv; lia) ltac:(lia))) as (Hm & Hve & Hn & Hp).
  { exists filler, es, (drop (26 + 12 * ADEID_NUM_EA) (take AD_DATASZ_EA (ad_data ad))). do 3 (split; [done|]).
    split; [rewrite Hl; apply kept_entries_in; [done|]; intros e He; unfold keep_ea; by rewrite He|].
    symmetry. apply enter_kept_fresh, Hw. }
  assert (drop 122 (take AD_DATASZ_EA (blit 0 got (ad_data ad0))) = drop 122 (take AD_DATASZ_EA (ad_data ad))) as Hrest.
  { rewrite <- Hl at 1. rewrite Hh. pose proof (buffer_rest AD_VERSION2 filler es) as Hbr. rewrite Hc in Hbr. by apply Hbr. }
  rewrite blit_0, Hl in Hrest. unfold ad_header_read_ea, parse_entries. cbn [set_data set_ids ad_data ad_magic ad_version ad_eid].
  change (blit 0 got (ad_data ad0)) with (got ++ drop (length got) (ad_data ad0)). rewrite Hm, Hve, Hn.
  change (Z.to_nat (Z.of_nat 8)) with 8%nat. rewrite H0, Hp, Hl.
  change (Z.of_nat AD_DATASZ_EA <? 1) with false. rewrite Z.ltb_irrefl. cbn [negb orb Z.eqb Pos.eqb AD_MAGIC AD_VERSION2].
  set (new := set_valid _ _). fold ea_eids.
  assert (existsb (fun eid => bool_decide (ad_entry HAVE_EAFD new eid = None)) ea_eids = false) as ->.
  { apply not_true_iff_false. rewrite existsb_exists. intros (eid & Hin & Hb0%bool_decide_eq_true). revert Hb0. apply list_elem_of_In in Hin as Hin'.
    apply (ad_entry_kept HAVE_EAFD ad new); [done|rewrite Hv; exact Hv0|by rewrite Hval| | |].
    - intros ->. clear -Hin. cbv in Hin. intuition discriminate.
    - intros ->. clear -Hin. cbv in Hin. intuition discriminate.
    - by apply (proj1 (Forall_forall _ _) Hes). }
  change (ad_vers new) with (ad_vers ad0). rewrite Hv0, Z.eqb_refl, andb_true_r.
  eexists. split; [reflexivity|]. destruct HAVE_EAFD; cbn [negb]; (do 2 (split; [done|])); exact Hrest.
Qed.

(** ** Copies between headers *)

Section copies.
Context (HAVE_EAFD : bool) (add ads : adouble).

Notation moved := (ad_copy_header_entry HAVE_EAFD add ads).
Notation dst := (ad_getentryoff HAVE_EAFD add).

(** The byte [p] belongs to a transferred entry of [l]. *)
Definition written (l : list nat) (p : nat) : Prop :=
  exists eid src len, eid ∈ l /\ moved eid = Some (src, len) /\ dst eid <= Z.of_nat p < dst eid + len.

(** The destinations of two transferred entries have no byte in common. *)
Definition separate : Prop :=
  forall i j src1 len1 src2 len2, i <> j -> moved i = Some (src1, len1) -> moved j = Some (src2, len2) ->
    dst i + len1 <= dst j \/ dst j + len2 <= dst i.

(** The transfers stay inside both buffers. *)
Definition transfers_fit : Prop :=
  forall eid src len, moved eid = Some (src, len) ->
    0 < src /\ 0 < len /\ src + len <= Z.of_nat (length (ad_data ads)) /\ 0 <= dst eid /\ dst eid + len <= Z.of_nat (length (ad_data add)).

Record same_layout (a : adouble) : Prop := {
  sl_vers : ad_vers a = ad_vers add;
  sl_table : length (ad_eid a) = length (ad_eid add);
  sl_offs : forall eid, ade_off (eid_at a eid) = ade_off (eid_at add eid);
  sl_data : length (ad_data a) = length (ad_data add)
}.

Lemma same_layout_moves a : same_layout a ->
  (forall eid, ad_copy_header_entry HAVE_EAFD a ads eid = moved eid) /\ (forall eid, ad_getentryoff HAVE_EAFD a eid = dst eid).
Proof.
  intros [Hv _ Ho _]. split; intros eid.
  - unfold ad_copy_header_entry. by rewrite Ho.
  - unfold ad_getentryoff. by rewrite Hv, Ho.
Qed.

Lemma set_len_at a eid len j : (eid < length (ad_eid a))%nat -> forall d,
  eid_at (set_eid_table (set_len (ad_eid a) eid len) (set_data d a)) j =
    if decide (j = eid) then Ade (ade_off (eid_at a j)) len else eid_at a j.
Proof.
  intros He d. unfold eid_at, set_len. cbn. case_decide as Hj.
  - subst. rewrite list_lookup_alter. destruct (lookup_lt_is_Some_2 _ _ He) as [e E]. rewrite E. by rewrite decide_True.
  - by rewrite list_lookup_alter_ne by done.
Qed.

(** The state in the middle of the copy loop: the entries of [l] are done. *)
Record copied (l : list nat) (a : adouble) : Prop := {
  co_layout : same_layout a;
  co_bytes : forall eid src len, eid ∈ l -> moved eid = Some (src, len) ->
    ade_len (eid_at a eid) = len /\
    forall k : nat, Z.of_nat k < len -> nth (Z.to_nat (dst eid) + k) (ad_data a) 0 = nth (Z.to_nat src + k) (ad_data ads) 0;
  co_frame : forall p, ~ written l p -> nth p (ad_data a) 0 = nth p (ad_data add) 0;
  co_kept : forall eid, eid ∉ l \/ moved eid = None -> eid_at a eid = eid_at add eid
}.

Lemma copied_step l a eid : transfers_fit -> separate -> (eid < length (ad_eid add))%nat -> eid ∉ l ->
  copied l a -> copied (l ++ [eid]) (copy_entry HAVE_EAFD ads a eid).
Proof.
  intros Hfit Hsep He Hnew [Hl Hb Hf Hk]. destruct (same_layout_moves a Hl) as [Hm Hd].
  unfold copy_entry. rewrite Hm, Hd. destruct (moved eid) as [[src len]|] eqn:E.
  - destruct (Hfit _ _ _ E) as (Hs0 & Hl0 & Hs & Hd0 & Hdl). destruct Hl as [Hv Ht Ho Hda].
    set (bs := take (Z.to_nat len) (drop (Z.to_nat src) (ad_data ads))).
    assert (length bs = Z.to_nat len) as Hbs by (unfold bs; rewrite length_take, length_drop; lia).
    assert (Z.to_nat (dst eid) + length bs <= length (ad_data a))%nat as Hroom by (rewrite Hda; lia).
    cbn [set_data ad_eid]. set (d := blit _ _ _). split.
    + split; [done|by cbn; unfold set_len; rewrite length_alter| |by cbn; unfold d; rewrite length_blit].
      intros j. rewrite set_len_at by (rewrite Ht; done). case_decide; cbn; [by rewrite Ho|by rewrite Ho].
    + intros j src' len' Hj Hmj. rewrite set_len_at by (rewrite Ht; done). cbn [set_eid_table set_data ad_data].
      apply elem_of_app in Hj as [Hj|Hj%list_elem_of_singleton].
      * assert (j <> eid) as Hne by (intros ->; done). rewrite decide_False by done. destruct (Hb _ _ _ Hj Hmj) as [Hlj Hbj].
        split; [done|]. intros k Hkl. unfold d. rewrite nth_blit by done. rewrite decide_False; [by apply Hbj|].
        destruct (Hfit _ _ _ Hmj) as (_ & _ & _ & ? & _). destruct (Hsep _ _ _ _ _ _ Hne Hmj E); lia.
      * subst j. rewrite Hmj in E. injection E as -> ->. rewrite decide_True by done. split; [done|]. intros k Hkl.
        unfold d. rewrite nth_blit, decide_True by (done || lia). unfold bs. rewrite nth_window by lia. f_equal. lia.
    + intros p Hp. cbn [set_eid_table set_data ad_data]. unfold d. rewrite nth_blit by done. rewrite decide_False.
      * apply Hf. intros (j & s' & l' & Hj & Hr). apply Hp. exists j, s', l'. split; [apply elem_of_app; by left|done].
      * intros Hin. apply Hp. exists eid, src, len. split; [apply elem_of_app; right; by apply list_elem_of_singleton|]. split; [done|lia].
    + intros j Hj. rewrite set_len_at by (rewrite Ht; done). rewrite decide_False; [apply Hk|].
      * destruct Hj as [Hj|Hj]; [left; by rewrite elem_of_app in Hj; tauto|by right].
      * intros ->. destruct Hj as [Hj|Hj]; [|congruence]. apply Hj, elem_of_app. right. by apply list_elem_of_singleton.
  - split; [done| | |].
    + intros j src len Hj Hmj. apply elem_of_app in Hj as [Hj|Hj%list_elem_of_singleton]; [by apply Hb|congruence].
    + intros p Hp. apply Hf. intros (j & s' & l' & Hj & Hr). apply Hp. exists j, s', l'. split; [apply elem_of_app; by left|done].
    + intros j Hj. apply Hk. destruct Hj as [Hj|Hj]; [left; rewrite elem_of_app in Hj; tauto|by right].
Qed.
End copies.

Lemma copied_all HAVE_EAFD add ads l : transfers_fit HAVE_EAFD add ads -> separate HAVE_EAFD add ads -> NoDup l ->
  Forall (fun eid => eid < length (ad_eid add))%nat l -> copied HAVE_EAFD add ads l (foldl (copy_entry HAVE_EAFD ads) add l).
Proof.
  intros Hfit Hsep. induction l as [|eid l IH] using rev_ind; intros Hnd Hlt.
  - split; [done|by intros ? ? ? ?%elem_of_nil|done|done].
  - apply NoDup_app in Hnd as (Hnd & Hnew & _). apply Forall_app in Hlt as [Hlt Heid]. rewrite foldl_app. cbn [foldl].
    apply copied_step; [done|done|by inversion Heid| |by apply IH].
    intros Hin. by apply (Hnew eid Hin), list_elem_of_singleton.
Qed.

(** What a header promises of its own entries. *)
Record sound (ad : adouble) : Prop := {
  so_table : length (ad_eid ad) = ADEID_MAX;
  so_in : table_in (valid_data_len ad) (ad_eid ad);
  so_valid : 0 <= valid_data_len ad <= Z.of_nat (length (ad_data ad));
  so_data : length (ad_data ad) = AD_DATASZ_MAX
}.

Lemma moved_inv HAVE_EAFD add ads eid src len : sound ads -> ad_copy_header_entry HAVE_EAFD add ads eid = Some (src, len) ->
  (eid < ADEID_MAX)%nat /\ eid <> ADEID_DFORK /\ eid <> ADEID_RFORK /\ 0 < src /\ len = ade_len (eid_at ads eid) /\
  0 < len < 2 ^ 32 /\ src + len <= valid_data_len ads.
Proof.
  intros [Ht Hin Hv _] H. unfold ad_copy_header_entry in H.
  destruct (_ || _ || _) eqn:Hk; [done|]. apply orb_false_iff in Hk as [[_ Hd%Nat.eqb_neq]%orb_false_iff Hr%Nat.eqb_neq].
  destruct (_ || _); [done|]. destruct (Z.leb_spec (ade_len (eid_at ads eid)) 0); [done|].
  destruct (ad_entry HAVE_EAFD ads eid) as [off|] eqn:E; [|done]. injection H as <- <-.
  destruct (table_at _ ads eid Hin ltac:(lia)) as (_ & Hl & _). unfold wrap. rewrite Z.mod_small by done.
  destruct (ad_entry_room _ _ _ _ _ Hin ltac:(lia) E) as (_ & Hpos & Hroom). specialize (Hroom Hd Hr ltac:(lia)).
  split; [|do 4 (split; [done|]); lia]. destruct (decide (eid < ADEID_MAX)%nat) as [|Hge]; [done|].
  unfold eid_at in H0. rewrite lookup_ge_None_2 in H0 by lia. cbn in H0. lia.
Qed.

Lemma transfers_fit_sound HAVE_EAFD add ads : sound add -> sound ads ->
  (forall eid src len, ad_copy_header_entry HAVE_EAFD add ads eid = Some (src, len) -> ad_entry_fits HAVE_EAFD add eid len = true) ->
  transfers_fit HAVE_EAFD add ads.
Proof.
  intros [_ Hin Hv _] Hs Hok eid src len Hm. specialize (Hok _ _ _ Hm).
  destruct (moved_inv _ _ _ _ _ _ Hs Hm) as (_ & Hd & Hr & Hpos & _ & Hlen & Hroom). destruct Hs as [_ _ Hvs _].
  destruct (table_at _ add eid Hin ltac:(lia)) as (Ho & _ & _). unfold ad_entry_fits in Hok.
  assert (ad_getentryoff HAVE_EAFD add eid = ade_off (eid_at add eid)) as E.
  { unfold ad_getentryoff. destruct (Nat.eqb_spec eid ADEID_DFORK), (Nat.eqb_spec eid ADEID_RFORK); try done; by destruct (ad_vers add =? AD_VERSION2). }
  rewrite E in *. unfold wrap in Hok. rewrite Z.mod_small in Hok by done. apply andb_true_iff in Hok as [_ Hc].
  apply check_size_room in Hc; [|done..]. lia.
Qed.

(** Some entry to transfer does not fit. *)
Definition misfit (HAVE_EAFD : bool) (add ads : adouble) : bool :=
  existsb (fun eid => match ad_copy_header_entry HAVE_EAFD add ads eid with
                      | None => false
                      | Some (_, len) => negb (ad_entry_fits HAVE_EAFD add eid len)
                      end) (seq 0 ADEID_MAX).

Lemma misfit_spec HAVE_EAFD add ads : sound ads -> misfit HAVE_EAFD add ads = false <->
  forall eid src len, ad_copy_header_entry HAVE_EAFD add ads eid = Some (src, len) -> ad_entry_fits HAVE_EAFD add eid len = true.
Proof.
  intros Hs. unfold misfit. rewrite <- not_true_iff_false, existsb_exists. split.
  - intros Hn eid src len Hm. destruct (moved_inv _ _ _ _ _ _ Hs Hm) as (He & _). apply dec_stable. intros Hf. apply Hn.
    exists eid. split; [apply in_seq; lia|]. rewrite Hm. by apply negb_true_iff, not_true_iff_false.
  - intros Hf (eid & _ & Hb). destruct (ad_copy_header_entry HAVE_EAFD add ads eid) as [[src len]|] eqn:Hm; [|done].
    by rewrite (Hf _ _ _ Hm) in Hb.
Qed.

Lemma copy_header_same HAVE_EAFD add ads r : ad_vers add = ad_vers ads ->
  r = foldl (copy_entry HAVE_EAFD ads) add (seq 0 ADEID_MAX) -> ad_vers r = ad_vers add ->
  ad_copy_header HAVE_EAFD add ads =
    if valid_data_len add =? 0 then ((-1, None), add) else if misfit HAVE_EAFD add ads then ((-1, Some EIO), add) else
    ((0, None), set_rlen (ad_rlen ads) r).
Proof.
  intros Hv Hr Hvr. unfold ad_copy_header. fold (misfit HAVE_EAFD add ads). rewrite <- Hr. cbn [set_rlen ad_vers]. rewrite Hvr, Hv.
  destruct (Z.eqb_spec (ad_vers ads) AD_VERSION2) as [->|], (Z.eqb_spec (ad_vers ads) AD_VERSION_EA); done.
Qed.

Lemma copy_header_misfit HAVE_EAFD add ads : misfit HAVE_EAFD add ads = true ->
  exists e, ad_copy_header HAVE_EAFD add ads = ((-1, e), add).
Proof.
  intros E. unfold ad_copy_header. fold (misfit HAVE_EAFD add ads). rewrite E.
  destruct (valid_data_len add =? 0); by eexists.
Qed.

Lemma copy_header_granted HAVE_EAFD add ads : sound add -> sound ads -> ad_vers add = ad_vers ads -> separate HAVE_EAFD add ads ->
  valid_data_len add <> 0 -> misfit HAVE_EAFD add ads = false ->
  exists r, ad_copy_header HAVE_EAFD add ads = ((0, None), set_rlen (ad_rlen ads) r) /\ transfers_fit HAVE_EAFD add ads /\
    copied HAVE_EAFD add ads (seq 0 ADEID_MAX) r.
Proof.
  intros Hadd Hads Hv Hsep H0 E. pose proof (transfers_fit_sound _ _ _ Hadd Hads (proj1 (misfit_spec _ _ _ Hads) E)) as Htf.
  assert (copied HAVE_EAFD add ads (seq 0 ADEID_MAX) (foldl (copy_entry HAVE_EAFD ads) add (seq 0 ADEID_MAX))) as Hc.
  { apply copied_all; [done|done|apply NoDup_seq|]. rewrite (so_table _ Hadd). apply Forall_forall. intros eid Hin%elem_of_seq. lia. }
  exists (foldl (copy_entry HAVE_EAFD ads) add (seq 0 ADEID_MAX)). split; [|done].
  rewrite (copy_header_same _ _ _ _ Hv eq_refl (sl_vers _ _ (co_layout _ _ _ _ _ Hc))), E. by apply Z.eqb_neq in H0 as ->.
Qed.

Lemma copy_header_refused HAVE_EAFD add ads : valid_data_len add = 0 \/ misfit HAVE_EAFD add ads = true ->
  exists e, ad_copy_header HAVE_EAFD add ads = ((-1, e), add).
Proof.
  intros [E|E]; [|by apply copy_header_misfit]. unfold ad_copy_header. rewrite E. by eexists.
Qed.

Lemma copied_result HAVE_EAFD add ads r eid src len : sound ads -> copied HAVE_EAFD add ads (seq 0 ADEID_MAX) r ->
  ad_copy_header_entry HAVE_EAFD add ads eid = Some (src, len) ->
  ade_len (eid_at r eid) = len /\ forall k : nat, Z.of_nat k < len ->
    nth (Z.to_nat (ad_getentryoff HAVE_EAFD add eid) + k) (ad_data r) 0 = nth (Z.to_nat src + k) (ad_data ads) 0.
Proof.
  intros Hs [_ Hb _ _] Hm. destruct (moved_inv _ _ _ _ _ _ Hs Hm) as (He & _). apply Hb; [apply elem_of_seq; lia|done].
Qed.

Lemma copy_header_cases HAVE_EAFD add ads :
  sound add -> sound ads -> ad_vers add = ad_vers ads -> separate HAVE_EAFD add ads ->
  let moved := ad_copy_header_entry HAVE_EAFD add ads in
  let fits := valid_data_len add <> 0 /\ forall eid src len, moved eid = Some (src, len) -> ad_entry_fits HAVE_EAFD add eid len = true in
  let '((ret, _), r) := ad_copy_header HAVE_EAFD add ads in
  (~ fits -> ret = -1 /\ r = add) /\
  (fits -> ret = 0 /\ ad_rlen r = ad_rlen ads /\ transfers_fit HAVE_EAFD add ads /\ length (ad_data r) = length (ad_data add) /\
    (forall eid src len, moved eid = Some (src, len) -> ad_getentrylen r eid = len /\
       forall k : nat, Z.of_nat k < len ->
         nth (Z.to_nat (ad_getentryoff HAVE_EAFD add eid) + k) (ad_data r) 0 = nth (Z.to_nat src + k) (ad_data ads) 0) /\
    (forall p, ~ written HAVE_EAFD add ads (seq 0 ADEID_MAX) p -> nth p (ad_data r) 0 = nth p (ad_data add) 0) /\
    (forall eid, moved eid = None -> eid_at r eid = eid_at add eid)).
Proof.
  intros Hadd Hads Hv Hsep moved fits. pose proof (misfit_spec HAVE_EAFD add ads Hads) as Hmis.
  assert (valid_data_len add = 0 \/ misfit HAVE_EAFD add ads = true \/ (valid_data_len add <> 0 /\ misfit HAVE_EAFD add ads = false)) as Hcase.
  { destruct (misfit HAVE_EAFD add ads); [tauto|]. destruct (decide (valid_data_len add = 0)); tauto. }
  destruct Hcase as [E|[E|[H0 E]]].
  - destruct (copy_header_refused HAVE_EAFD add ads (or_introl E)) as [e ->]. split; [done|]. intros [H _]. done.
  - destruct (copy_header_refused HAVE_EAFD add ads (or_intror E)) as [e ->]. split; [done|]. intros [_ H].
    apply Hmis in H. by rewrite H in E.
  - destruct (copy_header_granted _ _ _ Hadd Hads Hv Hsep H0 E) as (r & -> & Htf & Hc). split.
    + intros Hn. exfalso. apply Hn. split; [done|by apply Hmis].
    + intros _. split; [done|]. split; [done|]. split; [done|]. split; [exact (sl_data _ _ (co_layout _ _ _ _ _ Hc))|].
      split; [intros eid src len; exact (copied_result _ _ _ _ _ _ _ Hads Hc)|]. split; [exact (co_frame _ _ _ _ _ Hc)|].
      intros eid Hm. exact (co_kept _ _ _ _ _ Hc eid (or_intror Hm)).
Qed.

(** The sizes of the entries that a copy carries over: the room that an entry of kind
    [eid] and length [len] takes.  Names and colour icons have a field of a given size,
    the Finder information has at least its 32 bytes, and the others have a fixed length.
    There is no rule for the forks and the comment, which stay behind. *)
Definition takes_room (eid : nat) (len room : Z) : Prop :=
  let at_most n := len <= n /\ room = n in
  let at_least n := n <= len /\ room = len in
  let exactly n := len = n /\ room = n in
  match eid with
  | 3%nat => at_most 255 | 6%nat => at_most 1024 | 13%nat => at_most 12
  | 9%nat => at_least 32
  | 5%nat => exactly 128 | 7%nat | 8%nat => exactly 16 | 11%nat | 16%nat | 17%nat | 18%nat => exactly 8
  | 10%nat | 14%nat | 15%nat | 19%nat => exactly 4 | 12%nat => exactly 2
  | _ => False
  end.

(** A header has room for an entry of that kind and length where its own one is. *)
Definition has_room (ad : adouble) (eid : nat) (len : Z) : Prop :=
  ade_off (eid_at ad eid) <> 0 /\ exists room, takes_room eid len room /\ ade_off (eid_at ad eid) + room <= valid_data_len ad.

(** An entry of the source that is not empty and obeys its size, and that the destination has. *)
Definition shared (add ads : adouble) (eid : nat) : Prop :=
  0 < ade_len (eid_at ads eid) /\ has_room ads eid (ade_len (eid_at ads eid)) /\ ade_off (eid_at add eid) <> 0.

Definition apart (add ads : adouble) : Prop :=
  forall i j, i <> j -> shared add ads i -> shared add ads j ->
    ade_off (eid_at add i) + ade_len (eid_at ads i) <= ade_off (eid_at add j) \/ ade_off (eid_at add j) + ade_len (eid_at ads j) <= ade_off (eid_at add i).

Lemma room_test bufsize off len : 0 <= off < 2 ^ 32 -> 0 <= len < 2 ^ 32 -> bufsize < 2 ^ 32 ->
  (if u32 (off + len) <? off then false else if bufsize <? u32 (off + len) then false else true) = true <-> off + len <= bufsize.
Proof. intros Ho Hl Hb. unfold wrap. destruct (Z.ltb_spec ((off + len) mod 2 ^ 32) off), (Z.ltb_spec bufsize ((off + len) mod 2 ^ 32)); split; intros; try done; zmod. Qed.

(** The three rules of the table. *)
Lemma size_exact n bufsize off len : 0 <= off < 2 ^ 32 -> 0 < len < 2 ^ 32 -> bufsize < 2 ^ 32 ->
  match (if negb (n =? len) then None else Some len) with
  | None => false
  | Some room => if u32 (off + room) <? off then false else if bufsize <? u32 (off + room) then false else true
  end = true <-> exists room, (len = n /\ room = n) /\ off + room <= bufsize.
Proof.
  intros Ho Hl Hb. destruct (Z.eqb_spec n len) as [->|Hn]; cbn [negb]; [|split; [done|intros (? & [? ?] & ?); lia]].
  rewrite room_test by lia. split; [by exists len|]. intros (? & [? ->] & ?). done.
Qed.

Lemma size_least n bufsize off len : 0 <= off < 2 ^ 32 -> 0 < len < 2 ^ 32 -> bufsize < 2 ^ 32 ->
  match (if len <? n then None else Some len) with
  | None => false
  | Some room => if u32 (off + room) <? off then false else if bufsize <? u32 (off + room) then false else true
  end = true <-> exists room, (n <= len /\ room = len) /\ off + room <= bufsize.
Proof.
  intros Ho Hl Hb. destruct (Z.ltb_spec len n); [split; [done|intros (? & [? ?] & ?); lia]|].
  rewrite room_test by lia. split; [by exists len|]. intros (? & [? ->] & ?). done.
Qed.

Lemma size_most n bufsize off len : 0 <= off < 2 ^ 32 -> 0 < len < 2 ^ 32 -> 0 <= n < 2 ^ 32 -> bufsize < 2 ^ 32 ->
  match (if n <? len then None else Some n) with
  | None => false
  | Some room => if u32 (off + room) <? off then false else if bufsize <? u32 (off + room) then false else true
  end = true <-> exists room, (len <= n /\ room = n) /\ off + room <= bufsize.
Proof.
  intros Ho Hl Hn Hb. destruct (Z.ltb_spec n len); [split; [done|intros (? & [? ?] & ?); lia]|].
  rewrite room_test by lia. split; [by exists n|]. intros (? & [? ->] & ?). done.
Qed.

Lemma check_size_rule eid bufsize off len : eid <> ADEID_DFORK -> eid <> ADEID_RFORK -> eid <> ADEID_COMMENT ->
  0 <= off < 2 ^ 32 -> 0 < len < 2 ^ 32 -> bufsize < 2 ^ 32 ->
  ad_entry_check_size eid bufsize off len = true <-> exists room, takes_room eid len room /\ off + room <= bufsize.
Proof.
  intros H1 H2 H4 Ho Hl Hb. unfold ad_entry_check_size. rewrite (proj2 (Z.eqb_neq len 0)) by lia.
  unfold ADEID_DFORK, ADEID_RFORK, ADEID_COMMENT in *.
  do 20 (destruct eid as [|eid]; [first [exfalso; lia|by split; [|intros (? & [] & _)]|by apply size_exact|by apply size_least|by apply size_most]|]).
  split; [done|]. by intros (? & [] & _).
Qed.

Lemma entry_off_kind HAVE_EAFD ad eid : eid <> ADEID_DFORK -> eid <> ADEID_RFORK -> ad_getentryoff HAVE_EAFD ad eid = ade_off (eid_at ad eid).
Proof.
  intros Hd Hr. unfold ad_getentryoff. destruct (Nat.eqb_spec eid ADEID_DFORK), (Nat.eqb_spec eid ADEID_RFORK); try done. by destruct (ad_vers ad =? AD_VERSION2).
Qed.

Lemma fits_room HAVE_EAFD ad eid len : sound ad -> eid <> ADEID_DFORK -> eid <> ADEID_RFORK -> eid <> ADEID_COMMENT -> 0 < len < 2 ^ 32 ->
  ad_entry_fits HAVE_EAFD ad eid len = true <-> has_room ad eid len.
Proof.
  intros [_ Hin Hv Hd] H1 H2 H4 Hl. unfold ad_entry_fits, has_room. rewrite entry_off_kind by done.
  destruct (table_at _ ad eid Hin ltac:(lia)) as (Ho & _ & _). unfold wrap. rewrite Z.mod_small by done. unfold AD_DATASZ_MAX in Hd.
  rewrite andb_true_iff, negb_true_iff, Z.eqb_neq, check_size_rule by (done || lia). done.
Qed.

Lemma moved_shared HAVE_EAFD add ads eid src len : sound ads ->
  ad_copy_header_entry HAVE_EAFD add ads eid = Some (src, len) <->
  shared add ads eid /\ src = ade_off (eid_at ads eid) /\ len = ade_len (eid_at ads eid).
Proof.
  intros Hs. destruct (table_at _ ads eid (so_in _ Hs) (proj1 (so_valid _ Hs))) as (_ & Hl & _). unfold ad_copy_header_entry, shared.
  assert (forall n : nat, (eid =? n)%nat = true -> (n = ADEID_COMMENT \/ n = ADEID_DFORK \/ n = ADEID_RFORK)%nat -> ~ has_room ads eid (ade_len (eid_at ads eid))) as Hno.
  { intros n E%Nat.eqb_eq Hn (_ & room & Hr & _). subst eid. by destruct Hn as [->|[->| ->]]. }
  destruct ((eid =? ADEID_COMMENT)%nat || (eid =? ADEID_DFORK)%nat || (eid =? ADEID_RFORK)%nat) eqn:Ek.
  { split; [done|]. intros ((_ & Hr & _) & _). apply orb_true_iff in Ek as [[Ek|Ek]%orb_true_iff|Ek]; exfalso; by apply (Hno _ Ek); [auto|]. }
  apply orb_false_iff in Ek as [[H4%Nat.eqb_neq H1%Nat.eqb_neq]%orb_false_iff H2%Nat.eqb_neq].
  destruct (Z.eqb_spec (ade_off (eid_at ads eid)) 0) as [E0|E0]; cbn [orb]; [split; [done|]; by intros ((_ & [? _] & _) & _)|].
  destruct (Z.eqb_spec (ade_off (eid_at add eid)) 0) as [E1|E1]; [split; [done|]; by intros ((_ & _ & ?) & _)|].
  destruct (Z.leb_spec (ade_len (eid_at ads eid)) 0) as [E2|E2]; [split; [done|]; intros ((? & _) & _); lia|].
  unfold ad_entry, ad_getentrylen, wrap. rewrite !Z.mod_small by done. rewrite entry_off_kind by done.
  pose proof (fits_room HAVE_EAFD ads eid (ade_len (eid_at ads eid)) Hs H1 H2 H4 ltac:(lia)) as Hf.
  destruct (ad_entry_fits _ _ _ _); cbn [negb mbind option_bind].
  - split; [intros [= <- <-]; split; [|done]; split; [lia|]; split; [by apply Hf|done]|]. by intros (_ & -> & ->).
  - split; [done|]. intros ((_ & Hr & _) & _). by apply Hf in Hr.
Qed.

(** C27: A copy of one header into another of the same version is all or nothing.  It is
    refused, and the destination is untouched, exactly when the destination was never
    initialised or has no room for an entry to be carried over, by the sizes that the
    kinds of entries have.  Otherwise every transfer stays inside both buffers; each entry
    that the source has, not empty and of a proper size, and that the destination has,
    the comment and the forks apart, then holds the source's bytes and length, whatever the
    order of the entries, and every other byte and entry of the destination is as it was.
    The entries of both headers lie inside their data, and those of the destination that
    are written do not overlap. *)
Theorem ad_copy_header_transfers HAVE_EAFD add ads :
  sound add -> sound ads -> ad_vers add = ad_vers ads -> apart add ads ->
  let fits := valid_data_len add <> 0 /\ forall eid, shared add ads eid -> has_room add eid (ade_len (eid_at ads eid)) in
  let '((ret, _), r) := ad_copy_header HAVE_EAFD add ads in
  (~ fits -> ret = -1 /\ r = add) /\
  (fits -> ret = 0 /\ ad_rlen r = ad_rlen ads /\ length (ad_data r) = length (ad_data add) /\
    (forall eid, shared add ads eid ->
       let src := ade_off (eid_at ads eid) in let dst := ade_off (eid_at add eid) in let len := ade_len (eid_at ads eid) in
       src + len <= Z.of_nat (length (ad_data ads)) /\ dst + len <= Z.of_nat (length (ad_data add)) /\ ade_len (eid_at r eid) = len /\
       forall k : nat, Z.of_nat k < len -> nth (Z.to_nat dst + k) (ad_data r) 0 = nth (Z.to_nat src + k) (ad_data ads) 0) /\
    (forall p : nat, (forall eid, shared add ads eid ->
        ~ ade_off (eid_at add eid) <= Z.of_nat p < ade_off (eid_at add eid) + ade_len (eid_at ads eid)) ->
       nth p (ad_data r) 0 = nth p (ad_data add) 0) /\
    (forall eid, ~ shared add ads eid -> eid_at r eid = eid_at add eid)).
Proof.
  intros Hadd Hads Hv Hap fits.
  assert (forall eid src len, ad_copy_header_entry HAVE_EAFD add ads eid = Some (src, len) ->
    shared add ads eid /\ src = ade_off (eid_at ads eid) /\ len = ade_len (eid_at ads eid) /\ ad_getentryoff HAVE_EAFD add eid = ade_off (eid_at add eid) /\
    (ad_entry_fits HAVE_EAFD add eid len = true <-> has_room add eid len)) as Hm.
  { intros eid src len Hm. pose proof (proj1 (moved_shared _ _ _ _ _ _ Hads) Hm) as (S1 & S2 & S3).
    destruct (moved_inv _ _ _ _ _ _ Hads Hm) as (_ & H1 & H2 & _ & _ & Hl & _).
    split; [done|]. split; [done|]. split; [done|]. split; [by apply entry_off_kind|]. apply fits_room; try done.
    intros ->. destruct S1 as (_ & (_ & ? & [] & _) & _). }
  assert (forall eid, shared add ads eid -> ad_copy_header_entry HAVE_EAFD add ads eid = Some (ade_off (eid_at ads eid), ade_len (eid_at ads eid))) as Hs
    by (intros eid S; by apply moved_shared).
  assert (separate HAVE_EAFD add ads) as Hsep.
  { intros i j s1 l1 s2 l2 Hne M1 M2. destruct (Hm _ _ _ M1) as (S1 & _ & -> & -> & _). destruct (Hm _ _ _ M2) as (S2 & _ & -> & -> & _). by apply Hap. }
  pose proof (copy_header_cases HAVE_EAFD add ads Hadd Hads Hv Hsep) as HC. destruct (ad_copy_header HAVE_EAFD add ads) as [[ret e] r].
  destruct HC as [HC1 HC2]. split.
  - intros Hn. apply HC1. intros [F1 F2]. apply Hn. split; [done|]. intros eid S. destruct (Hm _ _ _ (Hs eid S)) as (_ & _ & _ & _ & Hf). apply Hf. by eapply F2, Hs.
  - intros [F1 F2]. destruct HC2 as (-> & Hr & Htf & Hlen & Hmv & Hfr & Hkeep).
    { split; [done|]. intros eid src len M. destruct (Hm _ _ _ M) as (S & _ & -> & _ & Hf). by apply Hf, F2. }
    split; [done|]. split; [done|]. split; [done|]. split; [|split].
    + intros eid S. pose proof (Hs eid S) as M. destruct (Hm _ _ _ M) as (_ & _ & _ & Eo & _). destruct (Htf _ _ _ M) as (_ & _ & T1 & _ & T2).
      destruct (Hmv _ _ _ M) as [M1 M2]. rewrite Eo in *. done.
    + intros p Hp. apply Hfr. intros (eid & src & len & _ & M & Hin). destruct (Hm _ _ _ M) as (S & _ & -> & Eo & _). rewrite Eo in Hin. by apply (Hp eid S).
    + intros eid Hn. apply Hkeep. destruct (ad_copy_header_entry HAVE_EAFD add ads eid) as [[src len]|] eqn:M; [|done]. exfalso. apply Hn. by apply (Hm _ _ _ M).
Qed.

(** ** Headers to apply the theorems to *)

Definition entry_inb (valid : Z) (eid : nat) (e : ad_entry_t) : bool :=
  (0 <=? ade_off e) && (ade_off e <? 2 ^ 32) && (0 <=? ade_len e) && (ade_len e <? 2 ^ 32) &&
  ((eid =? ADEID_RFORK)%nat || (ade_off e + ade_len e <=? valid)).

Lemma table_list valid t : forallb (fun p => entry_inb valid p.1 p.2) (zip (seq 0 (length t)) t) = true -> table_in valid t.
Proof.
  intros H eid e He. rewrite forallb_forall in H.
  assert (In (eid, e) (zip (seq 0 (length t)) t)) as Hin.
  { apply list_elem_of_In, list_elem_of_lookup. exists eid. apply lookup_zip_with_Some. exists eid, e. split; [done|]. split; [|done].
    apply lookup_seq. split; [done|by apply (lookup_lt_Some _ _ _ He)]. }
  apply H in Hin. unfold entry_inb in Hin. cbn [fst snd] in Hin. destruct (Nat.eqb_spec eid ADEID_RFORK); cbn in Hin; lia.
Qed.

Lemma separate_list HAVE_EAFD add ads : sound ads ->
  forallb (fun i => forallb (fun j => (i =? j)%nat ||
    match ad_copy_header_entry HAVE_EAFD add ads i, ad_copy_header_entry HAVE_EAFD add ads j with
    | Some (_, len1), Some (_, len2) =>
        (ad_getentryoff HAVE_EAFD add i + len1 <=? ad_getentryoff HAVE_EAFD add j) ||
        (ad_getentryoff HAVE_EAFD add j + len2 <=? ad_getentryoff HAVE_EAFD add i)
    | _, _ => true
    end) (seq 0 ADEID_MAX)) (seq 0 ADEID_MAX) = true -> separate HAVE_EAFD add ads.
Proof.
  intros Hs H i j s1 l1 s2 l2 Hij Hi Hj. destruct (moved_inv _ _ _ _ _ _ Hs Hi) as (Hi' & _). destruct (moved_inv _ _ _ _ _ _ Hs Hj) as (Hj' & _).
  rewrite forallb_forall in H. specialize (H i ltac:(apply in_seq; lia)). rewrite forallb_forall in H.
  specialize (H j ltac:(apply in_seq; lia)). apply Nat.eqb_neq in Hij. rewrite Hij, Hi, Hj in H. cbn [orb] in H. lia.
Qed.

Definition blank (vers : Z) : adouble := Adouble 0 0 vers fresh_table 0 0 (replicate AD_DATASZ_MAX 0).
Definition sample_v2 : adouble := (ad_init_offsets true (blank AD_VERSION2)).2.
Definition sample_ea : adouble := (ad_init_offsets true (blank AD_VERSION_EA)).2.

(** A header of a Finder info and a resource fork. *)
Definition sample_entries : list (nat * ad_entry_t) := [(ADEID_FINDERI, Ade 50 32); (ADEID_RFORK, Ade 82 0)].
Definition sample_header : list Z := header_bytes AD_VERSION2 (replicate 16 0) sample_entries (replicate 32 7).

Lemma ad_header_read_exact_witness :
  exists ad', ad_header_read true (blank AD_VERSION2) (Some sample_header) (Some 100) = ((0, None), ad') /\ ad_rlen ad' = 18.
Proof.
  eexists. split; [|shelve]. apply (ad_header_read_exact true (blank AD_VERSION2) sample_header 100);
    [done|by apply byte_list|by apply (bool_decide_eq_true_1 _)|].
  exists (replicate 16 0), sample_entries, (replicate 32 7). split; [done|]. split; [cbn; lia|]. split; [done|].
  split; [repeat constructor; cbv; done || lia|]. split; [done|]. split; [done|]. reflexivity.
  Unshelve. reflexivity.
Defined.

Lemma ad_header_read_safe_witness :
  exists ad', ad_header_read true (blank AD_VERSION2) (Some sample_header) (Some 100) = ((0, None), ad') /\
    ad_entry true ad' ADEID_FINDERI = Some 50 /\ 50 + layout_len ADEID_FINDERI <= 82.
Proof.
  eexists. split; [vm_compute; reflexivity|]. split; [vm_compute; reflexivity|].
  refine (proj2 (proj2 (proj2 (ad_header_read_safe true (blank AD_VERSION2) sample_header 100 _ ADEID_FINDERI 50 _ _ _ _ _ _ _))) _ _ _);
    [done|by apply byte_list|by apply (bool_decide_eq_true_1 _)|done|done|vm_compute; reflexivity|vm_compute; reflexivity|done|done|].
  vm_compute. reflexivity.
Defined.

Lemma sample_v2_writable : writable 741 sample_v2.
Proof. split; [done|done|by apply byte_list|done|done|done|by apply table_list]. Qed.

Lemma sample_ea_writable : writable 402 sample_ea.
Proof. split; [done|done|by apply byte_list|done|done|done|by apply table_list]. Qed.

Lemma ad_header_v2_round_trip_witness :
  (26 + 12 * length (kept keep_v2 0 (ad_eid sample_v2)) = 182)%nat /\
  exists ad2, ad_header_read true (blank AD_VERSION2) (Some (take 741 (ad_data (ad_rebuild_adouble_header_v2 true sample_v2).2))) (Some 1000) =
      ((0, None), ad2) /\ ad_rlen ad2 = 259.
Proof.
  split; [reflexivity|].
  destruct (ad_header_v2_round_trip true sample_v2 (blank AD_VERSION2) 1000 eq_refl eq_refl eq_refl sample_v2_writable) as (_ & ad2 & Hr & _ & Hl & _);
    [by apply (bool_decide_eq_true_1 _)|by apply (bool_decide_eq_true_1 _)|].
  exists ad2. split; [exact Hr|exact Hl].
Defined.

Lemma ad_header_ea_round_trip_witness :
  length (kept keep_ea 0 (ad_eid sample_ea)) = ADEID_NUM_EA /\
  exists ad2, ad_header_read_ea true (blank AD_VERSION_EA) (inr (take AD_DATASZ_EA (ad_data (ad_rebuild_adouble_header_ea sample_ea).2))) true true =
      ((0, None), ad2, false) /\ valid_data_len ad2 = 402.
Proof.
  split; [reflexivity|].
  destruct (ad_header_ea_round_trip true sample_ea (blank AD_VERSION_EA) true true eq_refl eq_refl eq_refl sample_ea_writable eq_refl eq_refl)
    as (_ & ad2 & Hr & _ & Hl & _); [by repeat constructor|].
  exists ad2. split; [exact Hr|exact Hl].
Defined.

Lemma sample_ea_sound : sound sample_ea.
Proof. split; [done|by apply table_list|split; by vm_compute|done]. Qed.

Lemma sample_moved eid : shared sample_ea sample_ea eid ->
  ad_copy_header_entry true sample_ea sample_ea eid = Some (ade_off (eid_at sample_ea eid), ade_len (eid_at sample_ea eid)) /\
  ad_getentryoff true sample_ea eid = ade_off (eid_at sample_ea eid).
Proof.
  intros S. assert (ad_copy_header_entry true sample_ea sample_ea eid = Some (ade_off (eid_at sample_ea eid), ade_len (eid_at sample_ea eid))) as M
    by (by apply moved_shared; [apply sample_ea_sound|]).
  split; [done|]. destruct (moved_inv _ _ _ _ _ _ sample_ea_sound M) as (_ & H1 & H2 & _). by apply entry_off_kind.
Qed.

Lemma sample_apart : apart sample_ea sample_ea.
Proof.
  intros i j Hne Hi Hj. destruct (sample_moved i Hi) as [M1 E1]. destruct (sample_moved j Hj) as [M2 E2]. rewrite <- E1, <- E2.
  exact (separate_list true sample_ea sample_ea sample_ea_sound eq_refl i j _ _ _ _ Hne M1 M2).
Qed.

(** The Finder information of a header goes into its own copy. *)
Lemma ad_copy_header_transfers_witness :
  shared sample_ea sample_ea ADEID_FINDERI /\
  let '((ret, _), r) := ad_copy_header true sample_ea sample_ea in ret = 0 /\ ad_rlen r = 0.
Proof.
  split. { split; [by vm_compute|]. split; [|by vm_compute]. split; [by vm_compute|]. exists 32. split; [split; by vm_compute|by vm_compute]. }
  pose proof (ad_copy_header_transfers true sample_ea sample_ea sample_ea_sound sample_ea_sound eq_refl sample_apart) as H.
  destruct (ad_copy_header true sample_ea sample_ea) as [[ret e] r]. destruct H as [_ H].
  destruct H as (H1 & H2 & _); [|by split].
  split; [by vm_compute|]. intros eid (_ & Hr & _). exact Hr.
Defined.
