(* ===== verification/Spotlight.v ===== *)
(** * Spotlight payloads, etc/afpd/spotlight_marshalling.c

    A Spotlight request or reply is a tree of typed values.  On the wire it is a
    header of 16 bytes, the elements, each a tag of 8 bytes with its data, and a table
    of contents (TOC) with one entry per complex element.  This file holds the packer
    and the unpacker.  A pointer into a buffer is the buffer with an offset; an
    access outside the buffer has the outcome [Undef] and a conversion out of range the
    outcome [Overflow], which the theorems exclude or exhibit; [Fail] is the return of -1. *)

From Stdlib Require Import SpecFloat.
From S2P Require Import Prelude Bytes.

(** ** Outcomes *)

Inductive out (A : Type) : Type :=
  | Done (a : A)
  | Fail   (** the code returns -1 *)
  | Undef  (** an access outside a buffer: undefined behaviour *)
  | Overflow  (** a double converted to an integer type that cannot hold it: undefined behaviour *).
Arguments Done {_} a.
Arguments Fail {_}.
Arguments Undef {_}.
Arguments Overflow {_}.

#[export] Instance out_ret : MRet out := fun A a => Done a.
#[export] Instance out_bind : MBind out := fun A B f m =>
  match m with Done a => f a | Fail => Fail | Undef => Undef | Overflow => Overflow end.

(** [EC_FAIL] unless the test holds. *)
Definition check (b : bool) : out unit := if b then Done tt else Fail.

(** ** Constants *)

Definition DSI_DATASIZ : Z := 65536.
Definition MAX_SLQ_DAT : Z := DSI_DATASIZ - 64.
Definition MAX_SLQ_TOC : Z := 8192.
Definition SPOTLIGHT_TIME_DELTA : Z := 978307200.

Definition SQ_TYPE_NULL : Z := 0x0000.
Definition SQ_TYPE_COMPLEX : Z := 0x0200.
Definition SQ_TYPE_INT64 : Z := 0x8400.
Definition SQ_TYPE_BOOL : Z := 0x0100.
Definition SQ_TYPE_FLOAT : Z := 0x8500.
Definition SQ_TYPE_DATA : Z := 0x0700.
Definition SQ_TYPE_CNIDS : Z := 0x8700.
Definition SQ_TYPE_UUID : Z := 0x0e00.
Definition SQ_TYPE_DATE : Z := 0x8600.
Definition SQ_TYPE_TOC : Z := 0x8800.

Definition SQ_CPX_TYPE_ARRAY : Z := 0x0a00.
Definition SQ_CPX_TYPE_STRING : Z := 0x0c00.
Definition SQ_CPX_TYPE_UTF16_STRING : Z := 0x1c00.
Definition SQ_CPX_TYPE_DICT : Z := 0x0d00.
Definition SQ_CPX_TYPE_CNIDS : Z := 0x1a00.
Definition SQ_CPX_TYPE_FILEMETA : Z := 0x1b00.

Definition SUBQ_SAFETY_LIM : nat := 20.
Definition SL_OFFSET_DELTA : Z := 16.

Definition SL_ENC_LITTLE_ENDIAN : Z := 1.
Definition SL_ENC_BIG_ENDIAN : Z := 2.
Definition SL_ENC_UTF_16 : Z := 4.

Definition INT_MAX : Z := 2 ^ 31 - 1.
Definition UINT_MAX : Z := 2 ^ 32 - 1.
Definition SIZE_MAX : Z := 2 ^ 64 - 1.

(** ** Values *)

Record sl_time_t := SlTime { tv_sec : Z; tv_usec : Z }.

(** A value in a dalloc array, by its talloc type name: the memory chunk of a string
    (with its NUL), the bits of a double, the 16 bytes of a UUID; the last
    constructor stands for a chunk of any other type name. *)
Inductive obj : Type :=
  | sl_array_t (l : list obj)
  | sl_dict_t (l : list obj)
  | sl_filemeta_t (l : list obj)
  | uint64_t (u : Z)
  | char_ptr (chunk : list Z)
  | sl_bool_t (b : bool)
  | double_t (w : Z)
  | sl_nil_t
  | time_t (t : sl_time_t)
  | sl_uuid_t (u : list Z)
  | sl_cnids_t (ca_unkn1 ca_context : Z) (ca_cnids : list Z)
  | other.

(** ** Memory *)

Definition poke (off : Z) (bs buf : list Z) : out (list Z) :=
  if (0 <=? off) && (off + Z.of_nat (length bs) <=? Z.of_nat (length buf)) then Done (blit (Z.to_nat off) bs buf) else Undef.

Definition peek (off n : Z) (buf : list Z) : out (list Z) :=
  if (0 <=? off) && (0 <=? n) && (off + n <=? Z.of_nat (length buf)) then Done (take (Z.to_nat n) (drop (Z.to_nat off) buf)) else Undef.

Definition le32 (val : Z) : list Z :=
  [wrap 8 val; wrap 8 (Z.shiftr val 8); wrap 8 (Z.shiftr val 16); wrap 8 (Z.shiftr val 24)].

(** The writers take the start [base] of the region their offsets count from. *)
Definition sl_put_le32 (base : Z) (buf : list Z) (off val : Z) : out (list Z) := poke (base + off) (le32 val) buf.

Definition sl_put_le64 (base : Z) (buf : list Z) (off val : Z) : out (list Z) :=
  buf ← sl_put_le32 base buf off (u32 val); sl_put_le32 base buf (off + 4) (u32 (Z.shiftr val 32)).

Definition sl_get_le64 (buf : list Z) (offset : Z) : out Z :=
  p ← peek offset 8 buf;
  let p i := nth i p 0 in
  Done (Z.lor (Z.lor (Z.lor (Z.lor (Z.lor (Z.lor (Z.lor (p 0%nat) (Z.shiftl (p 1%nat) 8)) (Z.shiftl (p 2%nat) 16))
    (Z.shiftl (p 3%nat) 24)) (Z.shiftl (p 4%nat) 32)) (Z.shiftl (p 5%nat) 40)) (Z.shiftl (p 6%nat) 48)) (Z.shiftl (p 7%nat) 56)).

Definition sl_get_be64 (buf : list Z) (offset : Z) : out Z :=
  p ← peek offset 8 buf;
  let p i := nth i p 0 in
  Done (Z.lor (Z.lor (Z.lor (Z.lor (Z.lor (Z.lor (Z.lor (p 7%nat) (Z.shiftl (p 6%nat) 8)) (Z.shiftl (p 5%nat) 16))
    (Z.shiftl (p 4%nat) 24)) (Z.shiftl (p 3%nat) 32)) (Z.shiftl (p 2%nat) 40)) (Z.shiftl (p 1%nat) 48)) (Z.shiftl (p 0%nat) 56)).

Definition sivalc (base : Z) (buf : list Z) (off maxoff val : Z) : out (list Z) :=
  if (off <? 0) || (maxoff <? 0) || (maxoff - 4 <? off) then Fail else sl_put_le32 base buf off val.

Definition slvalc (base : Z) (buf : list Z) (off maxoff val : Z) : out (list Z) :=
  if (off <? 0) || (maxoff <? 0) || (maxoff - 8 <? off) then Fail else sl_put_le64 base buf off val.

(** ** Doubles

    A double is its 64 bits; the arithmetic of the dates is that of IEEE 754 with
    rounding to nearest. *)

Definition b64_of_bits (w : Z) : spec_float :=
  let s := Z.testbit w 63 in
  let e := Z.land (Z.shiftr w 52) 0x7ff in
  let m := Z.land w (2 ^ 52 - 1) in
  if e =? 0x7ff then if m =? 0 then S754_infinity s else S754_nan
  else if e =? 0 then match m with Zpos p => S754_finite s p (-1074) | _ => S754_zero s end
  else match m + 2 ^ 52 with Zpos p => S754_finite s p (e - 1075) | _ => S754_nan end.

Definition bits_of_b64 (d : spec_float) : Z :=
  let sign (s : bool) := if s then 2 ^ 63 else 0 in
  match d with
  | S754_zero s => sign s
  | S754_infinity s => sign s + Z.shiftl 0x7ff 52
  | S754_nan => Z.shiftl 0xfff 51
  | S754_finite s p e => sign s + (if Zpos p <? 2 ^ 52 then Zpos p else Z.shiftl (e + 1075) 52 + (Zpos p - 2 ^ 52))
  end.

Definition dbl_of_Z (z : Z) : spec_float := binary_normalize 53 1024 z 0 false.
Definition dbl_add : spec_float -> spec_float -> spec_float := SFadd 53 1024.
Definition dbl_sub : spec_float -> spec_float -> spec_float := SFsub 53 1024.
Definition dbl_mul : spec_float -> spec_float -> spec_float := SFmul 53 1024.
Definition dbl_div : spec_float -> spec_float -> spec_float := SFdiv 53 1024.

(** The value rounded down and towards 0, [None] for an infinity or a NaN. *)
Definition dbl_floor (d : spec_float) : option Z :=
  match d with
  | S754_zero _ => Some 0
  | S754_finite s p e => Some (let m := if s then Zneg p else Zpos p in Z.shiftl m e)
  | _ => None
  end.
Definition dbl_trunc (d : spec_float) : option Z :=
  match d with
  | S754_zero _ => Some 0
  | S754_finite s p e => Some (let m := Z.shiftl (Zpos p) e in if s then - m else m)
  | _ => None
  end.

(** The conversion to a signed 64 bit integer, undefined out of its range. *)
Definition to_int64 (z : option Z) : out Z :=
  match z with
  | Some z => if (- 2 ^ 63 <=? z) && (z <? 2 ^ 63) then Done z else Overflow
  | None => Overflow
  end.

(** The bits of the double that stands for a time, and back. *)
Definition date_of_time (t : sl_time_t) : Z :=
  bits_of_b64 (dbl_add (dbl_of_Z (tv_sec t - SPOTLIGHT_TIME_DELTA)) (dbl_div (dbl_of_Z (tv_usec t)) (dbl_of_Z 1000000))).

Definition time_of_date (w : Z) : out sl_time_t :=
  let unix_time := dbl_add (b64_of_bits w) (dbl_of_Z SPOTLIGHT_TIME_DELTA) in
  sec ← to_int64 (dbl_floor unix_time);
  usec ← to_int64 (dbl_trunc (dbl_mul (dbl_sub unix_time (dbl_of_Z sec)) (dbl_of_Z 1000000)));
  Done (SlTime sec usec).

(** The bytes in front of the first NUL. *)
Fixpoint c_str (s : list Z) : list Z :=
  match s with
  | [] => []
  | c :: s => if c =? 0 then [] else c :: c_str s
  end.

Definition strnlen (s : list Z) : Z := Z.of_nat (length (c_str s)).

(** ** Packing *)

(** The buffer, the TOC and the next free slot of the TOC. *)
Record packing := Packing { p_buf : list Z; p_toc : list Z; toc_idx : Z }.

Definition sl_pack_tag (type size_or_count val : Z) : Z :=
  Z.lor (Z.lor (Z.shiftl (u32 val) 32) (Z.shiftl (wrap 16 type) 16)) (wrap 16 size_or_count).

(** [slvalc] into the buffer, and into the TOC, whose entries start behind the 8 bytes
    of its tag. *)
Definition put_buf (base offset maxoff val : Z) (p : packing) : out packing :=
  b ← slvalc base (p_buf p) offset maxoff val; Done (Packing b (p_toc p) (toc_idx p)).

Definition put_toc (val : Z) (p : packing) : out packing :=
  t ← slvalc 8 (p_toc p) (toc_idx p * 8) MAX_SLQ_TOC val; Done (Packing (p_buf p) t (toc_idx p)).

Definition next_toc (p : packing) : packing := Packing (p_buf p) (p_toc p) (toc_idx p + 1).

Definition copy_buf (off : Z) (bs : list Z) (p : packing) : out packing :=
  b ← poke off bs (p_buf p); Done (Packing b (p_toc p) (toc_idx p)).

Section elements.
Context (base maxoff : Z).

Definition sl_pack_float (d : Z) (offset : Z) (p : packing) : out (Z * packing) :=
  p ← put_buf base offset maxoff (sl_pack_tag SQ_TYPE_FLOAT 2 1) p;
  p ← put_buf base (offset + 8) maxoff d p;
  Done (offset + 2 * 8, p).

Definition sl_pack_uint64 (u : Z) (offset : Z) (p : packing) : out (Z * packing) :=
  p ← put_buf base offset maxoff (sl_pack_tag SQ_TYPE_INT64 2 1) p;
  p ← put_buf base (offset + 8) maxoff u p;
  Done (offset + 2 * 8, p).

Definition sl_pack_bool (bl : bool) (offset : Z) (p : packing) : out (Z * packing) :=
  p ← put_buf base offset maxoff (sl_pack_tag SQ_TYPE_BOOL 1 (if bl then 1 else 0)) p;
  Done (offset + 8, p).

Definition sl_pack_nil (offset : Z) (p : packing) : out (Z * packing) :=
  p ← put_buf base offset maxoff (sl_pack_tag SQ_TYPE_NULL 1 1) p;
  Done (offset + 8, p).

Definition sl_pack_date (t : sl_time_t) (offset : Z) (p : packing) : out (Z * packing) :=
  p ← put_buf base offset maxoff (sl_pack_tag SQ_TYPE_DATE 2 1) p;
  p ← put_buf base (offset + 8) maxoff (date_of_time t) p;
  Done (offset + 2 * 8, p).

Definition sl_pack_uuid (uuid : list Z) (offset : Z) (p : packing) : out (Z * packing) :=
  p ← put_buf base offset maxoff (sl_pack_tag SQ_TYPE_UUID 3 1) p;
  if (offset <? 0) || (maxoff <? 0) || (maxoff - 24 <? offset) then Fail else
  p ← copy_buf (base + offset + 8) uuid p;
  Done (offset + 8 + 16, p).

(** The loop over the CNIDs. *)
Fixpoint pack_ids (ids : list Z) (offset : Z) (p : packing) : out (Z * packing) :=
  match ids with
  | [] => Done (offset, p)
  | id :: ids => p ← put_buf base offset maxoff id p; pack_ids ids (offset + 8) p
  end.

Definition sl_pack_CNID (ca_unkn1 ca_context : Z) (ca_cnids : list Z) (offset : Z) (p : packing) : out (Z * packing) :=
  let cnid_count := Z.of_nat (length ca_cnids) in
  p ← put_toc (sl_pack_tag SQ_CPX_TYPE_CNIDS ((offset + SL_OFFSET_DELTA) / 8) 0) p;
  p ← put_buf base offset maxoff (sl_pack_tag SQ_TYPE_COMPLEX 1 (toc_idx p + 1)) p;
  let p := next_toc p in
  let offset := offset + 8 in
  let len := cnid_count + 1 in
  let len := if 0 <? cnid_count then len + 1 else len in
  p ← put_buf base offset maxoff (sl_pack_tag SQ_TYPE_CNIDS len 8) p;
  let offset := offset + 8 in
  if 0 <? cnid_count then
    p ← put_buf base offset maxoff (sl_pack_tag ca_unkn1 cnid_count ca_context) p;
    pack_ids ca_cnids (offset + 8) p
  else Done (offset, p).

(** An array or dictionary, by the subtype of its TOC entry and its count; [members]
    packs the members. *)
Definition pack_members (subtype : Z) (count : Z) (members : Z -> packing -> out (Z * packing)) (offset : Z) (p : packing) :
    out (Z * packing) :=
  let octets := (offset + SL_OFFSET_DELTA) / 8 in
  p ← put_toc (sl_pack_tag subtype octets count) p;
  p ← put_buf base offset maxoff (sl_pack_tag SQ_TYPE_COMPLEX 1 (toc_idx p + 1)) p;
  let p := next_toc p in
  members (offset + 8) p.

Definition sl_pack_array (count : Z) (members : Z -> packing -> out (Z * packing)) : Z -> packing -> out (Z * packing) :=
  pack_members SQ_CPX_TYPE_ARRAY count members.

Definition sl_pack_dict (count : Z) (members : Z -> packing -> out (Z * packing)) : Z -> packing -> out (Z * packing) :=
  pack_members SQ_CPX_TYPE_DICT count members.

(** [sub] packs the metadata as a payload of its own at the given start and limit. *)
Definition sl_pack_filemeta (sub : Z -> Z -> list Z -> out (Z * list Z)) (offset : Z) (p : packing) : out (Z * packing) :=
  let saveoff := offset in
  p ← put_buf base offset maxoff (sl_pack_tag SQ_TYPE_COMPLEX 1 (toc_idx p + 1)) p;
  let offset := offset + 16 in
  if maxoff - offset <=? 16 then Fail else
  '(fmlen, b) ← sub (base + offset) (maxoff - offset) (p_buf p);
  let p := Packing b (p_toc p) (toc_idx p) in
  let '(offset, fmlen) := if 40 <? fmlen then (offset + fmlen, fmlen) else (offset, 0) in
  p ← put_buf base (saveoff + 8) maxoff (sl_pack_tag SQ_TYPE_DATA (fmlen / 8 + 1) 8) p;
  p ← put_toc (sl_pack_tag SQ_CPX_TYPE_FILEMETA ((saveoff + SL_OFFSET_DELTA) / 8) (fmlen / 8)) p;
  Done (offset, next_toc p).

Definition sl_pack_string (s : list Z) (offset : Z) (p : packing) : out (Z * packing) :=
  let alloc_size := Z.of_nat (length s) in
  let len := strnlen s in
  if (alloc_size =? 0) || (len =? alloc_size) || (INT_MAX <? len) then Fail else
  let octets := len / 8 + (if Z.land len 7 =? 0 then 0 else 1) in
  let used_in_last_octet := if len mod 8 =? 0 then 8 else len mod 8 in
  p ← put_toc (sl_pack_tag SQ_CPX_TYPE_STRING ((offset + SL_OFFSET_DELTA) / 8) used_in_last_octet) p;
  p ← put_buf base offset maxoff (sl_pack_tag SQ_TYPE_COMPLEX 1 (toc_idx p + 1)) p;
  let p := next_toc p in
  let offset := offset + 8 in
  p ← put_buf base offset maxoff (sl_pack_tag SQ_TYPE_DATA (octets + 1) used_in_last_octet) p;
  let offset := offset + 8 in
  if (offset <? 0) || (maxoff <? 0) || (Z.quot (maxoff - offset) 8 <? octets) then Fail else
  p ← copy_buf (base + offset) (replicate (Z.to_nat (octets * 8)) 0) p;
  p ← copy_buf (base + offset) (take (Z.to_nat len) s) p;
  Done (offset + octets * 8, p).
End elements.

(** The loop over the elements of an array, for the packer of one element. *)
Section loop.
Context (f : obj -> Z -> Z -> Z -> packing -> out (Z * packing)).

Fixpoint pack_list (query : list obj) (base maxoff offset : Z) (p : packing) : out (Z * packing) :=
  match query with
  | [] => Done (offset, p)
  | o :: query => '(offset, p) ← f o base maxoff offset p; pack_list query base maxoff offset p
  end.

(** [sl_pack_len] of an array, at the start [base] of the buffer; what the TOC holds
    before it is written is never read. *)
Definition pack_payload (query : list obj) (base maxoff : Z) (buf : list Z) : out (Z * list Z) :=
  if maxoff <=? 16 then Fail else
  buf ← poke base [52; 51; 50; 49; 51; 48; 100; 109] buf;
  '(len, p) ← pack_list query (base + 16) (maxoff - 16) 0 (Packing buf (replicate (Z.to_nat MAX_SLQ_TOC) 0) 0);
  buf ← sivalc base (p_buf p) 8 maxoff (u32 (len / 8 + 1 + toc_idx p + 1));
  buf ← sivalc base buf 12 maxoff (u32 (len / 8 + 1));
  toc ← slvalc 0 (p_toc p) 0 MAX_SLQ_TOC (sl_pack_tag SQ_TYPE_TOC (toc_idx p + 1) 0);
  let toc_len := (toc_idx p + 1) * 8 in
  if maxoff <=? 16 + len + toc_len then Fail else
  bs ← peek 0 toc_len toc;
  buf ← poke (base + 16 + len) bs buf;
  Done (len + 16 + toc_len, buf).
End loop.

(** The choice by type of [sl_pack_loop]. *)
Fixpoint pack_obj (o : obj) (base maxoff offset : Z) (p : packing) {struct o} : out (Z * packing) :=
  match o with
  | sl_array_t l => sl_pack_array base maxoff (Z.of_nat (length l)) (pack_list pack_obj l base maxoff) offset p
  | sl_dict_t l => sl_pack_dict base maxoff (Z.of_nat (length l)) (pack_list pack_obj l base maxoff) offset p
  | sl_filemeta_t l => sl_pack_filemeta base maxoff (pack_payload pack_obj l) offset p
  | uint64_t u => sl_pack_uint64 base maxoff u offset p
  | char_ptr s => sl_pack_string base maxoff s offset p
  | sl_bool_t b => sl_pack_bool base maxoff b offset p
  | double_t d => sl_pack_float base maxoff d offset p
  | sl_nil_t => sl_pack_nil base maxoff offset p
  | time_t t => sl_pack_date base maxoff t offset p
  | sl_uuid_t u => sl_pack_uuid base maxoff u offset p
  | sl_cnids_t ca_unkn1 ca_context ca_cnids => sl_pack_CNID base maxoff ca_unkn1 ca_context ca_cnids offset p
  | other => Done (offset, p)
  end.

Definition sl_pack_loop : list obj -> Z -> Z -> Z -> packing -> out (Z * packing) := pack_list pack_obj.
Definition sl_pack_len : list obj -> Z -> Z -> list Z -> out (Z * list Z) := pack_payload pack_obj.

(** [buf] has [MAX_SLQ_DAT] bytes. *)
Definition sl_pack (query : list obj) (buf : list Z) : out (Z * list Z) := sl_pack_len query 0 MAX_SLQ_DAT buf.

(** ** Unpacking *)

Definition sl_unpack_range_valid (buf_len offset length : Z) : bool :=
  (0 <=? offset) && (offset <=? buf_len) && (length <=? buf_len - offset).

Definition sl_unpack_uint64 (buf : list Z) (offset encoding : Z) : out Z :=
  if encoding =? SL_ENC_LITTLE_ENDIAN then sl_get_le64 buf offset else sl_get_be64 buf offset.

Definition sl_unpack_uint64_checked (buf : list Z) (buf_len offset encoding : Z) : out Z :=
  if negb (sl_unpack_range_valid buf_len offset 8) then Fail else sl_unpack_uint64 buf offset encoding.

Definition sl_unpack_count (query_data64 query_length element_size : Z) : out Z :=
  if query_length <? 8 then Fail else
  let count64 := Z.shiftr query_data64 32 in
  if (INT_MAX <? count64) || (Z.quot (query_length - 8) element_size <? count64) then Fail else Done count64.

(** [count] values of 64 bits from [offset] on. *)
Fixpoint unpack_words (count : nat) (buf : list Z) (buf_len offset encoding : Z) : out (list Z) :=
  match count with
  | O => Done []
  | S n =>
      w ← sl_unpack_uint64_checked buf buf_len offset encoding;
      ws ← unpack_words n buf buf_len (offset + 8) encoding;
      Done (w :: ws)
  end.

Fixpoint unpack_uuids (count : nat) (buf : list Z) (buf_len offset : Z) : out (list (list Z)) :=
  match count with
  | O => Done []
  | S n =>
      if negb (sl_unpack_range_valid buf_len offset 16) then Fail else
      u ← peek offset 16 buf;
      us ← unpack_uuids n buf buf_len (offset + 16);
      Done (u :: us)
  end.

(** The values of an element: their number, with the array that received them. *)
Definition sl_unpack_ints (query : list obj) (buf : list Z) (offset query_length buf_len encoding : Z) : out (Z * list obj) :=
  tag ← sl_unpack_uint64_checked buf buf_len offset encoding;
  count ← sl_unpack_count tag query_length 8;
  ws ← unpack_words (Z.to_nat count) buf buf_len (offset + 8) encoding;
  Done (count, query ++ (uint64_t <$> ws)).

Fixpoint unpack_dates (count : nat) (buf : list Z) (buf_len offset encoding : Z) : out (list sl_time_t) :=
  match count with
  | O => Done []
  | S n =>
      w ← sl_unpack_uint64_checked buf buf_len offset encoding;
      t ← time_of_date w;
      ts ← unpack_dates n buf buf_len (offset + 8) encoding;
      Done (t :: ts)
  end.

Definition sl_unpack_date (query : list obj) (buf : list Z) (offset query_length buf_len encoding : Z) : out (Z * list obj) :=
  tag ← sl_unpack_uint64_checked buf buf_len offset encoding;
  count ← sl_unpack_count tag query_length 8;
  ts ← unpack_dates (Z.to_nat count) buf buf_len (offset + 8) encoding;
  Done (count, query ++ (time_t <$> ts)).

Definition sl_unpack_uuid (query : list obj) (buf : list Z) (offset query_length buf_len encoding : Z) : out (Z * list obj) :=
  tag ← sl_unpack_uint64_checked buf buf_len offset encoding;
  count ← sl_unpack_count tag query_length 16;
  us ← unpack_uuids (Z.to_nat count) buf buf_len (offset + 8);
  Done (count, query ++ (sl_uuid_t <$> us)).

Definition sl_unpack_floats (query : list obj) (buf : list Z) (offset query_length buf_len encoding : Z) : out (Z * list obj) :=
  tag ← sl_unpack_uint64_checked buf buf_len offset encoding;
  count ← sl_unpack_count tag query_length 8;
  ws ← unpack_words (Z.to_nat count) buf buf_len (offset + 8) encoding;
  Done (count, query ++ (double_t <$> ws)).

(** The fields of a tag: length or count, type, value. *)
Definition tag_size (w : Z) : Z := Z.land w 0xffff.
Definition tag_type (w : Z) : Z := Z.shiftr (Z.land w 0xffff0000) 16.
Definition tag_val (w : Z) : Z := Z.shiftr w 32.

Definition sl_unpack_CNID (query : list obj) (buf : list Z) (offset length_ buf_len encoding : Z) : out (list obj) :=
  if length_ <=? 16 then Done (query ++ [sl_cnids_t 0 0 []]) else
  if negb (sl_unpack_range_valid buf_len offset (length_ - 8)) then Fail else
  tag ← sl_unpack_uint64_checked buf buf_len offset encoding;
  let count := tag_size tag in
  if count =? 0 then Fail else
  if Z.quot (length_ - 2 * 8) 8 <? count then Fail else
  ids ← unpack_words (Z.to_nat count) buf buf_len (offset + 8) encoding;
  Done (query ++ [sl_cnids_t (tag_type tag) (tag_val tag) ids]).

Definition spotlight_get_utf16_string_encoding (buf : list Z) (offset query_length : Z) : out Z :=
  if 2 <=? query_length then
    bom ← peek offset 2 buf;
    Done (if bool_decide (bom = [0xff; 0xfe]) then Z.lor SL_ENC_LITTLE_ENDIAN SL_ENC_UTF_16
          else if bool_decide (bom = [0xfe; 0xff]) then Z.lor SL_ENC_BIG_ENDIAN SL_ENC_UTF_16 else SL_ENC_LITTLE_ENDIAN)
  else Done SL_ENC_LITTLE_ENDIAN.

(** [dalloc_strndup]: the chunk of a copy of the string in [n] bytes. *)
Definition dalloc_strndup (s : list Z) : obj := char_ptr (c_str s ++ [0]).

Section unpack.

(** [convert_string_allocate] from UTF-16 to UTF-8, [None] when it fails. *)
Context (convert_string_allocate : list Z -> option (list Z)).

(** The loop one level below, and the payload of a nested file metadata. *)
Definition loop_t : Type := list obj -> list Z -> Z -> Z -> Z -> Z -> Z -> Z -> out (Z * list obj).

Definition unpack_string (query : list obj) (buf : list Z) (offset cpx_query_type buf_len toc_offset encoding : Z) : out (Z * list obj) :=
  tag ← sl_unpack_uint64_checked buf buf_len offset encoding;
  let qlen := tag_size tag * 8 in
  let used_in_last_block := tag_val tag in
  if 8 <? used_in_last_block then Fail else
  let slen := qlen - 16 + used_in_last_block in
  if (qlen <=? 8) || negb (sl_unpack_range_valid buf_len offset qlen) then Fail else
  if cpx_query_type =? SQ_CPX_TYPE_STRING then
    if (slen <? 0) || (toc_offset <? offset + 8 + slen) then Fail else
    s ← peek (offset + 8) slen buf;
    Done (offset + qlen, query ++ [dalloc_strndup s])
  else
    unicode_encoding ← spotlight_get_utf16_string_encoding buf (offset + 8) slen;
    let mark_exists := negb (Z.land unicode_encoding SL_ENC_UTF_16 =? 0) in
    if negb (Z.land unicode_encoding SL_ENC_BIG_ENDIAN =? 0) then Fail else
    let slen := slen - (if mark_exists then 2 else 0) in
    let start := offset + (if mark_exists then 10 else 8) in
    if (slen <=? 0) || (toc_offset <? start + slen) then Fail else
    s ← peek start slen buf;
    match convert_string_allocate s with
    | None => Fail
    | Some tmp => Done (offset + qlen, query ++ [dalloc_strndup tmp])
    end.

(** "md031234" *)
Definition SL_MAGIC_BE : list Z := [109; 100; 48; 51; 49; 50; 51; 52].

Definition sl_unpack_r (loop : loop_t) (query : list obj) (buf : list Z) (buf_len : Z) : out (list obj) :=
  if buf_len <? 16 then Fail else
  magic ← peek 0 8 buf;
  let encoding := if bool_decide (magic = SL_MAGIC_BE) then SL_ENC_BIG_ENDIAN else SL_ENC_LITTLE_ENDIAN in
  let buf := drop 8 buf in
  let buf_len := buf_len - 8 in
  tag ← sl_unpack_uint64_checked buf buf_len 0 encoding;
  let toc_offset64 := u64 (u64 (tag_val tag - 1) * 8) in
  let buf := drop 8 buf in
  let buf_len := buf_len - 8 in
  let data_len := buf_len in
  if (65000 <? toc_offset64) || negb (sl_unpack_range_valid data_len toc_offset64 8) then Fail else
  let toc_offset := toc_offset64 in
  tag ← sl_unpack_uint64_checked buf buf_len toc_offset encoding;
  if negb (tag_type tag =? SQ_TYPE_TOC) then Fail else
  let toc_entry_count64 := tag_size tag in
  if toc_entry_count64 =? 0 then Fail else
  let toc_entry_count64 := toc_entry_count64 - 1 in
  if (UINT_MAX <? toc_entry_count64) || ((buf_len - (toc_offset + 8)) / 8 <? toc_entry_count64) then Fail else
  '(_, query) ← loop query buf 0 1 buf_len (toc_offset + 8) toc_entry_count64 encoding;
  Done query.

(** [sl_unpack_cpx], for a depth that its own test allows. *)
Definition unpack_cpx (loop : loop_t) (query : list obj) (buf : list Z) (offset cpx_query_type cpx_query_count buf_len toc_offset toc_count encoding : Z) :
    out (Z * list obj) :=
  if cpx_query_type =? SQ_CPX_TYPE_ARRAY then
    '(roffset, l) ← loop [] buf offset cpx_query_count buf_len toc_offset toc_count encoding;
    Done (roffset, query ++ [sl_array_t l])
  else if cpx_query_type =? SQ_CPX_TYPE_DICT then
    '(roffset, l) ← loop [] buf offset cpx_query_count buf_len toc_offset toc_count encoding;
    Done (roffset, query ++ [sl_dict_t l])
  else if (cpx_query_type =? SQ_CPX_TYPE_STRING) || (cpx_query_type =? SQ_CPX_TYPE_UTF16_STRING) then
    unpack_string query buf offset cpx_query_type buf_len toc_offset encoding
  else if cpx_query_type =? SQ_CPX_TYPE_FILEMETA then
    tag ← sl_unpack_uint64_checked buf buf_len offset encoding;
    let qlen := tag_size tag * 8 in
    if (qlen <? 8) || negb (sl_unpack_range_valid buf_len offset qlen) then Fail
    else if qlen =? 8 then Done (offset + qlen, query ++ [sl_filemeta_t []])
    else
      fm ← sl_unpack_r loop [] (drop (Z.to_nat (offset + 8)) buf) (qlen - 8);
      Done (offset + qlen, query ++ [sl_filemeta_t fm])
  else if cpx_query_type =? SQ_CPX_TYPE_CNIDS then
    tag ← sl_unpack_uint64_checked buf buf_len offset encoding;
    let qlen := tag_size tag * 8 in
    if (qlen <? 8) || negb (sl_unpack_range_valid buf_len offset qlen) then Fail else
    query ← sl_unpack_CNID query buf (offset + 8) qlen buf_len encoding;
    Done (offset + qlen, query)
  else Fail.

(** One turn of the loop of [sl_unpack_loop]: the array, the offset and the count that is left. *)
Definition unpack_elem (cpx : list obj -> Z -> Z -> Z -> out (Z * list obj))
    (query : list obj) (buf : list Z) (offset count buf_len toc_offset toc_count encoding : Z) : out (list obj * Z * Z) :=
  tag ← sl_unpack_uint64_checked buf buf_len offset encoding;
  let query_length := tag_size tag * 8 in
  let query_type := tag_type tag in
  if query_length =? 0 then Fail else
  if negb (sl_unpack_range_valid buf_len offset query_length) then Fail else
  let values (unpack : list obj -> list Z -> Z -> Z -> Z -> Z -> out (Z * list obj)) :=
    '(subcount, query) ← unpack query buf offset query_length buf_len encoding;
    if count <? subcount then Fail else Done (query, offset + query_length, count - subcount) in
  if query_type =? SQ_TYPE_COMPLEX then
    let toc_index64 := tag_val tag in
    if (toc_index64 =? 0) || (toc_count <? toc_index64) then Fail else
    let toc_index := toc_index64 - 1 in
    if ((SIZE_MAX - toc_offset) / 8 <? toc_index) || (INT_MAX <? toc_offset + toc_index * 8) ||
       negb (sl_unpack_range_valid buf_len (toc_offset + toc_index * 8) 8) then Fail else
    entry ← sl_unpack_uint64 buf (toc_offset + toc_index * 8) encoding;
    '(offset, query) ← cpx query (offset + 8) (tag_type entry) (tag_val entry);
    Done (query, offset, count - 1)
  else if query_type =? SQ_TYPE_NULL then
    let subcount := tag_val tag in
    if 64 <? subcount then Fail else
    let query := query ++ replicate (Z.to_nat subcount) sl_nil_t in
    if count <? subcount then Fail else Done (query, offset + query_length, count - subcount)
  else if query_type =? SQ_TYPE_BOOL then
    Done (query ++ [sl_bool_t (negb (tag_val tag =? 0))], offset + query_length, count - 1)
  else if query_type =? SQ_TYPE_INT64 then values sl_unpack_ints
  else if query_type =? SQ_TYPE_UUID then values sl_unpack_uuid
  else if query_type =? SQ_TYPE_FLOAT then values sl_unpack_floats
  else if query_type =? SQ_TYPE_DATE then values sl_unpack_date
  else Fail.

(** The loop; every turn moves the offset forward, so the bytes in front of the TOC
    bound the turns.  Running out of them would be [Undef]. *)
Fixpoint unpack_iter (fuel : nat) (cpx : list obj -> Z -> Z -> Z -> out (Z * list obj))
    (query : list obj) (buf : list Z) (offset count buf_len toc_offset toc_count encoding : Z) : out (Z * list obj) :=
  if (0 <? count) && (u32 offset <? toc_offset) then
    match fuel with
    | O => Undef
    | S fuel =>
        '(query, offset, count) ← unpack_elem cpx query buf offset count buf_len toc_offset toc_count encoding;
        unpack_iter fuel cpx query buf offset count buf_len toc_offset toc_count encoding
    end
  else Done (offset, query).

(** The depth grows by 1 at each call of [sl_unpack_loop] and [sl_unpack_cpx]; [lim] is
    what is left of [SUBQ_SAFETY_LIM]. *)
Fixpoint sl_unpack_loop (lim : nat) : loop_t :=
  fun query buf offset count buf_len toc_offset toc_count encoding =>
  match lim with
  | O => Fail
  | S lim =>
      unpack_iter (Z.to_nat toc_offset)
        (fun query offset cpx_query_type cpx_query_count =>
           match lim with
           | O => Fail
           | S lim => unpack_cpx (sl_unpack_loop lim) query buf offset cpx_query_type cpx_query_count buf_len toc_offset toc_count encoding
           end)
        query buf offset count buf_len toc_offset toc_count encoding
  end.

Definition sl_unpack_cpx (lim : nat) (query : list obj) (buf : list Z)
    (offset cpx_query_type cpx_query_count buf_len toc_offset toc_count encoding : Z) : out (Z * list obj) :=
  match lim with
  | O => Fail
  | S lim => unpack_cpx (sl_unpack_loop lim) query buf offset cpx_query_type cpx_query_count buf_len toc_offset toc_count encoding
  end.

Definition sl_unpack_len (query : list obj) (buf : list Z) (buf_len : Z) : out (list obj) :=
  sl_unpack_r (sl_unpack_loop SUBQ_SAFETY_LIM) query buf buf_len.

Definition sl_unpack (query : list obj) (buf : list Z) : out (list obj) := sl_unpack_len query buf MAX_SLQ_DAT.
End unpack.
