(* ===== verification/SpotlightFacts.v ===== *)
(** * Spotlight payloads: lemmas

    The words of a payload, the exact bytes the packer writes, and the progress and
    bounds of the unpacker. *)

From S2P Require Import Prelude Bytes Spotlight.

(** ** Outcomes *)

Lemma out_bind_Done {A B} (f : A -> out B) (m : out A) b : (m ≫= f) = Done b <-> exists a, m = Done a /\ f a = Done b.
Proof. destruct m; cbn; naive_solver. Qed.

(** A partial correctness judgement: no access is wild, a result satisfies [Q], and [R]
    holds when a conversion overflows.  It is [safe] when none does, and [bounded] when
    some may. *)
Definition judge {A} (R : Prop) (m : out A) (Q : A -> Prop) : Prop :=
  match m with Done a => Q a | Fail => True | Undef => False | Overflow => R end.
Notation safe := (judge False).
Notation bounded := (judge True).

Lemma safe_bind {A B} R (m : out A) (f : A -> out B) Q : judge R m (fun a => judge R (f a) Q) -> judge R (m ≫= f) Q.
Proof. by destruct m. Qed.

Lemma bind_assoc_out {A B C} (m : out A) (f : A -> out B) (g : B -> out C) : ((m ≫= f) ≫= g) = (m ≫= (fun a => f a ≫= g)).
Proof. by destruct m. Qed.

Lemma safe_mono {A} R (m : out A) (P Q : A -> Prop) : judge R m P -> (forall a, P a -> Q a) -> judge R m Q.
Proof. destruct m; cbn; auto. Qed.

Lemma safe_if {A} R (b : bool) (m : out A) Q : (b = false -> judge R m Q) -> judge R (if b then Fail else m) Q.
Proof. destruct b; cbn; auto. Qed.

Lemma safe_if_not {A} R (b : bool) (m : out A) Q : (b = true -> judge R m Q) -> judge R (if negb b then Fail else m) Q.
Proof. destruct b; cbn; auto. Qed.

(** ** Words *)

Definition word (w : Z) : Prop := 0 <= w < 2 ^ 64.

Definition le64 (w : Z) : list Z := le32 (u32 w) ++ le32 (u32 (Z.shiftr w 32)).

Lemma le64_length w : length (le64 w) = 8%nat.
Proof. done. Qed.

#[global] Arguments le64 : simpl never.

Definition combine8 (p : list Z) : Z :=
  let p i := nth i p 0 in
  Z.lor (Z.lor (Z.lor (Z.lor (Z.lor (Z.lor (Z.lor (p 0%nat) (Z.shiftl (p 1%nat) 8)) (Z.shiftl (p 2%nat) 16))
    (Z.shiftl (p 3%nat) 24)) (Z.shiftl (p 4%nat) 32)) (Z.shiftl (p 5%nat) 40)) (Z.shiftl (p 6%nat) 48)) (Z.shiftl (p 7%nat) 56).

Lemma lor_shift x y n : 0 <= n -> 0 <= x < 2 ^ n -> 0 <= y -> Z.lor x (Z.shiftl y n) = x + y * 2 ^ n.
Proof.
  intros Hn Hx Hy. rewrite Z.lor_comm, (lor_add _ _ n); [|done|done|].
  - rewrite Z.shiftl_mul_pow2 by done. lia.
  - rewrite Z.shiftl_mul_pow2 by done. apply Z.mod_mul. lia.
Qed.

Lemma combine8_sum p : Forall byte p ->
  combine8 p = nth 0 p 0 + nth 1 p 0 * 2 ^ 8 + nth 2 p 0 * 2 ^ 16 + nth 3 p 0 * 2 ^ 24 + nth 4 p 0 * 2 ^ 32 + nth 5 p 0 * 2 ^ 40 +
    nth 6 p 0 * 2 ^ 48 + nth 7 p 0 * 2 ^ 56.
Proof.
  intros Hp. assert (forall i, 0 <= nth i p 0 < 2 ^ 8) as H by (intros i; apply (nth_byte p i Hp)).
  pose proof (H 0%nat). pose proof (H 1%nat). pose proof (H 2%nat). pose proof (H 3%nat). pose proof (H 4%nat). pose proof (H 5%nat).
  pose proof (H 6%nat). pose proof (H 7%nat). clear H. unfold combine8. cbv zeta.
  repeat match goal with
  | |- context [Z.lor ?x (Z.shiftl ?y ?n)] =>
      lazymatch x with context [Z.lor] => fail | _ => rewrite (lor_shift x y n) by lia end
  end. lia.
Qed.

Lemma combine8_le64 w rest : word w -> combine8 (le64 w ++ rest) = w.
Proof.
  intros Hw. change (combine8 (le64 w ++ rest)) with (combine8 (le64 w)). unfold word in Hw. rewrite combine8_sum.
  - unfold le64, le32, wrap. cbn [app nth]. rewrite !Z.shiftr_div_pow2 by lia. zmod.
  - unfold le64, le32, wrap. repeat constructor; apply Z.mod_pos_bound; lia.
Qed.

Lemma peek_at pre bs rest off n : off = Z.of_nat (length pre) -> n = Z.of_nat (length bs) -> peek off n (pre ++ bs ++ rest) = Done bs.
Proof.
  intros -> ->. unfold peek. destruct (_ && _) eqn:E; [|rewrite !length_app in E; bool_lia].
  by rewrite !Nat2Z.id, drop_app_length, take_app_length.
Qed.

Lemma get_le64 pre w rest off : word w -> off = Z.of_nat (length pre) -> sl_get_le64 (pre ++ le64 w ++ rest) off = Done w.
Proof.
  intros Hw Hoff. unfold sl_get_le64. rewrite (peek_at _ (le64 w) _ off 8) by done. cbn [mbind out_bind]. f_equal.
  rewrite <- (combine8_le64 w []) at 9 by done. by rewrite app_nil_r.
Qed.

(** ** What the packer writes *)

(** The bytes [bs] were written at [n]; what lies behind them may have changed. *)
Definition grown (n : nat) (bs b b' : list Z) : Prop := length b' = length b /\ take (n + length bs) b' = take n b ++ bs.

Lemma grown_nil n b : grown n [] b b.
Proof. split; [done|]. by rewrite Nat.add_0_r, app_nil_r. Qed.

Lemma grown_app n x y b b' b'' : grown n x b b' -> grown (n + length x) y b' b'' -> grown n (x ++ y) b b''.
Proof.
  intros [Hl Hx] [Hl' Hy]. split; [congruence|]. by rewrite length_app, Nat.add_assoc, Hy, Hx, app_assoc.
Qed.

Lemma blit_front n bs x y : (n + length bs <= length x)%nat -> blit n bs (x ++ y) = blit n bs x ++ y.
Proof. intros H. unfold blit. rewrite take_app_le, drop_app_le by lia. by rewrite <- !app_assoc. Qed.

Lemma take_blit_inside m n bs b : (n + length bs <= m <= length b)%nat -> take m (blit n bs b) = blit n bs (take m b).
Proof.
  intros H. assert (length (take m b) = m) as Hm by (rewrite length_take; lia).
  rewrite <- (take_drop m b) at 1. rewrite blit_front by lia. apply take_app_length'. rewrite length_blit; lia.
Qed.

Lemma blit_mid x y z bs : length bs = length y -> blit (length x) bs (x ++ y ++ z) = x ++ bs ++ z.
Proof.
  intros H. unfold blit. rewrite take_app_length. do 2 f_equal. rewrite H, app_assoc. apply drop_app_length'. by rewrite length_app.
Qed.

Lemma grown_blit n bs b : (n + length bs <= length b)%nat -> grown n bs b (blit n bs b).
Proof.
  intros H. split; [by apply length_blit|]. unfold blit. rewrite app_assoc. apply take_app_length'. rewrite length_app, length_take. lia.
Qed.

(** Bytes inside of what was written are overwritten. *)
Lemma grown_patch n x y z d b b' : grown n (x ++ y ++ z) b b' -> (n + length (x ++ y ++ z) <= length b)%nat -> length d = length y ->
  grown n (x ++ d ++ z) b (blit (n + length x) d b').
Proof.
  intros [Hl Ht] Hn Hd. rewrite !length_app in *. split.
  - rewrite length_blit; [done|lia].
  - rewrite !length_app, Hd, take_blit_inside, Ht by lia.
    replace (n + length x)%nat with (length (take n b ++ x)) by (rewrite length_app, length_take; lia).
    rewrite app_assoc, blit_mid by done. by rewrite <- app_assoc.
Qed.

Lemma poke_in off bs b : 0 <= off -> off + zlen bs <= zlen b -> poke off bs b = Done (blit (Z.to_nat off) bs b).
Proof. intros Ho Hl. unfold poke. destruct (_ && _) eqn:E; [done|bool_lia]. Qed.

Lemma put_le64 base b off val : 0 <= base + off -> base + off + 8 <= zlen b ->
  sl_put_le64 base b off val = Done (blit (Z.to_nat (base + off)) (le64 val) b).
Proof.
  intros Ho Hl. unfold sl_put_le64, sl_put_le32. rewrite poke_in by (change (zlen (le32 (u32 val))) with 4; lia). cbn [mbind out_bind].
  rewrite poke_in; [|lia|rewrite length_blit by (cbn; lia); change (zlen (le32 (u32 (Z.shiftr val 32)))) with 4; lia].
  f_equal. unfold le64. rewrite <- blit_blit by (cbn; lia). f_equal. cbn [length le32]. lia.
Qed.

Lemma slvalc_safe base b off maxoff val : 0 <= base -> base + maxoff <= zlen b ->
  safe (slvalc base b off maxoff val) (fun b' => 0 <= off /\ off + 8 <= maxoff /\ b' = blit (Z.to_nat (base + off)) (le64 val) b).
Proof.
  intros Hb Hm. unfold slvalc. apply safe_if. intros E. rewrite put_le64 by bool_lia. cbn. split; [bool_lia|]. split; [bool_lia|done].
Qed.

(** The state of a packing at [base] with the limit [maxoff]. *)
Record room (base maxoff : Z) (p : packing) : Prop := {
  r_base : 0 <= base;
  r_buf : base + maxoff <= zlen (p_buf p);
  r_toc : zlen (p_toc p) = MAX_SLQ_TOC;
  r_idx : 0 <= toc_idx p
}.

(** From [p] at [offset], [bs] and the TOC entries [ts] were written. *)
Record wrote (base maxoff offset : Z) (bs : list Z) (ts : list Z) (p : packing) (off' : Z) (p' : packing) : Prop := {
  wr_off : off' = offset + zlen bs;
  wr_max : bs <> [] -> off' <= maxoff;
  wr_idx : toc_idx p' = toc_idx p + zlen ts;
  wr_buf : grown (Z.to_nat (base + offset)) bs (p_buf p) (p_buf p');
  wr_toc : grown (Z.to_nat (8 + toc_idx p * 8)) (concat (le64 <$> ts)) (p_toc p) (p_toc p')
}.

Lemma concat_le64_length ts : length (concat (le64 <$> ts)) = (8 * length ts)%nat.
Proof. induction ts as [|t ts IH]; [done|]. cbn [fmap list_fmap concat length]. rewrite length_app, le64_length, IH. lia. Qed.

Lemma wrote_nil base maxoff offset p : wrote base maxoff offset [] [] p offset p.
Proof. split; [cbn; lia|done|cbn; lia|apply grown_nil|apply grown_nil]. Qed.

Lemma wrote_app base maxoff offset x y tx ty p o1 p1 o2 p2 : 0 <= base + offset -> 0 <= toc_idx p ->
  wrote base maxoff offset x tx p o1 p1 -> wrote base maxoff o1 y ty p1 o2 p2 -> wrote base maxoff offset (x ++ y) (tx ++ ty) p o2 p2.
Proof.
  intros Hb Hi [-> Hm1 Ht1 Hb1 Hc1] [-> Hm2 Ht2 Hb2 Hc2]. split.
  - rewrite length_app. lia.
  - destruct y; [|auto]. rewrite app_nil_r. cbn. rewrite Z.add_0_r. exact Hm1.
  - rewrite Ht2, Ht1, length_app. lia.
  - eapply grown_app; [done|]. by replace (Z.to_nat (base + offset) + length x)%nat with (Z.to_nat (base + (offset + zlen x))) by lia.
  - rewrite fmap_app, concat_app. eapply grown_app; [done|]. rewrite concat_le64_length, Ht1 in *.
    by replace (Z.to_nat (8 + toc_idx p * 8) + 8 * length tx)%nat with (Z.to_nat (8 + (toc_idx p + zlen tx) * 8)) by lia.
Qed.

Lemma wrote_room base maxoff offset bs ts p off' p' : wrote base maxoff offset bs ts p off' p' -> room base maxoff p -> room base maxoff p'.
Proof. intros [_ _ Hi [Hl _] [Ht _]] [H1 H2 H3 H4]. split; [done|by rewrite Hl|by rewrite Ht|lia]. Qed.

(** One word into the buffer, one into the TOC. *)
Lemma put_buf_grown base maxoff offset val p : room base maxoff p ->
  safe (put_buf base offset maxoff val p) (fun p' => 0 <= offset /\ offset + 8 <= maxoff /\
    exists b, p' = Packing b (p_toc p) (toc_idx p) /\ grown (Z.to_nat (base + offset)) (le64 val) (p_buf p) b).
Proof.
  intros [H1 H2 H3 H4]. unfold put_buf. apply safe_bind. eapply safe_mono; [by apply slvalc_safe|].
  intros b' (Ho & Hm & ->). cbn. split; [done|]. split; [done|]. eexists. split; [done|]. apply grown_blit. rewrite le64_length. lia.
Qed.

(** A write to the buffer alone. *)
Lemma wrote_buf base maxoff offset bs b b' t i off' : off' = offset + zlen bs -> off' <= maxoff ->
  grown (Z.to_nat (base + offset)) bs b b' -> wrote base maxoff offset bs [] (Packing b t i) off' (Packing b' t i).
Proof. intros -> Hm Hg. split; [done|done|cbn; lia|done|apply grown_nil]. Qed.

Lemma put_toc_wrote base maxoff offset val p : room base maxoff p -> toc_idx p < 1023 ->
  safe (put_toc val p) (fun p' => toc_idx p' = toc_idx p /\ wrote base maxoff offset [] [val] p offset (next_toc p')).
Proof.
  intros [H1 H2 H3 H4] Hi. unfold MAX_SLQ_TOC in H3. unfold put_toc, slvalc. apply safe_bind, safe_if. intros E.
  rewrite put_le64 by lia. cbn. split; [done|]. split; cbn [next_toc p_buf p_toc toc_idx]; [cbn; lia|done|cbn; lia|apply grown_nil|].
  cbn [fmap list_fmap concat]. rewrite app_nil_r. apply grown_blit. rewrite le64_length. lia.
Qed.

(** ** The format *)

(** The TOC entries of a value, the nested payloads of file metadata apart. *)
Fixpoint ntoc (o : obj) : nat :=
  match o with
  | sl_array_t l | sl_dict_t l => S (foldr (fun o n => ntoc o + n) O l)%nat
  | sl_filemeta_t _ | char_ptr _ | sl_cnids_t _ _ _ => 1
  | _ => 0
  end.
Definition ntocs (l : list obj) : nat := foldr (fun o n => ntoc o + n)%nat O l.

(** No TOC, that of a nested payload included, has 1024 entries or more. *)
Fixpoint slim (o : obj) : Prop :=
  match o with
  | sl_array_t l | sl_dict_t l => foldr (fun o P => slim o /\ P) True l
  | sl_filemeta_t l => foldr (fun o P => slim o /\ P) True l /\ (ntocs l <= 1023)%nat
  | _ => True
  end.
Definition slims (l : list obj) : Prop := foldr (fun o P => slim o /\ P) True l.

Definition MAGIC : list Z := [52; 51; 50; 49; 51; 48; 100; 109].

Section format_list.
Context (f : obj -> Z -> Z -> list Z * list Z).

Fixpoint format_list (l : list obj) (offset idx : Z) : list Z * list Z :=
  match l with
  | [] => ([], [])
  | o :: l =>
      let '(b, t) := f o offset idx in
      let '(b', t') := format_list l (offset + zlen b) (idx + zlen t) in
      (b ++ b', t ++ t')
  end.

Definition format_payload (l : list obj) : list Z :=
  let '(b, t) := format_list l 0 0 in
  MAGIC ++ le32 (u32 (zlen b / 8 + 1 + zlen t + 1)) ++ le32 (u32 (zlen b / 8 + 1)) ++ b ++
  le64 (sl_pack_tag SQ_TYPE_TOC (zlen t + 1) 0) ++ concat (le64 <$> t).
End format_list.

(** The whole units and the use of the last one of a string of [len] bytes. *)
Definition octets (len : Z) : Z := len / 8 + (if Z.land len 7 =? 0 then 0 else 1).
Definition used (len : Z) : Z := if len mod 8 =? 0 then 8 else len mod 8.

(** The bytes and the TOC entries of a value at [offset] with the next TOC slot [idx]. *)
Fixpoint format (o : obj) (offset idx : Z) : list Z * list Z :=
  let cpx := le64 (sl_pack_tag SQ_TYPE_COMPLEX 1 (idx + 1)) in
  let toc type val := sl_pack_tag type ((offset + SL_OFFSET_DELTA) / 8) val in
  let members type l :=
    let '(b, t) := format_list format l (offset + 8) (idx + 1) in
    (cpx ++ b, toc type (zlen l) :: t) in
  match o with
  | sl_array_t l => members SQ_CPX_TYPE_ARRAY l
  | sl_dict_t l => members SQ_CPX_TYPE_DICT l
  | sl_filemeta_t l =>
      let fm := format_payload format l in
      let fm := if 40 <? zlen fm then fm else [] in
      (cpx ++ le64 (sl_pack_tag SQ_TYPE_DATA (zlen fm / 8 + 1) 8) ++ fm, [toc SQ_CPX_TYPE_FILEMETA (zlen fm / 8)])
  | uint64_t u => (le64 (sl_pack_tag SQ_TYPE_INT64 2 1) ++ le64 u, [])
  | char_ptr s =>
      let len := strnlen s in
      (cpx ++ le64 (sl_pack_tag SQ_TYPE_DATA (octets len + 1) (used len)) ++
         c_str s ++ replicate (Z.to_nat (octets len * 8 - len)) 0, [toc SQ_CPX_TYPE_STRING (used len)])
  | sl_bool_t b => (le64 (sl_pack_tag SQ_TYPE_BOOL 1 (if b then 1 else 0)), [])
  | double_t d => (le64 (sl_pack_tag SQ_TYPE_FLOAT 2 1) ++ le64 d, [])
  | sl_nil_t => (le64 (sl_pack_tag SQ_TYPE_NULL 1 1), [])
  | time_t t => (le64 (sl_pack_tag SQ_TYPE_DATE 2 1) ++ le64 (date_of_time t), [])
  | sl_uuid_t u => (le64 (sl_pack_tag SQ_TYPE_UUID 3 1) ++ u, [])
  | sl_cnids_t unkn1 context ids =>
      let n := zlen ids in
      (cpx ++ le64 (sl_pack_tag SQ_TYPE_CNIDS (if 0 <? n then n + 1 + 1 else n + 1) 8) ++
         (if 0 <? n then le64 (sl_pack_tag unkn1 n context) ++ concat (le64 <$> ids) else []), [toc SQ_CPX_TYPE_CNIDS 0])
  | other => ([], [])
  end.

(** Induction over a value and the values it holds. *)
Lemma obj_rect' (P : obj -> Prop) :
  (forall l, Forall P l -> P (sl_array_t l)) -> (forall l, Forall P l -> P (sl_dict_t l)) -> (forall l, Forall P l -> P (sl_filemeta_t l)) ->
  (forall u, P (uint64_t u)) -> (forall s, P (char_ptr s)) -> (forall b, P (sl_bool_t b)) -> (forall w, P (double_t w)) -> P sl_nil_t ->
  (forall t, P (time_t t)) -> (forall u, P (sl_uuid_t u)) -> (forall a b l, P (sl_cnids_t a b l)) -> P other -> forall o, P o.
Proof.
  intros Ha Hd Hf H1 H2 H3 H4 H5 H6 H7 H8 H9. fix IH 1. intros o.
  destruct o as [l|l|l| | | | | | | | |];
    [apply Ha|apply Hd|apply Hf|apply H1|apply H2|apply H3|apply H4|apply H5|apply H6|apply H7|apply H8|apply H9];
    induction l; constructor; [apply IH|done|apply IH|done|apply IH|done].
Qed.

(** A value is well sized when its UUIDs have 16 bytes. *)
Fixpoint sized (o : obj) : Prop :=
  match o with
  | sl_array_t l | sl_dict_t l | sl_filemeta_t l => foldr (fun o P => sized o /\ P) True l
  | sl_uuid_t u => length u = 16%nat
  | _ => True
  end.

Lemma foldr_and (Q : obj -> Prop) l : foldr (fun o P => Q o /\ P) True l <-> Forall Q l.
Proof. induction l as [|o l IH]; cbn; [by split|]. by rewrite Forall_cons, IH. Qed.

Lemma format_list_cons o l offset idx :
  format_list format (o :: l) offset idx =
  ((format o offset idx).1 ++ (format_list format l (offset + zlen (format o offset idx).1) (idx + zlen (format o offset idx).2)).1,
   (format o offset idx).2 ++ (format_list format l (offset + zlen (format o offset idx).1) (idx + zlen (format o offset idx).2)).2).
Proof. cbn [format_list]. destruct (format o offset idx) as [b t]. cbn [fst snd]. by destruct (format_list _ _ _ _). Qed.

Lemma format_list_toc l : Forall (fun o => forall offset idx, length (format o offset idx).2 = ntoc o) l ->
  forall offset idx, length (format_list format l offset idx).2 = ntocs l.
Proof.
  induction 1 as [|o l Ho Hl IH]; intros offset idx; [done|]. rewrite format_list_cons. cbn [snd]. rewrite length_app, Ho, IH. done.
Qed.

Lemma format_toc o : forall offset idx, length (format o offset idx).2 = ntoc o.
Proof.
  induction o using obj_rect'; intros offset idx; cbn [format ntoc]; try done.
  - specialize (format_list_toc l H (offset + 8) (idx + 1)) as E. destruct (format_list _ _ _ _). cbn in *. by f_equal.
  - specialize (format_list_toc l H (offset + 8) (idx + 1)) as E. destruct (format_list _ _ _ _). cbn in *. by f_equal.
Qed.

Lemma formats_toc l offset idx : length (format_list format l offset idx).2 = ntocs l.
Proof. apply format_list_toc, Forall_true. intros. apply format_toc. Qed.

(** ** The packer writes the format *)

Definition writes (base maxoff offset : Z) (e : list Z * list Z) (p : packing) (r : Z * packing) : Prop :=
  wrote base maxoff offset e.1 e.2 p r.1 r.2.

Section packer.
Context (base maxoff : Z).

(** Sequencing a write with what follows it. *)
Lemma put_buf_then offset val p k (Q : Z * packing -> Prop) : room base maxoff p ->
  (forall p', room base maxoff p' -> toc_idx p' = toc_idx p -> wrote base maxoff offset (le64 val) [] p (offset + 8) p' -> safe (k p') Q) ->
  safe (put_buf base offset maxoff val p ≫= k) Q.
Proof.
  intros Hr Hk. apply safe_bind. eapply safe_mono; [by apply put_buf_grown|]. intros p' (Ho & Hm & b & -> & Hg).
  assert (wrote base maxoff offset (le64 val) [] p (offset + 8) (Packing b (p_toc p) (toc_idx p))) as Hw by (destruct p; by apply wrote_buf).
  apply Hk; [by eapply wrote_room|done|done].
Qed.

Lemma wrote_seq offset x y tx ty p o1 p1 o2 p2 : room base maxoff p -> 0 <= offset ->
  wrote base maxoff offset x tx p o1 p1 -> wrote base maxoff o1 y ty p1 o2 p2 -> wrote base maxoff offset (x ++ y) (tx ++ ty) p o2 p2.
Proof. intros [Hb _ _ Hi] Ho. apply wrote_app; lia. Qed.

(** The TOC entry, then the tag of a complex element. *)
Lemma put_cpx_then offset toc p k (Q : Z * packing -> Prop) : room base maxoff p -> 0 <= offset -> toc_idx p < 1023 ->
  (forall p', room base maxoff (next_toc p') -> toc_idx (next_toc p') = toc_idx p + 1 ->
     wrote base maxoff offset (le64 (sl_pack_tag SQ_TYPE_COMPLEX 1 (toc_idx p + 1))) [toc] p (offset + 8) (next_toc p') -> safe (k p') Q) ->
  safe (p ← put_toc toc p; p ← put_buf base offset maxoff (sl_pack_tag SQ_TYPE_COMPLEX 1 (toc_idx p + 1)) p; k p) Q.
Proof.
  intros Hr Ho Hi Hk. apply safe_bind. eapply safe_mono; [by apply (put_toc_wrote base maxoff offset)|]. intros p1 [E1 Hw1].
  pose proof (wrote_room _ _ _ _ _ _ _ _ Hw1 Hr) as Hr1.
  apply safe_bind. eapply safe_mono; [apply put_buf_grown; destruct Hr1; split; [done..|rewrite E1; apply Hr]|].
  intros p2 (_ & Hm & b & -> & Hg). rewrite E1.
  assert (wrote base maxoff offset (le64 (sl_pack_tag SQ_TYPE_COMPLEX 1 (toc_idx p + 1))) [toc] p (offset + 8)
    (next_toc (Packing b (p_toc p1) (toc_idx p)))) as Hw.
  { destruct Hr as [Hb _ _ Hidx]. apply (wrote_app _ _ _ [] _ [toc] [] _ offset (next_toc p1)); [lia|done|done|].
    unfold next_toc. cbn [p_buf p_toc toc_idx]. rewrite E1 in *. by apply wrote_buf. }
  apply Hk; [by eapply wrote_room|done|done].
Qed.

Lemma pack_ids_writes ids : forall offset p, room base maxoff p -> 0 <= offset ->
  safe (pack_ids base maxoff ids offset p) (writes base maxoff offset (concat (le64 <$> ids), []) p).
Proof.
  induction ids as [|id ids IH]; intros offset p Hr Ho; cbn [pack_ids]; [apply wrote_nil|].
  apply put_buf_then; [done|]. intros p1 Hr1 _ Hw1. eapply safe_mono; [apply IH; [done|lia]|]. intros [o2 p2] Hw2.
  exact (wrote_seq _ _ _ [] [] _ _ _ _ _ Hr Ho Hw1 Hw2).
Qed.

(** Two words: a tag and a value. *)
Lemma pack_two tag w offset p : room base maxoff p -> 0 <= offset ->
  safe (p ← put_buf base offset maxoff tag p; p ← put_buf base (offset + 8) maxoff w p; Done (offset + 2 * 8, p))
    (writes base maxoff offset (le64 tag ++ le64 w, []) p).
Proof.
  intros Hr Ho. apply put_buf_then; [done|]. intros p1 Hr1 _ Hw1. apply put_buf_then; [done|]. intros p2 Hr2 _ Hw2. unfold writes. cbn [judge fst snd].
  replace (offset + 2 * 8) with (offset + 8 + 8) by lia. exact (wrote_seq _ _ _ [] [] _ _ _ _ _ Hr Ho Hw1 Hw2).
Qed.

(** A tag alone. *)
Lemma pack_one tag offset p : room base maxoff p ->
  safe (p ← put_buf base offset maxoff tag p; Done (offset + 8, p)) (writes base maxoff offset (le64 tag, []) p).
Proof. intros Hr. apply put_buf_then; [done|]. intros p1 Hr1 _ Hw1. exact Hw1. Qed.

(** A copy of [bs] behind what was written. *)
Lemma copy_buf_then offset bs p k (Q : Z * packing -> Prop) : room base maxoff p -> 0 <= offset -> offset + zlen bs <= maxoff ->
  (forall p', room base maxoff p' -> toc_idx p' = toc_idx p -> wrote base maxoff offset bs [] p (offset + zlen bs) p' -> safe (k p') Q) ->
  safe (copy_buf (base + offset) bs p ≫= k) Q.
Proof.
  intros Hr Ho Hm Hk. destruct Hr as [H1 H2 H3 H4] eqn:E. clear E. unfold copy_buf. rewrite poke_in by lia. cbn [mbind out_bind].
  assert (wrote base maxoff offset bs [] p (offset + zlen bs) (Packing (blit (Z.to_nat (base + offset)) bs (p_buf p)) (p_toc p) (toc_idx p))) as Hw.
  { destruct p. apply wrote_buf; [done|done|]. apply grown_blit. cbn in *. lia. }
  apply Hk; [by eapply wrote_room|done|done].
Qed.

Lemma pack_uuid_writes u offset p : room base maxoff p -> 0 <= offset -> length u = 16%nat ->
  safe (sl_pack_uuid base maxoff u offset p) (writes base maxoff offset (format (sl_uuid_t u) offset (toc_idx p)) p).
Proof.
  intros Hr Ho Hu. apply put_buf_then; [done|]. intros p1 Hr1 _ Hw1. apply safe_if. intros E.
  rewrite <- (Z.add_assoc base). apply copy_buf_then; [done|lia|rewrite Hu; bool_lia|]. intros p2 Hr2 _ Hw2. rewrite Hu in Hw2. unfold writes. cbn [judge fst snd format].
  exact (wrote_seq _ _ _ [] [] _ _ _ _ _ Hr Ho Hw1 Hw2).
Qed.

Lemma pack_CNID_writes unkn1 context ids offset p : room base maxoff p -> 0 <= offset -> toc_idx p < 1023 ->
  safe (sl_pack_CNID base maxoff unkn1 context ids offset p)
    (writes base maxoff offset (format (sl_cnids_t unkn1 context ids) offset (toc_idx p)) p).
Proof.
  intros Hr Ho Hi. unfold sl_pack_CNID. apply put_cpx_then; [done..|]. intros p1 Hr1 _ Hw1.
  apply put_buf_then; [done|]. intros p2 Hr2 _ Hw2. pose proof (wrote_seq _ _ _ _ [] _ _ _ _ _ Hr Ho Hw1 Hw2) as Hw12.
  unfold writes. cbn [format fst snd]. destruct (0 <? zlen ids); [|cbn [judge fst snd]; by rewrite app_nil_r].
  apply put_buf_then; [done|]. intros p3 Hr3 _ Hw3. eapply safe_mono; [apply pack_ids_writes; [done|lia]|]. intros [o4 p4] Hw4. cbn [fst snd].
  rewrite app_assoc. assert (0 <= offset + 8 + 8) as Ho2 by lia. pose proof (wrote_seq _ _ _ [] [] _ _ _ _ _ Hr2 Ho2 Hw3 Hw4) as Hw34.
  exact (wrote_seq _ _ _ _ [] _ _ _ _ _ Hr Ho Hw12 Hw34).
Qed.

Lemma octets_spec len : 0 <= len -> 0 <= octets len /\ octets len * 8 - 8 + used len = len \/ len = 0.
Proof.
  intros H. destruct (decide (len = 0)); [by right|]. left. unfold octets, used. rewrite mask_07.
  repeat case_test; zmod.
Qed.

Lemma octets_bounds len : 0 <= len -> len <= octets len * 8 < len + 8 /\ 0 <= octets len.
Proof. intros H. unfold octets. rewrite mask_07. case_test; zmod. Qed.

Lemma c_str_prefix s : c_str s = take (length (c_str s)) s.
Proof. induction s as [|c s IH]; [done|]. cbn. destruct (c =? 0); [done|]. cbn. by f_equal. Qed.

(** The text over the zeros. *)
Lemma copy_string_then offset n s p k (Q : Z * packing -> Prop) : room base maxoff p -> 0 <= offset ->
  offset + Z.of_nat n <= maxoff -> (length s <= n)%nat ->
  (forall p', room base maxoff p' -> toc_idx p' = toc_idx p -> wrote base maxoff offset (s ++ replicate (n - length s) 0) [] p (offset + Z.of_nat n) p' -> safe (k p') Q) ->
  safe (p ← copy_buf (base + offset) (replicate n 0) p; p ← copy_buf (base + offset) s p; k p) Q.
Proof.
  intros Hr Ho Hm Hs Hk. destruct Hr as [H1 H2 H3 H4] eqn:E. clear E. unfold copy_buf.
  rewrite poke_in by (rewrite ?length_replicate; lia). cbn [mbind out_bind p_buf p_toc toc_idx].
  rewrite poke_in; [|lia|rewrite length_blit by (rewrite length_replicate; lia); lia]. cbn [mbind out_bind].
  set (b := blit _ s _).
  assert (wrote base maxoff offset (s ++ replicate (n - length s) 0) [] p (offset + Z.of_nat n) (Packing b (p_toc p) (toc_idx p))) as Hw.
  { destruct p as [b0 t i]. apply wrote_buf; [rewrite length_app, length_replicate; lia|done|]. cbn in *.
    pose proof (grown_blit (Z.to_nat (base + offset)) (replicate n 0) b0 ltac:(rewrite length_replicate; lia)) as Hg.
    replace (replicate n 0) with ([] ++ replicate (length s) 0 ++ replicate (n - length s) 0) in Hg at 1
      by (cbn [app]; rewrite <- replicate_add; f_equal; lia).
    apply (grown_patch _ [] _ _ s) in Hg; [|rewrite !length_app, !length_replicate; cbn; lia|by rewrite length_replicate].
    cbn [app length] in Hg. by rewrite Nat.add_0_r in Hg. }
  apply Hk; [by eapply wrote_room|done|done].
Qed.

Lemma pack_string_writes s offset p : room base maxoff p -> 0 <= offset -> toc_idx p < 1023 ->
  safe (sl_pack_string base maxoff s offset p) (writes base maxoff offset (format (char_ptr s) offset (toc_idx p)) p).
Proof.
  intros Hr Ho Hi. unfold sl_pack_string. apply safe_if. intros _. fold (octets (strnlen s)). fold (used (strnlen s)).
  apply put_cpx_then; [done..|]. intros p1 Hr1 _ Hw1. apply put_buf_then; [done|]. intros p2 Hr2 _ Hw2. apply safe_if. intros E.
  pose proof (octets_bounds (strnlen s) ltac:(unfold strnlen; lia)) as [Hoc Hoc0].
  pose proof (wrote_seq _ _ _ _ [] _ _ _ _ _ Hr Ho Hw1 Hw2) as Hw12. pose proof (wr_max _ _ _ _ _ _ _ _ Hw2 ltac:(done)) as Hmax.
  assert (Z.of_nat (Z.to_nat (octets (strnlen s) * 8)) = octets (strnlen s) * 8) as Hn by lia.
  replace (take (Z.to_nat (strnlen s)) s) with (c_str s) by (unfold strnlen; rewrite Nat2Z.id; apply c_str_prefix).
  apply copy_string_then; [done|lia|rewrite Hn; bool_cases; Z.to_euclidean_division_equations; lia|unfold strnlen in *; lia|].
  intros p3 Hr3 _ Hw3. rewrite Hn in Hw3. unfold writes. cbn [judge format fst snd]. rewrite app_assoc.
  replace (Z.to_nat (octets (strnlen s) * 8 - strnlen s)) with (Z.to_nat (octets (strnlen s) * 8) - length (c_str s))%nat
    by (unfold strnlen in *; lia).
  exact (wrote_seq _ _ _ _ [] _ _ _ _ _ Hr Ho Hw12 Hw3).
Qed.
End packer.

Lemma grown_more n x k b b' : grown n x b b' -> (n + length x + k <= length b)%nat -> exists y, length y = k /\ grown n (x ++ y) b b'.
Proof.
  intros [Hl Ht] Hn. exists (take k (drop (n + length x) b')). assert (length (take k (drop (n + length x) b')) = k) as Hk.
  { rewrite length_take, length_drop. lia. }
  split; [done|]. split; [done|]. rewrite length_app, Hk, app_assoc, <- Ht, Nat.add_assoc. symmetry. apply take_take_drop.
Qed.

Lemma sivalc_safe base b off maxoff val : 0 <= base -> base + maxoff <= zlen b ->
  safe (sivalc base b off maxoff val) (fun b' => 0 <= off /\ off + 4 <= maxoff /\ b' = blit (Z.to_nat (base + off)) (le32 val) b).
Proof.
  intros Hb Hm. unfold sivalc. apply safe_if. intros E. unfold sl_put_le32.
  rewrite poke_in by (change (zlen (le32 val)) with 4; bool_lia). cbn. split; [bool_lia|]. split; [bool_lia|done].
Qed.

(** What the packer of one value promises. *)
Definition packs (o : obj) : Prop :=
  forall base maxoff offset p, room base maxoff p -> 0 <= offset -> toc_idx p + Z.of_nat (ntoc o) <= 1023 ->
    safe (pack_obj o base maxoff offset p) (writes base maxoff offset (format o offset (toc_idx p)) p).

Lemma pack_list_writes l : Forall packs l -> forall base maxoff offset p,
  room base maxoff p -> 0 <= offset -> toc_idx p + Z.of_nat (ntocs l) <= 1023 ->
  safe (pack_list pack_obj l base maxoff offset p) (writes base maxoff offset (format_list format l offset (toc_idx p)) p).
Proof.
  induction 1 as [|o l Ho Hl IH]; intros base maxoff offset p Hr Hoff Hi; cbn [pack_list]; [apply wrote_nil|].
  change (ntocs (o :: l)) with (ntoc o + ntocs l)%nat in Hi. apply safe_bind.
  eapply safe_mono; [apply Ho; [done|done|lia]|]. intros [o1 p1] Hw1. unfold writes in Hw1. cbn [fst snd] in Hw1.
  pose proof (wr_idx _ _ _ _ _ _ _ _ Hw1) as Hi1. rewrite format_toc in Hi1. pose proof (wr_off _ _ _ _ _ _ _ _ Hw1) as Ho1.
  eapply safe_mono; [apply IH; [by eapply wrote_room|lia|lia]|]. intros [o2 p2] Hw2. unfold writes in *. cbn [fst snd] in *.
  rewrite format_list_cons. cbn [fst snd]. rewrite <- Ho1, format_toc, <- Hi1. by eapply wrote_seq.
Qed.

Lemma payload_toc ts t0 t : zlen t0 = MAX_SLQ_TOC -> zlen ts <= 1023 -> grown 8 (concat (le64 <$> ts)) t0 t ->
  safe (t ← slvalc 0 t 0 MAX_SLQ_TOC (sl_pack_tag SQ_TYPE_TOC (zlen ts + 1) 0); peek 0 ((zlen ts + 1) * 8) t)
    (fun bs => bs = le64 (sl_pack_tag SQ_TYPE_TOC (zlen ts + 1) 0) ++ concat (le64 <$> ts)).
Proof.
  intros H0 Hn [Hl Ht]. unfold MAX_SLQ_TOC in *. rewrite concat_le64_length in Ht. apply safe_bind.
  eapply safe_mono; [apply slvalc_safe; lia|]. intros t' (_ & _ & ->). unfold peek. destruct (_ && _) eqn:E.
  - cbn [judge]. change (Z.to_nat 0) with O. change (Z.to_nat (0 + 0)) with O. rewrite drop_0, take_blit_inside by (rewrite le64_length; lia).
    replace (Z.to_nat ((zlen ts + 1) * 8)) with (8 + 8 * length ts)%nat by lia. rewrite Ht.
    apply (blit_mid []). rewrite length_take, le64_length. lia.
  - rewrite length_blit in E by (rewrite le64_length; cbn; lia). bool_lia.
Qed.

Lemma format_payload_length l : zlen (format_payload format l) =
  16 + zlen (format_list format l 0 0).1 + (zlen (format_list format l 0 0).2 + 1) * 8.
Proof.
  unfold format_payload. destruct (format_list format l 0 0) as [b t]. cbn [fst snd].
  rewrite !length_app, concat_le64_length, le64_length. cbn. lia.
Qed.

(** The lengths in the header and the TOC behind the data. *)
Lemma payload_finish base maxoff buf b t0 t y1 y2 d ts (v1 v2 : Z) :
  0 <= base -> base + maxoff <= zlen buf -> 16 + zlen d <= maxoff -> length y1 = 4%nat -> length y2 = 4%nat ->
  grown (Z.to_nat base) (MAGIC ++ y1 ++ y2 ++ d) buf b ->
  zlen t0 = MAX_SLQ_TOC -> zlen ts <= 1023 -> grown 8 (concat (le64 <$> ts)) t0 t ->
  let tag := sl_pack_tag SQ_TYPE_TOC (zlen ts + 1) 0 in
  let toc_len := (zlen ts + 1) * 8 in
  safe (b ← sivalc base b 8 maxoff v1; b ← sivalc base b 12 maxoff v2; t ← slvalc 0 t 0 MAX_SLQ_TOC tag;
        if maxoff <=? 16 + zlen d + toc_len then Fail else bs ← peek 0 toc_len t; b ← poke (base + 16 + zlen d) bs b;
        Done (zlen d + 16 + toc_len, b))
    (fun r => r.1 = 16 + zlen d + toc_len /\ r.1 < maxoff /\
      grown (Z.to_nat base) (MAGIC ++ le32 v1 ++ le32 v2 ++ d ++ le64 tag ++ concat (le64 <$> ts)) buf r.2).
Proof.
  intros Hb Hm Hd Hy1 Hy2 G Ht0 Hts Gt tag toc_len. pose proof (proj1 G) as Hl.
  assert (length (MAGIC ++ y1 ++ y2 ++ d) = 16 + length d)%nat as HL by (rewrite !length_app, Hy1, Hy2; cbn; lia).
  apply safe_bind. eapply safe_mono; [apply sivalc_safe; lia|]. intros b2 (_ & _ & ->).
  replace (Z.to_nat (base + 8)) with (Z.to_nat base + length MAGIC)%nat by (cbn; lia).
  eapply (grown_patch _ MAGIC y1 _ (le32 v1)) in G; [|lia|by rewrite Hy1]. set (b2 := blit _ (le32 v1) b) in *.
  apply safe_bind. eapply safe_mono; [apply sivalc_safe; [lia|rewrite (proj1 G); lia]|]. intros b3 (_ & _ & ->).
  rewrite app_assoc in G. replace (Z.to_nat (base + 12)) with (Z.to_nat base + length (MAGIC ++ le32 v1))%nat by (cbn; lia).
  eapply (grown_patch _ (MAGIC ++ le32 v1) y2 d (le32 v2)) in G; [|rewrite !length_app, Hy2; cbn; lia|by rewrite Hy2].
  set (b3 := blit _ (le32 v2) b2) in *. pose proof (payload_toc ts t0 t Ht0 Hts Gt) as Htoc. fold tag toc_len in Htoc.
  destruct (slvalc 0 t 0 MAX_SLQ_TOC tag) as [t'| | |] eqn:Es; [|done|done|done]. cbn [mbind out_bind] in *.
  apply safe_if. intros Hfit. apply safe_bind. eapply safe_mono; [exact Htoc|]. intros bs ->.
  assert (zlen (le64 tag ++ concat (le64 <$> ts)) = toc_len) as Htl by (rewrite length_app, le64_length, concat_le64_length; lia).
  rewrite poke_in; [|lia|rewrite (proj1 G), Htl; lia]. cbn [judge fst snd mbind out_bind]. split; [lia|]. split; [lia|].
  replace (MAGIC ++ le32 v1 ++ le32 v2 ++ d ++ le64 tag ++ concat (le64 <$> ts)) with
    (((MAGIC ++ le32 v1) ++ le32 v2 ++ d) ++ le64 tag ++ concat (le64 <$> ts)) by by rewrite <- !app_assoc.
  eapply grown_app; [exact G|].
  replace (Z.to_nat base + length ((MAGIC ++ le32 v1) ++ le32 v2 ++ d))%nat with (Z.to_nat (base + 16 + zlen d)) by (rewrite !length_app; cbn; lia).
  apply grown_blit. rewrite (proj1 G). lia.
Qed.

Lemma pack_payload_writes l base maxoff buf : Forall packs l -> 0 <= base -> base + maxoff <= zlen buf -> (ntocs l <= 1023)%nat ->
  safe (pack_payload pack_obj l base maxoff buf) (fun r =>
    r.1 = zlen (format_payload format l) /\ r.1 < maxoff /\ grown (Z.to_nat base) (format_payload format l) buf r.2).
Proof.
  intros Hl Hb Hm Hn. unfold pack_payload. apply safe_if. intros H16. fold MAGIC. rewrite poke_in by (change (zlen MAGIC) with 8; lia).
  cbn [mbind out_bind]. set (b1 := blit _ MAGIC buf).
  assert (grown (Z.to_nat base) MAGIC buf b1) as G1 by (apply grown_blit; cbn; lia).
  destruct (grown_more _ _ 4 _ _ G1) as (y1 & Hy1 & G2); [cbn; lia|].
  destruct (grown_more _ _ 4 _ _ G2) as (y2 & Hy2 & G3); [rewrite length_app, Hy1; cbn; lia|].
  apply safe_bind. eapply safe_mono; [apply pack_list_writes; [done| |lia|cbn [toc_idx]; lia]|].
  { destruct G1 as [Hlen _]. split; cbn [p_buf p_toc toc_idx]; [lia|lia| |lia]. by rewrite length_replicate, Z2Nat.id. }
  intros [len p] Hw. unfold writes in Hw. cbn [fst snd toc_idx] in Hw. pose proof (format_payload_length l) as HP. rewrite HP. unfold format_payload in *.
  pose proof (formats_toc l 0 0) as Ht. destruct (format_list format l 0 0) as [d ts]. cbn [fst snd] in *.
  destruct Hw as [-> Hmx Hi Gb Gt]. cbn [p_buf p_toc toc_idx] in *. rewrite !Z.add_0_l in *. rewrite Z.add_0_r in Gb. rewrite Hi.
  apply (payload_finish base maxoff buf _ (replicate (Z.to_nat MAX_SLQ_TOC) 0) _ y1 y2); [done|done| |done|done| |done|lia|done].
  - destruct d; [cbn; lia|]. specialize (Hmx ltac:(done)). lia.
  - rewrite !app_assoc in *. eapply grown_app; [exact G3|].
    replace (Z.to_nat base + length ((MAGIC ++ y1) ++ y2))%nat with (Z.to_nat (base + 16)) by (rewrite !length_app, Hy1, Hy2; cbn; lia). done.
Qed.

Lemma pack_array_writes type l base maxoff offset p : Forall packs l -> room base maxoff p -> 0 <= offset ->
  toc_idx p + Z.of_nat (S (ntocs l)) <= 1023 ->
  safe (pack_members base maxoff type (zlen l) (pack_list pack_obj l base maxoff) offset p)
    (writes base maxoff offset
      (le64 (sl_pack_tag SQ_TYPE_COMPLEX 1 (toc_idx p + 1)) ++ (format_list format l (offset + 8) (toc_idx p + 1)).1,
       sl_pack_tag type ((offset + SL_OFFSET_DELTA) / 8) (zlen l) :: (format_list format l (offset + 8) (toc_idx p + 1)).2) p).
Proof.
  intros Hl Hr Ho Hi. unfold pack_members. apply put_cpx_then; [done|done|lia|]. intros p1 Hr1 Hi1 Hw1.
  eapply safe_mono; [apply pack_list_writes; [done|done|lia|lia]|]. intros [o2 p2] Hw2. rewrite Hi1 in Hw2.
  exact (wrote_seq _ _ _ _ _ [_] _ _ _ _ _ _ Hr Ho Hw1 Hw2).
Qed.

Lemma pack_filemeta_writes l base maxoff offset p : Forall packs l -> (ntocs l <= 1023)%nat -> room base maxoff p -> 0 <= offset ->
  toc_idx p < 1023 ->
  safe (sl_pack_filemeta base maxoff (pack_payload pack_obj l) offset p)
    (writes base maxoff offset (format (sl_filemeta_t l) offset (toc_idx p)) p).
Proof.
  intros Hl Hn Hr Ho Hi. unfold sl_pack_filemeta. apply safe_bind. eapply safe_mono; [by apply put_buf_grown|].
  intros p1 (_ & Hm1 & b1 & -> & G1). cbn [p_buf p_toc toc_idx]. apply safe_if. intros Hm. destruct Hr as [Hb Hbuf Htoc Hidx].
  apply safe_bind. eapply safe_mono; [apply pack_payload_writes; [done|lia|rewrite (proj1 G1); lia|done]|].
  intros [n b2] (En & Hn2 & G2). cbn [fst snd] in *. subst n. unfold writes. cbn [format fst snd]. set (P := format_payload format l) in *.
  set (fm := if 40 <? zlen P then P else []).
  replace (if 40 <? zlen P then (offset + 16 + zlen P, zlen P) else (offset + 16, 0)) with (offset + 16 + zlen fm, zlen fm)
    by (unfold fm; case_test; cbn; f_equal; lia).
  cbv beta iota.
  destruct (grown_more _ _ 8 _ _ G1) as (y & Hy & G1'); [rewrite le64_length; lia|].
  assert (grown (Z.to_nat (base + offset)) (le64 (sl_pack_tag SQ_TYPE_COMPLEX 1 (toc_idx p + 1)) ++ y ++ fm) (p_buf p) b2) as G.
  { rewrite app_assoc. eapply grown_app; [exact G1'|]. rewrite length_app, le64_length, Hy.
    replace (Z.to_nat (base + offset) + (8 + 8))%nat with (Z.to_nat (base + (offset + 16))) by lia.
    unfold fm. case_test; [done|]. destruct G2 as [Hl2 Ht2]. split; [done|]. rewrite app_nil_r, Nat.add_0_r.
    apply (f_equal (take (Z.to_nat (base + (offset + 16))))) in Ht2. rewrite take_take, take_app_length' in Ht2.
    - rewrite <- Ht2. f_equal. lia.
    - rewrite length_take, (proj1 G1). lia. }
  assert (16 + zlen fm <= maxoff - offset) as Hfit by (unfold fm; case_test; cbn; lia).
  unfold put_buf at 1. cbn [p_buf p_toc toc_idx]. rewrite bind_assoc_out. apply safe_bind. eapply safe_mono; [apply slvalc_safe; [lia|rewrite (proj1 G); lia]|].
  intros b3 (_ & _ & ->). cbn [mbind out_bind]. replace (Z.to_nat (base + (offset + 8))) with
    (Z.to_nat (base + offset) + length (le64 (sl_pack_tag SQ_TYPE_COMPLEX 1 (toc_idx p + 1))))%nat by (rewrite le64_length; lia).
  eapply (grown_patch _ _ y fm (le64 (sl_pack_tag SQ_TYPE_DATA (zlen fm / 8 + 1) 8))) in G;
    [|rewrite !length_app, le64_length, Hy; lia|by rewrite le64_length].
  set (b3 := blit _ _ b2) in *. apply safe_bind.
  eapply safe_mono; [apply (put_toc_wrote base maxoff (offset + 16 + zlen fm)); [split; cbn [p_buf p_toc toc_idx]; [lia|rewrite (proj1 G); lia|done|done]|done]|].
  intros p4 (E4 & Hw4). cbn [judge fst snd toc_idx] in *.
  assert (wrote base maxoff offset (le64 (sl_pack_tag SQ_TYPE_COMPLEX 1 (toc_idx p + 1)) ++ le64 (sl_pack_tag SQ_TYPE_DATA (zlen fm / 8 + 1) 8) ++ fm)
    [] p (offset + 16 + zlen fm) (Packing b3 (p_toc p) (toc_idx p))) as Hw3.
  { destruct p. apply wrote_buf; [rewrite !length_app, !le64_length; lia|lia|exact G]. }
  rewrite <- (app_nil_r (_ ++ _ ++ fm)). by apply (wrote_app _ _ _ _ [] [] _ _ _ _ _ _ (Z.add_nonneg_nonneg _ _ Hb Ho) Hidx Hw3).
Qed.

(** The packer writes the format of every value. *)
Lemma pack_obj_writes o : slim o -> sized o -> packs o.
Proof.
  assert (forall l, Forall (fun o => slim o -> sized o -> packs o) l -> slims l -> foldr (fun o P => sized o /\ P) True l -> Forall packs l) as Hall.
  { intros l H Hs Hz. apply foldr_and in Hs, Hz. rewrite Forall_forall in *. auto. }
  induction o using obj_rect'; intros Hs Hz base maxoff offset p Hr Ho Hi; cbn [pack_obj ntoc slim sized] in *.
  - eapply safe_mono; [apply pack_array_writes; auto|]. intros r Hw. cbn [format]. by destruct (format_list _ _ _ _).
  - eapply safe_mono; [apply pack_array_writes; auto|]. intros r Hw. cbn [format]. by destruct (format_list _ _ _ _).
  - destruct Hs. apply pack_filemeta_writes; auto. lia.
  - by apply pack_two.
  - apply pack_string_writes; [done|done|lia].
  - by apply pack_one.
  - by apply pack_two.
  - by apply pack_one.
  - by apply pack_two.
  - by apply pack_uuid_writes.
  - apply pack_CNID_writes; [done|done|lia].
  - apply wrote_nil.
Qed.

(** ** The unpacker stays inside its buffer *)

Lemma peek_bytes off n buf : Forall byte buf -> 0 <= off -> 0 <= n -> off + n <= zlen buf ->
  exists bs, peek off n buf = Done bs /\ Forall byte bs /\ zlen bs = n.
Proof.
  intros Hb Ho Hn Hl. unfold peek. destruct (_ && _) eqn:E; [|bool_lia]. eexists. split; [done|].
  split; [by apply Forall_take, Forall_drop|]. rewrite length_take, length_drop. lia.
Qed.

Lemma peek_drop k off n buf bs : (k <= length buf)%nat -> peek off n (drop k buf) = Done bs -> peek (off + Z.of_nat k) n buf = Done bs.
Proof.
  intros Hk. unfold peek. rewrite length_drop. destruct (_ && _) eqn:E; [|done]. intros [= <-].
  destruct ((0 <=? off + Z.of_nat k) && _ && _) eqn:E2; [|bool_lia]. rewrite drop_drop. do 3 f_equal. bool_lia.
Qed.

Lemma unpack_uint64_word buf off enc : Forall byte buf -> 0 <= off -> off + 8 <= zlen buf ->
  exists w, sl_unpack_uint64 buf off enc = Done w /\ word w.
Proof.
  intros Hb Ho Hl. destruct (peek_bytes off 8 buf Hb Ho ltac:(lia) Hl) as (bs & E & Hbs & Hn).
  assert (forall i, 0 <= nth i bs 0 < 2 ^ 8) as H by (intros i; apply (nth_byte bs i Hbs)).
  unfold sl_unpack_uint64, sl_get_le64, sl_get_be64. rewrite E. cbn [mbind out_bind]. destruct (enc =? _); (eexists; split; [reflexivity|]).
  - change (word (combine8 bs)). rewrite combine8_sum by done.
    pose proof (H 0%nat). pose proof (H 1%nat). pose proof (H 2%nat). pose proof (H 3%nat). pose proof (H 4%nat). pose proof (H 5%nat).
    pose proof (H 6%nat). pose proof (H 7%nat). unfold word. lia.
  - assert (Forall byte (reverse bs)) as Hr by by rewrite Forall_reverse.
    destruct bs as [|a [|b [|c [|d [|e [|f [|g [|h [|]]]]]]]]]; cbn in Hn; try lia.
    change (word (combine8 (reverse [a; b; c; d; e; f; g; h]))). rewrite combine8_sum by done. rewrite Forall_forall in Hr.
    assert (forall i, 0 <= nth i (reverse [a; b; c; d; e; f; g; h]) 0 < 2 ^ 8) as H' by (intros i; apply nth_byte, Forall_forall, Hr).
    pose proof (H' 0%nat). pose proof (H' 1%nat). pose proof (H' 2%nat). pose proof (H' 3%nat). pose proof (H' 4%nat). pose proof (H' 5%nat).
    pose proof (H' 6%nat). pose proof (H' 7%nat). unfold word. lia.
Qed.

Lemma tag_size_range w : 0 <= tag_size w < 2 ^ 16.
Proof. unfold tag_size. change 0xffff with (Z.ones 16). rewrite Z.land_ones by lia. apply Z.mod_pos_bound. lia. Qed.

Lemma tag_val_range w : word w -> 0 <= tag_val w < 2 ^ 32.
Proof. unfold word, tag_val. rewrite Z.shiftr_div_pow2 by lia. zmod. Qed.

Section bounds.
Context (buf : list Z) (buf_len enc : Z) (Hb : Forall byte buf) (Hlen : buf_len <= zlen buf).

Lemma checked_safe off : bounded (sl_unpack_uint64_checked buf buf_len off enc)
  (fun w => word w /\ 0 <= off /\ off + 8 <= buf_len /\ sl_unpack_uint64 buf off enc = Done w).
Proof.
  unfold sl_unpack_uint64_checked, sl_unpack_range_valid. apply safe_if_not. intros E.
  destruct (unpack_uint64_word buf off enc Hb) as (w & -> & Hw); [bool_lia|bool_lia|]. cbn. split; [done|]. split; [bool_lia|]. split; [bool_lia|done].
Qed.

Lemma words_safe n : forall off, bounded (unpack_words n buf buf_len off enc) (fun _ => True).
Proof.
  induction n as [|n IH]; intros off; cbn [unpack_words]; [done|]. apply safe_bind. eapply safe_mono; [apply checked_safe|].
  intros w _. apply safe_bind. eapply safe_mono; [apply IH|done].
Qed.

Lemma time_bounded w : bounded (time_of_date w) (fun _ => True).
Proof.
  assert (forall z, bounded (to_int64 z) (fun _ => True)) as H by (intros [z|]; cbn; [by destruct (_ && _)|done]).
  unfold time_of_date. apply safe_bind. eapply safe_mono; [apply H|]. intros s _. apply safe_bind. eapply safe_mono; [apply H|done].
Qed.

Lemma dates_safe n : forall off, bounded (unpack_dates n buf buf_len off enc) (fun _ => True).
Proof.
  induction n as [|n IH]; intros off; cbn [unpack_dates]; [done|]. apply safe_bind. eapply safe_mono; [apply checked_safe|].
  intros w _. apply safe_bind. eapply safe_mono; [apply time_bounded|]. intros t _. apply safe_bind.
  eapply safe_mono; [apply IH|done].
Qed.

Lemma uuids_safe n : forall off, bounded (unpack_uuids n buf buf_len off) (fun _ => True).
Proof.
  induction n as [|n IH]; intros off; cbn [unpack_uuids]; [done|]. unfold sl_unpack_range_valid. apply safe_if_not. intros E.
  destruct (peek_bytes off 16 buf Hb) as (bs & -> & _); [bool_lia|lia|bool_lia|]. cbn [mbind out_bind].
  apply safe_bind. eapply safe_mono; [apply IH|done].
Qed.

Lemma count_safe tag query_length size : bounded (sl_unpack_count tag query_length size) (fun _ => True).
Proof. unfold sl_unpack_count. apply safe_if. intros _. by apply safe_if. Qed.

(** The unpackers of values: a tag, a count and the values. *)
Lemma values_safe {A} (size : Z) (values : nat -> out A) (add : A -> list obj) off query_length :
  (forall n, bounded (values n) (fun _ => True)) ->
  bounded (tag ← sl_unpack_uint64_checked buf buf_len off enc; count ← sl_unpack_count tag query_length size;
        vs ← values (Z.to_nat count); Done (count, add vs)) (fun _ => True).
Proof.
  intros Hv. apply safe_bind. eapply safe_mono; [apply checked_safe|]. intros w _. apply safe_bind. eapply safe_mono; [apply count_safe|].
  intros n _. apply safe_bind. eapply safe_mono; [apply Hv|done].
Qed.

Lemma ints_safe query off ql : bounded (sl_unpack_ints query buf off ql buf_len enc) (fun _ => True).
Proof. exact (values_safe 8 (fun n => unpack_words n buf buf_len (off + 8) enc) (fun ws => query ++ (uint64_t <$> ws)) off ql (fun n => words_safe n _)). Qed.

Lemma floats_safe query off ql : bounded (sl_unpack_floats query buf off ql buf_len enc) (fun _ => True).
Proof. exact (values_safe 8 (fun n => unpack_words n buf buf_len (off + 8) enc) (fun ws => query ++ (double_t <$> ws)) off ql (fun n => words_safe n _)). Qed.

Lemma uuid_safe query off ql : bounded (sl_unpack_uuid query buf off ql buf_len enc) (fun _ => True).
Proof. exact (values_safe 16 (fun n => unpack_uuids n buf buf_len (off + 8)) (fun us => query ++ (sl_uuid_t <$> us)) off ql (fun n => uuids_safe n _)). Qed.

Lemma date_safe query off ql : bounded (sl_unpack_date query buf off ql buf_len enc) (fun _ => True).
Proof.
  exact (values_safe 8 (fun n => unpack_dates n buf buf_len (off + 8) enc) (fun ts => query ++ (time_t <$> ts)) off ql (fun n => dates_safe n _)).
Qed.

Lemma CNID_safe query off length_ : bounded (sl_unpack_CNID query buf off length_ buf_len enc) (fun _ => True).
Proof.
  unfold sl_unpack_CNID. destruct (_ <=? _); [done|]. apply safe_if. intros _. apply safe_bind. eapply safe_mono; [apply checked_safe|].
  intros w _. apply safe_if. intros _. apply safe_if. intros _. apply safe_bind. eapply safe_mono; [apply words_safe|done].
Qed.

Lemma string_safe convert query off type toc_offset :
  bounded (unpack_string convert query buf off type buf_len toc_offset enc) (fun r => off <= r.1 <= off + 2 ^ 19).
Proof.
  unfold unpack_string. apply safe_bind. eapply safe_mono; [apply checked_safe|]. intros w (Hw & Ho & _). apply safe_if. intros Hu.
  apply safe_if. intros Hq. unfold sl_unpack_range_valid in Hq. pose proof (tag_size_range w). pose proof (tag_val_range w Hw).
  assert (8 < tag_size w * 8 /\ off + tag_size w * 8 <= buf_len) as [Hq8 Hend] by (rewrite orb_false_iff, negb_false_iff in Hq; destruct Hq; bool_lia).
  case_test.
  - apply safe_if. intros Hs. destruct (peek_bytes (off + 8) (tag_size w * 8 - 16 + tag_val w) buf Hb) as (bs & -> & _); [lia|bool_lia|bool_lia|].
    cbn. lia.
  - apply safe_bind. assert (bounded (spotlight_get_utf16_string_encoding buf (off + 8) (tag_size w * 8 - 16 + tag_val w)) (fun _ => True)) as Henc.
    { unfold spotlight_get_utf16_string_encoding. case_test; [|done].
      destruct (peek_bytes (off + 8) 2 buf Hb) as (bs & -> & _); [lia|lia|bool_lia|done]. }
    eapply safe_mono; [exact Henc|]. intros u _. apply safe_if. intros _. apply safe_if. intros Hs.
    destruct (negb (Z.land u SL_ENC_UTF_16 =? 0)).
    + destruct (peek_bytes (off + 10) (tag_size w * 8 - 16 + tag_val w - 2) buf Hb) as (bs & -> & _); [lia|bool_lia|bool_lia|].
      cbn. destruct (convert bs); cbn; lia.
    + destruct (peek_bytes (off + 8) (tag_size w * 8 - 16 + tag_val w - 0) buf Hb) as (bs & -> & _); [lia|bool_lia|bool_lia|].
      cbn. destruct (convert bs); cbn; lia.
Qed.
End bounds.

(** What the loop promises: no wild access, and an offset that does not go back. *)
Definition loop_ok (loop : loop_t) : Prop :=
  forall query buf offset count buf_len toc_offset toc_count enc,
    Forall byte buf -> buf_len <= zlen buf -> 0 <= offset <= toc_offset + 2 ^ 20 -> 0 <= toc_offset <= 65008 ->
    bounded (loop query buf offset count buf_len toc_offset toc_count enc) (fun r => offset <= r.1 <= toc_offset + 2 ^ 20).

Lemma unpack_r_safe loop query buf buf_len : loop_ok loop -> Forall byte buf -> buf_len <= zlen buf ->
  bounded (sl_unpack_r loop query buf buf_len) (fun _ => True).
Proof.
  intros Hloop Hb Hl. unfold sl_unpack_r. apply safe_if. intros H16.
  destruct (peek_bytes 0 8 buf Hb) as (magic & -> & _); [lia|lia|bool_lia|]. cbn [mbind out_bind]. rewrite !drop_drop. cbn [Nat.add].
  apply safe_bind. eapply safe_mono; [apply checked_safe; [by apply Forall_drop|rewrite length_drop; lia]|]. intros w _.
  apply safe_if. intros Ht. apply safe_bind. eapply safe_mono; [apply checked_safe; [by apply Forall_drop|rewrite length_drop; bool_lia]|].
  intros w2 _. apply safe_if. intros _. apply safe_if. intros _. apply safe_if. intros _. apply safe_bind.
  pose proof (wrap_range 64 (u64 (tag_val w - 1) * 8) ltac:(lia)).
  eapply safe_mono; [apply Hloop; [by apply Forall_drop|rewrite length_drop; bool_lia|bool_lia|bool_lia]|].
  by intros [r q] _.
Qed.

Section unpacker.
Context (convert : list Z -> option (list Z)).

Lemma unpack_cpx_safe loop query buf offset type count buf_len toc_offset toc_count enc : loop_ok loop ->
  Forall byte buf -> buf_len <= zlen buf -> 0 <= offset <= toc_offset + 8 -> 0 <= toc_offset <= 65008 ->
  bounded (unpack_cpx convert loop query buf offset type count buf_len toc_offset toc_count enc) (fun r => offset <= r.1 <= toc_offset + 2 ^ 20).
Proof.
  intros Hloop Hb Hl Ho Ht. unfold unpack_cpx.
  assert (forall q, bounded (loop q buf offset count buf_len toc_offset toc_count enc) (fun r => offset <= r.1 <= toc_offset + 2 ^ 20)) as Hsub
    by (intros q; apply Hloop; (done || lia)).
  destruct (type =? SQ_CPX_TYPE_ARRAY). { apply safe_bind. eapply safe_mono; [apply Hsub|]. by intros [r q] H. }
  destruct (type =? SQ_CPX_TYPE_DICT). { apply safe_bind. eapply safe_mono; [apply Hsub|]. by intros [r q] H. }
  destruct (_ || _). { eapply safe_mono; [by apply string_safe|]. intros [r q] H. cbn in *. lia. }
  destruct (type =? SQ_CPX_TYPE_FILEMETA).
  { apply safe_bind. eapply safe_mono; [by apply checked_safe|]. intros w (_ & _ & _ & _). pose proof (tag_size_range w).
    apply safe_if. intros Hq. unfold sl_unpack_range_valid in Hq. rewrite orb_false_iff, negb_false_iff in Hq. destruct Hq as [Hq8 Hr].
    case_test; [cbn; lia|]. apply safe_bind. eapply safe_mono; [apply unpack_r_safe; [done|by apply Forall_drop|rewrite length_drop; bool_lia]|].
    intros fm _. cbn. lia. }
  destruct (type =? SQ_CPX_TYPE_CNIDS); [|done].
  apply safe_bind. eapply safe_mono; [by apply checked_safe|]. intros w (_ & _ & _ & _). pose proof (tag_size_range w).
  apply safe_if. intros _. apply safe_bind. eapply safe_mono; [by apply CNID_safe|]. intros q _. cbn. lia.
Qed.

(** One turn moves the offset forward by 8 at least. *)
Lemma unpack_elem_safe cpx query buf offset count buf_len toc_offset toc_count enc :
  Forall byte buf -> buf_len <= zlen buf -> 0 <= offset < toc_offset -> 0 <= toc_offset <= 65008 ->
  (forall q type n, bounded (cpx q (offset + 8) type n) (fun r => offset + 8 <= r.1 <= toc_offset + 2 ^ 20)) ->
  bounded (unpack_elem cpx query buf offset count buf_len toc_offset toc_count enc) (fun r => offset + 8 <= r.1.2 <= toc_offset + 2 ^ 20).
Proof.
  intros Hb Hl Ho Ht Hcpx. unfold unpack_elem. apply safe_bind. eapply safe_mono; [by apply checked_safe|].
  intros w (Hw & _). pose proof (tag_size_range w). apply safe_if. intros Hq0. apply safe_if. intros Hq.
  assert (forall m : out (Z * list obj), bounded m (fun _ => True) ->
    bounded ('(subcount, query) ← m; if count <? subcount then Fail else Done (query, offset + tag_size w * 8, count - subcount))
      (fun r : list obj * Z * Z => offset + 8 <= r.1.2 <= toc_offset + 2 ^ 20)) as Hvals.
  { intros m Hm. apply safe_bind. eapply safe_mono; [exact Hm|]. intros [n q] _. apply safe_if. intros _. cbn. lia. }
  destruct (tag_type w =? SQ_TYPE_COMPLEX).
  { apply safe_if. intros _. apply safe_if. intros Hi. unfold sl_unpack_range_valid in Hi. rewrite orb_false_iff, negb_false_iff in Hi. destruct Hi as [_ Hi].
    destruct (unpack_uint64_word buf (toc_offset + (tag_val w - 1) * 8) enc Hb) as (e & -> & _); [bool_lia|bool_lia|]. cbn [mbind out_bind].
    apply safe_bind. eapply safe_mono; [apply Hcpx|]. intros [r q] Hr. cbn in *. lia. }
  destruct (tag_type w =? SQ_TYPE_NULL). { apply safe_if. intros _. apply safe_if. intros _. cbn. lia. }
  destruct (tag_type w =? SQ_TYPE_BOOL); [cbn; lia|].
  destruct (tag_type w =? SQ_TYPE_INT64); [by apply Hvals, ints_safe|].
  destruct (tag_type w =? SQ_TYPE_UUID); [by apply Hvals, uuid_safe|].
  destruct (tag_type w =? SQ_TYPE_FLOAT); [by apply Hvals, floats_safe|].
  destruct (tag_type w =? SQ_TYPE_DATE); [by apply Hvals, date_safe|done].
Qed.

(** The turns are fewer than the bytes in front of the TOC. *)
Lemma unpack_iter_safe fuel cpx buf buf_len toc_offset toc_count enc :
  Forall byte buf -> buf_len <= zlen buf -> 0 <= toc_offset <= 65008 ->
  (forall q offset type n, 0 <= offset < toc_offset -> bounded (cpx q (offset + 8) type n) (fun r => offset + 8 <= r.1 <= toc_offset + 2 ^ 20)) ->
  forall query offset count, 0 <= offset <= toc_offset + 2 ^ 20 -> (Z.to_nat (toc_offset - offset) <= fuel)%nat ->
  bounded (unpack_iter fuel cpx query buf offset count buf_len toc_offset toc_count enc) (fun r => offset <= r.1 <= toc_offset + 2 ^ 20).
Proof.
  intros Hb Hl Ht Hcpx. induction fuel as [|fuel IH]; intros query offset count Ho Hf; cbn [unpack_iter].
  - rewrite wrap_small by lia. destruct (_ && _) eqn:E; [bool_lia|]. cbn. lia.
  - rewrite wrap_small by lia. destruct (_ && _) eqn:E; [|cbn; lia]. apply safe_bind.
    eapply safe_mono; [apply unpack_elem_safe; [done|done|bool_lia|done|]|]. { intros q type n. apply Hcpx. bool_lia. }
    intros [[q o] n] Hr. cbn [fst snd] in Hr. eapply safe_mono; [apply IH; [lia|lia]|]. intros r Hr2. cbv beta in *. lia.
Qed.

Lemma unpack_loop_ok lim : loop_ok (sl_unpack_loop convert lim).
Proof.
  induction lim as [lim IH] using lt_wf_ind. intros query buf offset count buf_len toc_offset toc_count enc Hb Hl Ho Ht.
  destruct lim as [|[|lim]]; cbn [sl_unpack_loop]; [done| |].
  - apply unpack_iter_safe; [done|done|done|done|done|lia].
  - apply unpack_iter_safe; [done|done|done| |done|lia]. intros q off type n Hoff.
    apply unpack_cpx_safe; [apply IH; lia|done|done|lia|done].
Qed.
End unpacker.
