(* ===== verification/SpotlightRoundTrip.v ===== *)
(** * Spotlight payloads: reading back what was packed

    The unpacker, run on the format that [SpotlightFacts.v] shows the packer to write,
    returns the values that were packed. *)

From S2P Require Import Prelude Bytes Spotlight SpotlightFacts.

(** ** Tags *)

Lemma pack_tag_sum type size val : 0 <= type < 2 ^ 16 -> 0 <= size < 2 ^ 16 -> 0 <= val < 2 ^ 32 ->
  sl_pack_tag type size val = val * 2 ^ 32 + type * 2 ^ 16 + size.
Proof.
  intros Ht Hs Hv. unfold sl_pack_tag. rewrite !wrap_small by done. rewrite !Z.shiftl_mul_pow2 by lia.
  rewrite (lor_add (val * 2 ^ 32) _ 32); [|lia|lia|apply Z.mod_mul; lia]. rewrite (lor_add _ size 16); [lia|lia|lia|].
  replace (val * 2 ^ 32 + type * 2 ^ 16) with ((val * 2 ^ 16 + type) * 2 ^ 16) by lia. apply Z.mod_mul. lia.
Qed.

Lemma tag_type_div w : tag_type w = (w / 2 ^ 16) mod 2 ^ 16.
Proof.
  unfold tag_type. rewrite Z.shiftr_land. change (Z.shiftr 0xffff0000 16) with (Z.ones 16). rewrite Z.land_ones by lia.
  by rewrite Z.shiftr_div_pow2 by lia.
Qed.

Lemma tag_fields type size val : 0 <= type < 2 ^ 16 -> 0 <= size < 2 ^ 16 -> 0 <= val < 2 ^ 32 ->
  word (sl_pack_tag type size val) /\ tag_type (sl_pack_tag type size val) = type /\
  tag_size (sl_pack_tag type size val) = size /\ tag_val (sl_pack_tag type size val) = val.
Proof.
  intros Ht Hs Hv. rewrite tag_type_div. unfold tag_size, tag_val, word. change 0xffff with (Z.ones 16).
  rewrite Z.land_ones, Z.shiftr_div_pow2, pack_tag_sum by done || lia. split; [lia|]. split; [zmod|]. split; zmod.
Qed.

(** ** Reading a word *)

Lemma checked_at pre w rest off buf_len : word w -> off = zlen pre -> off + 8 <= buf_len ->
  sl_unpack_uint64_checked (pre ++ le64 w ++ rest) buf_len off SL_ENC_LITTLE_ENDIAN = Done w.
Proof.
  intros Hw -> Hl. unfold sl_unpack_uint64_checked, sl_unpack_range_valid. destruct (negb _) eqn:E; [bool_lia|].
  unfold sl_unpack_uint64. cbn [Z.eqb Pos.eqb SL_ENC_LITTLE_ENDIAN]. by apply get_le64.
Qed.

Lemma words_at ws : forall pre rest off buf_len, Forall word ws -> off = zlen pre -> off + 8 * zlen ws <= buf_len ->
  unpack_words (length ws) (pre ++ concat (le64 <$> ws) ++ rest) buf_len off SL_ENC_LITTLE_ENDIAN = Done ws.
Proof.
  induction ws as [|w ws IH]; intros pre rest off buf_len Hw Ho Hl; [done|]. apply Forall_cons in Hw as [Hw Hws].
  cbn [fmap list_fmap concat length unpack_words]. rewrite <- app_assoc. cbn [length] in Hl.
  rewrite checked_at by (done || lia). cbn [mbind out_bind]. rewrite (app_assoc pre), IH; [done|done|rewrite length_app, le64_length; lia|lia].
Qed.

(** ** The values that come back *)

(** What the unpacker makes of a packed value: the value itself, but for its dates, which
    come back as the double of the element has them. *)
Fixpoint canon (o : obj) : obj :=
  match o with
  | sl_array_t l => sl_array_t (canon <$> l)
  | sl_dict_t l => sl_dict_t (canon <$> l)
  | sl_filemeta_t l => sl_filemeta_t (canon <$> l)
  | time_t t => match time_of_date (date_of_time t) with Done t' => time_t t' | _ => time_t t end
  | o => o
  end.

(** The values that are packed and read: strings are not empty and end in their NUL, file
    metadata holds at most one value, whose payload has more than the 40 bytes below which
    the packer leaves it out, the double of a date is in the range of the seconds, words
    have 64 bits, UUIDs 16 bytes, and the fields of a list of CNIDs their widths, 0 for an
    empty list. *)
Fixpoint plain (o : obj) : Prop :=
  match o with
  | sl_array_t l | sl_dict_t l => foldr (fun o P => plain o /\ P) True l
  | sl_filemeta_t l =>
      match l with
      | [] => True
      | [o] => plain o /\ (ntoc o <= 1023)%nat /\ zlen (format o 0 0).1 <= 65000 /\ 40 < zlen (format_payload format [o])
      | _ => False
      end
  | uint64_t u => word u
  | char_ptr s => c_str s <> [] /\ s = c_str s ++ [0]
  | sl_bool_t _ | sl_nil_t => True
  | double_t w => word w
  | time_t t => word (date_of_time t) /\ exists t', time_of_date (date_of_time t) = Done t'
  | sl_uuid_t u => length u = 16%nat
  | sl_cnids_t unkn1 context ids =>
      Forall word ids /\ (if decide (ids = []) then unkn1 = 0 /\ context = 0 else 0 <= unkn1 < 2 ^ 16 /\ 0 <= context < 2 ^ 32)
  | other => False
  end.

(** The nesting that the unpacker must allow for. *)
Fixpoint need (o : obj) : nat :=
  match o with
  | sl_array_t l | sl_dict_t l => 2 + foldr (fun o n => Nat.max (need o) n) 1%nat l
  | sl_filemeta_t l => 2 + foldr (fun o n => Nat.max (need o) n) 0%nat l
  | char_ptr _ | sl_cnids_t _ _ _ => 2
  | _ => 1
  end.
Definition needs (l : list obj) : nat := foldr (fun o n => Nat.max (need o) n) 1%nat l.

Lemma need_pos o : (1 <= need o)%nat.
Proof. destruct o; cbn; lia. Qed.

Lemma needs_pos l : (1 <= needs l)%nat.
Proof. unfold needs. induction l as [|o l IH]; cbn [foldr]; lia. Qed.

(** ** Sizes *)

(** Whole units, and at least one. *)
Definition units (b : list Z) : Prop := exists k, length b = (8 * S k)%nat.

Lemma units_app a b : units a -> (exists k, length b = 8 * k)%nat -> units (a ++ b).
Proof. intros [k Hk] [j Hj]. exists (k + j)%nat. rewrite length_app. lia. Qed.

Lemma units_le64 w : units (le64 w).
Proof. exists 0%nat. done. Qed.

Lemma units_two v w : units (le64 v ++ le64 w).
Proof. by exists 1%nat. Qed.

#[local] Hint Resolve units_le64 units_two units_app : netatalk.

Lemma format_list_units l : Forall (fun o => forall offset idx, units (format o offset idx).1) l ->
  forall offset idx, (exists k, length (format_list format l offset idx).1 = 8 * k)%nat /\ 8 * zlen l <= zlen (format_list format l offset idx).1.
Proof.
  induction 1 as [|o l Ho Hl IH]; intros offset idx; [split; [by exists 0%nat|done]|]. rewrite format_list_cons. cbn [fst length].
  destruct (Ho offset idx) as [k Hk]. destruct (IH (offset + zlen (format o offset idx).1) (idx + zlen (format o offset idx).2)) as [[j Hj] Hn].
  split; [exists (S k + j)%nat|]; rewrite length_app; lia.
Qed.

Lemma format_units o : plain o -> forall offset idx, units (format o offset idx).1.
Proof.
  assert (forall l, Forall (fun o => plain o -> forall offset idx, units (format o offset idx).1) l ->
    foldr (fun o P => plain o /\ P) True l -> Forall (fun o => forall offset idx, units (format o offset idx).1) l) as Hall.
  { intros l H Hp. apply foldr_and in Hp. rewrite Forall_forall in *. auto. }
  induction o using obj_rect'; intros Hp offset idx; cbn [format plain fst] in *; try (done || apply units_le64).
  - pose proof (format_list_units l (Hall l H Hp) (offset + 8) (idx + 1)) as [Hk _]. destruct (format_list _ _ _ _). eauto with netatalk.
  - pose proof (format_list_units l (Hall l H Hp) (offset + 8) (idx + 1)) as [Hk _]. destruct (format_list _ _ _ _). eauto with netatalk.
  - cbn [fst]. rewrite app_assoc. apply units_app; [auto with netatalk|].
    destruct l as [|o [|]]; [by exists 0%nat| |done]. destruct Hp as (Hp & _ & _ & Hfm). rewrite (proj2 (Z.ltb_lt _ _)) by done.
    pose proof (format_payload_length [o]) as HL. inversion H as [|? ? Ho _]. specialize (Ho Hp). subst.
    pose proof (format_list_units [o] ltac:(by constructor) 0 0) as [[k Hk] _].
    exists (2 + k + (length (format_list format [o] 0 0).2 + 1))%nat. lia.
  - auto with netatalk.
  - cbn [fst]. rewrite app_assoc. apply units_app; [auto with netatalk|].
    pose proof (octets_bounds (strnlen s) ltac:(unfold strnlen; lia)). exists (Z.to_nat (octets (strnlen s))).
    rewrite length_app, length_replicate. unfold strnlen in *. lia.
  - auto with netatalk.
  - auto with netatalk.
  - apply units_app; [auto with netatalk|]. by exists 2%nat.
  - cbn [fst]. rewrite app_assoc. apply units_app; [auto with netatalk|]. case_test; [|by exists 0%nat].
    exists (1 + length l)%nat. rewrite length_app, le64_length, concat_le64_length. lia.
Qed.

(** ** Reading a region *)

(** Evaluate the tests between constants. *)
Ltac constant_tests :=
  repeat match goal with
  | |- context [?a =? ?b] =>
      let v := eval vm_compute in (a =? b) in
      match v with true => change (a =? b) with true | false => change (a =? b) with false end
  end; cbn [orb negb].

(** The data of a payload with its TOC [ts] at [toc_offset]. *)
Record region (buf : list Z) (buf_len toc_offset : Z) (ts : list Z) : Prop := {
  rg_len : buf_len <= zlen buf;
  rg_toc : 0 <= toc_offset <= 65008;
  rg_room : toc_offset + 8 * zlen ts <= buf_len;
  rg_few : zlen ts < 2 ^ 16 - 1;
  rg_word : forall i t, ts !! i = Some t -> sl_get_le64 buf (toc_offset + 8 * Z.of_nat i) = Done t
}.

(** The bytes [b] at [off] of the buffer, the entries [t] from [idx] on of the TOC. *)
Definition holds (l : list Z) (off : Z) (b : list Z) : Prop := exists pre post, l = pre ++ b ++ post /\ off = zlen pre.

Lemma holds_app l off a b : holds l off (a ++ b) -> holds l off a /\ holds l (off + zlen a) b.
Proof.
  intros (pre & post & -> & ->). split; [by exists pre, (b ++ post); rewrite <- app_assoc|].
  exists (pre ++ a), post. split; [by rewrite <- !app_assoc|rewrite length_app; lia].
Qed.

Lemma holds_cons l off x b : holds l off (x :: b) -> l !! Z.to_nat off = Some x /\ holds l (off + 1) b.
Proof.
  intros H. apply (holds_app l off [x] b) in H as [(pre & post & -> & ->) H]. split; [|done].
  rewrite Nat2Z.id. by apply list_lookup_middle.
Qed.

Lemma holds_range l off b : holds l off b -> 0 <= off /\ off + zlen b <= zlen l.
Proof. intros (pre & post & -> & ->). rewrite !length_app. lia. Qed.

Section cpx.
Context (convert : list Z -> option (list Z)).

(** The unpacker of complex elements inside a loop. *)
Definition cpx_at (lim : nat) (buf : list Z) (buf_len toc_offset toc_count : Z) : list obj -> Z -> Z -> Z -> out (Z * list obj) :=
  fun query offset type n => sl_unpack_cpx convert lim query buf offset type n buf_len toc_offset toc_count SL_ENC_LITTLE_ENDIAN.

Section region.
Context (buf : list Z) (buf_len toc_offset : Z) (ts : list Z) (HR : region buf buf_len toc_offset ts).

Lemma read_word off w : word w -> holds buf off (le64 w) -> off + 8 <= buf_len ->
  sl_unpack_uint64_checked buf buf_len off SL_ENC_LITTLE_ENDIAN = Done w.
Proof. intros Hw (pre & post & -> & Ho) Hl. by apply checked_at. Qed.

Lemma read_words off ws : Forall word ws -> holds buf off (concat (le64 <$> ws)) -> off + 8 * zlen ws <= buf_len ->
  unpack_words (length ws) buf buf_len off SL_ENC_LITTLE_ENDIAN = Done ws.
Proof. intros Hw (pre & post & -> & Ho) Hl. by apply words_at. Qed.

Lemma range_in off n : 0 <= off -> 0 <= n -> off + n <= buf_len -> sl_unpack_range_valid buf_len off n = true.
Proof. intros Ho Hn Hl. unfold sl_unpack_range_valid. destruct (_ && _ && _) eqn:E; [done|bool_lia]. Qed.

(** A complex element leads to its unpacker by way of the TOC. *)
Lemma elem_cpx cpx query off idx count type size val toc :
  0 <= off -> off + 8 < toc_offset -> 0 <= idx < 2 ^ 16 -> 0 <= type < 2 ^ 16 -> 0 <= size < 2 ^ 16 -> 0 <= val < 2 ^ 32 ->
  holds buf off (le64 (sl_pack_tag SQ_TYPE_COMPLEX 1 (idx + 1))) -> holds ts idx (sl_pack_tag type size val :: toc) ->
  unpack_elem cpx query buf off count buf_len toc_offset (zlen ts) SL_ENC_LITTLE_ENDIAN =
  ('(o, q) ← cpx query (off + 8) type val; Done (q, o, count - 1)).
Proof.
  intros Ho Hlt Hidx Ht Hs Hv Hb Htoc. destruct HR as [Hl Hto Hroom _ Hword]. unfold unpack_elem.
  destruct (tag_fields SQ_TYPE_COMPLEX 1 (idx + 1)) as (Hw & T1 & T2 & T3); [done|done|lia|].
  rewrite (read_word _ _ Hw Hb) by lia. cbn [mbind out_bind]. rewrite T1, T2, T3. constant_tests. rewrite range_in by lia. cbn [negb].
  apply holds_cons in Htoc as [Htoc _]. pose proof (lookup_lt_Some _ _ _ Htoc) as Hidx2. specialize (Hword _ _ Htoc).
  destruct (_ || _) eqn:E1; [bool_lia|]. clear E1. replace (idx + 1 - 1) with idx by lia.
  rewrite range_in by lia. cbn [negb]. rewrite orb_false_r. unfold SIZE_MAX, INT_MAX.
  destruct (_ || _) eqn:E2; [exfalso; bool_cases; apply orb_true_iff in E2 as [E2|E2]; bool_cases; zmod|]. clear E2.
  unfold sl_unpack_uint64. constant_tests. replace (toc_offset + idx * 8) with (toc_offset + 8 * Z.of_nat (Z.to_nat idx)) by lia. rewrite Hword.
  cbn [mbind out_bind]. destruct (tag_fields type size val Ht Hs Hv) as (_ & U1 & _ & U3). by rewrite U1, U3.
Qed.

(** An element of one value behind its tag. *)
Lemma elem_count off type size : 0 <= off -> off + 8 * size <= buf_len -> 1 <= size < 2 ^ 16 -> 0 <= type < 2 ^ 16 ->
  holds buf off (le64 (sl_pack_tag type size 1)) ->
  sl_unpack_uint64_checked buf buf_len off SL_ENC_LITTLE_ENDIAN = Done (sl_pack_tag type size 1) /\
  forall n, 1 <= Z.quot (size * 8 - 8) n -> sl_unpack_count (sl_pack_tag type size 1) (size * 8) n = Done 1.
Proof.
  intros Ho Hl Hs Ht Hb. destruct (tag_fields type size 1) as (Hw & _ & _ & T3); [done|lia|lia|]. split; [apply read_word; [done|done|lia]|].
  intros n Hn. unfold sl_unpack_count. destruct (_ <? 8) eqn:E; [bool_lia|]. unfold tag_val in T3. rewrite T3.
  destruct (_ || _) eqn:E2; [|done]. exfalso. apply orb_true_iff in E2 as [E2|E2]; [done|]. bool_lia.
Qed.

Lemma tag_of type size val w : w = sl_pack_tag type size val -> 0 <= type < 2 ^ 16 -> 0 <= size < 2 ^ 16 -> 0 <= val < 2 ^ 32 ->
  forall off, holds buf off (le64 w) -> off + 8 <= buf_len ->
  sl_unpack_uint64_checked buf buf_len off SL_ENC_LITTLE_ENDIAN = Done w /\ tag_type w = type /\ tag_size w = size /\ tag_val w = val.
Proof.
  intros -> Ht Hs Hv off Hb Hl. destruct (tag_fields type size val Ht Hs Hv) as (Hw & T). split; [by apply read_word|done].
Qed.

(** An element whose value is in its tag. *)
Lemma elem_tag cpx query off count type val o :
  0 <= off -> off + 8 < toc_offset -> 0 <= val <= 1 -> 1 <= count ->
  holds buf off (le64 (sl_pack_tag type 1 val)) ->
  (type = SQ_TYPE_NULL /\ val = 1 /\ o = sl_nil_t) \/ (type = SQ_TYPE_BOOL /\ o = sl_bool_t (negb (val =? 0))) ->
  unpack_elem cpx query buf off count buf_len toc_offset (zlen ts) SL_ENC_LITTLE_ENDIAN = Done (query ++ [o], off + 8, count - 1).
Proof.
  intros Ho Hlt Hv Hc Hb Ho'. destruct HR as [Hl Hto Hroom _ _]. unfold unpack_elem.
  destruct (tag_of type 1 val _ eq_refl ltac:(destruct Ho' as [(-> & _)|[-> _]]; done) ltac:(done) ltac:(lia) off Hb ltac:(lia)) as (-> & T1 & T2 & T3).
  cbn [mbind out_bind]. rewrite T1, T2, T3. constant_tests. rewrite range_in by lia. cbn [negb].
  destruct Ho' as [(-> & -> & ->)|[-> ->]]; constant_tests; [|done].
  change (64 <? 1) with false. destruct (count <? 1) eqn:E; [bool_lia|done].
Qed.

(** An element of one value of [size - 1] units. *)
Lemma elem_value cpx query off count type size (v : list Z) o :
  0 <= off -> off + 8 * size < toc_offset -> 1 <= count -> zlen v = 8 * size - 8 -> 2 <= size < 2 ^ 16 ->
  holds buf off (le64 (sl_pack_tag type size 1) ++ v) ->
  (type = SQ_TYPE_INT64 /\ size = 2 /\ exists w, word w /\ v = le64 w /\ o = uint64_t w) \/
  (type = SQ_TYPE_FLOAT /\ size = 2 /\ exists w, word w /\ v = le64 w /\ o = double_t w) \/
  (type = SQ_TYPE_DATE /\ size = 2 /\ exists w t, word w /\ v = le64 w /\ time_of_date w = Done t /\ o = time_t t) \/
  (type = SQ_TYPE_UUID /\ size = 3 /\ o = sl_uuid_t v) ->
  unpack_elem cpx query buf off count buf_len toc_offset (zlen ts) SL_ENC_LITTLE_ENDIAN = Done (query ++ [o], off + 8 * size, count - 1).
Proof.
  intros Ho Hlt Hc Hv Hs Hb Hcase. apply holds_app in Hb as [Hb Hval]. change (zlen (le64 (sl_pack_tag type size 1))) with 8 in Hval.
  destruct HR as [Hl Hto Hroom _ _]. assert (0 <= type < 2 ^ 16) as Ht by (destruct Hcase as [(-> & _)|[(-> & _)|[(-> & _)|(-> & _)]]]; done).
  destruct (tag_of type size 1 _ eq_refl Ht ltac:(lia) ltac:(lia) off Hb ltac:(lia)) as (R & T1 & T2 & T3).
  destruct (elem_count off type size Ho ltac:(lia) ltac:(lia) Ht Hb) as [_ Hcnt].
  unfold unpack_elem. rewrite R. cbn [mbind out_bind]. rewrite T1, T2. destruct (size * 8 =? 0) eqn:E0; [bool_lia|]. rewrite range_in by lia. cbn [negb].
  assert (forall m, m = Done (1, query ++ [o]) ->
    ('(subcount, query) ← m; if count <? subcount then Fail else Done (query, off + size * 8, count - subcount)) =
    Done (query ++ [o], off + 8 * size, count - 1)) as Hfin.
  { intros m ->. cbn. destruct (count <? 1) eqn:E; [bool_lia|]. do 2 f_equal. f_equal. lia. }
  assert (forall w, word w -> v = le64 w -> sl_unpack_uint64_checked buf buf_len (off + 8) SL_ENC_LITTLE_ENDIAN = Done w) as Hread.
  { intros w Hw ->. apply read_word; [done|done|]. rewrite le64_length in Hv. lia. }
  destruct Hcase as [(-> & -> & w & Hw & Ev & ->)|[(-> & -> & w & Hw & Ev & ->)|[(-> & -> & w & t & Hw & Ev & Hd & ->)|(-> & -> & ->)]]]; constant_tests;
    apply Hfin; unfold sl_unpack_ints, sl_unpack_floats, sl_unpack_date, sl_unpack_uuid; rewrite R; cbn [mbind out_bind]; rewrite Hcnt by done;
    cbn [mbind out_bind]; change (Z.to_nat 1) with 1%nat; cbn [mbind out_bind unpack_words unpack_dates unpack_uuids].
  - by rewrite (Hread w Hw Ev).
  - by rewrite (Hread w Hw Ev).
  - rewrite (Hread w Hw Ev). cbn [mbind out_bind]. by rewrite Hd.
  - rewrite range_in by lia. cbn [negb]. destruct Hval as (pre & post & -> & Hpre). by rewrite (peek_at pre v post) by lia.
Qed.
End region.

(** The value [o] reads back from its format as [canon] has it. *)
Definition reads_back (o : obj) : Prop :=
  forall lim buf buf_len toc_offset ts, region buf buf_len toc_offset ts -> (need o <= S lim)%nat ->
  forall query off idx count, 0 <= off -> 1 <= count ->
  holds buf off (format o off idx).1 -> holds ts idx (format o off idx).2 -> off + zlen (format o off idx).1 < toc_offset ->
  unpack_elem (cpx_at lim buf buf_len toc_offset (zlen ts)) query buf off count buf_len toc_offset (zlen ts) SL_ENC_LITTLE_ENDIAN =
  Done (query ++ [canon o], off + zlen (format o off idx).1, count - 1).

Lemma iter_reads l : Forall reads_back l -> Forall (fun o => forall off idx, units (format o off idx).1) l ->
  forall fuel lim buf buf_len toc_offset ts, region buf buf_len toc_offset ts -> (needs l <= S lim)%nat -> (length l <= fuel)%nat ->
  forall query off idx, 0 <= off ->
  holds buf off (format_list format l off idx).1 -> holds ts idx (format_list format l off idx).2 -> off + zlen (format_list format l off idx).1 < toc_offset ->
  unpack_iter fuel (cpx_at lim buf buf_len toc_offset (zlen ts)) query buf off (zlen l) buf_len toc_offset (zlen ts) SL_ENC_LITTLE_ENDIAN =
  Done (off + zlen (format_list format l off idx).1, query ++ (canon <$> l)).
Proof.
  intros Hrb. induction Hrb as [|o l Ho Hl IH]; intros Hu fuel lim buf buf_len toc_offset ts HR Hn Hf query off idx Hoff Hb Ht Hend.
  - destruct fuel; cbn; by rewrite Z.add_0_r, app_nil_r.
  - cbn [fmap list_fmap]. apply Forall_cons in Hu as [Hu Hus]. change (needs (o :: l)) with (Nat.max (need o) (needs l)) in Hn. cbn [length] in Hf. destruct fuel as [|fuel]; [lia|].
    rewrite format_list_cons in *. cbn [fst snd] in *. apply holds_app in Hb as [Hb1 Hb2]. apply holds_app in Ht as [Ht1 Ht2].
    rewrite length_app in Hend. destruct (Hu off idx) as [k Hk]. pose proof (rg_toc _ _ _ _ HR).
    cbn [unpack_iter]. rewrite wrap_small by lia. destruct (_ && _) eqn:E; [|cbn [length] in E; bool_lia].
    rewrite (Ho lim buf buf_len toc_offset ts HR ltac:(lia) query off idx) by (done || cbn [length]; lia). cbn [mbind out_bind].
    replace (zlen (o :: l) - 1) with (zlen l) by (cbn [length]; lia).
    rewrite (IH Hus fuel lim buf buf_len toc_offset ts HR ltac:(lia) ltac:(lia) _ _ (idx + zlen (format o off idx).2)) by (done || lia).
    rewrite length_app, <- app_assoc. do 2 f_equal. lia.
Qed.

Lemma loop_reads l : Forall reads_back l -> Forall (fun o => forall off idx, units (format o off idx).1) l ->
  forall lim buf buf_len toc_offset ts, region buf buf_len toc_offset ts -> (needs l <= lim)%nat ->
  forall query off idx, 0 <= off ->
  holds buf off (format_list format l off idx).1 -> holds ts idx (format_list format l off idx).2 -> off + zlen (format_list format l off idx).1 < toc_offset ->
  sl_unpack_loop convert lim query buf off (zlen l) buf_len toc_offset (zlen ts) SL_ENC_LITTLE_ENDIAN =
  Done (off + zlen (format_list format l off idx).1, query ++ (canon <$> l)).
Proof.
  intros Hrb Hu lim buf buf_len toc_offset ts HR Hn query off idx Ho Hb Ht Hend.
  pose proof (format_list_units l Hu off idx) as [_ Hlen].
  destruct lim as [|lim]; [pose proof (needs_pos l); lia|]. cbn [sl_unpack_loop].
  apply iter_reads; [done|done|done|done|lia|done|done|done|done].
Qed.

Lemma array_reads type mk l : Forall reads_back l -> Forall (fun o => forall off idx, units (format o off idx).1) l ->
  (type = SQ_CPX_TYPE_ARRAY /\ mk = sl_array_t) \/ (type = SQ_CPX_TYPE_DICT /\ mk = sl_dict_t) ->
  forall lim buf buf_len toc_offset ts, region buf buf_len toc_offset ts -> (2 + needs l <= S lim)%nat ->
  forall query off idx count,
  let bs := le64 (sl_pack_tag SQ_TYPE_COMPLEX 1 (idx + 1)) ++ (format_list format l (off + 8) (idx + 1)).1 in
  0 <= off -> holds buf off bs ->
  holds ts idx (sl_pack_tag type ((off + SL_OFFSET_DELTA) / 8) (zlen l) :: (format_list format l (off + 8) (idx + 1)).2) -> off + zlen bs < toc_offset ->
  unpack_elem (cpx_at lim buf buf_len toc_offset (zlen ts)) query buf off count buf_len toc_offset (zlen ts) SL_ENC_LITTLE_ENDIAN =
  Done (query ++ [mk (canon <$> l)], off + zlen bs, count - 1).
Proof.
  intros Hrb Hu Hty lim buf buf_len toc_offset ts HR Hn query off idx count bs Ho Hb Ht Hend.
  apply holds_app in Hb as [Hb1 Hb2]. rewrite le64_length in Hb2. pose proof (holds_range _ _ _ Ht) as Hidx. cbn [length] in Hidx.
  pose proof (rg_toc _ _ _ _ HR). pose proof (rg_few _ _ _ _ HR). pose proof (format_list_units l Hu (off + 8) (idx + 1)) as [_ Hlen].
  unfold bs in *. rewrite length_app, le64_length in *. unfold SL_OFFSET_DELTA in *.
  rewrite (elem_cpx _ _ _ _ HR _ _ _ idx _ type ((off + 16) / 8) (zlen l) (format_list format l (off + 8) (idx + 1)).2); [|lia|lia|lia|destruct Hty as [[-> _]|[-> _]]; done|zmod|lia|done|done].
  apply holds_cons in Ht as [_ Ht]. unfold cpx_at, sl_unpack_cpx. destruct lim as [|lim]; [lia|]. unfold unpack_cpx.
  assert (sl_unpack_loop convert lim [] buf (off + 8) (zlen l) buf_len toc_offset (zlen ts) SL_ENC_LITTLE_ENDIAN =
    Done (off + 8 + zlen (format_list format l (off + 8) (idx + 1)).1, canon <$> l)) as Hloop.
  { rewrite (loop_reads l Hrb Hu lim buf buf_len toc_offset ts HR ltac:(lia) [] (off + 8) (idx + 1)); [done|lia|done|done|lia]. }
  destruct Hty as [[-> ->]|[-> ->]]; constant_tests; rewrite Hloop; cbn [mbind out_bind]; do 2 f_equal; f_equal; lia.
Qed.

Lemma c_str_idem s : c_str (c_str s) = c_str s.
Proof. induction s as [|c s IH]; [done|]. cbn. destruct (c =? 0) eqn:E; [done|]. cbn. by rewrite E, IH. Qed.

Lemma string_reads s : plain (char_ptr s) -> reads_back (char_ptr s).
Proof.
  intros [Hne Hs] lim buf buf_len toc_offset ts HR Hn query off idx count Ho Hc Hb Ht Hend. cbn [format fst snd need] in *.
  set (len := strnlen s) in *. set (tag := sl_pack_tag SQ_TYPE_DATA (octets len + 1) (used len)) in *.
  apply holds_app in Hb as [Hb1 Hb2]. apply holds_app in Hb2 as [Hb2 Hb3]. apply holds_app in Hb3 as [Hb3 _]. rewrite le64_length in Hb2. rewrite !le64_length in Hb3.
  assert (0 < len) as Hlen by (unfold len, strnlen; destruct (c_str s); [done|cbn; lia]).
  pose proof (octets_bounds len ltac:(lia)) as [Hoc _]. destruct (octets_spec len ltac:(lia)) as [[_ Hus]|?]; [|lia].
  assert (1 <= used len <= 8) as Hu by (unfold used; case_test; zmod).
  pose proof (rg_toc _ _ _ _ HR) as Hto. pose proof (rg_few _ _ _ _ HR). pose proof (rg_room _ _ _ _ HR). pose proof (holds_range _ _ _ Ht) as Hidx. cbn [length] in Hidx.
  assert (zlen (le64 (sl_pack_tag SQ_TYPE_COMPLEX 1 (idx + 1)) ++ le64 tag ++ c_str s ++ replicate (Z.to_nat (octets len * 8 - len)) 0) = 16 + octets len * 8) as HL.
  { rewrite !length_app, !le64_length, length_replicate. unfold len, strnlen in *. lia. }
  rewrite HL in *. unfold SL_OFFSET_DELTA in Ht.
  rewrite (elem_cpx _ _ _ _ HR _ _ _ idx _ SQ_CPX_TYPE_STRING ((off + 16) / 8) (used len) []); [|lia|lia|lia|done|zmod|lia|done|done].
  unfold cpx_at, sl_unpack_cpx. destruct lim as [|lim]; [lia|]. unfold unpack_cpx. constant_tests. unfold unpack_string.
  destruct (tag_of _ _ _ _ HR SQ_TYPE_DATA (octets len + 1) (used len) tag eq_refl ltac:(done) ltac:(lia) ltac:(lia) (off + 8) Hb2 ltac:(lia)) as (-> & T1 & T2 & T3).
  cbn [mbind out_bind]. rewrite T2, T3. destruct (8 <? used len) eqn:E1; [bool_lia|]. rewrite range_in by lia. cbn [negb]. rewrite orb_false_r.
  destruct (_ <=? 8) eqn:E2; [bool_lia|]. constant_tests. destruct (_ || _) eqn:E3; [bool_lia|].
  destruct Hb3 as (pre & post & -> & Hpre). rewrite (peek_at pre (c_str s) post) by (unfold len, strnlen in *; lia). cbn [mbind out_bind].
  unfold dalloc_strndup. rewrite c_str_idem, <- Hs. do 2 f_equal. f_equal. lia.
Qed.

Lemma cnids_reads unkn1 context ids : plain (sl_cnids_t unkn1 context ids) -> reads_back (sl_cnids_t unkn1 context ids).
Proof.
  intros [Hids Hab] lim buf buf_len toc_offset ts HR Hn query off idx count Ho Hc Hb Ht Hend. cbn [format fst snd need] in *.
  set (n := zlen ids) in *. set (len := if 0 <? n then n + 1 + 1 else n + 1) in *. set (tag := sl_pack_tag SQ_TYPE_CNIDS len 8) in *.
  apply holds_app in Hb as [Hb1 Hb2]. apply holds_app in Hb2 as [Hb2 Hb3]. rewrite le64_length in Hb2. rewrite !le64_length in Hb3.
  pose proof (rg_toc _ _ _ _ HR) as Hto. pose proof (rg_few _ _ _ _ HR). pose proof (rg_room _ _ _ _ HR). pose proof (holds_range _ _ _ Ht) as Hidx. cbn [length] in Hidx.
  set (body := if 0 <? n then _ else []) in *. assert (zlen body = 8 * len - 8) as Hbody.
  { unfold body, len. case_test; [|unfold n in *; cbn; lia]. rewrite length_app, le64_length, concat_le64_length. unfold n. lia. }
  rewrite !length_app, !le64_length in *. unfold SL_OFFSET_DELTA in Ht.
  rewrite (elem_cpx _ _ _ _ HR _ _ _ idx _ SQ_CPX_TYPE_CNIDS ((off + 16) / 8) 0 []); [|lia|lia|lia|done|zmod|lia|done|done].
  unfold cpx_at, sl_unpack_cpx. destruct lim as [|lim]; [lia|]. unfold unpack_cpx. constant_tests.
  assert (1 <= len < 2 ^ 16) as Hlen by (unfold len, n in *; case_test; lia).
  destruct (tag_of _ _ _ _ HR SQ_TYPE_CNIDS len 8 tag eq_refl ltac:(done) ltac:(lia) ltac:(lia) (off + 8) Hb2 ltac:(lia)) as (-> & T1 & T2 & T3).
  cbn [mbind out_bind]. rewrite T2, range_in by lia. cbn [negb]. rewrite orb_false_r. destruct (_ <? 8) eqn:E1; [bool_lia|].
  unfold sl_unpack_CNID. unfold body, len in *. destruct (0 <? n) eqn:E; bool_cases.
  - destruct (decide (ids = [])) as [->|Hne]; [done|]. destruct Hab as [Ha Hcx]. destruct (_ <=? 16) eqn:E2; [bool_lia|]. rewrite range_in by lia. cbn [negb].
    apply holds_app in Hb3 as [Hb3 Hb4]. rewrite le64_length in Hb4.
    destruct (tag_of _ _ _ _ HR unkn1 n context _ eq_refl Ha ltac:(lia) Hcx (off + 8 + 8) Hb3 ltac:(lia)) as (-> & U1 & U2 & U3).
    cbn [mbind out_bind]. rewrite U1, U2, U3. destruct (n =? 0) eqn:E3; [bool_lia|].
    replace ((n + 1 + 1) * 8 - 2 * 8) with (n * 8) by lia. rewrite Z.quot_mul, Z.ltb_irrefl by lia.
    replace (Z.to_nat n) with (length ids) by (unfold n; lia). rewrite (read_words _ _ _ _ HR _ ids) by (done || unfold n in *; lia). cbn [mbind out_bind]. do 2 f_equal. f_equal. lia.
  - assert (ids = []) as -> by (destruct ids; [done|unfold n in *; cbn in *; lia]). rewrite decide_True in Hab by done. destruct Hab as [-> ->].
    change (zlen ([] : list Z)) with 0 in *. unfold n. change ((0 + 1) * 8 <=? 16) with true. cbn [mbind out_bind]. do 2 f_equal. f_equal. cbn. lia.
Qed.

Lemma wrap_wrap w z : wrap w (wrap w z) = wrap w z.
Proof. unfold wrap. apply Z.mod_mod_divide. by exists 1; lia. Qed.

Lemma pack_tag_word type size val : word (sl_pack_tag type size val).
Proof.
  replace (sl_pack_tag type size val) with (sl_pack_tag (wrap 16 type) (wrap 16 size) (u32 val)) by (unfold sl_pack_tag; by rewrite !wrap_wrap).
  apply tag_fields; apply wrap_range; lia.
Qed.

Lemma format_toc_words o : forall off idx, Forall word (format o off idx).2.
Proof.
  assert (forall l, Forall (fun o => forall off idx, Forall word (format o off idx).2) l ->
    forall off idx, Forall word (format_list format l off idx).2) as Hl.
  { induction 1 as [|x l Hx Hl IH]; intros off idx; [constructor|]. rewrite format_list_cons. cbn [snd]. apply Forall_app. auto. }
  induction o using obj_rect'; intros off idx; cbn [format]; try (constructor; [apply pack_tag_word|constructor]); try constructor.
  - specialize (Hl l H (off + 8) (idx + 1)). destruct (format_list _ _ _ _). constructor; [apply pack_tag_word|done].
  - specialize (Hl l H (off + 8) (idx + 1)). destruct (format_list _ _ _ _). constructor; [apply pack_tag_word|done].
Qed.

Lemma le32_pair a b : 0 <= a < 2 ^ 32 -> 0 <= b < 2 ^ 32 -> le32 a ++ le32 b = le64 (a + b * 2 ^ 32) /\ word (a + b * 2 ^ 32) /\ tag_val (a + b * 2 ^ 32) = b.
Proof.
  intros Ha Hb. unfold le64, tag_val, word. rewrite Z.shiftr_div_pow2 by lia. unfold wrap. split; [f_equal; f_equal; zmod|]. split; [lia|zmod].
Qed.

(** The data and the TOC of a payload are a region. *)
Lemma payload_region d ts post w : Forall word ts -> zlen d <= 65000 -> zlen ts <= 1023 ->
  region (d ++ le64 w ++ concat (le64 <$> ts) ++ post) (zlen d + 8 + 8 * zlen ts) (zlen d + 8) ts.
Proof.
  intros Hw Hd Hts. split; [rewrite !length_app, le64_length, concat_le64_length; lia|lia|lia|lia|].
  intros i t Hi. pose proof (lookup_lt_Some _ _ _ Hi). rewrite <- (take_drop_middle _ _ _ Hi), fmap_app, concat_app. cbn [fmap list_fmap concat].
  rewrite <- !app_assoc, (app_assoc (le64 w)), (app_assoc d).
  apply get_le64.
  - by apply (proj1 (Forall_lookup _ _) Hw i).
  - rewrite !length_app, le64_length, concat_le64_length, length_take. lia.
Qed.

Lemma payload_reads o lim post : reads_back o -> (forall off idx, units (format o off idx).1) -> (need o <= lim)%nat ->
  (ntoc o <= 1023)%nat -> zlen (format o 0 0).1 <= 65000 ->
  sl_unpack_r (sl_unpack_loop convert lim) [] (format_payload format [o] ++ post) (zlen (format_payload format [o])) = Done [canon o].
Proof.
  intros Hrb Hu Hn Htoc Hd. pose proof (format_payload_length [o]) as HP. rewrite HP.
  pose proof (formats_toc [o] 0 0) as Hts. change (ntocs [o]) with (ntoc o + 0)%nat in Hts.
  pose proof (loop_reads [o] ltac:(by constructor) ltac:(by constructor) lim) as Hloop.
  assert (Forall word (format_list format [o] 0 0).2) as Hw by (rewrite format_list_cons; cbn; rewrite app_nil_r; apply format_toc_words).
  assert (units (format_list format [o] 0 0).1 /\ zlen (format_list format [o] 0 0).1 <= 65000) as [[k Hk] Hdl]
    by (rewrite format_list_cons; cbn [fst]; cbn [format_list fst]; rewrite app_nil_r; auto).
  unfold format_payload. specialize (Hloop). destruct (format_list format [o] 0 0) as [d ts] eqn:EF. cbn [fst snd] in *.
  unfold sl_unpack_r. destruct (_ <? 16) eqn:E16; [bool_lia|].
  rewrite <- !app_assoc. change (peek 0 8 (MAGIC ++ ?x)) with (peek 0 8 ([] ++ MAGIC ++ x)).
  rewrite (peek_at [] MAGIC _ 0 8) by done. cbn [mbind out_bind].
  replace (bool_decide (MAGIC = SL_MAGIC_BE)) with false by done.
  set (A := u32 (zlen d / 8 + 1 + zlen ts + 1)). set (B := u32 (zlen d / 8 + 1)).
  destruct (le32_pair A B) as (E & HwAB & HvAB); [apply wrap_range; lia|apply wrap_range; lia|].
  assert (u64 (u64 (B - 1) * 8) = zlen d) as HB 
    by (unfold B; replace (zlen d / 8) with (Z.of_nat (S k)) by zmod; rewrite (wrap_small 32), (wrap_small 64 (_ - 1)), (wrap_small 64) by lia; lia).
  change (drop 8 (MAGIC ++ ?x)) with x. rewrite (app_assoc (le32 A)), E.
  set (body := d ++ le64 (sl_pack_tag SQ_TYPE_TOC (zlen ts + 1) 0) ++ concat (le64 <$> ts) ++ post).
  change (sl_unpack_uint64_checked (le64 ?w ++ ?x)) with (sl_unpack_uint64_checked ([] ++ le64 w ++ x)).
  rewrite (checked_at [] _ body 0) by (done || lia). cbn [mbind out_bind]. rewrite HvAB, HB. change (drop 8 (le64 ?w ++ ?x)) with x.
  rewrite range_in by lia. cbn [negb]. rewrite orb_false_r. destruct (65000 <? zlen d) eqn:E65; [bool_lia|].
  destruct (tag_fields SQ_TYPE_TOC (zlen ts + 1) 0) as (HT & T1 & T2 & _); [done|lia|lia|].
  rewrite (checked_at d _ (concat (le64 <$> ts) ++ post) (zlen d) (16 + zlen d + (zlen ts + 1) * 8 - 8 - 8) HT eq_refl ltac:(lia) : sl_unpack_uint64_checked body _ _ _ = _).
  cbn [mbind out_bind]. rewrite T1, T2. constant_tests.
  destruct (zlen ts + 1 =? 0) eqn:E0; [bool_lia|]. replace (zlen ts + 1 - 1) with (zlen ts) by lia.
  replace (16 + zlen d + (zlen ts + 1) * 8 - 8 - 8) with (zlen d + 8 + 8 * zlen ts) by lia. unfold UINT_MAX.
  destruct (_ || _) eqn:EU; [exfalso; apply orb_true_iff in EU as [EU|EU]; bool_cases; zmod|].
  pose proof (Hloop body _ _ ts (payload_region d ts post _ Hw Hdl ltac:(lia)) ltac:(pose proof (need_pos o); cbn; lia) [] 0 0) as HL.
  rewrite EF in HL. cbn [fst snd] in HL. change (zlen [o]) with 1 in HL. rewrite HL; [done|lia| | |lia].
  - by exists [], (le64 (sl_pack_tag SQ_TYPE_TOC (zlen ts + 1) 0) ++ concat (le64 <$> ts) ++ post).
  - exists [], []. by rewrite app_nil_r.
Qed.

Lemma payload_units o : (forall off idx, units (format o off idx).1) -> exists k, length (format_payload format [o]) = (8 * k)%nat.
Proof.
  intros Hu. pose proof (format_payload_length [o]) as HP. rewrite format_list_cons in HP. cbn [fst snd format_list] in HP. rewrite !app_nil_r in HP.
  destruct (Hu 0 0) as [k Hk]. exists (2 + S k + (length (format o 0 0).2 + 1))%nat. lia.
Qed.

Lemma filemeta_reads l : Forall reads_back l -> plain (sl_filemeta_t l) -> reads_back (sl_filemeta_t l).
Proof.
  intros Hrb Hp lim buf buf_len toc_offset ts HR Hn query off idx count Ho Hc Hb Ht Hend. cbn [format fst snd] in *.
  set (fm := if 40 <? zlen (format_payload format l) then format_payload format l else []) in *.
  assert (exists k, length fm = (8 * k)%nat) as [k Hk].
  { unfold fm. destruct l as [|o [|]]; [by exists 0%nat| |done]. case_test; [|by exists 0%nat]. apply payload_units, format_units, Hp. }
  assert (zlen fm / 8 = Z.of_nat k) as Hdiv by (rewrite Hk; zmod). rewrite Hdiv in *.
  apply holds_app in Hb as [Hb1 Hb2]. apply holds_app in Hb2 as [Hb2 Hb3]. rewrite le64_length in Hb2. rewrite !le64_length in Hb3.
  pose proof (rg_toc _ _ _ _ HR) as Hto. pose proof (rg_few _ _ _ _ HR). pose proof (rg_room _ _ _ _ HR). pose proof (holds_range _ _ _ Ht) as Hidx. cbn [length] in Hidx.
  rewrite !length_app, !le64_length in *. unfold SL_OFFSET_DELTA in Ht.
  rewrite (elem_cpx _ _ _ _ HR _ _ _ idx _ SQ_CPX_TYPE_FILEMETA ((off + 16) / 8) (Z.of_nat k) []); [|lia|lia|lia|done|zmod|lia|done|done].
  unfold cpx_at, sl_unpack_cpx. destruct lim as [|lim]; [cbn in Hn; lia|]. unfold unpack_cpx. constant_tests.
  destruct (tag_of _ _ _ _ HR SQ_TYPE_DATA (Z.of_nat k + 1) 8 _ eq_refl ltac:(done) ltac:(lia) ltac:(lia) (off + 8) Hb2 ltac:(lia)) as (-> & T1 & T2 & T3).
  cbn [mbind out_bind]. rewrite T2, range_in by lia. cbn [negb]. rewrite orb_false_r. destruct (_ <? 8) eqn:E1; [bool_lia|].
  cbn [canon]. destruct l as [|o [|]]; [| |done].
  - assert (fm = []) as Hfm by reflexivity. rewrite Hfm in *. assert (k = 0%nat) as -> by (cbn in Hk; lia). change ((Z.of_nat 0 + 1) * 8 =? 8) with true. cbn [mbind out_bind].
    do 2 f_equal. f_equal. cbn. lia.
  - destruct Hp as (Hp & Htoc & Hd & H40). unfold fm in *. rewrite (proj2 (Z.ltb_lt _ _) H40) in *.
    destruct (_ =? 8) eqn:E8; [bool_lia|]. apply Forall_cons in Hrb as [Hrb _].
    replace ((Z.of_nat k + 1) * 8 - 8) with (zlen (format_payload format [o])) by lia.
    destruct Hb3 as (pre & post & -> & Hpre). replace (Z.to_nat (off + 8 + 8)) with (length pre) by lia. rewrite drop_app_length.
    cbn [need foldr] in Hn. rewrite payload_reads; [|done|by apply format_units|lia|done|done]. cbn [mbind out_bind]. do 2 f_equal. f_equal. lia.
Qed.

(** Every plain value reads back. *)
Lemma obj_reads o : plain o -> reads_back o.
Proof.
  assert (forall l, Forall (fun o => plain o -> reads_back o) l -> foldr (fun o P => plain o /\ P) True l ->
    Forall reads_back l /\ Forall (fun o => forall off idx, units (format o off idx).1) l) as Hall.
  { intros l H Hp. apply foldr_and in Hp. rewrite !Forall_forall in *. auto using format_units. }
  induction o using obj_rect'; intros Hp; try done.
  - destruct (Hall l H Hp) as [Hrb Hu]. intros lim buf buf_len toc_offset ts HR Hn query off idx count Ho Hc. cbn [format need] in *.
    pose proof (array_reads SQ_CPX_TYPE_ARRAY sl_array_t l Hrb Hu ltac:(by left) lim buf buf_len toc_offset ts HR Hn query off idx count) as HA.
    destruct (format_list _ _ _ _). exact (HA Ho).
  - destruct (Hall l H Hp) as [Hrb Hu]. intros lim buf buf_len toc_offset ts HR Hn query off idx count Ho Hc. cbn [format need] in *.
    pose proof (array_reads SQ_CPX_TYPE_DICT sl_dict_t l Hrb Hu ltac:(by right) lim buf buf_len toc_offset ts HR Hn query off idx count) as HA.
    destruct (format_list _ _ _ _). exact (HA Ho).
  - apply filemeta_reads; [|done]. destruct l as [|o [|]]; [constructor| |done]. apply Forall_cons in H as [H _]. constructor; [apply H, Hp|constructor].
  - intros lim buf buf_len toc_offset ts HR Hn query off idx count Ho Hc Hb Ht Hend. cbn [format fst snd] in *.
    apply (elem_value _ _ _ _ HR _ _ _ _ SQ_TYPE_INT64 2 (le64 u)); [done|exact Hend|done|done|lia|done|]. left. do 2 (split; [done|]). by exists u.
  - by apply string_reads.
  - intros lim buf buf_len toc_offset ts HR Hn query off idx count Ho Hc Hb Ht Hend. cbn [format fst snd] in *.
    eapply (elem_tag _ _ _ _ HR); [done|exact Hend| |done|exact Hb|]; [destruct b; lia|]. right. split; [done|]. by destruct b.
  - intros lim buf buf_len toc_offset ts HR Hn query off idx count Ho Hc Hb Ht Hend. cbn [format fst snd] in *.
    apply (elem_value _ _ _ _ HR _ _ _ _ SQ_TYPE_FLOAT 2 (le64 w)); [done|exact Hend|done|done|lia|done|]. right. left. do 2 (split; [done|]). by exists w.
  - intros lim buf buf_len toc_offset ts HR Hn query off idx count Ho Hc Hb Ht Hend. cbn [format fst snd] in *.
    eapply (elem_tag _ _ _ _ HR); [done|exact Hend| |done|exact Hb|]; [lia|]. by left.
  - destruct Hp as [Hw [t' Hd]]. intros lim buf buf_len toc_offset ts HR Hn query off idx count Ho Hc Hb Ht Hend. cbn [format fst snd canon] in *. rewrite Hd.
    apply (elem_value _ _ _ _ HR _ _ _ _ SQ_TYPE_DATE 2 (le64 (date_of_time t))); [done|exact Hend|done|done|lia|done|]. right. right. left. do 2 (split; [done|]). by exists (date_of_time t), t'.
  - intros lim buf buf_len toc_offset ts HR Hn query off idx count Ho Hc Hb Ht Hend. cbn [format fst snd plain] in *.
    assert (zlen (le64 (sl_pack_tag SQ_TYPE_UUID 3 1) ++ u) = 8 * 3) as HL by (rewrite length_app, le64_length, Hp; done). rewrite HL in *.
    apply (elem_value _ _ _ _ HR _ _ _ _ SQ_TYPE_UUID 3 u); [done|lia|done|lia|lia|done|]. right. right. right. done.
  - by apply cnids_reads.
Qed.
End cpx.
