(* ===== verification/SpotlightTheorems.v ===== *)
(** * Spotlight payloads: theorems

    Packing stays in bounds and writes the documented format, except for one entry too
    many in the table of contents; unpacking stays in bounds and ends on any bytes,
    except for dates out of range; and what was packed unpacks to the same values. *)

From S2P Require Import Prelude Bytes Spotlight SpotlightFacts SpotlightRoundTrip.

(** ** Packing a value that fits succeeds *)

Definition live {A} (m : out A) : Prop := m <> Fail.

Lemma live_bind {A B} (m : out A) (f : A -> out B) : live m -> (forall a, m = Done a -> live (f a)) -> live (m ≫= f).
Proof. unfold live. destruct m; cbn; auto. Qed.

Lemma live_if {A} (b : bool) (m : out A) : b = false -> live m -> live (if b then Fail else m).
Proof. by intros ->. Qed.

Lemma put_le64_live base b off val : live (sl_put_le64 base b off val).
Proof. unfold sl_put_le64, sl_put_le32, poke, live. destruct (_ && _); cbn; [|done]. by destruct (_ && _). Qed.

Lemma put_buf_live base offset maxoff val p : 0 <= offset -> offset + 8 <= maxoff -> live (put_buf base offset maxoff val p).
Proof. intros Ho Hm. unfold put_buf, slvalc. apply live_bind; [|done]. apply live_if; [apply not_true_iff_false; intros E; bool_lia|apply put_le64_live]. Qed.

Lemma put_toc_live val p : 0 <= toc_idx p <= 1023 -> live (put_toc val p).
Proof.
  intros Hi. unfold put_toc, slvalc, MAX_SLQ_TOC. apply live_bind; [|done].
  apply live_if; [apply not_true_iff_false; intros E; bool_lia|apply put_le64_live].
Qed.

Lemma copy_buf_live off bs p : live (copy_buf off bs p).
Proof. unfold copy_buf, poke, live. by destruct (_ && _). Qed.

(** The writes to the buffer leave the TOC. *)
Lemma put_buf_idx base offset maxoff val p p' : put_buf base offset maxoff val p = Done p' -> toc_idx p' = toc_idx p.
Proof. unfold put_buf. intros (b & _ & [= <-])%out_bind_Done. done. Qed.
Lemma put_toc_idx val p p' : put_toc val p = Done p' -> toc_idx p' = toc_idx p.
Proof. unfold put_toc. intros (b & _ & [= <-])%out_bind_Done. done. Qed.

Lemma pack_ids_live base maxoff ids : forall offset p, 0 <= offset -> offset + 8 * zlen ids <= maxoff -> live (pack_ids base maxoff ids offset p).
Proof.
  induction ids as [|id ids IH]; intros offset p Ho Hm; [done|]. cbn [pack_ids length] in *. apply live_bind; [apply put_buf_live; lia|].
  intros p1 _. apply IH; lia.
Qed.

(** The bytes a value needs in front of the limit: its own, and some for the header of
    an empty nested payload. *)
Definition packs_live (o : obj) : Prop :=
  forall base maxoff offset p, room base maxoff p -> maxoff <= MAX_SLQ_DAT -> 0 <= offset -> toc_idx p + Z.of_nat (ntoc o) <= 1023 ->
    offset + zlen (format o offset (toc_idx p)).1 + 25 <= maxoff -> live (pack_obj o base maxoff offset p).

Lemma pack_list_live l : Forall packs l -> Forall packs_live l -> forall base maxoff offset p,
  room base maxoff p -> maxoff <= MAX_SLQ_DAT -> 0 <= offset -> toc_idx p + Z.of_nat (ntocs l) <= 1023 ->
  offset + zlen (format_list format l offset (toc_idx p)).1 + 25 <= maxoff -> live (pack_list pack_obj l base maxoff offset p).
Proof.
  intros Hp Hl. induction Hl as [|o l Ho Hl IH]; intros base maxoff offset p Hr Hmax Hoff Hi Hm; [done|].
  apply Forall_cons in Hp as [Hpo Hpl]. cbn [pack_list]. rewrite format_list_cons in Hm. cbn [fst] in Hm. rewrite length_app in Hm.
  change (ntocs (o :: l)) with (ntoc o + ntocs l)%nat in Hi. apply live_bind; [apply Ho; (done || lia)|]. intros [o1 p1] E.
  pose proof (Hpo base maxoff offset p Hr Hoff ltac:(lia)) as Hw. rewrite E in Hw. unfold writes in Hw. cbn [judge fst snd] in Hw.
  pose proof (wr_idx _ _ _ _ _ _ _ _ Hw) as Hi1. pose proof (wr_off _ _ _ _ _ _ _ _ Hw) as Ho1. rewrite format_toc in *.
  apply IH; [done|by eapply wrote_room|done|lia|lia|]. rewrite Hi1, Ho1. lia.
Qed.

Lemma payload_live l base maxoff buf : Forall packs l -> Forall packs_live l -> 0 <= base -> maxoff <= MAX_SLQ_DAT -> base + maxoff <= zlen buf -> (ntocs l <= 1023)%nat ->
  zlen (format_payload format l) < maxoff -> l = [] \/ 41 + zlen (format_list format l 0 0).1 <= maxoff ->
  live (pack_payload pack_obj l base maxoff buf).
Proof.
  intros Hp Hl Hb Hmax Hm Hn Hfit Hd. pose proof (format_payload_length l) as HP. unfold pack_payload.
  apply live_if; [apply Z.leb_gt; lia|]. rewrite poke_in by (cbn; lia). cbn [mbind out_bind]. set (b1 := blit _ _ buf).
  assert (room (base + 16) (maxoff - 16) (Packing b1 (replicate (Z.to_nat MAX_SLQ_TOC) 0) 0)) as Hr.
  { split; cbn [p_buf p_toc toc_idx]; [lia| |by rewrite length_replicate, Z2Nat.id|lia]. unfold b1. rewrite length_blit by (cbn; lia). lia. }
  apply live_bind; [destruct Hd as [->|Hd]; [done|apply pack_list_live; [done|done|done|lia|lia|cbn; lia|cbn [toc_idx]; lia]]|]. intros [len p] E.
  pose proof (pack_list_writes l Hp _ _ 0 _ Hr ltac:(lia) ltac:(cbn; lia)) as Hw. rewrite E in Hw. unfold writes in Hw. cbn [judge fst snd toc_idx] in Hw.
  pose proof (wr_off _ _ _ _ _ _ _ _ Hw) as Ho. pose proof (wr_idx _ _ _ _ _ _ _ _ Hw) as Hi. cbn [toc_idx] in Hi.
  assert (forall b off v, 0 <= off -> off + 4 <= maxoff -> live (sivalc base b off maxoff v)) as Hsi.
  { intros b off v H1 H2. unfold sivalc. apply live_if; [apply not_true_iff_false; intros E'; bool_lia|].
    unfold sl_put_le32, poke, live. by destruct (_ && _). }
  apply live_bind; [apply Hsi; lia|]. intros b2 _. apply live_bind; [apply Hsi; lia|]. intros b3 _.
  apply live_bind; [unfold slvalc; apply live_if; [done|apply put_le64_live]|]. intros t _.
  apply live_if; [apply Z.leb_gt; rewrite Ho, Hi; lia|]. apply live_bind; [unfold peek, live; by destruct (_ && _)|]. intros bs _.
  apply live_bind; [unfold poke, live; by destruct (_ && _)|done].
Qed.

Lemma plain_slim o : plain o -> slim o /\ sized o.
Proof.
  assert (forall l, Forall (fun o => plain o -> slim o /\ sized o) l -> foldr (fun o P => plain o /\ P) True l ->
    foldr (fun o P => slim o /\ P) True l /\ foldr (fun o P => sized o /\ P) True l) as Hall.
  { intros l H Hp. rewrite !foldr_and in *. rewrite !Forall_forall in *. split; intros x Hx; by apply H, Hp. }
  induction o using obj_rect'; intros Hp; cbn [slim sized]; try done; [by apply Hall|by apply Hall|].
  destruct l as [|o [|]]; [cbn; split; [split; [done|lia]|done]| |done]. apply Forall_cons in H as [H _]. destruct Hp as (Hp & Hn & _).
  destruct (H Hp). cbn. split; [split; [done|lia]|done].
Qed.

Lemma plain_packs o : plain o -> packs o.
Proof. intros H. apply pack_obj_writes; apply plain_slim, H. Qed.

Lemma array_live type l : Forall packs l -> Forall packs_live l -> forall base maxoff offset p, room base maxoff p -> maxoff <= MAX_SLQ_DAT -> 0 <= offset ->
  toc_idx p + Z.of_nat (S (ntocs l)) <= 1023 -> offset + 8 + zlen (format_list format l (offset + 8) (toc_idx p + 1)).1 + 25 <= maxoff ->
  live (pack_members base maxoff type (zlen l) (pack_list pack_obj l base maxoff) offset p).
Proof.
  intros Hp Hl base maxoff offset p Hr Hmax Ho Hi Hm. pose proof (r_idx _ _ _ Hr). unfold pack_members.
  apply live_bind; [apply put_toc_live; lia|]. intros p1 E1. apply live_bind; [apply put_buf_live; lia|]. intros p2 E2.
  pose proof (put_cpx_then base maxoff offset (sl_pack_tag type ((offset + SL_OFFSET_DELTA) / 8) (zlen l)) p
    (fun p => Done (0, next_toc p)) (fun r => room base maxoff r.2 /\ toc_idx r.2 = toc_idx p + 1) Hr Ho ltac:(lia)) as Hs.
  rewrite E1 in Hs. cbn [mbind out_bind] in Hs. rewrite E2 in Hs. cbn [mbind out_bind judge snd] in Hs. destruct Hs as [Hr2 Hi2].
  { intros p' Hr' Hi' _. done. }
  apply pack_list_live; [done|done|done|done|lia|lia|]. rewrite Hi2. lia.
Qed.

Lemma filemeta_live l : plain (sl_filemeta_t l) -> Forall packs l -> Forall packs_live l -> packs_live (sl_filemeta_t l).
Proof.
  intros Hpl Hp Hl base maxoff offset p Hr Hmax Ho Hi Hm. pose proof (r_idx _ _ _ Hr). cbn [format fst ntoc] in *. rewrite !length_app, !le64_length in Hm.
  assert (zlen (format_payload format l) <= 40 -> l = []) as Hsmall by (intros Hs; destruct l as [|o [|]]; [done| |done]; destruct Hpl as (_ & _ & _ & H40); lia).
  assert (ntocs l <= 1023)%nat as Hn by (destruct l as [|o [|]]; [cbn; lia| |done]; destruct Hpl as (_ & Hn & _); change (ntocs [o]) with (ntoc o + 0)%nat; lia).
  pose proof (format_payload_length l) as HP. cbn [pack_obj]. unfold sl_pack_filemeta.
  apply live_bind; [apply put_buf_live; lia|]. intros p1 E1.
  pose proof (put_buf_grown base maxoff offset (sl_pack_tag SQ_TYPE_COMPLEX 1 (toc_idx p + 1)) p Hr) as Hs. rewrite E1 in Hs.
  destruct Hs as (_ & _ & b & -> & G). cbn [p_buf p_toc toc_idx]. pose proof (r_buf _ _ _ Hr). pose proof (r_base _ _ _ Hr).
  apply live_if; [apply Z.leb_gt; lia|].
  assert (zlen (format_payload format l) < maxoff - (offset + 16) /\ (l = [] \/ 41 + zlen (format_list format l 0 0).1 <= maxoff - (offset + 16))) as [Hf1 Hf2].
  { destruct (40 <? zlen (format_payload format l)) eqn:E40; bool_cases; [lia|]. specialize (Hsmall ltac:(lia)). subst l. change (zlen (format_payload format [])) with 24. cbn in Hm. split; [lia|by left]. }
  apply live_bind; [apply payload_live; [done|done|lia|lia|rewrite (proj1 G); lia|done|done|done]|]. intros [fmlen b2] E2.
  destruct (if 40 <? fmlen then _ else _) as [o2 f2]. apply live_bind; [apply put_buf_live; lia|]. intros p3 E3. apply put_buf_idx in E3.
  apply live_bind; [apply put_toc_live; cbn in E3; lia|done].
Qed.

Lemma string_live s : plain (char_ptr s) -> packs_live (char_ptr s).
Proof.
  intros [Hne Hs] base maxoff offset p Hr Hmax Ho Hi Hm. pose proof (r_idx _ _ _ Hr). cbn [format fst ntoc pack_obj] in *. rewrite !length_app, !le64_length, length_replicate in Hm.
  pose proof (octets_bounds (strnlen s) ltac:(unfold strnlen; lia)) as [Hoc Hoc0]. unfold sl_pack_string. fold (octets (strnlen s)).
  assert (zlen s = strnlen s + 1) as Hlen by (unfold strnlen; rewrite Hs at 1; rewrite length_app; cbn; lia).
  assert (zlen (c_str s) = strnlen s) as Hcs by done. unfold MAX_SLQ_DAT, DSI_DATASIZ, INT_MAX in *.
  apply live_if; [apply not_true_iff_false; intros E; bool_lia|]. apply live_bind; [apply put_toc_live; lia|]. intros p1 E1.
  apply live_bind; [apply put_buf_live; lia|]. intros p2 E2. apply live_bind; [apply put_buf_live; lia|]. intros p3 E3.
  apply live_if; [apply not_true_iff_false; intros E; apply orb_true_iff in E as [E|E]; [bool_lia|bool_cases; Z.to_euclidean_division_equations; lia]|].
  apply live_bind; [apply copy_buf_live|]. intros p4 _. apply live_bind; [apply copy_buf_live|done].
Qed.

Lemma cnids_live unkn1 context ids : packs_live (sl_cnids_t unkn1 context ids).
Proof.
  intros base maxoff offset p Hr Hmax Ho Hi Hm. pose proof (r_idx _ _ _ Hr). cbn [format fst ntoc pack_obj] in *. rewrite !length_app, !le64_length in Hm.
  unfold sl_pack_CNID. apply live_bind; [apply put_toc_live; lia|]. intros p1 E1. apply live_bind; [apply put_buf_live; lia|]. intros p2 E2.
  apply live_bind; [apply put_buf_live; lia|]. intros p3 E3. destruct (0 <? zlen ids); [|done].
  rewrite length_app, le64_length, concat_le64_length in Hm. apply live_bind; [apply put_buf_live; lia|]. intros p4 _. apply pack_ids_live; lia.
Qed.

Lemma two_live base maxoff tag w offset p : 0 <= offset -> offset + zlen (le64 tag ++ le64 w) + 25 <= maxoff ->
  live (p ← put_buf base offset maxoff tag p; p ← put_buf base (offset + 8) maxoff w p; Done (offset + 2 * 8, p)).
Proof.
  intros Ho Hm. rewrite length_app, !le64_length in Hm. apply live_bind; [apply put_buf_live; lia|]. intros p1 _.
  apply live_bind; [apply put_buf_live; lia|done].
Qed.

Lemma one_live base maxoff tag offset p : 0 <= offset -> offset + zlen (le64 tag) + 25 <= maxoff ->
  live (p ← put_buf base offset maxoff tag p; Done (offset + 8, p)).
Proof. intros Ho Hm. rewrite le64_length in Hm. apply live_bind; [apply put_buf_live; lia|done]. Qed.

Lemma plain_live o : plain o -> packs_live o.
Proof.
  assert (forall l, Forall (fun o => plain o -> packs_live o) l -> foldr (fun o P => plain o /\ P) True l -> Forall packs l /\ Forall packs_live l) as Hall.
  { intros l H Hp. rewrite !foldr_and in *. rewrite !Forall_forall in *. split; intros x Hx; [by apply plain_packs, Hp|by apply H, Hp]. }
  induction o using obj_rect'; intros Hp.
  - destruct (Hall l H Hp). intros base maxoff offset p Hr Hmax Ho Hi Hm. cbn [pack_obj format ntoc] in *.
    apply array_live; [done|done|done|done|done|done|]. destruct (format_list _ _ _ _). cbn [fst] in *. rewrite length_app, le64_length in Hm. lia.
  - destruct (Hall l H Hp). intros base maxoff offset p Hr Hmax Ho Hi Hm. cbn [pack_obj format ntoc] in *.
    apply array_live; [done|done|done|done|done|done|]. destruct (format_list _ _ _ _). cbn [fst] in *. rewrite length_app, le64_length in Hm. lia.
  - destruct (Hall l H) as [H1 H2]; [|by apply filemeta_live]. destruct l as [|o [|]]; [done| |destruct Hp]. cbn. split; [apply Hp|done].
  - intros base maxoff offset p Hr Hmax Ho Hi Hm. by apply two_live.
  - by apply string_live.
  - intros base maxoff offset p Hr Hmax Ho Hi Hm. by apply one_live.
  - intros base maxoff offset p Hr Hmax Ho Hi Hm. by apply two_live.
  - intros base maxoff offset p Hr Hmax Ho Hi Hm. by apply one_live.
  - intros base maxoff offset p Hr Hmax Ho Hi Hm. by apply two_live.
  - intros base maxoff offset p Hr Hmax Ho Hi Hm. cbn [pack_obj format fst plain] in *. rewrite length_app, le64_length, Hp in Hm.
    apply live_bind; [apply put_buf_live; lia|]. intros p1 _. apply live_if; [apply not_true_iff_false; intros E; bool_lia|].
    apply live_bind; [apply copy_buf_live|done].
  - apply cnids_live.
  - destruct Hp.
Qed.

(** ** Claims *)



(** The reply buffer. *)
Definition blank : list Z := replicate (Z.to_nat MAX_SLQ_DAT) 0.

Lemma blank_length : zlen blank = MAX_SLQ_DAT.
Proof. unfold blank. by rewrite length_replicate, Z2Nat.id. Qed.

(** A dictionary as the client sends it with a query. *)
Definition sample_query : obj :=
  sl_dict_t [char_ptr [107; 77; 68; 0]; sl_array_t [uint64_t 7; sl_bool_t true; sl_nil_t]; sl_uuid_t (replicate 16 9);
             sl_filemeta_t [sl_array_t [double_t 3; sl_cnids_t 6 12 [17; 18]]]; time_t (SlTime 1000000000 0)].


(** What a payload that was packed is unpacked to. *)
Definition there_and_back (o : obj) : out (list obj) :=
  match sl_pack [o] blank with Done (n, b) => sl_unpack_len Some [] b n | Fail => Fail | Undef => Undef | Overflow => Overflow end.

(** An empty string is packed in a form that the unpacker rejects, file metadata with one
    number comes back empty, and a date may lose a microsecond. *)
Example values_that_change :
  match sl_pack [char_ptr [0]] blank with Done _ => true | _ => false end = true /\ there_and_back (char_ptr [0]) = Fail /\
  there_and_back (sl_filemeta_t [uint64_t 7]) = Done [sl_filemeta_t []] /\
  there_and_back (time_t (SlTime 1000000000 123457)) = Done [time_t (SlTime 1000000000 123456)].
Proof. split_and!; vm_compute; reflexivity. Qed.

(** C34: Packing a query whose payloads have at most 1023 entries in each table of contents
    reads and writes nothing outside its buffers; when it succeeds the length is below the
    size of the reply buffer, the buffer starts with the documented format of the query,
    and nothing was written past its end. *)
Theorem sl_pack_safe l buf : slims l -> foldr (fun o P => sized o /\ P) True l -> (ntocs l <= 1023)%nat -> zlen buf = MAX_SLQ_DAT ->
  match sl_pack l buf with
  | Done (n, b) => n = zlen (format_payload format l) /\ n < MAX_SLQ_DAT /\ length b = length buf /\ take (Z.to_nat n) b = format_payload format l
  | Fail => True
  | Undef | Overflow => False
  end.
Proof.
  intros Hs Hz Hn Hb. unfold slims in Hs. rewrite foldr_and in Hs, Hz.
  assert (Forall packs l) as Hp by (rewrite Forall_forall in *; intros o Ho; apply pack_obj_writes; auto).
  pose proof (pack_payload_writes l 0 MAX_SLQ_DAT buf Hp ltac:(done) ltac:(lia) Hn) as Hw. unfold sl_pack, sl_pack_len.
  destruct (pack_payload pack_obj l 0 MAX_SLQ_DAT buf) as [[n b]| | |]; [|done|done|done]. cbn [judge fst snd] in Hw.
  destruct Hw as (-> & Hlt & Hlen & Htake). rewrite Nat2Z.id. done.
Qed.

Lemma sl_pack_safe_witness :
  match sl_pack [sample_query] (blank) with
  | Done (n, b) => n = zlen (format_payload format [sample_query]) /\ n < MAX_SLQ_DAT /\ length b = length (blank) /\
                   take (Z.to_nat n) b = format_payload format [sample_query]
  | Fail => True
  | Undef | Overflow => False
  end.
Proof. apply sl_pack_safe; [cbn; repeat split; lia|cbn; repeat split|vm_compute; lia|apply blank_length]. Defined.

(** C33: Whatever bytes a client sends, and whatever count, offset or type they claim, the
    unpacker ends within its depth limit and reads nothing outside the payload. *)
Theorem sl_unpack_safe convert query buf buf_len : Forall byte buf -> buf_len <= zlen buf -> sl_unpack_len convert query buf buf_len <> Undef.
Proof.
  intros Hb Hl E. pose proof (unpack_r_safe _ query buf buf_len (unpack_loop_ok convert SUBQ_SAFETY_LIM) Hb Hl) as Hs.
  unfold sl_unpack_len in E. by rewrite E in Hs.
Qed.

Definition junk : list Z := MAGIC ++ le32 7 ++ le32 4 ++ le64 (sl_pack_tag SQ_TYPE_COMPLEX 1 1) ++ le64 (sl_pack_tag SQ_TYPE_DATA 99 8) ++
  le64 0 ++ le64 (sl_pack_tag SQ_TYPE_TOC 2 0) ++ le64 (sl_pack_tag SQ_CPX_TYPE_STRING 0 0).

Lemma sl_unpack_safe_witness : sl_unpack_len Some [] junk 56 <> Undef.
Proof.
  apply sl_unpack_safe; [|vm_compute; discriminate].
  vm_compute. unfold byte. repeat (constructor; [by split|]). constructor.
Defined.

(** A date is converted to a time with no test of its range: a payload of 40 bytes whose
    date is a NaN makes sl_unpack_date convert it to an integer, which is undefined. *)
Theorem sl_unpack_bad_date :
  sl_unpack_len Some [] (MAGIC ++ le32 4 ++ le32 3 ++ le64 (sl_pack_tag SQ_TYPE_DATE 2 1) ++ le64 (bits_of_b64 SpecFloat.S754_nan) ++
    le64 (sl_pack_tag SQ_TYPE_TOC 1 0)) 40 = Overflow.
Proof. vm_compute. reflexivity. Qed.

Lemma pack_list_app f x y : forall base maxoff offset p,
  pack_list f (x ++ y) base maxoff offset p = ('(offset, p) ← pack_list f x base maxoff offset p; pack_list f y base maxoff offset p).
Proof.
  induction x as [|o x IH]; intros base maxoff offset p; [done|]. cbn [app pack_list]. rewrite bind_assoc_out.
  destruct (f o base maxoff offset p) as [[o1 p1]| | |]; cbn [mbind out_bind]; [apply IH|done|done|done].
Qed.

(** The slot 1023 of the TOC lies inside the bound of [slvalc] and outside the array. *)
Lemma put_toc_overflow val p : toc_idx p = 1023 -> zlen (p_toc p) = MAX_SLQ_TOC -> put_toc val p = Undef.
Proof.
  intros Hi Ht. unfold put_toc, slvalc, sl_put_le64, sl_put_le32, poke. rewrite Hi, Ht. cbn [length le32]. by cbn.
Qed.

(** The table of contents has room for its tag and 1023 entries, and the packer tests
    for 1024: when a query has an array or a dictionary behind values with 1023 entries, the
    packer writes the next entry behind the end of its table on the stack. *)
Theorem sl_pack_toc_overflow l m rest buf : foldr (fun o P => plain o /\ P) True l -> ntocs l = 1023%nat -> zlen buf = MAX_SLQ_DAT ->
  zlen (format_list format l 0 0).1 <= 65000 -> sl_pack (l ++ sl_array_t m :: rest) buf = Undef.
Proof.
  rewrite foldr_and. intros Hl Hn Hb Hd. assert (Forall packs l) as Hp by (eapply Forall_impl; [exact Hl|apply plain_packs]).
  assert (Forall packs_live l) as Hv by (eapply Forall_impl; [exact Hl|apply plain_live]). unfold sl_pack, sl_pack_len, pack_payload.
  change (MAX_SLQ_DAT <=? 16) with false. cbn match. rewrite poke_in by (rewrite ?Hb; done). cbn [mbind out_bind]. set (b1 := blit _ _ buf).
  set (p0 := Packing b1 _ 0). assert (room (0 + 16) (MAX_SLQ_DAT - 16) p0) as Hr.
  { split; cbn [p_buf p_toc toc_idx p0]; [lia| |by rewrite length_replicate, Z2Nat.id|lia].
    unfold b1. rewrite length_blit, Hb; [done|]. apply (f_equal Z.to_nat) in Hb. rewrite Nat2Z.id in Hb. rewrite Hb. apply Nat.leb_le. vm_compute. reflexivity. }
  rewrite pack_list_app, bind_assoc_out.
  pose proof (pack_list_writes l Hp _ _ 0 p0 Hr ltac:(lia) ltac:(cbn; lia)) as Hw. unfold MAX_SLQ_DAT, DSI_DATASIZ in *.
  pose proof (pack_list_live l Hp Hv _ _ 0 p0 Hr ltac:(unfold MAX_SLQ_DAT, DSI_DATASIZ; lia) ltac:(lia) ltac:(cbn; lia) ltac:(cbn [toc_idx p0]; lia)) as Hlive.
  destruct (pack_list _ l _ _ _ _) as [[o1 p1]| | |]; [|done|done|done]. cbn [mbind out_bind judge fst snd] in *. unfold writes in Hw. cbn [toc_idx p0 fst snd] in Hw.
  pose proof (wr_idx _ _ _ _ _ _ _ _ Hw) as Hi. rewrite formats_toc, Hn in Hi. cbn [toc_idx] in Hi.
  pose proof (r_toc _ _ _ (wrote_room _ _ _ _ _ _ _ _ Hw Hr)) as Ht.
  cbn [pack_list pack_obj]. unfold sl_pack_array, pack_members. rewrite put_toc_overflow; [done|by rewrite Hi|done].
Qed.

Lemma sl_pack_toc_overflow_witness : sl_pack (replicate 1023 (sl_array_t []) ++ [sl_array_t []]) blank = Undef.
Proof. apply sl_pack_toc_overflow; [by cbn|by vm_compute|apply blank_length|vm_compute; discriminate]. Defined.
