(* ===== verification/Dsi.v ===== *)
(** * DSI streams, libatalk/dsi

    A session reads requests from its socket and writes replies to it.  The bytes pass
    through a read-ahead buffer, which [dsi_peek] fills while a reply is blocked.  This
    file models dsi_stream.c and the commands around it: dsi_write.c without splice,
    dsi_read.c, dsi_cmdreply.c, dsi_attn.c, dsi_tickle.c, dsi_close.c, dsi_getstat.c,
    dsi_opensess.c, and the buffers and the first request of dsi_tcp.c.

    The kernel is the state of a world: the bytes the client sends, those the server has
    sent, and the answers that each system call gets, in order.  A call without an
    answer left waits for ever, which is the outcome [Blocked]. *)

From S2P Require Import Prelude Bytes.

(** ** The kernel *)

Definition EINTR : Z := 4.
Definition EIO : Z := 5.
Definition EBADF : Z := 9.
Definition EAGAIN : Z := 11.
Definition EWOULDBLOCK : Z := EAGAIN.
Definition EINVAL : Z := 22.
Definition ECONNABORTED : Z := 103.
Definition ENOTCONN : Z := 107.
Definition ETIMEDOUT : Z := 110.
Definition FD_SETSIZE : Z := 1024.
Definition UINT_MAX : Z := 2 ^ 32 - 1.

(** The answer to a [recv], [send] or [writev]: at most [n] bytes, or an error. *)
Inductive io : Type := Take (n : nat) | Err (e : Z).

(** The answer to a [select] on the socket: readable and writable, or a return of -1 or 0. *)
Inductive sel : Type := Ready (r w : bool) | Sel_err (e : Z) | Sel_none.

(** The answer to a [poll]: input on the socket, a wake-up by the signal pipe, another
    event of that pipe, no event in time, or an error. *)
Inductive pol : Type := Poll_input | Poll_wake | Poll_pipe | Poll_timeout | Poll_err (e : Z).

(** Each turn of a wait reads the flag [stop_wait] points to and then polls. *)
Record world := World {
  inp : list Z;              (** what the client sends, from the next byte on *)
  outp : list Z;             (** what the server has sent *)
  recvs : list io;
  sends : list io;
  sels : list sel;
  polls : list (bool * pol);
  writes : list io;          (** the answers to [ad_write] *)
  filed : list Z;            (** what was written to the file, from the start of a request on *)
  errno : Z
}.

(** ** The session *)

Record dsi_block := Dsi_block {
  dsi_flags : Z;
  dsi_command : Z;
  dsi_requestID : Z;
  dsi_data : Z;              (** [dsi_code] and [dsi_doff] share their bytes *)
  dsi_len : Z;
  dsi_reserved : Z
}.

(** The fields of [struct DSI] that the stream functions change.  The read-ahead
    buffer is empty in the master process; [start] and [eof] count from its start, and
    its length is [end]. *)
Record link := Link {
  flags : Z;
  socket : Z;
  buffer : list Z;
  start : nat;
  eof : nat;
  read_count : Z;
  write_count : Z;
  in_write : Z;
  splice_pipe : bool         (** the pipe is open *)
}.

(** The other fields.  [AFPobj] is the user ID of the object, if there is one. *)
Record dsi := Dsi {
  header : dsi_block;
  serverID : Z;
  clientID : Z;
  attn_quantum : Z;
  server_quantum : Z;
  datasize : Z;
  commands : list Z;
  cmdlen : Z;
  data : list Z;
  datalen : Z;
  status : list Z;
  AFPobj : option Z;
  stop_wait : bool           (** the pointer is not NULL *)
}.

Record st := St { ses : dsi; lnk : link; net : world }.

(** ** Computations *)

Inductive run (A : Type) : Type :=
  | Ret (a : A) (s : st)
  | Exit (code : Z) (s : st)   (** the process ends *)
  | Blocked (s : st)           (** a system call waits for ever *)
  | Stuck                      (** a loop has no turn left *).
Arguments Ret {_} a s.
Arguments Exit {_} code s.
Arguments Blocked {_} s.
Arguments Stuck {_}.

Definition M (A : Type) : Type := st -> run A.

#[export] Instance M_ret : MRet M := fun A a s => Ret a s.
#[export] Instance M_bind : MBind M := fun A B f m s =>
  match m s with
  | Ret a s => f a s
  | Exit code s => Exit code s
  | Blocked s => Blocked s
  | Stuck => Stuck
  end.

Definition get : M st := fun s => Ret s s.
Definition set_ses (f : dsi -> dsi) : M unit := fun s => Ret tt (St (f (ses s)) (lnk s) (net s)).
Definition set_lnk (f : link -> link) : M unit := fun s => Ret tt (St (ses s) (f (lnk s)) (net s)).
Definition set_net (f : world -> world) : M unit := fun s => Ret tt (St (ses s) (lnk s) (f (net s))).
Definition stuck {A} : M A := fun _ => Stuck.
Definition exit {A} (code : Z) : M A := fun s => Exit code s.

Definition with_errno (e : Z) (w : world) : world := World (inp w) (outp w) (recvs w) (sends w) (sels w) (polls w) (writes w) (filed w) e.
Definition set_errno (e : Z) : M unit := set_net (with_errno e).

Definition with_flags (f : Z) (l : link) : link :=
  Link f (socket l) (buffer l) (start l) (eof l) (read_count l) (write_count l) (in_write l) (splice_pipe l).
Definition with_socket (fd : Z) (l : link) : link :=
  Link (flags l) fd (buffer l) (start l) (eof l) (read_count l) (write_count l) (in_write l) (splice_pipe l).
Definition with_buffer (b : list Z) (s e : nat) (l : link) : link :=
  Link (flags l) (socket l) b s e (read_count l) (write_count l) (in_write l) (splice_pipe l).
Definition with_pipe (p : bool) (l : link) : link :=
  Link (flags l) (socket l) (buffer l) (start l) (eof l) (read_count l) (write_count l) (in_write l) p.
Definition add_read (n : Z) (l : link) : link :=
  Link (flags l) (socket l) (buffer l) (start l) (eof l) (read_count l + n) (write_count l) (in_write l) (splice_pipe l).
Definition add_write (n : Z) (l : link) : link :=
  Link (flags l) (socket l) (buffer l) (start l) (eof l) (read_count l) (write_count l + n) (in_write l) (splice_pipe l).
Definition add_in_write (n : Z) (l : link) : link :=
  Link (flags l) (socket l) (buffer l) (start l) (eof l) (read_count l) (write_count l) (in_write l + n) (splice_pipe l).

(** ** System calls *)

(** [recv] of up to [count] bytes: the return value and the bytes. *)
Definition recv (count : nat) : M (Z * list Z) := fun s =>
  let w := net s in
  if socket (lnk s) <? 0 then Ret (-1, []) (St (ses s) (lnk s) (with_errno EBADF w)) else
  match recvs w with
  | [] => Blocked s
  | Err e :: r => Ret (-1, []) (St (ses s) (lnk s) (World (inp w) (outp w) r (sends w) (sels w) (polls w) (writes w) (filed w) e))
  | Take n :: r =>
      let bs := take (Nat.min n count) (inp w) in
      Ret (Z.of_nat (length bs), bs)
        (St (ses s) (lnk s) (World (drop (Nat.min n count) (inp w)) (outp w) r (sends w) (sels w) (polls w) (writes w) (filed w) (errno w)))
  end.

(** [send] and [writev] of the bytes [bs]: the return value. *)
Definition send (bs : list Z) : M Z := fun s =>
  let w := net s in
  if socket (lnk s) <? 0 then Ret (-1) (St (ses s) (lnk s) (with_errno EBADF w)) else
  match sends w with
  | [] => Blocked s
  | Err e :: r => Ret (-1) (St (ses s) (lnk s) (World (inp w) (outp w) (recvs w) r (sels w) (polls w) (writes w) (filed w) e))
  | Take n :: r =>
      let out := take n bs in
      Ret (Z.of_nat (length out)) (St (ses s) (lnk s) (World (inp w) (outp w ++ out) (recvs w) r (sels w) (polls w) (writes w) (filed w) (errno w)))
  end.

Definition select : M sel := fun s =>
  let w := net s in
  match sels w with
  | [] => Blocked s
  | a :: r => Ret a (St (ses s) (lnk s) (World (inp w) (outp w) (recvs w) (sends w) r (polls w) (writes w) (filed w) (match a with Sel_err e => e | _ => errno w end)))
  end.

(** The flag of [stop_wait], and the answer to the poll that follows when it is clear. *)
Definition poll : M (bool * pol) := fun s =>
  let w := net s in
  match polls w with
  | [] => Blocked s
  | a :: r =>
      Ret (stop_wait (ses s) && a.1, a.2)
        (St (ses s) (lnk s) (World (inp w) (outp w) (recvs w) (sends w) (sels w) r (writes w) (filed w)
          (if stop_wait (ses s) && a.1 then errno w else match a.2 with Poll_err e => e | _ => errno w end)))
  end.

(** ** dsi_stream.c *)

Definition DSI_BLOCKSIZ : nat := 16.

Definition DSI_SLEEPING : Z := Z.shiftl 1 2.
Definition DSI_EXTSLEEP : Z := Z.shiftl 1 3.
Definition DSI_DISCONNECTED : Z := Z.shiftl 1 4.
Definition DSI_NOREPLY : Z := Z.shiftl 1 6.
Definition DSI_AFP_LOGGED_OUT : Z := Z.shiftl 1 9.

Definition has (f bit : Z) : bool := negb (Z.land f bit =? 0).

(** The bytes of an integer in the memory of a little-endian host, and back. *)
Fixpoint le_bytes (n : nat) (v : Z) : list Z :=
  match n with
  | O => []
  | S n => v mod 256 :: le_bytes n (v / 256)
  end.

Fixpoint le_val (bs : list Z) : Z :=
  match bs with
  | [] => 0
  | b :: bs => b + 256 * le_val bs
  end.

Definition bswap16 (z : Z) : Z := Z.lor (Z.shiftl (Z.land z 255) 8) (Z.land (Z.shiftr z 8) 255).
Definition htons : Z -> Z := bswap16.
Definition ntohs : Z -> Z := bswap16.

Definition dsi_header_pack_reply (h : dsi_block) : list Z :=
  [dsi_flags h; dsi_command h] ++ le_bytes 2 (dsi_requestID h) ++ le_bytes 4 (dsi_data h) ++ le_bytes 4 (dsi_len h) ++
  le_bytes 4 (dsi_reserved h).

(** The [recv] into the free end of the read-ahead buffer, of at most [count] bytes. *)
Definition recv_ahead (count : nat) : M Z :=
  '(len, bs) ← recv count;
  set_lnk (fun l => if 0 <? len then with_buffer (blit (eof l) bs (buffer l)) (start l) (eof l + length bs) l else l);;
  mret len.

Fixpoint peek_loop (fuel : nat) : M Z :=
  match fuel with
  | O => stuck
  | S fuel =>
      s ← get;
      if socket (lnk s) <? 0 then mret (-1) else
      if FD_SETSIZE <=? socket (lnk s) then set_errno EINVAL;; mret (-1) else
      let room := bool_decide (eof (lnk s) < length (buffer (lnk s)))%nat in
      a ← select;
      match a with
      | Sel_err e => if e =? EINTR then peek_loop fuel else mret (-1)
      | Sel_none => mret (-1)
      | Ready r w =>
          if w then mret 0 else
          if r && room then
            len ← recv_ahead (length (buffer (lnk s)) - eof (lnk s));
            if len <=? 0 then
              if len =? 0 then mret (-1) else
              s ← get;
              if errno (net s) =? EAGAIN then peek_loop fuel else mret (-1)
            else peek_loop fuel
          else peek_loop fuel
      end
  end.

(** Every turn has one answer of [select]. *)
Definition dsi_peek : M Z := s ← get; peek_loop (S (length (sels (net s)))).

Definition from_buf (count : nat) : M (list Z) :=
  s ← get;
  let l := lnk s in
  if bool_decide (buffer l = []) then mret [] else
  let nbe := (eof l - start l)%nat in
  if bool_decide (0 < nbe)%nat then
    let nbe := Nat.min nbe count in
    let bs := take nbe (drop (start l) (buffer l)) in
    set_lnk (fun l => if bool_decide (eof l = start l + nbe)%nat then with_buffer (buffer l) 0 0 l
                      else with_buffer (buffer l) (start l + nbe) (eof l) l);;
    mret bs
  else mret [].

Definition dsi_close_pipe : M unit := set_lnk (with_pipe false).

Definition dsi_tcp_close : M unit := set_lnk (fun l => if socket l =? -1 then l else with_socket (-1) l).

Definition dsi_disconnect : M Z :=
  dsi_tcp_close;; dsi_close_pipe;;
  set_lnk (fun l => with_flags (Z.land (flags l) (Z.lnot (Z.lor DSI_SLEEPING DSI_EXTSLEEP))) l);;
  set_lnk (fun l => with_flags (Z.lor (flags l) DSI_DISCONNECTED) l);;
  s ← get;
  mret (match AFPobj (ses s) with
        | None => -1
        | Some uid => if uid =? 0 then -1 else 0
        end).

Fixpoint wait_loop (fuel : nat) : M Z :=
  match fuel with
  | O => stuck
  | S fuel =>
      a ← poll;
      let stop : bool := a.1 in
      if stop then dsi_disconnect;; set_errno ECONNABORTED;; mret (-1) else
      match a.2 : pol with
      | Poll_input => mret 0
      | Poll_wake | Poll_pipe => wait_loop fuel
      | Poll_timeout => dsi_disconnect;; set_errno ETIMEDOUT;; mret (-1)
      | Poll_err e => if negb (e =? EINTR) then mret (-1) else wait_loop fuel
      end
  end.

(** Every turn has one answer of [poll]. *)
Definition dsi_wait_input : M Z := s ← get; wait_loop (S (length (polls (net s)))).

Fixpoint recv_loop (fuel : nat) (count : nat) : M (Z * list Z) :=
  match fuel with
  | O => stuck
  | S fuel =>
      '(len, bs) ← recv count;
      s ← get;
      if (len =? -1) && ((errno (net s) =? EAGAIN) || (errno (net s) =? EWOULDBLOCK)) then
        r ← dsi_wait_input;
        if negb (r =? 0) then mret (-1, []) else recv_loop fuel count
      else mret (len, bs)
  end.

Definition buf_read (count : nat) : M (Z * list Z) :=
  if bool_decide (count = O) then mret (0, []) else
  bs ← from_buf count;
  if bool_decide (bs <> []) then mret (Z.of_nat (length bs), bs) else
  s ← get; recv_loop (S (length (recvs (net s)))) count.

(** The loop of [dsi_stream_read], with the bytes stored so far: what the function
    returns, and the bytes. *)
Fixpoint read_loop (fuel : nat) (length_ : nat) (stored : list Z) : M (Z * list Z) :=
  if bool_decide (length stored < length_)%nat then
    match fuel with
    | O => stuck
    | S fuel =>
        '(len, bs) ← buf_read (length_ - length stored);
        s ← get;
        if (len =? -1) && ((errno (net s) =? EINTR) || (errno (net s) =? EAGAIN)) then read_loop fuel length_ stored
        else if 0 <? len then read_loop fuel length_ (stored ++ bs)
        else if negb (len =? 0) || bool_decide (stored <> []) || negb (read_count (lnk s) =? 0) then mret (0, stored)
        else set_lnk (add_read (Z.of_nat (length stored)));; mret (Z.of_nat (length stored), stored)
    end
  else set_lnk (add_read (Z.of_nat (length stored)));; mret (Z.of_nat (length stored), stored).

(** Every turn stores a byte or has an answer of [recv]. *)
Definition dsi_stream_read (length_ : nat) : M (Z * list Z) :=
  s ← get;
  if has (flags (lnk s)) DSI_DISCONNECTED then mret (0, []) else
  read_loop (S (length_ + length (recvs (net s)))) length_ [].

Definition dsi_buffered_stream_read (length_ : nat) : M (Z * list Z) :=
  bs ← from_buf length_;
  set_lnk (add_read (Z.of_nat (length bs)));;
  if bool_decide (length bs = length_) then mret (Z.of_nat (length bs), bs) else
  s ← get;
  let buflen := Nat.min (Z.to_nat 8192) (length (buffer (lnk s)) - eof (lnk s)) in
  (if bool_decide (0 < buflen)%nat then recv_ahead buflen;; mret tt else mret tt);;
  '(n, rest) ← dsi_stream_read (length_ - length bs);
  if negb (n =? Z.of_nat (length_ - length bs)) then mret (0, bs ++ rest) else mret (Z.of_nat (length bs) + n, bs ++ rest).

Definition block_sig : M unit := set_lnk (add_in_write 1).
Definition unblock_sig : M unit := set_lnk (add_in_write (-1)).

Definition DSI_NOWAIT : Z := 1.

(** The loop of [dsi_stream_write], with the bytes that are left. *)
Fixpoint write_loop (fuel : nat) (bs : list Z) (written mode : Z) : M Z :=
  if bool_decide (bs <> []) then
    match fuel with
    | O => stuck
    | S fuel =>
        len ← send bs;
        if 0 <=? len then write_loop fuel (drop (Z.to_nat len) bs) (written + len) mode else
        s ← get;
        if errno (net s) =? EINTR then write_loop fuel bs written mode else
        if (errno (net s) =? EAGAIN) || (errno (net s) =? EWOULDBLOCK) then
          if (mode =? DSI_NOWAIT) && (written =? 0) then mret (-1) else
          r ← dsi_peek;
          if negb (r =? 0) then mret (-1) else write_loop fuel bs written mode
        else mret (-1)
    end
  else set_lnk (add_write written);; mret written.

Definition dsi_stream_write (bs : list Z) (mode : Z) : M Z :=
  set_lnk (add_in_write 1);;
  s ← get;
  if has (flags (lnk s)) DSI_DISCONNECTED then mret (-1) else
  r ← write_loop (S (length (sends (net s)))) bs 0 mode;
  set_lnk (add_in_write (-1));;
  mret r.

(** The loop of [dsi_stream_send]: [iov] has the rest of the header and of the payload,
    or the rest of the payload alone. *)
Fixpoint send_loop (fuel : nat) (iov : list (list Z)) (towrite length_ : Z) : M Z :=
  if 0 <? towrite then
    match fuel with
    | O => stuck
    | S fuel =>
        len ← send (concat iov);
        s ← get;
        if ((len =? -1) && (errno (net s) =? EINTR)) || (len =? 0) then send_loop fuel iov towrite length_ else
        if len =? towrite then unblock_sig;; mret 1 else
        if len <? 0 then
          if (errno (net s) =? EAGAIN) || (errno (net s) =? EWOULDBLOCK) then
            r ← dsi_peek;
            if r =? 0 then send_loop fuel iov towrite length_ else unblock_sig;; mret 0
          else unblock_sig;; mret 0
        else
          let towrite := towrite - len in
          match iov with
          | [h; p] =>
              if length_ <? towrite then send_loop fuel [drop (Z.to_nat len) h; p] towrite length_
              else send_loop fuel [drop (Z.to_nat (len - Z.of_nat (length h))) p] towrite length_
          | [p] => send_loop fuel [drop (Z.to_nat len) p] towrite length_
          | _ => stuck
          end
    end
  else unblock_sig;; mret 1.

Definition dsi_stream_send (buf : list Z) : M Z :=
  s ← get;
  if has (flags (lnk s)) DSI_DISCONNECTED then mret 0 else
  let block := dsi_header_pack_reply (header (ses s)) in
  if bool_decide (buf = []) then
    r ← dsi_stream_write block 0;
    mret (if r =? Z.of_nat (length block) then 1 else 0)
  else
    block_sig;;
    let towrite := Z.of_nat (length block + length buf) in
    set_lnk (add_write towrite);;
    send_loop (S (length (sends (net s)))) [block; buf] towrite (Z.of_nat (length buf)).

Definition with_header (h : dsi_block) (d : dsi) : dsi :=
  Dsi h (serverID d) (clientID d) (attn_quantum d) (server_quantum d) (datasize d) (commands d) (cmdlen d) (data d) (datalen d)
    (status d) (AFPobj d) (stop_wait d).
Definition with_clientID (i : Z) (d : dsi) : dsi :=
  Dsi (header d) (serverID d) i (attn_quantum d) (server_quantum d) (datasize d) (commands d) (cmdlen d) (data d) (datalen d)
    (status d) (AFPobj d) (stop_wait d).
Definition with_commands (c : list Z) (n : Z) (d : dsi) : dsi :=
  Dsi (header d) (serverID d) (clientID d) (attn_quantum d) (server_quantum d) (datasize d) c n (data d) (datalen d)
    (status d) (AFPobj d) (stop_wait d).
Definition with_datasize (n : Z) (d : dsi) : dsi :=
  Dsi (header d) (serverID d) (clientID d) (attn_quantum d) (server_quantum d) n (commands d) (cmdlen d) (data d) (datalen d)
    (status d) (AFPobj d) (stop_wait d).
Definition with_data (b : list Z) (d : dsi) : dsi :=
  Dsi (header d) (serverID d) (clientID d) (attn_quantum d) (server_quantum d) (datasize d) (commands d) (cmdlen d) b (datalen d)
    (status d) (AFPobj d) (stop_wait d).
Definition with_attn_quantum (n : Z) (d : dsi) : dsi :=
  Dsi (header d) (serverID d) (clientID d) n (server_quantum d) (datasize d) (commands d) (cmdlen d) (data d) (datalen d)
    (status d) (AFPobj d) (stop_wait d).
Definition with_serverID (i : Z) (d : dsi) : dsi :=
  Dsi (header d) i (clientID d) (attn_quantum d) (server_quantum d) (datasize d) (commands d) (cmdlen d) (data d) (datalen d)
    (status d) (AFPobj d) (stop_wait d).

Definition DSIFL_REQUEST : Z := 0x00.
Definition DSIFL_REPLY : Z := 0x01.
Definition DSIFL_MAX : Z := 0x01.
Definition DSIOPT_SERVQUANT : Z := 0x00.
Definition DSIOPT_ATTNQUANT : Z := 0x01.
Definition DSIOPT_REPLCSIZE : Z := 0x02.
Definition DSIFUNC_CLOSE : Z := 1.
Definition DSIFUNC_CMD : Z := 2.
Definition DSIFUNC_TICKLE : Z := 5.
Definition DSIFUNC_WRITE : Z := 6.
Definition DSIFUNC_ATTN : Z := 8.
Definition DSIFUNC_MAX : Z := 8.
Definition DSI_WROFF_FPWRITE : Z := 12.
Definition DSI_WROFF_FPWRITEEXT : Z := 20.

(** The field of [n] bytes at the offset [off] of a header. *)
Definition field (off n : nat) (block : list Z) : Z := le_val (take n (drop off block)).

(** The value of a byte read through [char]. *)
Definition schar (b : Z) : Z := if b <? 128 then b else b - 256.

(** The header fields of a request: its write offset in host order. *)
Definition parse_block (block : list Z) : dsi_block :=
  Dsi_block (field 0 1 block) (field 1 1 block) (field 2 2 block) (htonl (field 4 4 block)) (field 8 4 block) (field 12 4 block).

(** The tests of the lengths: the bytes to read into the command buffer, or nothing when
    the frame is refused. *)
Definition frame_cmdlen (h : dsi_block) (quantum : Z) : option Z :=
  let len := ntohl (dsi_len h) in
  let doff := dsi_data h in
  if dsi_command h =? DSIFUNC_WRITE then
    let doff := if doff =? 0 then DSI_WROFF_FPWRITE else doff in
    if negb (doff =? DSI_WROFF_FPWRITE) && negb (doff =? DSI_WROFF_FPWRITEEXT) then None else
    if len <? doff then None else
    if quantum <? len - doff then None else
    if len <? 1 then None else Some doff
  else if quantum <? len then None
  else if (dsi_command h =? DSIFUNC_CMD) && (len <? 1) then None
  else Some len.

(** [dsi_stream_read] into the command buffer. *)
Definition read_commands (n : Z) : M Z :=
  s ← get;
  if Z.of_nat (length (commands (ses s))) <? n then stuck else
  '(r, bs) ← dsi_stream_read (Z.to_nat n);
  set_ses (fun d => with_commands (blit 0 bs (commands d)) (cmdlen d) d);;
  mret r.

Definition dsi_stream_receive : M Z :=
  s ← get;
  if has (flags (lnk s)) DSI_DISCONNECTED then mret 0 else
  '(n, block) ← dsi_buffered_stream_read DSI_BLOCKSIZ;
  if negb (n =? Z.of_nat DSI_BLOCKSIZ) then mret 0 else
  let h := parse_block block in
  if dsi_command h =? 0 then
    set_ses (fun d => with_header (Dsi_block (dsi_flags h) (dsi_command h) (dsi_requestID (header d)) (dsi_data (header d))
      (dsi_len (header d)) (dsi_reserved (header d))) d);;
    mret 0
  else
  set_ses (fun d => with_clientID (ntohs (dsi_requestID h)) (with_header h d));;
  let h' := Dsi_block (dsi_flags h) (dsi_command h) (dsi_requestID h)
    (if (dsi_command h =? DSIFUNC_WRITE) && (dsi_data h =? 0) then DSI_WROFF_FPWRITE else dsi_data h) (dsi_len h) (dsi_reserved h) in
  set_ses (with_header h');;
  match frame_cmdlen h (server_quantum (ses s)) with
  | None => mret 0
  | Some len =>
      set_ses (fun d => with_commands (commands d) len d);;
      r ← read_commands len;
      if negb (r =? len) then mret 0 else mret (schar (dsi_command h))
  end.

(** ** Replies and requests of the server *)

Definition reply_header (len code : Z) (d : dsi) : dsi :=
  with_header (Dsi_block DSIFL_REPLY (dsi_command (header d)) (dsi_requestID (header d)) (htonl (u32 code)) (htonl (u32 len))
    (dsi_reserved (header d))) d.

Definition dsi_cmdreply (err : Z) : M Z :=
  set_ses (fun d => reply_header (datalen d) err d);;
  s ← get;
  dsi_stream_send (take (Z.to_nat (datalen (ses s))) (data (ses s))).

Definition dsi_send : M unit :=
  set_ses (fun d => with_header (Dsi_block (dsi_flags (header d)) (dsi_command (header d)) (dsi_requestID (header d)) (dsi_data (header d))
    (htonl (u32 (cmdlen d))) (dsi_reserved (header d))) d);;
  s ← get;
  dsi_stream_send (take (Z.to_nat (cmdlen (ses s))) (commands (ses s)));; mret tt.

(** [dsi_serverID] returns the ID and counts it up. *)
Definition dsi_serverID : M Z :=
  s ← get;
  set_ses (fun d => with_serverID (wrap 16 (serverID d + 1)) d);;
  mret (serverID (ses s)).

Definition dsi_attention (user : Z) : M Z :=
  s ← get;
  if has (flags (lnk s)) DSI_SLEEPING then mret 1 else
  if negb (in_write (lnk s) =? 0) then mret (-1) else
  id ← dsi_serverID;
  let len := Z.min 2 (attn_quantum (ses s)) in
  dsi_stream_write (take (DSI_BLOCKSIZ + Z.to_nat len)
    ([DSIFL_REQUEST; DSIFUNC_ATTN] ++ le_bytes 2 (htons id) ++ [0; 0; 0; 0] ++ le_bytes 4 (htonl len) ++ [0; 0; 0; 0] ++
     le_bytes 2 (htons (wrap 16 user)))) DSI_NOWAIT.

Definition dsi_tickle : M Z :=
  s ← get;
  if has (flags (lnk s)) DSI_SLEEPING || negb (in_write (lnk s) =? 0) then mret 1 else
  id ← dsi_serverID;
  dsi_stream_write ([DSIFL_REQUEST; DSIFUNC_TICKLE] ++ le_bytes 2 (htons id) ++ replicate 12 0) DSI_NOWAIT.

(** [dsi_close]; the structure is freed behind it. *)
Definition dsi_close : M unit :=
  s ← get;
  if negb (has (flags (lnk s)) DSI_SLEEPING) && negb (has (flags (lnk s)) DSI_DISCONNECTED) then
    (if in_write (lnk s) =? 0 then
       id ← dsi_serverID;
       set_ses (with_header (Dsi_block DSIFL_REQUEST DSIFUNC_CLOSE (htons id) (htonl 0) (dsi_len (header (ses s))) (htonl 0)));;
       set_ses (fun d => with_commands (commands d) 0 d);;
       dsi_send
     else mret tt);;
    dsi_tcp_close
  else mret tt.

Definition dsi_getstatus : M unit :=
  set_ses (fun d => with_header (Dsi_block DSIFL_REPLY (dsi_command (header d)) (dsi_requestID (header d)) 0 (dsi_len (header d)) 0) d);;
  s ← get;
  if bool_decide (length (commands (ses s)) < length (status (ses s)))%nat then stuck else
  set_ses (fun d => with_commands (blit 0 (status d) (commands d)) (Z.of_nat (length (status d))) d);;
  dsi_send.

(** ** dsi_write.c *)

Definition dsi_writeinit : M (list Z) :=
  s ← get;
  let h := header (ses s) in
  if ntohl (dsi_len h) <? dsi_data h then mret [] else
  let size := ntohl (dsi_len h) - dsi_data h in
  set_ses (with_datasize size);;
  let l := lnk s in
  if bool_decide (start l < eof l)%nat then
    let bytes := Nat.min (eof l - start l) (Z.to_nat size) in
    let bs := take bytes (drop (start l) (buffer l)) in
    set_ses (with_datasize (size - Z.of_nat bytes));;
    set_lnk (fun l => if bool_decide (eof l <= start l + bytes)%nat then with_buffer (buffer l) 0 0 l
                      else with_buffer (buffer l) (start l + bytes) (eof l) l);;
    mret bs
  else mret [].

(** What a failed read left in the caller's buffer is not part of the result. *)
Definition dsi_write (buflen : nat) : M (list Z) :=
  s ← get;
  let length_ := Nat.min buflen (Z.to_nat (datasize (ses s))) in
  if bool_decide (0 < length_)%nat then
    '(n, bs) ← dsi_stream_read length_;
    if 0 <? n then
      set_ses (fun d => with_datasize (u32 (datasize d - n)) d);;
      mret bs
    else mret []
  else mret [].

Definition DSI_DATASIZ : Z := 65536.

Fixpoint flush_loop (fuel : nat) : M unit :=
  s ← get;
  if 0 <? datasize (ses s) then
    match fuel with
    | O => stuck
    | S fuel =>
        '(n, bs) ← dsi_stream_read (Z.to_nat (Z.min DSI_DATASIZ (datasize (ses s))));
        set_ses (fun d => with_data (blit 0 bs (data d)) d);;
        if 0 <? n then set_ses (fun d => with_datasize (u32 (datasize d - n)) d);; flush_loop fuel
        else mret tt
    end
  else mret tt.

(** Every turn reads at least a byte. *)
Definition dsi_writeflush : M unit := s ← get; flush_loop (Z.to_nat (datasize (ses s))).

Definition dsi_writedrain : M unit :=
  s ← get;
  if negb (dsi_command (header (ses s)) =? DSIFUNC_WRITE) then mret tt else dsi_writeinit;; dsi_writeflush.

(** ** The payload of FPWrite, etc/afpd/fork.c *)

Definition EPERM : Z := 1.
Definition EACCES : Z := 13.
Definition EFBIG : Z := 27.
Definition ENOSPC : Z := 28.
Definition EROFS : Z := 30.
Definition ECONNRESET : Z := 104.
Definition EDQUOT : Z := 122.

Definition AFP_OK : Z := 0.
Definition AFPERR_ACCESS : Z := -5000.
Definition AFPERR_DFULL : Z := -5008.
Definition AFPERR_MISC : Z := -5014.
Definition AFPERR_PARAM : Z := -5019.
Definition AFPERR_VLOCK : Z := -5031.

Definition fork_error (is_write : bool) : M Z :=
  s ← get;
  let e := errno (net s) in
  mret (if (e =? EDQUOT) || (e =? EFBIG) || (e =? ENOSPC) then AFPERR_DFULL
        else if e =? EACCES then AFPERR_ACCESS
        else if e =? EROFS then if is_write then AFPERR_ACCESS else AFPERR_VLOCK
        else if e =? EPERM then AFPERR_ACCESS
        else AFPERR_MISC).

(** [ad_write] of the bytes [bs] at the offset behind what was written. *)
Definition ad_write (bs : list Z) : M Z := fun s =>
  let w := net s in
  match writes w with
  | [] => Blocked s
  | Err e :: r => Ret (-1) (St (ses s) (lnk s) (World (inp w) (outp w) (recvs w) (sends w) (sels w) (polls w) r (filed w) e))
  | Take n :: r =>
      let out := take n bs in
      Ret (Z.of_nat (length out))
        (St (ses s) (lnk s) (World (inp w) (outp w) (recvs w) (sends w) (sels w) (polls w) r (filed w ++ out) (errno w)))
  end.

Fixpoint write_file_loop (fuel : nat) (rbuf : list Z) : M Z :=
  if bool_decide (rbuf <> []) then
    match fuel with
    | O => stuck
    | S fuel =>
        cc ← ad_write rbuf;
        if cc <=? 0 then
          (if cc =? 0 then set_errno EIO else mret tt);; fork_error true
        else write_file_loop fuel (drop (Z.to_nat cc) rbuf)
    end
  else mret AFP_OK.

(** Every turn writes at least a byte. *)
Definition write_file (rbuf : list Z) : M Z := write_file_loop (length rbuf) rbuf.

(** The loop that takes the payload a quantum at a time. *)
Fixpoint payload_loop (fuel : nat) : M Z :=
  match fuel with
  | O => stuck
  | S fuel =>
      s ← get;
      bs ← dsi_write (Z.to_nat (server_quantum (ses s)));
      set_ses (fun d => with_commands (blit 0 bs (commands d)) (cmdlen d) d);;
      if bool_decide (bs <> []) then
        err ← write_file bs;
        if err <? 0 then mret err else payload_loop fuel
      else
        s ← get;
        if 0 <? datasize (ses s) then
          (if negb (has (flags (lnk s)) DSI_DISCONNECTED) then set_errno ECONNRESET else mret tt);; fork_error true
        else mret AFP_OK
  end.

(** The payload of a write for [reqcount] bytes that [write_fork] has not refused before
    (see WriteFork.v), without recvfile: a failure drains what
    is left of it. *)
Definition write_payload (reqcount : Z) : M Z :=
  wbuf ← dsi_writeinit;
  s ← get;
  err ← (if negb (Z.of_nat (length wbuf) + datasize (ses s) <=? reqcount) then mret AFPERR_PARAM else
         err ← write_file wbuf;
         if err <? 0 then mret err else payload_loop (S (Z.to_nat (datasize (ses s)))));
  (if err <? 0 then dsi_writeflush else mret tt);;
  mret err.

(** ** dsi_read.c *)

Definition dsi_readinit (buf : list Z) (size err : Z) : M Z :=
  set_lnk (fun l => with_flags (Z.lor (flags l) DSI_NOREPLY) l);;
  set_ses (reply_header size err);;
  set_lnk (add_in_write 1);;
  r ← dsi_stream_send buf;
  if negb (r =? 0) then
    let rest := u32 (size - Z.of_nat (length buf)) in
    set_ses (with_datasize rest);;
    mret (Z.min rest (Z.of_nat (length buf)))
  else mret (-1).

Definition dsi_readdone : M unit := set_lnk (add_in_write (-1)).

Definition dsi_read (buf : list Z) : M Z :=
  len ← dsi_stream_write buf 0;
  if len =? Z.of_nat (length buf) then
    set_ses (fun d => with_datasize (u32 (datasize d - len)) d);;
    s ← get;
    mret (Z.min (datasize (ses s)) (Z.of_nat (length buf)))
  else mret (-1).

(** ** dsi_opensess.c *)

Definition EXITERR_CLNT : Z := 1.
Definition EXITERR_SYS : Z := 3.
Definition EXITERR_CLOSED : Z := 4.
Definition REPLAYCACHE_SIZE : Z := 128.

(** The loop over the options of the request at index [i]. *)
Fixpoint options_loop (fuel : nat) (i : Z) : M unit :=
  s ← get;
  if i + 1 <? cmdlen (ses s) then
    match fuel with
    | O => stuck
    | S fuel =>
        let at_ j := nth (Z.to_nat j) (commands (ses s)) 0 in
        let cmd := at_ i in
        let option_len := at_ (i + 1) in
        let i := i + 2 in
        if cmdlen (ses s) <? i + option_len then exit EXITERR_CLNT else
        (if cmd =? DSIOPT_ATTNQUANT then
           if negb (option_len =? 4) then exit EXITERR_CLNT
           else set_ses (with_attn_quantum (ntohl (field (Z.to_nat i) 4 (commands (ses s)))))
         else mret tt);;
        options_loop fuel (i + option_len)
    end
  else mret tt.

(** [nonblock] is whether the socket could be made nonblocking. *)
Definition dsi_opensession (nonblock : bool) : M unit :=
  if negb nonblock then exit EXITERR_SYS else
  s ← get;
  options_loop (Z.to_nat (cmdlen (ses s))) 0;;
  set_ses (fun d => with_header (Dsi_block DSIFL_REPLY (dsi_command (header d)) (dsi_requestID (header d)) 0 (dsi_len (header d))
    (dsi_reserved (header d))) d);;
  set_ses (fun d => with_commands
    (blit 0 ([DSIOPT_SERVQUANT; 4] ++ le_bytes 4 (htonl (server_quantum d)) ++ [DSIOPT_REPLCSIZE; 4] ++ le_bytes 4 (htonl REPLAYCACHE_SIZE))
       (commands d)) 12 d);;
  dsi_send.

(** ** dsi_tcp.c *)

Definition DSI_SERVQUANT_MAX : Z := 0x10000000.
Definition DSI_SERVQUANT_MIN : Z := 32000.
Definition DSI_SERVQUANT_DEF : Z := 0x100000.
Definition DSI_FRAME_OVERHEAD_EXT : Z := Z.of_nat DSI_BLOCKSIZ + DSI_WROFF_FPWRITEEXT.
Definition DSI_QUANTUM_GROWTH_MAX : Z := 256 * 1024.
Definition NETATALK_READBUF_LIMIT : Z := Z.shiftl 1 30.

(** The bytes of the last segment of a frame with [d] bytes of data. *)
Definition last_fill (d mss : Z) : Z :=
  let r := u32 (d + DSI_FRAME_OVERHEAD_EXT) mod mss in
  if r =? 0 then mss else r.

Fixpoint align_loop (fuel : nat) (d limit best best_fill mss : Z) : Z :=
  match fuel with
  | O => best
  | S fuel =>
      if d <=? limit then
        let fill := last_fill d mss in
        if mss - mss / 8 <=? fill then d
        else if best_fill <? fill then align_loop fuel (u32 (d + 4096)) limit d fill mss
        else align_loop fuel (u32 (d + 4096)) limit best best_fill mss
      else best
  end.

(** The growth is at most 64 pages. *)
Definition dsi_align_quantum (configured mss : Z) : Z :=
  let configured := if DSI_SERVQUANT_MAX <? configured then DSI_SERVQUANT_MAX else configured in
  let d := Z.land (u32 (configured + 4095)) (u32 (Z.lnot 4095)) in
  if (mss =? 0) || (d <=? u64 (mss * 4)) then d else
  let limit := if configured <? DSI_SERVQUANT_MAX - DSI_QUANTUM_GROWTH_MAX then configured + DSI_QUANTUM_GROWTH_MAX else DSI_SERVQUANT_MAX in
  align_loop 66 d limit d 0 mss.

Definition netatalk_readbuf_clamp (readbuf quantum limit : Z) : Z :=
  if quantum =? 0 then readbuf else
  let maxbuf := limit / quantum in
  let maxbuf := if maxbuf <? 1 then 1 else maxbuf in
  if maxbuf <? u64 readbuf then maxbuf else readbuf.

(** The buffers of a session with the given memory contents behind [malloc]. *)
Definition dsi_init_buffer (mem : nat -> list Z) (readbuf : Z) : M unit :=
  set_ses (fun d => with_commands (mem (Z.to_nat (server_quantum d))) (cmdlen d) d);;
  s ← get;
  set_lnk (with_buffer (mem (Z.to_nat (readbuf * server_quantum (ses s)))) 0 0).

(** The loop that stores a region of [length_] bytes. *)
Fixpoint store_loop (fuel : nat) (length_ : nat) (stored : list Z) : M (list Z) :=
  if bool_decide (length stored < length_)%nat then
    match fuel with
    | O => stuck
    | S fuel =>
        '(len, bs) ← dsi_stream_read (length_ - length stored);
        if 0 <? len then store_loop fuel length_ (stored ++ bs) else exit EXITERR_CLNT
    end
  else mret stored.

(** The first request of a session, read by the child of [dsi_tcp_open]. *)
Definition dsi_tcp_first : M unit :=
  '(len, b2) ← dsi_stream_read 2;
  if len =? 0 then exit EXITERR_CLOSED else
  if (len <? 2) || (DSIFL_MAX <? field 0 1 b2) || (DSIFUNC_MAX <? field 1 1 b2) then exit EXITERR_CLNT else
  block ← store_loop DSI_BLOCKSIZ DSI_BLOCKSIZ b2;
  set_ses (fun d => with_clientID (ntohs (field 2 2 block)) (with_header (Dsi_block (field 0 1 block) (field 1 1 block) (field 2 2 block)
    (field 4 4 block) (field 8 4 block) (field 12 4 block)) d));;
  s ← get;
  let dsi_len := ntohl (field 8 4 block) in
  if server_quantum (ses s) <? dsi_len then exit EXITERR_CLNT else
  set_ses (fun d => with_commands (commands d) dsi_len d);;
  bs ← store_loop (Z.to_nat dsi_len) (Z.to_nat dsi_len) [];
  set_ses (fun d => with_commands (blit 0 bs (commands d)) (cmdlen d) d).
