(* ===== verification/DsiFacts.v ===== *)
(** * DSI streams: lemmas

    A program logic for the session computations, and what each stream function does to
    the bytes between the client and the server. *)

From S2P Require Import Prelude Bytes Dsi.

(** ** A program logic *)

(** From [s], the computation never runs out of turns, a result satisfies [Q], and a
    process that ends or waits for ever is in a state of [B]. *)
Definition spec {A} (m : M A) (s : st) (Q : A -> st -> Prop) (B : st -> Prop) : Prop :=
  match m s with
  | Ret a s' => Q a s'
  | Exit _ s' | Blocked s' => B s'
  | Stuck => False
  end.

Lemma spec_ret {A} (a : A) s (Q : A -> st -> Prop) B : Q a s -> spec (mret a) s Q B.
Proof. done. Qed.

Lemma spec_bind {A C} (m : M A) (f : A -> M C) s Q B : spec m s (fun a s' => spec (f a) s' Q B) B -> spec (m ≫= f) s Q B.
Proof. unfold spec, mbind, M_bind. by destruct (m s). Qed.

Lemma spec_mono {A} (m : M A) s (P Q : A -> st -> Prop) (B C : st -> Prop) :
  spec m s P B -> (forall a s', P a s' -> Q a s') -> (forall s', B s' -> C s') -> spec m s Q C.
Proof. unfold spec. destruct (m s); auto. Qed.

Lemma spec_get s (Q : st -> st -> Prop) B : Q s s -> spec get s Q B.
Proof. done. Qed.

Lemma spec_lnk f s (Q : unit -> st -> Prop) B : Q tt (St (ses s) (f (lnk s)) (net s)) -> spec (set_lnk f) s Q B.
Proof. done. Qed.

Lemma spec_ses f s (Q : unit -> st -> Prop) B : Q tt (St (f (ses s)) (lnk s) (net s)) -> spec (set_ses f) s Q B.
Proof. done. Qed.

Lemma spec_errno e s (Q : unit -> st -> Prop) B : Q tt (St (ses s) (lnk s) (with_errno e (net s))) -> spec (set_errno e) s Q B.
Proof. done. Qed.

(** One step that reads or sets the state. *)
Ltac step :=
  apply spec_bind;
  lazymatch goal with
  | |- spec get _ _ _ => apply spec_get
  | |- spec (set_lnk _) _ _ _ => apply spec_lnk
  | |- spec (set_ses _) _ _ _ => apply spec_ses
  | |- spec (set_errno _) _ _ _ => apply spec_errno
  end; cbn [ses lnk net].

Lemma spec_then {A C} (m : M A) (f : A -> M C) s (P : A -> st -> Prop) (B D : st -> Prop) Q :
  spec m s P B -> (forall s', B s' -> D s') -> (forall a s', P a s' -> spec (f a) s' Q D) -> spec (m ≫= f) s Q D.
Proof. intros H HB HQ. apply spec_bind. eapply spec_mono; eauto. Qed.

(** ** The streams *)

Definition unread (l : link) : list Z := take (eof l - start l) (drop (start l) (buffer l)).

(** What the session is still to receive. *)
Definition pending (s : st) : list Z := unread (lnk s) ++ inp (net s).

Definition link_wf (l : link) : Prop := (start l <= eof l <= length (buffer l))%nat.

(** Between two states, the session took the bytes [got] from what was pending and sent
    the bytes [sent]; only the stream fields changed. *)
Record moved (got sent : list Z) (s s' : st) : Prop := {
  mv_wf : link_wf (lnk s) -> link_wf (lnk s');
  mv_in : link_wf (lnk s) -> pending s = got ++ pending s';
  mv_out : outp (net s') = outp (net s) ++ sent;
  mv_ses : ses s' = ses s;
  mv_cap : length (buffer (lnk s')) = length (buffer (lnk s));
  mv_inw : in_write (lnk s') = in_write (lnk s);
  mv_recvs : (length (recvs (net s')) <= length (recvs (net s)))%nat;
  mv_sends : (length (sends (net s')) <= length (sends (net s)))%nat;
  mv_sels : (length (sels (net s')) <= length (sels (net s)))%nat;
  mv_file : filed (net s') = filed (net s) /\ writes (net s') = writes (net s)
}.

Lemma moved_refl s : moved [] [] s s.
Proof. split; try done; try lia. by rewrite app_nil_r. Qed.

Lemma moved_trans g1 g2 o1 o2 s s1 s2 : moved g1 o1 s s1 -> moved g2 o2 s1 s2 -> moved (g1 ++ g2) (o1 ++ o2) s s2.
Proof.
  intros H1 H2. destruct H1, H2. split; [auto| | |congruence|congruence|congruence|lia|lia|lia|destruct mv_file0, mv_file1; split; congruence].
  - intros Hw. rewrite <- app_assoc, mv_in0 by done. f_equal. auto.
  - rewrite mv_out1, mv_out0, app_assoc. done.
Qed.

Lemma moved_trans0 g o s s1 s2 : moved [] [] s s1 -> moved g o s1 s2 -> moved g o s s2.
Proof. apply (moved_trans [] g [] o). Qed.

Lemma moved_trans1 g o s s1 s2 : moved g o s s1 -> moved [] [] s1 s2 -> moved g o s s2.
Proof. intros H1 H2. pose proof (moved_trans _ _ _ _ _ _ _ H1 H2) as H. by rewrite !app_nil_r in H. Qed.

(** A change of [errno], and a change of the link that keeps the buffer. *)
Lemma moved_errno e s : moved [] [] s (St (ses s) (lnk s) (with_errno e (net s))).
Proof. split; try done; try (cbn; lia). cbn. by rewrite app_nil_r. Qed.

Definition same_buffer (f : link -> link) : Prop :=
  forall l, buffer (f l) = buffer l /\ start (f l) = start l /\ eof (f l) = eof l /\ in_write (f l) = in_write l.

Lemma moved_lnk f s : same_buffer f -> moved [] [] s (St (ses s) (f (lnk s)) (net s)).
Proof.
  intros Hf. destruct (Hf (lnk s)) as (Hb & Hs & He & Hi).
  split; cbn; unfold link_wf, pending, unread; cbn; rewrite ?Hb, ?Hs, ?He, ?Hi, ?app_nil_r; try done; lia.
Qed.

Lemma unread_ahead l bs : link_wf l -> (eof l + length bs <= length (buffer l))%nat ->
  link_wf (with_buffer (blit (eof l) bs (buffer l)) (start l) (eof l + length bs) l) /\
  unread (with_buffer (blit (eof l) bs (buffer l)) (start l) (eof l + length bs) l) = unread l ++ bs /\
  length (blit (eof l) bs (buffer l)) = length (buffer l).
Proof.
  intros Hw Hr. unfold link_wf, unread in *. cbn. rewrite length_blit by done. split; [lia|]. split; [|done].
  assert (drop (start l) (blit (eof l) bs (buffer l)) = blit (eof l - start l) bs (drop (start l) (buffer l))) as ->.
  { rewrite <- (take_drop (start l) (buffer l)) at 1.
    rewrite (blit_past (take (start l) (buffer l)) (eof l) (eof l - start l)) by (rewrite length_take; lia).
    rewrite (drop_past (take (start l) (buffer l)) _ (start l) 0) by (rewrite length_take; lia). done. }
  set (d := drop (start l) (buffer l)). unfold blit.
  rewrite (take_past (take (eof l - start l) d) _ _ (length bs)) by (rewrite length_take; unfold d; rewrite length_drop; lia).
  by rewrite take_app_length.
Qed.

(** What a [recv] does: the bytes come from the socket; a failure has an answer, or the
    socket is closed. *)
Record heard (r : Z * list Z) (count : nat) (s s' : st) : Prop := {
  hd_ses : ses s' = ses s;
  hd_lnk : lnk s' = lnk s;
  hd_in : inp (net s) = r.2 ++ inp (net s');
  hd_out : outp (net s') = outp (net s);
  hd_sends : sends (net s') = sends (net s);
  hd_sels : sels (net s') = sels (net s);
  hd_file : filed (net s') = filed (net s) /\ writes (net s') = writes (net s);
  hd_recvs : (length (recvs (net s')) <= length (recvs (net s)))%nat;
  hd_len : r.1 = zlen r.2 /\ (length r.2 <= count)%nat \/ r.1 = -1 /\ r.2 = [];
  hd_less : (length (recvs (net s')) < length (recvs (net s)))%nat \/ r.1 = -1 /\ errno (net s') = EBADF
}.

Lemma recv_spec count s : spec (recv count) s (fun r s' => heard r count s s') (fun s' => s' = s).
Proof.
  unfold spec, recv. destruct (socket (lnk s) <? 0); [split; cbn; auto|].
  destruct (recvs (net s)) as [|[n|e] r] eqn:Er; [done| |]; split; cbn -[Nat.min]; auto; try lia.
  - by rewrite take_drop.
  - rewrite Er. cbn. lia.
  - left. split; [done|]. rewrite length_take. lia.
  - left. rewrite Er. cbn. lia.
  - rewrite Er. cbn. lia.
  - left. rewrite Er. cbn. lia.
Qed.

Lemma heard_moved r count s s' : heard r count s s' -> unread (lnk s) = [] -> moved r.2 [] s s'.
Proof.
  intros H Hu. destruct H. unfold pending, link_wf, unread in *. split; rewrite ?hd_lnk0, ?app_nil_r; try done; [|by rewrite hd_sends0|by rewrite hd_sels0].
  unfold pending, unread. intros _. by rewrite hd_lnk0, Hu.
Qed.

Lemma recv_ahead_spec count s : link_wf (lnk s) -> (eof (lnk s) + count <= length (buffer (lnk s)))%nat ->
  spec (recv_ahead count) s (fun _ s' => moved [] [] s s') (fun s' => s' = s).
Proof.
  intros Hw Hc. unfold recv_ahead. eapply spec_then; [apply recv_spec|done|]. intros [len bs] s1 H. destruct H. cbn [fst snd] in *.
  apply spec_bind, spec_ret. cbn [ses lnk net]. destruct (0 <? len) eqn:E.
  - destruct hd_len0 as [[Hlen Hn]|[? _]]; [|bool_lia].
    destruct (unread_ahead (lnk s) bs Hw ltac:(lia)) as (Hw' & Hu & Hl). rewrite hd_lnk0.
    split; cbn [ses lnk net]; try done; [|by rewrite app_nil_r|by rewrite hd_sends0|by rewrite hd_sels0].
    intros _. unfold pending. cbn [lnk net]. by rewrite Hu, <- app_assoc, hd_in0.
  - assert (bs = []) as -> by (destruct hd_len0 as [[Hlen Hn]|[_ ?]]; [destruct bs; [done|cbn in Hlen; bool_lia]|done]).
    split; cbn [ses lnk net]; rewrite ?hd_lnk0; try done; [|by rewrite app_nil_r|by rewrite hd_sends0|by rewrite hd_sels0].
    intros _. unfold pending. cbn [lnk net]. by rewrite hd_in0.
Qed.

Lemma select_spec s : spec select s (fun _ s' => moved [] [] s s' /\ (length (sels (net s')) < length (sels (net s)))%nat /\ lnk s' = lnk s)
  (fun s' => s' = s).
Proof.
  unfold spec, select. destruct (sels (net s)) as [|a r] eqn:E; [done|]. split; [|cbn; split; [lia|done]].
  split; cbn; try done; [by rewrite app_nil_r|rewrite E; cbn; lia].
Qed.

Lemma peek_spec fuel : forall s, link_wf (lnk s) -> (length (sels (net s)) < fuel)%nat ->
  spec (peek_loop fuel) s (fun _ s' => moved [] [] s s') (fun s' => moved [] [] s s').
Proof.
  induction fuel as [|fuel IH]; intros s Hw Hf; [lia|]. cbn [peek_loop]. apply spec_bind, spec_get.
  assert (forall s1, moved [] [] s s1 -> (length (sels (net s1)) < fuel)%nat ->
    spec (peek_loop fuel) s1 (fun _ s' => moved [] [] s s') (fun s' => moved [] [] s s')) as Hnext.
  { intros s1 H1 Hf1. eapply spec_mono; [apply IH; [by apply H1|done]|..]; intros; by eapply moved_trans0. }
  destruct (socket (lnk s) <? 0); [apply spec_ret, moved_refl|].
  destruct (FD_SETSIZE <=? socket (lnk s)); [apply spec_bind, spec_ret, moved_errno|].
  eapply spec_then; [apply select_spec|intros s' ->; apply moved_refl|]. intros a s1 (H1 & Hs1 & Hl1).
  destruct a as [r w|e|]; [|destruct (e =? EINTR); [apply Hnext; [done|lia]|done]|done].
  destruct w; [done|]. case_bool_decide as Hroom; rewrite ?andb_true_r, ?andb_false_r; [|apply Hnext; [done|lia]].
  destruct r; [|apply Hnext; [done|lia]].
  eapply spec_then; [apply recv_ahead_spec; [by rewrite Hl1|rewrite Hl1; unfold link_wf in Hw; lia]|intros s' ->; done|].
  intros len s2 H2. pose proof (mv_sels _ _ _ _ H2). pose proof (moved_trans0 _ _ _ _ _ H1 H2) as H12.
  destruct (len <=? 0); [|apply Hnext; [done|lia]]. destruct (len =? 0); [done|].
  apply spec_bind, spec_get. destruct (errno (net s2) =? EAGAIN); [apply Hnext; [done|lia]|done].
Qed.

Lemma dsi_peek_spec s : link_wf (lnk s) -> spec dsi_peek s (fun _ s' => moved [] [] s s') (fun s' => moved [] [] s s').
Proof. intros Hw. unfold dsi_peek. apply spec_bind, spec_get, peek_spec; [done|lia]. Qed.

Lemma unread_nil l : unread l = [] -> link_wf l -> start l = eof l.
Proof.
  unfold unread, link_wf. intros H Hw. apply (f_equal length) in H. rewrite length_take, length_drop in H. cbn in H. lia.
Qed.

Lemma from_buf_spec count s : link_wf (lnk s) ->
  spec (from_buf count) s (fun bs s' => moved bs [] s s' /\ bs = take count (unread (lnk s)) /\ unread (lnk s') = drop count (unread (lnk s)) /\
    net s' = net s) (fun _ => False).
Proof.
  intros Hw. unfold from_buf. step. unfold link_wf in Hw.
  assert (length (unread (lnk s)) = eof (lnk s) - start (lnk s))%nat as Hu by (unfold unread; rewrite length_take, length_drop; lia).
  assert (eof (lnk s) - start (lnk s) = 0 -> moved [] [] s s /\ [] = take count (unread (lnk s)) /\ unread (lnk s) = drop count (unread (lnk s)) /\ net s = net s)%nat as Hnil.
  { intros H. split; [apply moved_refl|]. destruct (unread (lnk s)); [by rewrite take_nil, drop_nil|cbn in Hu; lia]. }
  case_bool_decide as Hb; [apply spec_ret, Hnil; rewrite Hb in Hw; cbn in Hw; lia|].
  case_bool_decide as Hn; [|apply spec_ret, Hnil; lia]. step. apply spec_ret.
  assert (take (Nat.min (eof (lnk s) - start (lnk s)) count) (drop (start (lnk s)) (buffer (lnk s))) = take count (unread (lnk s))) as Ht
    by (unfold unread; by rewrite take_take, Nat.min_comm).
  rewrite Ht. set (n := Nat.min _ _) in *. set (l' := if bool_decide _ then _ else _).
  assert (unread l' = drop count (unread (lnk s))) as Hd.
  { destruct (decide (count <= length (unread (lnk s)))%nat).
    - assert (n = count) as Hnc by (unfold n; lia). unfold l', unread. rewrite Hnc, skipn_firstn_comm, drop_drop.
      case_bool_decide as E; cbn [with_buffer eof start buffer]; [|by rewrite Nat.sub_add_distr].
      replace (eof (lnk s) - start (lnk s) - count)%nat with O by lia. done.
    - rewrite drop_ge by lia. unfold l'. rewrite bool_decide_true by (unfold n; lia). done. }
  split; [|done]. split; cbn [ses lnk net]; try done.
  - intros _. unfold link_wf, l'. case_bool_decide as E; cbn; unfold n in *; lia.
  - intros _. unfold pending. cbn [lnk net]. by rewrite Hd, app_assoc, take_drop.
  - by rewrite app_nil_r.
  - unfold l'. by case_bool_decide.
  - unfold l'. by case_bool_decide.
Qed.

Lemma disconnect_spec s : spec dsi_disconnect s (fun _ s' => moved [] [] s s' /\ recvs (net s') = recvs (net s) /\ unread (lnk s') = unread (lnk s)) (fun _ => False).
Proof.
  unfold dsi_disconnect, dsi_tcp_close, dsi_close_pipe. do 5 step. apply spec_ret. split; [|split; [done|cbn; by destruct (_ =? _)]].
  eapply moved_trans0; [apply (moved_lnk (fun l => if socket l =? -1 then l else with_socket (-1) l)); intros l; by destruct (_ =? _)|].
  eapply moved_trans0; [apply (moved_lnk (with_pipe false)); done|].
  eapply moved_trans0; [apply (moved_lnk (fun l => with_flags (Z.land (flags l) (Z.lnot (Z.lor DSI_SLEEPING DSI_EXTSLEEP))) l)); done|].
  apply (moved_lnk (fun l => with_flags (Z.lor (flags l) DSI_DISCONNECTED) l) (St _ _ _)). done.
Qed.

Lemma poll_spec s : spec poll s (fun _ s' => moved [] [] s s' /\ recvs (net s') = recvs (net s) /\ lnk s' = lnk s /\ (length (polls (net s')) < length (polls (net s)))%nat)
  (fun s' => s' = s).
Proof.
  unfold spec, poll. destruct (polls (net s)) as [|a r] eqn:E; [done|]. split; [|cbn; split; [done|split; [done|lia]]].
  split; cbn; try done. by rewrite app_nil_r.
Qed.

Lemma wait_spec fuel : forall s, (length (polls (net s)) < fuel)%nat ->
  spec (wait_loop fuel) s (fun _ s' => moved [] [] s s' /\ recvs (net s') = recvs (net s) /\ unread (lnk s') = unread (lnk s)) (fun s' => moved [] [] s s').
Proof.
  induction fuel as [|fuel IH]; intros s Hf; [lia|]. cbn [wait_loop].
  eapply spec_then; [apply poll_spec|intros s' ->; apply moved_refl|]. intros [stop a] s1 (H1 & Hr1 & Hl1 & Hp). cbn [fst snd].
  assert (forall e, spec (dsi_disconnect;; set_errno e;; mret (-1)) s1 (fun _ s' => moved [] [] s s' /\ recvs (net s') = recvs (net s) /\ unread (lnk s') = unread (lnk s)) (fun s' => moved [] [] s s')) as Hd.
  { intros e. eapply spec_then; [apply disconnect_spec|done|]. intros _ s2 (H2 & Hr2 & Hu2). step. apply spec_ret. cbn [net lnk]. split; [|cbn; split; congruence].
    eapply moved_trans0; [exact H1|]. eapply moved_trans0; [exact H2|apply moved_errno]. }
  assert (spec (wait_loop fuel) s1 (fun _ s' => moved [] [] s s' /\ recvs (net s') = recvs (net s) /\ unread (lnk s') = unread (lnk s)) (fun s' => moved [] [] s s')) as Hnext.
  { eapply spec_mono; [apply IH; lia|..]; cbv beta; [|intros s' ?; by eapply moved_trans0].
    intros _ s' (? & ? & ?). split; [by eapply moved_trans0|split; congruence]. }
  assert (forall z : Z, spec (mret z) s1 (fun _ s' => moved [] [] s s' /\ recvs (net s') = recvs (net s) /\ unread (lnk s') = unread (lnk s)) (fun s' => moved [] [] s s')) as Hret
    by (intros z; apply spec_ret; rewrite Hl1; done).
  destruct stop; [apply Hd|]. destruct a as [| | | |e]; [apply Hret|done|done|apply Hd|]. destruct (negb (e =? EINTR)); [apply Hret|done].
Qed.

Lemma dsi_wait_input_spec s : spec dsi_wait_input s (fun _ s' => moved [] [] s s' /\ recvs (net s') = recvs (net s) /\ unread (lnk s') = unread (lnk s)) (fun s' => moved [] [] s s').
Proof. unfold dsi_wait_input. step. apply wait_spec. lia. Qed.

(** What a read of up to [count] bytes returns. *)
Definition read_result (count : nat) (r : Z * list Z) : Prop := r.1 = zlen r.2 /\ (length r.2 <= count)%nat \/ r.1 = -1 /\ r.2 = [].

Lemma recv_loop_spec count fuel : forall s, unread (lnk s) = [] -> link_wf (lnk s) -> (length (recvs (net s)) < fuel)%nat ->
  spec (recv_loop fuel count) s
    (fun r s' => moved r.2 [] s s' /\ read_result count r /\
      ((length (recvs (net s')) < length (recvs (net s)))%nat \/ r.1 = -1 /\ errno (net s') = EBADF)) (fun s' => moved [] [] s s').
Proof.
  induction fuel as [|fuel IH]; intros s Hu Hw Hf; [lia|]. cbn [recv_loop].
  eapply spec_then; [apply recv_spec|intros s' ->; apply moved_refl|]. intros [len bs] s1 Hh. step. cbn [fst snd] in *.
  pose proof (heard_moved _ _ _ _ Hh Hu) as H1. destruct Hh. cbn [fst snd] in *.
  destruct (_ && _) eqn:E; [|apply spec_ret; done].
  assert (bs = [] /\ (length (recvs (net s1)) < length (recvs (net s)))%nat) as [-> Hless].
  { bool_cases. split; [destruct hd_len0 as [[? _]|[_ ?]]; [lia|done]|]. destruct hd_less0 as [?|[_ He]]; [done|]. rewrite He in *. done. }
  eapply spec_then; [apply dsi_wait_input_spec|intros s' ?; by eapply moved_trans0|]. intros r s2 (H2 & Hr2 & Hu2).
  pose proof (moved_trans0 _ _ _ _ _ H1 H2) as H12. rewrite hd_lnk0, Hu in Hu2.
  destruct (negb _); [apply spec_ret; cbn [fst snd]; rewrite Hr2; split; [done|]; split; [by right|by left]|].
  eapply spec_mono; [apply IH; [done|by apply H12|rewrite Hr2; lia]|..]; cbv beta; [|intros s' ?; by eapply moved_trans0].
  intros r' s' (? & ? & Hl). split; [by eapply moved_trans0|]. split; [done|]. rewrite Hr2 in Hl. destruct Hl; [left; lia|by right].
Qed.

Lemma buf_read_spec count s : link_wf (lnk s) -> (0 < count)%nat ->
  spec (buf_read count) s
    (fun r s' => moved r.2 [] s s' /\ read_result count r /\
      (0 < r.1 \/ (length (recvs (net s')) < length (recvs (net s)))%nat \/ r.1 = -1 /\ errno (net s') = EBADF)) (fun s' => moved [] [] s s').
Proof.
  intros Hw Hc. unfold buf_read. rewrite bool_decide_false by lia.
  eapply spec_then; [by apply from_buf_spec|done|]. intros bs s1 (H1 & Hbs & Hu1 & Hn1). case_bool_decide as Hne.
  - apply spec_ret. cbn [fst snd]. split; [done|]. split; [left; cbn; split; [done|]; rewrite Hbs, length_take; lia|].
    left. destruct bs; [done|cbn; lia].
  - assert (bs = []) as -> by (destruct bs; [done|by destruct Hne]). step.
    assert (unread (lnk s) = []) as Hu by (destruct (unread (lnk s)), count; [done|done|lia|done]). rewrite Hu, drop_nil in Hu1.
    eapply spec_mono; [apply recv_loop_spec; [done|by apply H1|lia]|..]; cbv beta; [|intros s' ?; by eapply moved_trans0].
    intros r s' (? & ? & Hl). split; [by eapply moved_trans0|]. split; [done|]. right. by rewrite <- Hn1.
Qed.

(** ** Reading and writing *)

(** What [dsi_stream_read] of [n] bytes does: all of them, or an error. *)
Definition read_done (n : nat) (r : Z * list Z) : Prop :=
  (length r.2 <= n)%nat /\ (r.1 = Z.of_nat n /\ length r.2 = n \/ r.1 = 0).

Lemma read_loop_spec length_ fuel : forall stored s, link_wf (lnk s) -> (length stored <= length_)%nat ->
  (length_ - length stored + length (recvs (net s)) < fuel)%nat ->
  spec (read_loop fuel length_ stored) s (fun r s' => exists got, r.2 = stored ++ got /\ moved got [] s s' /\ read_done length_ r)
    (fun s' => exists got, moved got [] s s').
Proof.
  induction fuel as [|fuel IH]; intros stored s Hw Hl Hf; [lia|]. cbn [read_loop].
  assert (forall s1 (r : Z * list Z) z, moved [] [] s s1 -> r.2 = stored -> read_done length_ r ->
    spec (set_lnk (add_read z);; mret r) s1 (fun r s' => exists got, r.2 = stored ++ got /\ moved got [] s s' /\ read_done length_ r)
      (fun s' => exists got, moved got [] s s')) as Hend.
  { intros s1 r z H1 Hr Hd. step. apply spec_ret. exists []. rewrite app_nil_r. split; [done|]. split; [|done].
    eapply moved_trans0; [exact H1|]. by apply (moved_lnk (add_read z)). }
  case_bool_decide as Hlt; [|apply Hend; [apply moved_refl|done|split; [done|left; cbn; split; [lia|lia]]]].
  eapply spec_then; [apply buf_read_spec; [done|lia]|intros s' ?; by eexists|]. intros [len bs] s1 (H1 & Hr & Hm). step. cbn [fst snd] in *.
  pose proof (mv_recvs _ _ _ _ H1) as Hr1.
  destruct (_ && _) eqn:E.
  { assert (bs = []) as -> by (bool_cases; destruct Hr as [[? _]|[_ ?]]; cbn [fst snd] in *; [lia|done]).
    eapply spec_mono; [apply IH; [by apply H1|done|]|..]; cbv beta.
    - destruct Hm as [?|[?|[-> He]]]; [bool_cases; lia|lia|]. rewrite He in E. done.
    - intros r s' (got & ? & ? & ?). exists got. split; [done|]. split; [by eapply moved_trans0|done].
    - intros s' [got ?]. exists got. by eapply moved_trans0. }
  destruct (0 <? len) eqn:E0.
  { destruct Hr as [[Hlen Hn]|[? _]]; cbn [fst snd] in *; [|bool_lia].
    eapply spec_mono; [apply IH; [by apply H1|rewrite length_app; lia|]|..]; cbv beta.
    - rewrite length_app. bool_cases. lia.
    - intros r s' (got & ? & ? & ?). exists (bs ++ got). rewrite app_assoc. split; [done|]. split; [by eapply (moved_trans _ _ [] [])|done].
    - intros s' [got ?]. exists (bs ++ got). by eapply (moved_trans _ _ [] []). }
  assert (bs = []) as -> by (destruct Hr as [[? _]|[_ ?]]; cbn [fst snd] in *; [destruct bs; [done|cbn in *; bool_lia]|done]).
  destruct (negb (len =? 0) || _ || _) eqn:E2.
  - apply spec_ret. exists []. cbn [fst snd]. rewrite app_nil_r. split; [done|]. split; [done|split; [done|by right]].
  - apply Hend; [done|done|]. bool_cases. split; [done|]. right. cbn. destruct stored; [done|]. exfalso. match goal with H : ~ _ |- _ => by apply H end.
Qed.

Lemma dsi_stream_read_spec length_ s : link_wf (lnk s) ->
  spec (dsi_stream_read length_) s (fun r s' => moved r.2 [] s s' /\ read_done length_ r) (fun s' => exists got, moved got [] s s').
Proof.
  intros Hw. unfold dsi_stream_read. step. destruct (has _ _); [apply spec_ret; split; [apply moved_refl|split; [cbn; lia|by right]]|].
  eapply spec_mono; [apply read_loop_spec; [done|cbn; lia|cbn; lia]|..]; cbv beta; [|done]. intros r s' (got & -> & ? & ?). done.
Qed.

Lemma dsi_buffered_stream_read_spec length_ s : link_wf (lnk s) ->
  spec (dsi_buffered_stream_read length_) s (fun r s' => moved r.2 [] s s' /\ read_done length_ r) (fun s' => exists got, moved got [] s s').
Proof.
  intros Hw. unfold dsi_buffered_stream_read. eapply spec_then; [by apply from_buf_spec|done|].
  intros bs s1 (H1 & Hbs & _ & _). step. set (s2 := St _ _ _).
  assert (moved bs [] s s2) as H2 by (eapply moved_trans1; [exact H1|by apply (moved_lnk (add_read (zlen bs)))]).
  case_bool_decide as Hlen; [apply spec_ret; split; [done|split; [cbn; lia|left; cbn; lia]]|].
  assert (length bs < length_)%nat as Hlt by (rewrite Hbs, length_take in *; lia).
  step. change (lnk s1) with (lnk s1). eapply (spec_then _ _ _ (fun _ s' => moved bs [] s s') (fun s' => moved bs [] s s')); [|intros s' ?; by eexists|].
  { case_bool_decide as Hb; [|by apply spec_ret].
    eapply spec_then; [apply recv_ahead_spec; [by apply (mv_wf _ _ _ _ H2)|]|intros s' ->; done|intros z s' ?; apply spec_ret; by eapply moved_trans1].
    pose proof (mv_wf _ _ _ _ H1 Hw) as Hw1. unfold link_wf in Hw1. cbn [lnk s2 add_read eof buffer]. lia. }
  intros _ s3 H3. eapply spec_then; [apply dsi_stream_read_spec; by apply (mv_wf _ _ _ _ H3)| |].
  { intros s' [got ?]. exists (bs ++ got). by eapply (moved_trans _ _ [] []). }
  intros [n rest] s4 [H4 Hd]. cbn [fst snd] in *. pose proof (moved_trans _ _ [] [] _ _ _ H3 H4) as H34. unfold read_done in *. cbn [fst snd] in *.
  destruct (negb _) eqn:E; apply spec_ret; cbn [fst snd]; (split; [done|]); rewrite length_app; (split; [lia|]); [by right|].
  left. destruct Hd as [_ [[-> ->]| ->]]; bool_cases; lia.
Qed.

(** ** Sending *)

Lemma send_spec bs s : spec (send bs) s (fun len s' =>
    lnk s' = lnk s /\ (0 <= len /\ len <= zlen bs /\ moved [] (take (Z.to_nat len) bs) s s' /\ (length (sends (net s')) < length (sends (net s)))%nat \/
    len = -1 /\ moved [] [] s s' /\ ((length (sends (net s')) < length (sends (net s)))%nat \/ errno (net s') = EBADF))) (fun s' => s' = s).
Proof.
  unfold spec, send. destruct (socket (lnk s) <? 0); [split; [done|right; split; [done|]]; split; [apply moved_errno|by right]|].
  destruct (sends (net s)) as [|[n|e] r] eqn:Er; [done| |]; (split; [done|]).
  - left. rewrite length_take. split; [lia|]. split; [lia|]. split; [|cbn; lia].
    split; cbn; try done; [|rewrite Er; cbn; lia]. f_equal. rewrite Nat2Z.id. destruct (decide (n <= length bs)%nat); [f_equal; lia|by rewrite !take_ge by lia].
  - right. split; [done|]. split; [|left; cbn; lia]. split; cbn; try done; [by rewrite app_nil_r|rewrite Er; cbn; lia].
Qed.


Lemma write_loop_spec mode fuel : forall bs written s, link_wf (lnk s) -> (length (sends (net s)) < fuel)%nat -> 0 <= written ->
  spec (write_loop fuel bs written mode) s
    (fun r s' => exists out, moved [] out s s' /\ (r = written + zlen bs /\ out = bs \/ r = -1 /\ out `prefix_of` bs))
    (fun s' => exists out, moved [] out s s' /\ out `prefix_of` bs).
Proof.
  induction fuel as [|fuel IH]; intros bs written s Hw Hf Hwr; [lia|]. cbn [write_loop]. case_bool_decide as Hne.
  2:{ assert (bs = []) as -> by (destruct bs; [done|by destruct Hne]). step. apply spec_ret. exists []. cbn. split; [by apply (moved_lnk (add_write written))|left; split; [lia|done]]. }
  assert (forall s1, moved [] [] s s1 -> spec (mret (-1)) s1
    (fun r s' => exists out, moved [] out s s' /\ (r = written + zlen bs /\ out = bs \/ r = -1 /\ out `prefix_of` bs))
    (fun s' => exists out, moved [] out s s' /\ out `prefix_of` bs)) as Hfail
    by (intros s1 H1; apply spec_ret; exists []; split; [done|right; split; [done|apply prefix_nil]]).
  assert (forall s1, moved [] [] s s1 -> (length (sends (net s1)) < fuel)%nat -> spec (write_loop fuel bs written mode) s1
    (fun r s' => exists out, moved [] out s s' /\ (r = written + zlen bs /\ out = bs \/ r = -1 /\ out `prefix_of` bs))
    (fun s' => exists out, moved [] out s s' /\ out `prefix_of` bs)) as Hnext.
  { intros s1 H1 Hs1. eapply spec_mono; [apply IH; [by apply H1|done|done]|..]; cbv beta.
    - intros r s' (out & ? & ?). exists out. split; [by eapply moved_trans0|done].
    - intros s' (out & ? & ?). exists out. split; [by eapply moved_trans0|done]. }
  eapply spec_then; [apply send_spec|intros s' ->; exists []; split; [apply moved_refl|apply prefix_nil]|].
  intros len s1 (Hl1 & [(H0 & Hlen & H1 & Hs1)|(-> & H1 & Hs1)]).
  - rewrite (proj2 (Z.leb_le 0 len)) by done.
    eapply spec_mono; [apply IH; [by apply (mv_wf _ _ _ _ H1)|lia|lia]|..]; cbv beta.
    + intros r s' (out & Hm & Hr). exists (take (Z.to_nat len) bs ++ out). split; [by eapply (moved_trans [] [])|].
      rewrite length_drop in Hr. destruct Hr as [[-> ->]|[-> [t Ht]]]; [left; rewrite take_drop; split; [lia|done]|right; split; [done|]].
      exists t. by rewrite <- app_assoc, <- Ht, take_drop.
    + intros s' (out & Hm & [t Ht]). exists (take (Z.to_nat len) bs ++ out). split; [by eapply (moved_trans [] [])|].
      exists t. by rewrite <- app_assoc, <- Ht, take_drop.
  - cbn [Z.leb Z.compare]. step.
    assert (errno (net s1) = EINTR \/ errno (net s1) = EAGAIN -> (length (sends (net s1)) < fuel)%nat) as Hdec
      by (intros He; destruct Hs1 as [?|He']; [lia|]; rewrite He' in He; destruct He as [He|He]; discriminate He).
    destruct (errno (net s1) =? EINTR) eqn:E1; [bool_cases; apply Hnext; [done|apply Hdec; by left]|].
    destruct (_ || _) eqn:E2; [|by apply Hfail]. unfold EWOULDBLOCK in E2. rewrite orb_diag in E2. bool_cases.
    destruct (_ && _); [by apply Hfail|].
    eapply spec_then; [apply dsi_peek_spec; by apply H1|intros s' ?; exists []; split; [by eapply moved_trans0|apply prefix_nil]|].
    intros r s2 H2. pose proof (moved_trans0 _ _ _ _ _ H1 H2) as H12. destruct (negb _); [by apply Hfail|].
    apply Hnext; [done|]. pose proof (mv_sends _ _ _ _ H2). specialize (Hdec ltac:(by right)). lia.
Qed.

(** From [s] with the count of writes under way raised, to [s'] with it raised. *)
Lemma moved_inw n got sent s s' :
  moved got sent (St (ses s) (add_in_write n (lnk s)) (net s)) (St (ses s') (lnk s') (net s')) ->
  moved got sent s (St (ses s') (add_in_write (- n) (lnk s')) (net s')).
Proof. intros H. destruct H. cbn in *. split; auto. cbn. lia. Qed.

Lemma st_eta s : St (ses s) (lnk s) (net s) = s.
Proof. by destruct s. Qed.

Lemma dsi_stream_write_spec bs mode s : link_wf (lnk s) -> has (flags (lnk s)) DSI_DISCONNECTED = false ->
  spec (dsi_stream_write bs mode) s
    (fun r s' => exists out, moved [] out s s' /\ (r = zlen bs /\ out = bs \/ r = -1 /\ out `prefix_of` bs))
    (fun s' => exists out, outp (net s') = outp (net s) ++ out /\ out `prefix_of` bs).
Proof.
  intros Hw Hf. unfold dsi_stream_write. do 2 step. cbn [flags add_in_write]. rewrite Hf.
  eapply spec_then; [apply write_loop_spec; [done|cbn; lia|lia]|..]; cbv beta.
  - intros s' (out & Hm & ?). exists out. split; [apply (mv_out _ _ _ _ Hm)|done].
  - intros r s1 (out & Hm & Hr). step. apply spec_ret. exists out. split; [|done].
    apply (moved_inw 1). by rewrite st_eta.
Qed.

(** The rest of a frame: its header and payload, or its payload. *)
Definition iov_ok (iov : list (list Z)) (towrite length_ : Z) : Prop :=
  zlen (concat iov) = towrite /\
  match iov with
  | [h; p] => zlen p = length_ /\ h <> []
  | [p] => towrite <= length_
  | _ => False
  end.

Lemma send_loop_spec length_ fuel : forall iov towrite s, link_wf (lnk s) -> (length (sends (net s)) < fuel)%nat -> iov_ok iov towrite length_ ->
  spec (send_loop fuel iov towrite length_) s
    (fun r s' => exists out s1, moved [] out s s1 /\ s' = St (ses s1) (add_in_write (-1) (lnk s1)) (net s1) /\
      (r = 1 /\ out = concat iov \/ r = 0 /\ out `prefix_of` concat iov))
    (fun s' => exists out, moved [] out s s' /\ out `prefix_of` concat iov).
Proof.
  induction fuel as [|fuel IH]; intros iov towrite s Hw Hf Hiov; [lia|]. cbn [send_loop]. destruct Hiov as [Hlen Hiov].
  destruct (0 <? towrite) eqn:E0.
  2:{ unfold unblock_sig. step. apply spec_ret. exists [], s. split; [apply moved_refl|]. split; [done|]. left. split; [done|].
      destruct (concat iov); [done|cbn in Hlen; bool_lia]. }
  set (Q := fun (r : Z) (s' : st) => exists out s1, _). set (B := fun s' : st => exists out, _).
  assert (forall s1, moved [] [] s s1 -> spec (unblock_sig;; mret 0) s1 Q B) as Hfail.
  { intros s1 H1. unfold unblock_sig. step. apply spec_ret. exists [], s1. split; [done|]. split; [done|]. right. split; [done|apply prefix_nil]. }
  assert (forall out iov' towrite' s1, moved [] out s s1 -> out ++ concat iov' = concat iov -> (length (sends (net s1)) < fuel)%nat ->
    iov_ok iov' towrite' length_ -> spec (send_loop fuel iov' towrite' length_) s1 Q B) as Hnext.
  { intros out iov' tw s1 H1 Hcat Hs1 Hok. eapply spec_mono; [apply (IH iov' tw); [by apply (mv_wf _ _ _ _ H1)|done|done]|..]; cbv beta.
    - intros r s' (out' & s2 & Hm & -> & Hr). exists (out ++ out'), s2. split; [by eapply (moved_trans [] [])|]. split; [done|].
      rewrite <- Hcat. destruct Hr as [[-> ->]|[-> Hp]]; [by left|right; split; [done|by apply prefix_app]].
    - intros s' (out' & Hm & Hp). exists (out ++ out'). split; [by eapply (moved_trans [] [])|]. rewrite <- Hcat. by apply prefix_app. }
  eapply spec_then; [apply send_spec|intros s' ->; exists []; split; [apply moved_refl|apply prefix_nil]|].
  intros len s1 (Hl1 & [(H0 & Hle & H1 & Hs1)|(-> & H1 & Hs1)]).
  - step. rewrite (proj2 (Z.eqb_neq len (-1))) by lia. cbn [andb orb]. destruct (len =? 0) eqn:Ez.
    { bool_cases. subst len. cbn [Z.to_nat] in H1. rewrite take_0 in H1. apply (Hnext []); [done|done|lia|done]. }
    destruct (len =? towrite) eqn:Et.
    { bool_cases. subst len. rewrite take_ge in H1 by lia. unfold unblock_sig. step. apply spec_ret. exists (concat iov), s1.
      split; [done|]. split; [done|]. by left. }
    rewrite (proj2 (Z.ltb_ge len 0)) by lia. bool_cases. destruct iov as [|h [|p [|]]]; [done| | |done].
    + cbn [concat] in *. rewrite app_nil_r in *. apply (Hnext (take (Z.to_nat len) h)); [done|cbn [concat]; by rewrite app_nil_r, take_drop|lia|].
      split; [cbn [concat]; rewrite app_nil_r, length_drop; lia|lia].
    + cbn [concat] in *. rewrite app_nil_r in *. rewrite length_app in Hlen, Hle. destruct Hiov as [Hp Hh]. destruct (length_ <? towrite - len) eqn:El.
      * bool_cases. rewrite take_app_le in H1 by lia. apply (Hnext (take (Z.to_nat len) h)); [done| |lia|].
        -- cbn [concat]. rewrite app_nil_r, app_assoc. by rewrite take_drop.
        -- split; [cbn [concat]; rewrite app_nil_r, length_app, length_drop; lia|]. split; [done|].
           intros Hd. apply (f_equal length) in Hd. rewrite length_drop in Hd. cbn in Hd. lia.
      * bool_cases. rewrite take_app_ge in H1 by lia. replace (Z.to_nat len - length h)%nat with (Z.to_nat (len - zlen h)) in H1 by lia.
        apply (Hnext (h ++ take (Z.to_nat (len - zlen h)) p)); [done| |lia|].
        -- cbn [concat]. rewrite app_nil_r, <- app_assoc. by rewrite take_drop.
        -- split; [cbn [concat]; rewrite app_nil_r, length_drop; lia|lia].
  - step. assert (errno (net s1) = EINTR \/ errno (net s1) = EAGAIN -> (length (sends (net s1)) < fuel)%nat) as Hdec
      by (intros He; destruct Hs1 as [?|He']; [lia|]; rewrite He' in He; destruct He as [He|He]; discriminate He).
    change (-1 =? -1) with true. change (-1 =? 0) with false. cbn [andb]. rewrite orb_false_r.
    destruct (errno (net s1) =? EINTR) eqn:E1; [bool_cases; apply (Hnext []); [done|done|apply Hdec; by left|done]|].
    destruct (-1 =? towrite) eqn:E2; [bool_lia|]. change (-1 <? 0) with true. cbn match.
    destruct (_ || _) eqn:E3; [|by apply Hfail]. unfold EWOULDBLOCK in E3. rewrite orb_diag in E3. bool_cases.
    eapply spec_then; [apply dsi_peek_spec; by apply H1|intros s' ?; exists []; split; [by eapply moved_trans0|apply prefix_nil]|].
    intros r s2 H2. pose proof (moved_trans0 _ _ _ _ _ H1 H2) as H12. destruct (r =? 0); [|by apply Hfail].
    apply (Hnext []); [done|done| |done]. pose proof (mv_sends _ _ _ _ H2). specialize (Hdec ltac:(by right)). lia.
Qed.

Lemma le_bytes_length n v : length (le_bytes n v) = n.
Proof. revert v. induction n; intros v; cbn; [done|]. by rewrite IHn. Qed.

Lemma pack_length h : length (dsi_header_pack_reply h) = DSI_BLOCKSIZ.
Proof. unfold dsi_header_pack_reply. rewrite !length_app, !le_bytes_length. done. Qed.

Lemma dsi_stream_send_spec buf s : link_wf (lnk s) -> has (flags (lnk s)) DSI_DISCONNECTED = false ->
  spec (dsi_stream_send buf) s
    (fun r s' => exists out, moved [] out s s' /\
      (r = 1 /\ out = dsi_header_pack_reply (header (ses s)) ++ buf \/ r = 0 /\ out `prefix_of` dsi_header_pack_reply (header (ses s)) ++ buf))
    (fun s' => exists out, outp (net s') = outp (net s) ++ out /\ out `prefix_of` dsi_header_pack_reply (header (ses s)) ++ buf).
Proof.
  intros Hw Hf. unfold dsi_stream_send. step. rewrite Hf. set (block := dsi_header_pack_reply _).
  assert (length block = DSI_BLOCKSIZ) as Hb by apply pack_length. case_bool_decide as Hnil.
  - subst buf. rewrite app_nil_r. eapply spec_then; [by apply dsi_stream_write_spec|done|]. intros r s1 (out & Hm & Hr).
    apply spec_ret. exists out. split; [done|]. destruct Hr as [[-> ->]|[-> Hp]]; [rewrite Z.eqb_refl; by left|].
    rewrite (proj2 (Z.eqb_neq _ _)) by (rewrite Hb; done). by right.
  - unfold block_sig. do 2 step.
    eapply spec_mono; [apply send_loop_spec; [done|cbn; lia|]|..]; cbv beta.
    + split; [cbn [concat]; rewrite app_nil_r, length_app; lia|]. split; [done|]. intros ->. done.
    + intros r s' (out & s1 & Hm & -> & Hr). cbn [concat] in Hr. rewrite app_nil_r in Hr. exists out. split; [|done].
      apply (moved_inw 1). rewrite st_eta. eapply moved_trans0; [|exact Hm]. by apply (moved_lnk (add_write _) (St _ _ _)).
    + intros s' (out & Hm & Hp). cbn [concat] in Hp. rewrite app_nil_r in Hp. exists out. split; [apply (mv_out _ _ _ _ Hm)|done].
Qed.

(** ** Steps that change the session *)

(** As [moved], whatever became of the other fields. *)
Definition carried (got sent : list Z) (s s' : st) : Prop := moved got sent s (St (ses s) (lnk s') (net s')).

Lemma moved_carried got sent s s' : moved got sent s s' -> carried got sent s s'.
Proof. intros H. unfold carried. rewrite <- (mv_ses _ _ _ _ H), st_eta. done. Qed.

Lemma carried_trans g1 g2 o1 o2 s s1 s2 : carried g1 o1 s s1 -> carried g2 o2 s1 s2 -> carried (g1 ++ g2) (o1 ++ o2) s s2.
Proof.
  unfold carried. intros H1 H2. eapply moved_trans; [exact H1|]. destruct H2. split; auto.
Qed.

Lemma carried_ses got sent s s1 d : carried got sent s s1 -> carried got sent s (St d (lnk s1) (net s1)).
Proof. done. Qed.

Lemma carried_wf got sent s s' : carried got sent s s' -> link_wf (lnk s) -> link_wf (lnk s').
Proof. intros H. apply (mv_wf _ _ _ _ H). Qed.

(** A read as a step from an earlier state. *)
Lemma read_from n s0 s got0 : carried got0 [] s0 s -> link_wf (lnk s0) ->
  spec (dsi_stream_read n) s (fun r s' => carried (got0 ++ r.2) [] s0 s' /\ moved r.2 [] s s' /\ read_done n r) (fun s' => exists got, carried got [] s0 s').
Proof.
  intros H0 Hw. eapply spec_mono; [apply dsi_stream_read_spec; by eapply carried_wf|..]; cbv beta.
  - intros r s' [H1 Hr]. split; [|done]. apply (carried_trans _ _ [] [] _ s); [done|by apply moved_carried].
  - intros s' [got H1]. exists (got0 ++ got). apply (carried_trans _ _ [] [] _ s); [done|by apply moved_carried].
Qed.

(** Numbers on the wire. *)
Definition be_bytes (n : nat) (v : Z) : list Z := rev (le_bytes n v).
Definition be_val (bs : list Z) : Z := le_val (rev bs).

Lemma le_bytes_val bs : Forall byte bs -> le_bytes (length bs) (le_val bs) = bs.
Proof.
  induction 1 as [|b bs Hb _ IH]; [done|]. cbn [length le_bytes le_val]. unfold byte in Hb.
  replace ((b + 256 * le_val bs) mod 256) with b by zmod. replace ((b + 256 * le_val bs) / 256) with (le_val bs) by zmod. by rewrite IH.
Qed.

Lemma le_val_range bs : Forall byte bs -> 0 <= le_val bs < 256 ^ zlen bs.
Proof.
  induction 1 as [|b bs Hb _ IH]; [cbn; lia|]. cbn [length le_val]. unfold byte in Hb.
  rewrite Nat2Z.inj_succ, Z.pow_succ_r by lia. lia.
Qed.

Lemma htonl_bytes v : 0 <= v < 2 ^ 32 -> le_bytes 4 (htonl v) = be_bytes 4 v.
Proof.
  intros Hv. unfold htonl. rewrite bswap32_sum by done.
  set (a := v mod 256). set (b := v / 2 ^ 8 mod 256). set (c := v / 2 ^ 16 mod 256). set (d := v / 2 ^ 24).
  assert (Forall byte [d; c; b; a]) as Hd by (repeat constructor; unfold a, b, c, d; zmod).
  transitivity [d; c; b; a].
  - rewrite <- (le_bytes_val [d; c; b; a] Hd). cbn [length]. f_equal. cbn [le_val]. lia.
  - unfold be_bytes. cbn [le_bytes rev app]. rewrite !Z.div_div by lia.
    change (256 * 256 * 256) with (2 ^ 24). change (256 * 256) with (2 ^ 16). fold a. change 256 with (2 ^ 8) at 4. fold b c.
    f_equal. unfold d. symmetry. apply Z.mod_small. zmod.
Qed.

Lemma le_val_bytes4 v : 0 <= v < 2 ^ 32 -> le_val (le_bytes 4 v) = v.
Proof. intros Hv. cbn [le_bytes le_val]. rewrite !Z.div_div by lia. zmod. Qed.

Lemma htonl_val bs : Forall byte bs -> length bs = 4%nat -> htonl (le_val bs) = be_val bs.
Proof.
  intros Hb Hl. pose proof (le_val_range bs Hb) as Hr. rewrite Hl in Hr. change (256 ^ Z.of_nat 4) with (2 ^ 32) in Hr.
  rewrite <- (le_val_bytes4 (htonl (le_val bs))) by apply bswap32_range. rewrite htonl_bytes by done.
  unfold be_bytes, be_val. by rewrite <- Hl, le_bytes_val by done.
Qed.
