(* ===== verification/DsiTheorems.v ===== *)
(** * DSI streams: theorems

    However the kernel cuts the streams into pieces, requests are read whole and in order,
    replies go out whole, and the payload of a write lands in the file with the stream
    left at the next request. *)

From S2P Require Import Prelude Bytes Dsi DsiFacts.

(** ** Frames *)

Lemma frame_cmdlen_bound h q n : frame_cmdlen h q = Some n -> 0 <= n <= Z.max q 20.
Proof.
  unfold frame_cmdlen, DSI_WROFF_FPWRITE, DSI_WROFF_FPWRITEEXT. pose proof (bswap32_range (dsi_len h)) as Hr. unfold ntohl.
  destruct (dsi_command h =? DSIFUNC_WRITE).
  - set (doff := if dsi_data h =? 0 then 12 else dsi_data h). destruct (negb (doff =? 12) && negb (doff =? 20)) eqn:E; [done|].
    assert (doff = 12 \/ doff = 20) as Hd by (apply andb_false_iff in E as [E|E]; bool_cases; auto).
    do 3 (destruct (_ <? _); [done|]). intros [= <-]. lia.
  - destruct (_ <? _) eqn:E; [done|]. destruct (_ && _); [done|]. intros [= <-]. bool_cases. lia.
Qed.

(** The header of the session behind a request. *)
Definition request_header (block : list Z) : dsi_block :=
  let h := parse_block block in
  Dsi_block (dsi_flags h) (dsi_command h) (dsi_requestID h)
    (if (dsi_command h =? DSIFUNC_WRITE) && (dsi_data h =? 0) then DSI_WROFF_FPWRITE else dsi_data h) (dsi_len h) (dsi_reserved h).

(** A request was taken: its header [block] and the bytes [body] for the command buffer. *)
Record received (block body : list Z) (s s' : st) : Prop := {
  rc_stream : carried (block ++ body) [] s s';
  rc_block : length block = DSI_BLOCKSIZ;
  rc_command : dsi_command (parse_block block) <> 0;
  rc_valid : frame_cmdlen (parse_block block) (server_quantum (ses s)) = Some (zlen body);
  rc_header : header (ses s') = request_header block;
  rc_id : clientID (ses s') = ntohs (dsi_requestID (parse_block block));
  rc_cmdlen : cmdlen (ses s') = zlen body;
  rc_commands : take (length body) (commands (ses s')) = body;
  rc_size : length (commands (ses s')) = length (commands (ses s));
  rc_quantum : server_quantum (ses s') = server_quantum (ses s);
  rc_data : data (ses s') = data (ses s)
}.

(** The command buffer has the size of the quantum, which is no smaller than the request
    block of a write. *)
Definition buffers_ok (d : dsi) : Prop := 20 <= server_quantum d /\ zlen (commands d) = server_quantum d.

Lemma take_blit_0 bs d : (length bs <= length d)%nat -> take (length bs) (blit 0 bs d) = bs.
Proof. intros H. rewrite blit_0, take_app_length. done. Qed.

Lemma receive_spec s : link_wf (lnk s) -> buffers_ok (ses s) ->
  spec dsi_stream_receive s
    (fun r s' => (exists block body, received block body s s' /\ r = schar (dsi_command (parse_block block))) \/ r = 0 /\ exists got, carried got [] s s')
    (fun s' => exists got, carried got [] s s').
Proof.
  intros Hw [Hq Hc]. unfold dsi_stream_receive. step.
  assert (forall got s1, carried got [] s s1 -> spec (mret 0) s1
    (fun r s' => (exists block body, received block body s s' /\ r = schar (dsi_command (parse_block block))) \/ r = 0 /\ exists got, carried got [] s s')
    (fun s' => exists got, carried got [] s s')) as Hno by (intros got s1 H1; apply spec_ret; right; split; [done|by exists got]).
  destruct (has _ _); [apply (Hno []), moved_carried, moved_refl|].
  eapply spec_then; [by apply dsi_buffered_stream_read_spec|intros s' [got ?]; exists got; by apply moved_carried|].
  intros [n block] s1 [H1 Hr]. cbn [fst snd] in *. pose proof (mv_ses _ _ _ _ H1) as Hs1. apply moved_carried in H1.
  destruct (negb _) eqn:En; [by apply (Hno block)|]. assert (length block = DSI_BLOCKSIZ) as Hblock
    by (bool_cases; destruct Hr as [_ [[_ ?]|?]]; cbn [fst snd] in *; [done|subst; discriminate]).
  destruct (dsi_command (parse_block block) =? 0) eqn:E0; [step; by apply (Hno block)|].
  do 2 step. destruct (frame_cmdlen _ _) as [len|] eqn:Ef; [|by apply (Hno block)].
  pose proof (frame_cmdlen_bound _ _ _ Ef) as Hlen. step. unfold read_commands. apply spec_bind. step.
  cbn [commands with_commands with_header with_clientID ses]. rewrite Hs1. rewrite (proj2 (Z.ltb_ge _ _)) by lia.
  eapply spec_then; [apply (read_from _ s _ block); [apply H1|done]|done|]. intros [r body] s2 (H2 & Hm & Hrd). step. apply spec_ret.
  cbn [fst snd] in *. pose proof (mv_ses _ _ _ _ Hm) as Hs2. cbn [ses] in Hs2.
  destruct (negb (r =? len)) eqn:Er; [by apply (Hno (block ++ body))|]. bool_cases. subst r.
  assert (length body = Z.to_nat len) as Hbody by (destruct Hrd as [? [[_ ?]|Hz]]; cbn [fst snd] in *; lia).
  apply spec_ret. left. exists block, body. split; [|done]. rewrite Hs2. cbn [with_commands with_header with_clientID commands cmdlen].
  split; cbn [ses header commands cmdlen clientID server_quantum data with_commands with_header with_clientID]; try done.
  - by rewrite Ef, Hbody, Z2Nat.id by lia.
  - by rewrite Hbody, Z2Nat.id by lia.
  - apply take_blit_0. lia.
  - apply length_blit. lia.
Qed.

(** ** A kernel that delivers

    Every [recv] has some bytes, in pieces of any size, and the session is connected. *)

Definition eager (a : io) : Prop := match a with Take (S _) => True | _ => False end.

Definition ready (s : st) : Prop :=
  0 <= socket (lnk s) /\ has (flags (lnk s)) DSI_DISCONNECTED = false /\ Forall eager (recvs (net s)).

Definition returns {A} (m : M A) (s : st) (Q : A -> st -> Prop) : Prop :=
  match m s with Ret a s' => Q a s' | _ => False end.

Lemma returns_spec {A} (m : M A) s P B Q : returns m s P -> spec m s Q B -> returns m s (fun a s' => P a s' /\ Q a s').
Proof. unfold returns, spec. by destruct (m s). Qed.

Lemma returns_bind {A C} (m : M A) (f : A -> M C) s P Q : returns m s P -> (forall a s', P a s' -> returns (f a) s' Q) -> returns (m ≫= f) s Q.
Proof. unfold returns, mbind, M_bind. destruct (m s); [intros H Hf; exact (Hf _ _ H)|done..]. Qed.

Lemma returns_mono {A} (m : M A) s (P Q : A -> st -> Prop) : returns m s P -> (forall a s', P a s' -> Q a s') -> returns m s Q.
Proof. unfold returns. destruct (m s); auto. Qed.

Lemma returns_ret {A} (a : A) s (Q : A -> st -> Prop) : Q a s -> returns (mret a) s Q.
Proof. done. Qed.

Lemma returns_get {A} (f : st -> M A) s Q : returns (f s) s Q -> returns (get ≫= f) s Q.
Proof. done. Qed.

Lemma returns_lnk {A} (f : unit -> M A) g s Q : returns (f tt) (St (ses s) (g (lnk s)) (net s)) Q -> returns (set_lnk g ≫= f) s Q.
Proof. done. Qed.

Lemma returns_ses {A} (f : unit -> M A) g s Q : returns (f tt) (St (g (ses s)) (lnk s) (net s)) Q -> returns (set_ses g ≫= f) s Q.
Proof. done. Qed.

Lemma from_buf_ready count s : link_wf (lnk s) ->
  returns (from_buf count) s (fun bs s' => (ready s -> ready s') /\ moved bs [] s s' /\ bs = take count (unread (lnk s)) /\ net s' = net s).
Proof.
  intros Hw. pose proof (from_buf_spec count s Hw) as Hs. apply (returns_mono _ _ (fun bs s' => (ready s -> ready s') /\
    (moved bs [] s s' /\ bs = take count (unread (lnk s)) /\ unread (lnk s') = drop count (unread (lnk s)) /\ net s' = net s))); [|naive_solver].
  eapply returns_spec; [|exact Hs]. unfold from_buf. apply returns_get. case_bool_decide; [by apply returns_ret|]. case_bool_decide; [|by apply returns_ret].
  apply returns_lnk. unfold returns, ready. cbn. by case_bool_decide.
Qed.

Lemma recv_ready count s : ready s -> recvs (net s) <> [] ->
  returns (recv count) s (fun r s' => ready s' /\ length (recvs (net s)) = S (length (recvs (net s'))) /\ heard r count s s' /\
    (inp (net s) <> [] -> (0 < count)%nat -> 0 < r.1)).
Proof.
  intros (Hs & Hf & Hr) Hne. pose proof (recv_spec count s) as Hspec.
  apply (returns_mono _ _ (fun r s' => (ready s' /\ length (recvs (net s)) = S (length (recvs (net s'))) /\ (inp (net s) <> [] -> (0 < count)%nat -> 0 < r.1)) /\ heard r count s s')); [|naive_solver].
  eapply returns_spec; [|exact Hspec]. unfold returns, recv. rewrite (proj2 (Z.ltb_ge _ _)) by lia.
  destruct (recvs (net s)) as [|a r]; [done|]. apply Forall_cons in Hr as [Ha Hr]. destruct a as [[|n]|]; [done| |done].
  split; [done|]. split; [done|]. intros Hi Hc. destruct (inp (net s)); [done|]. cbn [fst]. destruct count; [lia|]. cbn [Nat.min take length]. lia.
Qed.

Lemma recv_ahead_ready count s : ready s -> recvs (net s) <> [] -> link_wf (lnk s) -> (eof (lnk s) + count <= length (buffer (lnk s)))%nat ->
  returns (recv_ahead count) s (fun _ s' => ready s' /\ length (recvs (net s)) = S (length (recvs (net s'))) /\ moved [] [] s s').
Proof.
  intros Hr Hne Hw Hc. pose proof (recv_ahead_spec count s Hw Hc) as Hspec.
  apply (returns_mono _ _ (fun r s' => (ready s' /\ length (recvs (net s)) = S (length (recvs (net s')))) /\ moved [] [] s s')); [|naive_solver].
  eapply returns_spec; [|exact Hspec]. unfold recv_ahead. eapply returns_bind; [by apply recv_ready|].
  intros [len bs] s1 (Hr1 & Hn & _). unfold returns, set_lnk. cbn. split; [|done]. unfold ready in *. cbn. by destruct (0 <? len).
Qed.

Lemma buf_read_ready count s : ready s -> link_wf (lnk s) -> (0 < count)%nat -> recvs (net s) <> [] -> pending s <> [] ->
  returns (buf_read count) s (fun r s' => ready s' /\ 0 < r.1 /\ moved r.2 [] s s' /\ read_result count r /\
    (length (recvs (net s)) <= S (length (recvs (net s'))))%nat).
Proof.
  intros Hr Hw Hc Hne Hp. pose proof (buf_read_spec count s Hw Hc) as Hspec.
  apply (returns_mono _ _ (fun r s' => (ready s' /\ 0 < r.1 /\ (length (recvs (net s)) <= S (length (recvs (net s'))))%nat) /\
    (moved r.2 [] s s' /\ read_result count r /\ (0 < r.1 \/ (length (recvs (net s')) < length (recvs (net s)))%nat \/ r.1 = -1 /\ errno (net s') = EBADF)))); [|naive_solver].
  eapply returns_spec; [|exact Hspec]. unfold buf_read. rewrite bool_decide_false by lia.
  eapply returns_bind; [by apply from_buf_ready|]. intros bs s1 (Hr1 & H1 & Hbs & Hn1). specialize (Hr1 Hr). case_bool_decide as Hb.
  - unfold returns. cbn. split; [done|]. rewrite Hn1. split; [destruct bs; [done|cbn; lia]|lia].
  - assert (bs = []) as -> by (destruct bs; [done|by destruct Hb]).
    assert (unread (lnk s) = []) as Hu by (destruct (unread (lnk s)), count; [done|done|lia|done]).
    unfold pending in Hp. rewrite Hu in Hp. cbn [app] in Hp. rewrite <- Hn1 in Hp, Hne.
    apply returns_get. cbn [recv_loop].
    eapply returns_bind; [by apply recv_ready|]. intros [len bs] s2 (Hr2 & Hn2 & Hh & Hpos). specialize (Hpos Hp Hc). cbn [fst snd] in *.
    apply returns_get. rewrite (proj2 (Z.eqb_neq len (-1))) by lia. cbn. split; [done|]. split; [done|]. rewrite <- Hn1. lia.
Qed.

Lemma pending_length got sent s s' : carried got sent s s' -> link_wf (lnk s) -> length (pending s) = (length got + length (pending s'))%nat.
Proof. intros H Hw. rewrite (mv_in _ _ _ _ H Hw). by rewrite length_app. Qed.

Lemma read_loop_ready length_ fuel : forall stored s, ready s -> link_wf (lnk s) -> (length stored <= length_)%nat ->
  (length_ - length stored + length (recvs (net s)) < fuel)%nat ->
  (length_ - length stored <= length (pending s))%nat -> (length_ - length stored <= length (recvs (net s)))%nat ->
  returns (read_loop fuel length_ stored) s (fun r s' => ready s' /\ r.1 = Z.of_nat length_ /\
    (length (recvs (net s)) <= length (recvs (net s')) + (length_ - length stored))%nat).
Proof.
  induction fuel as [|fuel IH]; intros stored s Hr Hw Hl Hf Hp Hn; [lia|]. cbn [read_loop]. case_bool_decide as Hlt.
  2:{ apply returns_lnk, returns_ret. cbn [fst net]. split; [done|]. split; lia. }
  eapply returns_bind; [apply buf_read_ready; [done|done|lia| |]|].
  { intros E. rewrite E in Hn. cbn in Hn. lia. }
  { intros E. rewrite E in Hp. cbn in Hp. lia. }
  intros [len bs] s1 (Hr1 & Hpos & H1 & Hres & Hn1). cbn [fst snd] in *. apply returns_get.
  rewrite (proj2 (Z.eqb_neq len (-1))) by lia. cbn [andb]. rewrite (proj2 (Z.ltb_lt 0 len)) by lia.
  destruct Hres as [[Hlen Hle]|[? _]]; cbn [fst snd] in *; [|lia].
  pose proof (pending_length _ _ _ _ (moved_carried _ _ _ _ H1) Hw) as Hpl. pose proof (mv_recvs _ _ _ _ H1).
  eapply returns_mono; [apply IH; [done|by apply (mv_wf _ _ _ _ H1)|rewrite length_app; lia..]|]. cbv beta.
  intros r s' (? & ? & ?). rewrite length_app in *. split; [done|]. split; [done|lia].
Qed.

Lemma stream_read_ready n s : ready s -> link_wf (lnk s) -> (n <= length (pending s))%nat -> (n <= length (recvs (net s)))%nat ->
  returns (dsi_stream_read n) s (fun r s' => ready s' /\ r.1 = Z.of_nat n /\ length r.2 = n /\ moved r.2 [] s s' /\
    (length (recvs (net s)) <= length (recvs (net s')) + n)%nat).
Proof.
  intros Hr Hw Hp Hn. apply (returns_mono _ _ (fun r s' => (ready s' /\ r.1 = Z.of_nat n /\ (length (recvs (net s)) <= length (recvs (net s')) + n)%nat) /\
    (moved r.2 [] s s' /\ read_done n r))).
  - eapply returns_spec; [|by apply dsi_stream_read_spec]. unfold dsi_stream_read. apply returns_get.
    destruct Hr as (? & Hf & ?). rewrite Hf. eapply returns_mono; [apply read_loop_ready; [done|done|cbn; lia..]|]. cbn. intros r s'. rewrite Nat.sub_0_r. done.
  - intros r s' H. destruct H as [(? & Hrn & ?) [? [Hle Hd]]]. split; [done|]. split; [done|]. split; [|done]. destruct Hd as [[_ ?]|?]; [done|lia].
Qed.

Lemma buffered_read_ready n s : ready s -> link_wf (lnk s) -> (n <= length (pending s))%nat -> (n < length (recvs (net s)))%nat ->
  returns (dsi_buffered_stream_read n) s (fun r s' => ready s' /\ r.1 = Z.of_nat n /\ length r.2 = n /\ moved r.2 [] s s' /\
    (length (recvs (net s)) <= length (recvs (net s')) + S n)%nat).
Proof.
  intros Hr Hw Hp Hn. apply (returns_mono _ _ (fun r s' => (ready s' /\ r.1 = Z.of_nat n /\ length r.2 = n /\ (length (recvs (net s)) <= length (recvs (net s')) + S n)%nat) /\
    (moved r.2 [] s s' /\ read_done n r))); [|naive_solver]. eapply returns_spec; [|by apply dsi_buffered_stream_read_spec].
  unfold dsi_buffered_stream_read. eapply returns_bind; [by apply from_buf_ready|]. intros bs s1 (Hr1 & H1 & Hbs & Hn1). specialize (Hr1 Hr).
  apply returns_lnk. set (s2 := St _ _ _). assert (ready s2) as Hr2 by done.
  assert (moved bs [] s s2) as H2 by (eapply moved_trans1; [exact H1|by apply (moved_lnk (add_read (zlen bs)))]).
  assert (recvs (net s2) = recvs (net s)) as Hn2 by (cbn; by rewrite Hn1).
  case_bool_decide as Hlen; [apply returns_ret; cbn [fst snd]; rewrite Hn2; split; [done|]; split; [by rewrite Hlen|]; split; [done|lia]|].
  assert (length bs < n)%nat as Hlt by (rewrite Hbs, length_take in *; lia). apply returns_get.
  assert (forall s3, ready s3 -> moved bs [] s s3 -> (length (recvs (net s)) <= S (length (recvs (net s3))))%nat ->
    returns ('(k, rest) ← dsi_stream_read (n - length bs);
      if negb (k =? Z.of_nat (n - length bs)) then mret (0, bs ++ rest) else mret (zlen bs + k, bs ++ rest)) s3
      (fun r s' => ready s' /\ r.1 = Z.of_nat n /\ length r.2 = n /\ (length (recvs (net s)) <= length (recvs (net s')) + S n)%nat)) as Hrest.
  { intros s3 Hr3 H3 Hn3. pose proof (pending_length _ _ _ _ (moved_carried _ _ _ _ H3) Hw). pose proof (mv_recvs _ _ _ _ H3).
    eapply returns_bind; [apply stream_read_ready; [done|by apply (mv_wf _ _ _ _ H3)|lia|lia]|].
    intros [k rest] s4 (Hr4 & Hk & Hl & H4 & Hn4). cbn [fst snd] in *. rewrite Hk, Z.eqb_refl. apply returns_ret. cbn [fst snd]. rewrite length_app.
    split; [done|]. split; [lia|]. split; lia. }
  case_bool_decide as Hb.
  - apply (returns_bind _ _ _ (fun _ s3 => ready s3 /\ moved bs [] s s3 /\ (length (recvs (net s)) <= S (length (recvs (net s3))))%nat));
      [|intros [] s3 (Hr3 & H3 & Hn3); apply (Hrest s3 Hr3 H3 Hn3)].
    eapply returns_bind; [apply recv_ahead_ready; [done|rewrite Hn2; intros E; rewrite E in Hn; cbn in Hn; lia|by apply (mv_wf _ _ _ _ H2)|]|].
    + pose proof (mv_wf _ _ _ _ H2 Hw) as Hw2. unfold link_wf in Hw2. cbn [lnk s2 add_read eof buffer] in *. lia.
    + intros z s3 (Hr3 & Hn3 & H3). apply returns_ret. split; [done|]. split; [by eapply moved_trans1|]. rewrite Hn2 in Hn3. lia.
  - apply (returns_bind _ _ _ (fun _ s' => s' = s2)); [by apply returns_ret|]. intros [] s3 ->. apply Hrest; [done|done|rewrite Hn2; lia].
Qed.

Lemma carried_front got rest s s' : carried got [] s s' -> link_wf (lnk s) -> pending s = rest -> got = take (length got) rest /\ pending s' = drop (length got) rest.
Proof. intros H Hw <-. rewrite (mv_in _ _ _ _ H Hw). by rewrite take_app_length, drop_app_length. Qed.

(** A request that lies ready is taken. *)
Lemma receive_ready block body rest s : ready s -> link_wf (lnk s) -> buffers_ok (ses s) -> pending s = block ++ body ++ rest ->
  length block = DSI_BLOCKSIZ -> dsi_command (parse_block block) <> 0 -> frame_cmdlen (parse_block block) (server_quantum (ses s)) = Some (zlen body) ->
  (17 + length body <= length (recvs (net s)))%nat ->
  returns dsi_stream_receive s (fun r s' => r = schar (dsi_command (parse_block block)) /\ ready s' /\ received block body s s' /\
    (length (recvs (net s)) <= length (recvs (net s')) + (17 + length body))%nat).
Proof.
  intros Hr Hw [Hq Hc] Hp Hlb Hcmd Hfl Hn. unfold DSI_BLOCKSIZ in *. pose proof (frame_cmdlen_bound _ _ _ Hfl) as Hbound. unfold dsi_stream_receive. apply returns_get.
  rewrite (proj1 (proj2 Hr)). eapply returns_bind; [apply (buffered_read_ready 16); [done|done|rewrite Hp, !length_app; lia|lia]|].
  intros [k b1] s1 (Hr1 & Hk & Hl1 & H1 & Hn1). cbn [fst snd] in *. pose proof (mv_ses _ _ _ _ H1) as Hs1. apply moved_carried in H1.
  destruct (carried_front _ _ _ _ H1 Hw Hp) as [Hb1 Hp1]. rewrite Hl1, take_app_le, take_ge in Hb1 by lia. subst b1.
  rewrite Hl1, <- Hlb, drop_app_length in Hp1. rewrite Hk. cbn [negb Z.eqb Pos.eqb Z.of_nat Pos.of_succ_nat Pos.succ].
  rewrite (proj2 (Z.eqb_neq _ 0)) by done. do 2 apply returns_ses. rewrite Hfl. apply returns_ses.
  set (s2 := St _ _ _).
  apply (returns_bind _ _ _ (fun r s' => r = zlen body /\ ready s' /\ carried (block ++ body) [] s s' /\
    ses s' = with_commands (blit 0 body (commands (ses s))) (zlen body) (ses s2) /\ (length (recvs (net s1)) <= length (recvs (net s')) + length body)%nat)).
  - unfold read_commands. apply returns_get. cbn [ses s2 commands with_commands with_header with_clientID]. rewrite Hs1.
    rewrite (proj2 (Z.ltb_ge _ _)) by lia. rewrite Nat2Z.id.
    eapply returns_bind; [apply stream_read_ready; [done|exact (carried_wf _ _ _ _ H1 Hw)| |cbn; lia]|].
    { change (pending s2) with (pending s1). rewrite Hp1, length_app. lia. }
    intros [m b2] s3 (Hr3 & Hm & Hl3 & H3 & Hn3). cbn [fst snd] in *.
    destruct (carried_front _ _ _ _ (moved_carried _ _ _ _ H3) (carried_wf _ _ _ _ H1 Hw) Hp1) as [Hb2 _].
    rewrite Hl3, take_app_length in Hb2. subst b2. apply returns_ses, returns_ret. cbn [ses]. split; [done|]. split; [done|].
    split; [apply (carried_trans _ _ [] [] _ s2); [done|exact (moved_carried _ _ _ _ H3)]|]. rewrite (mv_ses _ _ _ _ H3). split; [|exact Hn3].
    cbn [ses s2 with_commands commands cmdlen header]. by rewrite Hs1.
  - intros r s' (-> & Hr' & Hcar & Hses & Hn'). rewrite Z.eqb_refl. apply returns_ret. split; [done|]. split; [done|].
    split; [|lia]. split; rewrite ?Hses; cbn; try done.
    + apply take_blit_0. lia.
    + rewrite length_blit; [done|lia].
    + by rewrite Hs1.
    + by rewrite Hs1.
Qed.

(** ** The payload of a write *)

(** The fields a transfer of the payload keeps. *)
Definition keeps (s s' : st) : Prop :=
  header (ses s') = header (ses s) /\ server_quantum (ses s') = server_quantum (ses s) /\ length (commands (ses s')) = length (commands (ses s)).

(** The payload bytes the header of a write announces. *)
Definition payload_size (h : dsi_block) : Z := ntohl (dsi_len h) - dsi_data h.

Definition write_header (h : dsi_block) : Prop := 0 <= dsi_data h <= ntohl (dsi_len h).

Lemma payload_size_range h : write_header h -> 0 <= payload_size h < 2 ^ 32.
Proof. unfold write_header, payload_size. pose proof (bswap32_range (dsi_len h)). unfold ntohl in *. lia. Qed.

Lemma writeinit_from_buf s : link_wf (lnk s) -> write_header (header (ses s)) ->
  dsi_writeinit s =
  match from_buf (Z.to_nat (payload_size (header (ses s)))) s with
  | Ret bs s' => Ret bs (St (with_datasize (payload_size (header (ses s)) - zlen bs) (ses s')) (lnk s') (net s'))
  | r => r
  end.
Proof.
  intros Hw Hh. pose proof (payload_size_range _ Hh) as Hr. unfold dsi_writeinit, from_buf, get, set_ses, set_lnk, mbind, M_bind, mret, M_ret.
  destruct Hh as [Hd Hl]. rewrite (proj2 (Z.ltb_ge _ _)) by lia. fold (payload_size (header (ses s))). set (size := payload_size _) in *.
  unfold link_wf in Hw. case_bool_decide as Hse; cbn [ses lnk net].
  - rewrite (bool_decide_false (buffer (lnk s) = [])) by (intros E; rewrite E in Hw; cbn in Hw; lia).
    rewrite (bool_decide_true (0 < eof (lnk s) - start (lnk s))%nat) by lia. cbn [ses lnk net].
    set (n := Nat.min _ _).
    assert (length (take n (drop (start (lnk s)) (buffer (lnk s)))) = n) as -> by (rewrite length_take, length_drop; unfold n; lia).
    f_equal. f_equal. destruct (decide (eof (lnk s) = start (lnk s) + n)%nat).
    + by rewrite !bool_decide_true by lia.
    + rewrite !bool_decide_false; [done|lia|unfold n in *; lia].
  - assert (start (lnk s) = eof (lnk s)) as E by lia. rewrite E, Nat.sub_diag. rewrite (bool_decide_false (0 < 0)%nat) by lia.
    assert (forall d : dsi, with_datasize size d = with_datasize (size - zlen (@nil Z)) d) as Ed by (intros d; f_equal; cbn; lia).
    case_bool_decide; cbn [ses lnk net]; by rewrite <- Ed.
Qed.

Lemma writeinit_spec s : link_wf (lnk s) -> write_header (header (ses s)) ->
  returns dsi_writeinit s (fun bs s' => carried bs [] s s' /\ keeps s s' /\ zlen bs + datasize (ses s') = payload_size (header (ses s)) /\
    0 <= datasize (ses s') /\ (ready s -> ready s') /\ net s' = net s /\ data (ses s') = data (ses s)).
Proof.
  intros Hw Hh. pose proof (payload_size_range _ Hh). pose proof (from_buf_ready (Z.to_nat (payload_size (header (ses s)))) s Hw) as Hf.
  unfold returns in *. rewrite writeinit_from_buf by done. destruct (from_buf _ s) as [bs s'|code s'|s'|]; [|done|done|done].
  destruct Hf as (Hr & Hm & Hbs & Hn). cbn [ses with_datasize datasize]. pose proof (mv_ses _ _ _ _ Hm) as Hs.
  split; [exact (moved_carried _ _ _ _ Hm)|]. unfold keeps. cbn. rewrite Hs. split; [done|].
  assert (length bs <= Z.to_nat (payload_size (header (ses s))))%nat by (rewrite Hbs, length_take; lia).
  split; [lia|]. split; [lia|]. done.
Qed.

Lemma dsi_write_spec buflen s : link_wf (lnk s) -> 0 <= datasize (ses s) < 2 ^ 32 ->
  spec (dsi_write buflen) s (fun bs s' =>
    bs <> [] /\ carried bs [] s s' /\ keeps s s' /\ zlen bs <= datasize (ses s) /\ (length bs <= buflen)%nat /\ datasize (ses s') = datasize (ses s) - zlen bs \/
    bs = [] /\ ses s' = ses s /\ (exists got, carried got [] s s') /\ (datasize (ses s) = 0 -> s' = s)) (fun s' => exists got, carried got [] s s').
Proof.
  intros Hw Hd. unfold dsi_write. step. case_bool_decide as Hn.
  - eapply spec_then; [by apply dsi_stream_read_spec|intros s' [got ?]; exists got; by apply moved_carried|].
    intros [n bs] s1 (H1 & Hle & Hr). cbn [fst snd] in *. pose proof (mv_ses _ _ _ _ H1) as Hs1. apply moved_carried in H1. destruct (0 <? n) eqn:En.
    + destruct Hr as [[-> Hl]| ->]; [|done]. step. apply spec_ret. left. rewrite Hs1. cbn [ses with_datasize datasize].
      split; [intros ->; cbn in *; lia|]. split; [exact H1|]. split; [done|]. rewrite Hl. split; [lia|]. split; [lia|]. apply wrap_small. lia.
    + apply spec_ret. right. split; [done|]. split; [done|]. split; [by exists bs|]. lia.
  - apply spec_ret. right. split; [done|]. split; [done|]. split; [exists []; apply moved_carried, moved_refl|done].
Qed.

(** The session took [got] and the file received [put]; the other fields are free. *)
Definition refile (w w' : world) : world :=
  World (inp w') (outp w') (recvs w') (sends w') (sels w') (polls w') (writes w) (filed w) (errno w').

Definition stored (got put : list Z) (s s' : st) : Prop :=
  moved got [] s (St (ses s) (lnk s') (refile (net s) (net s'))) /\ filed (net s') = filed (net s) ++ put.

Lemma carried_stored got s s' : carried got [] s s' -> stored got [] s s'.
Proof. intros H. destruct H. split; [split; auto|]. rewrite app_nil_r. apply mv_file. Qed.

Lemma stored_trans g1 g2 p1 p2 s s1 s2 : stored g1 p1 s s1 -> stored g2 p2 s1 s2 -> stored (g1 ++ g2) (p1 ++ p2) s s2.
Proof.
  intros [H1 F1] [H2 F2]. split; [|by rewrite F2, F1, app_assoc].
  apply (moved_trans _ _ [] [] _ _ _ H1). destruct H2. split; auto.
Qed.

Lemma stored_from d g p s1 s2 : stored g p (St d (lnk s1) (net s1)) s2 -> stored g p s1 s2.
Proof. intros [H F]. split; [|done]. destruct H. split; auto. Qed.

Lemma stored_refl s : stored [] [] s s.
Proof. apply carried_stored, moved_carried, moved_refl. Qed.

Lemma stored_wf g p s s' : stored g p s s' -> link_wf (lnk s) -> link_wf (lnk s').
Proof. intros [H _]. apply (mv_wf _ _ _ _ H). Qed.

Lemma stored_recvs g p s s' : stored g p s s' -> (length (recvs (net s')) <= length (recvs (net s)))%nat.
Proof. intros [H _]. apply (mv_recvs _ _ _ _ H). Qed.

Lemma fork_error_spec w s B : spec (fork_error w) s (fun r s' => r < 0 /\ s' = s) B.
Proof. unfold fork_error. step. apply spec_ret. split; [|done]. by repeat case_match. Qed.

(** The answers to [recv] and the connection are as before. *)
Definition same_net (s s' : st) : Prop := recvs (net s') = recvs (net s) /\ lnk s' = lnk s.

Lemma write_file_spec fuel : forall bs s, (length bs <= fuel)%nat ->
  spec (write_file_loop fuel bs) s
    (fun r s' => ses s' = ses s /\ same_net s s' /\ (r = AFP_OK /\ stored [] bs s s' \/ r < 0 /\ exists put, put `prefix_of` bs /\ stored [] put s s'))
    (fun s' => writes (net s') = []).
Proof.
  induction fuel as [|fuel IH]; intros bs s Hf; cbn [write_file_loop].
  { destruct bs; [|cbn in Hf; lia]. rewrite bool_decide_false by (intros H; by apply H). apply spec_ret. split; [done|]. split; [done|]. left. split; [done|apply stored_refl]. }
  case_bool_decide as Hne.
  2:{ assert (bs = []) as -> by (destruct bs; [done|by destruct Hne]). apply spec_ret. split; [done|]. split; [done|]. left. split; [done|apply stored_refl]. }
  assert (spec (ad_write bs) s (fun cc s1 => ses s1 = ses s /\ same_net s s1 /\
    (cc = -1 /\ stored [] [] s s1 \/ 0 <= cc <= zlen bs /\ stored [] (take (Z.to_nat cc) bs) s s1)) (fun s' => writes (net s') = [])) as Hw.
  { unfold spec, ad_write. destruct (writes (net s)) as [|[n|e] r] eqn:Er; [done| |].
    - split; [done|]. split; [done|]. right. split; [rewrite length_take; lia|]. split; [|cbn].
      + destruct (moved_refl s). split; auto.
      + rewrite Nat2Z.id. f_equal. rewrite length_take. destruct (decide (n <= length bs)%nat); [f_equal; lia|by rewrite !take_ge by lia].
    - split; [done|]. split; [done|]. left. split; [done|]. split; [destruct (moved_refl s); split; auto|cbn; by rewrite app_nil_r]. }
  eapply spec_then; [exact Hw|done|]. intros cc s1 (Hs1 & Hn1 & Hcc). destruct (cc <=? 0) eqn:Ec.
  - assert (stored [] [] s s1) as H1.
    { destruct Hcc as [[_ ?]|[Hc H1]]; [done|]. bool_cases. replace (Z.to_nat cc) with O in H1 by lia. by rewrite take_0 in H1. }
    apply spec_bind. assert (forall s2, ses s2 = ses s1 -> same_net s1 s2 -> stored [] [] s1 s2 -> spec (fork_error true) s2
      (fun r s' => ses s' = ses s /\ same_net s s' /\ (r = AFP_OK /\ stored [] bs s s' \/ r < 0 /\ exists put, put `prefix_of` bs /\ stored [] put s s'))
      (fun s' => writes (net s') = [])) as Hfe.
    { intros s2 Hs2 Hn2 H2. eapply spec_mono; [apply (fork_error_spec _ _ (fun _ => False))|..]; cbv beta; [|done]. intros r s' [Hr ->].
      split; [congruence|]. split; [destruct Hn1, Hn2; split; congruence|]. right. split; [done|]. exists []. split; [apply prefix_nil|].
      apply (stored_trans [] [] [] [] _ _ _ H1 H2). }
    destruct (cc =? 0); [apply spec_errno|apply spec_ret]; apply Hfe; try done; [|apply stored_refl].
    apply carried_stored, moved_carried, moved_errno.
  - bool_cases. destruct Hcc as [[? _]|[Hc H1]]; [lia|].
    eapply spec_mono; [apply IH; rewrite length_drop; lia|..]; cbv beta; [|done]. intros r s' (Hs' & Hn' & Hr).
    split; [congruence|]. split; [destruct Hn1, Hn'; split; congruence|].
    destruct Hr as [[-> H2]|[Hr (put & [t Ht] & H2)]]; pose proof (stored_trans _ _ _ _ _ _ _ H1 H2) as H12; cbn [app] in H12.
    + left. rewrite take_drop in H12. done.
    + right. split; [done|]. eexists. split; [|exact H12]. exists t. by rewrite <- app_assoc, <- Ht, take_drop.
Qed.

Lemma flush_spec fuel : forall s, link_wf (lnk s) -> datasize (ses s) < 2 ^ 32 -> (Z.to_nat (datasize (ses s)) <= fuel)%nat ->
  spec (flush_loop fuel) s (fun _ _ => True) (fun _ => True).
Proof.
  induction fuel as [|fuel IH]; intros s Hw Hd Hf; cbn [flush_loop]; step; (destruct (0 <? _) eqn:E; [|by apply spec_ret]); bool_cases; [lia|].
  eapply spec_then; [by apply dsi_stream_read_spec|done|]. intros [n bs] s1 (H1 & Hle & Hr). cbn [fst snd] in *. step.
  destruct (0 <? n) eqn:En; [|by apply spec_ret]. step. unfold DSI_DATASIZ in *. bool_cases. destruct Hr as [[-> Hl]|?]; [|lia].
  rewrite (mv_ses _ _ _ _ H1). pose proof (mv_wf _ _ _ _ H1 Hw). cbn [ses datasize with_datasize with_data].
  apply IH; cbn [ses lnk datasize with_datasize with_data]; [done|apply wrap_range; lia|]. rewrite (wrap_small 32) by lia. lia.
Qed.

Section payload.
Context (s0 : st) (size : Z) (Hw0 : link_wf (lnk s0)).

Lemma payload_loop_spec fuel : forall s put, stored put put s0 s -> zlen put + datasize (ses s) = size ->
  0 <= datasize (ses s) < 2 ^ 32 -> 0 < server_quantum (ses s) -> datasize (ses s) < Z.of_nat fuel ->
  spec (payload_loop fuel) s (fun r s' => r = AFP_OK /\ (exists p, zlen p = size /\ stored p p s0 s') \/
    r < 0 /\ link_wf (lnk s') /\ datasize (ses s') < 2 ^ 32) (fun _ => True).
Proof.
  induction fuel as [|fuel IH]; intros s put Hst Hsz Hd Hq Hf; [lia|]. cbn [payload_loop]. step.
  pose proof (stored_wf _ _ _ _ Hst Hw0) as Hw. eapply spec_then; [by apply dsi_write_spec|done|]. intros bs s1 Hbs. step.
  destruct Hbs as [(Hne & H1 & Hk & Hle & Hlq & Hd1)|(-> & Hs1 & [got H1] & Hz)].
  - rewrite bool_decide_true by done. apply carried_stored in H1.
    eapply spec_then; [apply write_file_spec; done|done|]. intros err s2 (Hs2 & Hn2 & Herr).
    pose proof (stored_trans _ _ _ _ _ _ _ Hst H1) as H01. rewrite app_nil_r in H01.
    cbn [lnk] in Hn2. assert (link_wf (lnk s2)) as Hw2 by (rewrite (proj2 Hn2); apply (stored_wf _ _ _ _ H01 Hw0)).
    assert (datasize (ses s2) = datasize (ses s1) /\ server_quantum (ses s2) = server_quantum (ses s)) as [Hd2 Hq2]
      by (rewrite Hs2; cbn; split; [done|apply Hk]).
    destruct Herr as [[-> H2]|[Hneg (p & Hp & H2)]].
    + cbn [Z.ltb Z.compare AFP_OK]. apply stored_from in H2. pose proof (stored_trans _ _ _ _ _ _ _ H01 H2) as H02. rewrite app_nil_r in H02.
      assert (0 < zlen bs) by (destruct bs; [done|cbn; lia]).
      apply (IH _ (put ++ bs)); [done|rewrite length_app; lia|lia|lia|lia].
    + rewrite (proj2 (Z.ltb_lt err 0)) by done. apply spec_ret. right. split; [done|]. split; [done|lia].
  - rewrite bool_decide_false by (intros H; by apply H). step. cbn [with_commands datasize]. rewrite Hs1.
    assert (link_wf (lnk s1)) as Hw1 by (by apply (carried_wf _ _ _ _ H1)).
    destruct (0 <? datasize (ses s)) eqn:E.
    + apply spec_bind. destruct (negb _); [apply spec_errno|apply spec_ret]; (eapply spec_mono; [apply (fork_error_spec _ _ (fun _ => False))|..]; cbv beta; [|done]);
        intros r s' [Hr ->]; right; (split; [done|]); cbn; (split; [done|]); rewrite ?Hs1; lia.
    + bool_cases. apply spec_ret. left. split; [done|]. exists put. split; [lia|].
      rewrite (Hz ltac:(lia)). exact Hst.
Qed.
End payload.

Lemma write_payload_spec reqcount s : link_wf (lnk s) -> write_header (header (ses s)) -> 0 < server_quantum (ses s) ->
  spec (write_payload reqcount) s (fun r s' => r = AFP_OK /\ payload_size (header (ses s)) <= reqcount /\
      (exists p, zlen p = payload_size (header (ses s)) /\ stored p p s s') \/ r < 0) (fun _ => True).
Proof.
  intros Hw Hh Hq. pose proof (payload_size_range _ Hh). unfold write_payload.
  assert (spec dsi_writeinit s (fun bs s' => carried bs [] s s' /\ keeps s s' /\ zlen bs + datasize (ses s') = payload_size (header (ses s)) /\ 0 <= datasize (ses s'))
    (fun _ => True)) as Hinit by (pose proof (writeinit_spec s Hw Hh) as H'; unfold returns in H'; unfold spec; destruct (dsi_writeinit s); naive_solver).
  eapply spec_then; [exact Hinit|done|]. intros wbuf s1 (H1 & Hk & Hsz & Hd). step. apply carried_stored in H1.
  eapply (spec_then _ _ _ (fun r s' => r = AFP_OK /\ payload_size (header (ses s)) <= reqcount /\ (exists p, zlen p = payload_size (header (ses s)) /\ stored p p s s') \/
    r < 0 /\ link_wf (lnk s') /\ datasize (ses s') < 2 ^ 32) (fun _ => True)); [|done|].
  - pose proof (stored_wf _ _ _ _ H1 Hw) as Hw1. destruct (negb _) eqn:E; [apply spec_ret; right; split; [done|]; split; [done|lia]|]. bool_cases.
    eapply spec_then; [apply write_file_spec; done|done|]. intros err s2 (Hs2 & Hn2 & Herr). destruct Herr as [[-> H2]|[Hneg _]].
    + cbn [Z.ltb Z.compare AFP_OK]. pose proof (stored_trans _ _ _ _ _ _ _ H1 H2) as H02. rewrite app_nil_r in H02. cbn [app] in H02.
      eapply spec_mono; [apply (payload_loop_spec s (payload_size (header (ses s))) Hw _ _ wbuf); [done|rewrite Hs2; lia|rewrite Hs2; lia| |rewrite Hs2; lia]|..]; cbv beta.
      * rewrite Hs2. destruct Hk as (_ & -> & _). done.
      * intros r s' [[-> ?]|?]; [left; split; [done|]; split; [lia|done]|by right].
      * done.
    + rewrite (proj2 (Z.ltb_lt err 0)) by done. apply spec_ret. right. split; [done|]. rewrite (proj2 Hn2), Hs2. split; [done|lia].
  - intros err s2 [(-> & Hrq & Hp)|(Hneg & Hw2 & Hd2)].
    + cbn [Z.ltb Z.compare AFP_OK]. eapply (spec_then _ _ _ (fun _ s' => s' = s2) (fun _ => False)); [by apply spec_ret|done|]. intros _ s' ->.
      apply spec_ret. by left.
    + rewrite (proj2 (Z.ltb_lt err 0)) by done. unfold dsi_writeflush. apply spec_bind. apply spec_bind, spec_get.
      eapply spec_mono; [apply flush_spec; [done|done|lia]|..]; cbv beta; [|done]. intros _ s' _. apply spec_ret. by right.
Qed.

(** ** A write on a kernel that delivers *)

(** The session has taken [got] of a payload of [size] bytes since [s0], the file has
    [put], and the rest is on its way. *)
Record synced (s0 : st) (size : Z) (got put : list Z) (s : st) : Prop := {
  sy_stored : stored got put s0 s;
  sy_size : zlen got + datasize (ses s) = size;
  sy_left : 0 <= datasize (ses s);
  sy_ready : ready s;
  sy_pending : datasize (ses s) <= zlen (pending s);
  sy_recvs : datasize (ses s) <= zlen (recvs (net s))
}.

Lemma returns_weaken {A} (m : M A) s Q B : returns m s Q -> spec m s Q B.
Proof. unfold returns, spec. by destruct (m s). Qed.

Lemma dsi_write_ready buflen s : ready s -> link_wf (lnk s) -> datasize (ses s) < 2 ^ 32 -> datasize (ses s) <= zlen (pending s) ->
  datasize (ses s) <= zlen (recvs (net s)) -> (0 < buflen)%nat -> 0 < datasize (ses s) ->
  returns (dsi_write buflen) s (fun bs s' => bs <> [] /\ ready s' /\ carried bs [] s s' /\ keeps s s' /\ zlen bs <= datasize (ses s) /\
    datasize (ses s') = datasize (ses s) - zlen bs /\ zlen (recvs (net s)) <= zlen (recvs (net s')) + zlen bs).
Proof.
  intros Hr Hw Hd Hp Hn Hb Hpos. unfold dsi_write. apply returns_get. rewrite bool_decide_true by lia.
  eapply returns_bind; [apply stream_read_ready; [done|done|lia|lia]|]. intros [n bs] s1 (Hr1 & Hn1 & Hl & H1 & Hrec). cbn [fst snd] in *.
  rewrite (proj2 (Z.ltb_lt 0 n)) by lia. apply returns_ses, returns_ret. cbn [ses with_datasize datasize]. rewrite (mv_ses _ _ _ _ H1).
  split; [intros ->; cbn in *; lia|]. split; [done|]. split; [exact (moved_carried _ _ _ _ H1)|].
  split; [unfold keeps; cbn; by rewrite ?(mv_ses _ _ _ _ H1)|]. split; [lia|]. split; [rewrite wrap_small by lia; lia|cbn; lia].
Qed.

Lemma flush_ready fuel : forall s, ready s -> link_wf (lnk s) -> 0 <= datasize (ses s) < 2 ^ 32 -> datasize (ses s) <= zlen (pending s) ->
  datasize (ses s) <= zlen (recvs (net s)) -> (Z.to_nat (datasize (ses s)) <= fuel)%nat ->
  returns (flush_loop fuel) s (fun _ s' => ready s' /\ keeps s s' /\ datasize (ses s') = 0 /\
    exists got, zlen got = datasize (ses s) /\ carried got [] s s' /\ zlen (recvs (net s)) <= zlen (recvs (net s')) + zlen got).
Proof.
  induction fuel as [|fuel IH]; intros s Hr Hw Hd Hp Hn Hf; cbn [flush_loop]; apply returns_get; destruct (0 <? datasize (ses s)) eqn:E; bool_cases; try lia.
  1,3: apply returns_ret; split; [done|]; split; [done|]; split; [lia|]; exists []; cbn; split; [lia|]; split; [apply moved_carried, moved_refl|lia].
  unfold DSI_DATASIZ. eapply returns_bind; [apply stream_read_ready; [done|done|lia|lia]|]. intros [n bs] s1 (Hr1 & Hn1 & Hl & H1 & Hrec). cbn [fst snd] in *.
  apply returns_ses. rewrite (proj2 (Z.ltb_lt 0 n)) by lia. apply returns_ses. cbn [ses datasize with_data with_datasize lnk net].
  rewrite (mv_ses _ _ _ _ H1). rewrite (wrap_small 32) by lia. set (s2 := St _ _ _).
  assert (carried bs [] s s2) as H2 by exact (moved_carried _ _ _ _ H1). pose proof (pending_length _ _ _ _ H2 Hw).
  eapply returns_mono; [apply IH; cbn [s2 ses lnk net datasize with_datasize with_data]; [done|exact (carried_wf _ _ _ _ H2 Hw)|lia|fold s2; lia|lia|lia]|].
  cbv beta. intros _ s' (Hr' & Hk & Hz & got & Hg & Hc & Hrec'). split; [done|]. split; [exact Hk|]. split; [done|].
  exists (bs ++ got). rewrite length_app. cbn [s2 ses net datasize with_datasize] in *. split; [lia|]. split; [by apply (carried_trans _ _ [] [] _ s2)|lia].
Qed.

Lemma payload_loop_ready s0 size fuel : link_wf (lnk s0) -> size < 2 ^ 32 -> forall s put, synced s0 size put put s ->
  0 < server_quantum (ses s) -> datasize (ses s) < Z.of_nat fuel ->
  spec (payload_loop fuel) s (fun r s' => exists got put, synced s0 size got put s' /\ put `prefix_of` got /\
      (r = AFP_OK /\ datasize (ses s') = 0 /\ put = got \/ r < 0)) (fun s' => writes (net s') = []).
Proof.
  intros Hw0 Hs32. induction fuel as [|fuel IH]; intros s put Hsy Hq Hf; [destruct Hsy; lia|]. destruct Hsy as [Hst Hsz Hd Hr Hp Hn].
  cbn [payload_loop]. step. pose proof (stored_wf _ _ _ _ Hst Hw0) as Hw. destruct (decide (datasize (ses s) = 0)) as [Hz|Hz].
  - eapply (spec_then _ _ _ (fun bs s' => bs = [] /\ s' = s) (fun _ => False)); [|done|].
    { unfold dsi_write. step. rewrite Hz. rewrite bool_decide_false by lia. by apply spec_ret. }
    intros bs s1 [-> ->]. step. rewrite bool_decide_false by (intros H; by apply H). step. cbn [with_commands datasize]. rewrite Hz. cbn [Z.ltb Z.compare].
    apply spec_ret. exists put, put. split; [|split; [done|left; split; [done|]; split; [done|done]]].
    split; cbn [ses lnk net datasize with_commands]; try done.
  - assert (0 < zlen put + datasize (ses s)) by lia.
    eapply (spec_then _ _ _ _ (fun _ => False)); [apply returns_weaken, dsi_write_ready; (done || lia)|done|]. intros bs s1 (Hne & Hr1 & H1 & Hk & Hle & Hd1 & Hrec). step.
    rewrite bool_decide_true by done. pose proof (pending_length _ _ _ _ H1 Hw) as Hpl. apply carried_stored in H1.
    eapply spec_then; [apply write_file_spec; done|done|]. intros err s2 (Hs2 & [Hn2 Hl2] & Herr). cbn [net lnk] in *.
    pose proof (stored_trans _ _ _ _ _ _ _ Hst H1) as H01. rewrite app_nil_r in H01.
    assert (forall p, stored [] p s1 s2 -> synced s0 size (put ++ bs) (put ++ p) s2) as Hsync.
    { intros p H2. pose proof (stored_trans _ _ _ _ _ _ _ H01 H2) as H02. rewrite app_nil_r in H02.
      split; rewrite ?Hs2; cbn [ses datasize with_commands]; [done|rewrite length_app; lia|lia| |..].
      - unfold ready in *. by rewrite Hn2, Hl2.
      - destruct H2 as [H2 _]. pose proof (mv_in _ _ _ _ H2) as Hin. rewrite Hin in Hpl by (apply (stored_wf _ _ _ _ H01 Hw0)). rewrite length_app in Hpl. cbn [length] in Hpl.
        change (pending (St (ses s1) (lnk s2) (refile (net s1) (net s2)))) with (pending s2) in Hpl. lia.
      - rewrite Hn2. lia. }
    destruct Herr as [[-> H2]|[Hneg (p & Hpre & H2)]]; apply stored_from in H2; specialize (Hsync _ H2).
    + cbn [Z.ltb Z.compare AFP_OK]. apply (IH s2 (put ++ bs)); [done|rewrite Hs2; cbn; destruct Hk as (_ & -> & _); done|].
      rewrite Hs2. cbn [ses datasize with_commands]. destruct bs; [done|cbn [length] in *; lia].
    + rewrite (proj2 (Z.ltb_lt err 0)) by done. apply spec_ret. exists (put ++ bs), (put ++ p). split; [done|]. split; [by apply prefix_app|by right].
Qed.

(** ** Requests in order *)

(** A request on the wire: its header and its whole payload, the data of a write included. *)
Record request := Req { rq_block : list Z; rq_payload : list Z }.

Definition wire (rq : request) : list Z := rq_block rq ++ rq_payload rq.

Definition request_ok (quantum : Z) (rq : request) : Prop :=
  length (rq_block rq) = DSI_BLOCKSIZ /\ Forall byte (rq_block rq) /\ dsi_command (parse_block (rq_block rq)) <> 0 /\
  ntohl (dsi_len (parse_block (rq_block rq))) = zlen (rq_payload rq) /\ frame_cmdlen (parse_block (rq_block rq)) quantum <> None.

(** What the server gets to see of it in the command buffer. *)
Definition rq_body (quantum : Z) (rq : request) : list Z :=
  match frame_cmdlen (parse_block (rq_block rq)) quantum with
  | Some n => take (Z.to_nat n) (rq_payload rq)
  | None => []
  end.

(** The session takes [n] requests and leaves the data of the writes unused. *)
Fixpoint serve (n : nat) : M (list (dsi_block * list Z)) :=
  match n with
  | O => mret []
  | S n =>
      r ← dsi_stream_receive;
      if r =? 0 then mret [] else
      s ← get;
      dsi_writedrain;;
      rest ← serve n;
      mret ((header (ses s), take (Z.to_nat (cmdlen (ses s))) (commands (ses s))) :: rest)
  end.

Lemma request_body quantum rq : request_ok quantum rq -> exists n, frame_cmdlen (parse_block (rq_block rq)) quantum = Some n /\
  rq_body quantum rq = take (Z.to_nat n) (rq_payload rq) /\ zlen (rq_body quantum rq) = n /\
  (if dsi_command (parse_block (rq_block rq)) =? DSIFUNC_WRITE then
     write_header (request_header (rq_block rq)) /\ payload_size (request_header (rq_block rq)) = zlen (drop (Z.to_nat n) (rq_payload rq))
   else drop (Z.to_nat n) (rq_payload rq) = []).
Proof.
  intros (_ & _ & _ & Hlen & Hf). unfold rq_body, request_header, write_header, payload_size. set (h := parse_block _) in *.
  destruct (frame_cmdlen h quantum) as [n|] eqn:E; [|done]. exists n. split; [done|]. split; [done|].
  unfold frame_cmdlen, DSI_WROFF_FPWRITE, DSI_WROFF_FPWRITEEXT in E. rewrite Hlen in E. cbn [dsi_command dsi_data dsi_len].
  destruct (dsi_command h =? DSIFUNC_WRITE); cbn [andb].
  - set (doff := if dsi_data h =? 0 then 12 else dsi_data h) in *. destruct (negb (doff =? 12) && negb (doff =? 20)) eqn:Ed; [done|].
    assert (doff = 12 \/ doff = 20) as Hd by (apply andb_false_iff in Ed as [Ed|Ed]; bool_cases; auto).
    destruct (zlen (rq_payload rq) <? doff) eqn:E1; [done|]. destruct (quantum <? _); [done|]. destruct (zlen (rq_payload rq) <? 1); [done|].
    injection E as <-. bool_cases.
    assert (0 <= doff) by lia. fold DSI_WROFF_FPWRITE in *. fold doff. rewrite length_take, length_drop, Hlen. lia.
  - destruct (quantum <? _); [done|]. destruct (_ && _); [done|]. injection E as <-. rewrite Nat2Z.id, length_take, drop_ge by lia. split; [lia|done].
Qed.

(** A write that is given up takes its whole payload. *)
Lemma writedrain_write s : ready s -> link_wf (lnk s) -> dsi_command (header (ses s)) = DSIFUNC_WRITE -> write_header (header (ses s)) ->
  payload_size (header (ses s)) <= zlen (pending s) -> payload_size (header (ses s)) <= zlen (recvs (net s)) ->
  returns dsi_writedrain s (fun _ s' => ready s' /\ keeps s s' /\
    (exists got, zlen got = payload_size (header (ses s)) /\ carried got [] s s' /\ zlen (recvs (net s)) <= zlen (recvs (net s')) + zlen got)).
Proof.
  intros Hr Hw Hc Hwh Hle Hn. unfold dsi_writedrain. apply returns_get. rewrite Hc, Z.eqb_refl. cbn [negb].
  pose proof (payload_size_range _ Hwh) as Hrng. eapply returns_bind; [by apply writeinit_spec|].
  intros bs s1 (H1 & Hk1 & Hsz & Hd1 & Hr1 & Hn1 & _). specialize (Hr1 Hr). unfold dsi_writeflush. apply returns_get.
  pose proof (pending_length _ _ _ _ H1 Hw) as Hpl.
  eapply returns_mono; [apply flush_ready; [done|by apply (carried_wf _ _ _ _ H1)|lia|lia|rewrite Hn1; lia|lia]|]. cbv beta.
  intros _ s' (Hr' & Hk & _ & got & Hg & Hcar & Hrec). split; [done|]. split; [destruct Hk1 as (? & ? & ?), Hk as (? & ? & ?); split_and!; congruence|].
  exists (bs ++ got). rewrite length_app. split; [lia|]. split; [by apply (carried_trans _ _ [] [] _ s1)|]. rewrite Hn1 in Hrec. lia.
Qed.

Lemma writedrain_ready rq rest s : ready s -> link_wf (lnk s) -> pending s = rest -> header (ses s) = request_header (rq_block rq) ->
  (if dsi_command (parse_block (rq_block rq)) =? DSIFUNC_WRITE then write_header (request_header (rq_block rq)) else True) ->
  let size := if dsi_command (parse_block (rq_block rq)) =? DSIFUNC_WRITE then payload_size (request_header (rq_block rq)) else 0 in
  size <= zlen rest -> size <= zlen (recvs (net s)) ->
  returns dsi_writedrain s (fun _ s' => ready s' /\ keeps s s' /\
    (exists got, zlen got = size /\ carried got [] s s' /\ zlen (recvs (net s)) <= zlen (recvs (net s')) + zlen got)).
Proof.
  intros Hr Hw Hp Hh Hwh size Hle Hn. subst rest size. destruct (dsi_command (parse_block (rq_block rq)) =? DSIFUNC_WRITE) eqn:E.
  - rewrite <- Hh in *. apply writedrain_write; try done. rewrite Hh. cbn. by apply Z.eqb_eq.
  - unfold dsi_writedrain. apply returns_get. rewrite Hh. cbn [dsi_command request_header]. rewrite E. cbn [negb].
    apply returns_ret. split; [done|]. split; [done|]. exists []. split; [done|]. split; [apply moved_carried, moved_refl|cbn; lia].
Qed.

Lemma schar_pos block : length block = DSI_BLOCKSIZ -> Forall byte block -> dsi_command (parse_block block) <> 0 -> schar (dsi_command (parse_block block)) =? 0 = false.
Proof.
  intros Hl Hb Hc. apply Z.eqb_neq. unfold schar. destruct block as [|x [|y t]]; [done|done|]. cbn in *. apply Forall_cons in Hb as [_ Hb].
  rewrite take_0 in *. cbn [le_val] in *. apply Forall_cons in Hb as [Hy _]. unfold byte in Hy. destruct (_ <? _) eqn:E; bool_cases; lia.
Qed.

Lemma serve_ready quantum reqs : forall s rest, ready s -> link_wf (lnk s) -> buffers_ok (ses s) -> server_quantum (ses s) = quantum ->
  Forall (request_ok quantum) reqs -> pending s = concat (wire <$> reqs) ++ rest -> zlen (concat (wire <$> reqs)) + zlen reqs <= zlen (recvs (net s)) ->
  returns (serve (length reqs)) s (fun l s' => l = (fun rq => (request_header (rq_block rq), rq_body quantum rq)) <$> reqs /\ pending s' = rest).
Proof.
  induction reqs as [|rq reqs IH]; intros s rest Hr Hw Hb Hq Hok Hp Hn; [by apply returns_ret|]. apply Forall_cons in Hok as [Hok Hoks].
  pose proof Hok as (Hlb & Hby & Hcmd & _ & _). destruct (request_body _ _ Hok) as (n & Hf & Hbody & Hlen & Hdata).
  cbn [fmap list_fmap concat] in Hp, Hn. unfold wire at 1 in Hp. unfold wire at 1 in Hn. rewrite <- !app_assoc in Hp. rewrite !length_app in Hn. cbn [length] in Hn.
  rewrite <- (take_drop (Z.to_nat n) (rq_payload rq)), <- Hbody, <- app_assoc in Hp. cbn [serve length].
  assert (zlen (rq_payload rq) = n + zlen (drop (Z.to_nat n) (rq_payload rq))) as Hpay.
  { rewrite <- (take_drop (Z.to_nat n) (rq_payload rq)) at 1. rewrite length_app, <- Hbody. lia. }
  eapply returns_bind; [apply (receive_ready (rq_block rq) (rq_body quantum rq) (drop (Z.to_nat n) (rq_payload rq) ++ concat (wire <$> reqs) ++ rest)); [done|done|done|done|done|done| |]|].
  { by rewrite Hq, Hf, Hlen. }
  { unfold DSI_BLOCKSIZ in *. lia. }
  intros r s1 (-> & Hr1 & Hrc & Hn1). rewrite schar_pos by done. apply returns_get. destruct Hrc. unfold DSI_BLOCKSIZ in *.
  pose proof (carried_wf _ _ _ _ rc_stream0 Hw) as Hw1. rewrite app_assoc in Hp. destruct (carried_front _ _ _ _ rc_stream0 Hw Hp) as [_ Hp1].
  rewrite drop_app_length in Hp1.
  set (size := if dsi_command (parse_block (rq_block rq)) =? DSIFUNC_WRITE then payload_size (request_header (rq_block rq)) else 0).
  assert (size = zlen (drop (Z.to_nat n) (rq_payload rq)) /\ (if dsi_command (parse_block (rq_block rq)) =? DSIFUNC_WRITE then write_header (request_header (rq_block rq)) else True)) as [Hsz Hwh].
  { unfold size. destruct (_ =? DSIFUNC_WRITE); [split; apply Hdata|]. by rewrite Hdata. }
  eapply returns_bind; [apply (writedrain_ready rq _ _ Hr1 Hw1 Hp1 rc_header0 Hwh)|].
  { fold size. rewrite length_app. lia. }
  { fold size. lia. }
  fold size. intros [] s2 (Hr2 & (_ & Hq2 & Hc2) & got & Hg & H2 & Hn2). destruct (carried_front _ _ _ _ H2 Hw1 Hp1) as [_ Hp2].
  replace (length got) with (length (drop (Z.to_nat n) (rq_payload rq))) in Hp2 by lia. rewrite drop_app_length in Hp2.
  eapply returns_bind; [apply (IH s2 rest); [done|by apply (carried_wf _ _ _ _ H2)| |congruence|done|done|lia]|].
  { destruct Hb as [Hb1 Hb2]. split; [lia|]. rewrite Hc2, Hq2, rc_size0, rc_quantum0. done. }
  intros l s3 [-> Hp3]. apply returns_ret. split; [|done]. cbn [fmap list_fmap]. f_equal. rewrite rc_header0, rc_cmdlen0, Nat2Z.id, rc_commands0. done.
Qed.

(** ** Claims on requests *)

(** A connected session with a quantum of 64 bytes, of which the kernel hands out at most 5
    at a time. *)
Definition sample_session (bytes : list Z) : st :=
  St (Dsi (Dsi_block 0 0 0 0 0 0) 1 0 2 64 0 (replicate 64 0) 0 (replicate 100 0) 3 [] (Some 7) false)
     (Link 0 5 (replicate 40 0) 0 0 0 0 0 false)
     (World bytes [] (replicate 200 (Take 5)) (replicate 9 (Take 6)) [] [] (replicate 9 (Take 4)) [] 0).

Definition sample_cmd : request := Req [0; 2; 0; 1; 0; 0; 0; 0; 0; 0; 0; 3; 0; 0; 0; 0] [16; 17; 18].
Definition sample_write : request :=
  Req [0; 6; 0; 2; 0; 0; 0; 12; 0; 0; 0; 22; 0; 0; 0; 0] [33; 0; 0; 1; 0; 0; 0; 0; 0; 0; 0; 10; 1; 2; 3; 4; 5; 6; 7; 8; 9; 10].

Lemma sample_ok : request_ok 64 sample_cmd /\ request_ok 64 sample_write.
Proof. split; (split; [done|]); (split; [apply byte_list; reflexivity|]); (split; [done|]); (split; [reflexivity|]); vm_compute; discriminate. Qed.

Lemma sample_ready bytes : ready (sample_session bytes) /\ link_wf (lnk (sample_session bytes)) /\ buffers_ok (ses (sample_session bytes)).
Proof.
  split; [split; [cbn; lia|]; split; [done|]; apply Forall_forall; intros a Ha%elem_of_replicate; destruct Ha as [-> _]; exact I|].
  split; [unfold link_wf; cbn; lia|]. split; [cbn; lia|done].
Qed.

(** C6: When the client sends well formed requests and the kernel keeps delivering bytes, in
    pieces of any size, the session takes every request, in order: for each one the parsed
    header and the bytes for the command buffer are those of the wire, the data of a write
    is read to its end, and what is left of the stream is what follows the last request. *)
Theorem dsi_requests_in_order reqs rest s : ready s -> link_wf (lnk s) -> buffers_ok (ses s) ->
  Forall (request_ok (server_quantum (ses s))) reqs -> pending s = concat (wire <$> reqs) ++ rest ->
  zlen (concat (wire <$> reqs)) + zlen reqs <= zlen (recvs (net s)) ->
  exists s', serve (length reqs) s = Ret ((fun rq => (request_header (rq_block rq), rq_body (server_quantum (ses s)) rq)) <$> reqs) s' /\ pending s' = rest.
Proof.
  intros Hr Hw Hb Hok Hp Hn. pose proof (serve_ready _ reqs s rest Hr Hw Hb eq_refl Hok Hp Hn) as H. unfold returns in H.
  destruct (serve _ s) as [l s'| | |]; [|done|done|done]. destruct H as [-> ?]. by exists s'.
Qed.

Lemma dsi_requests_in_order_witness :
  exists s', serve 2 (sample_session (wire sample_cmd ++ wire sample_write ++ [99])) =
    Ret [(request_header (rq_block sample_cmd), [16; 17; 18]); (request_header (rq_block sample_write), take 12 (rq_payload sample_write))] s' /\ pending s' = [99].
Proof.
  destruct (sample_ready (wire sample_cmd ++ wire sample_write ++ [99])) as (Hr & Hw & Hb). destruct sample_ok as [H1 H2].
  apply (dsi_requests_in_order [sample_cmd; sample_write] [99] _ Hr Hw Hb); [by repeat constructor|reflexivity|vm_compute; discriminate].
Defined.

(** C35: Whatever bytes arrive and however the kernel answers, reading a request ends or waits
    for the client, never writes outside the command buffer, and takes from the stream
    either a whole valid frame, which it then has in the header and the command buffer, or
    some bytes that it answers with 0. *)
Theorem dsi_stream_receive_safe s : link_wf (lnk s) -> buffers_ok (ses s) ->
  match dsi_stream_receive s with
  | Ret r s' => (exists block body, received block body s s' /\ r = schar (dsi_command (parse_block block))) \/ r = 0 /\ exists got, carried got [] s s'
  | Exit _ s' | Blocked s' => exists got, carried got [] s s'
  | Stuck => False
  end.
Proof. intros Hw Hb. exact (receive_spec s Hw Hb). Qed.

Lemma dsi_stream_receive_safe_witness :
  match dsi_stream_receive (sample_session [1; 6; 0; 1; 0; 0; 0; 30; 0; 0; 0; 40; 0; 0; 0; 0; 7]) with
  | Ret r s' => (exists block body, received block body (sample_session [1; 6; 0; 1; 0; 0; 0; 30; 0; 0; 0; 40; 0; 0; 0; 0; 7]) s' /\
      r = schar (dsi_command (parse_block block))) \/ r = 0 /\ exists got, carried got [] (sample_session [1; 6; 0; 1; 0; 0; 0; 30; 0; 0; 0; 40; 0; 0; 0; 0; 7]) s'
  | Exit _ s' | Blocked s' => exists got, carried got [] (sample_session [1; 6; 0; 1; 0; 0; 0; 30; 0; 0; 0; 40; 0; 0; 0; 0; 7]) s'
  | Stuck => False
  end.
Proof. apply dsi_stream_receive_safe; [unfold link_wf; cbn; lia|split; [cbn; lia|done]]. Defined.

(** The bytes of the reply to the request with the header [block]. *)
Definition reply_bytes (block : list Z) (err : Z) (payload : list Z) : list Z :=
  [DSIFL_REPLY; nth 1 block 0] ++ take 2 (drop 2 block) ++ be_bytes 4 (u32 err) ++ be_bytes 4 (zlen payload) ++ take 4 (drop 12 block) ++ payload.

Lemma field_bytes off n block : Forall byte block -> (off + n <= length block)%nat -> le_bytes n (field off n block) = take n (drop off block).
Proof.
  intros Hb Hl. unfold field. assert (length (take n (drop off block)) = n) as Hn by (rewrite length_take, length_drop; lia).
  rewrite <- Hn at 1. apply le_bytes_val. by apply Forall_take, Forall_drop.
Qed.

Lemma reply_header_bytes block err n d : header d = request_header block -> Forall byte block -> length block = DSI_BLOCKSIZ -> 0 <= n < 2 ^ 32 ->
  dsi_header_pack_reply (header (reply_header n err d)) =
  [DSIFL_REPLY; nth 1 block 0] ++ take 2 (drop 2 block) ++ be_bytes 4 (u32 err) ++ be_bytes 4 n ++ take 4 (drop 12 block).
Proof.
  intros Hh Hb Hl Hn. unfold dsi_header_pack_reply, reply_header, with_header. cbn [header dsi_flags dsi_command dsi_requestID dsi_data dsi_len dsi_reserved].
  rewrite Hh. unfold request_header, parse_block. cbn [dsi_flags dsi_command dsi_requestID dsi_data dsi_len dsi_reserved].
  rewrite !field_bytes by (done || (rewrite Hl; unfold DSI_BLOCKSIZ; lia)).
  rewrite !htonl_bytes by (apply wrap_range; lia). rewrite (wrap_small 32 n) by done. do 2 f_equal.
  destruct block as [|x [|y t]]; [done|done|]. cbn. rewrite take_0. cbn. do 2 f_equal. lia.
Qed.

(** The reply to a request goes out whole: the flag of a reply, the command and the
    request ID of the request, the result code and the length in network byte order, and
    the data.  When the call fails or waits, the client has seen a prefix of that.  Bytes
    the client sends meanwhile stay pending, and no write is left marked as under way. *)
Theorem dsi_cmdreply_exact block err s : link_wf (lnk s) -> has (flags (lnk s)) DSI_DISCONNECTED = false -> header (ses s) = request_header block ->
  Forall byte block -> length block = DSI_BLOCKSIZ -> 0 <= datalen (ses s) < 2 ^ 32 -> datalen (ses s) <= zlen (data (ses s)) ->
  let reply := reply_bytes block err (take (Z.to_nat (datalen (ses s))) (data (ses s))) in
  match dsi_cmdreply err s with
  | Ret r s' => pending s' = pending s /\ in_write (lnk s') = in_write (lnk s) /\
      (r = 1 /\ outp (net s') = outp (net s) ++ reply \/ r = 0 /\ exists out, out `prefix_of` reply /\ outp (net s') = outp (net s) ++ out)
  | Exit _ s' | Blocked s' => exists out, out `prefix_of` reply /\ outp (net s') = outp (net s) ++ out
  | Stuck => False
  end.
Proof.
  intros Hw Hf Hh Hb Hl Hd Hle reply. set (payload := take _ _) in reply.
  assert (zlen payload = datalen (ses s)) as Hpl by (unfold payload; rewrite length_take; lia).
  assert (spec (dsi_cmdreply err) s (fun r s' => pending s' = pending s /\ in_write (lnk s') = in_write (lnk s) /\
      (r = 1 /\ outp (net s') = outp (net s) ++ reply \/ r = 0 /\ exists out, out `prefix_of` reply /\ outp (net s') = outp (net s) ++ out))
    (fun s' => exists out, out `prefix_of` reply /\ outp (net s') = outp (net s) ++ out)) as H; [|exact H].
  unfold dsi_cmdreply. do 2 step. change (dsi_stream_send _) with (dsi_stream_send payload).
  assert (dsi_header_pack_reply (header (reply_header (datalen (ses s)) err (ses s))) ++ payload = reply) as Hreply.
  { rewrite (reply_header_bytes block) by done. unfold reply, reply_bytes. by rewrite Hpl, <- !app_assoc. }
  eapply spec_mono; [apply dsi_stream_send_spec; done|..]; cbn [ses net lnk]; cbv beta; rewrite Hreply.
  - intros r s' (out & Hm & Hr). split; [pose proof (mv_in _ _ _ _ Hm Hw) as Hin; exact (eq_sym Hin)|]. split; [apply (mv_inw _ _ _ _ Hm)|].
    rewrite (mv_out _ _ _ _ Hm). cbn [net]. destruct Hr as [[-> ->]|[-> ?]]; [by left|right; split; [done|by exists out]].
  - intros s' (out & ? & ?). by exists out.
Qed.

(** The reply with three bytes of data, behind the write request above. *)
Definition sample_reply : st :=
  let s := sample_session [1; 2] in
  St (with_header (request_header (rq_block sample_write)) (ses s)) (lnk s) (net s).

Lemma dsi_cmdreply_exact_witness :
  match dsi_cmdreply 0 sample_reply with
  | Ret r s' => pending s' = pending sample_reply /\ in_write (lnk s') = 0 /\
      (r = 1 /\ outp (net s') = [] ++ reply_bytes (rq_block sample_write) 0 [0; 0; 0] \/
       r = 0 /\ exists out, out `prefix_of` reply_bytes (rq_block sample_write) 0 [0; 0; 0] /\ outp (net s') = [] ++ out)
  | Exit _ s' | Blocked s' => exists out, out `prefix_of` reply_bytes (rq_block sample_write) 0 [0; 0; 0] /\ outp (net s') = [] ++ out
  | Stuck => False
  end.
Proof.
  apply (dsi_cmdreply_exact (rq_block sample_write) 0 sample_reply);
    [unfold link_wf; cbn; lia|done|done|apply byte_list; reflexivity|done|cbn; lia|cbn; lia].
Defined.

(** ** Claims on writes *)

(** However the kernel answers, storing the payload of a write never runs away; when it
    reports success, the file received exactly the payload that the header announced, in
    order, those bytes and no others left the stream, and they fit the count of the
    request. *)
Theorem write_payload_stores reqcount s : link_wf (lnk s) -> write_header (header (ses s)) -> 0 < server_quantum (ses s) ->
  match write_payload reqcount s with
  | Ret r s' => r = AFP_OK /\ payload_size (header (ses s)) <= reqcount /\
      (exists payload, zlen payload = payload_size (header (ses s)) /\ stored payload payload s s') \/ r < 0
  | Exit _ _ | Blocked _ => True
  | Stuck => False
  end.
Proof. intros Hw Hh Hq. exact (write_payload_spec reqcount s Hw Hh Hq). Qed.

(** A write request of 10 bytes behind [dsi_stream_receive], 4 of them in the buffer. *)
Definition sample_upload (writes : list io) : st :=
  let s := sample_session [5; 6; 7; 8; 9; 10; 99] in
  St (with_header (request_header (rq_block sample_write)) (ses s))
     (Link 0 5 ([0; 1; 2; 3; 4] ++ replicate 35 0) 1 5 0 0 0 false)
     (World [5; 6; 7; 8; 9; 10; 99] [] (replicate 200 (Take 5)) [] [] [] writes [] 0).

Lemma write_payload_stores_witness :
  match write_payload 10 (sample_upload (replicate 9 (Take 4))) with
  | Ret r s' => r = AFP_OK /\ 10 <= 10 /\ (exists payload, zlen payload = 10 /\ stored payload payload (sample_upload (replicate 9 (Take 4))) s') \/ r < 0
  | Exit _ _ | Blocked _ => True
  | Stuck => False
  end.
Proof. apply (write_payload_stores 10 (sample_upload (replicate 9 (Take 4)))); [unfold link_wf; cbn; lia|vm_compute; split; discriminate|reflexivity]. Defined.

Lemma write_payload_ready reqcount s : ready s -> link_wf (lnk s) -> write_header (header (ses s)) -> 0 < server_quantum (ses s) ->
  payload_size (header (ses s)) <= zlen (pending s) -> payload_size (header (ses s)) <= zlen (recvs (net s)) ->
  spec (write_payload reqcount) s (fun r s' => exists payload put, zlen payload = payload_size (header (ses s)) /\ stored payload put s s' /\
      put `prefix_of` payload /\ (r = AFP_OK /\ put = payload \/ r < 0)) (fun s' => writes (net s') = []).
Proof.
  intros Hr Hw Hh Hq Hp Hn. pose proof (payload_size_range _ Hh) as Hrng. set (size := payload_size _) in *. unfold write_payload.
  eapply (spec_then _ _ _ _ (fun _ => False)); [apply returns_weaken; by apply writeinit_spec|done|]. fold size. intros wbuf s1 (H1 & Hk & Hsz & Hd & Hr1 & Hn1 & _). step.
  specialize (Hr1 Hr). pose proof (pending_length _ _ _ _ H1 Hw) as Hpl. apply carried_stored in H1.
  assert (synced s size wbuf [] s1) as Hsy by (split; [done|lia|done|done|lia|rewrite Hn1; lia]).
  eapply (spec_then _ _ _ (fun r s' => exists got put, synced s size got put s' /\ put `prefix_of` got /\ (r = AFP_OK /\ datasize (ses s') = 0 /\ put = got \/ r < 0))
    (fun s' => writes (net s') = [])); [|done|].
  - destruct (negb _) eqn:E; [apply spec_ret; exists wbuf, []; split; [done|]; split; [apply prefix_nil|by right]|].
    eapply spec_then; [apply write_file_spec; done|done|]. intros err s2 (Hs2 & [Hn2 Hl2] & Herr).
    assert (forall p, stored [] p s1 s2 -> synced s size wbuf p s2) as Hsync.
    { intros p H2. pose proof (stored_trans _ _ _ _ _ _ _ H1 H2) as H02. rewrite app_nil_r in H02. destruct Hsy. split; rewrite ?Hs2; try done.
      - unfold ready in *. by rewrite Hn2, Hl2.
      - destruct H2 as [H2 _]. pose proof (mv_in _ _ _ _ H2 (stored_wf _ _ _ _ H1 Hw)) as Hin. rewrite Hin in sy_pending0. exact sy_pending0.
      - by rewrite Hn2. }
    destruct Herr as [[-> H2]|[Hneg (p & Hpre & H2)]]; specialize (Hsync _ H2).
    + cbn [Z.ltb Z.compare AFP_OK]. apply (payload_loop_ready s size _ Hw ltac:(lia) _ wbuf); [done|rewrite Hs2; destruct Hk as (_ & -> & _); done|rewrite Hs2; lia].
    + rewrite (proj2 (Z.ltb_lt err 0)) by done. apply spec_ret. exists wbuf, p. split; [done|]. split; [done|by right].
  - intros err s2 (got & put & [Hst Hs2 Hd2 Hr2 Hp2 Hrec2] & Hpre & Herr). pose proof (stored_wf _ _ _ _ Hst Hw) as Hw2. destruct Herr as [(-> & Hz & ->)|Hneg].
    + cbn [Z.ltb Z.compare AFP_OK]. eapply (spec_then _ _ _ (fun _ s' => s' = s2) (fun _ => False)); [by apply spec_ret|done|]. intros _ s' ->.
      apply spec_ret. exists got, got. split; [lia|]. split; [done|]. split; [done|by left].
    + rewrite (proj2 (Z.ltb_lt err 0)) by done. unfold dsi_writeflush. apply spec_bind. apply spec_bind, spec_get.
      eapply spec_mono; [apply returns_weaken, (flush_ready _ s2); [done|done|lia|lia|lia|lia]|..]; cbv beta; [|intros s' F; exact (False_ind _ F)].
      intros _ s' (_ & _ & _ & rest & Hrest & H3 & _). apply spec_ret. apply carried_stored in H3.
      pose proof (stored_trans _ _ _ _ _ _ _ Hst H3) as H03. rewrite app_nil_r in H03. exists (got ++ rest), put. rewrite length_app.
      split; [lia|]. split; [done|]. split; [by apply prefix_app_r|by right].
Qed.

(** When the kernel delivers the data, a write leaves the stream at the next request
    whatever becomes of the file: refused for its count, stopped by a full disk in the
    middle, or stored, it takes exactly the payload that the header announced, and the file
    has received a prefix of it, all of it on success.  Only a write to the file that never
    answers keeps it from returning. *)
Theorem write_payload_in_sync reqcount s : ready s -> link_wf (lnk s) -> write_header (header (ses s)) -> 0 < server_quantum (ses s) ->
  payload_size (header (ses s)) <= zlen (pending s) -> payload_size (header (ses s)) <= zlen (recvs (net s)) ->
  match write_payload reqcount s with
  | Ret r s' => exists payload put, zlen payload = payload_size (header (ses s)) /\ stored payload put s s' /\
      put `prefix_of` payload /\ (r = AFP_OK /\ put = payload \/ r < 0)
  | Exit _ s' | Blocked s' => writes (net s') = []
  | Stuck => False
  end.
Proof. intros Hr Hw Hh Hq Hp Hn. exact (write_payload_ready reqcount s Hr Hw Hh Hq Hp Hn). Qed.

(** The disk is full behind the sixth byte. *)
Lemma write_payload_in_sync_witness :
  match write_payload 10 (sample_upload [Take 4; Take 2; Err ENOSPC]) with
  | Ret r s' => exists payload put, zlen payload = 10 /\ stored payload put (sample_upload [Take 4; Take 2; Err ENOSPC]) s' /\
      put `prefix_of` payload /\ (r = AFP_OK /\ put = payload \/ r < 0)
  | Exit _ s' | Blocked s' => writes (net s') = []
  | Stuck => False
  end.
Proof.
  apply (write_payload_in_sync 10 (sample_upload [Take 4; Take 2; Err ENOSPC]));
    [|unfold link_wf; cbn; lia|vm_compute; split; discriminate|reflexivity|vm_compute; discriminate|vm_compute; discriminate].
  split; [cbn; lia|]. split; [done|]. apply Forall_forall. intros a Ha%elem_of_replicate. destruct Ha as [-> _]. exact I.
Defined.

Example full_disk : exists s', write_payload 10 (sample_upload [Take 4; Take 2; Err ENOSPC]) = Ret AFPERR_DFULL s' /\
  filed (net s') = [1; 2; 3; 4; 5; 6] /\ pending s' = [99].
Proof. eexists. split; [vm_compute; reflexivity|]. split; reflexivity. Qed.

(** ** The session quantum *)

Lemma page_mask x : 0 <= x < 2 ^ 32 -> Z.land x (u32 (Z.lnot 4095)) = x / 4096 * 4096.
Proof.
  intros Hx. change (u32 (Z.lnot 4095)) with (Z.ldiff (Z.ones 32) (Z.ones 12)).
  assert (Z.land x (Z.ldiff (Z.ones 32) (Z.ones 12)) = Z.ldiff (Z.land x (Z.ones 32)) (Z.ones 12)) as ->.
  { apply Z.bits_inj'. intros n _. rewrite Z.land_spec, !Z.ldiff_spec, Z.land_spec. by rewrite andb_assoc. }
  rewrite Z.land_ones, Z.mod_small, Z.ldiff_ones_r by lia. by rewrite Z.shiftl_mul_pow2, Z.shiftr_div_pow2 by lia.
Qed.

Definition well_filled (d mss : Z) : Prop := mss - mss / 8 <= last_fill d mss.

(** The sizes [d], [d + 4096] and so on up to [limit]. *)
Definition candidate (d limit x : Z) : Prop := d <= x <= limit /\ (x - d) mod 4096 = 0.

(** What the search from [d] finds: the first size that fills its last segment well, or,
    when there is none, one whose last segment is as full as any. *)
Lemma align_loop_spec fuel : forall d limit best best_fill mss, 0 <= d -> limit < 2 ^ 31 -> limit - d < 4096 * Z.of_nat fuel ->
  let r := align_loop fuel d limit best best_fill mss in
  candidate d limit r /\ well_filled r mss /\ (forall x, candidate d limit x -> x < r -> ~ well_filled x mss) \/
  (forall x, candidate d limit x -> ~ well_filled x mss) /\
    (candidate d limit r /\ best_fill < last_fill r mss /\ (forall x, candidate d limit x -> last_fill x mss <= last_fill r mss) \/
     r = best /\ forall x, candidate d limit x -> last_fill x mss <= best_fill).
Proof.
  induction fuel as [|fuel IH]; intros d limit best best_fill mss Hd Hl Hf r.
  { right. split; [intros x [? ?]; lia|right]. split; [done|]. intros x [? ?]. lia. }
  unfold r. clear r. cbn [align_loop]. destruct (d <=? limit) eqn:E; bool_cases.
  2:{ right. split; [intros x [? ?]; lia|right]. split; [done|]. intros x [? ?]. lia. }
  assert (candidate d limit d) as Hcd by (split; [lia|rewrite Z.sub_diag; done]).
  assert (forall x, candidate d limit x -> x = d \/ candidate (d + 4096) limit x) as Hsplit.
  { intros x [Hx Hm]. destruct (decide (x = d)); [by left|right]. split; [zmod|zmod]. }
  assert (forall x, candidate (d + 4096) limit x -> candidate d limit x) as Hup by (intros x [Hx Hm]; split; [lia|zmod]).
  destruct (mss - mss / 8 <=? last_fill d mss) eqn:Ew; bool_cases.
  { left. split; [done|]. split; [done|]. intros x [Hx _] ?. lia. }
  assert (~ well_filled d mss) as Hnw by (unfold well_filled; lia). rewrite (wrap_small 32) by lia.
  destruct (best_fill <? last_fill d mss) eqn:Eb; bool_cases; set (bf := if best_fill <? last_fill d mss then last_fill d mss else best_fill).
  - destruct (IH (d + 4096) limit d (last_fill d mss) mss ltac:(lia) Hl ltac:(lia)) as [(H1 & H2 & H3)|(H1 & H2)].
    + left. split; [auto|]. split; [done|]. intros x Hx Hlt. destruct (Hsplit x Hx) as [->|Hx']; [done|by apply H3].
    + right. split; [intros x Hx; destruct (Hsplit x Hx) as [->|Hx']; auto|]. left. destruct H2 as [(H2 & H4 & H5)|(-> & H5)].
      * split; [auto|]. split; [lia|]. intros x Hx. destruct (Hsplit x Hx) as [->|Hx']; [lia|auto].
      * split; [done|]. split; [done|]. intros x Hx. destruct (Hsplit x Hx) as [->|Hx']; [lia|auto].
  - destruct (IH (d + 4096) limit best best_fill mss ltac:(lia) Hl ltac:(lia)) as [(H1 & H2 & H3)|(H1 & H2)].
    + left. split; [auto|]. split; [done|]. intros x Hx Hlt. destruct (Hsplit x Hx) as [->|Hx']; [done|by apply H3].
    + right. split; [intros x Hx; destruct (Hsplit x Hx) as [->|Hx']; auto|]. destruct H2 as [(H2 & H4 & H5)|(-> & H5)].
      * left. split; [auto|]. split; [lia|]. intros x Hx. destruct (Hsplit x Hx) as [->|Hx']; [lia|auto].
      * right. split; [done|]. intros x Hx. destruct (Hsplit x Hx) as [->|Hx']; [lia|auto].
Qed.

(** The limit of the growth. *)
Definition growth_limit (c : Z) : Z := if c <? DSI_SERVQUANT_MAX - DSI_QUANTUM_GROWTH_MAX then c + DSI_QUANTUM_GROWTH_MAX else DSI_SERVQUANT_MAX.

(** The session quantum is a whole number of pages, no smaller than the configured
    value (capped at 256 MiB) and grown by no more than 256 KiB.  With a usable segment
    size, it is the smallest such value whose last segment is at least 7/8 full; when
    there is none within the growth, its last segment is as full as that of any other. *)
Theorem dsi_align_quantum_best configured mss : 0 <= configured < 2 ^ 32 -> 0 <= mss <= 65536 ->
  let c := Z.min configured DSI_SERVQUANT_MAX in
  let r := dsi_align_quantum configured mss in
  let page := (c + 4095) / 4096 * 4096 in
  r mod 4096 = 0 /\ c <= r <= growth_limit c /\
  (mss <> 0 -> 4 * mss < page ->
    well_filled r mss /\ (forall x, candidate page (growth_limit c) x -> x < r -> ~ well_filled x mss) \/
    (forall x, candidate page (growth_limit c) x -> ~ well_filled x mss /\ last_fill x mss <= last_fill r mss)).
Proof.
  intros Hc Hm c r page. unfold r, dsi_align_quantum.
  assert ((if DSI_SERVQUANT_MAX <? configured then DSI_SERVQUANT_MAX else configured) = c) as -> by (unfold c; destruct (_ <? _) eqn:E; bool_cases; lia).
  assert (0 <= c <= 2 ^ 28) as Hc28 by (unfold c, DSI_SERVQUANT_MAX; lia). clearbody c. fold (growth_limit c). rewrite (wrap_small 32 (c + 4095)), page_mask by lia. fold page.
  assert (c <= page < c + 4096 /\ page mod 4096 = 0 /\ page <= growth_limit c) as (Hp & Hp0 & Hpl).
  { unfold page, growth_limit, DSI_QUANTUM_GROWTH_MAX, DSI_SERVQUANT_MAX in *. split; [zmod|]. split; [by apply Z.mod_mul|]. destruct (_ <? _); zmod. }
  assert (growth_limit c < 2 ^ 31 /\ growth_limit c - page < 4096 * Z.of_nat 66) as [Hg1 Hg2]
    by (unfold growth_limit, DSI_QUANTUM_GROWTH_MAX, DSI_SERVQUANT_MAX in *; destruct (_ <? _) eqn:E; bool_cases; lia).
  rewrite (wrap_small 64 (mss * 4)) by lia. destruct (_ || _) eqn:E.
  { split; [done|]. split; [lia|]. intros Hm0 Hlt. apply orb_true_iff in E as [E|E]; bool_cases; lia. }
  assert (forall x, candidate page (growth_limit c) x -> x mod 4096 = 0 /\ c <= x <= growth_limit c) as Hcand by (intros x [Hx Hx0]; split; [zmod|lia]).
  assert (candidate page (growth_limit c) page) as Hcp by (split; [lia|by rewrite Z.sub_diag]).
  destruct (align_loop_spec 66 page (growth_limit c) page 0 mss ltac:(lia) Hg1 Hg2) as [(H1 & H2 & H3)|[H1 H2]].
  - destruct (Hcand _ H1). split; [done|]. split; [done|]. intros _ _. by left.
  - destruct H2 as [(H2 & _ & H3)|(-> & H3)].
    + destruct (Hcand _ H2). split; [done|]. split; [done|]. intros _ _. right. auto.
    + destruct (Hcand _ Hcp). split; [done|]. split; [done|]. intros Hm0 _. right. intros x Hx. split; [auto|]. specialize (H3 x Hx).
      assert (0 < mss) as Hpos by lia. pose proof (Z.mod_pos_bound (u32 (page + DSI_FRAME_OVERHEAD_EXT)) mss Hpos) as Hmod.
      assert (0 < last_fill page mss) by (unfold last_fill; destruct (_ mod mss =? 0) eqn:Ez; bool_cases; lia). lia.
Qed.

Lemma dsi_align_quantum_best_witness :
  dsi_align_quantum 0x100000 1448 mod 4096 = 0 /\ 0x100000 <= dsi_align_quantum 0x100000 1448 <= growth_limit 0x100000 /\
  (1448 <> 0 -> 4 * 1448 < 0x100000 ->
    well_filled (dsi_align_quantum 0x100000 1448) 1448 /\ (forall x, candidate 0x100000 (growth_limit 0x100000) x -> x < dsi_align_quantum 0x100000 1448 -> ~ well_filled x 1448) \/
    (forall x, candidate 0x100000 (growth_limit 0x100000) x -> ~ well_filled x 1448 /\ last_fill x 1448 <= last_fill (dsi_align_quantum 0x100000 1448) 1448)).
Proof. exact (dsi_align_quantum_best 0x100000 1448 ltac:(lia) ltac:(lia)). Defined.
