(* ===== verification/Ofork.v ===== *)
(** * Open forks, etc/afpd/ofork.c

    Every fork that a client has open is a [struct ofork].  A table of slots names it by
    its reference number, a hash table of 64 chains by the device and inode of its file,
    and a ring holds the free slots in the order in which they were freed.  Forks of one
    file share a reference counted [struct adouble].  This file holds the table: opening
    and closing of slots, the lookups, and the renaming of open forks.

    Forks and AppleDoubles are objects of two heaps; a chain is linked through [next] and
    [prevp], the place that points to a fork.  The allocator's answers and those of
    [ostat] are part of the state or arguments. *)

From S2P Require Import Prelude.

Notation loc := positive (only parsing).

(** ** Data *)

(** [struct file_key]. *)
Record file_key := File_key { dev : Z; inode : Z }.

#[export] Instance file_key_eq_dec : EqDecision file_key.
Proof. solve_decision. Defined.

(** What [prevp] points to: a bucket of the hash table or the [next] of a fork. *)
Inductive place : Type := Bucket (b : nat) | Next_of (p : loc).

#[export] Instance place_eq_dec : EqDecision place.
Proof. solve_decision. Defined.

(** What a [struct ofork] says about a fork. *)
Record fork := Fork {
  key : file_key;
  of_vol : Z;
  of_uname : list Z;
  of_did : Z;
  of_refnum : Z;
  of_flags : Z;
  of_adflags : Z
}.

Record ofork := Ofork { body : fork; of_ad : loc; prevp : option place; next : option loc }.

(** The fields of [struct adouble] that the table keeps. *)
Record adouble := Adouble { ad_refcount : Z; ad_name : list Z }.

(** The file scope variables of ofork.c; [oforks] is [None] while it is [NULL]. *)
Record table := Table {
  ofork_table : list (option loc);
  oforks : option (list (option loc));
  nforks : Z;
  of_freeq : list Z;
  of_freeq_cap : Z;
  of_freeq_head : Z;
  of_freeq_tail : Z;
  of_curr_forks : Z;
  of_peak_forks : Z;
  of_opens : Z;
  of_fdlimit : Z;
  of_fork_level : Z;
  of_fd_level : Z
}.

(** [allocs] answers the next allocations; exhausted, they succeed. *)
Record st := St { tab : table; forks : gmap loc ofork; ads : gmap loc adouble; allocs : list bool }.

(** ** Computations *)

Definition M (A : Type) : Type := st -> res (A * st).

#[export] Instance M_ret : MRet M := fun A a s => Ok (a, s).
#[export] Instance M_bind : MBind M := fun A B f m s =>
  match m s with Ok (a, s) => f a s | Abort w => Abort w end.

Definition get : M st := fun s => Ok (s, s).
Definition set_tab (f : table -> table) : M unit := fun s => Ok (tt, St (f (tab s)) (forks s) (ads s) (allocs s)).
Definition abort {A} (w : why) : M A := fun _ => Abort w.
Definition AFP_ASSERT (b : bool) : M unit := if b then mret tt else abort Assertion.

(** Whether the next allocation succeeds. *)
Definition malloc_ok : M bool := fun s =>
  match allocs s with
  | [] => Ok (true, s)
  | b :: r => Ok (b, St (tab s) (forks s) (ads s) r)
  end.

Definition load (p : loc) : M ofork := fun s =>
  match forks s !! p with Some o => Ok (o, s) | None => Abort Undefined end.
Definition store (p : loc) (f : ofork -> ofork) : M unit := fun s =>
  match forks s !! p with
  | Some o => Ok (tt, St (tab s) (<[p := f o]> (forks s)) (ads s) (allocs s))
  | None => Abort Undefined
  end.

Definition set_next (p : loc) (v : option loc) : M unit := store p (fun o => Ofork (body o) (of_ad o) (prevp o) v).
Definition set_prevp (p : loc) (v : option place) : M unit := store p (fun o => Ofork (body o) (of_ad o) v (next o)).
Definition set_body (p : loc) (f : fork -> fork) : M unit := store p (fun o => Ofork (f (body o)) (of_ad o) (prevp o) (next o)).

Definition load_ad (p : loc) : M adouble := fun s =>
  match ads s !! p with Some a => Ok (a, s) | None => Abort Undefined end.
Definition set_ads (f : gmap loc adouble -> gmap loc adouble) : M unit := fun s =>
  Ok (tt, St (tab s) (forks s) (f (ads s)) (allocs s)).

Definition with_buckets (l : list (option loc)) (t : table) : table :=
  Table l (oforks t) (nforks t) (of_freeq t) (of_freeq_cap t) (of_freeq_head t) (of_freeq_tail t)
    (of_curr_forks t) (of_peak_forks t) (of_opens t) (of_fdlimit t) (of_fork_level t) (of_fd_level t).
Definition with_slots (l : option (list (option loc))) (n : Z) (t : table) : table :=
  Table (ofork_table t) l n (of_freeq t) (of_freeq_cap t) (of_freeq_head t) (of_freeq_tail t)
    (of_curr_forks t) (of_peak_forks t) (of_opens t) (of_fdlimit t) (of_fork_level t) (of_fd_level t).
Definition with_freeq (q : list Z) (cap head tail : Z) (t : table) : table :=
  Table (ofork_table t) (oforks t) (nforks t) q cap head tail
    (of_curr_forks t) (of_peak_forks t) (of_opens t) (of_fdlimit t) (of_fork_level t) (of_fd_level t).
Definition with_counts (curr peak : Z) (t : table) : table :=
  Table (ofork_table t) (oforks t) (nforks t) (of_freeq t) (of_freeq_cap t) (of_freeq_head t) (of_freeq_tail t)
    curr peak (of_opens t) (of_fdlimit t) (of_fork_level t) (of_fd_level t).
Definition with_usage (opens fdlimit fork_level fd_level : Z) (t : table) : table :=
  Table (ofork_table t) (oforks t) (nforks t) (of_freeq t) (of_freeq_cap t) (of_freeq_head t) (of_freeq_tail t)
    (of_curr_forks t) (of_peak_forks t) opens fdlimit fork_level fd_level.

(** ** The hash table *)

Definition OFORK_HASHSIZE : Z := 64.

Definition hashfn (k : file_key) : nat := Z.to_nat (Z.land (inode k) (OFORK_HASHSIZE - 1)).

(** [*pp] and [*pp = v]. *)
Definition read_place (pp : place) : M (option loc) :=
  match pp with
  | Bucket b => s ← get; match ofork_table (tab s) !! b with Some v => mret v | None => abort Undefined end
  | Next_of p => o ← load p; mret (next o)
  end.
Definition write_place (pp : place) (v : option loc) : M unit :=
  match pp with
  | Bucket b => set_tab (fun t => with_buckets (<[b := v]> (ofork_table t)) t)
  | Next_of p => set_next p v
  end.

Definition of_hash (ofp : loc) : M unit :=
  o ← load ofp;
  let table := Bucket (hashfn (key (body o))) in
  first ← read_place table;
  set_next ofp first;;
  match first with
  | Some f => set_prevp f (Some (Next_of ofp))
  | None => mret tt
  end;;
  write_place table (Some ofp);;
  set_prevp ofp (Some table).

Definition of_unhash (ofp : loc) : M unit :=
  o ← load ofp;
  match prevp o with
  | None => mret tt
  | Some pp =>
      match next o with
      | Some n => set_prevp n (Some pp)
      | None => mret tt
      end;;
      o ← load ofp;
      write_place pp (next o);;
      set_prevp ofp None;;
      set_next ofp None
  end.

Definition with_key (k : file_key) (f : fork) : fork :=
  Fork k (of_vol f) (of_uname f) (of_did f) (of_refnum f) (of_flags f) (of_adflags f).
Definition with_name (uname : list Z) (did : Z) (f : fork) : fork :=
  Fork (key f) (of_vol f) uname did (of_refnum f) (of_flags f) (of_adflags f).

(** [k] is the device and inode of [st]. *)
Definition of_rekey (ofp : loc) (k : file_key) : M unit :=
  of_unhash ofp;; set_body ofp (with_key k);; of_hash ofp.

(** ** The free slots *)

Definition of_freeq_empty : M bool := s ← get; mret (of_freeq_head (tab s) =? of_freeq_tail (tab s)).

Definition of_freeq_push (slot : Z) : M unit :=
  s ← get;
  let t := tab s in
  let tail := of_freeq_tail t + 1 in
  set_tab (with_freeq (<[Z.to_nat (of_freeq_tail t) := slot]> (of_freeq t)) (of_freeq_cap t) (of_freeq_head t)
             (if tail =? of_freeq_cap t then 0 else tail));;
  empty ← of_freeq_empty;
  AFP_ASSERT (negb empty).

Definition of_freeq_pop : M Z :=
  empty ← of_freeq_empty;
  if (empty : bool) then mret (-1) else
  s ← get;
  let t := tab s in
  match of_freeq t !! Z.to_nat (of_freeq_head t) with
  | None => abort Undefined
  | Some slot =>
      let head := of_freeq_head t + 1 in
      set_tab (with_freeq (of_freeq t) (of_freeq_cap t) (if head =? of_freeq_cap t then 0 else head) (of_freeq_tail t));;
      mret slot
  end.

(** ** Usage levels, libatalk/util/unix.c *)

Definition usage_warn_pct : list Z := [50; 75; 90].

(** The loop of [usage_level_update] over the thresholds from [level] on. *)
Fixpoint usage_climb (pcts : list Z) (level used limit : Z) : Z :=
  match pcts with
  | [] => level
  | p :: pcts => if p * limit <=? used * 100 then usage_climb pcts (level + 1) used limit else level
  end.

(** The level, and whether it rose. *)
Definition usage_level_update (level used limit : Z) : Z * bool :=
  if limit <=? 0 then (level, false) else
  let up := usage_climb (drop (Z.to_nat level) usage_warn_pct) level used limit in
  let rose := level <? up in
  if negb rose && (0 <? up) then
    match usage_warn_pct !! Z.to_nat (up - 1) with
    | Some p => (if used * 100 <? (p - 10) * limit then up - 1 else up, rose)
    | None => (up, rose)
    end
  else (up, rose).

Definition update_fork_level : M unit :=
  set_tab (fun t => with_usage (of_opens t) (of_fdlimit t) (usage_level_update (of_fork_level t) (of_curr_forks t) (nforks t)).1 (of_fd_level t) t).

(** Without the log output. *)
Definition of_note_fd (newfd : Z) : M unit :=
  if 0 <=? newfd then
    set_tab (fun t => with_usage (of_opens t) (of_fdlimit t) (of_fork_level t) (usage_level_update (of_fd_level t) (newfd + 1) (of_fdlimit t)).1 t)
  else mret tt.

Definition of_note_open (newfd : Z) : M unit :=
  set_tab (fun t => with_usage (u64 (of_opens t + 1)) (of_fdlimit t) (of_fork_level t) (of_fd_level t) t);;
  update_fork_level;; of_note_fd newfd.

(** ** Opening and closing *)

Inductive eid_t : Type := ADEID_DFORK | ADEID_RFORK.

Definition AFPFORK_DATA : Z := Z.shiftl 1 0.
Definition AFPFORK_RSRC : Z := Z.shiftl 1 1.

(** The loop that seeds the free slots [slots]. *)
Fixpoint seed_loop (slots : list Z) : M unit :=
  match slots with
  | [] => mret tt
  | s :: slots => of_freeq_push s;; seed_loop slots
  end.

(** The first call sizes the table, [fdlimit] being the answer of [getdtablesize];
    false when it cannot be allocated. *)
Definition table_init (fdlimit : Z) : M bool :=
  let fdcap := fdlimit ÷ 2 in
  let fdcap := if fdcap <? 2 then 2 else fdcap in
  let n := if fdcap <? 0xffff then fdcap else 0xffff in
  ok1 ← malloc_ok; ok2 ← malloc_ok;
  set_tab (fun t => with_usage (of_opens t) fdlimit (of_fork_level t) (of_fd_level t) t);;
  if negb (ok1 && ok2) then
    set_tab (with_slots None n);;
    set_tab (fun t => with_freeq [] (n + 1) (of_freeq_head t) (of_freeq_tail t) t);;
    mret false
  else
    set_tab (with_slots (Some (replicate (Z.to_nat n) None)) n);;
    set_tab (fun t => with_freeq (replicate (Z.to_nat (n + 1)) 0) (n + 1) (of_freeq_head t) (of_freeq_tail t) t);;
    seed_loop (Z.of_nat <$> seq 1 (Z.to_nat n - 1));;
    mret true.

(** [oforks[i]] and [oforks[i] = v]. *)
Definition slot_read (i : Z) : M (option loc) :=
  s ← get;
  match oforks (tab s) with
  | Some l => match l !! Z.to_nat i with Some v => mret v | None => abort Undefined end
  | None => abort Undefined
  end.
Definition slot_write (i : Z) (v : option loc) : M unit :=
  set_tab (fun t => with_slots (<[Z.to_nat i := v]> <$> oforks t) (nforks t) t).

Definition new_fork (f : fork) (ad : loc) : M loc := fun s =>
  let p := fresh (dom (forks s)) in Ok (p, St (tab s) (<[p := Ofork f ad None None]> (forks s)) (ads s) (allocs s)).
Definition new_ad (a : adouble) : M loc := fun s =>
  let p := fresh (dom (ads s)) in Ok (p, St (tab s) (forks s) (<[p := a]> (ads s)) (allocs s)).
Definition free_fork (p : loc) : M unit := fun s => Ok (tt, St (tab s) (delete p (forks s)) (ads s) (allocs s)).

(** The fork's AppleDouble: the shared one gains a reference, or a new one is made;
    [None] when an allocation fails. *)
Definition take_ad (path : list Z) (ad : option loc) : M (option loc) :=
  match ad with
  | Some p => a ← load_ad p; set_ads (<[p := Adouble (ad_refcount a + 1) (ad_name a)]>);; mret (Some p)
  | None =>
      ok ← malloc_ok;
      if negb ok then mret None else
      ok ← malloc_ok;
      if negb ok then mret None else p ← new_ad (Adouble 1 path); mret (Some p)
  end.

(** [None] is the return of [NULL].  [k] is the device and inode of [st].  The fork is
    built when all its parts are there, so its object appears at the end. *)
Definition of_alloc (fdlimit vol did : Z) (path upath : list Z) (eid : eid_t) (ad : option loc) (k : file_key) : M (option loc) :=
  s ← get;
  sized ← match oforks (tab s) with Some _ => mret true | None => table_init fdlimit end;
  if negb sized then mret None else
  slot ← of_freeq_pop;
  s ← get;
  if (slot <? 1) || (nforks (tab s) <=? slot) then mret None else
  old ← slot_read slot;
  AFP_ASSERT (bool_decide (old = None));;
  ok ← malloc_ok;
  if negb ok then of_freeq_push slot;; mret None else
  ok ← malloc_ok;
  if negb ok then slot_write slot None;; of_freeq_push slot;; mret None else
  ad ← take_ad path ad;
  match ad with
  | None => slot_write slot None;; of_freeq_push slot;; mret None
  | Some ad =>
      p ← new_fork (Fork k vol upath did slot (match eid with ADEID_DFORK => AFPFORK_DATA | ADEID_RFORK => AFPFORK_RSRC end) 0) ad;
      slot_write slot (Some p);;
      of_hash p;;
      set_tab (fun t => let curr := of_curr_forks t + 1 in
                        with_counts curr (if of_peak_forks t <? curr then curr else of_peak_forks t) t);;
      mret (Some p)
  end.

Definition of_find (ofrefnum : Z) : M (option loc) :=
  s ← get;
  match oforks (tab s) with
  | None => mret None
  | Some _ =>
      if nforks (tab s) =? 0 then mret None else
      ofp ← slot_read (ofrefnum mod nforks (tab s));
      match ofp with
      | None => mret None
      | Some p => o ← load p; mret (if negb (of_refnum (body o) =? ofrefnum) then None else Some p)
      end
  end.

(** The walk along a chain for the fork of a file; a chain is no longer than the heap
    has forks. *)
Fixpoint chain_find (fuel : nat) (k : file_key) (ofp : option loc) : M (option loc) :=
  match fuel, ofp with
  | _, None => mret None
  | O, Some _ => abort Undefined
  | S fuel, Some p =>
      o ← load p;
      if (dev k =? dev (key (body o))) && (inode k =? inode (key (body o))) then mret (Some p) else chain_find fuel k (next o)
  end.

(** The stat of a [struct path]: what it holds, or what [ostatat] answers when it is not
    valid: an errno, or the file. *)
Definition of_findnameat (valid : option (Z + file_key)) (ostatat : Z + file_key) : M (option loc) :=
  match default ostatat valid with
  | inl _ => mret None
  | inr k => s ← get; first ← read_place (Bucket (hashfn k)); chain_find (size (forks s)) k first
  end.

Definition of_findname (valid : option (Z + file_key)) (ostatat : Z + file_key) : M (option loc) := of_findnameat valid ostatat.

Definition of_dealloc (ofp : loc) : M unit :=
  s ← get;
  match oforks (tab s) with
  | None => mret tt
  | Some _ =>
      of_unhash ofp;;
      o ← load ofp;
      let slot := of_refnum (body o) in
      owner ← slot_read slot;
      AFP_ASSERT (bool_decide (owner = Some ofp));;
      slot_write slot None;;
      of_freeq_push slot;;
      set_tab (fun t => with_counts (of_curr_forks t - 1) (of_peak_forks t) t);;
      update_fork_level;;
      a ← load_ad (of_ad o);
      (if 0 <? ad_refcount a then
         if ad_refcount a - 1 =? 0 then set_ads (delete (of_ad o))
         else set_ads (<[of_ad o := Adouble (ad_refcount a - 1) (ad_name a)]>)
       else AFP_ASSERT false);;
      free_fork ofp
  end.

(** ** Renaming *)

(** A directory: the address of its [struct dir], its ID and its path. *)
Record dir := Dir { d_addr : Z; d_did : Z; d_fullpath : list Z }.

Definition AFP_OK : Z := 0.
Definition AFPERR_MISC : Z := -5014.

(** [ostat] by the symlink rule of a volume: the file it finds, if any. *)
Section Rename.
Context (ostat : Z -> list Z -> option file_key).

Definition of_path_holds (f : fork) (path : list Z) : bool := bool_decide (ostat (of_vol f) path = Some (key f)).

Definition fullpath_join (parent name : list Z) : M (option (list Z)) :=
  ok ← malloc_ok; mret (if (ok : bool) then Some (parent ++ [47] ++ name) else None).

(** [dir] is never [NULL] here. *)
Definition of_name_path (f : fork) (d : dir) : M (option (list Z)) :=
  path ← fullpath_join (d_fullpath d) (of_uname f);
  mret (match path with Some p => if of_path_holds f p then Some p else None | None => None end).

Definition of_name_holds (f : fork) (d : dir) : M bool :=
  path ← of_name_path f d; mret (bool_decide (path <> None)).

(** Whether the rename concerns a fork: the name is looked at last. *)
Definition rename_concerns (vol : Z) (k : file_key) (olddir : dir) (oldupath : list Z) (f : fork) : M bool :=
  if (vol =? of_vol f) && (d_did olddir =? of_did f) && (dev k =? dev (key f)) && (inode k =? inode (key f)) then
    if bool_decide (of_uname f = oldupath) then mret true else
    h ← of_name_holds f olddir; mret (negb h)
  else mret false.

(** The new name and directory of a fork, and once of its AppleDouble; false when a
    [strdup] fails. *)
Definition rename_fork (olddir newdir : dir) (newpath newupath : list Z) (p : loc) (o : ofork) (renamed : bool) : M bool :=
  ok ← malloc_ok;
  if negb ok then mret false else
  set_body p (fun f => with_name newupath (of_did f) f);;
  ok ← (if renamed then mret true else
        ok ← malloc_ok;
        a ← load_ad (of_ad o);
        set_ads (<[of_ad o := Adouble (ad_refcount a) (if (ok : bool) then newpath else [])]>);;
        mret (ok : bool));
  if negb ok then mret false else
  (if negb (d_addr newdir =? d_addr olddir) then set_body p (fun f => with_name (of_uname f) (d_did newdir) f) else mret tt);;
  mret true.

(** The loop over a chain, with whether the AppleDouble has its new name. *)
Fixpoint rename_loop (fuel : nat) (vol : Z) (k : file_key) (olddir : dir) (oldupath : list Z) (newdir : dir)
    (newpath newupath : list Z) (ofp : option loc) (renamed : bool) : M Z :=
  match fuel, ofp with
  | _, None => mret AFP_OK
  | O, Some _ => abort Undefined
  | S fuel, Some p =>
      o ← load p;
      let rest := rename_loop fuel vol k olddir oldupath newdir newpath newupath (next o) in
      c ← rename_concerns vol k olddir oldupath (body o);
      if (c : bool) then
        ok ← rename_fork olddir newdir newpath newupath p o renamed;
        if negb ok then mret AFPERR_MISC else rest true
      else rest renamed
  end.

(** A name whose [strdup] failed is [NULL]; it is written as the empty name. *)
Definition of_rename (vol : Z) (s_of : option loc) (olddir : dir) (oldupath : list Z) (newdir : dir)
    (newpath newupath : list Z) : M Z :=
  match s_of with
  | None => mret AFP_OK
  | Some p =>
      o ← load p;
      s ← get;
      first ← read_place (Bucket (hashfn (key (body o))));
      rename_loop (size (forks s)) vol (key (body o)) olddir oldupath newdir newpath newupath first false
  end.
End Rename.

(** ** The state at the start of a session *)

Definition start : st :=
  St (Table (replicate (Z.to_nat OFORK_HASHSIZE) None) None 0 [] 0 0 0 0 0 0 0 0 0) ∅ ∅ [].
