(* ===== verification/OforkFacts.v ===== *)
(** * Open forks: lemmas

    The chains of the hash table, the ring of free slots, and the invariant that ties
    slots, chains and reference counts together. *)

From S2P Require Import Prelude Ofork.

(** ** Running computations *)

Lemma bind_ok {A B} (m : M A) (f : A -> M B) s a s1 : m s = Ok (a, s1) -> (m ≫= f) s = f a s1.
Proof. unfold mbind, M_bind. by intros ->. Qed.

Definition with_forks (h : gmap loc ofork) (s : st) : st := St (tab s) h (ads s) (allocs s).
Definition with_tab (t : table) (s : st) : st := St t (forks s) (ads s) (allocs s).

Lemma load_ok p o s : forks s !! p = Some o -> load p s = Ok (o, s).
Proof. unfold load. by intros ->. Qed.

Lemma store_ok p f s : is_Some (forks s !! p) -> store p f s = Ok (tt, with_forks (alter f p (forks s)) s).
Proof.
  intros [o Ho]. unfold store, with_forks. rewrite Ho. do 3 f_equal. apply map_eq. intros x.
  rewrite lookup_insert, lookup_alter. case_decide; [subst; by rewrite Ho|done].
Qed.

Lemma alter_live {A} (f : A -> A) p (h : gmap loc A) x : is_Some (h !! x) -> is_Some (alter f p h !! x).
Proof.
  intros [o Ho]. rewrite lookup_alter. case_decide; [subst|]; rewrite Ho; eauto.
Qed.

(** ** Chains *)

(** From the place [pp], which holds [first], the forks [l] in order, up to the value [v]. *)
Fixpoint seg (h : gmap loc ofork) (pp : place) (first : option loc) (l : list loc) (v : option loc) : Prop :=
  match l with
  | [] => first = v
  | p :: l => first = Some p /\ exists o, h !! p = Some o /\ prevp o = Some pp /\ seg h (Next_of p) (next o) l v
  end.

Definition tail_place (pp : place) (l : list loc) : place := match last l with Some p => Next_of p | None => pp end.

Lemma tail_place_cons pp p l : tail_place pp (p :: l) = tail_place (Next_of p) l.
Proof. unfold tail_place. rewrite last_cons. by destruct (last l). Qed.

Lemma seg_app h l1 : forall pp first l2 v,
  seg h pp first (l1 ++ l2) v <-> exists m, seg h pp first l1 m /\ seg h (tail_place pp l1) m l2 v.
Proof.
  induction l1 as [|p l1 IH]; intros pp first l2 v; cbn [app seg].
  - split; [intros H; by exists first|]. intros (m & -> & H). done.
  - rewrite tail_place_cons. split.
    + intros (Hf & o & Ho & Hp & H). apply IH in H as (m & H1 & H2). exists m. split; [|done]. eauto.
    + intros (m & (Hf & o & Ho & Hp & H1) & H2). split; [done|]. exists o. split; [done|]. split; [done|]. apply IH. eauto.
Qed.

(** The links of a fork. *)
Definition lk (h : gmap loc ofork) (p : loc) : option (option place * option loc) := (fun o => (prevp o, next o)) <$> h !! p.

Lemma seg_frame h h' l : forall pp first v, seg h pp first l v -> (forall p, p ∈ l -> lk h' p = lk h p) -> seg h' pp first l v.
Proof.
  induction l as [|p l IH]; intros pp first v; cbn [seg]; [done|]. intros (Hf & o & Ho & Hp & H) Hl. split; [done|].
  pose proof (Hl p ltac:(set_solver)) as E. unfold lk in E. rewrite Ho in E. destruct (h' !! p) as [o'|]; [|done].
  injection E as E1 E2. exists o'. rewrite E1, E2. split; [done|]. split; [done|]. apply IH; [done|set_solver].
Qed.

(** A new value behind the last fork. *)
Lemma seg_redirect h h' l : forall pp first v v', NoDup l -> seg h pp first l v ->
  (forall p, p ∈ l -> lk h' p = (fun x => (x.1, if decide (Next_of p = tail_place pp l) then v' else x.2)) <$> lk h p) ->
  seg h' pp (if decide (l = []) then v' else first) l v'.
Proof.
  induction l as [|p l IH]; intros pp first v v' Hnd; [done|]. cbn [seg]. intros (Hf & o & Ho & Hp & H) Hl.
  apply NoDup_cons in Hnd as [Hpl Hnd]. rewrite decide_False by done. split; [done|].
  pose proof (Hl p ltac:(set_solver)) as E. unfold lk in E. rewrite Ho in E. destruct (h' !! p) as [o'|]; [|done].
  injection E as E1 E2. rewrite tail_place_cons in Hl, E2. exists o'. split; [done|]. split; [congruence|].
  assert (next o' = if decide (l = []) then v' else next o) as ->.
  { rewrite E2. unfold tail_place. destruct (last l) as [q|] eqn:Eq.
    - apply last_Some in Eq as [l' ->]. rewrite decide_False; [|intros [= ->]; set_solver]. rewrite decide_False; [done|]. by destruct l'.
    - apply last_None in Eq as ->. by rewrite !decide_True. }
  apply IH with (v := v); [done|done|]. intros q Hq. apply Hl. set_solver.
Qed.

(** A new place in front of the first fork. *)
Lemma seg_move h h' pp pp' first l v : NoDup l -> seg h pp first l v ->
  (forall p, p ∈ l -> lk h' p = (fun x => (if decide (first = Some p) then Some pp' else x.1, x.2)) <$> lk h p) ->
  seg h' pp' first l v.
Proof.
  destruct l as [|p l]; [done|]. cbn [seg]. intros [Hpl Hnd]%NoDup_cons (Hf & o & Ho & Hp & H) Hl. split; [done|].
  pose proof (Hl p ltac:(set_solver)) as E. unfold lk in E. rewrite Ho in E. destruct (h' !! p) as [o'|] eqn:Eo; [|done].
  injection E as E1 E2. rewrite decide_True in E1 by done. exists o'. split; [done|]. split; [done|]. rewrite E2.
  eapply seg_frame; [done|]. intros q Hq. rewrite Hl by set_solver.
  destruct (lk h q) as [[??]|]; [|done]. cbn. rewrite decide_False; [done|]. intros E. rewrite Hf in E. by injection E as <-.
Qed.

(** ** The hash table *)

Definition bodies (h : gmap loc ofork) : gmap loc fork := body <$> h.
Definition owners (h : gmap loc ofork) : gmap loc loc := of_ad <$> h.

Definition in_bucket (B : gmap loc fork) (b : nat) (p : loc) : Prop := hashfn ∘ key <$> B !! p = Some b.

#[export] Instance in_bucket_dec B b p : Decision (in_bucket B b p).
Proof. unfold in_bucket. apply _. Defined.

(** The forks [H], the latest first, are those of the hash table. *)
Record hashed (t : list (option loc)) (h : gmap loc ofork) (H : list loc) : Prop := {
  ha_nodup : NoDup H;
  ha_live : forall p, p ∈ H -> is_Some (h !! p);
  ha_length : length t = Z.to_nat OFORK_HASHSIZE;
  ha_chain : forall b, (b < Z.to_nat OFORK_HASHSIZE)%nat -> exists first, t !! b = Some first /\ seg h (Bucket b) first (filter (in_bucket (bodies h) b) H) None;
  ha_out : forall p, p ∉ H -> forall o, h !! p = Some o -> prevp o = None
}.

Lemma hashfn_lt k : (hashfn k < Z.to_nat OFORK_HASHSIZE)%nat.
Proof.
  unfold hashfn, OFORK_HASHSIZE. change (64 - 1) with (Z.ones 6). rewrite Z.land_ones by lia.
  pose proof (Z.mod_pos_bound (inode k) (2 ^ 6)). lia.
Qed.

Lemma bodies_alter f p h : (forall o, body (f o) = body o) -> bodies (alter f p h) = bodies h.
Proof.
  intros Hf. apply map_eq. intros x. unfold bodies. rewrite !lookup_fmap, lookup_alter. case_decide; [|done]. subst.
  destruct (h !! x); [|done]. cbn. by rewrite Hf.
Qed.

Lemma owners_alter f p h : (forall o, of_ad (f o) = of_ad o) -> owners (alter f p h) = owners h.
Proof.
  intros Hf. apply map_eq. intros x. unfold owners. rewrite !lookup_fmap, lookup_alter. case_decide; [|done]. subst.
  destruct (h !! x); [|done]. cbn. by rewrite Hf.
Qed.

(** What a change of links leaves alone. *)
Definition same_forks (h h' : gmap loc ofork) : Prop := bodies h' = bodies h /\ owners h' = owners h.

Lemma same_forks_live h h' p : same_forks h h' -> is_Some (h !! p) <-> is_Some (h' !! p).
Proof.
  intros [H _]. apply (f_equal (.!! p)) in H. unfold bodies in H. rewrite !lookup_fmap in H.
  destruct (h !! p), (h' !! p); split; intros []; done || eauto.
Qed.

Lemma same_forks_refl h : same_forks h h.
Proof. done. Qed.
Lemma same_forks_trans h1 h2 h3 : same_forks h1 h2 -> same_forks h2 h3 -> same_forks h1 h3.
Proof. intros [? ?] [? ?]. split; congruence. Qed.

Notation nexting v := (fun o => Ofork (body o) (of_ad o) (prevp o) v).
Notation prevping v := (fun o => Ofork (body o) (of_ad o) v (next o)).

Lemma same_forks_next p v h : same_forks h (alter (nexting v) p h).
Proof. split; [by apply bodies_alter|by apply owners_alter]. Qed.
Lemma same_forks_prevp p v h : same_forks h (alter (prevping v) p h).
Proof. split; [by apply bodies_alter|by apply owners_alter]. Qed.

Lemma lk_next p v h x : lk (alter (nexting v) p h) x = (fun y => (y.1, if decide (p = x) then v else y.2)) <$> lk h x.
Proof. unfold lk. rewrite lookup_alter. case_decide; subst; destruct (h !! x); done. Qed.
Lemma lk_prevp p v h x : lk (alter (prevping v) p h) x = (fun y => (if decide (p = x) then v else y.1, y.2)) <$> lk h x.
Proof. unfold lk. rewrite lookup_alter. case_decide; subst; destruct (h !! x); done. Qed.

Lemma seg_first h pp f l : seg h pp (Some f) l None -> f ∈ l.
Proof. destruct l as [|p l]; [done|]. intros [[= ->] _]. set_solver. Qed.

(** The state after a change of links. *)
Definition relinked (t : list (option loc)) (h : gmap loc ofork) (s : st) : st := with_forks h (with_tab (with_buckets t (tab s)) s).

Lemma relinked_same s : relinked (ofork_table (tab s)) (forks s) s = s.
Proof. by destruct s as [[] ? ? ?]. Qed.

Lemma in_bucket_same h h' b p : same_forks h h' -> in_bucket (bodies h') b p <-> in_bucket (bodies h) b p.
Proof. by intros [-> _]. Qed.

Lemma filter_bucket_same h h' b (H : list loc) : same_forks h h' -> filter (in_bucket (bodies h') b) H = filter (in_bucket (bodies h) b) H.
Proof. by intros [-> _]. Qed.

Lemma in_bucket_body h p o : h !! p = Some o -> in_bucket (bodies h) (hashfn (key (body o))) p.
Proof. intros Ho. unfold in_bucket, bodies. by rewrite lookup_fmap, Ho. Qed.

Lemma in_bucket_inj B b b' p : in_bucket B b p -> in_bucket B b' p -> b = b'.
Proof. unfold in_bucket. congruence. Qed.

Lemma ha_bucket t h H p o : hashed t h H -> h !! p = Some o ->
  let b := hashfn (key (body o)) in
  exists first, t !! b = Some first /\ seg h (Bucket b) first (filter (in_bucket (bodies h) b) H) None.
Proof. intros Hh Ho b. apply (ha_chain _ _ _ Hh), hashfn_lt. Qed.

Lemma of_hash_ok s H p o : hashed (ofork_table (tab s)) (forks s) H -> p ∉ H -> forks s !! p = Some o ->
  exists t' h', of_hash p s = Ok (tt, relinked t' h' s) /\ hashed t' h' (p :: H) /\ same_forks (forks s) h'.
Proof.
  intros Hh Hp Ho. set (b := hashfn (key (body o))). destruct (ha_bucket _ _ _ p o Hh Ho) as (first & Hfirst & Hseg). fold b in Hfirst, Hseg.
  set (h := forks s) in *. set (l := filter _ H) in Hseg.
  assert (forall f, first = Some f -> f ∈ H /\ in_bucket (bodies h) b f /\ f <> p) as Hf.
  { intros f ->. apply seg_first in Hseg as Hin. apply list_elem_of_filter in Hin as [Hb Hin]. split; [done|]. split; [done|]. by intros ->. }
  set (h1 := alter (nexting first) p h). set (h2 := match first with Some f => alter (prevping (Some (Next_of p))) f h1 | None => h1 end).
  set (h3 := alter (prevping (Some (Bucket b))) p h2). set (t' := <[b := Some p]> (ofork_table (tab s))).
  assert (same_forks h h1) as S1 by apply same_forks_next.
  assert (same_forks h1 h2) as S2 by (unfold h2; destruct first; [apply same_forks_prevp|apply same_forks_refl]).
  assert (same_forks h2 h3) as S3 by apply same_forks_prevp.
  assert (same_forks h h3) as S by exact (same_forks_trans _ _ _ S1 (same_forks_trans _ _ _ S2 S3)).
  exists t', h3. split; [|split; [|done]].
  - unfold of_hash. rewrite (bind_ok _ _ _ o s) by (by apply load_ok). fold b.
    rewrite (bind_ok _ _ _ first s) by (unfold read_place, mbind, M_bind, get; by rewrite Hfirst).
    rewrite (bind_ok _ _ _ tt (with_forks h1 s)) by (apply store_ok; by exists o).
    rewrite (bind_ok _ _ _ tt (with_forks h2 s)).
    2:{ destruct first as [f|]; [|done]. apply (store_ok f _ (with_forks h1 s)). apply alter_live. destruct (Hf f eq_refl) as [Hin _]. by apply (ha_live _ _ _ Hh). }
    rewrite (bind_ok _ _ _ tt (with_forks h2 (with_tab (with_buckets t' (tab s)) s))) by done.
    apply (store_ok p _ (relinked t' h2 s)). apply (same_forks_live h h2); [exact (same_forks_trans _ _ _ S1 S2)|by exists o].
  - assert (forall x, lk h3 x = (fun y => (if decide (p = x) then Some (Bucket b) else if decide (first = Some x) then Some (Next_of p) else y.1,
        if decide (p = x) then first else y.2)) <$> lk h x) as Hlk.
    { intros x. unfold h3. rewrite lk_prevp. unfold h2. destruct first as [f|].
      - rewrite lk_prevp. unfold h1. rewrite lk_next. destruct (lk h x) as [[??]|]; [|done]. cbn. repeat case_decide; simplify_eq; done.
      - unfold h1. rewrite lk_next. destruct (lk h x) as [[??]|]; [|done]. cbn. repeat case_decide; simplify_eq; done. }
    split.
    + apply NoDup_cons. split; [done|apply Hh].
    + intros x Hx. apply (same_forks_live h h3 x S). apply elem_of_cons in Hx as [->|Hx]; [by exists o|by apply (ha_live _ _ _ Hh)].
    + unfold t'. rewrite length_insert. apply Hh.
    + intros b' Hb'. rewrite (filter_bucket_same h h3) by done. unfold t'. destruct (decide (b' = b)) as [->|Hne].
      * exists (Some p). rewrite list_lookup_insert, decide_True by (rewrite (ha_length _ _ _ Hh); done). split; [done|].
        rewrite filter_cons_True by (by apply in_bucket_body). split; [done|].
        pose proof (Hlk p) as Ep. unfold lk in Ep. rewrite Ho in Ep. destruct (h3 !! p) as [o3|]; [|done]. cbn in Ep. rewrite !decide_True in Ep by done.
        injection Ep as E1 E2. exists o3. split; [done|]. split; [done|]. rewrite E2. apply (seg_move h _ (Bucket b)); [apply NoDup_filter, Hh|done|].
        intros x Hx. rewrite Hlk. apply list_elem_of_filter in Hx as [_ Hx]. destruct (lk h x) as [[??]|]; [|done]. cbn. rewrite !(decide_False (P := p = x)) by (by intros ->). done.
      * destruct (ha_chain _ _ _ Hh b' Hb') as (first' & Ht & Hs'). exists first'. rewrite list_lookup_insert_ne by done. split; [done|].
        rewrite filter_cons_False by (intros Hb2; apply Hne, (in_bucket_inj _ _ _ _ Hb2); by apply in_bucket_body).
        eapply seg_frame; [done|]. intros x Hx. apply list_elem_of_filter in Hx as [Hbx Hx]. rewrite Hlk. destruct (lk h x) as [[??]|]; [|done]. cbn.
        rewrite !(decide_False (P := p = x)) by (by intros ->). rewrite decide_False; [done|]. intros E. destruct (Hf x E) as (_ & Hbf & _).
        by apply Hne, (in_bucket_inj _ _ _ _ Hbx).
    + intros x Hx o3 Ho3. apply not_elem_of_cons in Hx as [Hxp Hx]. pose proof (Hlk x) as E. unfold lk in E. rewrite Ho3 in E.
      destruct (h !! x) as [ox|] eqn:Eo; [|done]. cbn in E. rewrite !(decide_False (P := p = x)) in E by congruence.
      rewrite decide_False in E by (intros E'; by destruct (Hf x E')). injection E as E1 _. rewrite E1. by apply (ha_out _ _ _ Hh x).
Qed.

(** ** Leaving the hash table *)

Notation without p := (filter (fun x => x <> p)).

Lemma without_mid (p : loc) l1 l2 : NoDup (l1 ++ p :: l2) -> without p (l1 ++ p :: l2) = l1 ++ l2.
Proof.
  intros Hnd. apply NoDup_app in Hnd as (_ & H1 & [H2 _]%NoDup_cons). rewrite filter_app, filter_cons_False by tauto.
  rewrite !list_filter_all; [done|intros x Hx ->; done|intros x Hx ->; apply (H1 p Hx); set_solver].
Qed.

Lemma filter_swap (P Q : loc -> Prop) `{forall x, Decision (P x), forall x, Decision (Q x)} (l : list loc) : filter P (filter Q l) = filter Q (filter P l).
Proof. rewrite !list_filter_filter. apply list_filter_ext_in. tauto. Qed.

Definition put_place (pp : place) (v : option loc) (t : list (option loc)) : list (option loc) :=
  match pp with Bucket b => <[b := v]> t | Next_of _ => t end.
Definition put_next (pp : place) (v : option loc) (h : gmap loc ofork) : gmap loc ofork :=
  match pp with Bucket _ => h | Next_of q => alter (nexting v) q h end.

Lemma write_place_ok pp v s : (forall q, pp = Next_of q -> is_Some (forks s !! q)) ->
  write_place pp v s = Ok (tt, relinked (put_place pp v (ofork_table (tab s))) (put_next pp v (forks s)) s).
Proof.
  intros Hq. destruct pp as [b|q]; [done|]. cbn [write_place put_place put_next]. unfold set_next. rewrite store_ok by eauto.
  by destruct s as [[] ? ? ?].
Qed.

Lemma same_forks_put pp v h : same_forks h (put_next pp v h).
Proof. destruct pp; [done|apply same_forks_next]. Qed.

Lemma lk_put pp v h x : lk (put_next pp v h) x = (fun y => (y.1, if decide (Next_of x = pp) then v else y.2)) <$> lk h x.
Proof.
  destruct pp as [b|q]; cbn [put_next]; [|rewrite lk_next]; destruct (lk h x) as [[??]|]; try done; cbn; repeat case_decide; simplify_eq; done.
Qed.

(** What [of_unhash] does to the links, given the chain around [p]. *)
Definition unlinked (p : loc) (pp : place) (n : option loc) (h h' : gmap loc ofork) : Prop :=
  same_forks h h' /\ forall x, lk h' x = (fun y => (if decide (p = x) then None else if decide (n = Some x) then Some pp else y.1,
    if decide (p = x) then None else if decide (Next_of x = pp) then n else y.2)) <$> lk h x.

Lemma unhash_run s p o pp : forks s !! p = Some o -> prevp o = Some pp -> (forall q, pp = Next_of q -> is_Some (forks s !! q)) ->
  (forall n, next o = Some n -> is_Some (forks s !! n) /\ n <> p) ->
  exists h', of_unhash p s = Ok (tt, relinked (put_place pp (next o) (ofork_table (tab s))) h' s) /\ unlinked p pp (next o) (forks s) h'.
Proof.
  intros Ho Hpp Hq Hn. set (h := forks s) in *. unfold of_unhash. rewrite (bind_ok _ _ _ o s) by (by apply load_ok). rewrite Hpp.
  set (h1 := match next o with Some n => alter (prevping (Some pp)) n h | None => h end).
  assert (same_forks h h1) as S1 by (unfold h1; destruct (next o); [apply same_forks_prevp|done]).
  rewrite (bind_ok _ _ _ tt (with_forks h1 s)).
  2:{ unfold h1. destruct (next o) as [n|] eqn:En; [|by destruct s]. apply store_ok. by apply Hn. }
  assert (exists o1, h1 !! p = Some o1 /\ next o1 = next o) as (o1 & Ho1 & En1).
  { unfold h1. destruct (next o) as [n|] eqn:En; [|by exists o]. rewrite lookup_alter_ne by (by apply Hn). by exists o. }
  rewrite (bind_ok _ _ _ o1 (with_forks h1 s)) by (by apply load_ok). rewrite En1.
  rewrite (bind_ok _ _ _ _ _ (write_place_ok pp (next o) (with_forks h1 s) (fun q E => proj1 (same_forks_live h h1 q S1) (Hq q E)))).
  set (h2 := put_next pp (next o) h1). cbn [with_forks tab forks]. fold h2. assert (same_forks h1 h2) as S2 by apply same_forks_put.
  set (h3 := alter (prevping None) p h2). assert (same_forks h2 h3) as S3 by apply same_forks_prevp.
  set (t' := put_place _ _ _). set (h4 := alter (nexting None) p h3). assert (same_forks h3 h4) as S4 by apply same_forks_next.
  assert (is_Some (h2 !! p)) as L2 by (apply (same_forks_live h h2); [exact (same_forks_trans _ _ _ S1 S2)|by exists o]).
  rewrite (bind_ok _ _ _ tt (relinked t' h3 s)) by (apply (store_ok p _ (relinked t' h2 s)); done).
  exists h4. split; [apply (store_ok p _ (relinked t' h3 s)); by apply (same_forks_live h2 h3)|].
  split; [exact (same_forks_trans _ _ _ S1 (same_forks_trans _ _ _ S2 (same_forks_trans _ _ _ S3 S4)))|].
  intros x. unfold h4, h3, h2. rewrite lk_next, lk_prevp, lk_put. unfold h1. destruct (next o) as [n|]; [rewrite lk_prevp|];
    destruct (lk h x) as [[??]|]; try done; cbn; repeat case_decide; simplify_eq; done.
Qed.

Lemma put_place_other pp v t b b' : pp = Bucket b \/ (exists q, pp = Next_of q) -> b' <> b -> put_place pp v t !! b' = t !! b'.
Proof. intros [->|[q ->]] Hb; [|done]. by apply list_lookup_insert_ne. Qed.

Lemma tail_place_cases b l : tail_place (Bucket b) l = Bucket b /\ l = [] \/ exists q, tail_place (Bucket b) l = Next_of q /\ q ∈ l.
Proof.
  unfold tail_place. destruct (last l) as [q|] eqn:E; [right|left; by apply last_None in E].
  exists q. split; [done|]. apply last_Some in E as [l' ->]. set_solver.
Qed.

Lemma unhash_hashed t h H p o b l1 l2 first h' : hashed t h H -> h !! p = Some o -> b = hashfn (key (body o)) ->
  filter (in_bucket (bodies h) b) H = l1 ++ p :: l2 -> t !! b = Some first -> seg h (Bucket b) first l1 (Some p) -> seg h (Next_of p) (next o) l2 None ->
  unlinked p (tail_place (Bucket b) l1) (next o) h h' ->
  hashed (put_place (tail_place (Bucket b) l1) (next o) t) h' (without p H).
Proof.
  intros Hh Ho Hb Hl Ht H1 H2 [S Hlk]. set (pp := tail_place _ _) in *. pose proof (ha_nodup _ _ _ Hh) as Hnd.
  pose proof (NoDup_filter (in_bucket (bodies h) b) _ Hnd) as Hndl. rewrite Hl in Hndl.
  pose proof Hndl as Hnd2. apply NoDup_app in Hnd2 as (Hnd1 & Hdis & [Hp2 Hnd2]%NoDup_cons).
  assert (forall x, x ∈ l1 ++ p :: l2 -> in_bucket (bodies h) b x /\ x ∈ H) as Hin by (intros x Hx; rewrite <-Hl in Hx; by apply list_elem_of_filter in Hx).
  assert (forall n, next o = Some n -> n ∈ l2) as Hn by (intros n E; rewrite E in H2; by eapply seg_first).
  assert (forall q, pp = Next_of q -> q ∈ l1) as Hq by (intros q E; destruct (tail_place_cases b l1) as [[E' _]|(q' & E' & ?)]; unfold pp in E; congruence).
  assert (pp = Bucket b \/ exists q, pp = Next_of q) as Hpp by (destruct (tail_place_cases b l1) as [[? _]|(q & ? & _)]; [by left|right; by exists q]).
  split.
  - by apply NoDup_filter.
  - intros x [_ Hx]%list_elem_of_filter. apply (same_forks_live h h' x S). by apply (ha_live _ _ _ Hh).
  - destruct pp; cbn; rewrite ?length_insert; apply Hh.
  - intros b' Hb'. rewrite (filter_bucket_same h h') by done. rewrite filter_swap. destruct (decide (b' = b)) as [->|Hne].
    + exists (if decide (l1 = []) then next o else first). split.
      { destruct (tail_place_cases b l1) as [[E E']|(q & E & Hq1)]; unfold pp; rewrite E; cbn [put_place].
        - rewrite decide_True by done. rewrite list_lookup_insert, decide_True; [done|]. by rewrite (ha_length _ _ _ Hh).
        - rewrite decide_False; [done|]. intros ->. set_solver. }
      rewrite Hl, without_mid by done. apply seg_app. exists (next o). split.
      * apply seg_redirect with (h := h) (v := Some p); [done..|]. intros x Hx. rewrite Hlk. destruct (lk h x) as [[??]|]; [|done]. cbn.
        assert (p <> x) by (intros <-; apply (Hdis p Hx); set_solver). rewrite !(decide_False (P := p = x)) by done.
        rewrite (decide_False (P := next o = Some x)) by (intros E%Hn; apply (Hdis x Hx); set_solver). done.
      * apply (seg_move h _ (Next_of p)); [done..|]. intros x Hx. rewrite Hlk. destruct (lk h x) as [[??]|]; [|done]. cbn.
        rewrite !(decide_False (P := p = x)) by (by intros ->). rewrite (decide_False (P := Next_of x = pp)); [done|].
        intros E. apply (Hdis x); [by apply Hq|set_solver].
    + destruct (ha_chain _ _ _ Hh b' Hb') as (first' & Ht' & Hs'). exists first'. rewrite (put_place_other _ _ _ b) by done. split; [done|].
      assert (forall x, x ∈ l1 ++ p :: l2 -> x ∉ filter (in_bucket (bodies h) b') H) as Hd.
      { intros x Hx [Hb2 _]%list_elem_of_filter. apply Hne, (in_bucket_inj _ _ _ _ Hb2). by apply Hin. }
      rewrite list_filter_all by (intros x Hx ->; apply (Hd p); [set_solver|done]).
      eapply seg_frame; [done|]. intros x Hx. rewrite Hlk. destruct (lk h x) as [[??]|]; [|done]. cbn.
      rewrite !(decide_False (P := p = x)) by (intros ->; apply (Hd x); [set_solver|done]).
      rewrite (decide_False (P := next o = Some x)) by (intros E%Hn; apply (Hd x); [set_solver|done]).
      rewrite (decide_False (P := Next_of x = pp)) by (intros E; apply (Hd x); [apply elem_of_app; left; by apply Hq|done]). done.
  - intros x Hx o' Ho'. pose proof (Hlk x) as E. unfold lk in E. rewrite Ho' in E. destruct (h !! x) as [ox|] eqn:Eo; [|done].
    injection E as E _. rewrite E. destruct (decide (p = x)) as [->|Hne]; [done|].
    assert (x ∉ H) as HxH by (intros ?; apply Hx, list_elem_of_filter; done).
    rewrite decide_False by (intros E'%Hn; apply HxH, Hin; set_solver). by apply (ha_out _ _ _ Hh x).
Qed.

Lemma of_unhash_ok s H p : hashed (ofork_table (tab s)) (forks s) H -> p ∈ H ->
  exists t' h', of_unhash p s = Ok (tt, relinked t' h' s) /\ hashed t' h' (without p H) /\ same_forks (forks s) h'.
Proof.
  intros Hh Hp. destruct (ha_live _ _ _ Hh p Hp) as [o Ho]. set (b := hashfn (key (body o))).
  destruct (ha_bucket _ _ _ p o Hh Ho) as (first & Ht & Hs). fold b in Ht, Hs.
  assert (p ∈ filter (in_bucket (bodies (forks s)) b) H) as Hf by (apply list_elem_of_filter; split; [by apply in_bucket_body|done]).
  apply list_elem_of_split in Hf as (l1 & l2 & Hl). pose proof (NoDup_filter (in_bucket (bodies (forks s)) b) _ (ha_nodup _ _ _ Hh)) as Hnd. rewrite Hl in Hnd, Hs.
  apply seg_app in Hs as (m & H1 & -> & o' & Ho' & Hpp & H2). assert (o' = o) as -> by congruence.
  assert (forall x, x ∈ l1 ++ p :: l2 -> x ∈ H) as Hin by (intros x Hx; rewrite <-Hl in Hx; by apply list_elem_of_filter in Hx as [_ ?]).
  destruct (unhash_run s p o (tail_place (Bucket b) l1) Ho Hpp) as (h' & Hrun & Hun).
  - intros q E. apply (ha_live _ _ _ Hh), Hin. destruct (tail_place_cases b l1) as [[E' _]|(q' & E' & Hq')]; [congruence|].
    rewrite E in E'. injection E' as <-. set_solver.
  - intros n E. rewrite E in H2. apply seg_first in H2. split; [apply (ha_live _ _ _ Hh), Hin; set_solver|].
    intros ->. apply NoDup_app in Hnd as (_ & _ & [Hnd _]%NoDup_cons). done.
  - eexists _, h'. split; [exact Hrun|]. split; [by eapply unhash_hashed|apply Hun].
Qed.

(** ** The ring of free slots *)

Notation zlen l := (Z.of_nat (length l)).

(** From the head on, the ring holds the slots [free]. *)
Record ring (t : table) (free : list Z) : Prop := {
  ri_length : zlen (of_freeq t) = of_freeq_cap t;
  ri_head : 0 <= of_freeq_head t < of_freeq_cap t;
  ri_room : zlen free < of_freeq_cap t;
  ri_tail : of_freeq_tail t = (of_freeq_head t + zlen free) mod of_freeq_cap t;
  ri_slots : forall i x, free !! i = Some x -> of_freeq t !! Z.to_nat ((of_freeq_head t + Z.of_nat i) mod of_freeq_cap t) = Some x
}.

Lemma succ_mod c x : 0 < c -> (if x mod c + 1 =? c then 0 else x mod c + 1) = (x + 1) mod c.
Proof.
  intros Hc. pose proof (Z.mod_pos_bound x c Hc). rewrite <-(Z.add_mod_idemp_l x 1 c) by lia.
  destruct (_ =? _) eqn:E; bool_cases; [rewrite E, Z.mod_same by lia; done|rewrite (Z.mod_small (x mod c + 1)) by lia; done].
Qed.

Lemma mod_inj c a i j : 0 <= i < c -> 0 <= j < c -> (a + i) mod c = (a + j) mod c -> i = j.
Proof.
  intros Hi Hj E. assert ((i - j) mod c = 0) as E0.
  { replace (i - j) with ((a + i) - (a + j)) by lia. rewrite Zminus_mod, E, Z.sub_diag. apply Z.mod_0_l. lia. }
  apply Z.mod_divide in E0 as [k Ek]; [|lia]. assert (k < 1 /\ -1 < k) by nia. assert (k = 0) as -> by lia. lia.
Qed.

Lemma push_ok slot s free : ring (tab s) free -> zlen free + 1 < of_freeq_cap (tab s) ->
  exists q tail, let t' := with_freeq q (of_freeq_cap (tab s)) (of_freeq_head (tab s)) tail (tab s) in
    of_freeq_push slot s = Ok (tt, with_tab t' s) /\ ring t' (free ++ [slot]).
Proof.
  intros Hr Hroom. set (t := tab s) in *. set (c := of_freeq_cap t) in *. pose proof (ri_head _ _ Hr) as Hh. fold c in Hh.
  exists (<[Z.to_nat (of_freeq_tail t) := slot]> (of_freeq t)), ((of_freeq_tail t + 1) mod c). cbv zeta.
  pose proof (ri_tail _ _ Hr) as Ht. fold c in Ht.
  assert ((if of_freeq_tail t + 1 =? c then 0 else of_freeq_tail t + 1) = (of_freeq_tail t + 1) mod c) as Etail
    by (rewrite Ht, succ_mod, Z.add_mod_idemp_l by lia; done).
  split.
  - unfold of_freeq_push, mbind, M_bind, get, set_tab, of_freeq_empty. fold t c. cbn -[Z.modulo]. fold t c. rewrite Etail.
    unfold mbind, M_bind. cbn -[Z.modulo]. fold c.
    rewrite (proj2 (Z.eqb_neq _ _)); [done|]. rewrite Ht, Z.add_mod_idemp_l by lia. intros E.
    rewrite <-(Z.mod_small (of_freeq_head t) c) in E at 1 by lia. rewrite <-(Z.add_0_r (of_freeq_head t)) in E at 1.
    rewrite <-Z.add_assoc in E. apply mod_inj in E; lia.
  - split; cbn -[Z.modulo]; fold c; rewrite ?length_insert, ?length_app; cbn -[Z.modulo];
      [apply Hr|done|lia|rewrite Ht, Z.add_mod_idemp_l by lia; f_equal; lia|].
    intros i x [Hi|[Hi Hx]]%lookup_app_Some.
    + rewrite list_lookup_insert_ne; [by apply (ri_slots _ _ Hr)|]. rewrite Ht. intros E. apply lookup_lt_Some in Hi as Hlt.
      pose proof (Z.mod_pos_bound (of_freeq_head t + Z.of_nat i) c). pose proof (Z.mod_pos_bound (of_freeq_head t + zlen free) c).
      apply Z2Nat.inj in E; [|lia..]. apply mod_inj in E; lia.
    + apply list_lookup_singleton_Some in Hx as [Hi0 <-]. replace (Z.of_nat i) with (zlen free) by lia. rewrite <-Ht.
      rewrite list_lookup_insert, decide_True; [done|]. pose proof (ri_length _ _ Hr) as Hl. fold c in Hl. rewrite Ht.
      pose proof (Z.mod_pos_bound (of_freeq_head t + zlen free) c). lia.
Qed.

Lemma pop_none s : ring (tab s) [] -> of_freeq_pop s = Ok (-1, s).
Proof.
  intros [_ Hh _ Ht _]. cbn in Ht. rewrite Z.add_0_r, Z.mod_small in Ht by done.
  unfold of_freeq_pop, of_freeq_empty, mbind, M_bind, get. cbn. by rewrite Ht, Z.eqb_refl.
Qed.

Lemma pop_ok s x free : ring (tab s) (x :: free) ->
  exists head, let t' := with_freeq (of_freeq (tab s)) (of_freeq_cap (tab s)) head (of_freeq_tail (tab s)) (tab s) in
    of_freeq_pop s = Ok (x, with_tab t' s) /\ ring t' free.
Proof.
  intros Hr. set (t := tab s) in *. set (c := of_freeq_cap t) in *. pose proof (ri_head _ _ Hr) as Hh. pose proof (ri_room _ _ Hr) as Hroom.
  pose proof (ri_tail _ _ Hr) as Ht. pose proof (ri_slots _ _ Hr 0%nat x eq_refl) as H0. fold c in Hh, Hroom, Ht, H0. cbn [length] in Hroom, Ht.
  exists ((of_freeq_head t + 1) mod c). cbv zeta. split.
  - unfold of_freeq_pop, of_freeq_empty, mbind, M_bind, get. cbn -[Z.modulo]. fold t. rewrite (proj2 (Z.eqb_neq _ _)).
    + cbn -[Z.modulo]. fold t. rewrite Z.add_0_r, Z.mod_small in H0 by lia. rewrite H0. cbn -[Z.modulo]. fold t c.
      pose proof (succ_mod c (of_freeq_head t)) as Es. rewrite Z.mod_small in Es by lia. rewrite Es by lia. done.
    + rewrite Ht. intros E. rewrite <-(Z.mod_small (of_freeq_head t) c) in E at 1 by lia. rewrite <-(Z.add_0_r (of_freeq_head t)) in E at 1.
      apply mod_inj in E; lia.
  - split; cbn -[Z.modulo]; fold c.
    + apply Hr.
    + apply Z.mod_pos_bound. lia.
    + lia.
    + rewrite Ht, Z.add_mod_idemp_l by lia. f_equal. lia.
    + intros i y Hi. rewrite Z.add_mod_idemp_l by lia. rewrite <-(ri_slots _ _ Hr (S i) y Hi). fold c. do 3 f_equal. lia.
Qed.

Lemma seed_ok slots : forall s free, ring (tab s) free -> zlen free + zlen slots < of_freeq_cap (tab s) ->
  exists q tail, let t' := with_freeq q (of_freeq_cap (tab s)) (of_freeq_head (tab s)) tail (tab s) in
    seed_loop slots s = Ok (tt, with_tab t' s) /\ ring t' (free ++ slots).
Proof.
  induction slots as [|x slots IH]; intros s free Hr Hroom; cbn [seed_loop length] in *.
  - exists (of_freeq (tab s)), (of_freeq_tail (tab s)). rewrite app_nil_r. by destruct s as [[] ? ? ?].
  - destruct (push_ok x s free Hr ltac:(lia)) as (q & tail & Hp & Hr1). rewrite (bind_ok _ _ _ _ _ Hp).
    destruct (IH (with_tab (with_freeq q (of_freeq_cap (tab s)) (of_freeq_head (tab s)) tail (tab s)) s) _ Hr1) as (q' & tail' & Hs & Hr2).
    { rewrite length_app. cbn. lia. }
    exists q', tail'. rewrite <-app_assoc in Hr2. split; [exact Hs|exact Hr2].
Qed.

(** ** Shared AppleDoubles *)

(** The number of forks whose AppleDouble is [a]. *)
Definition shares (A : gmap loc loc) (a : loc) : nat := size (filter (fun kv : loc * loc => kv.2 = a) A).

Lemma shares_insert A p a b : A !! p = None -> shares (<[p := a]> A) b = ((if decide (a = b) then 1 else 0) + shares A b)%nat.
Proof.
  intros Hp. unfold shares. destruct (decide (a = b)) as [->|Hne].
  - rewrite map_filter_insert_True by done. rewrite map_size_insert_None; [lia|]. apply map_lookup_filter_None. by left.
  - rewrite map_filter_insert_False by done. rewrite delete_id by done. lia.
Qed.

Lemma shares_delete A p a b : A !! p = Some a -> shares A b = ((if decide (a = b) then 1 else 0) + shares (delete p A) b)%nat.
Proof. intros Hp. rewrite <-(insert_delete_id A p a Hp) at 1. rewrite shares_insert by apply lookup_delete_eq. done. Qed.

Lemma shares_zero A a p : shares A a = 0%nat -> A !! p <> Some a.
Proof.
  intros Hs Hp. unfold shares in Hs. apply map_size_empty_inv in Hs. apply (map_empty (filter _ A)) with (i := p) in Hs.
  rewrite map_lookup_filter_None in Hs. destruct Hs as [Hs|Hs]; [congruence|]. by apply (Hs a).
Qed.

Lemma shares_some A a p : A !! p = Some a -> (0 < shares A a)%nat.
Proof. intros Hp. rewrite (shares_delete _ _ _ _ Hp), decide_True by done. lia. Qed.

(** Every AppleDouble is counted once for each fork that shares it, and gone without one. *)
Definition counted (A : gmap loc loc) (ads : gmap loc adouble) : Prop :=
  forall a, match ads !! a with Some x => ad_refcount x = Z.of_nat (shares A a) /\ (0 < shares A a)%nat | None => shares A a = 0%nat end.

Lemma counted_share A ads p a x : counted A ads -> A !! p = None -> ads !! a = Some x ->
  counted (<[p := a]> A) (<[a := Adouble (ad_refcount x + 1) (ad_name x)]> ads).
Proof.
  intros Hc Hp Ha b. rewrite shares_insert by done. rewrite lookup_insert. specialize (Hc b). case_decide.
  - subst b. rewrite Ha in Hc. cbn. lia.
  - rewrite ?decide_False by done. cbn. destruct (ads !! b); [|done]. done.
Qed.

Lemma counted_new A ads p a name : counted A ads -> A !! p = None -> ads !! a = None -> counted (<[p := a]> A) (<[a := Adouble 1 name]> ads).
Proof.
  intros Hc Hp Ha b. rewrite shares_insert by done. rewrite lookup_insert. specialize (Hc b). case_decide.
  - subst b. rewrite Ha in Hc. cbn. lia.
  - cbn. destruct (ads !! b); [|done]. done.
Qed.

Lemma counted_drop A ads p a x : counted A ads -> A !! p = Some a -> ads !! a = Some x ->
  0 < ad_refcount x /\
  counted (delete p A) (if ad_refcount x - 1 =? 0 then delete a ads else <[a := Adouble (ad_refcount x - 1) (ad_name x)]> ads).
Proof.
  intros Hc Hp Ha. pose proof (Hc a) as Hca. rewrite Ha in Hca. split; [lia|]. intros b. pose proof (Hc b) as Hcb.
  pose proof (shares_delete A p a b Hp) as Hs. destruct (_ =? _) eqn:E; bool_cases.
  - rewrite lookup_delete. case_decide.
    + subst b. lia.
    + destruct (ads !! b); lia.
  - rewrite lookup_insert. case_decide.
    + subst b. cbn. lia.
    + destruct (ads !! b); lia.
Qed.
