(* ===== verification/OforkTable.v ===== *)
(** * Open forks: the invariant

    What makes a fork table consistent, and what opening, closing, looking up and rekeying
    a fork do to a consistent table. *)

From S2P Require Import Prelude Ofork OforkFacts.

(** ** The invariant *)

Definition listed (B : gmap loc fork) (H : list loc) : list fork := omap (B !!.) H.

(** All but the ring: every slot in use holds the fork of that number, the hash table
    holds all forks, a number is either free or in use, and the counts are right. *)
Record base (s : st) (free : list Z) (H : list loc) : Prop := {
  ba_slots : exists slots, oforks (tab s) = Some slots /\ zlen slots = nforks (tab s) /\
    forall i p, slots !! i = Some (Some p) <-> exists f, bodies (forks s) !! p = Some f /\ of_refnum f = Z.of_nat i;
  ba_size : 2 <= nforks (tab s) <= 65535;
  ba_hash : hashed (ofork_table (tab s)) (forks s) H;
  ba_all : forall p, is_Some (forks s !! p) -> p ∈ H;
  ba_refs : free ++ (of_refnum <$> listed (bodies (forks s)) H) ≡ₚ Z.of_nat <$> seq 1 (Z.to_nat (nforks (tab s)) - 1);
  ba_ads : counted (owners (forks s)) (ads s);
  ba_count : of_curr_forks (tab s) = zlen H /\ of_curr_forks (tab s) <= of_peak_forks (tab s)
}.

Record consistent (s : st) (free : list Z) (H : list loc) : Prop := {
  co_base : base s free H;
  co_ring : ring (tab s) free;
  co_cap : of_freeq_cap (tab s) = nforks (tab s) + 1
}.

Lemma ring_ext t t' free : of_freeq t' = of_freeq t -> of_freeq_cap t' = of_freeq_cap t -> of_freeq_head t' = of_freeq_head t ->
  of_freeq_tail t' = of_freeq_tail t -> ring t free -> ring t' free.
Proof. intros E1 E2 E3 E4 []. split; rewrite ?E1, ?E2, ?E3, ?E4; done. Qed.

Lemma listed_live B H : (forall p, p ∈ H -> is_Some (B !! p)) -> length (listed B H) = length H.
Proof.
  induction H as [|p H IH]; intros Hl; [done|]. destruct (Hl p ltac:(set_solver)) as [f Hf]. unfold listed in *. cbn. rewrite Hf. cbn.
  rewrite IH; [done|]. set_solver.
Qed.

Lemma listed_elem B H f : f ∈ listed B H <-> exists p, p ∈ H /\ B !! p = Some f.
Proof. unfold listed. apply list_elem_of_omap. Qed.

Lemma listed_ext B B' H : (forall p, p ∈ H -> B' !! p = B !! p) -> listed B' H = listed B H.
Proof.
  induction H as [|p H IH]; intros Hl; [done|]. unfold listed in *. cbn. rewrite (Hl p), IH by set_solver. done.
Qed.

Lemma bodies_lookup h p : bodies h !! p = body <$> h !! p.
Proof. apply lookup_fmap. Qed.
Lemma owners_lookup h p : owners h !! p = of_ad <$> h !! p.
Proof. apply lookup_fmap. Qed.

Section Base.
Context (s : st) (free : list Z) (H : list loc) (Hb : base s free H).

Lemma base_nodup : NoDup (free ++ (of_refnum <$> listed (bodies (forks s)) H)).
Proof. rewrite (ba_refs _ _ _ Hb). apply (NoDup_fmap_2 _). apply NoDup_seq. Qed.

Lemma base_range x : x ∈ free ++ (of_refnum <$> listed (bodies (forks s)) H) -> 1 <= x < nforks (tab s).
Proof. rewrite (ba_refs _ _ _ Hb). intros (n & -> & Hn)%list_elem_of_fmap. apply elem_of_seq in Hn. lia. Qed.

Lemma base_length : zlen free + zlen H = nforks (tab s) - 1.
Proof.
  pose proof (ba_size _ _ _ Hb). pose proof (Permutation_length (ba_refs _ _ _ Hb)) as E.
  rewrite length_app, !length_fmap, length_seq, listed_live in E; [lia|].
  intros p Hp. rewrite bodies_lookup. destruct (ha_live _ _ _ (ba_hash _ _ _ Hb) p Hp) as [o ->]. eauto.
Qed.

Lemma base_fork p o : forks s !! p = Some o -> p ∈ H /\ of_refnum (body o) ∈ of_refnum <$> listed (bodies (forks s)) H.
Proof.
  intros Ho. assert (p ∈ H) as Hp by (apply (ba_all _ _ _ Hb); eauto). split; [done|]. apply list_elem_of_fmap. exists (body o). split; [done|].
  apply listed_elem. exists p. by rewrite bodies_lookup, Ho.
Qed.

Lemma base_slot_free x : x ∈ free -> slot_read x s = Ok (None, s).
Proof.
  intros Hx. destruct (ba_slots _ _ _ Hb) as (slots & Hs & Hl & Hin). pose proof (base_range x ltac:(set_solver)) as Hr.
  unfold slot_read, mbind, M_bind, get. rewrite Hs. destruct (lookup_lt_is_Some_2 slots (Z.to_nat x) ltac:(lia)) as [v Hv]. rewrite Hv.
  destruct v as [p|]; [exfalso|done]. apply Hin in Hv as (f & Hf & Hn). rewrite bodies_lookup in Hf. destruct (forks s !! p) as [o|] eqn:Ho; [|done].
  injection Hf as <-. destruct (base_fork p o Ho) as [_ Hin2]. rewrite Z2Nat.id in Hn by lia. rewrite Hn in Hin2.
  pose proof base_nodup as (_ & Hd & _)%NoDup_app. by apply (Hd x).
Qed.

Lemma base_slot_used p o : forks s !! p = Some o -> slot_read (of_refnum (body o)) s = Ok (Some p, s).
Proof.
  intros Ho. destruct (ba_slots _ _ _ Hb) as (slots & Hs & Hl & Hin). destruct (base_fork p o Ho) as [_ Hin2].
  pose proof (base_range _ ltac:(apply elem_of_app; right; exact Hin2)) as Hr.
  unfold slot_read, mbind, M_bind, get. rewrite Hs. assert (slots !! Z.to_nat (of_refnum (body o)) = Some (Some p)) as ->; [|done].
  apply Hin. exists (body o). rewrite bodies_lookup, Ho. split; [done|]. lia.
Qed.

Lemma base_unique p q o o' : forks s !! p = Some o -> forks s !! q = Some o' -> of_refnum (body o) = of_refnum (body o') -> p = q.
Proof.
  intros Ho Ho' E. pose proof (base_slot_used p o Ho) as E1. pose proof (base_slot_used q o' Ho') as E2. rewrite E in E1. congruence.
Qed.

End Base.

(** ** Closing *)

Lemma listed_without B H p f : NoDup H -> p ∈ H -> B !! p = Some f ->
  listed B H ≡ₚ f :: listed (delete p B) (without p H).
Proof.
  intros Hnd Hp Hf. apply list_elem_of_split in Hp as (l1 & l2 & ->). rewrite without_mid by done.
  apply NoDup_app in Hnd as (_ & H1 & [H2 _]%NoDup_cons).
  rewrite (listed_ext B (delete p B)).
  - unfold listed. rewrite !omap_app. cbn. rewrite Hf. cbn. by rewrite Permutation_middle.
  - intros q Hq. rewrite lookup_delete_ne; [done|]. intros <-. apply elem_of_app in Hq as [Hq|Hq]; [|done]. apply (H1 p Hq). set_solver.
Qed.

(** A change outside the hash table. *)
Lemma hashed_frame t h h' H : hashed t h H -> (forall q, q ∈ H -> h' !! q = h !! q) -> (forall q o, q ∉ H -> h' !! q = Some o -> prevp o = None) -> hashed t h' H.
Proof.
  intros Hh Hin Hout. split; [apply Hh|..].
  - intros q Hq. rewrite Hin by done. by apply Hh.
  - apply Hh.
  - intros b Hb. destruct (ha_chain _ _ _ Hh b Hb) as (first & Ht & Hs). exists first. split; [done|].
    assert (filter (in_bucket (bodies h') b) H = filter (in_bucket (bodies h) b) H) as ->.
    { apply list_filter_ext_in. intros q Hq. unfold in_bucket, bodies. rewrite !lookup_fmap, Hin by done. done. }
    eapply seg_frame; [done|]. intros q [_ Hq]%list_elem_of_filter. unfold lk. by rewrite Hin.
  - intros q Hq o. by apply Hout.
Qed.

Lemma hashed_drop t h H p : hashed t h H -> p ∉ H -> hashed t (delete p h) H.
Proof.
  intros Hh Hp. eapply hashed_frame; [done|intros q Hq; apply lookup_delete_ne; by intros ->|].
  intros q o Hq. rewrite lookup_delete. case_decide; [done|]. by apply Hh.
Qed.

Lemma same_forks_body h h' p o : same_forks h h' -> h !! p = Some o -> exists o', h' !! p = Some o' /\ body o' = body o /\ of_ad o' = of_ad o.
Proof.
  intros [E1 E2] Ho. apply (f_equal (.!! p)) in E1, E2. rewrite !bodies_lookup, Ho in E1. rewrite !owners_lookup, Ho in E2.
  destruct (h' !! p) as [o'|]; [|done]. exists o'. split; [done|]. injection E1. injection E2. done.
Qed.

(** The table after a fork left its slot. *)
Lemma slots_without s p o free H slots : base s free H -> forks s !! p = Some o -> oforks (tab s) = Some slots ->
  zlen slots = nforks (tab s) -> (forall i q, slots !! i = Some (Some q) <-> exists f, bodies (forks s) !! q = Some f /\ of_refnum f = Z.of_nat i) ->
  let slots' := <[Z.to_nat (of_refnum (body o)) := None]> slots in
  zlen slots' = nforks (tab s) /\
  forall i q, slots' !! i = Some (Some q) <-> exists f, delete p (bodies (forks s)) !! q = Some f /\ of_refnum f = Z.of_nat i.
Proof.
  intros Hb Ho Hs Hl Hin. destruct (base_fork _ _ _ Hb p o Ho) as [Hp Href].
  pose proof (base_range _ _ _ Hb (of_refnum (body o)) ltac:(set_solver)) as Hr. cbv zeta. split; [by rewrite length_insert|]. intros i q.
  rewrite list_lookup_insert, lookup_delete. destruct (decide (Z.to_nat (of_refnum (body o)) = i /\ _)) as [[<- Hlt]|Hne].
  - split; [done|]. intros (f & Hf & E). exfalso. case_decide as Hpq; [done|]. rewrite bodies_lookup in Hf. destruct (forks s !! q) as [o'|] eqn:Eq; [|done].
    injection Hf as <-. apply Hpq. eapply (base_unique s free H Hb p q o o'); [done..|]. lia.
  - rewrite Hin. split; intros (f & Hf & E); exists f.
    + split; [|done]. rewrite decide_False; [done|]. intros <-. rewrite bodies_lookup, Ho in Hf. injection Hf as <-. apply Hne. lia.
    + split; [|done]. by case_decide.
Qed.

Lemma bodies_delete h p : bodies (delete p h) = delete p (bodies h).
Proof. apply fmap_delete. Qed.
Lemma owners_delete h p : owners (delete p h) = delete p (owners h).
Proof. apply fmap_delete. Qed.

Lemma of_dealloc_ok s free H p o : consistent s free H -> forks s !! p = Some o ->
  exists s', of_dealloc p s = Ok (tt, s') /\ consistent s' (free ++ [of_refnum (body o)]) (without p H) /\
    bodies (forks s') = delete p (bodies (forks s)) /\ owners (forks s') = delete p (owners (forks s)) /\ allocs s' = allocs s /\ nforks (tab s') = nforks (tab s).
Proof.
  intros [Hb Hr Hcap] Ho. destruct (base_fork _ _ _ Hb p o Ho) as [Hp Href]. destruct (ba_slots _ _ _ Hb) as (slots & Hs & Hl & Hin).
  destruct (slots_without s p o free H slots Hb Ho Hs Hl Hin) as [Hl' Hin']. unfold of_dealloc.
  rewrite (bind_ok _ _ _ s s) by done. rewrite Hs.
  destruct (of_unhash_ok s H p (ba_hash _ _ _ Hb) Hp) as (t1 & h1 & Hrun & Hh1 & S1). rewrite (bind_ok _ _ _ _ _ Hrun). clear Hrun.
  destruct (same_forks_body _ _ p o S1 Ho) as (o1 & Ho1 & Eb & Ea). rewrite (bind_ok _ _ _ o1 (relinked t1 h1 s)) by (by apply load_ok).
  rewrite Eb, Ea. set (slot := of_refnum (body o)) in *.
  rewrite (bind_ok _ _ _ (Some p) (relinked t1 h1 s)).
  2:{ pose proof (base_slot_used _ _ _ Hb p o Ho) as E. fold slot in E. unfold slot_read, mbind, M_bind, get in *. cbn. rewrite Hs in *.
      destruct (slots !! Z.to_nat slot); [|done]. by injection E as ->. }
  rewrite bool_decide_eq_true_2 by done. rewrite (bind_ok _ _ _ tt (relinked t1 h1 s)) by done.
  set (tb := with_slots (Some (<[Z.to_nat slot := None]> slots)) (nforks (tab s)) (with_buckets t1 (tab s))).
  rewrite (bind_ok _ _ _ tt (with_forks h1 (with_tab tb s))) by (unfold slot_write, set_tab; cbn; by rewrite Hs).
  destruct (push_ok slot (with_forks h1 (with_tab tb s)) free) as (q & tail & Hpush & Hr2).
  { eapply ring_ext; [..|exact Hr]; done. }
  { cbn. pose proof (base_length _ _ _ Hb). lia. }
  rewrite (bind_ok _ _ _ _ _ Hpush). clear Hpush.
  rewrite (bind_ok _ _ _ _ _ eq_refl). unfold update_fork_level at 1. rewrite (bind_ok _ _ _ _ _ eq_refl).
  pose proof (ba_ads _ _ _ Hb) as Hads. assert (owners (forks s) !! p = Some (of_ad o)) as Hown by (by rewrite owners_lookup, Ho).
  destruct (ads s !! of_ad o) as [a|] eqn:Ead.
  2:{ specialize (Hads (of_ad o)). rewrite Ead in Hads. by apply (shares_zero _ _ p) in Hads. }
  destruct (counted_drop _ _ p _ a Hads Hown Ead) as [Hpos Hcount].
  erewrite (bind_ok (load_ad (of_ad o))) by (unfold load_ad; cbn; rewrite Ead; reflexivity).
  rewrite (proj2 (Z.ltb_lt _ _)) by done.
  set (ads' := if ad_refcount a - 1 =? 0 then _ else _) in Hcount.
  erewrite (bind_ok (if ad_refcount a - 1 =? 0 then _ else _) _ _ tt (St _ _ ads' _)) by (unfold ads'; destruct (_ =? 0); reflexivity).
  eexists. split; [reflexivity|]. split; [split; [|eapply ring_ext; [..|exact Hr2]; done|exact Hcap]|].
  - pose proof (ha_nodup _ _ _ (ba_hash _ _ _ Hb)) as Hnd. assert (bodies h1 = bodies (forks s)) as EB by apply S1.
    split; cbn; rewrite ?bodies_delete, ?owners_delete, ?EB.
    + eexists. split; [reflexivity|]. split; [exact Hl'|exact Hin'].
    + apply Hb.
    + apply hashed_drop; [done|]. intros [? _]%list_elem_of_filter. done.
    + intros x. rewrite lookup_delete. case_decide; [by intros []|]. intros Hx. apply list_elem_of_filter. split; [done|].
      apply (ba_all _ _ _ Hb). by apply (same_forks_live (forks s) h1).
    + rewrite <-(ba_refs _ _ _ Hb). rewrite (listed_without _ _ p (body o) Hnd Hp) by (by rewrite bodies_lookup, Ho).
      cbn. rewrite <-app_assoc. done.
    + destruct S1 as [_ ->]. exact Hcount.
    + destruct (ba_count _ _ _ Hb) as [E1 E2]. rewrite E1 in *. apply list_elem_of_split in Hp as (l1 & l2 & ->). rewrite without_mid by done.
      rewrite !length_app in *. cbn [length] in *. lia.
  - cbn. rewrite bodies_delete, owners_delete. destruct S1 as [-> ->]. done.
Qed.

(** ** Opening *)

Lemma base_perm s free free' H : free ≡ₚ free' -> base s free H -> base s free' H.
Proof. intros E []. split; try done. by rewrite <-E. Qed.

Lemma base_freeq s free H q c hd tl l : base s free H -> base (St (with_freeq q c hd tl (tab s)) (forks s) (ads s) l) free H.
Proof. intros []. by split. Qed.

Lemma consistent_allocs s free H l : consistent s free H -> consistent (St (tab s) (forks s) (ads s) l) free H.
Proof. intros [[] ? ?]. by split. Qed.

Lemma malloc_run s : exists b l, malloc_ok s = Ok (b, St (tab s) (forks s) (ads s) l) /\ (allocs s = [] -> b = true /\ l = []).
Proof.
  unfold malloc_ok. destruct (allocs s) as [|b l] eqn:E; [exists true, []|by exists b, l].
  split; [|done]. rewrite <-E. by destruct s.
Qed.

Lemma take_ad_ok path ad s : (forall a, ad = Some a -> is_Some (ads s !! a)) -> counted (owners (forks s)) (ads s) ->
  exists r ads' l, take_ad path ad s = Ok (r, St (tab s) (forks s) ads' l) /\ (allocs s = [] -> l = []) /\
    match r with
    | None => allocs s <> [] /\ ads' = ads s
    | Some a => (forall p, owners (forks s) !! p = None -> counted (<[p := a]> (owners (forks s))) ads') /\ default a ad = a
    end.
Proof.
  intros Hlive Hc. unfold take_ad. destruct ad as [a|].
  - destruct (Hlive a eq_refl) as [x Hx]. exists (Some a). do 2 eexists. split.
    { rewrite (bind_ok _ _ _ x s) by (unfold load_ad; by rewrite Hx). reflexivity. }
    split; [done|]. split; [|done]. intros p Hp. by apply counted_share.
  - destruct (malloc_run s) as (b & l & E & Hl). rewrite (bind_ok _ _ _ _ _ E). destruct b; cbn [negb].
    + destruct (malloc_run (St (tab s) (forks s) (ads s) l)) as (b' & l' & E' & Hl'). rewrite (bind_ok _ _ _ _ _ E'). destruct b'; cbn [negb].
      * exists (Some (fresh (dom (ads s)))). do 2 eexists. split; [reflexivity|]. split; [intros Ha; by apply Hl', Hl|]. split; [|done].
        intros p Hp. apply counted_new; [done|done|]. apply not_elem_of_dom, is_fresh.
      * exists None, (ads s), l'. split; [done|]. split; [intros Ha; by apply Hl', Hl|]. split; [|done].
        intros Ha. destruct (Hl Ha) as [_ ->]. by destruct (Hl' eq_refl).
    + exists None, (ads s), l. split; [done|]. split; [intros Ha; by destruct (Hl Ha)|]. split; [|done]. intros Ha. by destruct (Hl Ha).
Qed.

Lemma hashed_new t h H p f a : hashed t h H -> h !! p = None -> hashed t (<[p := Ofork f a None None]> h) H.
Proof.
  intros Hh Hp. eapply hashed_frame; [done|..].
  - intros q Hq. apply lookup_insert_ne. intros <-. destruct (ha_live _ _ _ Hh p Hq). congruence.
  - intros q o Hq. rewrite lookup_insert. case_decide; [by intros [= <-]|]. by apply Hh.
Qed.

Lemma listed_cons B H p f : p ∉ H -> listed (<[p := f]> B) (p :: H) = f :: listed B H.
Proof.
  intros Hp. unfold listed at 1. cbn. rewrite lookup_insert_eq. cbn. f_equal. apply listed_ext. intros q Hq. apply lookup_insert_ne. by intros <-.
Qed.

(** The slot of a new fork. *)
Lemma slots_with s free H slots x p f : base s free H -> x ∈ free -> oforks (tab s) = Some slots ->
  zlen slots = nforks (tab s) -> (forall i q, slots !! i = Some (Some q) <-> exists f, bodies (forks s) !! q = Some f /\ of_refnum f = Z.of_nat i) ->
  forks s !! p = None -> of_refnum f = x ->
  let slots' := <[Z.to_nat x := Some p]> slots in
  zlen slots' = nforks (tab s) /\
  forall i q, slots' !! i = Some (Some q) <-> exists g, <[p := f]> (bodies (forks s)) !! q = Some g /\ of_refnum g = Z.of_nat i.
Proof.
  intros Hb Hx Hs Hl Hin Hp Hf. pose proof (base_range _ _ _ Hb x ltac:(set_solver)) as Hr. cbv zeta. split; [by rewrite length_insert|]. intros i q.
  rewrite list_lookup_insert, lookup_insert. destruct (decide (Z.to_nat x = i /\ _)) as [[<- Hlt]|Hne].
  - split; [intros [= <-]; exists f; rewrite decide_True by done; split; [done|lia]|]. intros (g & Hg & E). case_decide as Hpq; [by subst|]. exfalso.
    rewrite bodies_lookup in Hg. destruct (forks s !! q) as [o'|] eqn:Eq; [|done]. injection Hg as <-.
    pose proof (base_slot_used _ _ _ Hb q o' Eq) as E1. rewrite E, Z2Nat.id in E1 by lia. by rewrite (base_slot_free _ _ _ Hb x Hx) in E1.
  - rewrite Hin. split; intros (g & Hg & E); exists g.
    + split; [|done]. rewrite decide_False; [done|]. intros <-. by rewrite bodies_lookup, Hp in Hg.
    + split; [|done]. case_decide; [|done]. injection Hg as <-. exfalso. apply Hne. lia.
Qed.

Definition new_body (k : file_key) (vol : Z) (upath : list Z) (did : Z) (eid : eid_t) (slot : Z) : fork :=
  Fork k vol upath did slot (match eid with ADEID_DFORK => AFPFORK_DATA | ADEID_RFORK => AFPFORK_RSRC end) 0.

(** The free slot [x] given to a fork whose AppleDouble is counted already. *)
Lemma fill_ok s x rest H f a ads0 l : base s (x :: rest) H -> ring (tab s) rest -> of_freeq_cap (tab s) = nforks (tab s) + 1 -> of_refnum f = x ->
  (forall p, owners (forks s) !! p = None -> counted (<[p := a]> (owners (forks s))) ads0) ->
  exists p s', (p ← new_fork f a; slot_write x (Some p);; of_hash p;;
      set_tab (fun t => let curr := of_curr_forks t + 1 in with_counts curr (if of_peak_forks t <? curr then curr else of_peak_forks t) t);;
      mret (Some p)) (St (tab s) (forks s) ads0 l) = Ok (Some p, s') /\
    allocs s' = l /\ nforks (tab s') = nforks (tab s) /\ consistent s' rest (p :: H) /\ forks s !! p = None /\
    bodies (forks s') = <[p := f]> (bodies (forks s)) /\ owners (forks s') = <[p := a]> (owners (forks s)).
Proof.
  intros Hb Hr Hcap Hf Hads. destruct (ba_slots _ _ _ Hb) as (slots & Hs & Hl & Hin). set (p := fresh (dom (forks s))).
  assert (forks s !! p = None) as Hp by apply not_elem_of_dom, is_fresh.
  assert (p ∉ H) as HpH by (intros Hp'; destruct (ha_live _ _ _ (ba_hash _ _ _ Hb) p Hp'); congruence).
  destruct (slots_with s _ H slots x p f Hb ltac:(set_solver) Hs Hl Hin Hp Hf) as [Hl' Hin'].
  set (h := <[p := Ofork f a None None]> (forks s)). rewrite (bind_ok _ _ _ p (St (tab s) h ads0 l)) by done.
  set (tb := with_slots (Some (<[Z.to_nat x := Some p]> slots)) (nforks (tab s)) (tab s)).
  rewrite (bind_ok _ _ _ tt (St tb h ads0 l)) by (unfold slot_write, set_tab; cbn; by rewrite Hs).
  assert (hashed (ofork_table tb) h H) as Hh by (apply hashed_new; [apply Hb|done]).
  destruct (of_hash_ok (St tb h ads0 l) H p (Ofork f a None None) Hh HpH ltac:(apply lookup_insert_eq)) as (t' & h' & Hrun & Hh' & S).
  rewrite (bind_ok _ _ _ _ _ Hrun). rewrite (bind_ok _ _ _ _ _ eq_refl).
  assert (bodies h' = <[p := f]> (bodies (forks s))) as EB by (destruct S as [-> _]; cbn; unfold h, bodies; by rewrite fmap_insert).
  assert (owners h' = <[p := a]> (owners (forks s))) as EO by (destruct S as [_ ->]; cbn; unfold h, owners; by rewrite fmap_insert).
  exists p. eexists. split; [reflexivity|]. split; [done|]. split; [done|]. split; [|done]. split; [|eapply ring_ext; [..|exact Hr]; done|exact Hcap].
  split; cbn -[bodies owners listed]; rewrite ?EB, ?EO.
  - eexists. split; [reflexivity|]. done.
  - apply Hb.
  - exact Hh'.
  - intros q Hq. apply (same_forks_live h h') in Hq; [|exact S]. unfold h in Hq. rewrite lookup_insert in Hq. case_decide as E; [subst; set_solver|].
    apply list_elem_of_further, (ba_all _ _ _ Hb q Hq).
  - rewrite listed_cons by done. cbn. rewrite Hf, <-Permutation_middle. exact (ba_refs _ _ _ Hb).
  - apply Hads. by rewrite owners_lookup, Hp.
  - destruct (ba_count _ _ _ Hb) as [E1 E2]. rewrite E1 in *. destruct (_ <? _) eqn:E; bool_cases; lia.
Qed.

(** What [of_alloc] returns and leaves: nothing when no slot is free or an allocation
    fails, which puts the slot at the end of the free ones, and otherwise the fork with
    the slot that has been free for the longest time. *)
Definition alloc_post (k : file_key) (vol : Z) (upath : list Z) (did : Z) (eid : eid_t) (ad : option loc) (s : st) (free : list Z) (H : list loc)
    (s' : st) (r : option loc) : Prop :=
  match r with
  | None => (free = [] /\ consistent s' free H \/ exists x rest, free = x :: rest /\ allocs s <> [] /\ consistent s' (rest ++ [x]) H) /\
      bodies (forks s') = bodies (forks s) /\ owners (forks s') = owners (forks s)
  | Some p => exists x rest a, free = x :: rest /\ consistent s' rest (p :: H) /\ forks s !! p = None /\
      bodies (forks s') = <[p := new_body k vol upath did eid x]> (bodies (forks s)) /\ owners (forks s') = <[p := a]> (owners (forks s)) /\ default a ad = a
  end.

Lemma of_alloc_ok fdlimit vol did path upath eid ad k s free H : consistent s free H -> (forall a, ad = Some a -> is_Some (ads s !! a)) ->
  exists r s', of_alloc fdlimit vol did path upath eid ad k s = Ok (r, s') /\ (allocs s = [] -> allocs s' = []) /\ nforks (tab s') = nforks (tab s) /\
    alloc_post k vol upath did eid ad s free H s' r.
Proof.
  intros [Hb Hr Hcap] Hlive. destruct (ba_slots _ _ _ Hb) as (slots & Hs & Hl & Hin). unfold of_alloc.
  rewrite (bind_ok _ _ _ s s) by done. rewrite Hs, (bind_ok _ _ _ true s) by done. cbn [negb]. destruct free as [|x rest].
  { rewrite (bind_ok _ _ _ _ _ (pop_none s Hr)), (bind_ok _ _ _ s s) by done. exists None, s. split; [done|]. split; [done|]. split; [done|]. split; [by left|done]. }
  destruct (pop_ok s x rest Hr) as (hd & Hpop & Hr1). rewrite (bind_ok _ _ _ _ _ Hpop). set (t1 := with_freeq _ _ _ _ _) in Hr1 |- *.
  rewrite (bind_ok _ _ _ (with_tab t1 s) (with_tab t1 s)) by done. pose proof (base_range _ _ _ Hb x ltac:(set_solver)) as Hx.
  change (nforks (tab (with_tab t1 s))) with (nforks (tab s)). destruct (_ || _) eqn:E; [bool_lia|clear E].
  assert (forall l, base (St t1 (forks s) (ads s) l) (x :: rest) H) as Hb1 by (intros l; by apply base_freeq).
  rewrite (bind_ok _ _ _ None (with_tab t1 s)) by (apply (base_slot_free _ _ _ (Hb1 (allocs s))); set_solver).
  rewrite bool_decide_eq_true_2, (bind_ok _ _ _ tt (with_tab t1 s)) by done.
  (* every failure gives the slot back *)
  assert (forall l, allocs s <> [] -> exists r s', (of_freeq_push x;; mret None) (St t1 (forks s) (ads s) l) = Ok (r, s') /\
    (allocs s = [] -> allocs s' = []) /\ nforks (tab s') = nforks (tab s) /\ alloc_post k vol upath did eid ad s (x :: rest) H s' r) as Hback.
  { intros l Hne. destruct (push_ok x (St t1 (forks s) (ads s) l) rest Hr1) as (q & tl & Hp & Hr2).
    { cbn. pose proof (base_length _ _ _ Hb) as Hlen. cbn in Hlen. lia. }
    exists None. eexists. split; [rewrite (bind_ok _ _ _ _ _ Hp); reflexivity|]. split; [done|]. split; [done|]. split; [|done]. right. exists x, rest.
    split; [done|]. split; [done|]. split; [|exact Hr2|exact Hcap].
    apply (base_freeq (St t1 (forks s) (ads s) l)), (base_perm _ (x :: rest)); [by rewrite Permutation_cons_append|apply Hb1]. }
  assert (forall l, slot_write x None (St t1 (forks s) (ads s) l) = Ok (tt, St t1 (forks s) (ads s) l)) as Hclear.
  { intros l. unfold slot_write, set_tab. cbn. rewrite Hs. cbn. rewrite list_insert_id; [by rewrite <-Hs; unfold t1; destruct (tab s)|].
    pose proof (base_slot_free _ _ _ Hb x ltac:(set_solver)) as E. unfold slot_read, mbind, M_bind, get in E. rewrite Hs in E.
    destruct (slots !! Z.to_nat x); [by injection E as ->|done]. }
  destruct (malloc_run (with_tab t1 s)) as (b1 & l1 & E1 & Hl1). rewrite (bind_ok _ _ _ _ _ E1). cbn [with_tab tab forks ads allocs] in *.
  destruct b1; cbn [negb]; [|apply Hback; intros Ha; by destruct (Hl1 Ha)].
  destruct (malloc_run (St t1 (forks s) (ads s) l1)) as (b2 & l2 & E2 & Hl2). rewrite (bind_ok _ _ _ _ _ E2). cbn [tab forks ads allocs] in *.
  destruct b2; cbn [negb].
  2:{ rewrite (bind_ok _ _ _ _ _ (Hclear l2)). apply Hback. intros Ha. destruct (Hl1 Ha) as [_ E]. by destruct (Hl2 E). }
  destruct (take_ad_ok path ad (St t1 (forks s) (ads s) l2) Hlive (ba_ads _ _ _ Hb)) as (r & ads' & l3 & E3 & Hl3 & Hres).
  rewrite (bind_ok _ _ _ _ _ E3). cbn [tab forks ads allocs] in *. destruct r as [a|].
  - destruct Hres as [Hcnt Hdef].
    destruct (fill_ok (St t1 (forks s) (ads s) l2) x rest H (new_body k vol upath did eid x) a ads' l3 (Hb1 l2) Hr1 Hcap eq_refl Hcnt)
      as (p & s' & Hrun & Ha & Hn & Hc & Hp & EB & EO).
    exists (Some p), s'. split; [exact Hrun|]. split; [intros Ha0; rewrite Ha; by apply Hl3, Hl2, Hl1|]. split; [exact Hn|]. exists x, rest, a. done.
  - destruct Hres as [Hne ->]. rewrite (bind_ok _ _ _ _ _ (Hclear l3)). apply Hback. intros Ha. destruct (Hl1 Ha) as [_ E]. by destruct (Hl2 E).
Qed.

(** The first call sizes the table. *)
Definition table_size (fdlimit : Z) : Z := Z.max 2 (Z.min (fdlimit ÷ 2) 65535).

Record unsized (s : st) : Prop := {
  un_none : oforks (tab s) = None;
  un_forks : forks s = ∅;
  un_ads : ads s = ∅;
  un_table : ofork_table (tab s) = replicate (Z.to_nat OFORK_HASHSIZE) None;
  un_ring : of_freeq_head (tab s) = 0 /\ of_freeq_tail (tab s) = 0;
  un_count : of_curr_forks (tab s) = 0 /\ 0 <= of_peak_forks (tab s)
}.

Definition all_slots (n : Z) : list Z := Z.of_nat <$> seq 1 (Z.to_nat n - 1).

Lemma hashed_empty : hashed (replicate (Z.to_nat OFORK_HASHSIZE) None) ∅ [].
Proof.
  split; [constructor|by intros p ?%elem_of_nil|apply length_replicate| |done].
  intros b Hb. exists None. split; [by apply lookup_replicate_2|done].
Qed.

Lemma table_init_ok fdlimit s : unsized s -> exists b s', table_init fdlimit s = Ok (b, s') /\ (allocs s = [] -> b = true /\ allocs s' = []) /\
  if b : bool then consistent s' (all_slots (table_size fdlimit)) [] /\ nforks (tab s') = table_size fdlimit /\ forks s' = ∅ /\ ads s' = ∅ else unsized s'.
Proof.
  intros Hu. unfold table_init. set (n := if _ <? 0xffff then _ else _).
  assert (n = table_size fdlimit) as ->.
  { subst n. unfold table_size. generalize (fdlimit ÷ 2). intros c. destruct (c <? 2) eqn:Ec; [|destruct (c <? 0xffff) eqn:Ed]; bool_cases; cbn; lia. }
  set (n := table_size fdlimit).
  assert (2 <= n <= 65535) as Hn by (unfold n, table_size; lia).
  destruct (malloc_run s) as (b1 & l1 & E1 & Hl1). rewrite (bind_ok _ _ _ _ _ E1).
  destruct (malloc_run (St (tab s) (forks s) (ads s) l1)) as (b2 & l2 & E2 & Hl2). rewrite (bind_ok _ _ _ _ _ E2). cbn [tab forks ads allocs] in *.
  rewrite (bind_ok _ _ _ _ _ eq_refl). destruct Hu as [H1 H2 H3 H4 [H5 H6] H7]. destruct (b1 && b2) eqn:Eb; cbn [negb].
  - rewrite (bind_ok _ _ _ _ _ eq_refl), (bind_ok _ _ _ _ _ eq_refl).
    match goal with |- context [mbind _ (seed_loop _) ?s0] => set (s1 := s0) end.
    destruct (seed_ok (all_slots n) s1 []) as (q & tl & Hseed & Hr).
    + split; cbn; rewrite ?length_replicate, ?H5, ?H6; try done; lia.
    + cbn. unfold all_slots. rewrite length_fmap, length_seq. lia.
    + fold (all_slots n). rewrite (bind_ok _ _ _ _ _ Hseed). exists true. eexists. split; [reflexivity|].
      split; [intros Ha; split; [done|]; cbn; by apply Hl2, Hl1|]. cbn -[replicate] in *. split; [|done]. split; [|exact Hr|done].
      split; cbn -[replicate]; rewrite ?H2, ?H3, ?H4; cbn -[replicate].
      * eexists. split; [reflexivity|]. rewrite length_replicate. split; [lia|]. intros i p. split.
        -- by intros [? _]%lookup_replicate.
        -- intros (f & Hf & _). by rewrite bodies_lookup, lookup_empty in Hf.
      * done.
      * apply hashed_empty.
      * intros p [o Ho]. by rewrite lookup_empty in Ho.
      * by rewrite app_nil_r.
      * intros a. rewrite lookup_empty. done.
      * destruct H7. lia.
  - exists false. eexists. split; [reflexivity|]. split; [|by split].
    intros Ha. destruct (Hl1 Ha) as [-> El1]. destruct (Hl2 El1) as [-> _]. done.
Qed.

Lemma of_alloc_first fdlimit vol did path upath eid k s : unsized s ->
  exists b s1, (allocs s = [] -> b = true /\ allocs s1 = []) /\
    if b : bool then consistent s1 (all_slots (table_size fdlimit)) [] /\ nforks (tab s1) = table_size fdlimit /\ forks s1 = ∅ /\ ads s1 = ∅ /\
      of_alloc fdlimit vol did path upath eid None k s = of_alloc fdlimit vol did path upath eid None k s1
    else unsized s1 /\ of_alloc fdlimit vol did path upath eid None k s = Ok (None, s1).
Proof.
  intros Hu. destruct (table_init_ok fdlimit s Hu) as (b & s1 & Hi & Ha & Hpost). exists b, s1. split; [done|].
  assert (of_alloc fdlimit vol did path upath eid None k s = if b then of_alloc fdlimit vol did path upath eid None k s1 else Ok (None, s1)) as E.
  { unfold of_alloc at 1. rewrite (bind_ok _ _ _ s s) by done. rewrite (un_none _ Hu), (bind_ok _ _ _ _ _ Hi). destruct b; [|done].
    destruct Hpost as (Hc & _). destruct (ba_slots _ _ _ (co_base _ _ _ Hc)) as (slots & Hs & _).
    unfold of_alloc. rewrite (bind_ok get _ s1 s1 s1) by done. rewrite Hs, (bind_ok _ _ _ true s1) by done. done. }
  destruct b; [|done]. destruct Hpost as (? & ? & ? & ?). done.
Qed.

(** ** Lookups *)

(** The fork of a reference number is in its slot. *)
Lemma of_find_ok s free H r : consistent s free H -> 0 <= r ->
  exists v, of_find r s = Ok (v, s) /\
    match v with Some p => exists o, forks s !! p = Some o /\ of_refnum (body o) = r | None => forall p o, forks s !! p = Some o -> of_refnum (body o) <> r end.
Proof.
  intros [Hb _ _] Hr0. destruct (ba_slots _ _ _ Hb) as (slots & Hs & Hl & Hin). pose proof (ba_size _ _ _ Hb) as Hn.
  unfold of_find. rewrite (bind_ok _ _ _ s s) by done. rewrite Hs, (proj2 (Z.eqb_neq _ _)) by lia. set (i := r mod nforks (tab s)).
  pose proof (Z.mod_pos_bound r (nforks (tab s)) ltac:(lia)) as Hi. fold i in Hi.
  destruct (lookup_lt_is_Some_2 slots (Z.to_nat i) ltac:(lia)) as [v Hv].
  rewrite (bind_ok _ _ _ v s) by (unfold slot_read, mbind, M_bind, get; by rewrite Hs, Hv).
  assert (forall q o, forks s !! q = Some o -> of_refnum (body o) = r -> v = Some q) as Hr.
  { intros q o Ho E. destruct (base_fork _ _ _ Hb q o Ho) as [_ Hq]. pose proof (base_range _ _ _ Hb _ ltac:(apply elem_of_app; right; exact Hq)) as Hb2.
    assert (i = r) as Ei by (unfold i; apply Z.mod_small; lia). pose proof (base_slot_used _ _ _ Hb q o Ho) as E2.
    unfold slot_read, mbind, M_bind, get in E2. rewrite Hs, E, <-Ei, Hv in E2. by injection E2 as ->. }
  destruct v as [p|].
  - apply Hin in Hv as (f & Hf & Ef). rewrite bodies_lookup in Hf. destruct (forks s !! p) as [o|] eqn:Ho; [|done]. injection Hf as <-.
    rewrite (bind_ok _ _ _ o s) by (by apply load_ok). destruct (of_refnum (body o) =? r) eqn:E; bool_cases; cbn [negb]; eexists; (split; [reflexivity|]).
    + by exists o.
    + intros q o' Ho' E'. pose proof (Hr q o' Ho' E') as [= <-]. congruence.
  - exists None. split; [done|]. intros p o Ho E. by specialize (Hr p o Ho E).
Qed.

(** The forks of a file, in the order of the hash table. *)
Definition same_file (B : gmap loc fork) (k : file_key) (p : loc) : Prop := key <$> B !! p = Some k.

#[export] Instance same_file_dec B k p : Decision (same_file B k p).
Proof. unfold same_file. apply _. Defined.

Lemma chain_find_ok k s l : forall fuel pp first, seg (forks s) pp first l None -> (length l <= fuel)%nat ->
  chain_find fuel k first s = Ok (head (filter (same_file (bodies (forks s)) k) l), s).
Proof.
  induction l as [|p l IH]; intros fuel pp first; cbn [seg].
  - intros -> _. by destruct fuel.
  - intros (-> & o & Ho & _ & Hseg) Hf. destruct fuel as [|fuel]; cbn in Hf; [lia|]. cbn [chain_find]. rewrite (bind_ok _ _ _ o s) by (by apply load_ok).
    assert (same_file (bodies (forks s)) k p <-> key (body o) = k) as Hk by (unfold same_file; rewrite bodies_lookup, Ho; cbn; split; [by intros [= ?]|by intros ->]).
    destruct (_ && _) eqn:E; bool_cases.
    + rewrite filter_cons_True; [done|]. apply Hk. destruct k, (key (body o)). cbn in *. congruence.
    + rewrite filter_cons_False; [apply (IH fuel (Next_of p)); [done|lia]|]. intros <-%Hk. by rewrite !Z.eqb_refl in E.
Qed.

Lemma hashed_size t h H : hashed t h H -> (length H <= size h)%nat.
Proof.
  intros Hh. rewrite <-(size_dom h). rewrite <-(size_list_to_set (C := gset loc) H) by apply Hh. apply subseteq_size.
  intros p Hp%elem_of_list_to_set. apply elem_of_dom. by apply Hh.
Qed.

Lemma of_findname_ok s free H k st : consistent s free H ->
  of_findname (Some (inr k)) st s = Ok (head (filter (same_file (bodies (forks s)) k) H), s).
Proof.
  intros [Hb _ _]. pose proof (ba_hash _ _ _ Hb) as Hh. unfold of_findname, of_findnameat. cbn [from_option id]. rewrite (bind_ok _ _ _ s s) by done.
  destruct (ha_chain _ _ _ Hh (hashfn k) (hashfn_lt k)) as (first & Ht & Hs).
  rewrite (bind_ok _ _ _ first s) by (unfold read_place, mbind, M_bind, get; by rewrite Ht).
  rewrite (chain_find_ok k s _ _ _ _ Hs).
  - do 2 f_equal. f_equal. rewrite list_filter_filter. apply list_filter_ext_in. intros p _. unfold same_file, in_bucket.
    destruct (bodies (forks s) !! p) as [f|]; cbn; [|intuition done]. split; [by intros [? _]|]. intros [= <-]. done.
  - pose proof (hashed_size _ _ _ Hh). pose proof (length_filter (in_bucket (bodies (forks s)) (hashfn k)) H). lia.
Qed.

(** ** A new key *)

Lemma of_rekey_ok s free H p o k : consistent s free H -> forks s !! p = Some o ->
  exists s', of_rekey p k s = Ok (tt, s') /\ consistent s' free (p :: without p H) /\ allocs s' = allocs s /\ nforks (tab s') = nforks (tab s) /\
    bodies (forks s') = <[p := with_key k (body o)]> (bodies (forks s)) /\ owners (forks s') = owners (forks s) /\ ads s' = ads s.
Proof.
  intros [Hb Hr Hcap] Ho. destruct (base_fork _ _ _ Hb p o Ho) as [Hp _]. pose proof (ba_hash _ _ _ Hb) as Hh. unfold of_rekey.
  destruct (of_unhash_ok s H p Hh Hp) as (t1 & h1 & Hrun & Hh1 & S1). rewrite (bind_ok _ _ _ _ _ Hrun).
  destruct (same_forks_body _ _ p o S1 Ho) as (o1 & Ho1 & Eb & Ea).
  set (o2 := Ofork (with_key k (body o1)) (of_ad o1) (prevp o1) (next o1)). set (h2 := <[p := o2]> h1).
  rewrite (bind_ok _ _ _ tt (relinked t1 h2 s)) by (unfold set_body, store; cbn; by rewrite Ho1).
  assert (p ∉ without p H) as Hpn by (intros [? _]%list_elem_of_filter; done).
  assert (hashed t1 h2 (without p H)) as Hh2.
  { eapply hashed_frame; [exact Hh1|intros q Hq; apply lookup_insert_ne; by intros ->|]. intros q o' Hq. unfold h2. rewrite lookup_insert.
    case_decide; [intros [= <-]; subst q; exact (ha_out _ _ _ Hh1 p Hq o1 Ho1)|by apply (ha_out _ _ _ Hh1 q Hq)]. }
  destruct (of_hash_ok (relinked t1 h2 s) _ p o2 Hh2 Hpn ltac:(apply lookup_insert_eq)) as (t3 & h3 & Hrun3 & Hh3 & S3).
  assert (bodies h3 = <[p := with_key k (body o)]> (bodies (forks s))) as EB.
  { destruct S3 as [-> _]. cbn. unfold h2, bodies. rewrite fmap_insert. cbn. rewrite Eb. f_equal. apply S1. }
  assert (owners h3 = owners (forks s)) as EO.
  { destruct S3 as [_ ->]. cbn. unfold h2, owners. rewrite fmap_insert. cbn. rewrite Ea, insert_id; [apply S1|]. destruct S1 as [_ E]. unfold owners in E. rewrite E.
    by rewrite lookup_fmap, Ho. }
  eexists. split; [exact Hrun3|]. split; [|done]. destruct Hb as [Hslots Hsize _ Hall Hrefs Hads Hcount]. split; [|eapply ring_ext; [..|exact Hr]; done|exact Hcap].
  assert (NoDup H) as Hnd by apply Hh. assert (bodies (forks s) !! p = Some (body o)) as Hbp by (by rewrite bodies_lookup, Ho).
  split; cbn -[bodies owners listed]; rewrite ?EB, ?EO; try done.
  - destruct Hslots as (slots & Hs & Hl & Hin). exists slots. split; [done|]. split; [done|]. intros i q. rewrite Hin, lookup_insert.
    destruct (decide (p = q)) as [<-|]; [|done]. rewrite Hbp. split; intros (f & [= <-] & E); eexists; (split; [reflexivity|done]).
  - intros q Hq. destruct (decide (q = p)) as [->|]; [set_solver|]. apply list_elem_of_further, list_elem_of_filter. split; [done|]. apply Hall.
    apply (same_forks_live (forks s) h1); [done|]. apply (same_forks_live h2 h3) in Hq; [|exact S3]. unfold h2 in Hq. by rewrite lookup_insert_ne in Hq.
  - rewrite <-Hrefs. f_equiv. rewrite (listed_without _ _ p _ Hnd Hp Hbp). unfold listed at 1. cbn. rewrite lookup_insert_eq. cbn. f_equiv.
    fold (listed (<[p := with_key k (body o)]> (bodies (forks s))) (without p H)).
    rewrite (listed_ext (delete p (bodies (forks s)))); [done|]. intros q Hq. by rewrite lookup_insert_ne, lookup_delete_ne by (by intros ->).
  - destruct Hcount as [-> Hc]. split; [|done]. apply list_elem_of_split in Hp as (l1 & l2 & ->). rewrite without_mid by done.
    cbn. rewrite !length_app. cbn. lia.
Qed.
