(* ===== verification/OforkTheorems.v ===== *)
(** * Open forks: theorems

    The specification the fork table implements: open forks in the order in which they
    entered the hash table, and free reference numbers in the order in which they were
    freed.  Requests answer as it does, numbers are reused as late as possible, and open
    forks follow the renames of their files. *)

From S2P Require Import Prelude Ofork OforkFacts OforkTable.

(** ** Renaming open forks *)

(** States that differ in names only. *)
Definition alike (o o' : ofork) : Prop :=
  prevp o' = prevp o /\ next o' = next o /\ of_ad o' = of_ad o /\ key (body o') = key (body o) /\ of_refnum (body o') = of_refnum (body o).

Record similar (s s' : st) : Prop := {
  si_tab : tab s' = tab s;
  si_forks : forall p, option_relation alike (fun _ => False) (fun _ => False) (forks s !! p) (forks s' !! p);
  si_ads : forall a, ad_refcount <$> ads s' !! a = ad_refcount <$> ads s !! a
}.

Lemma alike_refl o : alike o o.
Proof. done. Qed.
Lemma alike_trans o1 o2 o3 : alike o1 o2 -> alike o2 o3 -> alike o1 o3.
Proof. intros (?&?&?&?&?) (?&?&?&?&?). repeat split; congruence. Qed.

Lemma similar_refl s : similar s s.
Proof. split; [done| |done]. intros p. destruct (forks s !! p); cbn; done. Qed.

Lemma similar_allocs s l : similar s (St (tab s) (forks s) (ads s) l).
Proof. split; [done| |done]. intros p. cbn. destruct (forks s !! p); cbn; done. Qed.

Lemma similar_trans s1 s2 s3 : similar s1 s2 -> similar s2 s3 -> similar s1 s3.
Proof.
  intros [E1 F1 A1] [E2 F2 A2]. split; [congruence| |intros a; by rewrite A2].
  intros p. specialize (F1 p). specialize (F2 p). destruct (forks s1 !! p), (forks s2 !! p), (forks s3 !! p); cbn in *; try done. by eapply alike_trans.
Qed.

Lemma similar_fork s s' p o : similar s s' -> forks s !! p = Some o -> exists o', forks s' !! p = Some o' /\ alike o o'.
Proof. intros [_ F _] Ho. specialize (F p). rewrite Ho in F. destruct (forks s' !! p) as [o'|]; [|done]. by exists o'. Qed.

Lemma similar_live s s' p : similar s s' -> is_Some (forks s !! p) <-> is_Some (forks s' !! p).
Proof. intros [_ F _]. specialize (F p). destruct (forks s !! p), (forks s' !! p); cbn in F; split; intros []; done || eauto. Qed.

Lemma similar_lk s s' p : similar s s' -> lk (forks s') p = lk (forks s) p.
Proof. intros [_ F _]. specialize (F p). unfold lk. destruct (forks s !! p), (forks s' !! p); try done. cbn. by destruct F as (-> & -> & _). Qed.

Lemma similar_bucket s s' b p : similar s s' -> in_bucket (bodies (forks s')) b p <-> in_bucket (bodies (forks s)) b p.
Proof.
  intros [_ F _]. specialize (F p). unfold in_bucket. rewrite !bodies_lookup. destruct (forks s !! p), (forks s' !! p); try done. cbn. by destruct F as (_ & _ & _ & -> & _).
Qed.

Lemma similar_owners s s' : similar s s' -> owners (forks s') = owners (forks s).
Proof.
  intros [_ F _]. apply map_eq. intros p. rewrite !owners_lookup. specialize (F p). destruct (forks s !! p), (forks s' !! p); try done. cbn. by destruct F as (_ & _ & -> & _).
Qed.

Lemma similar_hashed s s' H : similar s s' -> hashed (ofork_table (tab s)) (forks s) H -> hashed (ofork_table (tab s')) (forks s') H.
Proof.
  intros Hs Hh. rewrite (si_tab _ _ Hs). split; [apply Hh| |apply Hh|..].
  - intros p Hp. apply (similar_live s s' p Hs). by apply Hh.
  - intros b Hb. destruct (ha_chain _ _ _ Hh b Hb) as (first & Ht & Hseg). exists first. split; [done|].
    assert (filter (in_bucket (bodies (forks s')) b) H = filter (in_bucket (bodies (forks s)) b) H) as -> by (apply list_filter_ext_in; intros; by apply similar_bucket).
    eapply seg_frame; [done|]. intros p _. by apply similar_lk.
  - intros p Hp o' Ho'. pose proof (si_forks _ _ Hs p) as F. rewrite Ho' in F. destruct (forks s !! p) as [o|] eqn:Ho; [|done]. destruct F as (-> & _).
    by apply (ha_out _ _ _ Hh p Hp).
Qed.

Lemma similar_refs s s' H : similar s s' -> of_refnum <$> listed (bodies (forks s')) H = of_refnum <$> listed (bodies (forks s)) H.
Proof.
  intros Hs. induction H as [|p H IH]; [done|]. unfold listed in *. cbn [omap list_omap]. rewrite !bodies_lookup. pose proof (si_forks _ _ Hs p) as F.
  destruct (forks s !! p), (forks s' !! p); try done. cbn [option_fmap option_map]. cbn. rewrite IH. by destruct F as (_ & _ & _ & _ & ->).
Qed.

Lemma similar_consistent s s' free H : similar s s' -> consistent s free H -> consistent s' free H.
Proof.
  intros Hs [[Hslots Hsize Hh Hall Hrefs Hads Hcount] Hr Hcap]. split; [|by rewrite (si_tab _ _ Hs)..]. split; [|by rewrite (si_tab _ _ Hs)| | | | |by rewrite (si_tab _ _ Hs)].
  - destruct Hslots as (slots & E & Hl & Hin). exists slots. rewrite (si_tab _ _ Hs). split; [done|]. split; [done|]. intros i p. rewrite Hin, !bodies_lookup.
    pose proof (si_forks _ _ Hs p) as F. destruct (forks s !! p) as [o|], (forks s' !! p) as [o'|]; try done. destruct F as (_ & _ & _ & _ & E5). cbn. split.
    + intros (f & [= <-] & Ei). exists (body o'). split; [done|congruence].
    + intros (f & [= <-] & Ei). exists (body o). split; [done|congruence].
  - by apply (similar_hashed s).
  - intros p Hp. apply Hall. by apply (similar_live s s').
  - by rewrite (si_tab _ _ Hs), (similar_refs s s').
  - rewrite (similar_owners s s') by done. intros a. specialize (Hads a). pose proof (si_ads _ _ Hs a) as E.
    destruct (ads s !! a), (ads s' !! a); cbn in E; try done. injection E as ->. done.
Qed.

Inductive progress : Type := Kept | Named | Moved.

Section Renaming.
Context (ostat : Z -> list Z -> option file_key) (vol : Z) (k : file_key) (olddir : dir) (oldupath : list Z) (newdir : dir) (newpath newupath : list Z).

(** The rename concerns the forks of the file in the old directory that have the old name
    or a name that no longer holds the file. *)
Definition concerned (f : fork) : Prop :=
  vol = of_vol f /\ d_did olddir = of_did f /\ key f = k /\
  (of_uname f = oldupath \/ ostat (of_vol f) (d_fullpath olddir ++ [47] ++ of_uname f) <> Some (key f)).

#[export] Instance concerned_dec f : Decision (concerned f).
Proof. unfold concerned. apply _. Defined.

Definition moved_body (f : fork) : fork := with_name newupath (if decide (d_addr newdir = d_addr olddir) then of_did f else d_did newdir) f.
Definition moved (o : ofork) : ofork := Ofork (moved_body (body o)) (of_ad o) (prevp o) (next o).
Definition named (a : adouble) : adouble := Adouble (ad_refcount a) newpath.

Definition concerned_at (h : gmap loc ofork) (p : loc) : Prop := from_option (fun o => concerned (body o)) False (h !! p).

#[export] Instance concerned_at_dec h p : Decision (concerned_at h p).
Proof. unfold concerned_at. destruct (h !! p); cbn; apply _. Defined.

Lemma moved_alike o : alike o (moved o).
Proof. done. Qed.

(** How far the rename of a fork of the file came before memory ran out. *)
Definition belongs (f : fork) : Prop := vol = of_vol f /\ d_did olddir = of_did f /\ key f = k.

#[export] Instance belongs_dec f : Decision (belongs f).
Proof. unfold belongs. apply _. Defined.

Definition advance (t : progress) (f : fork) : fork :=
  match t with Kept => f | Named => with_name newupath (of_did f) f | Moved => moved_body f end.

(** The forks outside [l] are as they were, those in [l] have advanced. *)
Definition advanced (l : list loc) (s s' : st) : Prop :=
  (forall q, q ∉ l -> forks s' !! q = forks s !! q) /\
  (forall q o, q ∈ l -> forks s !! q = Some o ->
    exists t o', forks s' !! q = Some o' /\ body o' = advance t (body o) /\ (t <> Kept -> belongs (body o))).

Lemma advanced_none l s s' : (forall q, forks s' !! q = forks s !! q) -> advanced l s s'.
Proof. intros E. split; [by intros|]. intros q o _ Ho. exists Kept, o. rewrite E. done. Qed.

Lemma advanced_more l l' s s' : advanced l s s' -> (forall q, q ∈ l -> q ∈ l') -> advanced l' s s'.
Proof.
  intros [A1 A2] Hl. split; [intros q Hq; apply A1; auto|]. intros q o _ Ho. destruct (decide (q ∈ l)); [eauto|].
  exists Kept, o. by rewrite A1.
Qed.

Lemma advanced_cons p l s s1 s' t o o1 : p ∉ l -> forks s !! p = Some o -> forks s1 !! p = Some o1 -> body o1 = advance t (body o) ->
  (t <> Kept -> belongs (body o)) -> (forall q, q <> p -> forks s1 !! q = forks s !! q) -> advanced l s1 s' -> advanced (p :: l) s s'.
Proof.
  intros Hp Ho Ho1 Hb Ht Hq [A1 A2]. split.
  - intros q [Hne Hl]%not_elem_of_cons. by rewrite A1, Hq.
  - intros q oq [->|Hl]%elem_of_cons Hoq.
    + assert (oq = o) as -> by congruence. exists t, o1. by rewrite A1.
    + apply (A2 q oq Hl). rewrite Hq; [done|]. by intros ->.
Qed.

Lemma concerns_ok f s : exists b l, rename_concerns ostat vol k olddir oldupath f s = Ok (b, St (tab s) (forks s) (ads s) l) /\
  (b = true -> belongs f) /\ (allocs s = [] -> b = bool_decide (concerned f) /\ l = []).
Proof.
  unfold rename_concerns. destruct (_ && _ && _ && _) eqn:E; bool_cases.
  - assert (key f = k) as Hk by (destruct k, (key f); cbn in *; congruence).
    destruct (bool_decide (of_uname f = oldupath)) eqn:Eu; bool_cases.
    + exists true, (allocs s). split; [by destruct s|]. split; [by unfold belongs|]. intros ->. split; [|done]. symmetry. apply bool_decide_eq_true_2. split; [done|]. split; [done|]. tauto.
    + unfold of_name_holds, of_name_path, fullpath_join. destruct (malloc_run s) as (b & l & Em & Hl). unfold mbind, M_bind, mret, M_ret. rewrite Em.
      eexists _, l. split; [reflexivity|]. split; [by unfold belongs|]. intros Ha. destruct (Hl Ha) as [-> ->]. split; [|done]. unfold of_path_holds. cbn [app]. unfold concerned.
      destruct (bool_decide (ostat _ _ = _)) eqn:Eo; bool_cases; cbn; symmetry; [apply bool_decide_eq_false_2|apply bool_decide_eq_true_2]; tauto.
  - exists false, (allocs s). split; [by destruct s|]. split; [done|]. intros ->. split; [|done]. symmetry. apply bool_decide_eq_false_2. intros (H1 & H2 & H3 & _).
    rewrite H1, H2, <-H3, !Z.eqb_refl in E. done.
Qed.

(** The state after a pass over the forks [l]. *)
Definition passed (renamed : bool) (l : list loc) (s s' : st) : Prop :=
  allocs s' = [] /\ (forall q, forks s' !! q = (fun o => if decide (q ∈ l /\ concerned (body o)) then moved o else o) <$> forks s !! q) /\
  ads s' = if renamed then ads s else
    match filter (concerned_at (forks s)) l with [] => ads s | p :: _ => match forks s !! p with Some o => alter named (of_ad o) (ads s) | None => ads s end end.

(** The state after the rename of one fork. *)
Lemma rename_fork_ok s p o a renamed : forks s !! p = Some o -> ads s !! of_ad o = Some a ->
  exists b s', rename_fork olddir newdir newpath newupath p o renamed s = Ok (b, s') /\ similar s s' /\ (forall q, q <> p -> forks s' !! q = forks s !! q) /\
    (exists t o', forks s' !! p = Some o' /\ body o' = advance t (body o)) /\
    (allocs s = [] -> b = true /\ allocs s' = [] /\ forks s' !! p = Some (moved o) /\ ads s' = if renamed then ads s else alter named (of_ad o) (ads s)).
Proof.
  intros Ho Ha. unfold rename_fork. destruct (malloc_run s) as (b & l & E & Hl). rewrite (bind_ok _ _ _ _ _ E). destruct b; cbn [negb].
  2:{ exists false. eexists. split; [reflexivity|]. split; [apply similar_allocs|]. split; [done|]. split; [by exists Kept, o|]. intros Ea. by destruct (Hl Ea). }
  unfold set_body. rewrite (bind_ok _ _ _ _ _ (store_ok _ _ (St (tab s) (forks s) (ads s) l) ltac:(by exists o))). cbn [with_forks tab forks ads allocs].
  set (h1 := alter _ p (forks s)). set (ads1 := fun b : bool => if renamed then ads s else <[of_ad o := Adouble (ad_refcount a) (if b then newpath else [])]> (ads s)).
  assert (exists b2 l2, ((if renamed then mret true else ok ← malloc_ok; a ← load_ad (of_ad o);
      set_ads (<[of_ad o := Adouble (ad_refcount a) (if (ok : bool) then newpath else [])]>);; mret (ok : bool)) : M bool) (St (tab s) h1 (ads s) l) =
      Ok (b2, St (tab s) h1 (ads1 b2) l2) /\ (l = [] -> b2 = true /\ l2 = [])) as (b2 & l2 & E2 & Hl2).
  { unfold ads1. destruct renamed; [by exists true, l|]. destruct (malloc_run (St (tab s) h1 (ads s) l)) as (b3 & l3 & E3 & Hl3). exists b3, l3. split; [|exact Hl3].
    rewrite (bind_ok _ _ _ _ _ E3). unfold load_ad, mbind, M_bind. cbn. by rewrite Ha. }
  rewrite (bind_ok _ _ _ _ _ E2).
  assert (forall x, ad_refcount <$> ads1 b2 !! x = ad_refcount <$> ads s !! x) as Hrc.
  { intros x. unfold ads1. destruct renamed; [done|]. rewrite lookup_insert. case_decide; [subst; by rewrite Ha|done]. }
  assert (forall o' l3, alike o o' -> similar s (St (tab s) (<[p := o']> (forks s)) (ads1 b2) l3)) as Hsim.
  { intros o' l3 Hal. split; [done| |exact Hrc]. intros q. cbn. rewrite lookup_insert. case_decide; [subst; by rewrite Ho|]. destruct (forks s !! q); cbn; done. }
  assert (forall f : ofork -> ofork, alter f p (forks s) = <[p := f o]> (forks s)) as Halt.
  { intros f. apply map_eq. intros q. rewrite lookup_alter, lookup_insert. case_decide; [subst; by rewrite Ho|done]. }
  unfold h1. rewrite Halt. destruct b2; cbn [negb].
  2:{ exists false. eexists. split; [reflexivity|]. split; [by apply Hsim|]. split; [intros q Hq; by apply lookup_insert_ne|].
      split; [exists Named; eexists; split; [apply lookup_insert_eq|done]|]. intros Ea. destruct (Hl Ea) as [_ El]. by destruct (Hl2 El). }
  erewrite (bind_ok _ _ _ tt (St (tab s) (<[p := moved o]> (forks s)) (ads1 true) l2)).
  - exists true. eexists. split; [reflexivity|]. split; [by apply Hsim|]. split; [intros q Hq; by apply lookup_insert_ne|].
    split; [exists Moved; eexists; split; [apply lookup_insert_eq|done]|]. intros Ea. destruct (Hl Ea) as [_ El]. destruct (Hl2 El) as [_ ->]. split; [done|]. split; [done|]. split; [apply lookup_insert_eq|]. cbn. unfold ads1.
    destruct renamed; [done|]. apply map_eq. intros x. rewrite lookup_insert, lookup_alter. case_decide; [subst; by rewrite Ha|done].
  - destruct (d_addr newdir =? d_addr olddir) eqn:Ed; cbn [negb]; bool_cases.
    + unfold mret, M_ret, moved, moved_body. by rewrite decide_True.
    + unfold store. cbn [forks]. rewrite lookup_insert_eq. cbn [tab forks ads allocs]. rewrite insert_insert_eq. unfold moved, moved_body. by rewrite decide_False.
Qed.

(** A pass that leaves out the fork [p], or renamed it before. *)
Lemma passed_skip p o l s s' l1 renamed : forks s !! p = Some o -> ~ concerned (body o) -> p ∉ l -> passed renamed l (St (tab s) (forks s) (ads s) l1) s' -> passed renamed (p :: l) s s'.
Proof.
  intros Ho Hc Hp (P1 & P2 & P3). split; [done|]. cbn [forks ads] in P2, P3. split.
  - intros q. rewrite P2. destruct (forks s !! q) as [oq|] eqn:Eq; [|done]. cbn. f_equal.
    destruct (decide (q ∈ l /\ _)) as [?|Hn]; [rewrite decide_True by (split; [set_solver|tauto]); done|]. rewrite decide_False; [done|].
    rewrite elem_of_cons. intros [[->|?] ?]; [congruence|tauto].
  - rewrite P3. rewrite filter_cons_False by (unfold concerned_at; by rewrite Ho). done.
Qed.

Lemma passed_moved p o l s s1 s' (renamed : bool) : forks s !! p = Some o -> concerned (body o) -> p ∉ l -> forks s1 !! p = Some (moved o) -> (forall q, q <> p -> forks s1 !! q = forks s !! q) ->
  ads s1 = (if renamed then ads s else alter named (of_ad o) (ads s)) -> passed true l s1 s' -> passed renamed (p :: l) s s'.
Proof.
  intros Ho Hc Hp Hm Hq Hads (P1 & P2 & P3). split; [done|]. split.
  - intros q. rewrite P2. destruct (decide (q = p)) as [->|Hne].
    + rewrite Hm, Ho. cbn. rewrite decide_False by tauto. rewrite decide_True by (split; [set_solver|done]). done.
    + rewrite Hq by done. destruct (forks s !! q) as [oq|]; [|done]. cbn. f_equal.
      destruct (decide (q ∈ l /\ _)) as [?|Hn]; [rewrite decide_True by (split; [set_solver|tauto])|rewrite decide_False by (rewrite elem_of_cons; tauto)]; done.
  - rewrite P3, Hads. destruct renamed; [done|]. rewrite filter_cons_True by (unfold concerned_at; by rewrite Ho). by rewrite Ho.
Qed.

Lemma rename_loop_ok l : forall fuel s pp first renamed, seg (forks s) pp first l None -> NoDup l -> (length l <= fuel)%nat ->
  (forall p o, p ∈ l -> forks s !! p = Some o -> is_Some (ads s !! of_ad o)) ->
  exists r s', rename_loop ostat fuel vol k olddir oldupath newdir newpath newupath first renamed s = Ok (r, s') /\ similar s s' /\
    (r = AFP_OK \/ r = AFPERR_MISC /\ allocs s <> []) /\ advanced l s s' /\ (allocs s = [] -> passed renamed l s s').
Proof.
  induction l as [|p l IH]; intros fuel s pp first renamed Hseg Hnd Hf Hads; cbn [seg length] in *.
  - subst first. exists AFP_OK, s. split; [by destruct fuel|]. split; [apply similar_refl|]. split; [by left|]. split; [by apply advanced_none|].
    intros Ha. split; [done|]. split; [|by destruct renamed].
    intros q. destruct (forks s !! q); [|done]. cbn. rewrite decide_False; [done|]. intros [?%elem_of_nil _]. done.
  - destruct Hseg as (-> & o & Ho & _ & Hseg). apply NoDup_cons in Hnd as [Hp Hnd]. destruct fuel as [|fuel]; [lia|]. cbn [rename_loop].
    rewrite (bind_ok _ _ _ o s) by (by apply load_ok). destruct (concerns_ok (body o) s) as (b & l1 & Ec & Hbel & Hc). rewrite (bind_ok _ _ _ _ _ Ec).
    destruct (Hads p o ltac:(set_solver) Ho) as [a Ha]. set (s1 := St (tab s) (forks s) (ads s) l1). pose proof (similar_allocs s l1) as S1. fold s1 in S1. destruct b.
    + destruct (rename_fork_ok s1 p o a renamed Ho Ha) as (b & s2 & E2 & S2 & Hq & (t & o2 & Ho2 & Hadv) & Hall). rewrite (bind_ok _ _ _ _ _ E2). pose proof (similar_trans _ _ _ S1 S2) as S02.
      destruct b; cbn [negb].
      2:{ exists AFPERR_MISC, s2. assert (allocs s <> []) as Hne by (intros E; destruct (Hc E) as [_ E']; by destruct (Hall E')). split; [done|]. split; [done|]. split; [by right|]. split; [|done].
          apply (advanced_cons p l s s2 s2 t o o2); auto. by apply advanced_none. }
      destruct (IH fuel s2 (Next_of p) (next o) true) as (r & s' & Hrun & Hs & Hr & Hadvd & Hpass).
      { eapply seg_frame; [exact Hseg|]. intros q _. by apply (similar_lk s s2). }
      { done. } { lia. }
      { intros q oq Hql. rewrite Hq by (by intros ->). intros Hoq. pose proof (Hads q oq ltac:(set_solver) Hoq) as [aq Haq].
        pose proof (si_ads _ _ S02 (of_ad oq)) as Hrc. rewrite Haq in Hrc. destruct (ads s2 !! of_ad oq); [eauto|done]. }
      exists r, s'. split; [exact Hrun|]. split; [exact (similar_trans _ _ _ S02 Hs)|]. split.
      { destruct Hr as [->|[-> Hne]]; [by left|right]. split; [done|]. intros E. apply Hne. destruct (Hc E) as [_ E']. by destruct (Hall E') as (_ & ? & _). }
      split; [by apply (advanced_cons p l s s2 s' t o o2); auto|].
      intros E. destruct (Hc E) as [Eb E']. destruct (Hall E') as (_ & E2' & Hm & Hads2). symmetry in Eb. apply bool_decide_eq_true in Eb.
      by apply (passed_moved p o l s s2 s'); auto.
    + destruct (IH fuel s1 (Next_of p) (next o) renamed Hseg Hnd ltac:(lia)) as (r & s' & Hrun & Hs & Hr & Hadvd & Hpass).
      { intros q oq Hq Hoq. apply (Hads q oq); [set_solver|done]. }
      exists r, s'. split; [exact Hrun|]. split; [exact (similar_trans _ _ _ S1 Hs)|]. split.
      { destruct Hr as [->|[-> Hne]]; [by left|right]. split; [done|]. intros E. apply Hne. by apply Hc. }
      split; [by apply (advanced_cons p l s s1 s' Kept o o)|].
      intros E. destruct (Hc E) as [Eb E']. symmetry in Eb. apply bool_decide_eq_false in Eb. by apply (passed_skip p o l s s' l1); auto.
Qed.

(** The pass over a chain is the pass over all forks: the others have other files. *)
Lemma passed_all s s' l : passed false (filter (in_bucket (bodies (forks s)) (hashfn k)) l) s s' -> passed false l s s'.
Proof.
  intros (P1 & P2 & P3). assert (forall q o, forks s !! q = Some o -> concerned (body o) -> in_bucket (bodies (forks s)) (hashfn k) q) as Hb.
  { intros q o Ho (_ & _ & <- & _). by apply in_bucket_body. }
  split; [done|]. split.
  - intros q. rewrite P2. destruct (forks s !! q) as [oq|] eqn:Eq; [|done]. cbn. f_equal. apply decide_ext. rewrite list_elem_of_filter. split; [tauto|].
    intros [Hq Hc]. pose proof (Hb q oq Eq Hc). tauto.
  - rewrite P3. rewrite list_filter_filter. rewrite (list_filter_ext_in _ (concerned_at (forks s)) l); [done|]. intros q Hq. split; [tauto|]. intros Hc. split; [done|].
    unfold concerned_at in Hc. destruct (forks s !! q) as [oq|] eqn:Eq; [|done]. by apply (Hb q oq).
Qed.

End Renaming.

Lemma of_rename_runs ostat vol p o olddir oldupath newdir newpath newupath s free H : consistent s free H -> forks s !! p = Some o ->
  exists r s', of_rename ostat vol (Some p) olddir oldupath newdir newpath newupath s = Ok (r, s') /\ consistent s' free H /\ tab s' = tab s /\
    (r = AFP_OK \/ r = AFPERR_MISC /\ allocs s <> []) /\ advanced vol (key (body o)) olddir newdir newupath H s s' /\
    (allocs s = [] -> passed ostat vol (key (body o)) olddir oldupath newdir newpath newupath false H s s').
Proof.
  intros Hc Ho. pose proof (co_base _ _ _ Hc) as Hb. pose proof (ba_hash _ _ _ Hb) as Hh. unfold of_rename.
  rewrite (bind_ok _ _ _ o s), (bind_ok _ _ _ s s) by (by apply load_ok || done).
  destruct (ha_bucket _ _ _ p o Hh Ho) as (first & Ht & Hseg). rewrite (bind_ok _ _ _ first s) by (unfold read_place, mbind, M_bind, get; by rewrite Ht).
  destruct (rename_loop_ok ostat vol (key (body o)) olddir oldupath newdir newpath newupath _ (size (forks s)) s _ _ false Hseg) as (r & s' & Hrun & Hs & Hr & Hadv & Hpass).
  - apply NoDup_filter, Hh.
  - pose proof (hashed_size _ _ _ Hh). pose proof (length_filter (in_bucket (bodies (forks s)) (hashfn (key (body o)))) H). lia.
  - intros q oq _ Hq. pose proof (ba_ads _ _ _ Hb (of_ad oq)) as Hcnt. destruct (ads s !! of_ad oq); [eauto|].
    apply (shares_zero _ _ q) in Hcnt. by rewrite owners_lookup, Hq in Hcnt.
  - exists r, s'. split; [exact Hrun|]. split; [by apply (similar_consistent s)|]. split; [apply Hs|]. split; [done|]. split; [|intros Ha; by apply passed_all, Hpass].
    eapply advanced_more; [exact Hadv|]. by intros q [_ ?]%list_elem_of_filter.
Qed.

(** A rename of a file moves its open forks along: with memory, exactly the forks of
    the file in the old directory whose name is the old one, or no longer holds the file,
    get the new name and directory, the AppleDouble of the first of them gets the new name
    once, and every other fork and AppleDouble stays as it is.  Without memory the call
    reports an error; the table stays consistent in any case. *)
Theorem of_rename_follows ostat vol p o olddir oldupath newdir newpath newupath s free H : consistent s free H -> forks s !! p = Some o ->
  exists r s', of_rename ostat vol (Some p) olddir oldupath newdir newpath newupath s = Ok (r, s') /\ consistent s' free H /\
    (r = AFP_OK \/ r = AFPERR_MISC /\ allocs s <> []) /\ advanced vol (key (body o)) olddir newdir newupath H s s' /\
    (allocs s = [] -> passed ostat vol (key (body o)) olddir oldupath newdir newpath newupath false H s s').
Proof. intros Hc Ho. destruct (of_rename_runs ostat vol p o olddir oldupath newdir newpath newupath s free H Hc Ho) as (r & s' & ? & ? & _ & ?). eauto. Qed.

(** ** Specification *)

(** The free reference numbers in the order in which they are given out, and the open
    forks, the latest in the hash table first. *)
Record files := Files { free : list Z; opens : list fork }.

(** What a session asks of the table.  [Open] is what FPOpenFork does with it: a fork of a
    file that is open already shares its AppleDouble, a virtual fork never does.
    [Rename] is what FPMoveAndRename does: it looks the file up and hands the fork found,
    if any, to [of_rename]; [ostat] is what the names on disk hold at that time. *)
Inductive op : Type :=
  | Open (virtual : bool) (vol did : Z) (path upath : list Z) (eid : eid_t) (k : file_key)
  | Close (r : Z)
  | Find (r : Z)
  | Find_name (k : file_key)
  | Rekey (r : Z) (k : file_key)
  | Rename (ostat : Z -> list Z -> option file_key) (vol : Z) (k : file_key) (olddir : dir) (oldupath : list Z) (newdir : dir) (newpath newupath : list Z).

Inductive answer : Type := Refnum (r : option Z) | Found (f : option fork) | Closed (b : bool) | Status (z : Z).

(** How the allocations of an [Open] or a [Rename] turn out.  A rename short of memory
    may report an error and leaves each fork of the file untouched, with its new name only,
    or with name and directory. *)
Inductive outcome : Type := Works | No_table | No_fork | Short (failed : bool) (ts : list progress).

Definition spec_op (a : outcome) (c : op) (F : files) : answer * files :=
  match c with
  | Open _ vol did _ upath eid k =>
      match a, free F with
      | No_table, _ | _, [] => (Refnum None, F)
      | Works, x :: rest => (Refnum (Some x), Files rest (new_body k vol upath did eid x :: opens F))
      | _, x :: rest => (Refnum None, Files (rest ++ [x]) (opens F))
      end
  | Close r =>
      match filter (fun f => of_refnum f = r) (opens F) with
      | [] => (Closed false, F)
      | _ => (Closed true, Files (free F ++ [r]) (filter (fun f => of_refnum f <> r) (opens F)))
      end
  | Find r => (Found (head (filter (fun f => of_refnum f = r) (opens F))), F)
  | Find_name k => (Found (head (filter (fun f => key f = k) (opens F))), F)
  | Rekey r k =>
      match filter (fun f => of_refnum f = r) (opens F) with
      | [] => (Closed false, F)
      | f :: _ => (Closed true, Files (free F) (with_key k f :: filter (fun f => of_refnum f <> r) (opens F)))
      end
  | Rename ostat vol k olddir oldupath newdir newpath newupath =>
      match a with
      | Short failed ts => (Status (if failed then AFPERR_MISC else AFP_OK),
          Files (free F) (imap (fun i f => if decide (belongs vol k olddir f) then advance olddir newdir newupath (default Kept (ts !! i)) f else f) (opens F)))
      | _ => (Status AFP_OK,
          Files (free F) ((fun f => if decide (concerned ostat vol k olddir oldupath f) then moved_body olddir newdir newupath f else f) <$> opens F))
      end
  end.

Section Session.
Context (fdlimit : Z).

Definition sibling_ad (k : file_key) : M (option loc) :=
  o ← of_findname (Some (inr k)) (inr k);
  match o with Some p => o ← load p; mret (Some (of_ad o)) | None => mret None end.

Definition run_op (c : op) : M answer :=
  match c with
  | Open virtual vol did path upath eid k =>
      ad ← (if (virtual : bool) then mret None else sibling_ad k);
      r ← of_alloc fdlimit vol did path upath eid ad k;
      match r with
      | Some p => o ← load p; mret (Refnum (Some (of_refnum (body o))))
      | None => mret (Refnum None)
      end
  | Close r => o ← of_find r; match o with Some p => of_dealloc p;; mret (Closed true) | None => mret (Closed false) end
  | Find r => o ← of_find r; match o with Some p => o ← load p; mret (Found (Some (body o))) | None => mret (Found None) end
  | Find_name k =>
      o ← of_findname (Some (inr k)) (inr k);
      match o with Some p => o ← load p; mret (Found (Some (body o))) | None => mret (Found None) end
  | Rekey r k => o ← of_find r; match o with Some p => of_rekey p k;; mret (Closed true) | None => mret (Closed false) end
  | Rename ostat vol k olddir oldupath newdir newpath newupath =>
      o ← of_findname (Some (inr k)) (inr k);
      z ← of_rename ostat vol o olddir oldupath newdir newpath newupath;
      mret (Status z)
  end.

Fixpoint run_ops (cs : list op) : M (list answer) :=
  match cs with
  | [] => mret []
  | c :: cs => a ← run_op c; l ← run_ops cs; mret (a :: l)
  end.

(** A state of the table shows an abstract one. *)
Definition shows (s : st) (F : files) : Prop :=
  unsized s /\ F = Files (all_slots (table_size fdlimit)) [] \/
  nforks (tab s) = table_size fdlimit /\ exists H, consistent s (free F) H /\ opens F = listed (bodies (forks s)) H.

End Session.

Fixpoint spec_ops (outs : list outcome) (cs : list op) (F : files) : list answer * files :=
  match cs, outs with
  | c :: cs, o :: outs => let '(a, F) := spec_op o c F in let '(l, F) := spec_ops outs cs F in (a :: l, F)
  | _, _ => ([], F)
  end.

(** Reference numbers of requests have 16 bits. *)
Definition op_ok (c : op) : Prop := match c with Close r | Find r | Rekey r _ => 0 <= r < 2 ^ 16 | _ => True end.

Lemma listed_filter B (H : list loc) (Q : loc -> Prop) (P : fork -> Prop) `{forall p, Decision (Q p), forall f, Decision (P f)} :
  (forall p, p ∈ H -> exists f, B !! p = Some f /\ (Q p <-> P f)) -> listed B (filter Q H) = filter P (listed B H).
Proof.
  induction H as [|p l IH]; intros Hl; [done|]. destruct (Hl p ltac:(set_solver)) as (f & Hf & HQ). specialize (IH ltac:(set_solver)).
  unfold listed in *. cbn [omap list_omap]. rewrite Hf. destruct (decide (Q p)) as [q|q].
  - rewrite (filter_cons_True Q) by done. cbn [omap list_omap]. rewrite Hf, IH. rewrite filter_cons_True by tauto. done.
  - rewrite (filter_cons_False Q) by done. rewrite IH. rewrite filter_cons_False by tauto. done.
Qed.

Lemma head_listed B l : (forall p, p ∈ l -> is_Some (B !! p)) -> head (listed B l) = head l ≫= (B !!.).
Proof. destruct l as [|p l]; [done|]. intros Hl. destruct (Hl p ltac:(set_solver)) as [f Hf]. unfold listed. cbn. by rewrite Hf. Qed.

Section Refinement.
Context (s : st) (F : files) (H : list loc) (Hc : consistent s (free F) H) (HF : opens F = listed (bodies (forks s)) H).

Lemma shown_live p : p ∈ H -> exists o, forks s !! p = Some o.
Proof. intros Hp. by apply (ha_live _ _ _ (ba_hash _ _ _ (co_base _ _ _ Hc)) p). Qed.

Lemma shown_in p o : forks s !! p = Some o -> p ∈ H.
Proof. intros Ho. apply (ba_all _ _ _ (co_base _ _ _ Hc)). eauto. Qed.

(** The fork of a number, and the others. *)
Lemma shown_refnum p o r : forks s !! p = Some o -> of_refnum (body o) = r ->
  filter (fun f => of_refnum f = r) (opens F) = [body o] /\
  filter (fun f => of_refnum f <> r) (opens F) = listed (bodies (forks s)) (without p H).
Proof.
  intros Ho Hr. assert (forall q, q ∈ H -> exists f, bodies (forks s) !! q = Some f /\ (q = p <-> of_refnum f = r)) as Hq.
  { intros q Hq. destruct (shown_live q Hq) as [o' Ho']. exists (body o'). rewrite bodies_lookup, Ho'. split; [done|]. split.
    - intros ->. congruence.
    - intros E. eapply (base_unique _ _ _ (co_base _ _ _ Hc)); [done..|congruence]. }
  rewrite HF. split.
  - rewrite <-(listed_filter _ _ (fun q => q = p) (fun f => of_refnum f = r)) by done. pose proof (shown_in p o Ho) as Hp. assert (NoDup H) as Hnd by apply Hc.
    apply list_elem_of_split in Hp as (l1 & l2 & E). rewrite E in *. apply NoDup_app in Hnd as (_ & H1 & [H2 _]%NoDup_cons).
    rewrite filter_app, filter_cons_True by done. rewrite !list_filter_none; [unfold listed; cbn; by rewrite bodies_lookup, Ho|..].
    + intros q Hq2 ->. done.
    + intros q Hq1 ->. apply (H1 p Hq1). set_solver.
  - symmetry. apply listed_filter. intros q Hq1. destruct (Hq q Hq1) as (f & Hf & E). exists f. split; [done|]. by rewrite E.
Qed.

Lemma shown_no_refnum r : (forall p o, forks s !! p = Some o -> of_refnum (body o) <> r) -> filter (fun f => of_refnum f = r) (opens F) = [].
Proof.
  intros Hr. rewrite HF. apply list_filter_none. intros f (p & Hp & Hf)%listed_elem. destruct (shown_live p Hp) as [o Ho].
  rewrite bodies_lookup, Ho in Hf. injection Hf as <-. eauto.
Qed.

Lemma shown_name k : head (filter (same_file (bodies (forks s)) k) H) ≫= (bodies (forks s) !!.) = head (filter (fun f => key f = k) (opens F)).
Proof.
  rewrite HF. rewrite <-(listed_filter _ _ (same_file (bodies (forks s)) k) (fun f => key f = k)).
  - rewrite head_listed; [done|]. intros p [_ Hp]%list_elem_of_filter. destruct (shown_live p Hp) as [o Ho]. rewrite bodies_lookup, Ho. eauto.
  - intros p Hp. destruct (shown_live p Hp) as [o Ho]. unfold same_file. rewrite bodies_lookup, Ho. eexists. split; [reflexivity|]. cbn. split; [by intros [= ?]|by intros ->].
Qed.

Lemma shown_find r : 0 <= r -> exists v, of_find r s = Ok (v, s) /\
  match v with
  | Some p => exists o, forks s !! p = Some o /\ of_refnum (body o) = r /\ filter (fun f => of_refnum f = r) (opens F) = [body o] /\
      filter (fun f => of_refnum f <> r) (opens F) = listed (bodies (forks s)) (without p H)
  | None => filter (fun f => of_refnum f = r) (opens F) = []
  end.
Proof.
  intros Hr. destruct (of_find_ok s _ H r Hc Hr) as ([p|] & Hrun & Hv); eexists; (split; [exact Hrun|]).
  - destruct Hv as (o & Ho & E). exists o. split; [done|]. split; [done|]. by apply shown_refnum.
  - by apply shown_no_refnum.
Qed.

Lemma shown_sibling k : exists ad, sibling_ad k s = Ok (ad, s) /\ forall a, ad = Some a -> is_Some (ads s !! a).
Proof.
  unfold sibling_ad. rewrite (bind_ok _ _ _ _ _ (of_findname_ok s _ H k (inr k) Hc)). destruct (head _) as [p|] eqn:E; [|by exists None].
  assert (p ∈ H) as Hp by (apply head_Some_elem_of, list_elem_of_filter in E; tauto). destruct (shown_live p Hp) as [o Ho].
  rewrite (bind_ok _ _ _ o s) by (by apply load_ok). exists (Some (of_ad o)). split; [done|]. intros a [= <-].
  pose proof (ba_ads _ _ _ (co_base _ _ _ Hc) (of_ad o)) as Hcnt. destruct (ads s !! of_ad o); [eauto|].
  apply (shares_zero _ _ p) in Hcnt. by rewrite owners_lookup, Ho in Hcnt.
Qed.

End Refinement.

Section Steps.
Context (fdlimit : Z).

Notation shows := (shows fdlimit).

(** One request agrees with the specification. *)
Definition agrees (m : M answer) (c : op) (s : st) (F : files) : Prop :=
  exists o a s' F', m s = Ok (a, s') /\ spec_op o c F = (a, F') /\ shows s' F' /\ (allocs s = [] -> o = Works /\ allocs s' = []).

Lemma shows_sized s F H : nforks (tab s) = table_size fdlimit -> consistent s (free F) H -> opens F = listed (bodies (forks s)) H -> shows s F.
Proof. intros. right. split; [done|]. by exists H. Qed.

Lemma open_agrees virtual vol did path upath eid k ad s F H : consistent s (free F) H -> opens F = listed (bodies (forks s)) H ->
  nforks (tab s) = table_size fdlimit -> (forall a, ad = Some a -> is_Some (ads s !! a)) ->
  agrees (r ← of_alloc fdlimit vol did path upath eid ad k;
          match r with Some p => o ← load p; mret (Refnum (Some (of_refnum (body o)))) | None => mret (Refnum None) end)
    (Open virtual vol did path upath eid k) s F.
Proof.
  intros Hc HF Hn Hlive. destruct (of_alloc_ok fdlimit vol did path upath eid ad k s _ H Hc Hlive) as (r & s' & Hrun & Ha & Hn' & Hpost).
  unfold agrees. rewrite (bind_ok _ _ _ _ _ Hrun). rewrite Hn in Hn'. destruct r as [p|].
  - destruct Hpost as (x & rest & a & Ef & Hc' & Hp & EB & _). assert (bodies (forks s') !! p = Some (new_body k vol upath did eid x)) as Hb
      by (rewrite EB; apply lookup_insert_eq). rewrite bodies_lookup in Hb. destruct (forks s' !! p) as [o|] eqn:Ho; [|done]. injection Hb as Hb.
    exists Works, (Refnum (Some x)), s', (Files rest (new_body k vol upath did eid x :: opens F)).
    rewrite (bind_ok _ _ _ o s') by (by apply load_ok). rewrite Hb. split; [done|]. split; [cbn; by rewrite Ef|]. split; [|by split; [|apply Ha]].
    apply (shows_sized _ _ (p :: H)); [done|done|]. cbn [opens]. rewrite EB, listed_cons, HF; [done|]. intros Hin.
    destruct (shown_live s F H Hc p Hin). congruence.
  - destruct Hpost as (Hcase & EB & _). destruct Hcase as [[Ef Hc']|(x & rest & Ef & Hne & Hc')].
    + exists Works, (Refnum None), s', F. split; [done|]. split; [cbn; by rewrite Ef|]. split; [|by split; [|apply Ha]].
      apply (shows_sized _ _ H); [done|done|by rewrite EB].
    + exists No_fork, (Refnum None), s', (Files (rest ++ [x]) (opens F)). split; [done|]. split; [cbn; by rewrite Ef|]. split; [|done].
      apply (shows_sized _ _ H); [done|done|by cbn; rewrite EB].
Qed.

(** What a rename does to the listed forks, with memory and without. *)
Lemma passed_listed ostat vol k olddir oldupath newdir newpath newupath s s' H : (forall p, p ∈ H -> is_Some (forks s !! p)) ->
  passed ostat vol k olddir oldupath newdir newpath newupath false H s s' ->
  listed (bodies (forks s')) H =
  (fun f => if decide (concerned ostat vol k olddir oldupath f) then moved_body olddir newdir newupath f else f) <$> listed (bodies (forks s)) H.
Proof.
  intros Hl (_ & P & _). assert (forall l, (forall p, p ∈ l -> p ∈ H) -> listed (bodies (forks s')) l =
    (fun f => if decide (concerned ostat vol k olddir oldupath f) then moved_body olddir newdir newupath f else f) <$> listed (bodies (forks s)) l) as Hi; [|by apply Hi].
  unfold listed in *. induction l as [|p l IH]; intros Hin; [done|]. specialize (IH ltac:(set_solver)). assert (p ∈ H) as Hp by set_solver. destruct (Hl p Hp) as [o Ho].
  cbn [omap list_omap]. rewrite !bodies_lookup, P, Ho. cbn [fmap option_fmap option_map list_fmap]. rewrite IH. cbn [fmap list_fmap]. f_equal.
  case_decide as C1; case_decide as C2; try done; tauto.
Qed.

Lemma advanced_listed vol k olddir newdir newupath s s' H : (forall p, p ∈ H -> is_Some (forks s !! p)) -> advanced vol k olddir newdir newupath H s s' ->
  exists ts : list progress, listed (bodies (forks s')) H =
    imap (fun i f => if decide (belongs vol k olddir f) then advance olddir newdir newupath (default Kept (ts !! i)) f else f) (listed (bodies (forks s)) H).
Proof.
  intros Hl [_ A]. assert (forall l, (forall p, p ∈ l -> p ∈ H) -> exists ts : list progress, listed (bodies (forks s')) l =
    imap (fun i f => if decide (belongs vol k olddir f) then advance olddir newdir newupath (default Kept (ts !! i)) f else f) (listed (bodies (forks s)) l)) as Hi; [|by apply Hi].
  unfold listed in *. induction l as [|p l IH]; intros Hin; [by exists []|]. destruct (IH ltac:(set_solver)) as [ts E]. assert (p ∈ H) as Hp by set_solver. destruct (Hl p Hp) as [o Ho].
  destruct (A p o Hp Ho) as (t & o' & Ho' & Hb & Ht). exists (t :: ts). cbn [omap list_omap]. rewrite !bodies_lookup, Ho, Ho'. cbn [fmap option_fmap option_map].
  rewrite E, Hb, imap_cons. cbn [lookup list_lookup default from_option id]. f_equal. case_decide; [done|]. destruct t; [done|exfalso; by apply H0, Ht..].
Qed.

Lemma rename_agrees ostat vol k olddir oldupath newdir newpath newupath s F H : consistent s (free F) H -> opens F = listed (bodies (forks s)) H ->
  nforks (tab s) = table_size fdlimit ->
  agrees (o ← of_findname (Some (inr k)) (inr k); z ← of_rename ostat vol o olddir oldupath newdir newpath newupath; mret (Status z))
    (Rename ostat vol k olddir oldupath newdir newpath newupath) s F.
Proof.
  intros Hc HF Hn. assert (forall p, p ∈ H -> is_Some (forks s !! p)) as Hl by (intros p Hp; by apply (shown_live s F H Hc)).
  unfold agrees. rewrite (bind_ok _ _ _ _ _ (of_findname_ok s _ H k (inr k) Hc)). destruct (head _) as [p|] eqn:E.
  - apply head_Some_elem_of, list_elem_of_filter in E as [Ek Hp]. destruct (Hl p Hp) as [o Ho].
    assert (key (body o) = k) as <- by (unfold same_file in Ek; rewrite bodies_lookup, Ho in Ek; by injection Ek).
    destruct (of_rename_runs ostat vol p o olddir oldupath newdir newpath newupath s _ H Hc Ho) as (z & s' & Hrun & Hc' & Htab & Hz & Hadv & Hpass).
    rewrite (bind_ok _ _ _ _ _ Hrun). destruct (allocs s) as [|b bs] eqn:Ea.
    + exists Works. do 2 eexists. eexists. split; [reflexivity|]. specialize (Hpass eq_refl). split; [cbn; destruct Hz as [->|[_ ?]]; done|].
      split; [|intros _; split; [done|apply Hpass]]. apply (shows_sized _ _ H); [by rewrite Htab|done|]. cbn [opens]. rewrite HF. symmetry. by eapply passed_listed.
    + destruct (advanced_listed _ _ _ _ _ s s' H Hl Hadv) as [ts Hts]. exists (Short (negb (z =? AFP_OK)) ts). do 2 eexists. eexists. split; [reflexivity|].
      split; [cbn; destruct Hz as [->|[-> _]]; reflexivity|]. split; [|done]. apply (shows_sized _ _ H); [by rewrite Htab|done|]. cbn [opens]. by rewrite HF.
  - exists Works. do 3 eexists. split; [reflexivity|]. split; [reflexivity|]. split; [|done]. apply (shows_sized _ _ H); [done..|]. cbn [opens]. rewrite HF.
    rewrite <-(list_fmap_id (listed _ _)) at 2. apply list_fmap_ext. intros i f Hf. apply list_elem_of_lookup_2, listed_elem in Hf as (p & Hp & Hf).
    case_decide as Hcon; [|done]. destruct Hcon as (_ & _ & Hk & _). exfalso.
    assert (p ∈ filter (same_file (bodies (forks s)) k) H) as Hin by (apply list_elem_of_filter; split; [|done]; unfold same_file; rewrite Hf; cbn; by rewrite Hk).
    destruct (filter (same_file (bodies (forks s)) k) H); [by apply elem_of_nil in Hin|done].
Qed.

Lemma unsized_name s k v : unsized s -> of_findname (Some (inr k)) v s = Ok (None, s).
Proof.
  intros Hu. unfold of_findname, of_findnameat. cbn [from_option id]. rewrite (bind_ok _ _ _ s s) by done.
  rewrite (bind_ok _ _ _ None s) by (unfold read_place, mbind, M_bind, get; rewrite (un_table _ Hu); by rewrite lookup_replicate_2 by apply hashfn_lt).
  by destruct (size _).
Qed.

Lemma unsized_find s r : unsized s -> of_find r s = Ok (None, s).
Proof. intros Hu. unfold of_find. rewrite (bind_ok _ _ _ s s) by done. by rewrite (un_none _ Hu). Qed.

Lemma unsized_agrees c s : unsized s -> agrees (run_op fdlimit c) c s (Files (all_slots (table_size fdlimit)) []).
Proof.
  intros Hu. assert (shows s (Files (all_slots (table_size fdlimit)) [])) as Hs by (by left).
  destruct c as [virtual vol did path upath eid k|r|r|k|r k|ostat vol k olddir oldupath newdir newpath newupath]; cbn [run_op].
  6:{ unfold agrees. rewrite (bind_ok _ _ _ _ _ (unsized_name s k _ Hu)). exists Works. do 3 eexists. split; [reflexivity|]. done. }
  2,3,5: unfold agrees; rewrite (bind_ok _ _ _ _ _ (unsized_find s r Hu)); exists Works; do 3 eexists; (split; [reflexivity|]); done.
  2:{ unfold agrees. rewrite (bind_ok _ _ _ _ _ (unsized_name s k _ Hu)). exists Works. do 3 eexists. split; [reflexivity|]. done. }
  unfold agrees. rewrite (bind_ok _ _ _ None s) by (destruct virtual; [done|]; unfold sibling_ad; by rewrite (bind_ok _ _ _ _ _ (unsized_name s k _ Hu))).
  destruct (of_alloc_first fdlimit vol did path upath eid k s Hu) as (b & s1 & Ha & Hpost). destruct b.
  - destruct Hpost as (Hc & Hn & Hf & _ & E).
    destruct (open_agrees virtual vol did path upath eid k None s1 (Files (all_slots (table_size fdlimit)) []) [] Hc eq_refl Hn ltac:(done))
      as (o & a & s' & F' & Hrun & Hspec & Hsh & Hw).
    exists o, a, s', F'. split; [unfold mbind, M_bind in *; by rewrite E|]. split; [done|]. split; [done|]. intros Ha0. by apply Hw, Ha.
  - destruct Hpost as [Hu1 E]. exists No_table, (Refnum None), s1. eexists. split; [unfold mbind, M_bind; by rewrite E|]. split; [done|]. split; [by left|].
    intros Ha0. by destruct (Ha Ha0).
Qed.

Lemma op_agrees c s F : shows s F -> op_ok c -> agrees (run_op fdlimit c) c s F.
Proof.
  intros [[Hu ->]|(Hn & H & Hc & HF)] Hok; [by apply unsized_agrees|].
  destruct c as [virtual vol did path upath eid k|r|r|k|r k|ostat vol k olddir oldupath newdir newpath newupath]; cbn [run_op op_ok] in *.
  6: by apply (rename_agrees _ _ _ _ _ _ _ _ s F H).
  - destruct virtual.
    + unfold agrees. rewrite (bind_ok _ _ _ None s) by done. by apply (open_agrees _ _ _ _ _ _ _ _ _ _ H).
    + destruct (shown_sibling s F H Hc k) as (ad & Hrun & Hlive). unfold agrees. rewrite (bind_ok _ _ _ _ _ Hrun).
      by apply (open_agrees _ _ _ _ _ _ _ _ _ _ H).
  - destruct (shown_find s F H Hc HF r ltac:(lia)) as ([p|] & Hrun & Hv); unfold agrees; rewrite (bind_ok _ _ _ _ _ Hrun); exists Works.
    + destruct Hv as (o & Ho & Er & E1 & E2). destruct (of_dealloc_ok s _ H p o Hc Ho) as (s' & Hd & Hc' & EB & _ & Ha & Hn').
      rewrite (bind_ok _ _ _ _ _ Hd). do 3 eexists. split; [reflexivity|]. split; [cbn; by rewrite E1|]. split; [|by rewrite Ha].
      apply (shows_sized _ _ (without p H)); [congruence|by rewrite <-Er|]. cbn. rewrite E2, EB. symmetry. apply listed_ext.
      intros q [Hq _]%list_elem_of_filter. by rewrite lookup_delete_ne.
    + do 3 eexists. split; [reflexivity|]. split; [cbn; by rewrite Hv|]. split; [by apply (shows_sized _ _ H)|done].
  - destruct (shown_find s F H Hc HF r ltac:(lia)) as ([p|] & Hrun & Hv); unfold agrees; rewrite (bind_ok _ _ _ _ _ Hrun); exists Works.
    + destruct Hv as (o & Ho & Er & E1 & _). rewrite (bind_ok _ _ _ o s) by (by apply load_ok). do 3 eexists. split; [reflexivity|].
      split; [cbn; by rewrite E1|]. split; [by apply (shows_sized _ _ H)|done].
    + do 3 eexists. split; [reflexivity|]. split; [cbn; by rewrite Hv|]. split; [by apply (shows_sized _ _ H)|done].
  - pose proof (shown_name s F H Hc HF k) as E. unfold agrees. rewrite (bind_ok _ _ _ _ _ (of_findname_ok s _ H k _ Hc)). exists Works.
    destruct (head (filter _ H)) as [p|] eqn:Ep.
    + assert (p ∈ H) as Hp by (apply head_Some_elem_of, list_elem_of_filter in Ep; tauto). destruct (shown_live s F H Hc p Hp) as [o Ho].
      rewrite (bind_ok _ _ _ o s) by (by apply load_ok). do 3 eexists. split; [reflexivity|]. cbn in E. rewrite bodies_lookup, Ho in E.
      split; [cbn; by rewrite <-E|]. split; [by apply (shows_sized _ _ H)|done].
    + do 3 eexists. split; [reflexivity|]. split; [cbn; by rewrite <-E|]. split; [by apply (shows_sized _ _ H)|done].
  - destruct (shown_find s F H Hc HF r ltac:(lia)) as ([p|] & Hrun & Hv); unfold agrees; rewrite (bind_ok _ _ _ _ _ Hrun); exists Works.
    + destruct Hv as (o & Ho & Er & E1 & E2). destruct (of_rekey_ok s _ H p o k Hc Ho) as (s' & Hd & Hc' & Ha & Hn' & EB & _).
      rewrite (bind_ok _ _ _ _ _ Hd). do 3 eexists. split; [reflexivity|]. split; [cbn; by rewrite E1|]. split; [|by rewrite Ha].
      apply (shows_sized _ _ (p :: without p H)); [congruence|done|]. cbn [opens]. rewrite E2, EB, listed_cons; [done|]. intros [? _]%list_elem_of_filter. done.
    + do 3 eexists. split; [reflexivity|]. split; [cbn; by rewrite Hv|]. split; [by apply (shows_sized _ _ H)|done].
Qed.

End Steps.

Lemma ops_agree fdlimit cs : forall s F, shows fdlimit s F -> Forall op_ok cs ->
  exists outs l s' F', run_ops fdlimit cs s = Ok (l, s') /\ spec_ops outs cs F = (l, F') /\ length outs = length cs /\ shows fdlimit s' F' /\
    (allocs s = [] -> Forall (eq Works) outs).
Proof.
  induction cs as [|c cs IH]; intros s F Hs Hok; [by exists [], [], s, F|].
  apply Forall_cons in Hok as [Hc Hcs]. destruct (op_agrees fdlimit c s F Hs Hc) as (o & a & s1 & F1 & Hrun & Hspec & Hs1 & Hw).
  destruct (IH s1 F1 Hs1 Hcs) as (outs & l & s' & F' & Hruns & Hspecs & Hlen & Hs' & Hws).
  exists (o :: outs), (a :: l), s', F'. cbn [run_ops spec_ops length]. rewrite (bind_ok _ _ _ _ _ Hrun), (bind_ok _ _ _ _ _ Hruns), Hspec, Hspecs, Hlen.
  split; [done|]. split; [done|]. split; [done|]. split; [done|]. intros Ha. destruct (Hw Ha) as [-> Ha1]. constructor; auto.
Qed.

(** A new session, with the answers the allocator will give. *)
Definition session (l : list bool) : st := St (tab start) (forks start) (ads start) l.

Lemma session_shows fdlimit l : shows fdlimit (session l) (Files (all_slots (table_size fdlimit)) []).
Proof. left. by split. Qed.

(** ** Claims *)

(** C5: Whatever a session asks of the fork table (opening, closing, looking up by
    reference number or by file, giving a fork a new file and renaming a file), no
    assertion fails and no freed fork is touched, the answers are those of the specification (a number is given
    to one fork at a time, in the order in which numbers were freed, and a lookup finds
    the fork that entered the hash table last), and the table stays consistent: slots,
    chains, counters and the reference counts of the AppleDoubles agree with the open
    forks.  An open fails only without a free number or memory.  With memory a rename
    gives exactly the forks of the file in the old directory whose name is the old one, or
    no longer holds the file, the new name and directory; without, each fork of the file
    keeps its name, or has the new one with or without its directory.  The allocator may
    refuse whatever it likes; reference numbers of requests have 16 bits. *)
Theorem of_ops_refine fdlimit cs l0 : Forall op_ok cs ->
  exists outs l s F, run_ops fdlimit cs (session l0) = Ok (l, s) /\ spec_ops outs cs (Files (all_slots (table_size fdlimit)) []) = (l, F) /\
    length outs = length cs /\ shows fdlimit s F /\ (l0 = [] -> Forall (eq Works) outs).
Proof. apply (ops_agree fdlimit cs (session l0)), session_shows. Qed.

Definition sample_ops : list op :=
  [Open false 1 2 [97] [97] ADEID_DFORK (File_key 1 5); Open false 1 2 [97] [97] ADEID_RFORK (File_key 1 5);
   Open false 1 2 [98] [98] ADEID_DFORK (File_key 1 69); Find_name (File_key 1 5); Close 1; Find 1; Rekey 3 (File_key 1 5);
   Rename (fun _ _ => None) 1 (File_key 1 5) (Dir 100 2 [47; 120]) [97] (Dir 101 3 [47; 121]) [100] [100]; Find_name (File_key 1 5); Open true 1 2 [99] [99] ADEID_DFORK (File_key 0 7)].

Lemma of_ops_refine_witness : exists outs l s F,
  run_ops 8 sample_ops (session []) = Ok (l, s) /\ spec_ops outs sample_ops (Files (all_slots (table_size 8)) []) = (l, F) /\ length outs = length sample_ops /\
  shows 8 s F /\ ([] = [] :> list bool -> Forall (eq Works) outs).
Proof. apply (of_ops_refine 8 sample_ops []). unfold sample_ops. repeat constructor; cbn; lia. Defined.

Example sample_ops_answers : fst <$> (match run_ops 8 sample_ops start with Ok x => Some x | Abort _ => None end) =
  Some [Refnum (Some 1); Refnum (Some 2); Refnum (Some 3); Found (Some (new_body (File_key 1 5) 1 [97] 2 ADEID_RFORK 2)); Closed true; Found None;
        Closed true; Status AFP_OK; Found (Some (with_name [100] 3 (with_key (File_key 1 5) (new_body (File_key 1 69) 1 [98] 2 ADEID_DFORK 3)))); Refnum (Some 1)].
Proof. vm_compute. reflexivity. Qed.

(** ** Reuse of reference numbers *)

Definition is_open (c : op) : Prop := match c with Open _ _ _ _ _ _ _ => True | _ => False end.

#[export] Instance is_open_dec c : Decision (is_open c).
Proof. destruct c; cbn; apply _. Defined.

(** A number behind [pre] in the queue is not given out by the next opens. *)
Lemma spec_window r cs : forall outs pre post F, free F = pre ++ r :: post -> r ∉ pre -> (length (filter is_open cs) <= length pre)%nat ->
  Refnum (Some r) ∉ (spec_ops outs cs F).1.
Proof.
  induction cs as [|c cs IH]; intros outs pre post F HF Hr Hn; [destruct outs; apply not_elem_of_nil|].
  destruct outs as [|o outs]; [apply not_elem_of_nil|]. cbn [spec_ops].
  assert (exists a F' pre' post', spec_op o c F = (a, F') /\ a <> Refnum (Some r) /\ free F' = pre' ++ r :: post' /\ r ∉ pre' /\
    (length (filter is_open cs) <= length pre')%nat) as (a & F' & pre' & post' & -> & Ha & HF' & Hr' & Hn').
  { destruct c as [virtual vol did path upath eid k|r'|r'|k|r' k|]; cbn [spec_op]; rewrite filter_cons in Hn;
      [rewrite decide_True in Hn by done; cbn in Hn|rewrite decide_False in Hn by (cbn; tauto)..].
    2:{ destruct (filter (fun f => of_refnum f = r') (opens F)); do 4 eexists; (split; [reflexivity|]); (split; [done|]); cbn [free]; [done|].
        rewrite HF, <-app_assoc. cbn. done. }
    2,3: do 4 eexists; (split; [reflexivity|]); done.
    2:{ destruct (filter (fun f => of_refnum f = r') (opens F)); do 4 eexists; (split; [reflexivity|]); done. }
    2:{ destruct o; do 4 eexists; (split; [reflexivity|]); done. }
    rewrite HF.
    destruct pre as [|x pre]; cbn in Hn; [lia|]. cbn [app]. apply not_elem_of_cons in Hr as [Hx Hr].
    destruct o; do 4 eexists; (split; [reflexivity|]); cbn [free].
    - split; [congruence|]. split; [reflexivity|]. split; [done|lia].
    - split; [done|]. split; [exact HF|]. split; [by apply not_elem_of_cons|cbn; lia].
    - split; [done|]. rewrite <-app_assoc. cbn. split; [reflexivity|]. split; [done|lia].
    - split; [done|]. rewrite <-app_assoc. cbn. split; [reflexivity|]. split; [done|lia]. }
  specialize (IH outs pre' post' F' HF' Hr' Hn'). destruct (spec_ops outs cs F') as [l F'']. cbn in *. by apply not_elem_of_cons.
Qed.

(** A reference number that a client has closed stays unused for as long as possible:
    while other numbers were free at its close, as many opens as there were free numbers
    are answered with other numbers, so that a late request with the old number does not
    meet a new fork. *)
Theorem refnum_reuse_window fdlimit r cs s F l s' : shows fdlimit s F -> 0 <= r < 2 ^ 16 -> Forall op_ok cs ->
  (length (filter is_open cs) <= length (free F))%nat -> run_ops fdlimit (Close r :: cs) s = Ok (Closed true :: l, s') -> Refnum (Some r) ∉ l.
Proof.
  intros Hs Hr Hok Hn. cbn [run_ops]. destruct (op_agrees fdlimit (Close r) s F Hs Hr) as (o & a & s1 & F1 & Hrun & Hspec & Hs1 & _).
  rewrite (bind_ok _ _ _ _ _ Hrun). cbn [spec_op] in Hspec. destruct (filter _ (opens F)) as [|f fs] eqn:Ef; injection Hspec as <- <-.
  { unfold mbind, M_bind. by destruct (run_ops fdlimit cs s1) as [[]|]. }
  destruct (ops_agree fdlimit cs s1 _ Hs1 Hok) as (outs & l' & s'' & F'' & Hruns & Hspecs & _). rewrite (bind_ok _ _ _ _ _ Hruns). intros [= <- _].
  pose proof (spec_window r cs outs (free F) [] (Files (free F ++ [r]) (filter (fun f => of_refnum f <> r) (opens F))) eq_refl) as Hw. rewrite Hspecs in Hw. apply Hw; [|done].
  (* the number was in use, so it was not free *)
  destruct Hs as [[_ ->]|(_ & H & Hc & HF)]; [done|]. assert (f ∈ opens F /\ of_refnum f = r) as [Hin <-].
  { assert (f ∈ filter (fun f => of_refnum f = r) (opens F)) as Hin by (rewrite Ef; set_solver). apply list_elem_of_filter in Hin. tauto. }
  pose proof (base_nodup _ _ _ (co_base _ _ _ Hc)) as (_ & Hd & _)%NoDup_app. intros Hfree. apply (Hd _ Hfree). rewrite <-HF. by apply list_elem_of_fmap_2.
Qed.

(** Two forks open, of three: the closed number 1 waits behind number 3. *)
Definition two_open : st := match run_ops 8 (take 2 sample_ops) (session []) with Ok (_, s) => s | Abort _ => start end.

Lemma two_open_shows : exists F, shows 8 two_open F /\ length (free F) = 1%nat.
Proof.
  destruct (ops_agree 8 (take 2 sample_ops) (session []) _ (session_shows 8 [])) as (outs & l & s & F & Hrun & Hspec & Hlen & Hs & Hw); [repeat constructor|].
  exists F. unfold two_open. rewrite Hrun. split; [exact Hs|]. clear Hrun Hs. specialize (Hw eq_refl).
  destruct outs as [|o1 [|o2 [|]]]; try discriminate Hlen. repeat (apply Forall_cons in Hw as [<- Hw]). cbn in Hspec. by injection Hspec as _ <-.
Qed.

Definition next_ops : list op := [Open true 1 2 [99] [99] ADEID_DFORK (File_key 0 7)].

Definition after_close : list answer * st := match run_ops 8 (Close 1 :: next_ops) two_open with Ok x => x | Abort _ => ([], start) end.

Lemma refnum_reuse_window_witness :
  run_ops 8 (Close 1 :: next_ops) two_open = Ok (Closed true :: tail after_close.1, after_close.2) /\ Refnum (Some 1) ∉ tail after_close.1.
Proof.
  assert (run_ops 8 (Close 1 :: next_ops) two_open = Ok (Closed true :: tail after_close.1, after_close.2)) as Hrun by (vm_compute; reflexivity).
  split; [exact Hrun|]. destruct two_open_shows as (F & Hs & Hf).
  refine (refnum_reuse_window 8 1 next_ops two_open F _ _ Hs ltac:(lia) _ _ Hrun); [by repeat constructor|]. rewrite Hf. apply le_n.
Defined.

Example reuse_answers : fst <$> (match run_ops 8 (Close 1 :: next_ops) two_open with Ok x => Some x | Abort _ => None end) = Some [Closed true; Refnum (Some 3)].
Proof. vm_compute. reflexivity. Qed.

(** ** A rename at work *)

Lemma two_open_consistent : exists free H, consistent two_open free H.
Proof.
  destruct two_open_shows as (F & [[Hu _]|(_ & H & Hc & _)] & _); [|by exists (free F), H].
  exfalso. pose proof (un_none _ Hu) as E. vm_compute in E. discriminate E.
Qed.

Definition first_fork : ofork := default (Ofork (new_body (File_key 0 0) 0 [] 0 ADEID_DFORK 0) 1 None None) (forks two_open !! 1%positive).

(** The file is moved from directory 2 to directory 3 and gets the name "b". *)
Lemma of_rename_follows_witness : exists free H r s',
  of_rename (fun _ _ => None) 1 (Some 1%positive) (Dir 100 2 [47; 120]) [97] (Dir 101 3 [47; 121]) [98] [98] two_open = Ok (r, s') /\ consistent s' free H /\
  (r = AFP_OK \/ r = AFPERR_MISC /\ allocs two_open <> []) /\ advanced 1 (key (body first_fork)) (Dir 100 2 [47; 120]) (Dir 101 3 [47; 121]) [98] H two_open s' /\
  (allocs two_open = [] -> passed (fun _ _ => None) 1 (key (body first_fork)) (Dir 100 2 [47; 120]) [97] (Dir 101 3 [47; 121]) [98] [98] false H two_open s').
Proof.
  destruct two_open_consistent as (free & H & Hc). exists free, H.
  apply (of_rename_follows (fun _ _ => None) 1 1%positive first_fork (Dir 100 2 [47; 120]) [97] (Dir 101 3 [47; 121]) [98] [98] two_open free H Hc).
  vm_compute. reflexivity.
Defined.

Example rename_answers : match of_rename (fun _ _ => None) 1 (Some 1%positive) (Dir 100 2 [47; 120]) [97] (Dir 101 3 [47; 121]) [98] [98] two_open with
  | Ok (r, s') => r = AFP_OK /\ (of_uname ∘ body <$> forks s' !! 2%positive) = Some [98] /\ (of_did ∘ body <$> forks s' !! 2%positive) = Some 3 /\
      ad_name <$> ads s' !! 1%positive = Some [98]
  | Abort _ => False
  end.
Proof. vm_compute. done. Qed.
