(* ===== verification/ForkModes.v ===== *)
(** * Access modes and byte range locks of open forks, etc/afpd/fork.c and ofork.c

    A client opens a fork with access and deny modes.  The server records them as read
    locks on ten bytes at the end of the data file, the band: a byte for each access and
    each deny mode of the data fork and of the resource fork.  This file models the
    opening with modes, the byte range locks of FPByteRangeLock, and the questions that a
    deletion or a replacement of the file asks about the locks, on top of the locks of
    [AdLock.v].

    Opening files is left to the kernel: what [ad_openat] and [fork_open_rsrc] answer and
    what [ad_size] measures are arguments. *)

From S2P Require Import Prelude Bytes AdHeader AdLock.

(** ** fork_setmode *)

Definition OPENACC_RD : Z := Z.shiftl 1 0.
Definition OPENACC_WR : Z := Z.shiftl 1 1.
Definition OPENACC_DRD : Z := Z.shiftl 1 4.
Definition OPENACC_DWR : Z := Z.shiftl 1 5.

Definition fork_setmode_deny (access f_rddny f_wrdny f_nodny : Z) : Z :=
  Z.lor (if has_bit access OPENACC_DRD then f_rddny else f_nodny) (if has_bit access OPENACC_DWR then f_wrdny else f_nodny).

(** A step of [fork_setmode]: [None] goes on or returns 0, an errno is a return of -1. *)
Definition step : Type := adouble -> res (option errno * adouble).

Definition go : step := fun ad => Ok (None, ad).
Definition andthen (m n : step) : step := fun ad =>
  '(r, ad) ← m ad; match r with Some _ => Ok (r, ad) | None => n ad end.

(** [ad_lock] of a byte of the band. *)
Definition take_band (eid : eid_t) (off fork : Z) : step := fun ad =>
  ad_lock ad eid (Z.lor ADLOCK_RD ADLOCK_FILELOCK) off 1 fork.

(** The errno that a failed probe of the data file leaves. *)
Definition probe_errno (ad : adouble) : errno :=
  match probes (data_kern ad) with Unable e :: _ => e | _ => EBADF end.

(** The part for reading, and the same part for writing: [acc] and [deny] are the bits of
    the request, the offsets those of the two bands. *)
Definition mode_part (eid : eid_t) (acc deny : bool) (open_band deny_band fork : Z) : step := fun ad =>
  let open_errno := probe_errno ad in
  let '(openset, ad) := if deny then ad_testlock ad eid open_band else (0, ad) in
  if deny && (openset <? 0) then Ok (Some open_errno, ad) else
  let deny_errno := probe_errno ad in
  let '(denyset, ad) := ad_testlock ad eid deny_band in
  if denyset <? 0 then Ok (Some deny_errno, ad) else
  if acc && negb (denyset =? 0) then Ok (Some EACCES, ad) else
  if deny && negb (openset =? 0) then Ok (Some EACCES, ad) else
  andthen (if acc then take_band eid open_band fork else go) (if deny then take_band eid deny_band fork else go) ad.

(** Without share reservations ([HAVE_FSHARE_T]). *)
Definition fork_setmode (eid : eid_t) (access ofrefnum : Z) : step :=
  if negb (has_bit access (Z.lor (Z.lor OPENACC_WR OPENACC_RD) (Z.lor OPENACC_DWR OPENACC_DRD)))
  then take_band eid AD_FILELOCK_OPEN_NONE ofrefnum else
  andthen
    (if has_bit access (Z.lor OPENACC_RD OPENACC_DRD)
     then mode_part eid (has_bit access OPENACC_RD) (has_bit access OPENACC_DRD) AD_FILELOCK_OPEN_RD AD_FILELOCK_DENY_RD ofrefnum else go)
    (if has_bit access (Z.lor OPENACC_WR OPENACC_DWR)
     then mode_part eid (has_bit access OPENACC_WR) (has_bit access OPENACC_DWR) AD_FILELOCK_OPEN_WR AD_FILELOCK_DENY_WR ofrefnum else go).

Definition AFP_OK : Z := 0.
Definition AFPERR_DENYCONF : Z := -5006.
Definition AFPERR_LOCK : Z := -5013.
Definition AFPERR_NLOCK : Z := -5015.
Definition AFPERR_PARAM : Z := -5019.
Definition AFPERR_NORANGE : Z := -5020.
Definition AFPERR_RANGEOVR : Z := -5021.

(** The end of FPOpenFork: the modes, and the release of what a refused open took; the
    reply is AFP_OK, AFPERR_DENYCONF or AFPERR_PARAM. *)
Definition openfork_modes (eid : eid_t) (access ofrefnum : Z) (ad : adouble) : res (Z * adouble) :=
  '(r, ad) ← fork_setmode eid access ofrefnum ad;
  match r with
  | None => Ok (AFP_OK, ad)
  | Some e =>
      Ok (match e with EAGAIN | EACCES | EINVAL => AFPERR_DENYCONF | _ => AFPERR_PARAM end, ad_unlock ad ofrefnum)
  end.

(** ** byte_lock *)

(** A value of 64 bits as a signed one. *)
Definition s64 (z : Z) : Z := if u64(z) <? 2 ^ 63 then u64(z) else u64(z) - 2 ^ 64.
Definition s32 (z : Z) : Z := if u32(z) <? 2 ^ 31 then u32(z) else u32(z) - 2 ^ 32.

(** The value, and the rest of the request. *)
Definition get_off_t (ibuf : list Z) (is64 : bool) : Z * list Z :=
  let ret := rd32 ibuf in
  if is64 then (s64 (Z.lor (rd32 (drop 4 ibuf)) (u64 (Z.shiftl ret 32))), drop 8 ibuf)
  else (s32 ret, drop 4 ibuf).

Definition set_off_t (offset : Z) (is64 : bool) : list Z :=
  if is64 then be32 (Z.shiftr (u64 offset) 32) ++ be32 (Z.land offset 0xffffffff) else be32 offset.

Definition is_neg (is64 : bool) (val : Z) : bool := (val <? 0) || (negb is64 && has_bit val 0x80000000).

Definition sum_neg (is64 : bool) (offset reqcount base : Z) : bool :=
  let limit := if is64 then 2 ^ 63 - 1 - base else 2 ^ 31 - 1 in limit - offset <? reqcount.

Definition AFPFORK_DATA : Z := Z.shiftl 1 0.
Definition AFPFORK_RSRC : Z := Z.shiftl 1 1.
Definition AFPFORK_VIRTUAL : Z := Z.shiftl 1 8.
Definition AFPFORK_CACHED : Z := Z.shiftl 1 12.
Definition ADFLAGS_RF : Z := Z.shiftl 1 1.

(** The fields of [struct ofork] that the command reads. *)
Record ofork := Ofork { of_flags : Z; of_adflags : Z; of_refnum : Z }.

Definition fork_cached (f : ofork) : bool := has_bit (of_flags f) AFPFORK_CACHED && negb (has_bit (of_adflags f) ADFLAGS_RF).

Definition ENDBIT (a : Z) : bool := has_bit a 0x80.
Definition UNLOCKBIT (a : Z) : bool := has_bit a 0x01.

(** The reply to a failed [ad_lock]. *)
Definition lock_error (unlock : bool) (e : errno) : Z :=
  match e with
  | EACCES | EAGAIN => if unlock then AFPERR_NORANGE else AFPERR_LOCK
  | ENOLCK => AFPERR_NLOCK
  | EINVAL | EOVERFLOW => if unlock then AFPERR_NORANGE else AFPERR_RANGEOVR
  | _ => AFPERR_PARAM
  end.

(** The command behind its flag byte and fork number: [f] is what [of_find] gave, [size]
    what [ad_size] measures, [open_rsrc] what [fork_open_rsrc] does.  The sum of an offset
    from the end and the size of the fork is undefined when it overflows. *)
Definition byte_lock (f : option ofork) (flags : Z) (ibuf : list Z) (is64 : bool) (size : Z) (open_rsrc : adouble -> Z * adouble)
    (ad : adouble) : res (Z * list Z * adouble) :=
  match f with
  | None => Ok (AFPERR_PARAM, [], ad)
  | Some f =>
      if has_bit (of_flags f) AFPFORK_VIRTUAL then Ok (AFP_OK, [], ad) else
      if negb (has_bit (of_flags f) AFPFORK_DATA) && negb (has_bit (of_flags f) AFPFORK_RSRC) then Ok (AFPERR_PARAM, [], ad) else
      let eid := if has_bit (of_flags f) AFPFORK_DATA then ADEID_DFORK else ADEID_RFORK in
      let '(offset, ibuf) := get_off_t ibuf is64 in
      let '(length, _) := get_off_t ibuf is64 in
      if negb (length =? -1) && ((length =? 0) || is_neg is64 length) then Ok (AFPERR_PARAM, [], ad) else
      let length := if length =? -1 then BYTELOCK_MAX else length in
      if (offset <? 0) && negb (ENDBIT flags) then Ok (AFPERR_PARAM, [], ad) else
      let '(ret, ad) := if negb (UNLOCKBIT flags) && fork_cached f then open_rsrc ad else (AFP_OK, ad) in
      if negb (ret =? AFP_OK) then Ok (ret, [], ad) else
      (* a fork that took its resource fork is no longer cached *)
      let cached := fork_cached f && UNLOCKBIT flags in
      if (AD_FILELOCK_BASE <=? length) && (adf_fd (ad_rfp ad) =? -1) then Ok (if cached then AFPERR_NORANGE else AFPERR_LOCK, [], ad) else
      if ENDBIT flags && (LOCK_TOP <? offset + size) then Abort Undefined else
      let offset := if ENDBIT flags then offset + size else offset in
      if offset <? 0 then Ok (AFPERR_PARAM, [], ad) else
      '(r, ad) ← ad_lock ad eid (if UNLOCKBIT flags then ADLOCK_CLR else ADLOCK_WR) offset length (of_refnum f);
      match r with
      | Some e => Ok (lock_error (UNLOCKBIT flags) e, [], ad)
      | None => Ok (AFP_OK, set_off_t offset is64, ad)
      end
  end.

(** ** The claims on a file *)

Definition AD_FILELOCK_BAND_BITS : Z := 10.
Definition ALL_BAND_BITS : Z := Z.shiftl 1 AD_FILELOCK_BAND_BITS - 1.
Definition DENY_WR_BIT : Z := Z.shiftl 1 (AD_FILELOCK_DENY_WR - AD_FILELOCK_BASE).
Definition DENY_RD_BIT : Z := Z.shiftl 1 (AD_FILELOCK_DENY_RD - AD_FILELOCK_BASE).
Definition RSRC_DENY_WR_BIT : Z := Z.shiftl 1 (AD_FILELOCK_RSRC_DENY_WR - AD_FILELOCK_BASE).
Definition RSRC_DENY_RD_BIT : Z := Z.shiftl 1 (AD_FILELOCK_RSRC_DENY_RD - AD_FILELOCK_BASE).
Definition DELETE_BLOCKING_BAND_BITS : Z := Z.lor (Z.lor DENY_WR_BIT DENY_RD_BIT) (Z.lor RSRC_DENY_WR_BIT RSRC_DENY_RD_BIT).

(** The loop of [of_delete_blocked] over the locks of the data fork: the bits of the band
    and whether there is another lock. *)
Fixpoint claims_loop (l : list entry) (bits : Z) (bytelock : bool) : Z * bool :=
  match l with
  | [] => (bits, bytelock)
  | e :: l =>
      let start := l_start e in
      if (AD_FILELOCK_BASE <=? start) && (start - AD_FILELOCK_BASE <? AD_FILELOCK_BAND_BITS)
      then claims_loop l (Z.lor bits (Z.shiftl 1 (start - AD_FILELOCK_BASE))) bytelock
      else claims_loop l bits true
  end.

(** Whether the delete is refused, the bits and the content flag. *)
Definition of_delete_blocked (ad : adouble) : bool * Z * bool :=
  let '(bits, bytelock) := claims_loop (adf_lock (ad_data_fork ad)) 0 false in
  let bytelock := if bool_decide (adf_lock (ad_rfp ad) <> []) then true else bytelock in
  let bits := Z.land bits DELETE_BLOCKING_BAND_BITS in
  (negb (bits =? 0) || bytelock, bits, bytelock).

Inductive of_locks_status : Type := OF_LOCKS_ERROR | OF_LOCKS_OK | OF_LOCKS_NOENT.

(** An AppleDouble with whether its [ad_reso_refcount] is positive. *)
Record file := File { locks_of : adouble; reso_refs : bool }.

Definition ad_rsrc_open (f : file) : bool := reso_refs f && (0 <=? adf_fd (ad_rfp (locks_of f))).

(** What [ad_openat] answers: the descriptors, ENOENT, EACCES or another error. *)
Inductive opened : Type := Opened (f : file) | Missing | Forbidden | Broken.

(** [ad_openat], and again as root after EACCES when the caller wants so. *)
Definition open_file (try_root : bool) (user root : opened) : opened :=
  match user with Forbidden => if try_root then root else Forbidden | r => r end.

(** The probes of the bits [bits] of the band. *)
Fixpoint band_loop (bits : list Z) (request held : Z) (ad : adouble) : option Z * adouble :=
  match bits with
  | [] => (Some held, ad)
  | bit :: bits =>
      if negb (has_bit request (Z.shiftl 1 bit)) then band_loop bits request held ad else
      let '(r, ad) := ad_testlock_range ad ADEID_DFORK (AD_FILELOCK_BASE + bit) 1 in
      if r <? 0 then (None, ad) else band_loop bits request (if 0 <? r then Z.lor held (Z.shiftl 1 bit) else held) ad
  end.

Definition band_positions : list Z := [0; 1; 2; 3; 4; 5; 6; 7; 8; 9].

(** The probes on the data file: one for everything when two or more are asked for, and
    one for the content and for each bit of the band when that one found a lock. *)
Definition probe_data (df_get : bool) (df_off df_len band_request : Z) (ad : adouble) : option (bool * Z) * adouble :=
  let band_multi := negb (Z.land band_request (band_request - 1) =? 0) in
  let use_whole := (df_get && negb (band_request =? 0)) || band_multi in
  let '(whole, ad) := if use_whole then ad_testlock_whole ad ADEID_DFORK else (1, ad) in
  if whole <? 0 then (None, ad) else
  if negb (0 <? whole) then (Some (false, 0), ad) else
  let '(r, ad) := if df_get then ad_testlock_range ad ADEID_DFORK df_off df_len else (0, ad) in
  if r <? 0 then (None, ad) else
  let '(held, ad) := band_loop band_positions band_request 0 ad in
  (match held with Some h => Some (0 <? r, h) | None => None end, ad).

(** [fork] is an open fork of the file, [absent] whether the stat of the path answered
    ENOENT, and the others what the opens of the data file and of the resource fork
    answer, to the user and to root.  The result comes with the locks on the data fork and
    on the resource fork, the bits of the band, and the open fork after the probes.  This
    is the code without [HAVE_EAFD]. *)
Definition of_get_locks (fork : option file) (absent : bool) (data_user data_root rsrc_user rsrc_root : opened)
    (df_get : bool) (df_off df_len : Z) (rf_get : bool) (rf_off rf_len band_request : Z) (try_root : bool) :
    of_locks_status * (bool * bool * Z) * option file :=
  let none := (false, false, 0) in
  if bool_decide (fork = None) && absent then (OF_LOCKS_NOENT, none, fork) else
  let need_data := df_get || negb (band_request =? 0) in
  let dopen :=
    match fork with
    | Some f => let fd := adf_fd (ad_data_fork (locks_of f)) in if (0 <=? fd) || (fd =? AD_SYMLINK) then Opened f else Broken
    | None => open_file try_root data_user data_root
    end in
  match (if need_data then Some dopen else None) with
  | Some Missing => (OF_LOCKS_NOENT, none, fork)
  | Some Forbidden | Some Broken => (OF_LOCKS_ERROR, none, fork)
  | d =>
      let own_rsrc := match fork with Some f => ad_rsrc_open f | None => false end in
      let ropen :=
        match fork with
        | Some f => if own_rsrc then Opened f else match open_file try_root rsrc_user rsrc_root with Missing => Broken | r => r end
        | None => open_file try_root rsrc_user rsrc_root
        end in
      match (if rf_get then Some ropen else None) with
      | Some Missing => (OF_LOCKS_NOENT, none, fork)
      | Some Forbidden | Some Broken => (OF_LOCKS_ERROR, none, fork)
      | r =>
          let '(rres, fork) :=
            match r with
            | Some (Opened rfile) =>
                if ad_rsrc_open rfile then
                  let '(res, ad) := ad_testlock_range (locks_of rfile) ADEID_RFORK rf_off rf_len in
                  (res, if own_rsrc then Some (File ad (reso_refs rfile)) else fork)
                else (0, fork)
            | _ => (0, fork)
            end in
          if rres <? 0 then (OF_LOCKS_ERROR, none, fork) else
          match d with
          | Some (Opened dfile) =>
              let dfile := default dfile fork in
              let '(p, ad) := probe_data df_get df_off df_len band_request (locks_of dfile) in
              let fork := (fun f => File ad (reso_refs f)) <$> fork in
              match p with
              | None => (OF_LOCKS_ERROR, none, fork)
              | Some (dflk, held) => (OF_LOCKS_OK, (dflk, 0 <? rres, held), fork)
              end
          | _ => (OF_LOCKS_OK, (false, 0 <? rres, 0), fork)
          end
      end
  end.

Definition AFPERR_ACCESS : Z := -5000.
Definition AFPERR_BUSY : Z := -5010.
Definition AFPERR_NOOBJ : Z := -5018.

(** Whether the file may not be replaced, with the open fork that [of_findname] gave. *)
Definition replace_blocked (fork : option file) (absent : bool) (data_user data_root rsrc_user rsrc_root : opened) : Z :=
  if match fork with Some f => (of_delete_blocked (locks_of f)).1.1 | None => false end then AFPERR_BUSY else
  match (of_get_locks fork absent data_user data_root rsrc_user rsrc_root true 0 0 true 0 0 ALL_BAND_BITS true).1 with
  | (OF_LOCKS_OK, (df_locked, rf_locked, band_held)) =>
      if df_locked || rf_locked || has_bit band_held DELETE_BLOCKING_BAND_BITS then AFPERR_BUSY else AFP_OK
  | (OF_LOCKS_NOENT, _) => AFPERR_NOOBJ
  | (OF_LOCKS_ERROR, _) => AFPERR_ACCESS
  end.
