(* ===== verification/ForkModesTheorems.v ===== *)
(** * Access modes, deny modes and byte range locks: theorems

    The abstract state of a file is the modes of its open forks.  The theorems show that
    the bytes of the band implement it: an open is granted exactly when its modes clash
    with no other, whether the other fork is of this process or of another, and the bytes
    that other processes see are those of the open forks, whatever byte range locks the
    clients take below the band. *)

From S2P Require Import Prelude Bytes AdHeader AdHeaderTheorems AdLock AdLockFacts AdLockTheorems ForkModes.

(** ** The modes *)

(** The fork and the access bits of an open. *)
Definition mode : Type := eid_t * Z.

#[export] Instance eid_eq_dec : EqDecision eid_t.
Proof. solve_decision. Defined.

(** An access of one that the other denies, on the same fork. *)
Definition clash (m m' : mode) : bool :=
  bool_decide (m.1 = m'.1) &&
  ((has_bit m.2 OPENACC_RD && has_bit m'.2 OPENACC_DRD) || (has_bit m.2 OPENACC_DRD && has_bit m'.2 OPENACC_RD) ||
   (has_bit m.2 OPENACC_WR && has_bit m'.2 OPENACC_DWR) || (has_bit m.2 OPENACC_DWR && has_bit m'.2 OPENACC_WR)).

(** The byte of the band for a mode of the fork. *)
Definition band (eid : eid_t) (b : Z) : Z := match eid with ADEID_DFORK => b | ADEID_RFORK => rf2off b end.

Definition part_bands (eid : eid_t) (acc deny : bool) (open_band deny_band : Z) : list Z :=
  (if deny then [band eid deny_band] else []) ++ (if acc then [band eid open_band] else []).

(** The bytes an open takes. *)
Definition bands (m : mode) : list Z :=
  if negb (has_bit m.2 (Z.lor (Z.lor OPENACC_WR OPENACC_RD) (Z.lor OPENACC_DWR OPENACC_DRD)))
  then [band m.1 AD_FILELOCK_OPEN_NONE] else
  part_bands m.1 (has_bit m.2 OPENACC_WR) (has_bit m.2 OPENACC_DWR) AD_FILELOCK_OPEN_WR AD_FILELOCK_DENY_WR ++
  part_bands m.1 (has_bit m.2 OPENACC_RD) (has_bit m.2 OPENACC_DRD) AD_FILELOCK_OPEN_RD AD_FILELOCK_DENY_RD.

(** The bytes nobody may hold for the open to be granted. *)
Definition rivals (m : mode) : list Z :=
  part_bands m.1 (has_bit m.2 OPENACC_DWR) (has_bit m.2 OPENACC_WR) AD_FILELOCK_OPEN_WR AD_FILELOCK_DENY_WR ++
  part_bands m.1 (has_bit m.2 OPENACC_DRD) (has_bit m.2 OPENACC_RD) AD_FILELOCK_OPEN_RD AD_FILELOCK_DENY_RD.

(** The lock on a byte of the band. *)
Definition band_entry (fork b : Z) : entry := Entry F_RDLCK b 1 fork 0.

(** ** The locks of a file whose resource fork need not be open *)

Definition rsrc_ok (ad : adouble) : Prop :=
  (adf_fd (ad_rfp ad) = -1 /\ adf_lock (ad_rfp ad) = []) \/ (good (ad_rfp ad) (rsrc_kern ad) /\ releases (rsrc_kern ad) = []).

Record fork_file (ad : adouble) (L R : list entry) : Prop := {
  ff_data : good (ad_data_fork ad) (data_kern ad);
  ff_yielding : releases (data_kern ad) = [];
  ff_rsrc : rsrc_ok ad;
  ff_off : 0 <= rfork_off ad;
  ff_L : recs (adf_lock (ad_data_fork ad)) ≡ₚ L;
  ff_R : recs (adf_lock (ad_rfp ad)) ≡ₚ R
}.

(** At the next probes the other processes hold the locks [ls]. *)
Definition steady (ls : list flock) (n : nat) (ad : adouble) : Prop :=
  exists m, (n <= m)%nat /\ probes (data_kern ad) = replicate m (Others ls).

Definition foreign (ls : list flock) (b : Z) : Prop := exists f, f ∈ ls /\ locks_byte f b.

Definition proper_locks (ls : list flock) : Prop := Forall (fun f => 0 <= fl_start f /\ 0 <= fl_len f) ls.

Lemma foreign_excludes ls b :
  proper_locks ls -> existsb (excludes (Flock F_WRLCK b 1)) ls = true <-> foreign ls b.
Proof.
  intros Hl. unfold proper_locks in Hl. rewrite Forall_forall in Hl. rewrite existsb_exists. unfold foreign.
  setoid_rewrite <- list_elem_of_In. f_equiv. intros f. split; intros [Hf H]; (split; [done|]); destruct (Hl f Hf).
  - apply write_excludes in H as (b' & Hb & ?); [|lia..]. by replace b with b' by lia.
  - apply write_excludes; [lia..|]. exists b. split; [done|lia].
Qed.

(** A probe of a byte of the band: the own array first, then the kernel. *)
Lemma ad_testlock_spec ad L R eid off :
  fork_file ad L R -> 0 <= band eid off <= LOCK_TOP ->
  exists z ad', ad_testlock ad eid off = (z, ad') /\ fork_file ad' L R /\
    (ad_rfp ad' = ad_rfp ad /\ later (data_kern ad) (data_kern ad')) /\
    (covered L (band eid off) -> z = 1) /\
    (forall ls n, proper_locks ls -> steady ls (S n) ad ->
       steady ls n ad' /\ ((z = 1 /\ (covered L (band eid off) \/ foreign ls (band eid off))) \/
                           (z = 0 /\ ~ covered L (band eid off) /\ ~ foreign ls (band eid off)))).
Proof.
  intros Hf Hb. destruct Hf as [Hd Hg Hr Ho HL HR]. unfold ad_testlock. fold (band eid off). set (b := band eid off) in *.
  unfold testlock.
  assert (existsb (fun e => OVERLAP b 1 (l_start e) (l_len e)) (adf_lock (ad_data_fork ad)) = true <-> covered L b) as Hex.
  { rewrite <- HL, covered_recs. rewrite existsb_exists. unfold covered. setoid_rewrite <- list_elem_of_In. f_equiv. intros e.
    split; intros [He H]; (split; [done|]).
    - apply (overlap_meets _ _ _ (good_arr _ _ Hd)) in H; [|unfold range_ok; lia|lia|done]. unfold meets, covers in *. lia.
    - apply (overlap_meets _ _ _ (good_arr _ _ Hd)); [unfold range_ok; lia|lia|done|]. unfold meets, covers in *. lia. }
  destruct (existsb _ _).
  { assert (covered L b) by by apply Hex. do 2 eexists. split; [reflexivity|]. cbn. split_and!; try done.
    intros ls n _ (m & Hm & Hp). split; [exists m; split; [lia|done]|]. left. split; [done|by left]. }
  assert (~ covered L b) as Hn by (rewrite <- Hex; done).
  pose proof (good_fd _ _ Hd) as Hfd. unfold get_lock, AD_SYMLINK. case_test; [lia|]. case_test; [lia|]. unfold getlk.
  assert (forall k', held k' = held (data_kern ad) -> releases k' = releases (data_kern ad) -> fork_file (set_data_kern ad k') L R) as Hkeep.
  { intros k' E1 E2. destruct Hd as [G1 G2 G3 G4 G5]. split; cbn; try done; [|congruence].
    split; try done. unfold synced in *. by rewrite E1. }
  destruct (probes (data_kern ad)) as [|[e|ls'] ps] eqn:Ep; (do 2 eexists; split; [reflexivity|]);
    (split; [by apply Hkeep|]; split; [done|]; split; [done|]); intros ls n Hls (m & Hm & Hp);
    rewrite Ep in Hp; destruct m as [|m]; try lia; try done.
  cbn in Hp. injection Hp as -> ->. split; [exists m; split; [lia|done]|].
  pose proof (foreign_excludes ls b Hls) as Hx. destruct (existsb _ _); cbn.
  - left. split; [done|]. right. by apply Hx.
  - right. split_and!; try done. rewrite <- Hx. done.
Qed.

(** ** Taking locks uses up no probe *)

Lemma set_lock_probes fd fl k : probes (set_lock fd fl k).2 = probes k.
Proof. unfold set_lock, setlk. repeat case_match; done. Qed.

Lemma realloc_probes k : probes (realloc k).2 = probes k.
Proof. unfold realloc. by case_match. Qed.

Lemma gaps_loop_probes fd ty undo win : (forall d k, probes (undo d k) = probes k) ->
  forall d last ret k, probes (gaps_loop fd ty undo win d last ret k).2 = probes k.
Proof.
  intros Hu. induction win as [|w win IH]; intros d last ret k; cbn [gaps_loop]; (case_test; [done|]);
    match goal with |- context [set_lock fd ?fl k] => pose proof (set_lock_probes fd fl k) as Hs end;
    destruct (d <? _); [destruct (set_lock _ _ _) as [[e|] k'] | |destruct (set_lock _ _ _) as [[e|] k'] |];
    cbn in Hs; try case_bool_decide; cbn; rewrite ?Hu, ?IH; done.
Qed.

Lemma release_gaps_probes fd l s n k : probes (release_gaps fd l s n k).2 = probes k.
Proof. by apply gaps_loop_probes. Qed.

Lemma adf_lock_gaps_probes fd l r k : probes (adf_lock_gaps fd l r k).2 = probes k.
Proof. apply gaps_loop_probes. intros d k'. case_test; [apply release_gaps_probes|done]. Qed.

Lemma adf_freelock_probes a i k : probes (adf_freelock a i k).2 = probes k.
Proof.
  unfold adf_freelock. case_match; [|done]. set (l := adf_lock_reach _ _). set (fl := Flock _ _ _).
  pose proof (adf_lock_gaps_probes (adf_fd a) l fl k) as H1. destruct (adf_lock_gaps _ _ _ _) as [e1 k1]. cbn in H1.
  pose proof (realloc_probes k1) as H2. destruct (realloc k1). case_test; cbn in *; congruence.
Qed.

Lemma record_lock_probes a type fork fl k : probes (record_lock a type fork fl k).2 = probes k.
Proof.
  unfold record_lock. case_test; [done|]. set (o := adf_findlock _ _ _ _ _). case_test; [done|]. case_bool_decide.
  { destruct o as [i|]; [|done]. pose proof (adf_freelock_probes a i k) as H1. destruct (adf_freelock a i k). done. }
  pose proof (set_lock_probes (adf_fd a) fl k) as H1. destruct (set_lock _ _ _) as [[e|] k1]; [done|]. cbn in H1.
  destruct o as [i|]; [case_test; done|].
  assert (exists ok k2, (if adf_lockmax a =? Z.of_nat (length (adf_lock a)) then realloc k1 else (true, k1)) = (ok, k2) /\ probes k2 = probes k)
    as (ok & k2 & -> & H2).
  { pose proof (realloc_probes k1). destruct (realloc k1). case_test; do 2 eexists; (split; [reflexivity|]); cbn in *; congruence. }
  destruct ok; cbn [negb]; [done|]. set (f2 := Flock _ _ _).
  pose proof (adf_lock_gaps_probes (adf_fd a) (adf_lock a) f2 k2) as H3. destruct (adf_lock_gaps _ _ _ _). cbn in *. congruence.
Qed.

Lemma lock_fd_probes a shift type off len fork k : probes (lock_fd a shift type off len fork k).2 = probes k.
Proof. unfold lock_fd. case_test; [done|]. case_test; [done|]. case_test; [done|]. apply record_lock_probes. Qed.

(** ** The steps of an open *)

(** Every lock on the byte is a read lock of another fork. *)
Definition sharable (L : list entry) (fork b : Z) : Prop :=
  0 <= b <= LOCK_TOP /\ forall e, e ∈ L -> covers e b -> l_type e = F_RDLCK /\ user e <> fork.

Lemma meets_covers b e : meets b b e <-> covers e b.
Proof. unfold meets, covers. lia. Qed.

Lemma spec_lock_band rdwr b fork L :
  sharable L fork b -> spec_lock rdwr 0 F_RDLCK false b 1 fork L = (None, band_entry fork b :: L).
Proof.
  intros [Hb Hs]. unfold spec_lock, granted_type. rewrite andb_false_r, Z.add_0_r.
  rewrite (decide_False (P := 1 = BYTELOCK_MAX)) by done. rewrite (decide_False (P := b < 0 \/ _)), (decide_False (P := LOCK_TOP < _)) by lia.
  rewrite spec_record_none, (decide_False (P := F_RDLCK = _)); [|done|].
  - rewrite decide_False; [done|]. rewrite Exists_exists. intros (e & He & _ & Hm & [?|Ht]); [done|].
    replace (b + 1 - 1) with b in Hm by lia. apply meets_covers in Hm. destruct (Hs e He Hm). congruence.
  - rewrite Forall_forall. intros e He [Hu Hm]. replace (b + 1 - 1) with b in Hm by lia. apply meets_covers in Hm. by destruct (Hs e He Hm).
Qed.

Lemma take_band_spec ad L R eid off fork :
  fork_file ad L R -> sharable L fork (band eid off) ->
  exists r ad', take_band eid off fork ad = Ok (r, ad') /\
    match r with
    | None => fork_file ad' (band_entry fork (band eid off) :: L) R
    | Some e => fork_file ad' L R /\ denied (data_kern ad) e
    end /\
    (ad_rfp ad' = ad_rfp ad /\ later (data_kern ad) (data_kern ad')) /\ (forall ls n, steady ls n ad -> steady ls n ad').
Proof.
  intros [Hd Hg Hr Ho HL HR] Hs.
  destruct (lock_fd_shows _ _ 0 F_RDLCK false true (band eid off) 1 fork _ Hd Hg ltac:(lia) ltac:(done) HL)
    as (r & a' & k' & L' & H1 & H2 & H3 & H4 & [H5 Hlat] & H6).
  rewrite spec_lock_band in H2 by done. apply allowed_cases in H2.
  pose proof (lock_fd_probes (ad_data_fork ad) 0 (locktype F_RDLCK false true) (band eid off) 1 fork (data_kern ad)) as Hp.
  rewrite H1 in Hp. cbn in Hp. change (locktype F_RDLCK false true) with (Z.lor ADLOCK_RD ADLOCK_FILELOCK) in H1.
  unfold take_band, ad_lock. cbn [negb Z.eqb].
  exists r, (Adouble a' (ad_rfp ad) k' (rsrc_kern ad) (rfork_off ad)). split.
  - destruct eid; cbn [band] in H1; change (has_bit _ ADLOCK_FILELOCK) with true; cbn -[lock_fd Z.lor]; rewrite H1; done.
  - split; [destruct H2 as [[= -> ->]|(_ & _ & -> & e & -> & He)]; [by split|split; [by split|done]]|]. split; [done|]. intros ls n (m & ? & ?). exists m. split; [done|]. cbn. congruence.
Qed.

Definition free (ls : list flock) (L : list entry) (b : Z) : Prop := ~ covered L b /\ ~ foreign ls b.

(** What a step from [ad] did: granted it has taken the bytes [new], refused some of them,
    and it is granted exactly when the bytes [riv] are free, as far as this process can
    know, unless the kernel or the allocator denied a lock; it makes at most [cost]
    probes. *)
Definition outcome (fork : Z) (new riv : list Z) (cost : nat) (ad : adouble) (L R : list entry)
    (x : res (option errno * adouble)) : Prop :=
  exists r ad', x = Ok (r, ad') /\ (ad_rfp ad' = ad_rfp ad /\ later (data_kern ad) (data_kern ad')) /\
    (r = None -> fork_file ad' ((band_entry fork <$> new) ++ L) R /\ Forall (fun b => ~ covered L b) riv) /\
    (r <> None -> exists part, part ⊆ new /\ fork_file ad' ((band_entry fork <$> part) ++ L) R) /\
    (forall ls n, proper_locks ls -> steady ls (cost + n) ad -> steady ls n ad' /\
       ((r = None /\ Forall (free ls L) riv) \/ (r = Some EACCES /\ ~ Forall (free ls L) riv) \/
        exists e, r = Some e /\ denied (data_kern ad) e)).

Definition step_spec (m : step) (fork : Z) (new riv : list Z) (cost : nat) : Prop := forall ad L R,
  fork_file ad L R -> Forall (sharable L fork) new -> outcome fork new riv cost ad L R (m ad).

Lemma covers_band_entry fork b b' : covers (band_entry fork b) b' <-> b' = b.
Proof. unfold covers, last_byte, adf_lock_last. cbn. lia. Qed.

Lemma covered_bands fork bs L b : covered ((band_entry fork <$> bs) ++ L) b <-> b ∈ bs \/ covered L b.
Proof.
  rewrite covered_app. f_equiv. unfold covered. split.
  - intros (e & (x & -> & Hx)%list_elem_of_fmap & Hc). apply covers_band_entry in Hc as ->. done.
  - intros Hb. exists (band_entry fork b). split; [apply list_elem_of_fmap; eauto|by apply covers_band_entry].
Qed.

Lemma sharable_bands L fork bs b : sharable L fork b -> b ∉ bs -> sharable ((band_entry fork <$> bs) ++ L) fork b.
Proof.
  intros [Hb H] Hn. split; [done|]. intros e He Hc. apply elem_of_app in He as [(x & -> & Hx)%list_elem_of_fmap|He]; [|by apply H].
  apply covers_band_entry in Hc as ->. done.
Qed.

Lemma go_spec fork : step_spec go fork [] [] 0.
Proof.
  intros ad L R Hf _. exists None, ad. split; [done|]. split; [done|]. split; [done|]. split; [done|].
  intros ls n _ Hs. split; [done|]. by left.
Qed.

Lemma take_spec_step eid off fork : step_spec (take_band eid off fork) fork [band eid off] [] 0.
Proof.
  intros ad L R Hf Hs. rewrite Forall_singleton in Hs.
  destruct (take_band_spec ad L R eid off fork Hf Hs) as (r & ad' & H1 & H2 & H3 & H4).
  exists r, ad'. split; [done|]. split; [done|]. split; [intros ->; done|]. split.
  - intros Hr. destruct r as [e|]; [|done]. exists []. split; [set_solver|apply H2].
  - intros ls n _ Hst. split; [by apply H4|]. destruct r as [e|]; [|by left]. right. right. exists e. split; [done|apply H2].
Qed.

(** Two steps on different bytes. *)
Lemma andthen_spec m1 m2 fork new1 riv1 c1 new2 riv2 c2 :
  step_spec m1 fork new1 riv1 c1 -> step_spec m2 fork new2 riv2 c2 ->
  Forall (fun b => b ∉ new1) new2 -> Forall (fun b => b ∉ new1) riv2 ->
  step_spec (andthen m1 m2) fork (new2 ++ new1) (riv2 ++ riv1) (c1 + c2).
Proof.
  intros S1 S2 Hd2 Hr2 ad L R Hf [Hs2 Hs1]%Forall_app.
  destruct (S1 ad L R Hf Hs1) as (r1 & ad1 & E1 & F1 & N1 & X1 & T1). unfold andthen. rewrite E1. cbn.
  assert (forall ls, Forall (free ls ((band_entry fork <$> new1) ++ L)) riv2 <-> Forall (free ls L) riv2) as Hfree.
  { intros ls. rewrite !Forall_forall in *. split; intros H b Hb.
    - destruct (H b Hb). split; [|done]. rewrite covered_bands in *. tauto.
    - destruct (H b Hb). split; [|done]. rewrite covered_bands. intros [?|?]; [by apply (Hr2 b)|done]. }
  destruct r1 as [e1|].
  { exists (Some e1), ad1. split; [done|]. split; [done|]. split; [done|]. split.
    - intros _. destruct X1 as (part & Hp & ?); [done|]. exists part. split; [set_solver|done].
    - intros ls n Hl Hs. destruct (T1 ls (c2 + n)%nat Hl) as [[m [? ?]] HT]; [by rewrite Nat.add_assoc|].
      split; [exists m; split; [lia|done]|]. right. destruct HT as [[? _]|[[? HT]|HT]]; [done| |by right]. left. split; [done|].
      rewrite Forall_app. tauto. }
  destruct N1 as [N1 N1']; [done|].
  destruct (S2 ad1 _ R N1) as (r2 & ad2 & E2 & F2 & N2 & X2 & T2).
  { rewrite Forall_forall in *. intros b Hb. apply sharable_bands; auto. }
  exists r2, ad2. split; [done|]. destruct F1 as [F1 A1], F2 as [F2 A2].
  split; [split; [congruence|by eapply worlds_later_trans]|]. split; [|split].
  - intros Hr. destruct (N2 Hr) as [G1 G2]. split; [by rewrite fmap_app, <- app_assoc|]. apply Forall_app. split; [|done].
    rewrite Forall_forall in *. intros b Hb Hc. apply (G2 b Hb). rewrite covered_bands. by right.
  - intros Hr. destruct (X2 Hr) as (part & Hp & Hx). exists (part ++ new1). split; [set_solver|]. by rewrite fmap_app, <- app_assoc.
  - intros ls n Hl Hs. destruct (T1 ls (c2 + n)%nat Hl) as [Hs1' HT]; [by rewrite Nat.add_assoc|].
    destruct (T2 ls n Hl Hs1') as [Hs2' HT2]. split; [done|]. rewrite Hfree in HT2. rewrite Forall_app.
    destruct HT as [[_ ?]|[[? _]|(? & ? & _)]]; [|done|done]. destruct HT2 as [?|[?|(e & ? & He)]]; [tauto|tauto|]. right. right. exists e.
    split; [done|by eapply denied_later].
Qed.

Section part.
Context (eid : eid_t) (open_band deny_band fork : Z).
Context (Ho : 0 <= band eid open_band <= LOCK_TOP) (Hd : 0 <= band eid deny_band <= LOCK_TOP).
Context (Hne : band eid deny_band <> band eid open_band).

Lemma takes_spec (acc deny : bool) :
  step_spec (andthen (if acc then take_band eid open_band fork else go) (if deny then take_band eid deny_band fork else go))
    fork (part_bands eid acc deny open_band deny_band) [] 0.
Proof.
  apply (andthen_spec _ _ _ _ [] 0 _ [] 0);
    [destruct acc; [apply take_spec_step|apply go_spec]|destruct deny; [apply take_spec_step|apply go_spec]| |done].
  destruct acc, deny; repeat constructor; set_solver.
Qed.

(** A test that is made when [b] is set. *)
Lemma tested (b : bool) off ad L R :
  fork_file ad L R -> 0 <= band eid off <= LOCK_TOP ->
  exists z ad', (if b then ad_testlock ad eid off else (0, ad)) = (z, ad') /\ fork_file ad' L R /\
    (ad_rfp ad' = ad_rfp ad /\ later (data_kern ad) (data_kern ad')) /\
    (b = true -> covered L (band eid off) -> z = 1) /\
    forall ls n, proper_locks ls -> steady ls (S n) ad -> steady ls n ad' /\ 0 <= z /\
      (b = true -> z = 0 <-> free ls L (band eid off)).
Proof.
  intros Hf Hb. destruct b.
  - destruct (ad_testlock_spec ad L R eid off Hf Hb) as (z & ad' & H1 & H2 & H3 & H4 & H5). exists z, ad'.
    split; [done|]. split; [done|]. split; [done|]. split; [done|]. intros ls n Hl Hs. destruct (H5 ls n Hl Hs) as [? [(-> & ?)|(-> & ?)]]; unfold free; (split; [done|]); (split; [lia|]); intuition congruence.
  - exists 0, ad. split; [done|]. split; [done|]. split; [done|]. split; [done|]. intros ls n _ (m & ? & ?). split; [exists m; split; [lia|done]|]. done.
Qed.

(** A refusal before anything is taken. *)
Lemma outcome_refused new riv cost ad L R e ad' :
  fork_file ad' L R -> ad_rfp ad' = ad_rfp ad /\ later (data_kern ad) (data_kern ad') ->
  (forall ls n, proper_locks ls -> steady ls (cost + n) ad ->
     steady ls n ad' /\ e = EACCES /\ ~ Forall (free ls L) riv) ->
  outcome fork new riv cost ad L R (Ok (Some e, ad')).
Proof.
  intros Hf Hr Ht. exists (Some e), ad'. split; [done|]. split; [done|]. split; [done|].
  split; [intros _; exists []; split; [set_solver|done]|]. intros ls n Hl Hst. destruct (Ht ls n Hl Hst) as (? & -> & ?). split; [done|]. right. by left.
Qed.

Lemma Forall_part (P : Z -> Prop) (acc deny : bool) :
  Forall P (part_bands eid deny acc open_band deny_band) <->
  (acc = true -> P (band eid deny_band)) /\ (deny = true -> P (band eid open_band)).
Proof. unfold part_bands. rewrite Forall_app. destruct acc, deny; rewrite ?Forall_singleton; intuition done. Qed.

Lemma mode_part_spec (acc deny : bool) :
  step_spec (mode_part eid acc deny open_band deny_band fork) fork
    (part_bands eid acc deny open_band deny_band) (part_bands eid deny acc open_band deny_band) 2.
Proof.
  intros ad L R Hf Hs. unfold mode_part.
  destruct (tested deny open_band ad L R Hf Ho) as (z1 & ad1 & -> & F1 & R1 & C1 & T1).
  destruct (tested true deny_band ad1 L R F1 Hd) as (z2 & ad2 & E2 & F2 & R2 & C2 & T2). cbn in E2. rewrite E2.
  assert (forall ls n, proper_locks ls -> steady ls (2 + n) ad -> steady ls n ad2 /\ 0 <= z1 /\ 0 <= z2 /\
            (deny = true -> z1 = 0 <-> free ls L (band eid open_band)) /\ (z2 = 0 <-> free ls L (band eid deny_band))) as HT.
  { intros ls n Hl Hst. destruct (T1 ls (S n) Hl Hst) as (Hst1 & ? & ?). destruct (T2 ls n Hl Hst1) as (? & ? & Q). specialize (Q eq_refl). tauto. }
  assert (ad_rfp ad2 = ad_rfp ad /\ later (data_kern ad) (data_kern ad2)) as R2'.
  { destruct R1, R2. split; [congruence|by eapply worlds_later_trans]. }
  case_test; [apply outcome_refused; [done..|]; intros ls n Hl Hst; destruct (T1 ls (S n) Hl Hst); lia|].
  case_test; [apply outcome_refused; [done..|]; intros ls n Hl Hst; destruct (HT ls n Hl Hst); lia|].
  case_test; [apply outcome_refused; [done..|]; intros ls n Hl Hst; destruct (HT ls n Hl Hst) as (? & _ & _ & _ & HZ); rewrite Forall_part; intuition|].
  case_test; [apply outcome_refused; [done..|]; intros ls n Hl Hst; destruct (HT ls n Hl Hst) as (? & _ & _ & HZ & _); rewrite Forall_part; intuition|].
  destruct (takes_spec acc deny ad2 L R F2 Hs) as (r & ad' & H1 & H2 & H3 & H4 & H5).
  assert (acc = true -> z2 = 0) as Z2 by (intros ->; lia). assert (deny = true -> z1 = 0) as Z1 by (intros ->; lia).
  exists r, ad'. split; [done|]. destruct R2' as [R3 R4], H2 as [H2 H2'].
  split; [split; [congruence|by eapply worlds_later_trans]|]. split; [|split; [done|]].
  - intros Hr. split; [by apply H3|]. apply Forall_part. split; intros Hb Hc; [apply C2 in Hc|apply C1 in Hc]; try done; rewrite ?Z1, ?Z2 in Hc; done.
  - intros ls n Hl Hst. destruct (HT ls n Hl Hst) as (Hst2 & _ & _ & Q1 & Q2). destruct (H5 ls n Hl Hst2) as [? [[-> _]|[[_ Hx]|(e & -> & He)]]]; [|by destruct Hx|].
    2: { split; [done|]. right. right. exists e. split; [done|by eapply denied_later]. }
    split; [done|]. left. split; [done|]. apply Forall_part. split; intros Hb; [apply Q2, Z2|apply Q1, Z1]; done.
Qed.

End part.

Lemma has_bit_lor a x y : has_bit a (Z.lor x y) = has_bit a x || has_bit a y.
Proof.
  unfold has_bit. rewrite Z.land_lor_distr_r.
  destruct (Z.eqb_spec (Z.land a x) 0) as [->|Hx], (Z.eqb_spec (Z.land a y) 0) as [->|Hy]; rewrite ?Z.lor_0_l, ?Z.lor_0_r; cbn.
  - done.
  - by rewrite (proj2 (Z.eqb_neq _ _)).
  - by rewrite (proj2 (Z.eqb_neq _ _)).
  - rewrite (proj2 (Z.eqb_neq _ _)); [done|]. intros [? ?]%Z.lor_eq_0_iff. done.
Qed.

Lemma step_cost m fork new riv c c' : (c <= c')%nat -> step_spec m fork new riv c -> step_spec m fork new riv c'.
Proof.
  intros Hc H ad L R Hf Hs. destruct (H ad L R Hf Hs) as (r & ad' & H1 & H2 & H3 & H4 & H5). exists r, ad'.
  split; [done|]. split; [done|]. split; [done|]. split; [done|]. intros ls n Hl (k & ? & ?). apply H5; [done|]. exists k. split; [lia|done].
Qed.

Lemma fork_setmode_spec eid access fork :
  step_spec (fork_setmode eid access fork) fork (bands (eid, access)) (rivals (eid, access)) 4.
Proof.
  unfold fork_setmode, bands, rivals. cbn [fst snd]. rewrite !has_bit_lor.
  destruct (has_bit access OPENACC_RD) eqn:R, (has_bit access OPENACC_DRD) eqn:DR,
    (has_bit access OPENACC_WR) eqn:W, (has_bit access OPENACC_DWR) eqn:DW; cbn [orb negb];
  try (apply (step_cost _ _ _ _ 0); [lia|]; apply take_spec_step);
  (apply (andthen_spec _ _ _ _ _ 2 _ _ 2);
    [ try (apply mode_part_spec; destruct eid; done); try (apply (step_cost _ _ _ _ 0); [lia|]; apply go_spec)
    | try (apply mode_part_spec; destruct eid; done); try (apply (step_cost _ _ _ _ 0); [lia|]; apply go_spec)
    | destruct eid; apply (bool_decide_unpack _); vm_compute; exact I .. ]).
Qed.

(** ** The forks open on a file *)

Definition in_band (b : Z) : Prop := AD_FILELOCK_BASE <= b <= LOCK_TOP.

Lemma bands_range m : Forall in_band (bands m).
Proof.
  destruct m as [eid a]. unfold bands, in_band. cbn [fst snd]. rewrite !has_bit_lor.
  destruct (has_bit a OPENACC_RD), (has_bit a OPENACC_DRD), (has_bit a OPENACC_WR), (has_bit a OPENACC_DWR), eid; repeat constructor; done.
Qed.

Lemma clash_rivals m m' : clash m m' = existsb (fun b => bool_decide (b ∈ bands m')) (rivals m).
Proof.
  destruct m as [eid a], m' as [eid' a']. unfold clash, rivals, bands. cbn [fst snd]. rewrite !has_bit_lor.
  generalize (has_bit a OPENACC_RD) (has_bit a OPENACC_DRD) (has_bit a OPENACC_WR) (has_bit a OPENACC_DWR).
  generalize (has_bit a' OPENACC_RD) (has_bit a' OPENACC_DRD) (has_bit a' OPENACC_WR) (has_bit a' OPENACC_DWR).
  intros [] [] [] [] [] [] [] []; destruct eid, eid'; vm_compute; reflexivity.
Qed.

Lemma clash_shared m m' : clash m m' = true <-> exists b, b ∈ rivals m /\ b ∈ bands m'.
Proof.
  rewrite clash_rivals, existsb_exists. setoid_rewrite <- list_elem_of_In. setoid_rewrite bool_decide_eq_true. done.
Qed.

Lemma clash_sym m m' : clash m m' = clash m' m.
Proof.
  unfold clash. rewrite (bool_decide_ext (m.1 = m'.1) (m'.1 = m.1)) by done. f_equal.
  destruct (has_bit m.2 OPENACC_RD), (has_bit m.2 OPENACC_DRD), (has_bit m.2 OPENACC_WR), (has_bit m.2 OPENACC_DWR),
    (has_bit m'.2 OPENACC_RD), (has_bit m'.2 OPENACC_DRD), (has_bit m'.2 OPENACC_WR), (has_bit m'.2 OPENACC_DWR); done.
Qed.

Lemma rivals_range m : Forall in_band (rivals m).
Proof.
  destruct m as [eid a]. unfold rivals, in_band. cbn [fst snd].
  destruct (has_bit a OPENACC_RD), (has_bit a OPENACC_DRD), (has_bit a OPENACC_WR), (has_bit a OPENACC_DWR), eid; repeat constructor; done.
Qed.

(** The forks [T] hold their bytes of the band, nothing else is on it, and no lock is
    left from a fork that is closed. *)
Record modes_held (T : gmap Z mode) (L R : list entry) : Prop := {
  mh_band : forall e, e ∈ L -> AD_FILELOCK_BASE <= last_byte e ->
    exists b m, e = band_entry (user e) b /\ T !! user e = Some m /\ b ∈ bands m;
  mh_held : forall fork m b, T !! fork = Some m -> b ∈ bands m -> band_entry fork b ∈ L;
  mh_users : forall e, e ∈ L ++ R -> is_Some (T !! user e);
  mh_clash : forall f f' m m', T !! f = Some m -> T !! f' = Some m' -> f <> f' -> clash m m' = false
}.

Lemma modes_covered T L R b :
  modes_held T L R -> in_band b -> covered L b <-> exists fork m, T !! fork = Some m /\ b ∈ bands m.
Proof.
  intros [H1 H2 _ _] Hb. unfold in_band in Hb. split.
  - intros (e & He & Hc). destruct (H1 e He) as (b' & m & E & HT & Hm); [unfold covers in Hc; lia|].
    rewrite E in Hc. apply covers_band_entry in Hc as ->. eauto.
  - intros (fork & m & HT & Hm). exists (band_entry fork b). split; [by eapply H2|by apply covers_band_entry].
Qed.

Lemma modes_sharable T L R fork b : modes_held T L R -> T !! fork = None -> in_band b -> sharable L fork b.
Proof.
  intros H HT Hb. unfold in_band in Hb. split; [unfold AD_FILELOCK_BASE in *; lia|]. intros e He Hc.
  destruct (mh_band _ _ _ H e He) as (b' & m & E & Hm & _); [unfold covers in Hc; lia|]. split; [by rewrite E|congruence].
Qed.

Lemma modes_open T L R fork m :
  modes_held T L R -> T !! fork = None -> Forall (fun b => ~ covered L b) (rivals m) ->
  modes_held (<[fork := m]> T) ((band_entry fork <$> bands m) ++ L) R.
Proof.
  intros H HT Hr. rewrite Forall_forall in Hr.
  assert (forall f' m', T !! f' = Some m' -> clash m m' = false) as Hc.
  { intros f' m' Hm'. apply not_true_is_false. rewrite clash_shared. intros (b & Hb & Hb'). apply (Hr b Hb).
    pose proof (rivals_range m) as Hin. rewrite Forall_forall in Hin. eapply modes_covered; eauto. }
  destruct H as [H1 H2 H3 H4]. split.
  - intros e [(b & -> & Hb)%list_elem_of_fmap|He]%elem_of_app Hl.
    + exists b, m. cbn. rewrite lookup_insert_eq. done.
    + destruct (H1 e He Hl) as (b & m' & E & Hm & Hb). exists b, m'. rewrite lookup_insert_ne by congruence. done.
  - intros f m' b [[<- ->]|[? Hm]]%lookup_insert_Some Hb; apply elem_of_app; [left; apply list_elem_of_fmap; eauto|right; eauto].
  - intros e He. rewrite <- app_assoc in He. apply elem_of_app in He as [(b & -> & Hb)%list_elem_of_fmap|He].
    + cbn. rewrite lookup_insert_eq. eauto.
    + destruct (H3 e He) as [m' Hm']. rewrite lookup_insert_ne by congruence. eauto.
  - intros f f' m1 m2 [[<- ->]|[? Hm]]%lookup_insert_Some [[<- ->]|[? Hm']]%lookup_insert_Some Hf; eauto; try done.
    rewrite clash_sym. eauto.
Qed.

Lemma elem_of_spec_unlock fork L e : e ∈ spec_unlock fork L <-> user e <> fork /\ e ∈ L.
Proof. unfold spec_unlock. rewrite list_elem_of_filter. done. Qed.

Lemma modes_close T L R fork : modes_held T L R -> modes_held (delete fork T) (spec_unlock fork L) (spec_unlock fork R).
Proof.
  intros [H1 H2 H3 H4]. split.
  - intros e [Hu He]%elem_of_spec_unlock Hl. rewrite lookup_delete_ne by done. eauto.
  - intros f m b [? Hm]%lookup_delete_Some Hb. apply elem_of_spec_unlock. cbn. eauto.
  - intros e He. assert (user e <> fork /\ e ∈ L ++ R) as [? ?].
    { apply elem_of_app in He as [[? ?]%elem_of_spec_unlock|[? ?]%elem_of_spec_unlock]; set_solver. }
    rewrite lookup_delete_ne by done. eauto.
  - intros f f' m m' [? ?]%lookup_delete_Some [? ?]%lookup_delete_Some. eauto.
Qed.

Lemma find_in_window_nil p off len : find_in_window p [] off len = None.
Proof. unfold find_in_window. destruct (adf_lock_window [] off len). by rewrite drop_nil, take_nil. Qed.

(** A closed descriptor records no lock. *)
Lemma lock_fd_closed a shift type off len fork k :
  adf_fd a = -1 -> adf_lock a = [] -> exists e, lock_fd a shift type off len fork k = (Some e, a, k).
Proof.
  intros Hfd Hl. unfold lock_fd. case_test; [eauto|]. case_test; [eauto|]. case_test; [eauto|].
  unfold record_lock, adf_findlock. rewrite Hl, Hfd, find_in_window_nil. cbn [mbind option_bind].
  case_test; [eauto|]. case_bool_decide; [eauto|]. unfold set_lock. cbn. eauto.
Qed.

Lemma ad_unlock_file ad L R fork :
  fork_file ad L R -> fork_file (ad_unlock ad fork) (spec_unlock fork L) (spec_unlock fork R).
Proof.
  intros [Hd Hg Hr Ho HL HR]. unfold ad_unlock. pose proof (good_fd _ _ Hd).
  rewrite (proj2 (Z.eqb_neq (adf_fd (ad_data_fork ad)) _)) by lia.
  destruct (adf_unlock_spec fork _ _ Hd Hg) as (d & kd & -> & D1 & [D2 _] & D3 & D4 & D5).
  assert (recs (adf_lock d) ≡ₚ spec_unlock fork L) as HL' by (rewrite D5; unfold spec_unlock; by rewrite HL).
  destruct Hr as [[E1 E2]|[Gr Kr]].
  - rewrite E1. cbn. rewrite E2 in HR. cbn in HR. apply Permutation_nil in HR as ->. split; cbn; try done; [by left|by rewrite E2].
  - pose proof (good_fd _ _ Gr). rewrite (proj2 (Z.eqb_neq (adf_fd (ad_rfp ad)) _)) by lia.
    destruct (adf_unlock_spec fork _ _ Gr Kr) as (r & kr & -> & R1 & [R2 _] & R3 & R4 & R5).
    split; cbn; try done; [by right|]. rewrite R5. unfold spec_unlock. by rewrite HR.
Qed.

(** The reply to a failed [fork_setmode]. *)
Definition refusal_reply (e : errno) : Z :=
  if bool_decide (e = EAGAIN \/ e = EACCES \/ e = EINVAL) then AFPERR_DENYCONF else AFPERR_PARAM.

Lemma refusal_reply_eq e : match e with EAGAIN | EACCES | EINVAL => AFPERR_DENYCONF | _ => AFPERR_PARAM end = refusal_reply e.
Proof. by destruct e. Qed.

(** The answer to an open, and the forks after it. *)
Lemma openfork_modes_spec ad T L R eid access fork :
  fork_file ad L R -> modes_held T L R -> T !! fork = None ->
  exists r ad', openfork_modes eid access fork ad = Ok (r, ad') /\
    (r = AFP_OK -> fork_file ad' ((band_entry fork <$> bands (eid, access)) ++ L) R /\
       modes_held (<[fork := (eid, access)]> T) ((band_entry fork <$> bands (eid, access)) ++ L) R) /\
    (r <> AFP_OK -> fork_file ad' L R) /\
    (forall ls, proper_locks ls -> steady ls 4 ad -> (r = AFP_OK /\ Forall (free ls L) (rivals (eid, access))) \/
       (r = AFPERR_DENYCONF /\ ~ Forall (free ls L) (rivals (eid, access))) \/
       exists e, denied (data_kern ad) e /\ r = refusal_reply e).
Proof.
  intros Hf Hm HT. unfold openfork_modes.
  destruct (fork_setmode_spec eid access fork ad L R Hf) as (x & ad' & -> & Hr & Hok & Hno & Hst).
  { pose proof (bands_range (eid, access)) as Hin. rewrite Forall_forall in *. intros b Hb. eapply modes_sharable; eauto. }
  cbn. destruct x as [e|].
  - rewrite refusal_reply_eq. exists (refusal_reply e), (ad_unlock ad' fork).
    assert (refusal_reply e <> AFP_OK) as Hne by (destruct e; done).
    split; [done|]. split; [done|]. split.
    + intros _. destruct Hno as (part & Hp & Hf'); [done|]. apply (ad_unlock_file _ _ _ fork) in Hf'.
      assert (forall X, (forall e', e' ∈ X -> is_Some (T !! user e')) -> spec_unlock fork X = X) as Hkeep.
      { intros X HX. apply list_filter_all. intros e' He' Hu'. specialize (HX e' He'). rewrite Hu', HT in HX. by destruct HX. }
      pose proof (mh_users _ _ _ Hm) as Hu.
      unfold spec_unlock in Hf'. rewrite filter_app in Hf'. fold (spec_unlock fork L) (spec_unlock fork R) in Hf'.
      rewrite !Hkeep, list_filter_none in Hf' by (intros; first [apply Hu; set_solver|idtac]; set_solver).
      done.
    + intros ls Hl Hs. right. destruct (Hst ls 0%nat Hl Hs) as [_ [[? _]|[[He Hfr]|(e' & He & Hd)]]]; [done| |].
      * injection He as ->. by left.
      * injection He as ->. right. eauto.
  - destruct Hok as [Hok Hriv]; [done|]. exists AFP_OK, ad'. split; [done|]. split; [|split; [done|]].
    + intros _. split; [done|]. by apply modes_open.
    + intros ls Hl Hs. left. destruct (Hst ls 0%nat Hl Hs) as [_ [[_ ?]|[[? _]|(? & ? & _)]]]; done.
Qed.

(** ** Byte range locks *)

Lemma rd32_be32_wrap v rest : rd32 (be32 v ++ rest) = wrap 32 v.
Proof. unfold rd32, be32, wrap. cbn [nth app]. rewrite !mask_ff, !Z.shiftr_div_pow2 by lia. zmod. Qed.

Definition fits_off (is64 : bool) (z : Z) : Prop := if is64 then - 2 ^ 63 <= z < 2 ^ 63 else - 2 ^ 31 <= z < 2 ^ 31.

Lemma mask_32 b : Z.land b 0xffffffff = b mod 2 ^ 32. Proof. apply (Z.land_ones b 32). lia. Qed.

Lemma get_set_off_t is64 off rest : fits_off is64 off -> get_off_t (set_off_t off is64 ++ rest) is64 = (off, rest).
Proof.
  intros Hf. unfold get_off_t, set_off_t, fits_off in *. destruct is64.
  - rewrite <- app_assoc, rd32_be32_wrap. 
    assert (forall v l, drop 4 (be32 v ++ l) = l) as H4 by done. assert (forall v w l, drop 8 (be32 v ++ be32 w ++ l) = l) as -> by done.
    rewrite H4, rd32_be32_wrap. f_equal. unfold s64, wrap. rewrite Z.shiftl_mul_pow2, !Z.shiftr_div_pow2, mask_32 by lia.
    rewrite !Z.mod_mod by lia.
    rewrite (Z.mod_small (off mod 2 ^ 64 / 2 ^ 32)) by zmod.
    rewrite (Z.mod_small (off mod 2 ^ 64 / 2 ^ 32 * 2 ^ 32)) by zmod. rewrite Z.lor_comm, (lor_add _ _ 32) by zmod. 
    destruct (Z.ltb_spec ((off mod 2 ^ 64 / 2 ^ 32 * 2 ^ 32 + off mod 2 ^ 32) mod 2 ^ 64) (2 ^ 63)); zmod.
  - rewrite rd32_be32_wrap. f_equal. unfold s32, wrap. destruct (Z.ltb_spec ((off mod 2 ^ 32) mod 2 ^ 32) (2 ^ 31)); zmod.
Qed.

(** A lock request on a fork: the answers that the specification allows. *)
Lemma ad_lock_range ad L R eid ty off len fork :
  fork_file ad L R -> ty <> F_INVALID ->
  exists r ad' L' R', ad_lock ad eid (locktype ty false false) off len fork = Ok (r, ad') /\ fork_file ad' L' R' /\
    match eid with
    | ADEID_DFORK => R' = R /\
        (r, L') ∈ allowed (next_take (data_kern ad)) (next_room (data_kern ad)) (taking ty)
          (spec_lock (adf_rdwr (ad_data_fork ad)) 0 ty false off len fork L) L
    | ADEID_RFORK => L' = L /\
        if decide (adf_fd (ad_rfp ad) = -1) then R' = R /\ r <> None
        else (r, R') ∈ allowed (next_take (rsrc_kern ad)) (next_room (rsrc_kern ad)) (taking ty)
               (spec_lock (adf_rdwr (ad_rfp ad)) (rfork_off ad) ty false off len fork R) R
    end.
Proof.
  intros [Hd Hg Hr Ho HL HR] Hty. unfold ad_lock. rewrite locktype_filelock. cbn [andb]. destruct eid.
  - destruct (lock_fd_shows _ _ 0 ty false false off len fork _ Hd Hg ltac:(lia) Hty HL) as (r & a' & k' & L' & -> & H2 & H3 & H4 & [H5 _] & H6).
    do 4 eexists. split; [reflexivity|]. split; [by split|]. done.
  - destruct Hr as [[E1 E2]|[Gr Kr]].
    + destruct (lock_fd_closed (ad_rfp ad) (rfork_off ad) (locktype ty false false) off len fork (rsrc_kern ad) E1 E2) as [e ->].
      do 4 eexists. split; [reflexivity|]. split; [|split; [done|rewrite decide_True by done; done]]. split; try done. by left.
    + pose proof (good_fd _ _ Gr).
      destruct (lock_fd_shows _ _ (rfork_off ad) ty false false off len fork _ Gr Kr Ho Hty HR) as (r & a' & k' & L' & -> & H2 & H3 & H4 & [H5 _] & H6).
      do 4 eexists. split; [reflexivity|]. split; [|split; [done|rewrite decide_False by lia; exact H2]]. split; try done. by right.
Qed.

(** What a request does to the locks of its descriptor. *)
Lemma spec_lock_elem rdwr shift ty off len fork L r L' :
  spec_lock rdwr shift ty false off len fork L = (r, L') ->
  let start := off + shift in
  let n := if decide (len = BYTELOCK_MAX) then len - start else len in
  forall e, (e ∈ L' -> e ∈ L \/ (user e = fork /\ last_byte e = start + n - 1)) /\ (e ∈ L -> e ∈ L' \/ own start n fork e).
Proof.
  unfold spec_lock. cbn zeta. set (n := if decide (len = BYTELOCK_MAX) then _ else _).
  case_decide as H1; [intros [= <- <-]; auto|]. case_decide as H2; [intros [= <- <-]; auto|].
  unfold spec_record. set (start := off + shift) in *. repeat case_decide; intros [= <- <-] e; auto; try tauto.
  - rewrite list_elem_of_filter. destruct (decide (own start n fork e)); tauto.
  - rewrite elem_of_cons. split; [|tauto]. intros [->|?]; [|tauto]. right. split; [done|].
    unfold last_byte, adf_lock_last. cbn. case_test; lia.
  - naive_solver.
Qed.

Lemma modes_lock T L R k rdwr ty off len fork r L' :
  modes_held T L R -> is_Some (T !! fork) -> len = BYTELOCK_MAX \/ off + len <= AD_FILELOCK_BASE ->
  (r, L') ∈ allowed (next_take k) (next_room k) (taking ty) (spec_lock rdwr 0 ty false off len fork L) L -> modes_held T L' R.
Proof.
  intros Hm HT Hlow [Hs|(_ & _ & -> & _)]%allowed_cases; [|done]. symmetry in Hs. destruct Hm as [H1 H2 H3 H4]. pose proof (spec_lock_elem _ _ _ _ _ _ _ _ _ Hs) as He. cbn zeta in He. rewrite Z.add_0_r in He.
  set (n := if decide (len = BYTELOCK_MAX) then _ else _) in *.
  assert (off + n <= AD_FILELOCK_BASE) as Hn by (subst n; unfold BYTELOCK_MAX in *; case_decide; lia).
  split; [| |intros e [Hin|Hin]%elem_of_app|done].
  - intros e Hin Hl. destruct (proj1 (He e) Hin) as [?|[_ ?]]; [eauto|lia].
  - intros f m b Hm Hb. destruct (proj2 (He (band_entry f b))) as [?|[_ [_ Hown]]]; [eauto|done|].
    pose proof (bands_range m) as Hin. rewrite Forall_forall in Hin. specialize (Hin b Hb). unfold in_band in Hin. cbn in Hown. lia.
  - destruct (proj1 (He e) Hin) as [?|[-> _]]; [|done]. apply H3. set_solver.
  - apply H3. set_solver.
Qed.

Lemma modes_lock_rsrc T L R k rdwr shift ty off len fork r R' :
  modes_held T L R -> is_Some (T !! fork) ->
  (r, R') ∈ allowed (next_take k) (next_room k) (taking ty) (spec_lock rdwr shift ty false off len fork R) R -> modes_held T L R'.
Proof.
  intros Hm HT [Hs|(_ & _ & -> & _)]%allowed_cases; [|done]. symmetry in Hs. destruct Hm as [H1 H2 H3 H4]. pose proof (spec_lock_elem _ _ _ _ _ _ _ _ _ Hs) as He. cbn zeta in He.
  split; try done. intros e [Hin|Hin]%elem_of_app; [apply H3; set_solver|].
  destruct (proj1 (He e) Hin) as [?|[-> _]]; [|done]. apply H3. set_solver.
Qed.

(** What [fork_open_rsrc] does to the locks: the descriptor it opens has none. *)
Definition keeps_locks (open_rsrc : adouble -> Z * adouble) : Prop :=
  forall ad L R, fork_file ad L R -> fork_file (open_rsrc ad).2 L R.

(** The start of the range that a request names. *)
Definition range_start (flags off size : Z) : Z := if ENDBIT flags then off + size else off.

(** A range on the data fork that ends below the band. *)
Definition low_request (f : ofork) (flags off len size : Z) : Prop :=
  has_bit (of_flags f) AFPFORK_DATA = true -> len = -1 \/ range_start flags off size + len <= AD_FILELOCK_BASE.

Definition request (off len : Z) (is64 : bool) : list Z := set_off_t off is64 ++ set_off_t len is64.

Definition fork_eid (f : ofork) : eid_t := if has_bit (of_flags f) AFPFORK_DATA then ADEID_DFORK else ADEID_RFORK.

Lemma get_request off len is64 :
  fits_off is64 off -> fits_off is64 len ->
  get_off_t (request off len is64) is64 = (off, set_off_t len is64) /\ get_off_t (set_off_t len is64) is64 = (len, []).
Proof.
  intros Ho Hl. unfold request. rewrite get_set_off_t by done. split; [done|].
  rewrite <- (app_nil_r (set_off_t len is64)) at 1. by apply get_set_off_t.
Qed.

Lemma lockop_type (unlock : bool) : (if unlock then ADLOCK_CLR else ADLOCK_WR) = locktype (if unlock then F_UNLCK else F_WRLCK) false false.
Proof. by destruct unlock. Qed.

Lemma byte_lock_modes T ad L R f flags off len is64 size open_rsrc r reply ad' :
  fork_file ad L R -> modes_held T L R -> is_Some (T !! of_refnum f) -> keeps_locks open_rsrc ->
  fits_off is64 off -> fits_off is64 len -> low_request f flags off len size ->
  byte_lock (Some f) flags (request off len is64) is64 size open_rsrc ad = Ok (r, reply, ad') ->
  exists L' R', fork_file ad' L' R' /\ modes_held T L' R'.
Proof.
  intros Hf Hm HT Hk Ho Hl Hlow. unfold byte_lock. destruct (get_request off len is64 Ho Hl) as [-> ->].
  do 4 (case_test; [intros [= <- <- <-]; eauto|]).
  assert (exists ret ad1, (if negb (UNLOCKBIT flags) && fork_cached f then open_rsrc ad else (AFP_OK, ad)) = (ret, ad1) /\ fork_file ad1 L R)
    as (ret & ad1 & -> & Hf1).
  { specialize (Hk ad L R Hf). destruct (open_rsrc ad). case_test; do 2 eexists; (split; [reflexivity|]); done. }
  do 2 (case_test; [intros [= <- <- <-]; eauto|]). case_test; [done|]. fold (range_start flags off size).
  case_test; [intros [= <- <- <-]; eauto|]. rewrite lockop_type. fold (fork_eid f).
  set (n := if len =? -1 then BYTELOCK_MAX else len). set (ty := if UNLOCKBIT flags then F_UNLCK else F_WRLCK).
  destruct (ad_lock_range ad1 L R (fork_eid f) ty (range_start flags off size) n (of_refnum f) Hf1) as (e & ad2 & L' & R' & -> & Hf2 & Hs).
  { subst ty. by destruct (UNLOCKBIT flags). }
  cbn. intros Hr. assert (ad' = ad2) as -> by (destruct e; by injection Hr).
  exists L', R'. split; [done|]. unfold fork_eid in Hs. destruct (has_bit (of_flags f) AFPFORK_DATA) eqn:Ed.
  - destruct Hs as [-> Hs]. eapply modes_lock; [done..| |exact Hs]. subst n. destruct (Hlow Ed) as [->|?]; [by left|].
    case_test; [by left|by right].
  - destruct Hs as [-> Hs]. case_decide; [by destruct Hs as [-> _]|]. eapply modes_lock_rsrc; [done..|exact Hs].
Qed.

(** ** Sessions *)

(** What the kernel and the allocator will answer from here on: to the takes, to the
    probes and to the reallocations. *)
Definition renew (ans : list (option errno)) (ps : list sight) (bs : list bool) (k : kern) : kern :=
  Kern (held k) ans (releases k) ps bs.
Definition with_worlds (f g : kern -> kern) (ad : adouble) : adouble :=
  Adouble (ad_data_fork ad) (ad_rfp ad) (f (data_kern ad)) (g (rsrc_kern ad)) (rfork_off ad).

(** A file after some commands, with the forks open on it and their modes; between the
    commands anything may happen to what the kernel and the allocator answer. *)
Inductive session : adouble -> gmap Z mode -> Prop :=
  | session_new ad : fork_file ad [] [] -> session ad ∅
  | session_world ad T ans ps bs ans' ps' bs' :
      session ad T -> session (with_worlds (renew ans ps bs) (renew ans' ps' bs') ad) T
  | session_open ad T eid access fork r ad' :
      session ad T -> T !! fork = None -> openfork_modes eid access fork ad = Ok (r, ad') ->
      session ad' (if r =? AFP_OK then <[fork := (eid, access)]> T else T)
  | session_close ad T fork : session ad T -> session (ad_unlock ad fork) (delete fork T)
  | session_lock ad T f flags off len is64 size open_rsrc r reply ad' :
      session ad T -> is_Some (T !! of_refnum f) -> keeps_locks open_rsrc ->
      fits_off is64 off -> fits_off is64 len -> low_request f flags off len size ->
      byte_lock (Some f) flags (request off len is64) is64 size open_rsrc ad = Ok (r, reply, ad') -> session ad' T.

Lemma session_inv ad T : session ad T -> exists L R, fork_file ad L R /\ modes_held T L R.
Proof.
  induction 1 as [ad Hf|ad T ans ps bs ans' ps' bs' _ (L & R & Hf & Hm)|ad T eid access fork r ad' _ (L & R & Hf & Hm) HT Ho
                 |ad T fork _ (L & R & Hf & Hm)|ad T f flags off len is64 size o r reply ad' _ (L & R & Hf & Hm) HT Hk Ho Hl Hlow Hb].
  - exists [], []. split; [done|]. split; try done; intros; set_solver.
  - exists L, R. split; [|done]. destruct Hf as [Hd Hg Hr Ho HL HR]. split; try done; [by eapply good_held|].
    destruct Hr as [?|[Gr Kr]]; [by left|]. right. split; [by eapply good_held|done].
  - destruct (openfork_modes_spec ad T L R eid access fork Hf Hm HT) as (r' & ad2 & E & Hok & Hno & _).
    rewrite Ho in E. injection E as <- <-. case_test; [destruct Hok as [? ?]; eauto|]. eauto.
  - do 2 eexists. split; [by apply ad_unlock_file|by apply modes_close].
  - eapply byte_lock_modes; [exact Hf|exact Hm|exact HT|exact Hk|exact Ho|exact Hl|exact Hlow|exact Hb].
Qed.

(** ** Claims *)

(** The forks [T] of another process, as its locks show them. *)
Definition peers (ls : list flock) (T : gmap Z mode) : Prop :=
  proper_locks ls /\ forall b, in_band b -> foreign ls b <-> exists fork m, T !! fork = Some m /\ b ∈ bands m.

(** C3: Whatever opens, closes and byte range locks below the band a session makes, and
    whatever the kernel and the allocator answer to its locks, its probes and its
    reallocations, as long as the kernel lets go of what it is asked to release: no open
    fork of the session holds an access that another one of it denies, and the bytes of the
    band that the kernel shows to other processes are exactly those of the modes of the
    forks whose open was granted, so that a refused open leaves none.  Where a byte range
    lock opens the resource fork, that changes no lock. *)
Theorem share_modes_exclusive ad T :
  session ad T ->
  (forall fork fork' m m', T !! fork = Some m -> T !! fork' = Some m' -> fork <> fork' -> clash m m' = false) /\
  (forall b, in_band b -> held (data_kern ad) b =
     if decide (Exists (fun fm => b ∈ bands fm.2) (map_to_list T)) then F_RDLCK else F_UNLCK).
Proof.
  intros (L & R & Hf & Hm)%session_inv. split; [apply Hm|]. intros b Hb.
  assert (Exists (fun fm => b ∈ bands fm.2) (map_to_list T) <-> exists fork m, T !! fork = Some m /\ b ∈ bands m) as HE.
  { rewrite Exists_exists. setoid_rewrite <- elem_of_map_to_list. split; [intros ([f m] & ? & ?)|intros (f & m & ? & ?); exists (f, m)]; eauto. }
  rewrite <- (modes_covered _ _ _ _ Hm Hb) in HE.
  destruct Hf as [Hd _ _ _ HL _]. pose proof (good_synced _ _ Hd) as Hs. rewrite <- synced_recs, HL in Hs.
  assert (0 <= b <= LOCK_TOP) as Hr by (unfold in_band, AD_FILELOCK_BASE in Hb; lia). destruct (Hs b Hr) as [S1 S2].
  case_decide as Hx; rewrite HE in Hx; [|by apply S2]. destruct Hx as (e & He & Hc). rewrite (S1 e He Hc).
  destruct (mh_band _ _ _ Hm e He) as (b' & m & -> & _); [unfold covers, in_band in *; lia|done].
Qed.

(** A fork opened for reading and writing that lets nobody else write. *)
Definition sample_mode : mode := (ADEID_DFORK, 0x23).
Definition sample_file : adouble :=
  match openfork_modes ADEID_DFORK 0x23 1 (fresh true 82) with Ok (_, ad) => ad | Abort _ => fresh true 82 end.

Lemma fresh_file : fork_file (fresh true 82) [] [].
Proof. split; try done; [by apply fresh_good_fd|]. right. split; [by apply fresh_good_fd|done]. Qed.

Lemma sample_session : session sample_file {[1 := sample_mode]}.
Proof.
  apply (session_open (fresh true 82) ∅ ADEID_DFORK 0x23 1 AFP_OK sample_file); [apply session_new, fresh_file|done|].
  assert (match openfork_modes ADEID_DFORK 0x23 1 (fresh true 82) with Ok (r, _) => r | Abort _ => -1 end = AFP_OK) as H
    by (vm_compute; reflexivity).
  unfold sample_file. destruct (openfork_modes _ _ _ _) as [[r ad]|]; [by rewrite H|done].
Qed.

Lemma share_modes_exclusive_witness :
  session sample_file {[1 := sample_mode]} /\ held (data_kern sample_file) AD_FILELOCK_DENY_WR = F_RDLCK /\
  held (data_kern sample_file) AD_FILELOCK_DENY_RD = F_UNLCK.
Proof.
  destruct (share_modes_exclusive sample_file {[1 := sample_mode]} sample_session) as [_ H].
  split; [exact sample_session|]. split; rewrite H by done; reflexivity.
Defined.

(** The kernel's locks follow from those recorded. *)
Lemma fork_file_held ad ad' L R b :
  fork_file ad L R -> fork_file ad' L R -> 0 <= b <= LOCK_TOP -> held (data_kern ad') b = held (data_kern ad) b.
Proof.
  intros [Hd _ _ _ HL _] [Hd' _ _ _ HL' _] Hb. apply good_synced in Hd, Hd'. rewrite <- synced_recs in Hd, Hd'.
  rewrite HL in Hd. rewrite HL' in Hd'. destruct (Hd b Hb) as [S1 S2], (Hd' b Hb) as [S1' S2'].
  destruct (decide (Exists (fun e => l_start e <= b <= last_byte e) L)) as [(e & He & Hc)%Exists_exists|Hn].
  - by rewrite (S1 e He Hc), (S1' e He Hc).
  - assert (~ covered L b) by (intros (e & He & Hc); apply Hn, Exists_exists; eauto). by rewrite S2, S2'.
Qed.

(** C4: An open with a fresh fork number, in a session whose byte range locks stay below
    the band, always returns.  While the other processes hold exactly the modes [T'] during
    its probes, it is granted only when its modes clash with no fork of this process and
    with none of theirs; it is refused with AFPERR_DENYCONF when they do; and the only other
    refusal is that the kernel or the allocator denied one of its locks, which is
    AFPERR_DENYCONF for EAGAIN, EACCES and EINVAL and AFPERR_PARAM for another errno, such
    as ENOLCK or ENOMEM.  A refused open leaves every lock, recorded or in the kernel, as
    it was. *)
Theorem openfork_decides ad T eid access fork ls T' :
  session ad T -> T !! fork = None -> steady ls 4 ad -> peers ls T' ->
  exists r ad', openfork_modes eid access fork ad = Ok (r, ad') /\
    ((r = AFP_OK /\ forall f m, T !! f = Some m \/ T' !! f = Some m -> clash (eid, access) m = false) \/
     (((r = AFPERR_DENYCONF /\ exists f m, (T !! f = Some m \/ T' !! f = Some m) /\ clash (eid, access) m = true) \/
       (exists e, denied (data_kern ad) e /\
          r = if bool_decide (e = EAGAIN \/ e = EACCES \/ e = EINVAL) then AFPERR_DENYCONF else AFPERR_PARAM)) /\
      (forall b, 0 <= b <= LOCK_TOP -> held (data_kern ad') b = held (data_kern ad) b) /\
      recs (adf_lock (ad_data_fork ad')) ≡ₚ recs (adf_lock (ad_data_fork ad)) /\
      recs (adf_lock (ad_rfp ad')) ≡ₚ recs (adf_lock (ad_rfp ad)))).
Proof.
  intros (L & R & Hf & Hm)%session_inv HT Hst [Hl Hp].
  destruct (openfork_modes_spec ad T L R eid access fork Hf Hm HT) as (r & ad' & E & _ & Hno & Hx). exists r, ad'. split; [done|].
  assert (forall b, in_band b -> free ls L b <-> ~ exists f m, (T !! f = Some m \/ T' !! f = Some m) /\ b ∈ bands m) as Hfree.
  { intros b Hb. unfold free. rewrite (modes_covered _ _ _ _ Hm Hb), (Hp b Hb). naive_solver. }
  pose proof (rivals_range (eid, access)) as Hr. rewrite Forall_forall in Hr.
  assert (r <> AFP_OK -> (forall b, 0 <= b <= LOCK_TOP -> held (data_kern ad') b = held (data_kern ad) b) /\
      recs (adf_lock (ad_data_fork ad')) ≡ₚ recs (adf_lock (ad_data_fork ad)) /\
      recs (adf_lock (ad_rfp ad')) ≡ₚ recs (adf_lock (ad_rfp ad))) as Hkept.
  { intros Hr0. specialize (Hno Hr0). split; [intros; by eapply fork_file_held|].
    destruct Hf as [_ _ _ _ HL HR], Hno as [_ _ _ _ HL' HR']. by rewrite HL, HR. }
  destruct (Hx ls Hl Hst) as [[-> Hfr]|[[-> Hfr]|(e & He & ->)]];
    [left; split; [done|]|right; split; [left; split; [done|]|by apply Hkept]|right; split; [right; eauto|apply Hkept; by destruct e]].
  - intros f m Hfm. apply not_true_is_false. rewrite clash_shared. intros (b & Hb & Hb'). rewrite Forall_forall in Hfr.
    specialize (Hfr b Hb). rewrite Hfree in Hfr by auto. apply Hfr. eauto.
  - destruct (decide (Exists (fun fm => clash (eid, access) fm.2 = true) (map_to_list T ++ map_to_list T'))) as [Hc|Hc].
    + apply Exists_exists in Hc as ([f m] & Hin & Hc). exists f, m. split; [|done].
      apply elem_of_app in Hin as [Hin|Hin]; apply elem_of_map_to_list in Hin; auto.
    + destruct Hfr. apply Forall_forall. intros b Hb. apply Hfree; [auto|]. intros (f & m & Hfm & Hbm). apply Hc, Exists_exists.
      exists (f, m). split; [|apply clash_shared; eauto]. rewrite elem_of_app, !elem_of_map_to_list. done.
Qed.

Definition sample_seen (ls : list flock) : adouble :=
  with_worlds (renew [] (replicate 4 (Others ls)) []) (renew [] [] []) sample_file.

Lemma sample_peers : peers [Flock F_RDLCK AD_FILELOCK_DENY_RD 1] {[9 := (ADEID_DFORK, OPENACC_DRD)]}.
Proof.
  split; [by repeat constructor|]. intros b Hb. unfold foreign. setoid_rewrite list_elem_of_singleton.
  setoid_rewrite lookup_singleton_Some. split.
  - intros (f & -> & [H1 H2]). cbn in H1, H2. exists 9, (ADEID_DFORK, OPENACC_DRD). split; [done|].
    replace b with AD_FILELOCK_DENY_RD by lia. by left.
  - intros (fork & m & [<- <-] & Hin). change (bands _) with [AD_FILELOCK_DENY_RD] in Hin. apply list_elem_of_singleton in Hin as ->.
    eexists. split; [reflexivity|]. unfold locks_byte. cbn. lia.
Qed.

(** A reader is let in, and refused while another process denies reading. *)
Lemma openfork_decides_witness :
  exists r ad', openfork_modes ADEID_DFORK OPENACC_RD 2 (sample_seen [Flock F_RDLCK AD_FILELOCK_DENY_RD 1]) = Ok (r, ad') /\
    r = AFPERR_DENYCONF.
Proof.
  destruct (openfork_decides (sample_seen [Flock F_RDLCK AD_FILELOCK_DENY_RD 1]) {[1 := sample_mode]} ADEID_DFORK OPENACC_RD 2
    [Flock F_RDLCK AD_FILELOCK_DENY_RD 1] {[9 := (ADEID_DFORK, OPENACC_DRD)]}) as (r & ad' & H & Hr).
  - apply session_world, sample_session.
  - done.
  - exists 4%nat. split; [lia|done].
  - apply sample_peers.
  - exists r, ad'. split; [exact H|]. destruct Hr as [[_ Hc]|[[[-> _]|(e & [He|[_ He]] & _)] _]].
    + discriminate (Hc 9 (ADEID_DFORK, OPENACC_DRD) (or_intror eq_refl)).
    + done.
    + change (Some e ∈ @nil (option errno)) in He. inversion He.
    + change (false ∈ @nil bool) in He. inversion He.
Defined.





(** FPByteRangeLockExt takes a lock on a byte of the band.  A fork that is open for
    reading and denies nothing locks the byte of the deny mode for writing, and the next
    open for writing is refused although the modes of the two do not clash. *)
Theorem byte_lock_reaches_band :
  clash (ADEID_DFORK, OPENACC_WR) (ADEID_DFORK, OPENACC_RD) = false /\
  match openfork_modes ADEID_DFORK OPENACC_RD 1 (fresh true 82) with
  | Ok (opened, ad) =>
      match byte_lock (Some (Ofork AFPFORK_DATA 0 1)) 0 (request AD_FILELOCK_DENY_WR 1 true) true 0 (fun ad => (AFP_OK, ad)) ad with
      | Ok (locked, _, ad) =>
          match openfork_modes ADEID_DFORK OPENACC_WR 2 ad with Ok (again, _) => [opened; locked; again] | Abort _ => [] end
      | Abort _ => []
      end
  | Abort _ => []
  end = [AFP_OK; AFP_OK; AFPERR_DENYCONF].
Proof. split; vm_compute; reflexivity. Qed.

(** The sum of an offset from the end and the size of the fork is not checked. *)
Lemma byte_lock_end_overflow :
  byte_lock (Some (Ofork AFPFORK_DATA 0 1)) 0x80 (request LOCK_TOP 1 true) true 1 (fun ad => (AFP_OK, ad)) (fresh true 82) = Abort Undefined.
Proof. vm_compute. reflexivity. Qed.
