(* ===== verification/ForkClaims.v ===== *)
(** * The claims on a file that a deletion or a replacement respects: theorems

    [of_delete_blocked] reads the array of this process and [of_get_locks] asks the kernel
    about the others.  The theorems show that together they see exactly the deny modes and
    the byte range locks that stand, and that the one probe of the whole file changes no
    answer. *)

From S2P Require Import Prelude AdLock AdLockFacts AdLockTheorems ForkModes ForkModesTheorems.

(** ** The locks of this process *)

Definition denies (m : mode) : bool := has_bit m.2 OPENACC_DRD || has_bit m.2 OPENACC_DWR.

Definition band_bit (b : Z) : Z := Z.shiftl 1 (b - AD_FILELOCK_BASE).

(** The bytes of the deny modes. *)
Definition deny_byte (b : Z) : bool := has_bit (band_bit b) DELETE_BLOCKING_BAND_BITS.

Lemma has_bit_lor_l x y f : has_bit (Z.lor x y) f = has_bit x f || has_bit y f.
Proof. unfold has_bit. rewrite !(Z.land_comm _ f). apply has_bit_lor. Qed.

Lemma denies_byte m : denies m = existsb deny_byte (bands m).
Proof.
  destruct m as [eid a]. unfold denies, bands. cbn [fst snd]. rewrite !has_bit_lor.
  destruct (has_bit a OPENACC_RD), (has_bit a OPENACC_DRD), (has_bit a OPENACC_WR), (has_bit a OPENACC_DWR), eid; vm_compute; reflexivity.
Qed.

Definition on_band (e : entry) : bool :=
  (AD_FILELOCK_BASE <=? l_start e) && (l_start e - AD_FILELOCK_BASE <? AD_FILELOCK_BAND_BITS).

Lemma claims_loop_spec l : forall bits bytelock,
  has_bit (claims_loop l bits bytelock).1 DELETE_BLOCKING_BAND_BITS =
    has_bit bits DELETE_BLOCKING_BAND_BITS || existsb (fun e => on_band e && deny_byte (l_start e)) l /\
  (claims_loop l bits bytelock).2 = bytelock || existsb (fun e => negb (on_band e)) l.
Proof.
  induction l as [|e l IH]; intros bits bytelock; cbn [claims_loop existsb]; [by rewrite !orb_false_r|].
  fold (on_band e). destruct (on_band e); cbn [negb andb orb]; [|destruct (IH bits true) as [-> ->]; split; [done|]].
  - destruct (IH (Z.lor bits (band_bit (l_start e))) bytelock) as [H1 H2]. fold (band_bit (l_start e)). rewrite H1, H2, has_bit_lor_l.
    unfold deny_byte. by rewrite orb_assoc.
  - by rewrite orb_true_r.
Qed.

Lemma of_delete_blocked_spec ad :
  (of_delete_blocked ad).1.1 =
    existsb (fun e => on_band e && deny_byte (l_start e)) (adf_lock (ad_data_fork ad)) ||
    existsb (fun e => negb (on_band e)) (adf_lock (ad_data_fork ad)) || bool_decide (adf_lock (ad_rfp ad) <> []).
Proof.
  unfold of_delete_blocked. destruct (claims_loop_spec (adf_lock (ad_data_fork ad)) 0 false) as [H1 H2].
  destruct (claims_loop _ 0 false) as [bits bl]. cbn in H1, H2. cbn [fst]. fold (has_bit bits DELETE_BLOCKING_BAND_BITS).
  rewrite H1, H2, <- orb_assoc. destruct (bool_decide _); by rewrite ?orb_true_r, ?orb_false_r.
Qed.

Lemma elem_of_recs e l : e ∈ l -> set_reach 0 e ∈ recs l.
Proof. intros He. apply list_elem_of_fmap. eauto. Qed.

(** The entries on the band are those of the modes. *)
Lemma session_entries ad T L R :
  fork_file ad L R -> modes_held T L R ->
  (existsb (fun e => on_band e && deny_byte (l_start e)) (adf_lock (ad_data_fork ad)) = true <->
     exists fork m, T !! fork = Some m /\ denies m = true) /\
  (existsb (fun e => negb (on_band e)) (adf_lock (ad_data_fork ad)) = true <->
     exists e, e ∈ adf_lock (ad_data_fork ad) /\ last_byte e < AD_FILELOCK_BASE).
Proof.
  intros Hf Hm. destruct Hf as [Hd _ _ _ HL _]. destruct Hm as [H1 H2 _ _].
  assert (forall e, e ∈ adf_lock (ad_data_fork ad) -> AD_FILELOCK_BASE <= last_byte e ->
            exists b m, l_start e = b /\ T !! user e = Some m /\ b ∈ bands m) as Hb.
  { intros e He Hl. destruct (H1 (set_reach 0 e)) as (b & m & E & HT & Hb); [rewrite <- HL; by apply elem_of_recs|done|].
    exists b, m. split; [exact (f_equal l_start E)|done]. }
  assert (forall e, e ∈ adf_lock (ad_data_fork ad) -> on_band e = true <-> AD_FILELOCK_BASE <= last_byte e) as Hon.
  { intros e He. pose proof (arr_valid _ (good_arr _ _ Hd)) as Hv. rewrite Forall_forall in Hv. specialize (Hv e He).
    pose proof (valid_last e Hv) as Hl. unfold on_band, AD_FILELOCK_BAND_BITS. rewrite andb_true_iff, Z.leb_le, Z.ltb_lt. split.
    - destruct Hv. lia.
    - intros Hx. destruct (Hb e He Hx) as (b & m & -> & _ & Hin). pose proof (bands_range m) as Hr. rewrite Forall_forall in Hr.
      specialize (Hr b Hin). unfold in_band, AD_FILELOCK_BASE, LOCK_TOP in *. lia. }
  rewrite !existsb_exists. setoid_rewrite <- list_elem_of_In. split; split.
  - intros (e & He & [Ho Hdb]%andb_true_iff). apply Hon in Ho; [|done]. destruct (Hb e He Ho) as (b & m & Eb & HT & Hin).
    exists (user e), m. split; [done|]. rewrite denies_byte, existsb_exists. exists b. rewrite <- Eb at 2. by rewrite <- list_elem_of_In.
  - intros (fork & m & HT & Hdn). rewrite denies_byte, existsb_exists in Hdn. destruct Hdn as (b & Hin & Hdb). rewrite <- list_elem_of_In in Hin.
    specialize (H2 fork m b HT Hin). rewrite <- HL in H2. apply list_elem_of_fmap in H2 as (e & E & He).
    assert (l_start e = b) as Eb by by apply (f_equal l_start) in E. exists e. split; [done|]. rewrite Eb, Hdb, andb_true_r. apply Hon; [done|].
    apply (f_equal last_byte) in E. change (last_byte (set_reach 0 e)) with (last_byte e) in E. rewrite <- E.
    pose proof (bands_range m) as Hr. rewrite Forall_forall in Hr. specialize (Hr b Hin). unfold in_band, last_byte, adf_lock_last in *. cbn. lia.
  - intros (e & He & Ho). exists e. split; [done|]. apply negb_true_iff in Ho. specialize (Hon e He). rewrite Ho in Hon.
    destruct (Z.lt_ge_cases (last_byte e) AD_FILELOCK_BASE); [done|]. by apply Hon in H.
  - intros (e & He & Hl). exists e. split; [done|]. apply negb_true_iff, not_true_is_false. rewrite Hon by done. lia.
Qed.

(** ** The locks of the other processes *)

Definition watched (ls : list flock) (n : nat) (ad : adouble) : Prop := steady ls n ad /\ 0 <= adf_fd (ad_data_fork ad).

Lemma watched_le ls n n' ad : (n <= n')%nat -> watched ls n' ad -> watched ls n ad.
Proof. intros Hn [(m & ? & ?) ?]. split; [|done]. exists m. split; [lia|done]. Qed.

Lemma probe_watched ls n ad fl :
  watched ls (S n) ad -> exists k',
    get_lock (adf_fd (ad_data_fork ad)) fl (data_kern ad) = (if existsb (excludes fl) ls then PHeld else PFree, k') /\
    watched ls n (set_data_kern ad k').
Proof.
  intros [(m & Hm & Hp) Hfd]. unfold get_lock, AD_SYMLINK. case_test; [lia|]. case_test; [lia|]. unfold getlk. rewrite Hp.
  destruct m as [|m]; [lia|]. eexists. split; [reflexivity|]. split; [|done]. exists m. split; [lia|done].
Qed.

Lemma range_watched ls n ad off len :
  watched ls (S n) ad -> exists ad',
    ad_testlock_range ad ADEID_DFORK off len = (if zone ls off off len then 1 else 0, ad') /\ watched ls n ad'.
Proof.
  intros Hw. unfold ad_testlock_range, zone. pose proof (proj2 Hw) as Hfd. case_test; [lia|].
  destruct (range_probe off off len) as [[s m]|]; [|eexists; split; [reflexivity|eapply watched_le; [|done]; lia]].
  destruct (probe_watched ls n ad (Flock F_WRLCK s m) Hw) as (k' & -> & Hw'). eexists. split; [by case_match|done].
Qed.

Lemma whole_watched ls n ad :
  proper_locks ls -> watched ls (S n) ad -> exists ad',
    ad_testlock_whole ad ADEID_DFORK = (if bool_decide (ls = []) then 0 else 1, ad') /\ watched ls n ad'.
Proof.
  intros Hl Hw. unfold ad_testlock_whole. pose proof (proj2 Hw) as Hfd. case_test; [lia|].
  destruct (probe_watched ls n ad (Flock F_WRLCK 0 0) Hw) as (k' & -> & Hw'). eexists. split; [|done].
  destruct ls as [|f ls]; [done|]. inversion_clear Hl as [|? ? [H0 _] _]. cbn.
  unfold excludes, in_request. cbn [fl_start fl_len fl_type]. rewrite (proj2 (Z.leb_le 0 _)) by done. rewrite bool_decide_eq_true_2 by done. done.
Qed.

(** The bits of the band that are asked for and held. *)
Definition held_bits (ls : list flock) (request : Z) (bits : list Z) (h : Z) : Z :=
  fold_left (fun h bit => if has_bit request (Z.shiftl 1 bit) && zone ls (AD_FILELOCK_BASE + bit) (AD_FILELOCK_BASE + bit) 1
                          then Z.lor h (Z.shiftl 1 bit) else h) bits h.

Lemma band_loop_watched ls request bits : forall n h ad,
  watched ls (length bits + n) ad -> exists ad',
    band_loop bits request h ad = (Some (held_bits ls request bits h), ad') /\ watched ls n ad'.
Proof.
  induction bits as [|bit bits IH]; intros n h ad Hw; [by exists ad|]. cbn [band_loop held_bits fold_left length] in *.
  destruct (has_bit request (Z.shiftl 1 bit)); cbn [negb andb]; [|apply IH; eapply watched_le; [|done]; lia].
  destruct (range_watched ls (length bits + n) ad (AD_FILELOCK_BASE + bit) 1 Hw) as (ad' & -> & Hw').
  destruct (zone ls _ _ _); cbn; by apply IH.
Qed.

Lemma zone_nil start off len : zone [] start off len = false.
Proof. unfold zone. by destruct (range_probe start off len) as [[]|]. Qed.

Lemma held_bits_nil request bits h : held_bits [] request bits h = h.
Proof. unfold held_bits. revert h. induction bits as [|b bits IH]; intros h; [done|]. cbn. by rewrite zone_nil, andb_false_r. Qed.

Lemma probe_data_watched ls n ad df_get off len request :
  proper_locks ls -> watched ls (12 + n) ad -> exists ad',
    probe_data df_get off len request ad = (Some (df_get && zone ls off off len, held_bits ls request band_positions 0), ad') /\
    watched ls n ad'.
Proof.
  intros Hl Hw. unfold probe_data. set (use_whole := _ || _).
  assert (exists w ad1, (if use_whole then ad_testlock_whole ad ADEID_DFORK else (1, ad)) = (w, ad1) /\ watched ls (11 + n) ad1 /\
            (w = 1 \/ (w = 0 /\ ls = []))) as (w & ad1 & -> & Hw1 & Hc).
  { destruct use_whole; [|do 2 eexists; split; [reflexivity|]; split; [eapply watched_le; [|done]; lia|by left]].
    destruct (whole_watched ls (11 + n) ad Hl Hw) as (ad1 & -> & Hw1). do 2 eexists. split; [reflexivity|]. split; [done|].
    case_bool_decide; auto. }
  destruct Hc as [->|[-> ->]]; cbn [Z.ltb Z.compare negb].
  - assert (exists r ad2, (if df_get then ad_testlock_range ad1 ADEID_DFORK off len else (0, ad1)) = (r, ad2) /\ watched ls (10 + n) ad2 /\
              r = if df_get && zone ls off off len then 1 else 0) as (r & ad2 & -> & Hw2 & ->).
    { destruct df_get; [|do 2 eexists; split; [reflexivity|]; split; [eapply watched_le; [|done]; lia|done]].
      destruct (range_watched ls (10 + n) ad1 off len Hw1) as (ad2 & -> & Hw2). do 2 eexists. split; [reflexivity|]. done. }
    destruct (band_loop_watched ls request band_positions n 0 ad2 Hw2) as (ad' & -> & Hw'). exists ad'.
    destruct (df_get && zone ls off off len); done.
  - eexists. split; [|eapply watched_le; [|exact Hw1]; lia]. by rewrite zone_nil, andb_false_r, held_bits_nil.
Qed.

Lemma zone_band ls bit : proper_locks ls -> 0 <= bit < AD_FILELOCK_BAND_BITS ->
  zone ls (AD_FILELOCK_BASE + bit) (AD_FILELOCK_BASE + bit) 1 = true <-> foreign ls (AD_FILELOCK_BASE + bit).
Proof.
  intros Hl Hb. unfold zone, range_probe. unfold AD_FILELOCK_BAND_BITS in Hb. rewrite wrap_small by (unfold AD_FILELOCK_BASE; lia).
  rewrite (proj2 (Z.ltb_ge _ _)) by lia. by apply foreign_excludes.
Qed.

Lemma held_bits_has ls request bits f : forall h,
  has_bit (held_bits ls request bits h) f = has_bit h f ||
    existsb (fun bit => has_bit request (Z.shiftl 1 bit) && zone ls (AD_FILELOCK_BASE + bit) (AD_FILELOCK_BASE + bit) 1 && has_bit (Z.shiftl 1 bit) f) bits.
Proof.
  induction bits as [|bit bits IH]; intros h; cbn [held_bits fold_left existsb]; [by rewrite orb_false_r|].
  destruct (has_bit request _ && zone ls _ _ _); cbn [andb orb]; [|apply IH].
  etransitivity; [apply IH|]. by rewrite has_bit_lor_l, orb_assoc.
Qed.

Lemma has_bit_shift a b : 0 <= a -> 0 <= b -> has_bit (Z.shiftl 1 a) (Z.shiftl 1 b) = true <-> a = b.
Proof.
  intros Ha Hb. unfold has_bit. rewrite !Z.shiftl_1_l, negb_true_iff, Z.eqb_neq. split.
  - intros H. destruct (decide (a = b)); [done|]. destruct H. apply Z.bits_inj'. intros i Hi.
    rewrite Z.land_spec, !Z.pow2_bits_eqb, Z.bits_0 by lia. destruct (Z.eqb_spec a i), (Z.eqb_spec b i); (done || lia).
  - intros -> H. apply (f_equal (fun z => Z.testbit z b)) in H. rewrite Z.land_spec, Z.pow2_bits_true, Z.bits_0 in H by lia. done.
Qed.

Lemma elem_of_positions bit : bit ∈ band_positions <-> 0 <= bit < AD_FILELOCK_BAND_BITS.
Proof.
  unfold band_positions, AD_FILELOCK_BAND_BITS. rewrite !elem_of_cons, elem_of_nil. lia.
Qed.

(** Some byte of the range that may be locked is locked. *)
Definition content_locked (ls : list flock) (start len : Z) : Prop :=
  exists f b, f ∈ ls /\ locks_byte f b /\ start <= b < BYTELOCK_MAX /\ (len = 0 \/ b < start + len).

Lemma requested_all bit : 0 <= bit < AD_FILELOCK_BAND_BITS -> has_bit ALL_BAND_BITS (Z.shiftl 1 bit) = true.
Proof.
  intros H. assert (bit = 0 \/ bit = 1 \/ bit = 2 \/ bit = 3 \/ bit = 4 \/ bit = 5 \/ bit = 6 \/ bit = 7 \/ bit = 8 \/ bit = 9) as Hc
    by (unfold AD_FILELOCK_BAND_BITS in H; lia).
  repeat destruct Hc as [->|Hc]; subst; reflexivity.
Qed.

(** The deny bits found are the deny modes of the other processes. *)
Lemma held_denies ls T : peers ls T ->
  has_bit (held_bits ls ALL_BAND_BITS band_positions 0) DELETE_BLOCKING_BAND_BITS = true <->
  exists fork m, T !! fork = Some m /\ denies m = true.
Proof.
  intros [Hl Hp]. rewrite held_bits_has. change (has_bit 0 DELETE_BLOCKING_BAND_BITS) with false. cbn [orb].
  rewrite existsb_exists. setoid_rewrite <- list_elem_of_In. setoid_rewrite andb_true_iff. setoid_rewrite andb_true_iff. split.
  - intros (bit & Hin & [[_ H2] H3]). apply elem_of_positions in Hin. apply zone_band in H2; [|done..].
    apply Hp in H2 as (fork & m & HT & Hb); [|unfold in_band, AD_FILELOCK_BAND_BITS, AD_FILELOCK_BASE, LOCK_TOP in *; lia].
    exists fork, m. split; [done|]. rewrite denies_byte, existsb_exists. exists (AD_FILELOCK_BASE + bit). rewrite <- list_elem_of_In.
    split; [done|]. unfold deny_byte, band_bit. by replace (AD_FILELOCK_BASE + bit - AD_FILELOCK_BASE) with bit by lia.
  - intros (fork & m & HT & Hd). rewrite denies_byte, existsb_exists in Hd. destruct Hd as (b & Hb & Hd). rewrite <- list_elem_of_In in Hb.
    pose proof (bands_range m) as Hr. rewrite Forall_forall in Hr. specialize (Hr b Hb).
    assert (0 <= b - AD_FILELOCK_BASE < AD_FILELOCK_BAND_BITS) as Hbit by (unfold in_band, AD_FILELOCK_BAND_BITS, AD_FILELOCK_BASE, LOCK_TOP in *; lia).
    exists (b - AD_FILELOCK_BASE). split; [by apply elem_of_positions|]. split; [|done]. split; [by apply requested_all|].
    apply zone_band; [done..|]. replace (AD_FILELOCK_BASE + (b - AD_FILELOCK_BASE)) with b by lia. apply Hp; eauto.
Qed.

Lemma get_locks_own ad ls lsr ps absent du dr ru rr :
  proper_locks ls -> watched ls 12 ad -> 0 <= adf_fd (ad_rfp ad) -> probes (rsrc_kern ad) = Others lsr :: ps ->
  (of_get_locks (Some (File ad true)) absent du dr ru rr true 0 0 true 0 0 ALL_BAND_BITS true).1 =
  (OF_LOCKS_OK, (zone ls 0 0 0, zone lsr (rfork_off ad) 0 0, held_bits ls ALL_BAND_BITS band_positions 0)).
Proof.
  intros Hl Hw Hfd Hp. unfold of_get_locks. rewrite bool_decide_eq_false_2 by done. cbn [andb orb].
  assert (ad_rsrc_open (File ad true) = true) as -> by (apply Z.leb_le; done).
  rewrite (proj2 (Z.leb_le 0 (adf_fd (ad_data_fork (locks_of (File ad true)))))) by apply Hw.
  assert (ad_rsrc_open (File ad true) = true) as Hopen by (apply Z.leb_le; done).
  cbn [orb]. rewrite Hopen. cbn [locks_of].
  assert (exists ad2, ad_testlock_range ad ADEID_RFORK 0 0 = (if zone lsr (rfork_off ad) 0 0 then 1 else 0, ad2) /\ watched ls 12 ad2)
    as (ad2 & -> & Hw2).
  { unfold ad_testlock_range, zone. case_test; [lia|]. rewrite Z.add_0_l. destruct (range_probe (rfork_off ad) 0 0) as [[s n]|]; [|exists ad; by split].
    unfold get_lock, AD_SYMLINK. case_test; [lia|]. case_test; [lia|]. unfold getlk. rewrite Hp. eexists. split; [by case_match|done]. }
  cbn [locks_of]. rewrite (proj2 (Z.ltb_ge _ 0)) by (destruct (zone lsr _ _ _); lia). cbn [default locks_of from_option id].
  destruct (probe_data_watched ls 0 ad2 true 0 0 ALL_BAND_BITS Hl Hw2) as (ad3 & -> & _). cbn. by destruct (zone lsr _ _ _).
Qed.

(** ** Claims *)

(** [of_delete_blocked] refuses a deletion exactly when some fork open in this process
    denies reading or writing, or holds a byte range lock on either fork of the file. *)
Theorem delete_blocked_iff ad T :
  session ad T ->
  (of_delete_blocked ad).1.1 = true <->
    (exists fork m, T !! fork = Some m /\ denies m = true) \/
    (exists e, e ∈ adf_lock (ad_data_fork ad) /\ last_byte e < AD_FILELOCK_BASE) \/ adf_lock (ad_rfp ad) <> [].
Proof.
  intros (L & R & Hf & Hm)%session_inv. rewrite of_delete_blocked_spec, !orb_true_iff, bool_decide_eq_true.
  destruct (session_entries ad T L R Hf Hm) as [-> ->]. tauto.
Qed.

Lemma delete_blocked_iff_witness : (of_delete_blocked sample_file).1.1 = true.
Proof.
  apply (delete_blocked_iff sample_file {[1 := sample_mode]} sample_session). left. exists 1, sample_mode.
  split; [apply lookup_singleton_Some; done|reflexivity].
Defined.

(** The probes of [of_get_locks] on the data file answer, while the other processes'
    locks stand still, as separate probes of the content and of each bit of the band do:
    the probe of the whole file that replaces them when it finds nothing changes no
    answer. *)
Theorem probe_data_exact ls ad df_get off len request :
  proper_locks ls -> steady ls 12 ad -> 0 <= adf_fd (ad_data_fork ad) -> 0 <= off < AD_FILELOCK_BASE -> 0 <= len ->
  exists content bits ad', probe_data df_get off len request ad = (Some (content, bits), ad') /\
    (content = true <-> df_get = true /\ content_locked ls off len) /\
    (forall bit, 0 <= bit < AD_FILELOCK_BAND_BITS ->
       has_bit bits (Z.shiftl 1 bit) = true <-> has_bit request (Z.shiftl 1 bit) = true /\ foreign ls (AD_FILELOCK_BASE + bit)).
Proof.
  intros Hl Hst Hfd Hoff Hlen. destruct (probe_data_watched ls 0 ad df_get off len request Hl) as (ad' & -> & _); [by split|].
  do 3 eexists. split; [reflexivity|]. split.
  - rewrite andb_true_iff, zone_content by (done || unfold AD_FILELOCK_BASE, LOCK_TOP in *; lia). done.
  - intros bit Hb. rewrite held_bits_has. change (has_bit 0 (Z.shiftl 1 bit)) with false. cbn [orb]. rewrite existsb_exists, <- zone_band by done.
    setoid_rewrite <- list_elem_of_In. setoid_rewrite andb_true_iff. setoid_rewrite andb_true_iff. split.
    + intros (b' & Hin & [H1 H2]). apply elem_of_positions in Hin. apply has_bit_shift in H2 as ->; [done|lia..].
    + intros H1. exists bit. split; [by apply elem_of_positions|]. split; [done|]. apply has_bit_shift; lia.
Qed.

(** Another process holds a lock at byte 7 and denies reading. *)
Definition peered_file : adouble :=
  with_worlds (renew [] (replicate 12 (Others [Flock F_WRLCK 7 1; Flock F_RDLCK AD_FILELOCK_DENY_RD 1])) []) (renew [] [] []) (fresh true 82).

Lemma probe_data_exact_witness :
  exists content bits ad', probe_data true 0 0 ALL_BAND_BITS
      peered_file = (Some (content, bits), ad') /\
    content = true /\ has_bit bits DENY_RD_BIT = true.
Proof.
  destruct (probe_data_exact [Flock F_WRLCK 7 1; Flock F_RDLCK AD_FILELOCK_DENY_RD 1]
    peered_file true 0 0 ALL_BAND_BITS)
    as (content & bits & ad' & H & H1 & H2); [by repeat constructor|by exists 12%nat|done|done|done|].
  exists content, bits, ad'. split; [exact H|]. split.
  - apply H1. split; [done|]. exists (Flock F_WRLCK 7 1), 7. split; [by left|]. unfold locks_byte, BYTELOCK_MAX, AD_FILELOCK_BASE. cbn [fl_start fl_len]. lia.
  - assert (DENY_RD_BIT = Z.shiftl 1 5) as -> by (vm_compute; reflexivity). apply (H2 5); [unfold AD_FILELOCK_BAND_BITS; lia|]. split; [done|]. exists (Flock F_RDLCK AD_FILELOCK_DENY_RD 1). split; [right; by left|]. unfold locks_byte, AD_FILELOCK_DENY_RD. cbn [fl_start fl_len]. lia.
Defined.

(** C40: [replace_blocked] of a file with an open fork whose resource fork is open too,
    in a session whose byte range locks stay below the band, while the other processes hold
    exactly the modes [T'] and the locks [ls] and [lsr] on its two files during all its
    probes, none of which fails: the replacement is refused with AFPERR_BUSY exactly when a
    fork of any process denies reading or writing, or this process records a byte range
    lock, or another one holds a lock on a byte below [BYTELOCK_MAX], and allowed
    otherwise.  The byte [BYTELOCK_MAX] itself, which a client can lock, is not probed. *)
Theorem replace_decides ad T absent du dr ru rr ls T' lsr ps :
  session ad T -> 0 <= adf_fd (ad_rfp ad) -> steady ls 12 ad -> peers ls T' ->
  probes (rsrc_kern ad) = Others lsr :: ps -> proper_locks lsr -> rfork_off ad <= LOCK_TOP ->
  let r := replace_blocked (Some (File ad true)) absent du dr ru rr in
  (r = AFP_OK \/ r = AFPERR_BUSY) /\
  (r = AFPERR_BUSY <->
     (exists fork m, (T !! fork = Some m \/ T' !! fork = Some m) /\ denies m = true) \/
     (exists e, e ∈ adf_lock (ad_data_fork ad) /\ last_byte e < AD_FILELOCK_BASE) \/ adf_lock (ad_rfp ad) <> [] \/
     content_locked ls 0 0 \/ content_locked lsr (rfork_off ad) 0).
Proof.
  intros (L & R & Hf & Hm)%session_inv Hfd Hst Hp Hpr Hlr Htop r.
  destruct (session_entries ad T L R Hf Hm) as [Hd Hc]. pose proof (held_denies ls T' Hp) as Hh.
  assert (r = if (of_delete_blocked ad).1.1 || (zone ls 0 0 0 || zone lsr (rfork_off ad) 0 0 ||
                  has_bit (held_bits ls ALL_BAND_BITS band_positions 0) DELETE_BLOCKING_BAND_BITS) then AFPERR_BUSY else AFP_OK) as Hr.
  { subst r. unfold replace_blocked. cbn [locks_of]. destruct (of_delete_blocked ad).1.1; [done|]. cbn [orb].
    rewrite (get_locks_own ad ls lsr ps); [done|apply Hp|split; [done|apply (good_fd _ _ (ff_data _ _ _ Hf))]|done..]. }
  split; [rewrite Hr; destruct (_ || _); auto|].
  assert (r = AFPERR_BUSY <-> (of_delete_blocked ad).1.1 || (zone ls 0 0 0 || zone lsr (rfork_off ad) 0 0 ||
                  has_bit (held_bits ls ALL_BAND_BITS band_positions 0) DELETE_BLOCKING_BAND_BITS) = true) as ->
    by (rewrite Hr; destruct (_ || _); done).
  rewrite !orb_true_iff, of_delete_blocked_spec, !orb_true_iff, bool_decide_eq_true, Hd, Hc, Hh.
  pose proof (ff_off _ _ _ Hf) as Ho. destruct Hp as [Hl _].
  rewrite (zone_content ls 0 0 0 Hl), (zone_content lsr (rfork_off ad) 0 0 Hlr) by (unfold AD_FILELOCK_BASE, LOCK_TOP in *; lia).
  fold (content_locked ls 0 0) (content_locked lsr (rfork_off ad) 0). split.
  - intros [[[(f & m & ? & ?)|?]|?]|[[?|?]|(f & m & ? & ?)]]; eauto 10.
  - intros [(f & m & [?|?] & ?)|[?|[?|[?|?]]]]; eauto 10.
Qed.

(** Nothing of this process claims the file, and another one denies reading it. *)
Definition sample_shared : adouble :=
  Adouble (fresh_fd 3 true) (fresh_fd 4 true)
    (Kern (fun _ => F_UNLCK) [] [] (replicate 12 (Others [Flock F_RDLCK AD_FILELOCK_DENY_RD 1])) [])
    (Kern (fun _ => F_UNLCK) [] [] [Others []] []) 82.

Lemma sample_shared_session : session sample_shared ∅.
Proof.
  apply session_new. destruct (fresh_good_fd 3 true ltac:(done)) as [A1 A2 A3 A4 A5], (fresh_good_fd 4 true ltac:(done)) as [B1 B2 B3 B4 B5].
  split; try done. right. by split.
Qed.

Lemma replace_decides_witness : replace_blocked (Some (File sample_shared true)) false Missing Missing Missing Missing = AFPERR_BUSY.
Proof.
  destruct (replace_decides sample_shared ∅ false Missing Missing Missing Missing [Flock F_RDLCK AD_FILELOCK_DENY_RD 1]
    {[9 := (ADEID_DFORK, OPENACC_DRD)]} [] []) as [_ H].
  - apply sample_shared_session.
  - discriminate.
  - by exists 12%nat.
  - apply sample_peers.
  - reflexivity.
  - constructor.
  - discriminate.
  - apply H. left. exists 9, (ADEID_DFORK, OPENACC_DRD). split; [right; by apply lookup_singleton_Some|reflexivity].
Defined.
