(* ===== verification/WriteFork.v ===== *)
(** * FPWrite

    [write_fork] of etc/afpd/fork.c over DSI: the parameters of the request, the checks
    that refuse it before its payload is read, the payload itself and the reply.  Refused
    or not, the command takes its whole payload from the stream, so that the next request
    is found where it starts.

    What the command asks of the fork is an argument: the fork of the number, what
    [materialize_virtual_icon] answers, what [ad_size] and [ad_getentryoff] measure, and
    whether [ad_tmplock] grants the range.  Left out are the payload by recvfile, the
    release of the temporary lock, the marks on the fork and the volume, and ASP. *)

From S2P Require Import Prelude Bytes AdHeader AdLock ForkModes Dsi DsiFacts DsiTheorems.

(** ** Definitions *)

Definition INT64_MAX : Z := 2 ^ 63 - 1.
Definition AFPERR_LOCK : Z := -5013.
Definition AFPFORK_ACCWR : Z := Z.shiftl 1 5.

(** The fork as the command sees it; [t_icon] is the answer of [materialize_virtual_icon],
    [t_limitsize] whether the volume has a size limit. *)
Record target := Target { t_flags : Z; t_icon : Z; t_size : Z; t_entryoff : Z; t_limitsize : bool }.

(** What the checks decide: to leave through [afp_write_err] with an answer and the offset
    reached, or to go on with the offset and the count. *)
Inductive verdict : Type := Refuse (err offset : Z) | Proceed (offset reqcount : Z).

Section Write_fork.
Context (of_find : Z -> option target) (strict : bool) (tmplock : Z -> Z -> bool).

(** The checks on the fork, in their order. *)
Definition fork_checks (t : target) : option Z :=
  if has_bit (t_flags t) AFPFORK_VIRTUAL && negb (has_bit (t_flags t) AFPFORK_ACCWR) then Some AFPERR_ACCESS else
  if has_bit (t_flags t) AFPFORK_VIRTUAL && negb (t_icon t =? AFP_OK) then Some (t_icon t) else
  if negb (has_bit (t_flags t) AFPFORK_ACCWR) then Some AFPERR_ACCESS else
  if negb (has_bit (t_flags t) AFPFORK_DATA) && negb (has_bit (t_flags t) AFPFORK_RSRC) then Some AFPERR_ACCESS else
  None.

Definition write_checks (ibuf : list Z) (ibuflen : Z) (is64 : bool) : verdict :=
  let ibuf := drop 1 ibuf in
  let endflag := ENDBIT (nth 0 ibuf 0) in
  let ibuf := drop 1 ibuf in
  let ofrefnum := le_val (take 2 ibuf) in
  let ibuf := drop 2 ibuf in
  let '(offset, ibuf) := get_off_t ibuf is64 in
  let '(reqcount, _) := get_off_t ibuf is64 in
  if ibuflen <? (if is64 then DSI_WROFF_FPWRITEEXT else DSI_WROFF_FPWRITE) then Refuse AFPERR_PARAM offset else
  match of_find ofrefnum with
  | None => Refuse AFPERR_PARAM offset
  | Some t =>
      match fork_checks t with
      | Some err => Refuse err offset
      | None =>
          let oldsize := if endflag || t_limitsize t then t_size t else 0 in
          if endflag && (INT64_MAX - oldsize <? offset) then Refuse AFPERR_PARAM offset else
          let offset := if endflag then offset + oldsize else offset in
          if (reqcount <? 0) || (offset <? 0) then Refuse AFPERR_PARAM offset else
          if sum_neg is64 offset reqcount (if has_bit (t_flags t) AFPFORK_DATA then 0 else t_entryoff t) then Refuse AFPERR_DFULL offset else
          if reqcount =? 0 then Refuse AFP_OK offset else
          if strict && negb (tmplock offset reqcount) then Refuse AFPERR_LOCK offset else
          Proceed offset reqcount
      end
  end.

(** The answer and the reply block.  The offset grows with every byte the file takes. *)
Definition write_fork (ibuf : list Z) (ibuflen : Z) (is64 : bool) : M (Z * list Z) :=
  match write_checks ibuf ibuflen is64 with
  | Refuse err offset =>
      dsi_writedrain;;
      mret (err, if err =? AFP_OK then set_off_t offset is64 else [])
  | Proceed saveoff reqcount =>
      s0 ← get;
      err ← write_payload reqcount;
      s ← get;
      let offset := saveoff + Z.of_nat (length (filed (net s)) - length (filed (net s0))) in
      if err <? 0 then mret (err, []) else mret (AFP_OK, set_off_t offset is64)
  end.

End Write_fork.

(** ** Claims *)




(** A fork for reading and writing, empty, and a request for 10 bytes at offset 0. *)
Definition writable (r : Z) : option target := Some (Target (Z.lor AFPFORK_DATA AFPFORK_ACCWR) 0 0 0 false).
Definition sample_block (count : Z) : list Z := [33; 0; 1; 0] ++ be32 0 ++ be32 count.



Example full_disk_answer : exists s', write_fork writable false (fun _ _ => true) (sample_block 10) 12 false (sample_upload [Take 4; Take 2; Err ENOSPC]) =
  Ret (AFPERR_DFULL, []) s' /\ filed (net s') = [1; 2; 3; 4; 5; 6] /\ pending s' = [99].
Proof. eexists. split; [vm_compute; reflexivity|]. split; reflexivity. Qed.

(** A read-only fork, and a count of zero. *)
Example read_only_answer : exists s', write_fork (fun _ => Some (Target AFPFORK_DATA 0 0 0 false)) false (fun _ _ => true) (sample_block 10) 12 false (sample_upload []) =
  Ret (AFPERR_ACCESS, []) s' /\ filed (net s') = [] /\ pending s' = [99].
Proof. eexists. split; [vm_compute; reflexivity|]. split; reflexivity. Qed.

Example zero_count_answer : exists s', write_fork writable false (fun _ _ => true) (sample_block 0) 12 false (sample_upload []) =
  Ret (AFP_OK, be32 0) s' /\ filed (net s') = [] /\ pending s' = [99].
Proof. eexists. split; [vm_compute; reflexivity|]. split; reflexivity. Qed.
