(* ===== verification/Unicode.v ===== *)
(** * Unicode strings, libatalk/unicode/utf16_case.c and util_unistr.c

    Case mapping, comparison, and composition and decomposition of UTF-16 strings.  A unit
    is a [Z] of 16 bits and a surrogate pair one of 32 with the high surrogate on top.  A
    string that ends with a NUL is the list of the units in front of it, so the unit behind
    the end of the list reads as 0; the input of the two converters is the list of its
    units.  Their output buffer has [o_len] bytes: a store behind its end is undefined. *)

From S2P Require Import Prelude UnicodeTables.

(** ** Case *)

(** An element of an array; the index is in its range where the code has it. *)
Definition at_ (t : list Z) (i : Z) : Z := nth (Z.to_nat i) t 0.

Definition toupper_w (val : Z) : Z :=
  if val <=? 0x02BF then at_ upper_table_1 val else
  if (0x0340 <=? val) && (val <=? 0x05BF) then at_ upper_table_2 (val - 0x0340) else
  if (0x10C0 <=? val) && (val <=? 0x10FF) then at_ upper_table_3 (val - 0x10C0) else
  if (0x13C0 <=? val) && (val <=? 0x13FF) then at_ upper_table_4 (val - 0x13C0) else
  if (0x1C80 <=? val) && (val <=? 0x1CBF) then at_ upper_table_5 (val - 0x1C80) else
  if (0x1D40 <=? val) && (val <=? 0x1DBF) then at_ upper_table_6 (val - 0x1D40) else
  if (0x1E00 <=? val) && (val <=? 0x1FFF) then at_ upper_table_7 (val - 0x1E00) else
  if (0x2140 <=? val) && (val <=? 0x21BF) then at_ upper_table_8 (val - 0x2140) else
  if (0x24C0 <=? val) && (val <=? 0x24FF) then at_ upper_table_9 (val - 0x24C0) else
  if (0x2C00 <=? val) && (val <=? 0x2D3F) then at_ upper_table_10 (val - 0x2C00) else
  if (0xA640 <=? val) && (val <=? 0xA6BF) then at_ upper_table_11 (val - 0xA640) else
  if (0xA700 <=? val) && (val <=? 0xA7FF) then at_ upper_table_12 (val - 0xA700) else
  if (0xAB40 <=? val) && (val <=? 0xABBF) then at_ upper_table_13 (val - 0xAB40) else
  if (0xFF40 <=? val) && (val <=? 0xFF7F) then at_ upper_table_14 (val - 0xFF40) else
  val.

Definition toupper_sp (val : Z) : Z :=
  if (0xD801DC00 <=? val) && (val <=? 0xD801DC7F) then at_ upper_table_sp_1 (val - 0xD801DC00) else
  if (0xD801DCC0 <=? val) && (val <=? 0xD801DCFF) then at_ upper_table_sp_2 (val - 0xD801DCC0) else
  if (0xD801DD80 <=? val) && (val <=? 0xD801DDBF) then at_ upper_table_sp_3 (val - 0xD801DD80) else
  if (0xD803DCC0 <=? val) && (val <=? 0xD803DCFF) then at_ upper_table_sp_4 (val - 0xD803DCC0) else
  if (0xD803DD40 <=? val) && (val <=? 0xD803DD7F) then at_ upper_table_sp_5 (val - 0xD803DD40) else
  if (0xD803DD40 <=? val) && (val <=? 0xD803DDBF) then at_ upper_table_sp_6 (val - 0xD803DD40) else
  if (0xD806DCC0 <=? val) && (val <=? 0xD806DCFF) then at_ upper_table_sp_7 (val - 0xD806DCC0) else
  if (0xD81BDE40 <=? val) && (val <=? 0xD81BDE7F) then at_ upper_table_sp_8 (val - 0xD81BDE40) else
  if (0xD81BDE40 <=? val) && (val <=? 0xD81BDEFF) then at_ upper_table_sp_9 (val - 0xD81BDE40) else
  if (0xD83ADD00 <=? val) && (val <=? 0xD83ADD7F) then at_ upper_table_sp_10 (val - 0xD83ADD00) else
  val.

Definition tolower_w (val : Z) : Z :=
  if val <=? 0x007F then at_ lower_table_1 val else
  if (0x00C0 <=? val) && (val <=? 0x027F) then at_ lower_table_2 (val - 0x00C0) else
  if (0x0340 <=? val) && (val <=? 0x057F) then at_ lower_table_3 (val - 0x0340) else
  if (0x1080 <=? val) && (val <=? 0x10FF) then at_ lower_table_4 (val - 0x1080) else
  if (0x1380 <=? val) && (val <=? 0x13FF) then at_ lower_table_5 (val - 0x1380) else
  if (0x1C80 <=? val) && (val <=? 0x1CBF) then at_ lower_table_6 (val - 0x1C80) else
  if (0x1E00 <=? val) && (val <=? 0x1FFF) then at_ lower_table_7 (val - 0x1E00) else
  if (0x2100 <=? val) && (val <=? 0x21BF) then at_ lower_table_8 (val - 0x2100) else
  if (0x2480 <=? val) && (val <=? 0x24FF) then at_ lower_table_9 (val - 0x2480) else
  if (0x2C00 <=? val) && (val <=? 0x2CFF) then at_ lower_table_10 (val - 0x2C00) else
  if (0xA640 <=? val) && (val <=? 0xA6BF) then at_ lower_table_11 (val - 0xA640) else
  if (0xA700 <=? val) && (val <=? 0xA7FF) then at_ lower_table_12 (val - 0xA700) else
  if (0xFF00 <=? val) && (val <=? 0xFF3F) then at_ lower_table_13 (val - 0xFF00) else
  val.

Definition tolower_sp (val : Z) : Z :=
  if (0xD801DC00 <=? val) && (val <=? 0xD801DC3F) then at_ lower_table_sp_1 (val - 0xD801DC00) else
  if (0xD801DC80 <=? val) && (val <=? 0xD801DCFF) then at_ lower_table_sp_2 (val - 0xD801DC80) else
  if (0xD801DD40 <=? val) && (val <=? 0xD801DD7F) then at_ lower_table_sp_3 (val - 0xD801DD40) else
  if (0xD801DD40 <=? val) && (val <=? 0xD801DDBF) then at_ lower_table_sp_4 (val - 0xD801DD40) else
  if (0xD803DC80 <=? val) && (val <=? 0xD803DCBF) then at_ lower_table_sp_5 (val - 0xD803DC80) else
  if (0xD803DD40 <=? val) && (val <=? 0xD803DD7F) then at_ lower_table_sp_6 (val - 0xD803DD40) else
  if (0xD806DC80 <=? val) && (val <=? 0xD806DCBF) then at_ lower_table_sp_7 (val - 0xD806DC80) else
  if (0xD81BDE40 <=? val) && (val <=? 0xD81BDE7F) then at_ lower_table_sp_8 (val - 0xD81BDE40) else
  if (0xD81BDE40 <=? val) && (val <=? 0xD81BDEBF) then at_ lower_table_sp_9 (val - 0xD81BDE40) else
  if (0xD83ADD00 <=? val) && (val <=? 0xD83ADD3F) then at_ lower_table_sp_10 (val - 0xD83ADD00) else
  val.

Definition is_high (u : Z) : bool := (0xD800 <=? u) && (u <? 0xDC00).
Definition is_low (u : Z) : bool := (0xDC00 <=? u) && (u <? 0xE000).
Definition pair (hi lo : Z) : Z := Z.lor (Z.shiftl hi 16) lo.

(** [strlower_w] and [strupper_w]: the string and whether it changed. *)
Section change.
Context (to_w to_sp : Z -> Z).

Fixpoint change_w (s : list Z) : list Z * bool :=
  match s with
  | [] => ([], false)
  | u :: rest =>
      if is_high u then
        match rest with
        | lo :: rest' =>
            if is_low lo then
              let v_sp := to_sp (pair u lo) in
              if negb (v_sp =? pair u lo) then
                (Z.shiftr v_sp 16 :: Z.land v_sp 0xFFFF :: (change_w rest').1, true)
              else let '(r, c) := change_w rest in (u :: r, c)
            else let '(r, c) := change_w rest in (u :: r, c)
        | [] => ([u], false)
        end
      else
        let '(r, c) := change_w rest in
        if negb (to_w u =? u) then (to_w u :: r, true) else (u :: r, c)
  end.

End change.

Definition strlower_w : list Z -> list Z * bool := change_w tolower_w tolower_sp.
Definition strupper_w : list Z -> list Z * bool := change_w toupper_w toupper_sp.

(** ** Comparison *)

(** The conversion of a 32 bit difference to [int]. *)
Definition i32 (z : Z) : Z := if u32(z) <? 2 ^ 31 then u32(z) else u32(z) - 2 ^ 32.

Definition hd0 (s : list Z) : Z := hd 0 s.

Fixpoint strcmp_w (a b : list Z) : Z :=
  match b with
  | [] => hd0 a
  | y :: b' =>
      match a with
      | [] => - y
      | x :: a' => if x =? y then strcmp_w a' b' else x - y
      end
  end.

Fixpoint strcasecmp_w (a b : list Z) : Z :=
  match a, b with
  | x :: a', y :: b' =>
      if is_high x then
        let ret := i32 (tolower_sp (pair x (hd0 a')) - tolower_sp (pair y (hd0 b'))) in
        if negb (ret =? 0) then ret else
        match a', b' with
        | _ :: a2, _ :: b2 => strcasecmp_w a2 b2
        | _, _ => tolower_w (hd0 a') - tolower_w (hd0 b')
        end
      else
        let ret := tolower_w x - tolower_w y in
        if negb (ret =? 0) then ret else strcasecmp_w a' b'
  | _, _ => tolower_w (hd0 a) - tolower_w (hd0 b)
  end.

Fixpoint strncmp_w (a b : list Z) (len : nat) : Z :=
  match len with
  | O => 0
  | S len =>
      match b with
      | [] => hd0 a
      | y :: b' =>
          match a with
          | [] => - y
          | x :: a' => if x =? y then strncmp_w a' b' len else x - y
          end
      end
  end.

Fixpoint strncasecmp_w (a b : list Z) (len : nat) : Z :=
  match len with
  | O => 0
  | S len =>
      match a, b with
      | x :: a', y :: b' =>
          if is_high x then
            let ret := i32 (tolower_sp (pair x (hd0 a')) - tolower_sp (pair y (hd0 b'))) in
            if negb (ret =? 0) then ret else
            match len, a', b' with
            | S len, _ :: a2, _ :: b2 => strncasecmp_w a2 b2 len
            | _, _, _ => tolower_w (hd0 a') - tolower_w (hd0 b')
            end
          else
            let ret := tolower_w x - tolower_w y in
            if negb (ret =? 0) then ret else strncasecmp_w a' b' len
      | _, _ => tolower_w (hd0 a) - tolower_w (hd0 b)
      end
  end.

(** ** Searches *)

Definition strlen_w (s : list Z) : nat := length s.

Fixpoint strnlen_w (s : list Z) (max : nat) : nat :=
  match s, max with
  | _ :: s, S max => S (strnlen_w s max)
  | _, _ => O
  end.

(** A pointer into the string is the part of it from there on. *)
Fixpoint strchr_w (s : list Z) (c : Z) : option (list Z) :=
  match s with
  | [] => if c =? 0 then Some [] else None
  | u :: rest => if c =? u then Some s else strchr_w rest c
  end.

Fixpoint strcasechr_w (s : list Z) (c : Z) : option (list Z) :=
  match s with
  | [] => if c =? 0 then Some [] else None
  | u :: rest => if tolower_w c =? tolower_w u then Some s else strcasechr_w rest c
  end.

Fixpoint strcasechr_sp (s : list Z) (c_sp : Z) : option (list Z) :=
  match s with
  | u :: (v :: _ as rest) => if tolower_sp c_sp =? tolower_sp (pair u v) then Some s else strcasechr_sp rest c_sp
  | _ => None
  end.

(** The loop of the two substring searches; a turn per unit of the string. *)
Fixpoint find_loop (fuel : nat) (chr : list Z -> option (list Z)) (same : list Z -> bool) (r : list Z) : option (list Z) :=
  match fuel with
  | O => None
  | S fuel =>
      match chr r with
      | None => None
      | Some r => if same r then Some r else find_loop fuel chr same (tail r)
      end
  end.

Definition strstr_w (s ins : list Z) : option (list Z) :=
  match s, ins with
  | _ :: _, c :: _ => find_loop (S (length s)) (fun r => strchr_w r c) (fun r => strncmp_w r ins (strlen_w ins) =? 0) s
  | _, _ => None
  end.

Definition strcasestr_w (s ins : list Z) : option (list Z) :=
  match s, ins with
  | _ :: _, c :: rest =>
      let same r := strncasecmp_w r ins (strlen_w ins) =? 0 in
      if is_high c then
        if is_low (hd0 rest) then find_loop (S (length s)) (fun r => strcasechr_sp r (pair c (hd0 rest))) same s else None
      else find_loop (S (length s)) (fun r => strcasechr_w r c) same s
  | _, _ => None
  end.

(** The copy, or [None] when [malloc] fails; behind the NUL of the source there is nothing. *)
Definition strndup_w (room : bool) (src : list Z) (len : nat) : res (option (list Z)) :=
  let len := match len with O => strlen_w src | _ => len end in
  if negb room then Ok None else
  if (S (length src) <? len)%nat then Abort Undefined else Ok (Some (take len (src ++ [0]))).

Definition strdup_w (room : bool) (src : list Z) : res (option (list Z)) := strndup_w room src 0.

(** ** The composition tables *)

Definition SBASE : Z := 0xAC00.
Definition LBASE : Z := 0x1100.
Definition VBASE : Z := 0x1161.
Definition TBASE : Z := 0x11A7.
Definition LCOUNT : Z := 19.
Definition VCOUNT : Z := 21.
Definition TCOUNT : Z := 28.
Definition NCOUNT : Z := 588.
Definition SCOUNT : Z := 11172.
Definition PRECOMP_COUNT : Z := 955.
Definition DECOMP_COUNT : Z := 955.
Definition MAXCOMBLEN : Z := 3.
Definition PRECOMP_SP_COUNT : Z := 46.
Definition DECOMP_SP_COUNT : Z := 46.
Definition MAXCOMBSPLEN : Z := 4.

(** The binary search of the four lookups, with a turn of fuel per entry and one more. *)
Fixpoint search_loop (fuel : nat) (t : list composition) (key : composition -> Z) (sought min max : Z) : option composition :=
  match fuel with
  | O => None
  | S fuel =>
      if max <? min then None else
      let mid := (min + max) / 2 in
      match t !! Z.to_nat mid with
      | None => None
      | Some e =>
          if key e <? sought then search_loop fuel t key sought (mid + 1) max
          else if sought <? key e then search_loop fuel t key sought min (mid - 1)
          else Some e
      end
  end.

Definition search (t : list composition) (count : Z) (key : composition -> Z) (sought : Z) : option composition :=
  search_loop (S (length t)) t key sought 0 (count - 1).

Definition key_bmp (e : composition) : Z := Z.lor (u32(Z.shiftl (base e) 16)) (comb e).
Definition key_sp (e : composition) : Z := Z.lor (Z.shiftl (base e) 32) (comb e).

Definition do_precomposition (b c : Z) : Z :=
  match search precompositions PRECOMP_COUNT key_bmp (Z.lor (u32(Z.shiftl b 16)) c) with
  | Some e => wrap 16 (replacement e)
  | None => 0
  end.

Definition do_precomposition_sp (base_sp comb_sp : Z) : Z :=
  match search precompositions_sp PRECOMP_SP_COUNT key_sp (Z.lor (Z.shiftl base_sp 32) comb_sp) with
  | Some e => replacement e
  | None => 0
  end.

Definition do_decomposition (b : Z) : Z :=
  match search decompositions DECOMP_COUNT replacement b with Some e => key_bmp e | None => 0 end.

Definition do_decomposition_sp (base_sp : Z) : Z :=
  match search decompositions_sp DECOMP_SP_COUNT replacement base_sp with Some e => key_sp e | None => 0 end.

(** ** precompose_w *)

(** The units written and the space left, E2BIG, or a refusal of the arguments. *)
Inductive converted : Type := Done (out : list Z) (outlen : Z) | TooBig | Refused.

(** A store at the end of the output. *)
Definition store (o_len : Z) (out : list Z) (u : Z) : res (list Z) :=
  if 2 * Z.of_nat (length out) + 2 <=? o_len then Ok (out ++ [u]) else Abort Undefined.

(** The inner loop over the pairs behind a pair. *)
Fixpoint compose_pairs (base_sp : Z) (rest : list Z) : Z * list Z :=
  match rest with
  | c1 :: c2 :: rest' =>
      let result_sp := do_precomposition_sp base_sp (pair c1 c2) in
      if result_sp =? 0 then (base_sp, rest) else compose_pairs result_sp rest'
  | _ => (base_sp, rest)
  end.

(** What the chain of tests makes of the base and the unit behind it: a new base, a pair
    with the rest of the input, or nothing. *)
Inductive joined : Type := Join (b : Z) | Pair (base_sp : Z) (rest : list Z) | Apart.

Definition join (b c : Z) (rest : list Z) : joined :=
  if c <? 0x300 then Apart
  else if (VBASE <=? c) && (c <=? VBASE + VCOUNT) then
    if (LBASE <=? b) && (b <? LBASE + LCOUNT)
    then Join (wrap 16 (SBASE + ((b - LBASE) * VCOUNT + (c - VBASE)) * TCOUNT)) else Apart
  else if (TBASE <? c) && (c <? TBASE + TCOUNT) then
    if (SBASE <=? b) && (b <? SBASE + SCOUNT) && ((b - SBASE) mod TCOUNT =? 0)
    then Join (wrap 16 (b + (c - TBASE))) else Apart
  else if is_high b then
    if is_low c && (2 <=? Z.of_nat (length rest))
    then let '(base_sp, rest) := compose_pairs (pair b c) rest in Pair base_sp rest else Apart
  else let result := do_precomposition b c in if result =? 0 then Apart else Join result.

(** The loop; [b] is the base and [rest] the input behind it. *)
Fixpoint precompose_loop (fuel : nat) (o_len b : Z) (rest out : list Z) (outlen : Z) : res converted :=
  match fuel with
  | O => Abort Undefined
  | S fuel =>
      if outlen <=? 2 then Ok TooBig else
      match rest with
      | [] => out ← store o_len out b; _ ← store o_len out 0; Ok (Done out (outlen - 2))
      | c :: rest =>
          match join b c rest with
          | Join b => precompose_loop fuel o_len b rest out outlen
          | Apart => out ← store o_len out b; precompose_loop fuel o_len c rest out (outlen - 2)
          | Pair base_sp rest =>
              out ← store o_len out (Z.shiftr base_sp 16);
              if outlen - 2 <=? 2 then Ok TooBig else
              out ← store o_len out (Z.land base_sp 0xFFFF);
              match rest with
              | [] => _ ← store o_len out 0; Ok (Done out (outlen - 4))
              | b :: rest => precompose_loop fuel o_len b rest out (outlen - 4)
              end
          end
      end
  end.

(** The units of the input, undefined where it is shorter than [inplen]. *)
Definition input (name : list Z) (inplen : Z) : res (list Z) :=
  if 2 * Z.of_nat (length name) <? inplen then Abort Undefined else Ok (take (Z.to_nat (inplen / 2)) name).

Definition precompose_w (name : list Z) (inplen outlen : Z) : res converted :=
  if (inplen =? 0) || negb (Z.land inplen 1 =? 0) || (outlen <? inplen) then Ok Refused else
  units ← input name inplen;
  match units with
  | [] => Abort Undefined
  | b :: rest => precompose_loop (length units) outlen b rest [] outlen
  end.

(** ** decompose_w *)

(** The base and the combining characters of a unit; [combs] is the part of the array
    [comb] that is filled, from its end.  A turn of fuel per entry it has room for. *)
Fixpoint decompose_bmp (fuel : nat) (b : Z) (combs : list Z) : Z * list Z :=
  match fuel with
  | O => (b, combs)
  | S fuel =>
      let result := do_decomposition b in
      if result =? 0 then (b, combs) else
      let b := wrap 16 (Z.shiftr result 16) in
      let combs := Z.land result 0xFFFF :: combs in
      if (0x007f <? b) && (Z.of_nat (length combs) <? MAXCOMBLEN) then decompose_bmp fuel b combs else (b, combs)
  end.

Fixpoint decompose_pair (fuel : nat) (base_sp : Z) (combs : list Z) : Z * list Z :=
  match fuel with
  | O => (base_sp, combs)
  | S fuel =>
      let result_sp := do_decomposition_sp base_sp in
      if result_sp =? 0 then (base_sp, combs) else
      let base_sp := u32(Z.shiftr result_sp 32) in
      let combs := Z.land (Z.shiftr result_sp 16) 0xFFFF :: Z.land result_sp 0xFFFF :: combs in
      if Z.of_nat (length combs) <? MAXCOMBSPLEN then decompose_pair fuel base_sp combs else (base_sp, combs)
  end.

(** A Hangul syllable as its jamos. *)
Definition decompose_hangul (b : Z) : Z * list Z :=
  let sindex := b - SBASE in
  let vjamo := VBASE + (sindex mod NCOUNT) / TCOUNT in
  let tjamo := TBASE + sindex mod TCOUNT in
  (LBASE + sindex / NCOUNT, if tjamo =? TBASE then [vjamo] else [vjamo; tjamo]).

Definition decompose_unit (b : Z) : Z * list Z :=
  if b <=? 0x007f then (b, [])
  else if (SBASE <=? b) && (b <? SBASE + SCOUNT) then decompose_hangul b
  else decompose_bmp 3 b [].

(** The stores of the base and the combining characters. *)
Fixpoint store_all (o_len : Z) (out : list Z) (us : list Z) : res (list Z) :=
  match us with
  | [] => Ok out
  | u :: us => out ← store o_len out u; store_all o_len out us
  end.

Fixpoint decompose_loop (o_len : Z) (rest out : list Z) (outlen : Z) : res converted :=
  match rest with
  | [] => _ ← store o_len out 0; Ok (Done out outlen)
  | b :: rest =>
      let finish b combs out outlen (next : list Z -> Z -> res converted) :=
        let comblen := Z.of_nat (length combs) in
        if outlen <? Z.shiftl (comblen + 2) 1 then Ok TooBig else
        out ← store_all o_len out (b :: combs); next out (outlen - 2 * (comblen + 1)) in
      if is_high b then
        match rest with
        | [] => finish b [] out outlen (decompose_loop o_len rest)
        | lo :: rest' =>
            let '(base_sp, combs) := decompose_pair 2 (pair b lo) [] in
            if outlen <? Z.shiftl (Z.of_nat (length combs) + 3) 1 then Ok TooBig else
            out ← store o_len out (Z.shiftr base_sp 16);
            finish (Z.land base_sp 0xFFFF) combs out (outlen - 2) (decompose_loop o_len rest')
        end
      else let '(b, combs) := decompose_unit b in finish b combs out outlen (decompose_loop o_len rest)
  end.

Definition decompose_w (name : list Z) (inplen outlen : Z) : res converted :=
  if (inplen =? 0) || negb (Z.land inplen 1 =? 0) then Ok Refused else
  units ← input name inplen; decompose_loop outlen units [] outlen.
