(* ===== verification/UnicodeFacts.v ===== *)
(** * Unicode strings: the tables and the lists they describe

    What the binary searches find, how the two pairs of tables invert each other, and the
    composition and decomposition of a string without a buffer. *)

From S2P Require Import Prelude Bytes UnicodeTables Unicode.

(** ** The searches *)

Section search.
Context (t : list composition) (key : composition -> Z).

Definition increasing : Prop := forall i j e e', t !! i = Some e -> t !! j = Some e' -> (i < j)%nat -> key e < key e'.

Lemma search_loop_spec sought (Hinc : increasing) : forall fuel min max,
  0 <= min -> max < Z.of_nat (length t) -> (Z.to_nat (max - min + 1) < fuel)%nat ->
  (forall i e, t !! i = Some e -> key e = sought -> min <= Z.of_nat i <= max) ->
  match search_loop fuel t key sought min max with
  | Some e => e ∈ t /\ key e = sought
  | None => forall e, e ∈ t -> key e <> sought
  end.
Proof.
  induction fuel as [|fuel IH]; intros min max Hmin Hmax Hf Hin; [lia|]. cbn [search_loop].
  destruct (Z.ltb_spec max min) as [Hlt|Hge].
  { intros e (i & Hi)%list_elem_of_lookup He. specialize (Hin i e Hi He). lia. }
  assert (min <= (min + max) / 2 <= max) as Hmid by (split; [apply Z.div_le_lower_bound|apply Z.div_le_upper_bound]; lia).
  set (mid := (min + max) / 2) in *.
  destruct (lookup_lt_is_Some_2 t (Z.to_nat mid) ltac:(lia)) as [e He]. rewrite He.
  destruct (Z.ltb_spec (key e) sought) as [H1|H1]; [|destruct (Z.ltb_spec sought (key e)) as [H2|H2]].
  - apply IH; try lia. intros i e' Hi Hk. specialize (Hin i e' Hi Hk). destruct (decide (Z.of_nat i <= mid)); [|lia].
    destruct (decide (i = Z.to_nat mid)) as [->|]; [rewrite He in Hi; injection Hi as ->; lia|].
    specialize (Hinc i (Z.to_nat mid) e' e Hi He ltac:(lia)). lia.
  - apply IH; try lia. intros i e' Hi Hk. specialize (Hin i e' Hi Hk). destruct (decide (mid <= Z.of_nat i)); [|lia].
    destruct (decide (i = Z.to_nat mid)) as [->|]; [rewrite He in Hi; injection Hi as ->; lia|].
    specialize (Hinc (Z.to_nat mid) i e e' He Hi ltac:(lia)). lia.
  - split; [by eapply list_elem_of_lookup_2|lia].
Qed.

Lemma search_spec count sought :
  increasing -> count = Z.of_nat (length t) ->
  match search t count key sought with
  | Some e => e ∈ t /\ key e = sought
  | None => forall e, e ∈ t -> key e <> sought
  end.
Proof.
  intros Hinc ->. apply search_loop_spec; [done|lia..|]. intros i e Hi _. apply lookup_lt_Some in Hi. lia.
Qed.

(** A decision of [increasing] that computes. *)
Fixpoint rising (low : Z) (l : list composition) : bool :=
  match l with
  | [] => true
  | e :: l => (low <? key e) && rising (key e) l
  end.

End search.

Lemma rising_increasing key t low : rising key low t = true -> increasing t key.
Proof.
  intros H. assert (forall l low i e, rising key low l = true -> l !! i = Some e -> low < key e) as Hlow.
  { induction l as [|x l IH]; intros lo i e Hr Hi; [done|]. cbn in Hr. apply andb_true_iff in Hr as [H1 H2]. rewrite Z.ltb_lt in H1.
    destruct i as [|i]; [by injection Hi as ->|]. specialize (IH _ _ _ H2 Hi). lia. }
  revert low H. induction t as [|x t IH]; intros low H i j e e' Hi Hj Hij; [done|]. cbn in H. apply andb_true_iff in H as [_ H].
  destruct j as [|j]; [lia|]. destruct i as [|i]; [injection Hi as ->; by eapply Hlow|]. eapply IH; eauto. lia.
Qed.

Lemma precompositions_increasing : increasing precompositions key_bmp.
Proof. apply (rising_increasing _ _ 0). vm_compute. reflexivity. Qed.
Lemma decompositions_increasing : increasing decompositions replacement.
Proof. apply (rising_increasing _ _ 0). vm_compute. reflexivity. Qed.
Lemma precompositions_sp_increasing : increasing precompositions_sp key_sp.
Proof. apply (rising_increasing _ _ 0). vm_compute. reflexivity. Qed.
Lemma decompositions_sp_increasing : increasing decompositions_sp replacement.
Proof. apply (rising_increasing _ _ 0). vm_compute. reflexivity. Qed.

(** ** The entries *)

#[export] Instance composition_eq_dec : EqDecision composition.
Proof. solve_decision. Defined.

(** The ranges of the entries of the two kinds of table. *)
Definition bmp_entry (e : composition) : bool :=
  (0x80 <=? replacement e) && (replacement e <? 2 ^ 16) && negb ((0xAC00 <=? replacement e) && (replacement e <? 0xE000)) &&
  (0 <? base e) && (base e <? 2 ^ 16) && negb ((0xAC00 <=? base e) && (base e <? 0xE000)) &&
  (0x300 <=? comb e) && (comb e <? 2 ^ 16) && negb ((0x1100 <=? comb e) && (comb e <? 0x1200)) && negb ((0xAC00 <=? comb e) && (comb e <? 0xE000)).

Definition is_pair (p : Z) : bool := is_high (Z.shiftr p 16) && is_low (Z.land p 0xFFFF).
Definition sp_entry (e : composition) : bool :=
  is_pair (replacement e) && is_pair (base e) && is_low (Z.land (comb e) 0xFFFF) &&
  (0xD7C0 <=? Z.shiftr (comb e) 16) && (Z.shiftr (comb e) 16 <? 0xDC00).

Lemma forallb_elem {A} (p : A -> bool) l x : forallb p l = true -> x ∈ l -> p x = true.
Proof. rewrite forallb_forall. intros H Hx. apply H. by apply list_elem_of_In. Qed.

Lemma bmp_entries e : e ∈ precompositions ++ decompositions -> bmp_entry e = true.
Proof. apply forallb_elem. vm_compute. reflexivity. Qed.
Lemma sp_entries e : e ∈ precompositions_sp ++ decompositions_sp -> sp_entry e = true.
Proof. apply forallb_elem. vm_compute. reflexivity. Qed.

(** Both tables of a kind have the same entries. *)
Definition mem (t : list composition) (e : composition) : bool := existsb (fun e' => bool_decide (e' = e)) t.

Lemma mem_spec t e : mem t e = true <-> e ∈ t.
Proof.
  unfold mem. rewrite existsb_exists. setoid_rewrite bool_decide_eq_true. setoid_rewrite <- list_elem_of_In. naive_solver.
Qed.

Lemma same_entries t t' : forallb (mem t') t && forallb (mem t) t' = true -> forall e, e ∈ t <-> e ∈ t'.
Proof. intros [H1 H2]%andb_true_iff e. split; intros He; apply mem_spec; by eapply forallb_elem. Qed.

Lemma tables_same e : e ∈ precompositions <-> e ∈ decompositions.
Proof. revert e. apply same_entries. vm_compute. reflexivity. Qed.
Lemma tables_sp_same e : e ∈ precompositions_sp <-> e ∈ decompositions_sp.
Proof. revert e. apply same_entries. vm_compute. reflexivity. Qed.

(** A key determines its base and combining character. *)
Lemma key_halves w b c : 0 <= w -> 0 <= b -> 0 <= c < 2 ^ w -> Z.lor (Z.shiftl b w) c = b * 2 ^ w + c.
Proof. intros. rewrite Z.shiftl_mul_pow2 by done. rewrite (lor_add _ _ w); [done|done|done|]. apply Z.mod_mul. lia. Qed.

Lemma key_bmp_eq b c : 0 <= b < 2 ^ 16 -> 0 <= c < 2 ^ 16 -> Z.lor (u32(Z.shiftl b 16)) c = b * 2 ^ 16 + c.
Proof. intros Hb Hc. rewrite wrap_small, key_halves by (rewrite ?Z.shiftl_mul_pow2; lia). done. Qed.

Lemma increasing_inj t key e e' : increasing t key -> e ∈ t -> e' ∈ t -> key e = key e' -> e = e'.
Proof.
  intros Hinc (i & Hi)%list_elem_of_lookup (j & Hj)%list_elem_of_lookup Hk.
  destruct (lt_eq_lt_dec i j) as [[Hij| ->]|Hij]; [|congruence|].
  - specialize (Hinc _ _ _ _ Hi Hj Hij). lia.
  - specialize (Hinc _ _ _ _ Hj Hi Hij). lia.
Qed.

(** The entries for characters of the BMP. *)
Definition composes (r b c : Z) : Prop := Comp r b c ∈ precompositions.

Lemma composes_range r b c : composes r b c ->
  (0x80 <= r < 0xAC00 \/ 0xE000 <= r < 2 ^ 16) /\ (0 < b < 0xAC00 \/ 0xE000 <= b < 2 ^ 16) /\
  (0x300 <= c < 0x1100 \/ 0x1200 <= c < 0xAC00 \/ 0xE000 <= c < 2 ^ 16).
Proof.
  intros H. assert (bmp_entry (Comp r b c) = true) as Hx by (apply bmp_entries, elem_of_app; left; exact H).
  unfold bmp_entry in Hx. cbn [replacement base comb] in Hx. lia.
Qed.

Lemma composes_key r b c : composes r b c -> key_bmp (Comp r b c) = b * 2 ^ 16 + c.
Proof. intros H%composes_range. unfold key_bmp. cbn [base comb]. apply key_bmp_eq; lia. Qed.

Lemma composes_fun r r' b c : composes r b c -> composes r' b c -> r = r'.
Proof.
  intros H H'. assert (Comp r b c = Comp r' b c) as E; [|by injection E].
  apply (increasing_inj precompositions key_bmp); [apply precompositions_increasing|exact H|exact H'|done].
Qed.

Lemma composes_inj r b c b' c' : composes r b c -> composes r b' c' -> b = b' /\ c = c'.
Proof.
  unfold composes. rewrite !tables_same. intros H H'. assert (Comp r b c = Comp r b' c') as E; [|by injection E].
  apply (increasing_inj decompositions replacement); [apply decompositions_increasing|exact H|exact H'|done].
Qed.

(** The lookups find exactly the entries. *)
Lemma do_precomposition_cases b c : 0 <= b < 2 ^ 16 -> 0 <= c < 2 ^ 16 ->
  (do_precomposition b c <> 0 /\ composes (do_precomposition b c) b c) \/ (do_precomposition b c = 0 /\ forall r, ~ composes r b c).
Proof.
  intros Hb Hc. unfold do_precomposition. rewrite key_bmp_eq by done.
  pose proof (search_spec precompositions key_bmp PRECOMP_COUNT (b * 2 ^ 16 + c) precompositions_increasing ltac:(vm_compute; reflexivity)) as H.
  destruct (search _ _ _ _) as [[r b' c']|]; [left|right; split; [reflexivity|]].
  - destruct H as [He Hk]. change (composes r b' c') in He. rewrite composes_key in Hk by exact He. pose proof (composes_range _ _ _ He).
    cbn [replacement]. rewrite wrap_small by lia. split; [lia|]. assert (b' = b /\ c' = c) as [<- <-] by lia. exact He.
  - intros r Hr. apply (H _ Hr). by apply composes_key.
Qed.

Lemma do_decomposition_cases r :
  (exists b c, composes r b c /\ do_decomposition r = b * 2 ^ 16 + c) \/ (do_decomposition r = 0 /\ forall b c, ~ composes r b c).
Proof.
  unfold do_decomposition.
  pose proof (search_spec decompositions replacement DECOMP_COUNT r decompositions_increasing ltac:(vm_compute; reflexivity)) as H.
  destruct (search _ _ _ _) as [[r' b c]|]; [left|right; split; [reflexivity|]].
  - destruct H as [He Hk]. rewrite <- tables_same in He. change (composes r' b c) in He. cbn in Hk. subst r'.
    exists b, c. split; [exact He|]. by apply composes_key.
  - intros b c Hr. unfold composes in Hr. rewrite tables_same in Hr. by apply (H _ Hr).
Qed.

(** The entries for surrogate pairs. *)
Definition composes_sp (r b c : Z) : Prop := Comp r b c ∈ precompositions_sp.

Lemma composes_sp_pairs r b c : composes_sp r b c ->
  is_pair r = true /\ is_pair b = true /\ is_low (Z.land c 0xFFFF) = true /\ 0xD7C0 <= Z.shiftr c 16 < 0xDC00.
Proof.
  intros H. assert (sp_entry (Comp r b c) = true) as Hx by (apply sp_entries, elem_of_app; left; exact H).
  unfold sp_entry in Hx. cbn [replacement base comb] in Hx. rewrite !andb_true_iff in Hx. destruct Hx as [[[[-> ->] ->] ?] ?]. lia.
Qed.

Lemma composes_sp_range r b c : composes_sp r b c -> 0 < r < 2 ^ 32 /\ 0 < b < 2 ^ 32 /\ 0 < c < 2 ^ 32.
Proof.
  intros (Hr & Hb & _ & Hc)%composes_sp_pairs. unfold is_pair, is_high in Hr, Hb. rewrite Z.shiftr_div_pow2 in * by lia.
  apply andb_true_iff in Hr as [Hr _], Hb as [Hb _]. rewrite andb_true_iff, Z.leb_le, Z.ltb_lt in Hr, Hb. zmod.
Qed.

Lemma composes_sp_key r b c : composes_sp r b c -> key_sp (Comp r b c) = b * 2 ^ 32 + c.
Proof. intros H%composes_sp_range. unfold key_sp. cbn [base comb]. apply key_halves; lia. Qed.

Lemma composes_sp_fun r r' b c : composes_sp r b c -> composes_sp r' b c -> r = r'.
Proof.
  intros H H'. assert (Comp r b c = Comp r' b c) as E; [|by injection E].
  apply (increasing_inj precompositions_sp key_sp); [apply precompositions_sp_increasing|exact H|exact H'|done].
Qed.

Lemma composes_sp_inj r b c b' c' : composes_sp r b c -> composes_sp r b' c' -> b = b' /\ c = c'.
Proof.
  unfold composes_sp. rewrite !tables_sp_same. intros H H'. assert (Comp r b c = Comp r b' c') as E; [|by injection E].
  apply (increasing_inj decompositions_sp replacement); [apply decompositions_sp_increasing|exact H|exact H'|done].
Qed.

Lemma do_precomposition_sp_cases b c : 0 <= b < 2 ^ 32 -> 0 <= c < 2 ^ 32 ->
  (do_precomposition_sp b c <> 0 /\ composes_sp (do_precomposition_sp b c) b c) \/
  (do_precomposition_sp b c = 0 /\ forall r, ~ composes_sp r b c).
Proof.
  intros Hb Hc. unfold do_precomposition_sp. rewrite key_halves by lia.
  pose proof (search_spec precompositions_sp key_sp PRECOMP_SP_COUNT (b * 2 ^ 32 + c) precompositions_sp_increasing ltac:(vm_compute; reflexivity)) as H.
  destruct (search _ _ _ _) as [[r b' c']|]; [left|right; split; [reflexivity|]].
  - destruct H as [He Hk]. change (composes_sp r b' c') in He. rewrite composes_sp_key in Hk by exact He. pose proof (composes_sp_range _ _ _ He).
    cbn [replacement]. split; [lia|]. assert (b' = b /\ c' = c) as [<- <-] by lia. exact He.
  - intros r Hr. apply (H _ Hr). by apply composes_sp_key.
Qed.

Lemma do_decomposition_sp_cases r :
  (exists b c, composes_sp r b c /\ do_decomposition_sp r = b * 2 ^ 32 + c) \/ (do_decomposition_sp r = 0 /\ forall b c, ~ composes_sp r b c).
Proof.
  unfold do_decomposition_sp.
  pose proof (search_spec decompositions_sp replacement DECOMP_SP_COUNT r decompositions_sp_increasing ltac:(vm_compute; reflexivity)) as H.
  destruct (search _ _ _ _) as [[r' b c]|]; [left|right; split; [reflexivity|]].
  - destruct H as [He Hk]. rewrite <- tables_sp_same in He. change (composes_sp r' b c) in He. cbn in Hk. subst r'.
    exists b, c. split; [exact He|]. by apply composes_sp_key.
  - intros b c Hr. unfold composes_sp in Hr. rewrite tables_sp_same in Hr. by apply (H _ Hr).
Qed.
