(* ===== verification/UnicodeCompose.v ===== *)
(** * Unicode strings: composition and decomposition

    [composed] and [dec] are the outputs of [precompose_w] and [decompose_w] without a
    buffer.  The lemmas show how they undo each other. *)

From S2P Require Import Prelude Bytes UnicodeTables Unicode UnicodeFacts.

(** ** Units and pairs *)

Definition unit16 (u : Z) : Prop := 0 <= u < 2 ^ 16.

Lemma pair_eq hi lo : unit16 hi -> unit16 lo -> pair hi lo = hi * 2 ^ 16 + lo.
Proof. unfold unit16, pair. intros. apply key_halves; lia. Qed.

Lemma pair_hi hi lo : unit16 hi -> unit16 lo -> Z.shiftr (pair hi lo) 16 = hi.
Proof. intros H1 H2. rewrite pair_eq, Z.shiftr_div_pow2 by (done || lia). unfold unit16 in *. zmod. Qed.

Lemma land_16 z : Z.land z 0xFFFF = z mod 2 ^ 16.
Proof. apply (Z.land_ones z 16). lia. Qed.

Lemma pair_lo hi lo : unit16 hi -> unit16 lo -> Z.land (pair hi lo) 0xFFFF = lo.
Proof. intros H1 H2. rewrite land_16, pair_eq by done. unfold unit16 in *. zmod. Qed.

Lemma pair_split p : 0 <= p < 2 ^ 32 -> pair (Z.shiftr p 16) (Z.land p 0xFFFF) = p /\ unit16 (Z.shiftr p 16) /\ unit16 (Z.land p 0xFFFF).
Proof.
  intros Hp. rewrite land_16, Z.shiftr_div_pow2 by lia.
  assert (unit16 (p / 2 ^ 16)) by (unfold unit16; zmod). assert (unit16 (p mod 2 ^ 16)) by (unfold unit16; zmod).
  rewrite pair_eq by done. split; [zmod|done].
Qed.

Lemma is_high_range u : is_high u = true <-> 0xD800 <= u < 0xDC00.
Proof. unfold is_high. lia. Qed.
Lemma is_low_range u : is_low u = true <-> 0xDC00 <= u < 0xE000.
Proof. unfold is_low. lia. Qed.

(** Text: a high surrogate is followed by a low one, and no low one stands alone. *)
Fixpoint wf (s : list Z) : bool :=
  match s with
  | [] => true
  | u :: rest =>
      (0 <=? u) && (u <? 2 ^ 16) &&
      if is_high u then match rest with lo :: rest' => is_low lo && wf rest' | [] => false end
      else negb (is_low u) && wf rest
  end.

(** ** Decomposition *)

Definition dec_unit (b : Z) : list Z := let '(b, combs) := decompose_unit b in b :: combs.
Definition dec_pair (p : Z) : list Z :=
  let '(p, combs) := decompose_pair 2 p [] in Z.shiftr p 16 :: Z.land p 0xFFFF :: combs.

Fixpoint dec (s : list Z) : list Z :=
  match s with
  | [] => []
  | b :: rest =>
      if is_high b then match rest with [] => [b] | lo :: rest' => dec_pair (pair b lo) ++ dec rest' end
      else dec_unit b ++ dec rest
  end.

(** What the entries say of the decompositions, by computation over the tables. *)
Definition units_eqb (l l' : list Z) : bool := bool_decide (l = l').

Lemma units_eqb_eq l l' : units_eqb l l' = true -> l = l'.
Proof. apply bool_decide_eq_true_1. Qed.

Lemma dec_unit_composes r b c : composes r b c -> dec_unit r = dec_unit b ++ [c] /\ dec_unit c = [c].
Proof.
  intros H. assert (units_eqb (dec_unit r) (dec_unit b ++ [c]) && units_eqb (dec_unit c) [c] = true) as Hx.
  { apply (forallb_elem (fun e => units_eqb (dec_unit (replacement e)) (dec_unit (base e) ++ [comb e]) && units_eqb (dec_unit (comb e)) [comb e])
      precompositions (Comp r b c)); [vm_compute; reflexivity|exact H]. }
  apply andb_true_iff in Hx as [H1 H2]. split; by apply units_eqb_eq.
Qed.

Lemma dec_pair_composes r b c : composes_sp r b c ->
  dec_pair r = dec_pair b ++ [Z.shiftr c 16; Z.land c 0xFFFF] /\
  (is_high (Z.shiftr c 16) = true -> dec_pair c = [Z.shiftr c 16; Z.land c 0xFFFF]).
Proof.
  intros H. set (u := fun c => [Z.shiftr c 16; Z.land c 0xFFFF]).
  assert (units_eqb (dec_pair r) (dec_pair b ++ u c) && (negb (is_high (Z.shiftr c 16)) || units_eqb (dec_pair c) (u c)) = true) as Hx.
  { apply (forallb_elem (fun e => units_eqb (dec_pair (replacement e)) (dec_pair (base e) ++ u (comb e)) &&
        (negb (is_high (Z.shiftr (comb e) 16)) || units_eqb (dec_pair (comb e)) (u (comb e))))
      precompositions_sp (Comp r b c)); [vm_compute; reflexivity|exact H]. }
  apply andb_true_iff in Hx as [H1 H2]. split; [by apply units_eqb_eq|]. intros Hh. rewrite Hh in H2. by apply units_eqb_eq.
Qed.

Definition hangul (b : Z) : bool := (SBASE <=? b) && (b <? SBASE + SCOUNT).

Lemma dec_unit_plain b : hangul b = false -> (forall b' c, ~ composes b b' c) -> dec_unit b = [b].
Proof.
  intros Hh Hn. unfold dec_unit, decompose_unit. case_test; [done|]. fold (hangul b). rewrite Hh. cbn [decompose_bmp].
  destruct (do_decomposition_cases b) as [(b' & c & H & _)|[-> _]]; [by destruct (Hn b' c)|done].
Qed.

Lemma dec_pair_plain p : (forall b c, ~ composes_sp p b c) -> dec_pair p = [Z.shiftr p 16; Z.land p 0xFFFF].
Proof.
  intros Hn. unfold dec_pair. cbn [decompose_pair].
  destruct (do_decomposition_sp_cases p) as [(b & c & H & _)|[-> _]]; [by destruct (Hn b c)|done].
Qed.

(** Jamos stay as they are. *)
Lemma dec_unit_jamo b : 0x1100 <= b < 0x1200 -> dec_unit b = [b].
Proof.
  intros Hb. apply units_eqb_eq.
  apply (forallb_elem (fun b => units_eqb (dec_unit b) [b]) (seqZ 0x1100 256)); [vm_compute; reflexivity|]. apply elem_of_seqZ. lia.
Qed.

Lemma dec_unit_hangul b : hangul b = true ->
  dec_unit b = LBASE + (b - SBASE) / NCOUNT :: VBASE + ((b - SBASE) mod NCOUNT) / TCOUNT ::
    if (b - SBASE) mod TCOUNT =? 0 then [] else [TBASE + (b - SBASE) mod TCOUNT].
Proof.
  intros Hh. unfold dec_unit, decompose_unit. unfold hangul in *. rewrite Hh. case_test; [unfold SBASE in *; lia|].
  unfold decompose_hangul. set (m := (b - SBASE) mod TCOUNT). replace (TBASE + m =? TBASE) with (m =? 0) by lia. by destruct (m =? 0).
Qed.

(** ** Composition *)

Fixpoint compose (fuel : nat) (b : Z) (rest : list Z) : list Z :=
  match fuel with
  | O => []
  | S fuel =>
      match rest with
      | [] => [b]
      | c :: rest =>
          match join b c rest with
          | Join b => compose fuel b rest
          | Apart => b :: compose fuel c rest
          | Pair p rest =>
              Z.shiftr p 16 :: Z.land p 0xFFFF :: match rest with [] => [] | b :: rest => compose fuel b rest end
          end
      end
  end.

Definition comp (b : Z) (rest : list Z) : list Z := compose (S (length rest)) b rest.
Definition composed (s : list Z) : list Z := match s with [] => [] | b :: rest => comp b rest end.

Lemma compose_pairs_length n : forall p rest, (length rest <= n)%nat -> (length (compose_pairs p rest).2 <= length rest)%nat.
Proof.
  induction n as [|n IH]; intros p rest Hn; [by destruct rest; [|cbn in Hn; lia]|].
  destruct rest as [|c1 [|c2 rest]]; [done..|]. cbn [compose_pairs]. case_test; [done|].
  etransitivity; [apply IH; cbn in Hn; lia|]. cbn. lia.
Qed.

Lemma join_length b c rest p rest' : join b c rest = Pair p rest' -> (length rest' <= length rest)%nat.
Proof.
  unfold join. intros H. repeat case_match; try done; injection H as <- <-.
  pose proof (compose_pairs_length (length rest) (pair b c) rest ltac:(lia)) as Hl.
  match goal with E : compose_pairs _ _ = _ |- _ => by rewrite E in Hl end.
Qed.

Lemma compose_enough n : forall m b rest, (length rest < n)%nat -> (length rest < m)%nat -> compose n b rest = compose m b rest.
Proof.
  induction n as [|n IH]; intros m b rest Hn Hm; [lia|]. destruct m as [|m]; [lia|].
  destruct rest as [|c rest]; [done|]. cbn [compose]. cbn in Hn, Hm.
  destruct (join b c rest) as [b'|p rest'|] eqn:Hj; [apply IH; lia| |f_equal; apply IH; lia].
  apply join_length in Hj. destruct rest' as [|b' rest']; [done|]. cbn in Hj. do 2 f_equal. apply IH; lia.
Qed.

Lemma compose_fuel n b rest : (length rest < n)%nat -> compose n b rest = comp b rest.
Proof. intros H. apply compose_enough; lia. Qed.

Lemma comp_nil b : comp b [] = [b]. Proof. done. Qed.

Lemma comp_cons b c rest :
  comp b (c :: rest) =
  match join b c rest with
  | Join b => comp b rest
  | Apart => b :: comp c rest
  | Pair p rest => Z.shiftr p 16 :: Z.land p 0xFFFF :: composed rest
  end.
Proof.
  unfold comp at 1. cbn [length]. remember (S (length rest)) as n eqn:En. cbn [compose].
  destruct (join b c rest) as [b'|p rest'|] eqn:Hj; [by subst| |by subst].
  apply join_length in Hj. destruct rest' as [|b' rest']; [done|]. cbn in Hj. by rewrite compose_fuel by lia.
Qed.

(** ** What joins *)

Ltac range_tests := repeat match goal with |- context [if ?b then _ else _] => let E := fresh "E" in destruct b eqn:E; try lia end.

Lemma join_table b c rest r : composes r b c -> join b c rest = Join r.
Proof.
  intros H. pose proof (composes_range _ _ _ H) as Hr. unfold join, is_high, VBASE, VCOUNT, TBASE, TCOUNT.
  do 4 (case_test; [lia|]).
  destruct (do_precomposition_cases b c) as [[H1 H2]|[_ H2]]; [lia..| |by destruct (H2 r)].
  rewrite (composes_fun _ _ _ _ H2 H) in *. rewrite (proj2 (Z.eqb_neq r 0)) by lia. done.
Qed.

Lemma join_LV l v rest : 0 <= l < 19 -> 0 <= v <= 20 ->
  join (LBASE + l) (VBASE + v) rest = Join (SBASE + (l * VCOUNT + v) * TCOUNT).
Proof.
  intros Hl Hv. unfold join, LBASE, VBASE, VCOUNT, LCOUNT, SBASE, TCOUNT. case_test; [lia|]. case_test; [|lia]. case_test; [|lia].
  rewrite wrap_small by lia. f_equal. lia.
Qed.

Lemma join_LVT b t rest : hangul b = true -> (b - SBASE) mod TCOUNT = 0 -> 0 < t < TCOUNT -> join b (TBASE + t) rest = Join (b + t).
Proof.
  unfold hangul. intros Hh Hm Ht. unfold join. fold (hangul b). unfold hangul. rewrite Hh, Hm. unfold VBASE, VCOUNT, TBASE, TCOUNT, SBASE, SCOUNT in *.
  case_test; [lia|]. case_test; [lia|]. case_test; [|lia]. cbn [andb Z.eqb]. rewrite wrap_small by lia. f_equal. lia.
Qed.

(** The units that [join] compares besides surrogates. *)
Lemma join_cases b c rest : is_high b = false -> unit16 b -> unit16 c ->
  match join b c rest with
  | Join r =>
      composes r b c \/
      (exists l v, 0 <= l < 19 /\ 0 <= v <= 21 /\ b = LBASE + l /\ c = VBASE + v /\ r = SBASE + (l * VCOUNT + v) * TCOUNT) \/
      (exists t, hangul b = true /\ (b - SBASE) mod TCOUNT = 0 /\ 0 < t < TCOUNT /\ c = TBASE + t /\ r = b + t)
  | Pair _ _ => False
  | Apart => True
  end.
Proof.
  intros Hh Hb Hc. unfold unit16 in *. unfold join. rewrite Hh. case_test; [done|]. case_test; [case_test; [|done]|case_test; [case_test; [|done]|]].
  - right. left. exists (b - LBASE), (c - VBASE). unfold LBASE, VBASE, VCOUNT, LCOUNT, SBASE, TCOUNT in *. rewrite wrap_small by lia. lia.
  - right. right. exists (c - TBASE). fold (hangul b) in *. unfold hangul, TBASE, TCOUNT, SBASE, SCOUNT in *. rewrite wrap_small by lia. lia.
  - destruct (do_precomposition_cases b c Hb Hc) as [[H1 H2]|[-> _]]; [|done]. rewrite (proj2 (Z.eqb_neq _ 0)) by done. by left.
Qed.

(** ** Composition changes no decomposition *)

Lemma wf_cons u rest : wf (u :: rest) = true -> unit16 u /\
  (is_high u = true /\ (exists lo rest', rest = lo :: rest' /\ is_low lo = true /\ wf rest' = true) \/
   is_high u = false /\ is_low u = false /\ wf rest = true).
Proof.
  cbn [wf]. rewrite !andb_true_iff. intros [[H1 H2] H3]. split; [unfold unit16; lia|]. destruct (is_high u); [left|right].
  - split; [done|]. destruct rest as [|lo rest']; [done|]. apply andb_true_iff in H3 as [? ?]. eauto.
  - apply andb_true_iff in H3 as [H3%negb_true_iff ?]. done.
Qed.

Lemma dec_plain u rest : is_high u = false -> dec (u :: rest) = dec_unit u ++ dec rest.
Proof. intros H. cbn [dec]. by rewrite H. Qed.

Lemma dec_surrogates hi lo rest : is_high hi = true -> dec (hi :: lo :: rest) = dec_pair (pair hi lo) ++ dec rest.
Proof. intros H. cbn [dec]. by rewrite H. Qed.

Lemma is_pair_pair hi lo : is_high hi = true -> is_low lo = true -> is_pair (pair hi lo) = true.
Proof.
  intros H1 H2. pose proof H1 as R1. pose proof H2 as R2. rewrite is_high_range in R1. rewrite is_low_range in R2.
  unfold is_pair. rewrite pair_hi, pair_lo by (unfold unit16; lia). by rewrite H1, H2.
Qed.

Lemma is_pair_range p : is_pair p = true -> 0xD800 <= Z.shiftr p 16 < 0xDC00 /\ 0xDC00 <= Z.land p 0xFFFF < 0xE000 /\ 0 <= p < 2 ^ 32.
Proof.
  unfold is_pair. rewrite andb_true_iff, is_high_range, is_low_range. rewrite Z.shiftr_div_pow2 by lia. intros [H1 H2].
  split; [done|]. split; [done|]. zmod.
Qed.

Lemma pairs_dec p rest : is_pair p = true -> dec (Z.shiftr p 16 :: Z.land p 0xFFFF :: rest) = dec_pair p ++ dec rest.
Proof.
  intros H. pose proof H as (Hh & _ & Hp)%is_pair_range. rewrite dec_surrogates by by apply is_high_range. by rewrite (proj1 (pair_split p Hp)).
Qed.

(** The pairs behind a pair. *)
Lemma compose_pairs_dec n : forall p rest, (length rest <= n)%nat -> is_pair p = true -> wf rest = true ->
  let '(p', rest') := compose_pairs p rest in
  is_pair p' = true /\ wf rest' = true /\ rest' ⊆ rest /\ dec_pair p' ++ dec rest' = dec_pair p ++ dec rest.
Proof.
  induction n as [|n IH]; intros p rest Hn Hp Hw; [by destruct rest; [|cbn in Hn; lia]|].
  destruct rest as [|c1 [|c2 rest]]; [done..|]. cbn [compose_pairs]. case_test; [done|].
  pose proof (wf_cons _ _ Hw) as [U1 Hc]. pose proof Hp as (_ & _ & Hpr)%is_pair_range.
  assert (exists lo r, c2 :: rest = lo :: r /\ unit16 lo /\ (is_high c1 = true -> is_low lo = true /\ wf r = true)) as (lo & r & [= <- <-] & U2 & Hc2).
  { destruct Hc as [(_ & lo & r & -> & H1 & H2)|(Hf & _ & Hw')].
    - exists lo, r. split; [done|]. apply is_low_range in H1 as H1'. split; [unfold unit16; lia|done].
    - exists c2, rest. split; [done|]. split; [by apply wf_cons in Hw' as [? _]|congruence]. }
  assert (0 <= pair c1 c2 < 2 ^ 32) as Hpc by (rewrite pair_eq by done; unfold unit16 in *; lia).
  destruct (do_precomposition_sp_cases p (pair c1 c2) Hpr Hpc) as [[_ Hcs]|[? _]]; [|done].
  set (r := do_precomposition_sp p (pair c1 c2)) in *. pose proof (composes_sp_pairs _ _ _ Hcs) as (Hrp & _ & Hlo & Hhi).
  rewrite pair_lo in Hlo by done. rewrite pair_hi in Hhi by done.
  destruct Hc as [(Hh & _)|(_ & _ & Hw')].
  - destruct (Hc2 Hh) as [_ Hw2]. specialize (IH r rest ltac:(cbn in Hn; lia) Hrp Hw2). destruct (compose_pairs r rest) as [p' rest'].
    destruct IH as (K1 & K2 & K3 & K4). split; [done|]. split; [done|]. split; [intros x Hx; do 2 right; by apply K3|].
    rewrite K4, dec_surrogates by done. pose proof (dec_pair_composes _ _ _ Hcs) as [-> Hd]. rewrite pair_hi, pair_lo in * by done.
    rewrite Hd by done. by rewrite <- app_assoc.
  - apply wf_cons in Hw' as [_ [[Hh _]|(_ & Hl & _)]]; [|congruence]. apply is_high_range in Hh. apply is_low_range in Hlo. lia.
Qed.

(** A low surrogate never joins. *)
Lemma comp_low c d rest : is_low c = true -> unit16 d -> comp c (d :: rest) = c :: comp d rest.
Proof.
  intros Hc Hd. apply is_low_range in Hc as Hr. rewrite comp_cons.
  assert (is_high c = false) as Hh by (apply not_true_is_false; rewrite is_high_range; lia).
  pose proof (join_cases c d rest Hh ltac:(unfold unit16; lia) Hd) as Hj. destruct (join c d rest) as [r|p r|]; [|done|done].
  destruct Hj as [Hj|[(l & v & ? & ? & ? & _)|(t & Hj & _)]].
  - apply composes_range in Hj. lia.
  - unfold LBASE in *. lia.
  - unfold hangul, SBASE, SCOUNT in Hj. lia.
Qed.

(** A join of two units, apart from the one that is no vowel. *)
Lemma join_dec b c rest r : is_high b = false -> unit16 b -> unit16 c -> c <> VBASE + VCOUNT -> join b c rest = Join r ->
  dec_unit r = dec_unit b ++ dec_unit c /\ is_high r = false /\ is_low r = false /\ unit16 r /\ is_high c = false.
Proof.
  intros Hh Hb Hc Hn Hj. pose proof (join_cases b c rest Hh Hb Hc) as H. rewrite Hj in H.
  destruct H as [H|[(l & v & Hl & Hv & -> & -> & ->)|(t & Hg & Hm & Ht & -> & ->)]].
  - pose proof (dec_unit_composes _ _ _ H) as [H1 H2]. pose proof (composes_range _ _ _ H). unfold unit16, is_high, is_low. split; [by rewrite H1, H2|]. lia.
  - assert (v <= 20) by (unfold VBASE, VCOUNT in *; lia). unfold unit16, is_high, is_low.
    rewrite dec_unit_hangul by (unfold hangul, SBASE, SCOUNT, VCOUNT, TCOUNT; lia).
    rewrite !dec_unit_jamo by (unfold LBASE, VBASE; lia). unfold SBASE, NCOUNT, VCOUNT, TCOUNT, LBASE, VBASE in *.
    split; [|lia]. rewrite (proj2 (Z.eqb_eq _ 0)) by zmod. cbn [app]. f_equal; [zmod|]. f_equal. zmod.
  - unfold unit16, is_high, is_low. pose proof Hg as Hg'. unfold hangul, SBASE, SCOUNT, TCOUNT in Hg', Hm, Ht.
    rewrite !dec_unit_hangul by (unfold hangul, SBASE, SCOUNT in *; zmod). rewrite dec_unit_jamo by (unfold TBASE, TCOUNT in *; lia).
    unfold SBASE, NCOUNT, VCOUNT, TCOUNT, LBASE, VBASE, TBASE in *. split; [|zmod].
    rewrite (proj2 (Z.eqb_neq ((b + t - 0xAC00) mod 28) 0)) by zmod. rewrite (proj2 (Z.eqb_eq ((b - 0xAC00) mod 28) 0)) by done. cbn [app].
    f_equal; [zmod|]. f_equal; [zmod|]. f_equal. zmod.
Qed.

Lemma comp_dec n : forall b rest, (length rest <= n)%nat -> wf (b :: rest) = true -> VBASE + VCOUNT ∉ rest ->
  dec (comp b rest) = dec (b :: rest).
Proof.
  induction n as [|n IH]; intros b rest Hn Hw Hv; [by destruct rest; [|cbn in Hn; lia]|].
  destruct rest as [|c rest]; [done|]. cbn in Hn. rewrite comp_cons. pose proof (wf_cons _ _ Hw) as [Ub Hc].
  assert (c <> VBASE + VCOUNT /\ VBASE + VCOUNT ∉ rest) as [Hcv Hv'] by set_solver.
  destruct Hc as [(Hh & lo & rest' & [= <- <-] & Hlo & Hw')|(Hh & Hl & Hw')].
  - apply is_high_range in Hh as Rh. apply is_low_range in Hlo as Rl.
    assert (join b c rest = if 2 <=? Z.of_nat (length rest) then let '(p, r) := compose_pairs (pair b c) rest in Pair p r else Apart) as ->.
    { unfold join, VBASE, VCOUNT, TBASE, TCOUNT. do 3 (case_test; [lia|]). by rewrite Hh, Hlo. }
    case_test.
    + pose proof (compose_pairs_dec (length rest) (pair b c) rest ltac:(lia) (is_pair_pair b c Hh Hlo) Hw') as H.
      pose proof (compose_pairs_length (length rest) (pair b c) rest ltac:(lia)) as Hlen.
      destruct (compose_pairs (pair b c) rest) as [p rest']. destruct H as (H1 & H2 & H3 & H4). cbn in Hlen.
      rewrite pairs_dec, dec_surrogates by done. rewrite <- H4. f_equal. destruct rest' as [|b' rest']; [done|].
      cbn in Hlen. apply IH; [lia|done|]. intros Hx. apply Hv', H3. by right.
    + destruct rest as [|d [|]]; [done| |cbn in *; lia]. pose proof (wf_cons _ _ Hw') as [Ud _]. rewrite comp_low by done. by rewrite comp_nil.
  - pose proof (wf_cons _ _ Hw') as [Uc _]. destruct (join b c rest) as [r|p r|] eqn:Hj.
    + pose proof (join_dec _ _ _ _ Hh Ub Uc Hcv Hj) as (H1 & H2 & H3 & H4 & H5).
      rewrite IH; [|lia| |done].
      * by rewrite !dec_plain, H1, app_assoc by done.
      * apply wf_cons in Hw' as [_ [[? _]|(_ & _ & Hw2)]]; [congruence|]. cbn [wf]. rewrite H2, H3, Hw2. unfold unit16 in H4. lia.
    + pose proof (join_cases b c rest Hh Ub Uc) as H. by rewrite Hj in H.
    + rewrite !dec_plain by done. f_equal. apply IH; [lia|done..].
Qed.

(** ** Recomposition *)

(** The combining characters of a unit join its base one by one. *)
Lemma comp_unit n : forall u, length (dec_unit u) = n -> unit16 u -> is_high u = false ->
  forall b cs X, dec_unit u = b :: cs -> comp b (cs ++ X) = comp u X.
Proof.
  induction n as [n IH] using (well_founded_induction lt_wf). intros u Hn Hu Hh b cs X Hd.
  destruct (hangul u) eqn:Hg.
  - rewrite dec_unit_hangul in Hd by done. injection Hd as <- <-. pose proof Hg as Hg'. unfold hangul, SBASE, SCOUNT in Hg'.
    set (s := u - SBASE) in *. assert (0 <= s < SCOUNT) as Hs by (unfold SCOUNT; subst s; unfold SBASE; lia). unfold SCOUNT in Hs.
    assert (SBASE + (s / NCOUNT * VCOUNT + s mod NCOUNT / TCOUNT) * TCOUNT = u - s mod TCOUNT) as E
      by (unfold NCOUNT, VCOUNT, TCOUNT, SBASE in *; subst s; zmod).
    cbn [app]. rewrite comp_cons, join_LV, E by (unfold NCOUNT, TCOUNT; zmod). destruct (Z.eqb_spec (s mod TCOUNT) 0) as [E0|E0].
    + rewrite E0, Z.sub_0_r. done.
    + cbn [app]. rewrite comp_cons, join_LVT; [f_equal; lia| | |unfold TCOUNT in *; zmod].
      * unfold hangul, SBASE, SCOUNT, TCOUNT in *. subst s. zmod.
      * unfold TCOUNT, SBASE in *. subst s. zmod.
  - destruct (do_decomposition_cases u) as [(b' & c & Hc & _)|[_ Hc]].
    + pose proof (dec_unit_composes _ _ _ Hc) as [E _]. pose proof (composes_range _ _ _ Hc) as Hr. rewrite E in Hd, Hn. rewrite length_app in Hn. cbn in Hn.
      destruct (dec_unit b') as [|b2 cs2] eqn:Eb; [unfold dec_unit in Eb; by destruct (decompose_unit b')|].
      cbn in Hd. injection Hd as -> <-. rewrite <- app_assoc.
      rewrite (IH (length (b :: cs2)) ltac:(cbn in *; lia) b' ltac:(by rewrite Eb) ltac:(unfold unit16; lia) ltac:(unfold is_high; lia) b cs2 _ Eb).
      cbn [app]. rewrite comp_cons, (join_table _ _ _ _ Hc). done.
    + rewrite dec_unit_plain in Hd by done. by injection Hd as <- <-.
Qed.

(** The pairs behind a base pair join it one by one. *)
Lemma compose_pairs_back n : forall p, length (dec_pair p) = n -> is_pair p = true ->
  forall hi lo cs X, dec_pair p = hi :: lo :: cs ->
    is_pair (pair hi lo) = true /\ unit16 hi /\ unit16 lo /\ compose_pairs (pair hi lo) (cs ++ X) = compose_pairs p X /\
    (cs = [] -> pair hi lo = p) /\ (length cs <> 1)%nat.
Proof.
  induction n as [n IH] using (well_founded_induction lt_wf). intros p Hn Hp hi lo cs X Hd. pose proof Hp as (_ & _ & Rp)%is_pair_range.
  destruct (do_decomposition_sp_cases p) as [(b & c & Hc & _)|[_ Hc]].
  - pose proof (dec_pair_composes _ _ _ Hc) as [E _]. pose proof (composes_sp_range _ _ _ Hc) as (R1 & R2 & R3).
    pose proof (composes_sp_pairs _ _ _ Hc) as (_ & Hb & _). rewrite E in Hd, Hn. rewrite length_app in Hn. cbn in Hn.
    destruct (dec_pair b) as [|h2 [|l2 cs2]] eqn:Eb; [unfold dec_pair in Eb; by destruct (decompose_pair 2 b [])..|].
    cbn in Hd. injection Hd as -> -> <-. rewrite <- app_assoc.
    destruct (IH (length (hi :: lo :: cs2)) ltac:(cbn in *; lia) b ltac:(by rewrite Eb) Hb hi lo cs2 ([Z.shiftr c 16; Z.land c 0xFFFF] ++ X) Eb)
      as (K1 & K2 & K3 & K4 & K5 & K6).
    split_and!; try done.
    + rewrite K4. cbn [app compose_pairs]. destruct (pair_split c ltac:(lia)) as [-> _].
      destruct (do_precomposition_sp_cases b c) as [[Hz Hr]|[_ Hr]]; [lia..| |by destruct (Hr p)].
      rewrite (composes_sp_fun _ _ _ _ Hr Hc) in *. rewrite (proj2 (Z.eqb_neq p 0)) by lia. done.
    + intros Hx. by destruct cs2.
    + rewrite length_app. cbn. lia.
  - rewrite dec_pair_plain in Hd by done. injection Hd as <- <- <-. destruct (pair_split p Rp) as (-> & ? & ?). split_and!; done.
Qed.
