(* ===== verification/UnicodeTheorems.v ===== *)
(** * Unicode strings: theorems

    The converters write exactly the composition or decomposition of their input, inside
    the buffer; they undo each other; the comparison decides equality of lowercase forms. *)

From S2P Require Import Prelude Bytes UnicodeTables Unicode UnicodeFacts UnicodeCompose.

(** ** The buffers *)

Lemma store_fits o_len out u : 2 * Z.of_nat (length out) + 2 <= o_len -> store o_len out u = Ok (out ++ [u]).
Proof. intros H. unfold store. by rewrite (proj2 (Z.leb_le _ _)). Qed.

(** The answer to an output of these units behind [out]. *)
Definition answer (o_len : Z) (out units : list Z) : converted :=
  let n := Z.of_nat (length out + length units) in
  if 2 * n + 2 <=? o_len then Done (out ++ units) (o_len - 2 * n) else TooBig.

Lemma answer_step o_len out u units : answer o_len (out ++ [u]) units = answer o_len out (u :: units).
Proof. unfold answer. rewrite <- app_assoc, length_app. cbn [length app]. by replace (length out + 1 + length units)%nat with (length out + S (length units))%nat by lia. Qed.

Lemma answer_toobig o_len out units : o_len < 2 * Z.of_nat (length out + length units) + 2 -> answer o_len out units = TooBig.
Proof. intros H. unfold answer. by rewrite (proj2 (Z.leb_gt _ _)). Qed.

Lemma compose_nonempty n b rest : compose (S n) b rest <> [] \/ (n < length rest)%nat.
Proof.
  revert b rest. induction n as [|n IH]; intros b rest; cbn [compose]; (destruct rest as [|c rest]; [by left|]); [right; cbn; lia|].
  destruct (join b c rest); [|by left..]. destruct (IH b0 rest) as [?|?]; [by left|right; cbn; lia].
Qed.

Lemma precompose_loop_exact o_len : Z.even o_len = true -> forall fuel b rest out,
  (length rest < fuel)%nat -> 2 * Z.of_nat (length out) <= o_len ->
  precompose_loop fuel o_len b rest out (o_len - 2 * Z.of_nat (length out)) = Ok (answer o_len out (compose fuel b rest)).
Proof.
  intros He. assert (exists h, o_len = 2 * h) as [h Hh] by (apply Z.even_spec in He as [h ->]; eauto).
  induction fuel as [|fuel IH]; intros b rest out Hf Ho; [lia|].
  destruct (compose_nonempty fuel b rest) as [Hne|?]; [|lia]. cbn [precompose_loop]. case_test.
  { rewrite answer_toobig; [done|]. destruct (compose (S fuel) b rest); [done|]. cbn [length]. lia. }
  cbn [compose]. destruct rest as [|c rest].
  { rewrite store_fits by lia. cbn [mbind res_bind]. rewrite store_fits by (rewrite length_app; cbn [length]; lia). cbn [mbind res_bind]. unfold answer. cbn [length].
    rewrite (proj2 (Z.leb_le _ _)) by lia. do 2 f_equal. lia. }
  cbn in Hf. destruct (join b c rest) as [b'|p rest'|] eqn:Hj.
  - apply IH; lia.
  - apply join_length in Hj. rewrite store_fits by lia. cbn [mbind res_bind]. case_test.
    { rewrite answer_toobig; [done|]. cbn [length]. lia. }
    rewrite store_fits by (rewrite length_app; cbn [length]; lia). cbn [mbind res_bind].
    assert (forall l, answer o_len ((out ++ [Z.shiftr p 16]) ++ [Z.land p 0xFFFF]) l = answer o_len out (Z.shiftr p 16 :: Z.land p 0xFFFF :: l)) as Eans
      by (intros l; by rewrite !answer_step).
    destruct rest' as [|b' rest'].
    + rewrite store_fits by (rewrite !length_app; cbn [length]; lia). cbn [mbind res_bind]. rewrite <- Eans. unfold answer.
      rewrite !length_app. cbn [length]. rewrite (proj2 (Z.leb_le _ _)) by lia. rewrite app_nil_r. do 2 f_equal. lia.
    + cbn in Hj. rewrite <- Eans, <- IH by (rewrite ?length_app; cbn [length]; lia). f_equal. rewrite !length_app. cbn [length]. lia.
  - rewrite store_fits by lia. cbn [mbind res_bind]. rewrite <- answer_step, <- IH by (rewrite ?length_app; cbn [length]; lia).
    f_equal. rewrite length_app. cbn [length]. lia.
Qed.

Lemma store_all_ok o_len us : forall out, 2 * Z.of_nat (length out + length us) <= o_len -> store_all o_len out us = Ok (out ++ us).
Proof.
  induction us as [|u us IH]; intros out H; cbn [store_all]; [by rewrite app_nil_r|]. cbn [length] in H.
  rewrite store_fits by lia. cbn [mbind res_bind]. rewrite IH by (rewrite length_app; cbn [length]; lia). by rewrite <- app_assoc.
Qed.

(** The store of a character, and what follows it. *)
Lemma finish_exact o_len us out (next : list Z -> Z -> res converted) more :
  2 * Z.of_nat (length out) <= o_len -> us <> [] ->
  (2 * Z.of_nat (length out + length us) + 2 <= o_len ->
     next (out ++ us) (o_len - 2 * Z.of_nat (length (out ++ us))) = Ok (answer o_len (out ++ us) more)) ->
  (if o_len - 2 * Z.of_nat (length out) <? Z.shiftl (Z.of_nat (length us) + 1) 1 then Ok TooBig else
     out' ← store_all o_len out us; next out' (o_len - 2 * Z.of_nat (length out) - 2 * Z.of_nat (length us))) = Ok (answer o_len out (us ++ more)).
Proof.
  intros Ho Hne Hnext. rewrite Z.shiftl_mul_pow2 by lia. case_test.
  - rewrite answer_toobig; [done|]. rewrite length_app. destruct us; [done|]. cbn [length] in *. lia.
  - rewrite store_all_ok by lia. cbn [mbind res_bind]. rewrite length_app in Hnext.
    replace (o_len - 2 * Z.of_nat (length out) - 2 * Z.of_nat (length us)) with (o_len - 2 * Z.of_nat (length out + length us)) by lia.
    rewrite Hnext by lia. f_equal. unfold answer. rewrite <- app_assoc, !length_app, Nat.add_assoc. done.
Qed.

Lemma finish_char o_len b combs out (next : list Z -> Z -> res converted) more outlen :
  outlen = o_len - 2 * Z.of_nat (length out) -> 2 * Z.of_nat (length out) <= o_len ->
  (2 * Z.of_nat (length out + length (b :: combs)) + 2 <= o_len ->
     next (out ++ b :: combs) (o_len - 2 * Z.of_nat (length (out ++ b :: combs))) = Ok (answer o_len (out ++ b :: combs) more)) ->
  (if outlen <? Z.shiftl (Z.of_nat (length combs) + 2) 1 then Ok TooBig else
     out' ← store_all o_len out (b :: combs); next out' (outlen - 2 * (Z.of_nat (length combs) + 1))) = Ok (answer o_len out ((b :: combs) ++ more)).
Proof.
  intros -> Ho Hnext. rewrite <- (finish_exact o_len (b :: combs) out next more Ho ltac:(done) Hnext). cbn [length].
  replace (Z.of_nat (S (length combs))) with (Z.of_nat (length combs) + 1) by lia.
  replace (Z.of_nat (length combs) + 1 + 1) with (Z.of_nat (length combs) + 2) by lia. done.
Qed.

Lemma decompose_loop_exact o_len n : forall rest out,
  (length rest <= n)%nat -> 2 * Z.of_nat (length out) <= o_len -> (rest = [] -> 2 * Z.of_nat (length out) + 2 <= o_len) ->
  decompose_loop o_len rest out (o_len - 2 * Z.of_nat (length out)) = Ok (answer o_len out (dec rest)).
Proof.
  induction n as [|n IH]; intros rest out Hn Ho He; destruct rest as [|b rest]; try (cbn in Hn; lia).
  1, 2: cbn [decompose_loop dec]; rewrite store_fits by auto; cbn [mbind res_bind]; unfold answer; cbn [length];
    rewrite Nat.add_0_r, (proj2 (Z.leb_le _ _)), app_nil_r by auto; done.
  cbn in Hn. cbn [decompose_loop dec]. cbv zeta. destruct (is_high b) eqn:Hh.
  - destruct rest as [|lo rest].
    + change [b] with ([b] ++ dec []). apply (finish_char o_len b []); [done..|]. intros H. apply IH; [cbn; lia| |]; rewrite length_app; cbn [length] in *; lia.
    + unfold dec_pair. destruct (decompose_pair 2 (pair b lo) []) as [p combs]. cbn in Hn. rewrite Z.shiftl_mul_pow2 by lia. case_test.
      { rewrite answer_toobig; [done|]. rewrite length_app. cbn [length]. lia. }
      rewrite store_fits by lia. cbn [mbind res_bind]. cbn [app]. rewrite <- answer_step. change (?x :: ?y ++ ?z) with ((x :: y) ++ z).
      apply (finish_char o_len (Z.land p 0xFFFF) combs); [rewrite length_app; cbn [length]; lia..|].
      intros H. apply IH; [lia| |]; rewrite !length_app in *; cbn [length] in *; lia.
  - unfold dec_unit. destruct (decompose_unit b) as [b' combs]. apply finish_char; [done..|].
    intros H. apply IH; [lia| |]; rewrite !length_app in *; cbn [length] in *; lia.
Qed.

Lemma input_ok name inplen : inplen <= 2 * Z.of_nat (length name) -> input name inplen = Ok (take (Z.to_nat (inplen / 2)) name).
Proof. intros H. unfold input. by rewrite (proj2 (Z.ltb_ge _ _)). Qed.

Lemma odd_bit z : negb (Z.land z 1 =? 0) = Z.odd z.
Proof.
  change 1 with (Z.ones 1). rewrite Z.land_ones, Zmod_odd by lia. by destruct (Z.odd z).
Qed.

Lemma precompose_w_units name inplen outlen :
  Z.even outlen = true -> 0 <= inplen <= 2 * Z.of_nat (length name) ->
  precompose_w name inplen outlen =
    Ok (if (inplen =? 0) || Z.odd inplen || (outlen <? inplen) then Refused else answer outlen [] (composed (take (Z.to_nat (inplen / 2)) name))).
Proof.
  intros He Hi. unfold precompose_w. rewrite odd_bit. destruct ((inplen =? 0) || Z.odd inplen || (outlen <? inplen)) eqn:E; [done|].
  rewrite input_ok by lia. cbn [mbind res_bind].
  assert (inplen <> 0 /\ Z.odd inplen = false /\ inplen <= outlen) as (H0 & H1 & H2) by (destruct (Z.odd inplen); lia).
  assert (exists h, inplen = 2 * h) as [h ->] by (rewrite <- Z.negb_even, negb_false_iff in H1; apply Z.even_spec in H1 as [h ->]; eauto).
  replace (2 * h / 2) with h by zmod. destruct (take (Z.to_nat h) name) as [|b rest] eqn:Et.
  { apply (f_equal length) in Et. rewrite length_take in Et. cbn in Et. lia. }
  pose proof (precompose_loop_exact outlen He (length (b :: rest)) b rest [] ltac:(cbn; lia) ltac:(cbn; lia)) as H.
  cbn [length] in H. rewrite Z.mul_0_r, Z.sub_0_r in H. exact H.
Qed.

Lemma decompose_w_units name inplen outlen :
  0 <= outlen -> 0 <= inplen <= 2 * Z.of_nat (length name) ->
  decompose_w name inplen outlen =
    Ok (if (inplen =? 0) || Z.odd inplen then Refused else answer outlen [] (dec (take (Z.to_nat (inplen / 2)) name))).
Proof.
  intros Ho Hi. unfold decompose_w. rewrite odd_bit. destruct ((inplen =? 0) || Z.odd inplen) eqn:E; [done|].
  rewrite input_ok by lia. cbn [mbind res_bind].
  assert (inplen <> 0 /\ Z.odd inplen = false) as (H0 & H1) by (destruct (Z.odd inplen); lia).
  assert (exists h, inplen = 2 * h) as [h ->] by (rewrite <- Z.negb_even, negb_false_iff in H1; apply Z.even_spec in H1 as [h ->]; eauto).
  replace (2 * h / 2) with h by zmod.
  pose proof (decompose_loop_exact outlen (length (take (Z.to_nat h) name)) (take (Z.to_nat h) name) []) as H.
  cbn [length] in H. rewrite Z.mul_0_r, Z.sub_0_r in H. apply H; [done|done|].
  intros Et. apply (f_equal length) in Et. rewrite length_take in Et. cbn in Et. lia.
Qed.

(** ** Strings that composition leaves alone *)

(** No character joins the beginning of the decomposition of what follows it. *)
Fixpoint settled (s : list Z) : bool :=
  match s with
  | [] => true
  | u :: rest =>
      if is_high u then
        match rest with
        | lo :: rest' =>
            match dec rest' with c1 :: c2 :: _ => do_precomposition_sp (pair u lo) (pair c1 c2) =? 0 | _ => true end && settled rest'
        | [] => true
        end
      else match dec rest with c :: _ => match join u c [] with Join _ => false | _ => true end | [] => true end && settled rest
  end.

Lemma dec_nonempty s : s <> [] -> dec s <> [].
Proof.
  destruct s as [|b rest]; [done|]. intros _. cbn [dec]. destruct (is_high b).
  - destruct rest as [|lo rest]; [done|]. unfold dec_pair. by destruct (decompose_pair _ _ _).
  - unfold dec_unit. by destruct (decompose_unit b).
Qed.

Lemma join_rest b c rest : is_high b = false -> join b c rest = join b c [].
Proof. intros H. unfold join. by rewrite H. Qed.

Lemma composed_dec n : forall s, (length s <= n)%nat -> wf s = true -> settled s = true -> composed (dec s) = s.
Proof.
  induction n as [|n IH]; intros s Hn Hw Hs; (destruct s as [|u rest]; [done|]); [cbn in Hn; lia|]. cbn in Hn.
  pose proof (wf_cons _ _ Hw) as [Uu [(Hh & lo & rest' & -> & Hl & Hw')|(Hh & Hl & Hw')]]; cbn [settled] in Hs; rewrite Hh in Hs; apply andb_true_iff in Hs as [Hj Hs].
  - cbn in Hn. specialize (IH rest' ltac:(lia) Hw' Hs). rewrite dec_surrogates by done. set (p := pair u lo) in *.
    assert (unit16 lo) as Ul by (apply is_low_range in Hl; unfold unit16; lia).
    pose proof (is_pair_pair u lo Hh Hl) as Hp. fold p in Hp. destruct (dec_pair p) as [|h0 [|l0 cs]] eqn:Ed;
      [unfold dec_pair in Ed; by destruct (decompose_pair 2 p [])..|].
    destruct (compose_pairs_back _ p eq_refl Hp h0 l0 cs (dec rest') Ed) as (K1 & K2 & K3 & K4 & K5 & K6).
    unfold is_pair in K1. rewrite pair_hi, pair_lo in K1 by done. apply andb_true_iff in K1 as [Hh0 Hl0].
    apply is_high_range in Hh0 as Rh. apply is_low_range in Hl0 as Rl. cbn [app composed]. rewrite comp_cons.
    assert (join h0 l0 (cs ++ dec rest') = if 2 <=? Z.of_nat (length (cs ++ dec rest')) then let '(p, r) := compose_pairs (pair h0 l0) (cs ++ dec rest') in Pair p r else Apart) as ->.
    { unfold join, VBASE, VCOUNT, TBASE, TCOUNT. do 3 (case_test; [lia|]). by rewrite Hh0, Hl0. }
    case_test.
    + assert (compose_pairs p (dec rest') = (p, dec rest')) as E2.
      { destruct (dec rest') as [|c1 [|c2 X]]; [done..|]. cbn [compose_pairs]. by rewrite Hj. }
      rewrite K4, E2. subst p. rewrite pair_hi, pair_lo, IH by done. done.
    + rewrite length_app in *. destruct cs as [|x [|]]; [|cbn in K6; lia|cbn [length] in *; lia].
      specialize (K5 eq_refl). assert (h0 = u /\ l0 = lo) as [-> ->].
      { pose proof (pair_hi h0 l0 K2 K3). pose proof (pair_lo h0 l0 K2 K3). subst p. rewrite K5, pair_hi, pair_lo in * by done. done. }
      cbn [app length] in *. destruct (dec rest') as [|x [|]] eqn:Ex; [|cbn [length] in *|cbn [length] in *; lia].
      * cbn [composed] in IH. by subst rest'.
      * cbn [composed] in IH. rewrite comp_nil in IH. subst rest'. apply wf_cons in Hw' as [Ux _]. rewrite comp_low by done. by rewrite comp_nil.
  - specialize (IH rest ltac:(lia) Hw' Hs). rewrite dec_plain by done. destruct (dec_unit u) as [|b cs] eqn:Ed; [unfold dec_unit in Ed; by destruct (decompose_unit u)|].
    cbn [app composed]. rewrite (comp_unit _ u eq_refl Uu Hh b cs (dec rest) Ed). destruct (dec rest) as [|c X] eqn:Ex.
    + destruct rest as [|x rest]; [done|]. by destruct (dec_nonempty (x :: rest)).
    + rewrite comp_cons, join_rest by done. cbn [composed] in IH. destruct (join u c []) as [|p X'|] eqn:Ej; [done| |by rewrite IH].
      exfalso. revert Ej. unfold join. rewrite Hh. repeat case_match; done.
Qed.

Lemma composed_nonempty s : s <> [] -> composed s <> [].
Proof. destruct s as [|b rest]; [done|]. intros _. cbn [composed]. destruct (compose_nonempty (length rest) b rest); [done|lia]. Qed.

(** The whole of a list as the input of a call. *)
Definition bytes_of (s : list Z) : Z := 2 * Z.of_nat (length s).

Lemma whole_units s : s <> [] -> (bytes_of s =? 0) || Z.odd (bytes_of s) = false /\ take (Z.to_nat (bytes_of s / 2)) s = s.
Proof.
  intros H. unfold bytes_of. split.
  - rewrite Z.odd_mul. change (Z.odd 2) with false. rewrite andb_false_l, orb_false_r. apply Z.eqb_neq. destruct s; [done|]. cbn [length]. lia.
  - rewrite Z.mul_comm, Z.div_mul by lia. rewrite Nat2Z.id. apply firstn_all.
Qed.

(** ** Claims *)

(** Both converters stay inside their buffers whatever the input: they refuse an odd or
    an empty input, and otherwise write exactly the composition or the decomposition of
    the units, with the space left, when it fits with its terminating NUL, and answer
    E2BIG exactly when it does not. *)
Theorem converters_exact name inplen outlen :
  Z.even outlen = true -> 0 <= outlen -> 0 <= inplen <= 2 * Z.of_nat (length name) ->
  let units := take (Z.to_nat (inplen / 2)) name in
  precompose_w name inplen outlen =
    Ok (if (inplen =? 0) || Z.odd inplen || (outlen <? inplen) then Refused else answer outlen [] (composed units)) /\
  decompose_w name inplen outlen = Ok (if (inplen =? 0) || Z.odd inplen then Refused else answer outlen [] (dec units)).
Proof. intros He Ho Hi units. split; [by apply precompose_w_units|by apply decompose_w_units]. Qed.

Lemma converters_exact_witness :
  precompose_w [0x41; 0x300] 4 4 = Ok (Done [0xC0] 2) /\ decompose_w [0xC0; 0x42] 4 6 = Ok TooBig.
Proof.
  split.
  - rewrite (proj1 (converters_exact [0x41; 0x300] 4 4 eq_refl ltac:(lia) ltac:(cbn; lia))). vm_compute. reflexivity.
  - rewrite (proj2 (converters_exact [0xC0; 0x42] 4 6 eq_refl ltac:(lia) ltac:(cbn; lia))). vm_compute. reflexivity.
Defined.

(** C28: Given the room, composing what [decompose_w] made of a text gives the text back,
    when no character of it joins the beginning of the decomposition of the next. *)
Theorem recomposition s o1 o2 :
  s <> [] -> wf s = true -> settled s = true -> bytes_of (dec s) + 2 <= o1 -> bytes_of (dec s) + 2 <= o2 -> bytes_of s + 2 <= o2 -> Z.even o2 = true ->
  exists d l1 l2, decompose_w s (bytes_of s) o1 = Ok (Done d l1) /\ precompose_w d (bytes_of d) o2 = Ok (Done s l2).
Proof.
  intros Hne Hw Hs H1 H2 H3 He. exists (dec s). destruct (whole_units s Hne) as [W1 W2].
  destruct (whole_units (dec s) (dec_nonempty s Hne)) as [V1 V2]. unfold bytes_of in H1, H2, H3.
  rewrite decompose_w_units, W1, W2 by (unfold bytes_of; lia). rewrite precompose_w_units, V1, V2 by (done || unfold bytes_of; lia).
  rewrite (composed_dec (length s) s) by done. unfold answer. cbn [length app Nat.add orb].
  rewrite !(proj2 (Z.leb_le _ _)) by lia. rewrite (proj2 (Z.ltb_ge _ _)) by (unfold bytes_of; lia). eauto.
Qed.

(** A, E with two accents, a Hangul syllable, a note with its flag. *)
Definition sample_text : list Z := [0x41; 0x1EBE; 0xD55C; 0xD834; 0xDD60; 0x61].

Lemma recomposition_witness :
  exists d l1 l2, decompose_w sample_text 12 64 = Ok (Done d l1) /\ precompose_w d (bytes_of d) 64 = Ok (Done sample_text l2).
Proof.
  apply (recomposition sample_text 64 64); [discriminate|vm_compute; reflexivity|vm_compute; reflexivity|vm_compute; discriminate..|reflexivity].
Defined.

(** Composition changes the form of a text only: without the unit U+1176, what
    [precompose_w] writes has the decomposition of its input. *)
Theorem precompose_keeps_text s o c l o' :
  wf s = true -> VBASE + VCOUNT ∉ s -> s <> [] -> Z.even o = true -> 0 <= o' ->
  precompose_w s (bytes_of s) o = Ok (Done c l) -> decompose_w c (bytes_of c) o' = decompose_w s (bytes_of s) o'.
Proof.
  intros Hw Hv Hne He Ho Hp. destruct (whole_units s Hne) as [W1 W2].
  rewrite precompose_w_units, W1, W2 in Hp by (done || unfold bytes_of; lia). unfold answer in Hp. cbn [orb] in Hp.
  destruct (o <? bytes_of s); [done|]. destruct (_ <=? o); [|done]. injection Hp as <- _. cbn [app]. destruct (whole_units _ (composed_nonempty s Hne)) as [V1 V2].
  rewrite !decompose_w_units, W1, W2, V1, V2 by (unfold bytes_of; lia). do 2 f_equal.
  destruct s as [|b rest]; [done|]. cbn [composed]. apply (comp_dec (length rest)); [lia|done|set_solver].
Qed.

Lemma precompose_keeps_text_witness :
  exists c l, precompose_w [0x65; 0x302; 0x301; 0x62] 8 20 = Ok (Done c l) /\
    decompose_w c (bytes_of c) 20 = decompose_w [0x65; 0x302; 0x301; 0x62] 8 20.
Proof.
  exists [0x1EBF; 0x62], 16. split; [vm_compute; reflexivity|].
  apply (precompose_keeps_text [0x65; 0x302; 0x301; 0x62] 20 [0x1EBF; 0x62] 16 20);
    [vm_compute; reflexivity| |discriminate|reflexivity|discriminate|vm_compute; reflexivity].
  apply (bool_decide_unpack _). vm_compute. exact I.
Defined.

(** The vowel range of the Hangul composition includes U+1176, which is no vowel of a
    syllable: a leading consonant with it becomes the syllable of another consonant. *)
Theorem hangul_vowel_bound :
  precompose_w [0x1100; 0x1176] 4 8 = Ok (Done [0xAE4C] 6) /\ decompose_w [0xAE4C] 2 8 = Ok (Done [0x1101; 0x1161] 4).
Proof. split; vm_compute; reflexivity. Qed.

(** The rows of the table for U+105C9 and U+105E4 spell the combining character U+0307
    as a surrogate pair: their decomposition is no text. *)
Theorem decompose_malformed :
  wf [0xD801; 0xDDC9] = true /\ decompose_w [0xD801; 0xDDC9] 4 12 = Ok (Done [0xD801; 0xDDD2; 0xD7C0; 0xDF07] 4) /\
  wf [0xD801; 0xDDD2; 0xD7C0; 0xDF07] = false.
Proof. split_and!; vm_compute; reflexivity. Qed.
