(* ===== verification/UnicodeCase.v ===== *)
(** * Unicode strings: case and comparison

    [strcasecmp_w] decides whether two texts have the same lowercase form. *)

From S2P Require Import Prelude Bytes UnicodeTables Unicode UnicodeFacts UnicodeCompose.

(** ** The tables *)

(** The ranges of the lowercase tables. *)
Definition lower_ranges : list (Z * Z) :=
  [(0, 0x007F); (0x00C0, 0x027F); (0x0340, 0x057F); (0x1080, 0x10FF); (0x1380, 0x13FF); (0x1C80, 0x1CBF); (0x1E00, 0x1FFF); (0x2100, 0x21BF); (0x2480, 0x24FF); (0x2C00, 0x2CFF); (0xA640, 0xA6BF); (0xA700, 0xA7FF); (0xFF00, 0xFF3F)].
Definition lower_ranges_sp : list (Z * Z) :=
  [(0xD801DC00, 0xD801DC3F); (0xD801DC80, 0xD801DCFF); (0xD801DD40, 0xD801DD7F); (0xD801DD40, 0xD801DDBF); (0xD803DC80, 0xD803DCBF); (0xD803DD40, 0xD803DD7F); (0xD806DC80, 0xD806DCBF); (0xD81BDE40, 0xD81BDE7F); (0xD81BDE40, 0xD81BDEBF); (0xD83ADD00, 0xD83ADD3F)].

Definition outside (rs : list (Z * Z)) (v : Z) : bool := forallb (fun r => (v <? r.1) || (r.2 <? v)) rs.
Definition members (rs : list (Z * Z)) : list Z := r ← rs; seqZ r.1 (r.2 - r.1 + 1).

Lemma outside_or_member rs v : outside rs v = true \/ v ∈ members rs.
Proof.
  induction rs as [|[lo hi] rs IH]; [by left|]. cbn [outside forallb members mbind list_bind fst snd]. fold (outside rs v) (members rs).
  destruct (decide (lo <= v <= hi)) as [H|H].
  - right. apply elem_of_app. left. apply elem_of_seqZ. lia.
  - destruct IH as [->|IH]; [left; lia|right; apply elem_of_app; by right].
Qed.

Ltac outside_tests := intros H; cbn [outside forallb fst snd] in H; rewrite !andb_true_iff in H;
  repeat match type of H with _ /\ _ => let K := fresh "K" in destruct H as [K H] end; repeat (case_test; [lia|]); done.

Lemma tolower_w_outside v : 0 <= v -> outside lower_ranges v = true -> tolower_w v = v.
Proof. intros Hv. unfold tolower_w, lower_ranges. outside_tests. Qed.

Lemma tolower_sp_outside v : outside lower_ranges_sp v = true -> tolower_sp v = v.
Proof. unfold tolower_sp, lower_ranges_sp. outside_tests. Qed.

(** A property of a unit and its lowercase form, by computation over the ranges. *)
Lemma tolower_w_check (P : Z -> Z -> bool) :
  forallb (fun v => P v (tolower_w v)) (members lower_ranges) = true ->
  forall v, 0 <= v -> P v v = true -> P v (tolower_w v) = true.
Proof.
  intros H v Hv Hp. destruct (outside_or_member lower_ranges v) as [Ho|Hm]; [by rewrite tolower_w_outside|].
  exact (forallb_elem _ _ _ H Hm).
Qed.

Lemma tolower_sp_check (P : Z -> Z -> bool) :
  forallb (fun v => P v (tolower_sp v)) (members lower_ranges_sp) = true ->
  forall v, P v v = true -> P v (tolower_sp v) = true.
Proof.
  intros H v Hp. destruct (outside_or_member lower_ranges_sp v) as [Ho|Hm]; [by rewrite tolower_sp_outside|].
  exact (forallb_elem _ _ _ H Hm).
Qed.

(** A unit of a text that is no surrogate. *)
Definition plain (u : Z) : bool := (0 <? u) && (u <? 2 ^ 16) && negb ((0xD800 <=? u) && (u <? 0xE000)).

Lemma tolower_w_plain u : plain u = true -> plain (tolower_w u) = true.
Proof.
  intros H. assert (0 <= u) as H0 by (unfold plain in H; lia).
  pose proof (tolower_w_check (fun v w => negb (plain v) || plain w) ltac:(vm_compute; reflexivity) u H0) as K. cbn in K.
  rewrite H in K. by apply K.
Qed.

Lemma tolower_sp_pair p : is_pair p = true -> is_pair (tolower_sp p) = true.
Proof.
  intros H. pose proof (tolower_sp_check (fun v w => negb (is_pair v) || is_pair w) ltac:(vm_compute; reflexivity) p) as K. cbn in K.
  rewrite H in K. by apply K.
Qed.

Lemma tolower_w_surrogate u : 0xD800 <= u < 0xE000 -> tolower_w u = u.
Proof. intros H. apply tolower_w_outside; [lia|]. unfold outside, lower_ranges. cbn [forallb fst snd]. lia. Qed.

Lemma tolower_sp_no_pair p : is_high (Z.shiftr p 16) = false -> tolower_sp p = p.
Proof.
  intros H. destruct (outside_or_member lower_ranges_sp p) as [Ho|Hm]; [by apply tolower_sp_outside|].
  pose proof (forallb_elem (fun v => is_high (Z.shiftr v 16)) (members lower_ranges_sp) p ltac:(vm_compute; reflexivity) Hm) as K. cbn in K. congruence.
Qed.

Lemma tolower_w_idem u : 0 <= u -> tolower_w (tolower_w u) = tolower_w u.
Proof.
  intros H. destruct (outside_or_member lower_ranges u) as [Ho|Hm]; [by rewrite !(tolower_w_outside u)|].
  apply Z.eqb_eq. exact (forallb_elem (fun v => tolower_w (tolower_w v) =? tolower_w v) (members lower_ranges) u ltac:(vm_compute; reflexivity) Hm).
Qed.

Lemma tolower_sp_idem p : tolower_sp (tolower_sp p) = tolower_sp p.
Proof.
  destruct (outside_or_member lower_ranges_sp p) as [Ho|Hm]; [by rewrite !(tolower_sp_outside p)|].
  apply Z.eqb_eq. exact (forallb_elem (fun v => tolower_sp (tolower_sp v) =? tolower_sp v) (members lower_ranges_sp) p ltac:(vm_compute; reflexivity) Hm).
Qed.

(** ** Lowercase forms *)

Fixpoint lowered (s : list Z) : list Z :=
  match s with
  | [] => []
  | u :: rest =>
      if is_high u then
        match rest with
        | lo :: rest' => let v := tolower_sp (pair u lo) in Z.shiftr v 16 :: Z.land v 0xFFFF :: lowered rest'
        | [] => [u]
        end
      else tolower_w u :: lowered rest
  end.

(** A text without its terminating NUL. *)
Definition text (s : list Z) : Prop := wf s = true /\ 0 ∉ s.

Lemma text_cons u rest : text (u :: rest) ->
  (exists lo rest', rest = lo :: rest' /\ is_high u = true /\ is_low lo = true /\ text rest') \/
  (is_high u = false /\ plain u = true /\ text rest).
Proof.
  intros [Hw H0]. apply wf_cons in Hw as [Hu [(Hh & lo & rest' & -> & Hl & Hw)|(Hh & Hl & Hw)]]; [left|right].
  - exists lo, rest'. split_and!; try done. split; [done|set_solver].
  - split; [done|]. split; [|split; [done|set_solver]]. assert (u <> 0) by set_solver. unfold plain, is_high, is_low, unit16 in *. lia.
Qed.

Lemma surrogate_units u lo : is_high u = true -> is_low lo = true -> unit16 u /\ unit16 lo.
Proof. rewrite is_high_range, is_low_range. unfold unit16. lia. Qed.

Lemma strlower_lowered n : forall s, (length s <= n)%nat -> text s -> (strlower_w s).1 = lowered s.
Proof.
  induction n as [|n IH]; intros s Hn Ht; (destruct s as [|u rest]; [done|]); [cbn in Hn; lia|]. cbn in Hn.
  destruct (text_cons _ _ Ht) as [(lo & rest' & -> & Hh & Hl & Ht')|(Hh & Hp & Ht')]; unfold strlower_w in *; cbn [change_w lowered]; rewrite Hh.
  - cbn in Hn. rewrite Hl. destruct (surrogate_units u lo Hh Hl) as [Uu Ul]. destruct (Z.eqb_spec (tolower_sp (pair u lo)) (pair u lo)) as [->|Hne].
    + apply is_low_range in Hl as Rl. rewrite pair_hi, pair_lo by done. cbn [negb].
      assert (is_high lo = false) as -> by (apply not_true_is_false; rewrite is_high_range; lia).
      rewrite (tolower_w_surrogate lo) by lia. rewrite Z.eqb_refl. cbn [negb]. specialize (IH rest' ltac:(lia) Ht').
      destruct (change_w _ _ rest'). cbn in *. by rewrite IH.
    + cbn [negb fst]. by rewrite IH by (lia || done).
  - specialize (IH rest ltac:(lia) Ht'). destruct (change_w _ _ rest) as [r c]. cbn [fst] in IH. rewrite <- IH.
    destruct (Z.eqb_spec (tolower_w u) u) as [->|]; done.
Qed.

Lemma i32_zero x y : 0 <= x < 2 ^ 32 -> 0 <= y < 2 ^ 32 -> i32 (x - y) = 0 <-> x = y.
Proof.
  intros Hx Hy. unfold i32, wrap. split; [|intros ->; by rewrite Z.sub_diag].
  destruct (Z.ltb_spec ((x - y) mod 2 ^ 32) (2 ^ 31)); zmod.
Qed.

Lemma plain_not_pair y lo : plain y = true -> unit16 lo -> is_high (Z.shiftr (pair y lo) 16) = false.
Proof. intros Hy Hl. unfold plain in Hy. rewrite pair_hi by (unfold unit16 in *; lia). unfold is_high. lia. Qed.

Lemma hd0_unit s : text s -> unit16 (hd0 s).
Proof. intros [Hw _]. destruct s as [|u s]; [unfold unit16; cbn; lia|]. by apply wf_cons in Hw as [? _]. Qed.

Lemma tolower_end s : text s -> tolower_w 0 - tolower_w (hd0 s) = 0 -> s = [].
Proof.
  intros Ht. change (tolower_w 0) with 0. destruct s as [|u s]; [done|]. intros H. exfalso. cbn [hd0 hd] in H.
  destruct (text_cons _ _ Ht) as [(lo & rest' & -> & Hh & _)|(_ & Hp & _)].
  - apply is_high_range in Hh. rewrite tolower_w_surrogate in H by lia. lia.
  - apply tolower_w_plain in Hp. unfold plain in Hp. lia.
Qed.

Lemma lowered_nil s : text s -> lowered s = [] <-> s = [].
Proof.
  intros Ht. split; [|by intros ->]. destruct s as [|u s]; [done|].
  destruct (text_cons _ _ Ht) as [(lo & rest' & -> & Hh & _)|(Hh & _)]; cbn [lowered]; by rewrite Hh.
Qed.

Lemma pair_inj p q : 0 <= p < 2 ^ 32 -> 0 <= q < 2 ^ 32 -> Z.shiftr p 16 = Z.shiftr q 16 -> Z.land p 0xFFFF = Z.land q 0xFFFF -> p = q.
Proof. intros Hp Hq H1 H2. rewrite <- (proj1 (pair_split p Hp)), <- (proj1 (pair_split q Hq)). congruence. Qed.

Lemma strcasecmp_lowered n : forall a b, (length a <= n)%nat -> text a -> text b -> strcasecmp_w a b = 0 <-> lowered a = lowered b.
Proof.
  induction n as [|n IH]; intros a b Hn Ha Hb.
  { destruct a; [|cbn in Hn; lia]. split; [|intros H; symmetry in H; by apply lowered_nil in H as ->].
    intros H. rewrite (tolower_end b Hb); [done|]. by destruct b. }
  destruct a as [|x a].
  { split; [|intros H; symmetry in H; by apply lowered_nil in H as ->]. intros H. rewrite (tolower_end b Hb); [done|]. by destruct b. }
  destruct b as [|y b].
  { split; [|intros H; by apply (lowered_nil _ Ha) in H]. intros H. assert (x :: a = []) as E; [|done]. apply tolower_end; [done|].
    cbn [strcasecmp_w hd0 hd] in *. lia. }
  cbn in Hn. cbn [strcasecmp_w].
  destruct (text_cons _ _ Ha) as [(lo & a' & -> & Hh & Hl & Ha')|(Hh & Hp & Ha')]; rewrite Hh; cbn [lowered]; rewrite Hh.
  - destruct (surrogate_units x lo Hh Hl) as [Ux Ul]. pose proof (is_pair_pair x lo Hh Hl) as Hpa. apply tolower_sp_pair in Hpa.
    pose proof Hpa as (R1 & R2 & R3)%is_pair_range. cbn [hd0 hd].
    destruct (text_cons _ _ Hb) as [(lo' & b' & -> & Hh' & Hl' & Hb')|(Hh' & Hp' & Hb')]; rewrite Hh'.
    + cbn in Hn. pose proof (is_pair_pair y lo' Hh' Hl') as Hpb. apply tolower_sp_pair in Hpb. pose proof Hpb as (S1 & S2 & S3)%is_pair_range.
      cbn [hd0 hd]. destruct (Z.eqb_spec (i32 (tolower_sp (pair x lo) - tolower_sp (pair y lo'))) 0) as [E|E]; cbn [negb].
      * apply (proj1 (i32_zero _ _ R3 S3)) in E. rewrite E, (IH a' b') by (lia || done). split; [by intros ->|by intros [= ->]].
      * split; [done|]. intros [= E1 E2 _]. destruct E. apply (proj2 (i32_zero _ _ R3 S3)). by apply pair_inj.
    + rewrite (tolower_sp_no_pair (pair y _)) by (apply plain_not_pair; [done|by apply hd0_unit]).
      pose proof (plain_not_pair y (hd0 b) Hp' (hd0_unit b Hb')) as Hnp. assert (unit16 y) as Uy by (unfold plain in Hp'; unfold unit16; lia).
      assert (0 <= pair y (hd0 b) < 2 ^ 32) as Ry by (pose proof (hd0_unit b Hb'); rewrite pair_eq by done; unfold unit16 in *; lia).
      assert (tolower_sp (pair x lo) <> pair y (hd0 b)) as Hne by (intros E; rewrite <- E in Hnp; unfold is_high in Hnp; lia).
      rewrite <- (i32_zero _ _ R3 Ry) in Hne. rewrite (proj2 (Z.eqb_neq _ 0) Hne). cbn [negb]. split; [done|]. intros [= E _].
      apply tolower_w_plain in Hp'. unfold plain in Hp'. lia.
  - cbn [hd0]. destruct (text_cons _ _ Hb) as [(lo' & b' & -> & Hh' & Hl' & Hb')|(Hh' & Hp' & Hb')]; rewrite Hh'.
    + apply is_high_range in Hh' as R. rewrite (tolower_w_surrogate y) by lia. apply tolower_w_plain in Hp. unfold plain in Hp.
      pose proof (is_pair_pair y lo' Hh' Hl') as Hpb. apply tolower_sp_pair in Hpb. pose proof Hpb as (S1 & S2 & S3)%is_pair_range.
      rewrite (proj2 (Z.eqb_neq _ 0)) by lia. cbn [negb]. split; [lia|]. intros [= E _]. lia.
    + destruct (Z.eqb_spec (tolower_w x - tolower_w y) 0) as [E|E]; cbn [negb].
      * rewrite (IH a b) by (lia || done). assert (tolower_w x = tolower_w y) as -> by lia. split; [by intros ->|by intros [= ->]].
      * split; [done|]. intros [= E' _]. lia.
Qed.

(** ** Claims *)

(** C31: On texts, [strcasecmp_w] answers 0 exactly when [strlower_w] makes the same string
    of both, so it decides an equivalence. *)
Theorem strcasecmp_decides a b : text a -> text b -> strcasecmp_w a b = 0 <-> (strlower_w a).1 = (strlower_w b).1.
Proof. intros Ha Hb. rewrite !(strlower_lowered _ _ (Nat.le_refl _)) by done. by apply (strcasecmp_lowered (length a)). Qed.

Lemma strcasecmp_decides_witness : strcasecmp_w [0x41; 0xD801; 0xDC00; 0xC9] [0x61; 0xD801; 0xDC28; 0xE9] = 0.
Proof.
  apply (strcasecmp_decides [0x41; 0xD801; 0xDC00; 0xC9] [0x61; 0xD801; 0xDC28; 0xE9]); [..|vm_compute; reflexivity].
  - split; [vm_compute; reflexivity|]. apply (bool_decide_unpack _). vm_compute. exact I.
  - split; [vm_compute; reflexivity|]. apply (bool_decide_unpack _). vm_compute. exact I.
Defined.
