(* ===== verification/Vfs.v ===== *)
(** * Vfs

    The file system as the VFS layer of libatalk/vfs sees it: files by directory and
    path, the working directory, [errno], and the answers the kernel and the allocator
    have in store for the next calls.  A call consumes one answer; when none is left
    every call does what the file system allows.  Code that calls the kernel is a
    computation of the monad [M] below, so that each definition keeps the order of the
    calls of the source.  The second part translates the helpers of
    libatalk/vfs/unix.c that the extended attributes use. *)

From S2P Require Import Prelude Bytes.

(** A directory, as a descriptor names it, and a path relative to it. *)
Abbreviation path := (list Z).
Abbreviation fkey := (Z * list Z)%type.

Definition EPERM : Z := 1.
Definition ENOENT : Z := 2.
Definition EINTR : Z := 4.
Definition ENOMEM : Z := 12.
Definition EACCES : Z := 13.
Definition EFAULT : Z := 14.
Definition EROFS : Z := 30.

Definition AFP_OK : Z := 0.
Definition AFPERR_ACCESS : Z := -5000.
Definition AFPERR_NOITEM : Z := -5012.
Definition AFPERR_MISC : Z := -5014.
Definition AFPERR_EXIST : Z := -5017.
Definition AFPERR_PARAM : Z := -5019.
Definition AFPERR_VLOCK : Z := -5031.

(** What a call meets: it is carried out; it fails with an [errno]; or, for a read or a
    write, it moves no more than [n + 1] bytes. *)
Inductive answer : Type :=
  | Fine
  | Errno (e : Z)
  | Short (n : nat).

Record sys := Sys {
  files : gmap fkey (list Z);
  dirs : gset fkey;
  cwd : Z;
  sys_errno : Z;
  answers : list answer
}.

Definition set_files (f : gmap fkey (list Z)) (s : sys) : sys := Sys f (dirs s) (cwd s) (sys_errno s) (answers s).
Definition set_cwd (d : Z) (s : sys) : sys := Sys (files s) (dirs s) d (sys_errno s) (answers s).
Definition set_errno (e : Z) (s : sys) : sys := Sys (files s) (dirs s) (cwd s) e (answers s).
Definition set_answers (l : list answer) (s : sys) : sys := Sys (files s) (dirs s) (cwd s) (sys_errno s) l.

(** ** Computations *)

Definition M (A : Type) : Type := sys -> res (A * sys).

#[export] Instance M_ret : MRet M := fun A a s => Ok (a, s).
#[export] Instance M_bind : MBind M := fun A B f m s =>
  match m s with Ok (a, s') => f a s' | Abort w => Abort w end.

Definition get : M sys := fun s => Ok (s, s).
Definition modify (f : sys -> sys) : M unit := fun s => Ok (tt, f s).
Definition lift {A} (r : res A) : M A := fun s => match r with Ok a => Ok (a, s) | Abort w => Abort w end.
Definition undefined {A} : M A := fun _ => Abort Undefined.

(** [exit(EXITERR_SYS)]. *)
Definition exit_sys {A} : M A := fun _ => Abort Panic.

(** ** The kernel and the allocator *)

(** The answer to the next call. *)
Definition call : M answer := fun s =>
  match answers s with
  | [] => Ok (Fine, s)
  | a :: l => Ok (a, set_answers l s)
  end.

(** A call that either succeeds or fails with an [errno], and has no other effect. *)
Definition attempt : M bool :=
  a ← call;
  match a with
  | Errno e => modify (set_errno e);; mret false
  | _ => mret true
  end.

(** [malloc], [realloc], [strdup] and [strndup]. *)
Definition alloc : M bool :=
  a ← call;
  match a with
  | Errno _ => modify (set_errno ENOMEM);; mret false
  | _ => mret true
  end.

(** The directory a descriptor names, -1 or [AT_FDCWD] for the working directory. *)
Definition at_dir (fd : Z) (s : sys) : Z := if fd =? -1 then cwd s else fd.

(** [open] and [openat] of a regular file; [creat] is [O_CREAT], [trunc] is [O_TRUNC].
    The descriptor is named by the file. *)
Definition sys_openat (fd : Z) (p : path) (creat trunc : bool) : M (option fkey) :=
  ok ← attempt;
  if negb ok then mret None else
  s ← get;
  let k := (at_dir fd s, p) in
  match files s !! k with
  | Some _ => modify (fun s => if trunc then set_files (<[k := []]> (files s)) s else s);; mret (Some k)
  | None => if creat then modify (fun s => set_files (<[k := []]> (files s)) s);; mret (Some k)
            else modify (set_errno ENOENT);; mret None
  end.

(** [stat] and [fstatat]: whether the call succeeds. *)
Definition sys_statat (fd : Z) (p : path) : M bool :=
  ok ← attempt;
  if negb ok then mret false else
  s ← get;
  let k := (at_dir fd s, p) in
  if bool_decide (is_Some (files s !! k) \/ k ∈ dirs s) then mret true
  else modify (set_errno ENOENT);; mret false.

(** [!stat(p, &st) && S_ISDIR(st.st_mode)]. *)
Definition sys_isdir (p : path) : M bool :=
  ok ← sys_statat (-1) p;
  s ← get;
  mret (ok && bool_decide ((cwd s, p) ∈ dirs s)).

(** [unlinkat]. *)
Definition sys_unlinkat (fd : Z) (p : path) : M bool :=
  ok ← attempt;
  if negb ok then mret false else
  s ← get;
  let k := (at_dir fd s, p) in
  match files s !! k with
  | Some _ => modify (fun s => set_files (delete k (files s)) s);; mret true
  | None => modify (set_errno ENOENT);; mret false
  end.

(** [renameat] of regular files. *)
Definition sys_renameat (sfd : Z) (p : path) (dfd : Z) (q : path) : M bool :=
  ok ← attempt;
  if negb ok then mret false else
  s ← get;
  let k := (at_dir sfd s, p) in
  match files s !! k with
  | Some c => modify (fun s => set_files (<[(at_dir dfd s, q) := c]> (delete k (files s))) s);; mret true
  | None => modify (set_errno ENOENT);; mret false
  end.

(** [st_size] of an open file. *)
Definition sys_fstat (k : fkey) : M (option Z) :=
  ok ← attempt;
  if negb ok then mret None else
  s ← get; mret (Some (zlen (default [] (files s !! k)))).

(** [ftruncate(fd, 0)]. *)
Definition sys_ftruncate (k : fkey) : M bool :=
  ok ← attempt;
  if negb ok then mret false else
  modify (fun s => set_files (<[k := []]> (files s)) s);; mret true.

(** [read] of at most [n] bytes at the position [pos]: the bytes, or [None] for -1. *)
Definition sys_read (k : fkey) (pos n : nat) : M (option (list Z)) :=
  a ← call;
  s ← get;
  let avail := take n (drop pos (default [] (files s !! k))) in
  match a with
  | Fine => mret (Some avail)
  | Short m => mret (Some (take (S m) avail))
  | Errno e => modify (set_errno e);; mret None
  end.

(** The content of a file after [bs] was written at [pos], a hole filled with zeros. *)
Definition overwrite (pos : nat) (bs c : list Z) : list Z :=
  take pos (c ++ replicate (pos - length c) 0) ++ bs ++ drop (pos + length bs) c.

(** [write] of [bs] at the position [pos]: the number of bytes written, or [None] for
    -1. *)
Definition sys_write (k : fkey) (pos : nat) (bs : list Z) : M (option nat) :=
  a ← call;
  let put b := modify (fun s => set_files (<[k := overwrite pos b (default [] (files s !! k))]> (files s)) s) in
  match a with
  | Fine => put bs;; mret (Some (length bs))
  | Short m => put (take (S m) bs);; mret (Some (length (take (S m) bs)))
  | Errno e => modify (set_errno e);; mret None
  end.

(** [fchdir], and [open(".", O_RDONLY)], a descriptor of the working directory. *)
Definition sys_fchdir (fd : Z) : M bool :=
  ok ← attempt;
  if negb ok then mret false else modify (set_cwd fd);; mret true.

Definition sys_opencwd : M (option Z) :=
  ok ← attempt;
  if negb ok then mret None else s ← get; mret (Some (cwd s)).

(** ** unix.c *)

Definition statat (dirfd : Z) (p : path) : M bool := sys_statat dirfd p.

Definition netatalk_unlinkat (dirfd : Z) (name : path) : M Z :=
  ok ← sys_unlinkat dirfd name;
  if negb ok then
    s ← get;
    let e := sys_errno s in
    mret (if e =? ENOENT then AFP_OK
          else if e =? EROFS then AFPERR_VLOCK
          else if (e =? EPERM) || (e =? EACCES) then AFPERR_ACCESS
          else AFPERR_PARAM)
  else mret AFP_OK.

Definition unix_rename (sfd : Z) (oldpath : path) (dfd : Z) (newpath : path) : M Z :=
  ok ← sys_renameat sfd oldpath dfd newpath;
  mret (if negb ok then -1 else 0).

Definition NETATALK_DIOSZ_STACK : nat := Z.to_nat 65536.

(** The inner loop of [copy_file_fd]: [buflen] bytes of [filebuf] are still to be
    written, the position of the destination is [dpos]. *)
Fixpoint write_chunk (fuel : nat) (dfd : fkey) (dpos : nat) (filebuf : list Z) (buflen : nat) : M (Z * nat) :=
  match buflen with
  | O => mret (0, dpos)
  | _ =>
    match fuel with
    | O => undefined
    | S fuel =>
      cc ← sys_write dfd dpos (take buflen filebuf);
      match cc with
      | None =>
        s ← get;
        if sys_errno s =? EINTR then write_chunk fuel dfd dpos filebuf buflen else mret (-1, dpos)
      | Some cc => write_chunk fuel dfd (dpos + cc)%nat filebuf (buflen - cc)%nat
      end
    end
  end.

(** The outer loop: the source is read at [spos]. *)
Fixpoint copy_chunks (fuel : nat) (sfd : fkey) (spos : nat) (dfd : fkey) (dpos : nat) : M Z :=
  match fuel with
  | O => undefined
  | S fuel =>
    cc ← sys_read sfd spos NETATALK_DIOSZ_STACK;
    match cc with
    | None =>
      s ← get;
      if sys_errno s =? EINTR then copy_chunks fuel sfd spos dfd dpos else mret (-1)
    | Some [] => mret 0
    | Some filebuf =>
      s ← get;
      r ← write_chunk (length filebuf + length (answers s)) dfd dpos filebuf (length filebuf);
      let '(r, dpos) := r in
      if r <? 0 then mret (-1)
      else copy_chunks fuel sfd (spos + length filebuf)%nat dfd dpos
    end
  end.

Definition copy_file_fd (sfd dfd : fkey) : M Z :=
  s ← get;
  copy_chunks (S (length (default [] (files s !! sfd)) + length (answers s))) sfd 0 dfd 0.

Definition copy_file (dirfd : Z) (src dst : path) : M Z :=
  sfd ← sys_openat dirfd src false false;
  match sfd with
  | None => mret (-1)
  | Some sfd =>
    dfd ← sys_openat (-1) dst true true;
    match dfd with
    | None => mret (-1)
    | Some dfd =>
      ret ← copy_file_fd sfd dfd;
      err ← attempt;
      mret (if (ret =? 0) && negb err then -1 else ret)
    end
  end.
