(* ===== verification/VfsFacts.v ===== *)
(** * VfsFacts

    The rules by which computations of [Vfs] are verified.  [wp E m s Q] says that [m]
    run in [s] either gives a result and a state with [Q], or ends the process for a
    reason [E] allows.  Each primitive has a rule for any answer of the kernel, for
    safety, and one for a calm kernel, which carries out every call. *)

From S2P Require Import Prelude Bytes Vfs.

Definition wp {A} (E : why -> Prop) (m : M A) (s : sys) (Q : A -> sys -> Prop) : Prop :=
  match m s with
  | Ok (a, s') => Q a s'
  | Abort w => E w
  end.

(** No computation ends the process, or only [exit] does. *)
Definition never (w : why) : Prop := False.
Definition on_exit (w : why) : Prop := w = Panic.

Section rules.
Context {A B : Type} (E : why -> Prop).
Implicit Types (Q : A -> sys -> Prop) (s : sys).

Lemma run_mono (m : M A) s Q Q' : (forall a s', Q a s' -> Q' a s') -> wp E m s Q -> wp E m s Q'.
Proof. unfold wp. destruct (m s) as [[a s']|w]; auto. Qed.

Lemma run_ret (a : A) s Q : Q a s -> wp E (mret a) s Q.
Proof. done. Qed.

Lemma run_bind (m : M B) (f : B -> M A) s Q : wp E m s (fun b s' => wp E (f b) s' Q) -> wp E (m ≫= f) s Q.
Proof. unfold wp, mbind, M_bind. by destruct (m s) as [[b s']|w]. Qed.

Lemma run_lift (r : res A) a s Q : r = Ok a -> Q a s -> wp E (lift r) s Q.
Proof. intros ->. done. Qed.

End rules.

Lemma run_get E s Q : Q s s -> wp E get s Q.
Proof. done. Qed.

Lemma run_modify E f s Q : Q tt (f s) -> wp E (modify f) s Q.
Proof. done. Qed.

Lemma run_result {A} (m : M A) s Q : wp never m s Q -> exists a s', m s = Ok (a, s') /\ Q a s'.
Proof. unfold wp. destruct (m s) as [[a s']|w]; [eauto|done]. Qed.

Lemma result_wp {A} E (m : M A) s Q a s' : m s = Ok (a, s') -> Q a s' -> wp E m s Q.
Proof. unfold wp. by intros ->. Qed.

(** Run the steps that need no thought. *)
Ltac run_walk :=
  repeat (cbn beta iota zeta; lazymatch goal with
  | |- wp _ (_ ≫= _) _ _ => apply run_bind
  | |- wp _ (mret _) _ _ => apply run_ret
  | |- wp _ get _ _ => apply run_get
  | |- wp _ (modify _) _ _ => apply run_modify
  end); cbn beta iota zeta.

(** ** Any kernel *)

(** Calls that leave the files and the working directory alone. *)
Definition same_fs (s s' : sys) : Prop := files s' = files s /\ dirs s' = dirs s /\ cwd s' = cwd s.

Lemma same_fs_refl s : same_fs s s.
Proof. done. Qed.

Lemma same_fs_trans s1 s2 s3 : same_fs s1 s2 -> same_fs s2 s3 -> same_fs s1 s3.
Proof. unfold same_fs. intros (-> & -> & ->) (? & ? & ?). done. Qed.

Lemma run_call E s Q : (forall a s', same_fs s s' -> Q a s') -> wp E call s Q.
Proof. unfold wp, call. intros H. destruct (answers s); by apply H. Qed.

Lemma run_attempt E s Q : (forall b s', same_fs s s' -> Q b s') -> wp E attempt s Q.
Proof. intros H. apply run_bind, run_call. intros [|e|n] s' Hs; by apply H. Qed.

(** An allocation, with what is known of it when no answer is in store. *)
Lemma run_alloc E s Q : (forall b s', same_fs s s' -> (answers s = [] -> b = true /\ s' = s) -> Q b s') -> wp E alloc s Q.
Proof.
  unfold wp, alloc, mbind, M_bind, call. intros H. destruct (answers s) as [|a l]; cbn; [by apply H|].
  destruct a; by apply H.
Qed.

(** Calls that may change files, about which safety needs nothing. *)
Definition harmless {A} (m : M A) : Prop := forall s, exists a s', m s = Ok (a, s').

Lemma run_harmless {A} E (m : M A) s Q : harmless m -> (forall a s', Q a s') -> wp E m s Q.
Proof. intros Hm HQ. destruct (Hm s) as (a & s' & H). unfold wp. by rewrite H. Qed.

Lemma harmless_ret {A} (a : A) : harmless (mret a).
Proof. intros s. eexists _, _. reflexivity. Qed.

Lemma harmless_bind {A B} (m : M A) (f : A -> M B) : harmless m -> (forall a, harmless (f a)) -> harmless (m ≫= f).
Proof.
  intros Hm Hf s. destruct (Hm s) as (a & s' & H). destruct (Hf a s') as (b & s'' & H').
  exists b, s''. unfold mbind, M_bind. by rewrite H.
Qed.

Lemma harmless_get : harmless get.
Proof. intros s. eexists _, _. reflexivity. Qed.

Lemma harmless_modify f : harmless (modify f).
Proof. intros s. eexists _, _. reflexivity. Qed.

Lemma harmless_call : harmless call.
Proof. intros s. unfold call. destruct (answers s); eauto. Qed.

Create HintDb vfs.
#[export] Hint Resolve harmless_ret harmless_bind harmless_get harmless_modify harmless_call : vfs.

(** Walk through a computation by its binds and branches. *)
Ltac harmless_walk :=
  repeat first
    [ apply harmless_ret | apply harmless_get | apply harmless_modify | apply harmless_call
    | solve [eauto with vfs]
    | match goal with |- harmless (_ ≫= _) => apply harmless_bind; [|intros ?] end
    | match goal with
      | |- harmless (match ?x with _ => _ end) => destruct x
      end ].

Lemma harmless_attempt : harmless attempt.
Proof. unfold attempt. harmless_walk. Qed.
Lemma harmless_alloc : harmless alloc.
Proof. unfold alloc. harmless_walk. Qed.
#[export] Hint Resolve harmless_attempt harmless_alloc : vfs.

Lemma harmless_openat fd p c t : harmless (sys_openat fd p c t).
Proof. unfold sys_openat. harmless_walk. Qed.
Lemma harmless_statat fd p : harmless (sys_statat fd p).
Proof. unfold sys_statat. harmless_walk. Qed.
Lemma harmless_unlinkat fd p : harmless (sys_unlinkat fd p).
Proof. unfold sys_unlinkat. harmless_walk. Qed.
Lemma harmless_fstat k : harmless (sys_fstat k).
Proof. unfold sys_fstat. harmless_walk. Qed.
Lemma harmless_ftruncate k : harmless (sys_ftruncate k).
Proof. unfold sys_ftruncate. harmless_walk. Qed.
Lemma harmless_read k pos n : harmless (sys_read k pos n).
Proof. unfold sys_read. harmless_walk. Qed.
Lemma harmless_write k pos bs : harmless (sys_write k pos bs).
Proof. unfold sys_write. harmless_walk. Qed.
Lemma harmless_fchdir fd : harmless (sys_fchdir fd).
Proof. unfold sys_fchdir. harmless_walk. Qed.
Lemma harmless_opencwd : harmless sys_opencwd.
Proof. unfold sys_opencwd. harmless_walk. Qed.
#[export] Hint Resolve harmless_openat harmless_statat harmless_unlinkat harmless_fstat harmless_ftruncate
  harmless_read harmless_write harmless_fchdir harmless_opencwd : vfs.

Lemma harmless_netatalk_unlinkat fd p : harmless (netatalk_unlinkat fd p).
Proof. unfold netatalk_unlinkat. harmless_walk. Qed.
#[export] Hint Resolve harmless_netatalk_unlinkat : vfs.

(** ** A calm kernel *)

(** The state of a calm kernel: no answer in store, the working directory [c], the
    directories [D] and the files [F]. *)
Definition calm (c : Z) (D : gset fkey) (F : gmap fkey (list Z)) (s : sys) : Prop :=
  answers s = [] /\ cwd s = c /\ dirs s = D /\ files s = F.

Section calm.
Context (E : why -> Prop) (c : Z) (D : gset fkey).
Implicit Types (F : gmap fkey (list Z)) (s : sys).

Lemma calm_errno F s e : calm c D F s -> calm c D F (set_errno e s).
Proof. done. Qed.

Lemma calm_files F F' s : calm c D F s -> calm c D F' (set_files F' s).
Proof. unfold calm. naive_solver. Qed.

Lemma run_call_calm F s Q : calm c D F s -> Q Fine s -> wp E call s Q.
Proof. unfold wp, call. intros [-> _]. done. Qed.

Lemma run_attempt_calm F s Q : calm c D F s -> Q true s -> wp E attempt s Q.
Proof. intros Hs HQ. apply run_bind, (run_call_calm F); [done|]. exact HQ. Qed.

Lemma run_alloc_calm F s Q : calm c D F s -> Q true s -> wp E alloc s Q.
Proof. intros Hs HQ. apply run_bind, (run_call_calm F); [done|]. exact HQ. Qed.

Lemma run_openat_calm F s p cr (Q : option fkey -> sys -> Prop) : calm c D F s ->
  match F !! (c, p) with
  | Some _ => forall s', calm c D F s' -> Q (Some (c, p)) s'
  | None => if cr : bool then forall s', calm c D (<[(c, p) := []]> F) s' -> Q (Some (c, p)) s'
            else forall s', calm c D F s' -> sys_errno s' = ENOENT -> Q None s'
  end -> wp E (sys_openat (-1) p cr false) s Q.
Proof.
  intros Hs HQ. apply run_bind, (run_attempt_calm F); [done|]. cbn. apply run_bind, run_get.
  destruct Hs as (Ha & Hc & HD & HF). unfold at_dir. cbn. rewrite Hc, HF.
  destruct (F !! (c, p)) as [x|] eqn:Hp; [|destruct cr]; cbn; apply HQ; unfold calm; cbn; try done.
  by rewrite HF.
Qed.

Lemma run_statat_calm F s p (Q : bool -> sys -> Prop) : calm c D F s ->
  (forall s', calm c D F s' -> (is_Some (F !! (c, p)) \/ (c, p) ∈ D) -> Q true s') ->
  (forall s', calm c D F s' -> F !! (c, p) = None -> (c, p) ∉ D -> sys_errno s' = ENOENT -> Q false s') ->
  wp E (sys_statat (-1) p) s Q.
Proof.
  intros Hs H1 H2. apply run_bind, (run_attempt_calm F); [done|]. cbn. apply run_bind, run_get.
  pose proof Hs as (Ha & Hc & HD & HF). unfold at_dir. cbn. rewrite Hc, HF, HD.
  case_bool_decide as Hd; cbn; [by apply H1|]. apply H2; try done.
  - destruct (F !! (c, p)) eqn:Hp; [|done]. exfalso. apply Hd. left. by exists l.
  - intros Hx. apply Hd. by right.
Qed.

Lemma run_isdir_calm F s p (Q : bool -> sys -> Prop) : calm c D F s ->
  (forall s', calm c D F s' -> Q (bool_decide ((c, p) ∈ D)) s') -> wp E (sys_isdir p) s Q.
Proof.
  intros Hs HQ. apply run_bind, (run_statat_calm F); [done| |].
  - intros s' Hs' _. apply run_bind, run_get, run_ret. cbn. pose proof Hs' as (_ & Hc & HD & _). rewrite Hc, HD. by apply HQ.
  - intros s' Hs' _ Hn _. apply run_bind, run_get, run_ret. cbn. rewrite <- (bool_decide_eq_false_2 _ Hn). by apply HQ.
Qed.

Lemma run_unlinkat_calm F s p x (Q : bool -> sys -> Prop) : calm c D F s -> F !! (c, p) = Some x ->
  (forall s', calm c D (delete (c, p) F) s' -> Q true s') -> wp E (sys_unlinkat (-1) p) s Q.
Proof.
  intros Hs Hx HQ. apply run_bind, (run_attempt_calm F); [done|]. cbn. apply run_bind, run_get.
  destruct Hs as (Ha & Hc & HD & HF). unfold at_dir. cbn. rewrite Hc, HF, Hx. cbn. apply HQ. unfold calm. cbn. by rewrite HF.
Qed.

Lemma run_fstat_calm F s k x Q : calm c D F s -> F !! k = Some x -> Q (Some (zlen x)) s -> wp E (sys_fstat k) s Q.
Proof.
  intros Hs Hx HQ. apply run_bind, (run_attempt_calm F); [done|]. cbn. apply run_bind, run_get, run_ret.
  destruct Hs as (_ & _ & _ & ->). by rewrite Hx.
Qed.

Lemma run_ftruncate_calm F s k (Q : bool -> sys -> Prop) : calm c D F s ->
  (forall s', calm c D (<[k := []]> F) s' -> Q true s') -> wp E (sys_ftruncate k) s Q.
Proof.
  intros Hs HQ. apply run_bind, (run_attempt_calm F); [done|]. cbn. apply HQ.
  destruct Hs as (? & ? & ? & ->). done.
Qed.

Lemma run_read_calm F s k pos n x Q : calm c D F s -> F !! k = Some x -> Q (Some (take n (drop pos x))) s ->
  wp E (sys_read k pos n) s Q.
Proof.
  intros Hs Hx HQ. apply run_bind, (run_call_calm F); [done|]. apply run_bind, run_get, run_ret.
  destruct Hs as (_ & _ & _ & ->). by rewrite Hx.
Qed.

Lemma run_write_calm F s k bs (Q : option nat -> sys -> Prop) : calm c D F s -> F !! k = Some [] ->
  (forall s', calm c D (<[k := bs]> F) s' -> Q (Some (length bs)) s') -> wp E (sys_write k 0 bs) s Q.
Proof.
  intros Hs Hk HQ. apply run_bind, (run_call_calm F); [done|]. cbn. apply HQ.
  destruct Hs as (? & ? & ? & HF). unfold calm. cbn. rewrite HF, Hk. cbn. rewrite drop_nil, app_nil_r. done.
Qed.

End calm.
