(* ===== verification/VfsTheorems.v ===== *)
(** * VfsTheorems

    Copies of files by [copy_file_fd] of libatalk/vfs/unix.c: it ends whatever the
    kernel answers, its copy is exact when no write is cut short, and what it writes
    when one is. *)

From S2P Require Import Prelude Bytes Vfs VfsFacts.

Lemma overwrite_end (c bs : list Z) : overwrite (length c) bs c = c ++ bs.
Proof.
  unfold overwrite. rewrite Nat.sub_diag. cbn. rewrite app_nil_r, firstn_all, drop_ge by lia. by rewrite app_nil_r.
Qed.

(** What one call does to the answers in store. *)
Lemma run_call_left E s Q :
  (answers s = [] -> Q Fine s) -> (forall a l, answers s = a :: l -> Q a (set_answers l s)) -> wp E call s Q.
Proof. unfold wp, call. intros H1 H2. destruct (answers s); [by apply H1|by apply H2]. Qed.

(** The writes of one buffer: each turn takes an answer or writes a byte. *)
Definition only_file (k : fkey) (s s' : sys) : Prop := forall j, j <> k -> files s' !! j = files s !! j.

Lemma only_file_trans k s1 s2 s3 : only_file k s1 s2 -> only_file k s2 s3 -> only_file k s1 s3.
Proof. unfold only_file. intros H1 H2 j Hj. by rewrite H2, H1. Qed.

Lemma write_chunk_done fuel dfd dpos filebuf : write_chunk fuel dfd dpos filebuf 0 = mret (0, dpos).
Proof. by destruct fuel. Qed.

Lemma write_chunk_ends dfd filebuf fuel : forall dpos buflen s,
  (buflen <= length filebuf)%nat -> (buflen + length (answers s) <= fuel)%nat ->
  wp never (write_chunk fuel dfd dpos filebuf buflen) s
    (fun r s' => (length (answers s') <= length (answers s))%nat /\ only_file dfd s s').
Proof.
  induction fuel as [|fuel IH]; intros dpos buflen s Hb Hf; (destruct buflen as [|buflen]; [by apply run_ret|]); [lia|].
  cbn [write_chunk]. remember (S buflen) as n eqn:Hn. assert (length (take n filebuf) = n) as Hl by (rewrite length_take; lia).
  assert (forall m s0, m <= n -> only_file dfd s s0 -> length (answers s0) <= length (answers s) ->
    n - m + length (answers s0) <= fuel ->
    forall p, wp never (write_chunk fuel dfd p filebuf (n - m)) s0
    (fun r s' => length (answers s') <= length (answers s) /\ only_file dfd s s'))%nat as Hstep.
  { intros m s0 Hm Hs Ha Hx p. eapply run_mono; [|apply IH; lia]. cbn. intros a s' [H1 H2]. split; [lia|].
    by eapply only_file_trans. }
  apply run_bind. unfold sys_write. apply run_bind, run_call_left.
  - intros Ha. cbn. apply Hstep; cbn; rewrite ?Ha; cbn; try lia. intros j Hj. cbn. by apply lookup_insert_ne.
  - intros [|e|m] l Ha; rewrite Ha in Hf; cbn in Hf; cbn.
    + apply Hstep; cbn; rewrite ?Ha; cbn; try lia. intros j Hj. cbn. by apply lookup_insert_ne.
    + run_walk. cbn. destruct (e =? EINTR); [|apply run_ret; cbn; rewrite Ha; cbn; split; [lia|done]].
      replace n with (n - 0)%nat by lia. apply Hstep; cbn; rewrite ?Ha; cbn; try lia. done.
    + assert (0 < length (take (S m) (take n filebuf)) <= n)%nat by (rewrite length_take, Hl; lia).
      run_walk. apply Hstep; cbn -[take]; rewrite ?Ha; cbn -[take]; try lia. intros j Hj. cbn. by apply lookup_insert_ne.
Qed.

Lemma copy_chunks_ends sfd dfd x fuel : sfd <> dfd -> forall spos dpos s,
  files s !! sfd = Some x -> (length (drop spos x) + length (answers s) < fuel)%nat ->
  wp never (copy_chunks fuel sfd spos dfd dpos) s (fun r s' => True).
Proof.
  intros Hne. induction fuel as [|fuel IH]; intros spos dpos s Hx Hf; [lia|]. cbn [copy_chunks].
  apply run_bind. unfold sys_read.
  assert (forall s0 bs, files s0 = files s -> (length (answers s0) <= length (answers s))%nat -> (length bs <= length (drop spos x))%nat ->
    wp never match bs with
      | [] => mret 0
      | _ => s1 ← get;
             r ← write_chunk (length bs + length (answers s1)) dfd dpos bs (length bs);
             let '(r, dpos) := r in if r <? 0 then mret (-1) else copy_chunks fuel sfd (spos + length bs)%nat dfd dpos
      end s0 (fun _ _ => True)) as Hgo.
  { intros s0 bs Hs0 Ha Hbs. destruct bs as [|b bs]; [by apply run_ret|]. remember (b :: bs) as bs' eqn:Hb.
    assert (0 < length bs')%nat by (subst; cbn; lia). clear Hb. apply run_bind, run_get, run_bind.
    eapply run_mono; [|apply write_chunk_ends; lia]. intros [r p] s2 [Ha2 Hs2]. case_match; [by apply run_ret|].
    apply IH; [rewrite Hs2 by done; by rewrite Hs0|]. rewrite length_drop in *. lia. }
  apply run_bind, run_call_left.
  - intros Ha. apply run_bind, run_get, run_ret. cbn -[NETATALK_DIOSZ_STACK]. rewrite Hx.
    apply Hgo; [done|lia|]. cbn -[NETATALK_DIOSZ_STACK]. rewrite length_take. lia.
  - intros a l Ha. apply run_bind, run_get. cbn [files set_answers]. rewrite Hx. rewrite Ha in Hf. cbn [length] in Hf.
    destruct a as [|e|m].
    + apply run_ret. apply Hgo; [done|cbn; rewrite Ha; cbn; lia|]. cbn -[NETATALK_DIOSZ_STACK]. rewrite length_take. lia.
    + apply run_bind, run_modify, run_ret, run_bind, run_get. cbn. destruct (e =? EINTR); [|by apply run_ret]. apply IH; [done|cbn; lia].
    + apply run_ret. apply Hgo; [done|cbn; rewrite Ha; cbn; lia|].
      cbn -[NETATALK_DIOSZ_STACK take]. rewrite !length_take. lia.
Qed.

(** Copying ends, with a result, whatever the kernel answers. *)
Theorem copy_file_fd_ends s sfd dfd x :
  sfd <> dfd -> files s !! sfd = Some x -> exists r s', copy_file_fd sfd dfd s = Ok (r, s').
Proof.
  intros Hne Hx. destruct (run_result (copy_file_fd sfd dfd) s (fun _ _ => True)) as (r & s' & H & _); [|eauto].
  apply run_bind, run_get. eapply copy_chunks_ends; [done|done|]. rewrite Hx, drop_0. cbn. lia.
Qed.

(** ** What is copied *)

Definition whole (a : answer) : Prop := match a with Short _ => False | _ => True end.

(** Some call is refused for good. *)
Definition refused (l : list answer) : Prop := exists e, e <> EINTR /\ Errno e ∈ l.

Lemma refused_suffix l l' : l `suffix_of` l' -> refused l -> refused l'.
Proof. intros [k ->] (e & He & Hin). exists e. split; [done|]. apply elem_of_app. by right. Qed.

Lemma whole_suffix l l' : l `suffix_of` l' -> Forall whole l' -> Forall whole l.
Proof. intros [k ->] [_ H]%Forall_app. done. Qed.

(** A state reached by calls on files. *)
Definition later (s s' : sys) : Prop := answers s' `suffix_of` answers s /\ dirs s' = dirs s /\ cwd s' = cwd s.

Lemma later_trans s1 s2 s3 : later s1 s2 -> later s2 s3 -> later s1 s3.
Proof. intros (H1 & H2 & H3) (H4 & H5 & H6). split; [by etrans|]. split; congruence. Qed.

Lemma later_cons a l s s' : answers s = a :: l -> later (set_answers l s) s' -> later s s'.
Proof. intros Ha (H1 & H2 & H3). split; [rewrite Ha; by apply suffix_cons_r|done]. Qed.

Lemma write_chunk_whole dfd filebuf fuel : forall s c,
  files s !! dfd = Some c -> Forall whole (answers s) -> (length (answers s) < fuel)%nat ->
  wp never (write_chunk fuel dfd (length c) filebuf (length filebuf)) s (fun r s' =>
    later s s' /\
    (r = (0, length (c ++ filebuf)) /\ files s' = <[dfd := c ++ filebuf]> (files s) \/ r.1 = -1 /\ refused (answers s))).
Proof.
  induction fuel as [|fuel IH]; intros s c Hc Hw Hf; [lia|].
  destruct (decide (filebuf = [])) as [->|Hne].
  { apply run_ret. split; [done|left]. by rewrite app_nil_r, insert_id. }
  assert (exists n, length filebuf = S n) as [n Hn] by (destruct filebuf; [done|eauto]).
  rewrite Hn. cbn [write_chunk]. rewrite <- Hn, firstn_all. apply run_bind, run_bind.
  assert (forall s0, files s0 = files s -> later s s0 ->
    wp never (write_chunk fuel dfd (length c + length filebuf) filebuf (length filebuf - length filebuf))
      (set_files (<[dfd := overwrite (length c) filebuf (default [] (files s0 !! dfd))]> (files s0)) s0) (fun r s' =>
    later s s' /\
    (r = (0, length (c ++ filebuf)) /\ files s' = <[dfd := c ++ filebuf]> (files s) \/ r.1 = -1 /\ refused (answers s)))) as Hdone.
  { intros s0 Hs0 Hl0. rewrite Nat.sub_diag, write_chunk_done. apply run_ret. cbn. rewrite Hs0, Hc. cbn. rewrite overwrite_end, length_app. auto. }
  apply run_call_left.
  - intros Ha. cbn. by apply Hdone.
  - intros a l Ha. rewrite Ha in Hw, Hf. apply Forall_cons in Hw as [Hw1 Hw2]. cbn in Hf. destruct a as [|e|m]; [..|done].
    + cbn. apply (Hdone (set_answers l s)); [done|]. by eapply later_cons.
    + run_walk. cbn. destruct (e =? EINTR) eqn:He; bool_cases.
      * eapply run_mono; [|apply (IH (set_errno e (set_answers l s)) c); cbn; done || lia].
        cbn beta. intros r s' (H1 & H2). split; [by eapply later_cons|].
        destruct H2 as [H2|[H2 H3]]; [by left|right; split; [done|]]. eapply refused_suffix; [|exact H3].
        rewrite Ha. by apply suffix_cons_r.
      * apply run_ret. split; [by eapply later_cons|right; split; [done|]]. rewrite Ha. exists e. split; [done|left].
Qed.

Lemma copy_chunks_whole sfd dfd x fuel : sfd <> dfd -> forall spos s,
  files s !! sfd = Some x -> files s !! dfd = Some (take spos x) -> (spos <= length x)%nat ->
  Forall whole (answers s) -> (length (drop spos x) + length (answers s) < fuel)%nat ->
  wp never (copy_chunks fuel sfd spos dfd spos) s (fun r s' =>
    later s s' /\ (r = 0 /\ files s' = <[dfd := x]> (files s) \/ r = -1 /\ refused (answers s))).
Proof.
  intros Hne. induction fuel as [|fuel IH]; intros spos s Hx Hd Hp Hw Hf; [lia|]. cbn [copy_chunks].
  set (bs := take NETATALK_DIOSZ_STACK (drop spos x)).
  assert (forall s0, files s0 = files s -> later s s0 ->
    wp never match bs with
      | [] => mret 0
      | _ => s1 ← get;
             r ← write_chunk (length bs + length (answers s1)) dfd spos bs (length bs);
             let '(r, dpos) := r in if r <? 0 then mret (-1) else copy_chunks fuel sfd (spos + length bs)%nat dfd dpos
      end s0 (fun r s' => later s s' /\
        (r = 0 /\ files s' = <[dfd := x]> (files s) \/ r = -1 /\ refused (answers s)))) as Hgo.
  { intros s0 Hs0 Hl0. pose proof (suffix_length _ _ (proj1 Hl0)) as Hln. assert (length bs <= length x - spos)%nat as Hlb.
    { unfold bs. rewrite length_take, length_drop. lia. }
    destruct bs as [|b bs'] eqn:Hb.
    - apply run_ret. split; [done|left]. split; [done|]. rewrite Hs0. symmetry. apply insert_id. rewrite Hd. f_equal. apply take_ge.
      destruct (decide (length x <= spos)%nat); [done|exfalso]. apply (f_equal length) in Hb. unfold bs in Hb.
      rewrite length_take, length_drop in Hb. cbn in Hb. unfold NETATALK_DIOSZ_STACK in Hb. lia.
    - apply run_bind, run_get, run_bind.
      assert (length (take spos x) = spos) as Hsp by (rewrite length_take; lia). rewrite <- Hsp at 1.
      eapply run_mono; [|apply write_chunk_whole; [by rewrite Hs0|eapply whole_suffix; [apply Hl0|done]|cbn; lia]].
      intros [r p] s2 (Hl2 & [[Hr H2]|[Hr H2]]).
      2: { cbn in Hr; subst r; apply run_ret. split; [by eapply later_trans|right].
           split; [done|]. eapply refused_suffix; [apply Hl0|done]. }
      pose proof (suffix_length _ _ (proj1 Hl2)) as Hln2.
      injection Hr as -> ->. cbn [fst snd]. rewrite length_app, Hsp. assert (0 < length bs)%nat as Hpos by (rewrite Hb; cbn; lia).
      rewrite <- Hb in *. clear Hb b bs'.
      assert (take spos x ++ bs = take (spos + length bs) x) as Htk.
      { unfold bs at 1. rewrite <- (take_drop spos x) at 3. rewrite take_app_ge by lia. rewrite Hsp. f_equal.
        unfold bs. rewrite length_take. replace (spos + _ - spos)%nat with (NETATALK_DIOSZ_STACK `min` length (drop spos x))%nat by lia.
        destruct (Nat.min_spec NETATALK_DIOSZ_STACK (length (drop spos x))) as [[H ->]|[H ->]]; [done|]. by rewrite !take_ge by lia. }
      rewrite Htk in H2. replace (0 <? 0) with false by done.
      rewrite Hs0 in H2.
      assert (later s s2) as Hl by by eapply later_trans.
      eapply run_mono; [|apply IH; [by rewrite H2, lookup_insert_ne|by rewrite H2, lookup_insert_eq|lia|eapply whole_suffix; [apply Hl|done]|]].
      + cbn. rewrite H2, insert_insert_eq. intros r s' (H3 & H4). split; [by eapply later_trans|].
        destruct H4 as [H4|[H4 H5]]; [by left|right; split; [done|eapply refused_suffix; [apply Hl|done]]].
      + rewrite length_drop in *. lia. }
  apply run_bind, run_bind, run_call_left.
  - intros Ha. run_walk. cbn [default from_option]. rewrite Hx. by apply Hgo.
  - intros a l Ha. rewrite Ha in Hw, Hf. apply Forall_cons in Hw as [Hw1 Hw2]. cbn [length] in Hf. run_walk.
    cbn [files set_answers]. rewrite Hx. destruct a as [|e|m]; [..|done]; run_walk.
    + apply Hgo; [done|]. by eapply later_cons.
    + cbn [sys_errno set_errno]. destruct (e =? EINTR) eqn:He; bool_cases.
      * eapply run_mono; [|apply (IH spos (set_errno e (set_answers l s))); cbn; done || lia].
        cbn beta. intros r s' (H1 & H2). split; [by eapply later_cons|].
        destruct H2 as [H2|[H2 H3]]; [by left|right; split; [done|]]. eapply refused_suffix; [|exact H3].
        rewrite Ha. by apply suffix_cons_r.
      * apply run_ret. split; [by eapply later_cons|right; split; [done|]]. rewrite Ha. exists e. split; [done|left].
Qed.

Lemma copy_fd_whole s sfd dfd x :
  sfd <> dfd -> files s !! sfd = Some x -> files s !! dfd = Some [] -> Forall whole (answers s) ->
  wp never (copy_file_fd sfd dfd) s (fun r s' => later s s' /\
    (r = 0 /\ files s' = <[dfd := x]> (files s) \/ r = -1 /\ refused (answers s))).
Proof.
  intros Hne Hx Hd Hw. apply run_bind, run_get. eapply copy_chunks_whole; try done; [lia|].
  rewrite Hx, drop_0. cbn. lia.
Qed.

(** A calm kernel copies. *)
Lemma copy_fd_keeps s sfd dfd x :
  sfd <> dfd -> files s !! sfd = Some x -> files s !! dfd = Some [] -> answers s = [] ->
  wp never (copy_file_fd sfd dfd) s (fun r s' =>
    r = 0 /\ answers s' = [] /\ dirs s' = dirs s /\ cwd s' = cwd s /\ files s' = <[dfd := x]> (files s)).
Proof.
  intros Hne Hx Hd Ha. eapply run_mono; [|apply (copy_fd_whole s sfd dfd x); [done|done|done|by rewrite Ha]].
  cbn beta. rewrite Ha. intros r s' ((H1 & H2 & H3) & [[-> H4]|[_ (e & _ & H%not_elem_of_nil)]]); [|done].
  rewrite Ha in H1. apply suffix_nil_inv in H1. done.
Qed.

(** C38: A copy into an empty file ends and is exact, however often its calls are interrupted,
    unless a call is refused; then the failure is reported.  Writes are not cut short
    here. *)
Theorem copy_file_fd_exact s sfd dfd x :
  sfd <> dfd -> files s !! sfd = Some x -> files s !! dfd = Some [] -> Forall whole (answers s) ->
  exists r s', copy_file_fd sfd dfd s = Ok (r, s') /\
    (r = 0 /\ files s' = <[dfd := x]> (files s) \/ r = -1 /\ refused (answers s)).
Proof.
  intros Hne Hx Hd Hw. destruct (run_result _ _ _ (copy_fd_whole s sfd dfd x Hne Hx Hd Hw)) as (r & s' & H1 & _ & H2). eauto.
Qed.

Lemma copy_file_fd_exact_witness :
  exists r s', copy_file_fd (7, [97]) (7, [98]) (Sys {[(7, [97]) := [1; 2; 3]; (7, [98]) := []]} ∅ 7 0 [Errno EINTR; Fine; Errno EINTR])
    = Ok (r, s').
Proof.
  destruct (copy_file_fd_exact (Sys {[(7, [97]) := [1; 2; 3]; (7, [98]) := []]} ∅ 7 0 [Errno EINTR; Fine; Errno EINTR])
    (7, [97]) (7, [98]) [1; 2; 3]) as (r & s' & H & _).
  - discriminate.
  - reflexivity.
  - reflexivity.
  - repeat constructor.
  - exists r, s'. exact H.
Defined.

Lemma write_chunk_step fuel dfd dpos filebuf buflen : (0 < buflen)%nat ->
  write_chunk (S fuel) dfd dpos filebuf buflen =
    (cc ← sys_write dfd dpos (take buflen filebuf);
     match cc with
     | None => s ← get; if sys_errno s =? EINTR then write_chunk fuel dfd dpos filebuf buflen else mret (-1, dpos)
     | Some cc => write_chunk fuel dfd (dpos + cc)%nat filebuf (buflen - cc)%nat
     end).
Proof. destruct buflen; [lia|done]. Qed.

(** When the kernel cuts the write of a file of one buffer after [n + 1] bytes, the next
    write starts at the front of the buffer again: the copy repeats the beginning of the
    file in place of its end, and success is reported. *)
Theorem copy_file_fd_short s sfd dfd x n :
  sfd <> dfd -> files s !! sfd = Some x -> files s !! dfd = Some [] ->
  (S n < length x <= NETATALK_DIOSZ_STACK)%nat -> answers s = [Fine; Short n] ->
  exists s', copy_file_fd sfd dfd s = Ok (0, s') /\
    files s' !! dfd = Some (take (S n) x ++ take (length x - S n) x).
Proof.
  intros Hne Hx Hd Hl Ha.
  assert (wp never (copy_file_fd sfd dfd) s (fun r s' =>
    r = 0 /\ files s' !! dfd = Some (take (S n) x ++ take (length x - S n) x))) as H; [|apply run_result in H; naive_solver].
  apply run_bind, run_get. rewrite Hx, Ha. cbn [default from_option length].
  replace (S (length x + 2)) with (S (S (length x + 1))) by lia. cbn [copy_chunks].
  apply run_bind, run_bind, run_call_left; rewrite Ha; [done|]. intros a l [= <- <-]. run_walk.
  cbn [files set_answers]. rewrite Hx. cbn [default from_option]. rewrite drop_0, (take_ge x) by lia.
  destruct x as [|b x']; [cbn in Hl; lia|]. remember (b :: x') as x eqn:Hb. clear Hb b x'. run_walk.
  cbn [answers set_answers length].
  assert (length (take (S n) x) = S n) as Hn by (rewrite length_take; lia).
  replace (length x + 1)%nat with (S (length x)) by lia. rewrite write_chunk_step, firstn_all by lia.
  unfold sys_write. run_walk. apply run_call_left; cbn [answers set_answers]; [done|]. intros a l [= <- <-]. run_walk. rewrite Hn.
  assert (exists k, length x = S k) as [k Hk] by (destruct (length x); [lia|eauto]).
  replace (write_chunk (length x)) with (write_chunk (S k)) by (by rewrite Hk). rewrite write_chunk_step by lia.
  unfold sys_write. run_walk. apply run_call_left; cbn [answers set_answers set_files]; [|done]. intros _. run_walk.
  assert (length (take (length x - S n) x) = length x - S n)%nat as Hm by (rewrite length_take; lia).
  rewrite Hm, Nat.sub_diag, write_chunk_done. run_walk. replace (0 <? 0) with false by done.
  rewrite Nat.add_comm. cbn [Nat.add copy_chunks]. unfold sys_read. run_walk.
  apply run_call_left; cbn [answers set_answers set_files]; [|done]. intros _. run_walk. cbn [files set_answers set_files].
  rewrite !lookup_insert_ne by done. rewrite Hx. cbn [default from_option id]. rewrite drop_ge, take_nil by lia. run_walk.
  split; [done|]. cbn [files set_answers set_files]. rewrite Hd, !lookup_insert_eq. cbn [default from_option id]. f_equal.
  change (overwrite 0 (take (S n) x) []) with (overwrite (length (@nil Z)) (take (S n) x) []). rewrite overwrite_end. cbn [app].
  rewrite <- Hn at 1. by rewrite overwrite_end.
Qed.
