(* ===== verification/Ea.v ===== *)
(** * Ea

    Extended attributes kept in files beside the AppleDouble metadata, from
    libatalk/vfs/ea_ad.c: a header file lists names and sizes, and each value is a file
    of its own.  The state of an operation is a [struct ea], read from the header by
    [ea_open] and written back by [ea_close]; the rest is the file system of [Vfs].

    A NULL pointer is [None], or the empty list for the buffer and the array of entries.
    Every access to the buffer is checked against its length, and the entries the code
    reads against those the array has: an access outside is [Abort Undefined].  The
    counters cannot wrap, since a header has at most 65535 entries and one call at most
    doubles that; the fields of the header are cut to 16 and 32 bits as the code does.
    Permissions of created files and log output are left out. *)

From S2P Require Import Prelude Bytes AdHeader Vfs.

Definition EA_INITED : Z := 0xea494e54.
Definition EA_MAGIC : Z := 0x61644541.
Definition EA_VERSION1 : Z := 0x01.
Definition EA_VERSION : Z := EA_VERSION1.
Definition MAX_EA_SIZE : Z := 3802.
Definition MAX_REPLY_EXTRA_BYTES : Z := 6.
Definition ATTRNAMEBUFSIZ : Z := 4096.
Definition EA_CREATE : Z := Z.shiftl 1 1.
Definition EA_RDONLY : Z := Z.shiftl 1 2.
Definition EA_RDWR : Z := Z.shiftl 1 3.
Definition EA_DIR : Z := Z.shiftl 1 4.
Definition EA_MAGIC_LEN : nat := 4.
Definition EA_VERSION_LEN : nat := 2.
Definition EA_COUNT_OFF : nat := 6.
Definition EA_HEADER_SIZE : nat := 8.
Definition MAXPATHLEN : nat := Z.to_nat 4096.

(** The flags of [open] that carry kXAttrCreate and kXAttrReplace. *)
Definition O_CREAT : Z := 0x40.
Definition O_TRUNC : Z := 0x200.

Definition flag (flags f : Z) : bool := negb (Z.land flags f =? 0).

Record ea_entry := EaEntry {
  ea_namelen : nat;
  ea_entry_size : Z;
  ea_name : option (list Z)
}.

Record ea := Ea {
  ea_inited : Z;
  ea_dirfd : Z;
  ea_filename : option path;
  ea_count : Z;
  ea_entries : list ea_entry;
  ea_fd : option fkey;
  ea_flags : Z;
  ea_size : Z;
  ea_data : list Z
}.

Definition set_inited (v : Z) (e : ea) : ea :=
  Ea v (ea_dirfd e) (ea_filename e) (ea_count e) (ea_entries e) (ea_fd e) (ea_flags e) (ea_size e) (ea_data e).
Definition set_dirfd (v : Z) (e : ea) : ea :=
  Ea (ea_inited e) v (ea_filename e) (ea_count e) (ea_entries e) (ea_fd e) (ea_flags e) (ea_size e) (ea_data e).
Definition set_filename (v : option path) (e : ea) : ea :=
  Ea (ea_inited e) (ea_dirfd e) v (ea_count e) (ea_entries e) (ea_fd e) (ea_flags e) (ea_size e) (ea_data e).
Definition set_entries (n : Z) (l : list ea_entry) (e : ea) : ea :=
  Ea (ea_inited e) (ea_dirfd e) (ea_filename e) n l (ea_fd e) (ea_flags e) (ea_size e) (ea_data e).
Definition set_fd (v : option fkey) (e : ea) : ea :=
  Ea (ea_inited e) (ea_dirfd e) (ea_filename e) (ea_count e) (ea_entries e) v (ea_flags e) (ea_size e) (ea_data e).
Definition set_flags (v : Z) (e : ea) : ea :=
  Ea (ea_inited e) (ea_dirfd e) (ea_filename e) (ea_count e) (ea_entries e) (ea_fd e) v (ea_size e) (ea_data e).
Definition set_buffer (n : Z) (d : list Z) (e : ea) : ea :=
  Ea (ea_inited e) (ea_dirfd e) (ea_filename e) (ea_count e) (ea_entries e) (ea_fd e) (ea_flags e) n d.

(** [memset(ea, 0, sizeof(struct ea))]; descriptor 0 is no file of the model. *)
Definition ea_zero : ea := Ea 0 0 None 0 [] None 0 0 [].

(** What the operations use of a volume: the path of the metadata file (a function
    pointer), the conversion of names to the volume's character set by
    [convert_charset], that of stored names to the client's by [convert_string], the AFP
    version of the session, and [ad_open] with the flags of [ea_renamefile].
    [v_fresh] is what the allocator leaves in new memory. *)
Record vol := Vol {
  v_ad_path : path -> bool -> option path;
  v_convert : list Z -> option (list Z);
  v_to_mac : list Z -> option (list Z);
  afp_version : Z;
  v_ad_open : path -> M Z;
  v_fresh : Z
}.

(** ** Memory *)

Definition load (off n : nat) (d : list Z) : res (list Z) :=
  if bool_decide (off + n <= length d)%nat then Ok (take n (drop off d)) else Abort Undefined.

Definition store (off : nat) (bs d : list Z) : res (list Z) :=
  if bool_decide (off + length bs <= length d)%nat then Ok (blit off bs d) else Abort Undefined.

(** A C string at the front of some bytes. *)
Fixpoint cstr (l : list Z) : list Z :=
  match l with
  | [] => []
  | b :: l => if b =? 0 then [] else b :: cstr l
  end.

(** The entries 0 to [ea_count] of the array. *)
Definition used (e : ea) : res (list ea_entry) :=
  if bool_decide (ea_count e <= zlen (ea_entries e)) then Ok (take (Z.to_nat (ea_count e)) (ea_entries e))
  else Abort Undefined.

(** The loops that look for a name: the index of the first entry that has it. *)
Fixpoint find_entry (attruname : list Z) (l : list ea_entry) : option nat :=
  match l with
  | [] => None
  | x :: l => if bool_decide (ea_name x = Some attruname) then Some O else S <$> find_entry attruname l
  end.

(** ** The header *)

(** The loop of [unpack_header], [n] entries to go at offset [buf]. *)
Fixpoint unpack_entries (n buf : nat) (e : ea) : M (Z * ea) :=
  match n with
  | O => mret (0, e)
  | S n =>
    if ea_size e <? Z.of_nat (buf + 5) then mret (-1, e) else
    size ← lift (load buf 4 (ea_data e));
    bytes ← lift (load (buf + 4) (Z.to_nat (ea_size e) - (buf + 4)) (ea_data e));
    ok ← alloc;
    if negb ok then mret (-1, e) else
    let name := cstr bytes in
    let x := EaEntry (length name) (rd32 size) (Some name) in
    unpack_entries n (buf + 4 + length name + 1) (set_entries (ea_count e) (ea_entries e ++ [x]) e)
  end.

Definition unpack_header (e : ea) : M (Z * ea) :=
  magic ← lift (load 0 4 (ea_data e));
  if negb (rd32 magic =? EA_MAGIC) then mret (-1, e) else
  version ← lift (load 4 2 (ea_data e));
  if negb (rd16 version =? EA_VERSION) then mret (-1, e) else
  count ← lift (load 6 2 (ea_data e));
  let e := set_entries (rd16 count) (ea_entries e) e in
  if ea_count e =? 0 then mret (0, e) else
  ok ← alloc;
  if negb ok then mret (-1, set_entries (ea_count e) [] e) else
  unpack_entries (Z.to_nat (ea_count e)) EA_HEADER_SIZE (set_entries (ea_count e) [] e).

Definition has_name (x : ea_entry) : Prop := is_Some (ea_name x).
#[export] Instance has_name_dec x : Decision (has_name x).
Proof. unfold has_name. apply _. Defined.

(** The second loop of [pack_header]. *)
Fixpoint pack_entries (l : list ea_entry) (buf : nat) (data : list Z) : res (list Z) :=
  match l with
  | [] => Ok data
  | x :: l =>
    match ea_name x with
    | None => pack_entries l buf data
    | Some name =>
      data ← store buf (be32 (u32 (ea_entry_size x))) data;
      data ← store (buf + 4) (name ++ [0]) data;
      pack_entries l (buf + 4 + ea_namelen x + 1) data
    end
  end.

(** [realloc] to [n] bytes. *)
Definition resize (fresh : Z) (n : nat) (d : list Z) : list Z := take n d ++ replicate (n - length d) fresh.

Definition names_size (l : list ea_entry) : nat := sum_list_with (fun x => ea_namelen x + 1)%nat (filter has_name l).

Definition pack_header (v : vol) (e : ea) : M (Z * ea) :=
  if ea_count e =? 0 then mret (0, e) else
  es ← lift (used e);
  let eacount := length (filter has_name es) in
  let bufsize := (EA_HEADER_SIZE + names_size es + eacount * 4)%nat in
  ok ← (if ea_size e <? Z.of_nat bufsize then alloc else mret true);
  if negb ok then mret (-1, e) else
  let data := if ea_size e <? Z.of_nat bufsize then resize (v_fresh v) bufsize (ea_data e) else ea_data e in
  data ← lift (store EA_COUNT_OFF (be16 (wrap 16 (Z.of_nat eacount))) data);
  data ← lift (pack_entries es EA_HEADER_SIZE data);
  mret (0, set_entries (Z.of_nat eacount) (ea_entries e) (set_buffer (Z.of_nat bufsize) data e)).

(** ** Entries *)

Definition ea_addentry (e : ea) (attruname : option (list Z)) (attrsize bitmap : Z) : M (Z * ea) :=
  match attruname with
  | None => mret (-1, e)
  | Some name =>
    es ← lift (used e);
    match find_entry name es with
    | Some i =>
      if flag bitmap O_CREAT then mret (-2, e)
      else mret (0, set_entries (ea_count e)
                      (alter (fun x => EaEntry (ea_namelen x) attrsize (ea_name x)) i (ea_entries e)) e)
    | None =>
      if flag bitmap O_TRUNC then mret (-3, e) else
      ok ← alloc;
      if negb ok then mret (-1, if ea_count e =? 0 then set_entries 0 [] e else e) else
      ok ← alloc;
      if negb ok then mret (-1, set_entries 0 (if ea_count e =? 0 then [] else ea_entries e) e) else
      mret (ea_count e + 1,
            set_entries (ea_count e + 1) (es ++ [EaEntry (length name) attrsize (Some name)]) e)
    end
  end.

Definition ea_delentry (e : ea) (attruname : option (list Z)) : M (Z * ea) :=
  match attruname with
  | None => mret (-1, e)
  | Some name =>
    if ea_count e =? 0 then mret (-1, e) else
    es ← lift (used e);
    match find_entry name es with
    | Some i =>
      mret (0, set_entries (ea_count e)
                 (alter (fun x => EaEntry (ea_namelen x) (ea_entry_size x) None) i (ea_entries e)) e)
    | None => mret (0, e)
    end
  end.

(** ** Paths *)

Definition strlcat (p q : list Z) : list Z := take MAXPATHLEN (p ++ q).

(** "::EA" and "::" *)
Definition ea_suffix : list Z := [58; 58; 69; 65].
Definition ea_colons : list Z := [58; 58].

Definition mtoupath (v : vol) (mpath : list Z) : option (list Z) :=
  if bool_decide (mpath = []) then Some [46] else v_convert v mpath.

(** The path as a function of the file, and of the name when there is one. *)
Definition ea_path (v : vol) (e : ea) (eaname : option (list Z)) (macname : bool) : M (option path) :=
  match ea_filename e with
  | None => undefined
  | Some filename =>
    match v_ad_path v filename (flag (ea_flags e) EA_DIR) with
    | None => undefined
    | Some adname =>
      let pathbuf := strlcat (take MAXPATHLEN adname) ea_suffix in
      match eaname with
      | None => mret (Some pathbuf)
      | Some eaname =>
        if bool_decide (47 ∈ eaname) then mret None else
        let pathbuf := strlcat pathbuf ea_colons in
        match (if macname then mtoupath v eaname else Some eaname) with
        | None => mret None
        | Some u => mret (Some (strlcat pathbuf u))
        end
      end
    end
  end.

(** ** Value files *)

Definition write_ea (v : vol) (e : ea) (attruname : option (list Z)) (ibuf : list Z) : M Z :=
  match attruname with
  | None => mret AFPERR_PARAM
  | Some name =>
    eaname ← ea_path v e (Some name) true;
    match eaname with
    | None => mret AFPERR_MISC
    | Some eaname =>
      fd ← sys_openat (-1) eaname true false;
      match fd with
      | None => mret AFPERR_MISC
      | Some fd =>
        locked ← attempt;
        if negb locked then mret AFPERR_MISC else
        truncated ← sys_ftruncate fd;
        if negb truncated then mret AFPERR_MISC else
        n ← sys_write fd 0 ibuf;
        mret (if bool_decide (n = Some (length ibuf)) then AFP_OK else AFPERR_MISC)
      end
    end
  end.

Definition delete_ea_file (v : vol) (e : ea) (eaname : option (list Z)) : M Z :=
  match eaname with
  | None => mret (-1)
  | Some name =>
    eafile ← ea_path v e (Some name) true;
    match eafile with
    | None => mret 0
    | Some eafile =>
      exists_ ← sys_statat (-1) eafile;
      if (exists_ : bool) then ok ← sys_unlinkat (-1) eafile; mret (if negb ok then -1 else 0)
      else mret 0
    end
  end.

(** ** Opening and closing *)

(** The end of [ea_open]. *)
Definition ea_open_exit (ret : Z) (e : ea) : M (Z * ea) :=
  if ret =? 0 then mret (ret, set_inited EA_INITED e) else
  (if ret =? -1 then modify (set_errno EFAULT) else mret tt);;
  mret (ret, set_fd None (set_buffer (ea_size e) [] (set_filename None e))).

(** The header of a file without attributes. *)
Definition ea_new_header : list Z :=
  blit EA_MAGIC_LEN (be16 EA_VERSION) (blit 0 (be32 EA_MAGIC) (replicate EA_HEADER_SIZE 0)).

(** What [ea_open] does with the open header: lock it, and read it or start a new one. *)
Definition ea_load (e : ea) (fd : fkey) : M (Z * ea) :=
  locked ← attempt;
  if negb locked then ea_open_exit (-1) e else
  st_size ← sys_fstat fd;
  match st_size with
  | None => ea_open_exit (-1) e
  | Some st_size =>
    if st_size =? 0 then
      ok ← alloc;
      if negb ok then ea_open_exit (-1) e else
      ea_open_exit 0 (set_buffer (Z.of_nat EA_HEADER_SIZE) ea_new_header (set_inited EA_INITED e))
    else
      ok ← alloc;
      if negb ok then ea_open_exit (-1) (set_buffer st_size [] e) else
      bytes ← sys_read fd 0 (Z.to_nat st_size);
      match bytes with
      | None => ea_open_exit (-1) (set_buffer st_size [] e)
      | Some bytes =>
        if negb (zlen bytes =? st_size) then ea_open_exit (-1) (set_buffer st_size [] e) else
        r ← unpack_header (set_buffer st_size bytes e);
        let '(r, e) := r in
        ea_open_exit (if r =? 0 then 0 else -1) e
      end
  end.

Definition ea_open (v : vol) (uname : path) (eaflags : Z) (ea0 : ea) : M (Z * ea) :=
  if negb (flag eaflags (Z.lor EA_RDONLY EA_RDWR)) then mret (-1, ea0) else
  let e := set_dirfd (-1) (set_flags eaflags ea_zero) in
  isdir ← sys_isdir uname;
  let e := if isdir : bool then set_flags (Z.lor (ea_flags e) EA_DIR) e else e in
  ok ← alloc;
  if negb ok then mret (-1, e) else
  let e := set_filename (Some uname) e in
  eaname ← ea_path v e None false;
  match eaname with
  | None => undefined
  | Some eaname =>
    fd ← sys_openat (-1) eaname (flag eaflags EA_CREATE) false;
    let e := set_fd fd e in
    match fd with
    | None =>
      s ← get;
      ea_open_exit (if (sys_errno s =? ENOENT) && negb (flag eaflags EA_CREATE) then -2 else -1) e
    | Some fd => ea_load e fd
    end
  end.

Definition ea_openat (v : vol) (dirfd : Z) (uname : path) (eaflags : Z) (ea0 : ea) : M (Z * ea) :=
  if dirfd =? -1 then
    r ← ea_open v uname eaflags ea0;
    let '(ret, e) := r in mret (ret, set_dirfd dirfd e)
  else
    cwdfd ← sys_opencwd;
    match cwdfd with
    | None => mret (-1, ea0)
    | Some cwdfd =>
      ok ← sys_fchdir dirfd;
      if negb ok then mret (-1, ea0) else
      r ← ea_open v uname eaflags ea0;
      let '(ret, e) := r in
      back ← sys_fchdir cwdfd;
      if negb back then exit_sys else mret (ret, set_dirfd dirfd e)
    end.

(** What [ea_close] does with the header of a handle open for writing. *)
Definition ea_flush (v : vol) (e : ea) : M (Z * ea) :=
  r ← pack_header v e;
  let '(r, e) := r in
  if negb (r =? 0) then mret (-1, e) else
  if ea_count e =? 0 then
    eaname ← ea_path v e None false;
    match eaname with
    | None => undefined
    | Some eaname =>
      exists_ ← statat (ea_dirfd e) eaname;
      if (exists_ : bool) then
        r ← netatalk_unlinkat (ea_dirfd e) eaname;
        mret (if negb (r =? 0) then -1 else 0, e)
      else s ← get; mret (if negb (sys_errno s =? ENOENT) then -1 else 0, e)
    end
  else
    match ea_fd e with
    | None => mret (-1, e)
    | Some fd =>
      seek ← attempt;
      if negb seek then mret (-1, e) else
      truncated ← sys_ftruncate fd;
      if negb truncated then mret (-1, e) else
      bytes ← lift (load 0 (Z.to_nat (ea_size e)) (ea_data e));
      n ← sys_write fd 0 bytes;
      mret (if bool_decide (n = Some (length bytes)) then 0 else -1, e)
    end.

Definition ea_close (v : vol) (e : ea) : M (Z * ea) :=
  if negb (ea_inited e =? EA_INITED) then mret (0, e) else
  let entries := ea_count e in
  r ← (if flag (ea_flags e) EA_RDWR then ea_flush v e else mret (0, e));
  let '(ret, e) := r in
  _ ← lift (used (set_entries entries (ea_entries e) e));
  mret (ret, set_fd None (set_buffer (ea_size e) [] (set_filename None (set_entries 0 [] e)))).

(** ** The calls of the VFS layer *)

(** A reply is the code and the bytes added to the reply buffer. *)
Definition ea_absent (v : vol) : Z * list Z :=
  (if 34 <=? afp_version v then AFPERR_NOITEM else AFPERR_MISC, [0; 0; 0; 0]).

(** The common end of the calls that only read. *)
Definition close_reply {A} (v : vol) (e : ea) (reply : Z * A) : M (Z * A) :=
  r ← ea_close v e;
  mret (if negb (r.1 =? 0) then (AFPERR_MISC, reply.2) else reply).

Definition get_easize (v : vol) (uname : path) (attruname : option (list Z)) : M (Z * list Z) :=
  match attruname with
  | None => mret (AFPERR_PARAM, [])
  | Some name =>
    r ← ea_open v uname EA_RDONLY ea_zero;
    let '(r, e) := r in
    if negb (r =? 0) then mret (ea_absent v) else
    es ← lift (used e);
    close_reply v e
      match find_entry name es ≫= fun i => es !! i with
      | Some x => (AFP_OK, be32 (u32 (ea_entry_size x)))
      | None => ea_absent v
      end
  end.

(** The body of the search loop of [get_eacontent] at the entry it looks for. *)
Definition eacontent (v : vol) (e : ea) (name : list Z) (x : ea_entry) (maxreply : Z) : M (Z * list Z) :=
  eafile ← ea_path v e (Some name) true;
  match eafile with
  | None => mret (AFPERR_MISC, [])
  | Some eafile =>
    fd ← sys_openat (-1) eafile false false;
    match fd with
    | None => mret (AFPERR_MISC, [])
    | Some fd =>
      if maxreply <=? MAX_REPLY_EXTRA_BYTES then mret (AFPERR_PARAM, [0; 0; 0; 0]) else
      let maxreply := maxreply - MAX_REPLY_EXTRA_BYTES in
      let maxreply := if maxreply >? MAX_EA_SIZE then MAX_EA_SIZE else maxreply in
      let toread := ea_entry_size x in
      let word := be32 (u32 toread) in
      if maxreply <? toread then mret (AFPERR_PARAM, word) else
      bytes ← sys_read fd 0 (Z.to_nat toread);
      mret match bytes with
           | Some bytes => if zlen bytes =? toread then (AFP_OK, word ++ bytes) else (AFPERR_MISC, word)
           | None => (AFPERR_MISC, word)
           end
    end
  end.

Definition get_eacontent (v : vol) (uname : path) (attruname : option (list Z)) (maxreply : Z) : M (Z * list Z) :=
  match attruname with
  | None => mret (AFPERR_PARAM, [])
  | Some name =>
    r ← ea_open v uname EA_RDONLY ea_zero;
    let '(r, e) := r in
    if negb (r =? 0) then mret (ea_absent v) else
    es ← lift (used e);
    reply ← match find_entry name es ≫= fun i => es !! i with
            | Some x => eacontent v e name x maxreply
            | None => mret (ea_absent v)
            end;
    close_reply v e reply
  end.

(** The loop of [list_eas]: [buf] is the caller's buffer, [attrbuflen] what it holds. *)
Fixpoint list_names (v : vol) (l : list ea_entry) (buf : list Z) (attrbuflen : nat) : res (Z * (list Z * nat)) :=
  match l with
  | [] => Ok (AFP_OK, (buf, attrbuflen))
  | x :: l =>
    match ea_name x with
    | None => Abort Undefined
    | Some name =>
      match v_to_mac v name with
      | None | Some [] => Ok (AFPERR_MISC, (buf, attrbuflen))
      | Some mac =>
        buf ← store attrbuflen (mac ++ [0]) buf;
        let attrbuflen := (attrbuflen + (length mac + 1))%nat in
        if ATTRNAMEBUFSIZ - 256 <? Z.of_nat attrbuflen then Ok (AFPERR_MISC, (buf, attrbuflen))
        else list_names v l buf attrbuflen
      end
    end
  end.

Definition list_eas (v : vol) (attrnamebuf : list Z) (buflen : nat) (uname : path) : M (Z * (list Z * nat)) :=
  r ← ea_open v uname EA_RDONLY ea_zero;
  let '(r, e) := r in
  if negb (r =? 0) then
    s ← get; mret (if sys_errno s =? ENOENT then AFP_OK else AFPERR_MISC, (attrnamebuf, buflen))
  else
  es ← lift (used e);
  reply ← lift (list_names v es attrnamebuf buflen);
  close_reply v e reply.

(** The end of the calls that write. *)
Definition close_ret (v : vol) (e : ea) (ret : Z) : M Z :=
  r ← ea_close v e;
  mret (if negb (r.1 =? 0) then AFPERR_MISC else ret).

Definition set_ea (v : vol) (uname : path) (attruname : option (list Z)) (ibuf : list Z) (oflag : Z) : M Z :=
  match attruname with
  | None => mret AFPERR_PARAM
  | Some _ =>
    r ← ea_open v uname (Z.lor EA_CREATE EA_RDWR) ea_zero;
    let '(r, e) := r in
    if negb (r =? 0) then mret AFPERR_MISC else
    r ← ea_addentry e attruname (zlen ibuf) oflag;
    let '(added, e) := r in
    if added =? -1 then close_ret v e AFPERR_MISC
    else if added =? -2 then close_ret v e AFPERR_EXIST
    else if added =? -3 then close_ret v e (if 34 <=? afp_version v then AFPERR_NOITEM else AFPERR_MISC)
    else
    w ← write_ea v e attruname ibuf;
    if negb (w =? 0) then
      d ← (if 0 <? added then delete_ea_file v e attruname else mret (-1));
      r ← (if d =? 0 then ea_delentry e attruname else mret (0, e));
      close_ret v r.2 AFPERR_MISC
    else close_ret v e AFP_OK
  end.

Definition remove_ea (v : vol) (uname : path) (attruname : option (list Z)) : M Z :=
  match attruname with
  | None => mret AFPERR_PARAM
  | Some _ =>
    r ← ea_open v uname EA_RDWR ea_zero;
    let '(r, e) := r in
    if negb (r =? 0) then mret AFPERR_MISC else
    r ← ea_delentry e attruname;
    let '(r, e) := r in
    if r =? -1 then close_ret v e AFPERR_MISC else
    d ← delete_ea_file v e attruname;
    close_ret v e (if negb (d =? 0) then AFPERR_MISC else AFP_OK)
  end.

(** ** Files that go, move and are copied *)

Definition entry_at (e : ea) (count : nat) : res ea_entry :=
  match ea_entries e !! count with Some x => Ok x | None => Abort Undefined end.

(** The loop of [ea_deletefile], [n] entries to go. *)
Fixpoint delete_files (v : vol) (n count : nat) (e : ea) (ret : Z) : M (Z * ea) :=
  match n with
  | O => mret (ret, e)
  | S n =>
    x ← lift (entry_at e count);
    d ← delete_ea_file v e (ea_name x);
    if negb (d =? 0) then delete_files v n (S count) e AFPERR_MISC
    else
      let l := alter (fun x => EaEntry (ea_namelen x) (ea_entry_size x) None) count (ea_entries e) in
      delete_files v n (S count) (set_entries (ea_count e) l e) ret
  end.

Definition ea_deletefile (v : vol) (dirfd : Z) (file : path) : M Z :=
  r ← ea_openat v dirfd file EA_RDWR ea_zero;
  let '(r, e) := r in
  if negb (r =? 0) then s ← get; mret (if sys_errno s =? ENOENT then AFP_OK else AFPERR_MISC) else
  let body :=
    r ← delete_files v (Z.to_nat (ea_count e)) 0 e AFP_OK;
    let '(ret, e) := r in
    close_ret v e ret in
  if dirfd =? -1 then body else
  cwd ← sys_opencwd;
  match cwd with
  | None => mret AFPERR_MISC
  | Some cwd =>
    ok ← sys_fchdir dirfd;
    if negb ok then mret AFPERR_MISC else
    ret ← body;
    back ← sys_fchdir cwd;
    if negb back then exit_sys else mret ret
  end.

(** The loop of [ea_renamefile]. *)
Fixpoint rename_files (v : vol) (dirfd : Z) (n count : nat) (srcea dstea : ea) : M (Z * (ea * ea)) :=
  match n with
  | O => mret (AFP_OK, (srcea, dstea))
  | S n =>
    x ← lift (entry_at srcea count);
    let eaname := ea_name x in
    srceapath ← ea_path v srcea eaname true;
    match srceapath with
    | None => mret (AFPERR_MISC, (srcea, dstea))
    | Some srceapath =>
      eapath ← ea_path v dstea eaname true;
      match eapath with
      | None => mret (AFPERR_MISC, (srcea, dstea))
      | Some eapath =>
        r ← ea_addentry dstea eaname (ea_entry_size x) 0;
        let '(r, dstea) := r in
        if r =? -1 then mret (AFPERR_MISC, (srcea, dstea)) else
        r ← ea_delentry srcea eaname;
        let '(r, srcea) := r in
        if r =? -1 then
          r ← ea_delentry dstea eaname; mret (AFPERR_MISC, (srcea, r.2))
        else
        r ← unix_rename dirfd srceapath (-1) eapath;
        if r <? 0 then mret (AFPERR_MISC, (srcea, dstea))
        else rename_files v dirfd n (S count) srcea dstea
      end
    end
  end.

(** The loop of [ea_copyfile]. *)
Fixpoint copy_files (v : vol) (sfd : Z) (n count : nat) (srcea dstea : ea) : M (Z * (ea * ea)) :=
  match n with
  | O => mret (AFP_OK, (srcea, dstea))
  | S n =>
    x ← lift (entry_at srcea count);
    let eaname := ea_name x in
    srceapath ← ea_path v srcea eaname true;
    match srceapath with
    | None => mret (AFPERR_MISC, (srcea, dstea))
    | Some srceapath =>
      eapath ← ea_path v dstea eaname true;
      match eapath with
      | None => mret (AFPERR_MISC, (srcea, dstea))
      | Some eapath =>
        r ← ea_addentry dstea eaname (ea_entry_size x) 0;
        let '(r, dstea) := r in
        if r =? -1 then mret (AFPERR_MISC, (srcea, dstea)) else
        r ← copy_file sfd srceapath eapath;
        if r <? 0 then mret (AFPERR_MISC, (srcea, dstea))
        else copy_files v sfd n (S count) srcea dstea
      end
    end
  end.

(** The exit of both. *)
Definition close_both (v : vol) (ret : Z) (srcea dstea : ea) : M Z :=
  _ ← ea_close v srcea;
  _ ← ea_close v dstea;
  mret ret.

(** The frame both share: the handles are opened, [loop] runs over the entries, and the
    handles are closed. *)
Definition transfer (v : vol) (dirfd : Z) (src dst : path)
    (loop : nat -> nat -> ea -> ea -> M (Z * (ea * ea))) : M Z :=
  r ← ea_openat v dirfd src EA_RDWR ea_zero;
  let '(r, srcea) := r in
  if negb (r =? 0) then s ← get; mret (if sys_errno s =? ENOENT then AFP_OK else AFPERR_MISC) else
  let go dstea :=
    r ← loop (Z.to_nat (ea_count srcea)) 0%nat srcea dstea;
    let '(ret, (srcea, dstea)) := r in
    close_both v ret srcea dstea in
  r ← ea_open v dst (Z.lor EA_RDWR EA_CREATE) ea_zero;
  let '(r, dstea) := r in
  s ← get;
  if negb (r =? 0) && (sys_errno s =? ENOENT) then
    r ← v_ad_open v dst;
    if negb (r =? 0) then close_both v AFPERR_MISC srcea dstea else
    r ← ea_open v dst (Z.lor EA_RDWR EA_CREATE) ea_zero;
    let '(r, dstea) := r in
    if negb (r =? 0) then close_both v AFPERR_MISC srcea dstea else go dstea
  else go dstea.

Definition ea_renamefile (v : vol) (dirfd : Z) (src dst : path) : M Z :=
  transfer v dirfd src dst (rename_files v dirfd).

Definition ea_copyfile (v : vol) (sfd : Z) (src dst : path) : M Z :=
  transfer v sfd src dst (copy_files v sfd).

(** ** The metadata path of the version 2 layout *)

(** ".AppleDouble/" and ".Parent" *)
Definition appledouble : list Z := [46; 65; 112; 112; 108; 101; 68; 111; 117; 98; 108; 101; 47].
Definition parent : list Z := [46; 80; 97; 114; 101; 110; 116].

(** What stands before the last slash, the slash included, and what stands behind. *)
Fixpoint split_slash (p : list Z) : list Z * list Z :=
  match p with
  | [] => ([], [])
  | b :: p =>
    let '(d, f) := split_slash p in
    if bool_decide (d = []) && negb (b =? 47) then ([], b :: f) else (b :: d, f)
  end.

Definition ad_path (p : list Z) (isdir : bool) : option path :=
  if isdir then
    if bool_decide (MAXPATHLEN + 1 <= length p)%nat then None else
    let front := if bool_decide (p <> []) && bool_decide (length p < MAXPATHLEN)%nat then p ++ [47] else p in
    let r := front ++ appledouble ++ parent in
    if bool_decide (MAXPATHLEN + 1 <= length r)%nat then None else Some r
  else
    let '(d, f) := split_slash p in
    let d := take MAXPATHLEN d in
    if bool_decide (MAXPATHLEN + 1 <= length (d ++ appledouble))%nat then None else
    let r := d ++ appledouble ++ f in
    if bool_decide (MAXPATHLEN + 1 <= length r)%nat then None else Some r.

Example ad_path_file : ad_path [97; 47; 98] false = Some ([97; 47] ++ appledouble ++ [98]).
Proof. reflexivity. Qed.
Example ad_path_dir : ad_path [97; 47; 98] true = Some ([97; 47; 98; 47] ++ appledouble ++ parent).
Proof. reflexivity. Qed.
Example ad_path_plain : ad_path [98] false = Some (appledouble ++ [98]).
Proof. reflexivity. Qed.

(** Proofs never need the limit's value. *)
#[global] Opaque MAXPATHLEN.
