(* ===== verification/EaFacts.v ===== *)
(** * EaFacts

    The header of [Ea]: its bytes as a function of the entries, what [pack_header]
    writes and what [unpack_header] reads, and the safety of every operation on the
    buffer.  Then the handles of a calm kernel: what [ea_open] makes of a file and what
    [ea_close] leaves. *)

From S2P Require Import Prelude Bytes AdHeader AdHeaderTheorems Vfs VfsFacts Ea.

(** ** The bytes of a header *)

Definition enc_entry (x : ea_entry) : list Z :=
  match ea_name x with
  | Some name => be32 (u32 (ea_entry_size x)) ++ name ++ [0]
  | None => []
  end.

Fixpoint enc (l : list ea_entry) : list Z :=
  match l with [] => [] | x :: l => enc_entry x ++ enc l end.

(** The length the code keeps beside a name is the length of the name. *)
Definition entry_ok (x : ea_entry) : Prop := forall name, ea_name x = Some name -> ea_namelen x = length name.

Definition live (l : list ea_entry) : list ea_entry := filter has_name l.

Lemma live_cons_some x n l : ea_name x = Some n -> live (x :: l) = x :: live l.
Proof. intros H. apply filter_cons_True. unfold has_name. by rewrite H. Qed.

Lemma live_cons_none x l : ea_name x = None -> live (x :: l) = live l.
Proof. intros H. apply filter_cons_False. unfold has_name. rewrite H. intros [? ?]. done. Qed.

Lemma enc_live l : enc (live l) = enc l.
Proof.
  induction l as [|x l IH]; [done|]. destruct (ea_name x) as [n|] eqn:Hx.
  - rewrite (live_cons_some _ _ _ Hx). cbn. by rewrite IH.
  - rewrite (live_cons_none _ _ Hx). cbn. unfold enc_entry. by rewrite Hx, IH.
Qed.

Lemma enc_app l l' : enc (l ++ l') = enc l ++ enc l'.
Proof. induction l as [|x l IH]; [done|]. cbn. by rewrite IH, app_assoc. Qed.

Lemma length_enc l : Forall entry_ok l -> length (enc l) = (names_size l + length (live l) * 4)%nat.
Proof.
  induction 1 as [|x l Hx Hl IH]; [done|]. unfold names_size in *. cbn [enc]. unfold enc_entry.
  destruct (ea_name x) as [n|] eqn:Hn.
  - rewrite (live_cons_some _ _ _ Hn). fold (live (x :: l)). change (filter has_name (x :: l)) with (live (x :: l)).
    rewrite (live_cons_some _ _ _ Hn). cbn. rewrite !length_app. cbn.
    change (filter has_name l) with (live l) in IH. rewrite IH, (Hx _ Hn). lia.
  - change (filter has_name (x :: l)) with (live (x :: l)). rewrite (live_cons_none _ _ Hn). cbn. exact IH.
Qed.

(** ** Packing *)

Lemma store_past (p d bs : list Z) off n : (length p + n)%nat = off -> (n + length bs <= length d)%nat ->
  store off bs (p ++ d) = Ok (p ++ blit n bs d).
Proof.
  intros <- H. unfold store. rewrite bool_decide_eq_true_2 by (rewrite length_app; lia). by rewrite blit_app.
Qed.

Lemma load_all d : load 0 (length d) d = Ok d.
Proof. unfold load. rewrite bool_decide_eq_true_2 by done. by rewrite drop_0, firstn_all. Qed.

Lemma load_past (p d q : list Z) off n : length p = off -> length d = n -> load off n (p ++ d ++ q) = Ok d.
Proof.
  intros <- <-. unfold load. rewrite bool_decide_eq_true_2 by (rewrite !length_app; lia).
  by rewrite drop_app_length, take_app_length.
Qed.

Lemma pack_entries_exact l : forall buf p d, Forall entry_ok l -> length p = buf -> (length (enc l) <= length d)%nat ->
  pack_entries l buf (p ++ d) = Ok (p ++ enc l ++ drop (length (enc l)) d).
Proof.
  induction l as [|x l IH]; intros buf p d Hl Hp Hd; [by rewrite drop_0|].
  apply Forall_cons in Hl as [Hx Hl]. cbn [pack_entries enc] in *. unfold enc_entry in *.
  destruct (ea_name x) as [n|] eqn:Hn; [|by apply IH]. set (w := be32 (u32 (ea_entry_size x))) in *.
  rewrite !length_app in Hd. assert (length w = 4%nat) as Hw by done. cbn in Hd.
  rewrite (store_past p d w buf 0) by (cbn; lia). cbn [mbind res_bind]. rewrite blit_0, app_assoc.
  rewrite (store_past (p ++ w) _ (n ++ [0]) (buf + 4) 0); [|rewrite length_app; lia|rewrite length_drop, length_app; cbn; lia].
  cbn [mbind res_bind]. rewrite blit_0, drop_drop, app_assoc.
  rewrite IH; [|done|rewrite !length_app, (Hx _ Hn); cbn; lia|rewrite length_drop, length_app, Hw; cbn; lia].
  rewrite drop_drop, <- !app_assoc, !length_app, !Nat.add_assoc. done.
Qed.

(** The handles [pack_header] and its callers work on. *)
Record ea_wf (e : ea) : Prop := {
  wf_count : 0 <= ea_count e <= zlen (ea_entries e);
  wf_entries : Forall entry_ok (ea_entries e);
  wf_size : 8 <= ea_size e <= zlen (ea_data e)
}.

Lemma used_wf e : ea_wf e -> used e = Ok (take (Z.to_nat (ea_count e)) (ea_entries e)).
Proof. intros [Hc _ _]. unfold used. by rewrite bool_decide_eq_true_2 by lia. Qed.

Definition packed (e : ea) : list Z :=
  take 6 (ea_data e) ++ be16 (wrap 16 (zlen (live (take (Z.to_nat (ea_count e)) (ea_entries e))))) ++
  enc (take (Z.to_nat (ea_count e)) (ea_entries e)).

(** The handle [pack_header] leaves. *)
Definition pack_result (e e' : ea) : Prop :=
  e' = set_entries (ea_count e') (ea_entries e) (set_buffer (ea_size e') (ea_data e') e) /\
  ea_count e' = zlen (live (take (Z.to_nat (ea_count e)) (ea_entries e))) /\
  ea_size e' = zlen (packed e) /\ load 0 (length (packed e)) (ea_data e') = Ok (packed e) /\ ea_wf e'.

Lemma resize_front fresh n (d : list Z) k : (k <= n)%nat -> (k <= length d)%nat -> take k (resize fresh n d) = take k d.
Proof. intros H1 H2. unfold resize. rewrite take_app_le by (rewrite length_take; lia). rewrite take_take. f_equal. lia. Qed.

Lemma length_resize fresh n (d : list Z) : length (resize fresh n d) = n.
Proof. unfold resize. rewrite length_app, length_take, length_replicate. lia. Qed.

Lemma pack_header_wp E v e s (Q : Z * ea -> sys -> Prop) : ea_wf e -> 0 < ea_count e ->
  (forall s', same_fs s s' -> answers s <> [] -> Q (-1, e) s') ->
  (forall s' e', same_fs s s' -> (answers s = [] -> s' = s) -> pack_result e e' -> Q (0, e') s') ->
  wp E (pack_header v e) s Q.
Proof.
  intros Hwf Hc H1 H2. unfold pack_header. replace (ea_count e =? 0) with false by lia.
  apply run_bind. eapply run_lift; [by apply used_wf|]. set (es := take _ _). pose proof Hwf as [Hn He Hs].
  assert (Forall entry_ok es) as Hes by by apply Forall_take.
  change (filter has_name es) with (live es). set (n := (EA_HEADER_SIZE + names_size es + length (live es) * 4)%nat).
  assert (length (packed e) = n) as Hpk.
  { unfold packed, n. fold es. rewrite !length_app, length_take, length_enc by done. cbn [length be16]. unfold EA_HEADER_SIZE. lia. }
  assert (forall s' d, same_fs s s' -> (answers s = [] -> s' = s) -> take 6 d = take 6 (ea_data e) -> (n <= length d)%nat -> 
    wp E (data ← lift (store EA_COUNT_OFF (be16 (wrap 16 (zlen (live es)))) d);
          data ← lift (pack_entries es EA_HEADER_SIZE data);
          mret (0, set_entries (zlen (live es)) (ea_entries e) (set_buffer (Z.of_nat n) data e))) s' Q) as Hgo.
  { intros s' d Hs' Hq Hd Hl. assert (8 <= n)%nat as Hn8 by (unfold n, EA_HEADER_SIZE; lia).
    assert (d = take 6 (ea_data e) ++ drop 6 d) as Hsplit by (rewrite <- Hd; by rewrite take_drop).
    set (c := be16 _). assert (length c = 2%nat) as Hc2 by done.
    assert (length (take 6 (ea_data e)) = 6%nat) as H6 by (rewrite length_take; lia).
    assert (store EA_COUNT_OFF c d = Ok ((take 6 (ea_data e) ++ c) ++ drop 8 d)) as Hst.
    { rewrite Hsplit at 1. rewrite (store_past _ _ _ _ 0); [|unfold EA_COUNT_OFF; lia|rewrite length_drop; lia].
      rewrite blit_0, drop_drop, app_assoc. done. }
    apply run_bind. eapply run_lift; [exact Hst|]. apply run_bind.
    assert (length (enc es) = n - 8)%nat as Hle by (rewrite length_enc by done; unfold n, EA_HEADER_SIZE; lia).
    eapply run_lift; [apply pack_entries_exact; [done|rewrite length_app; unfold EA_HEADER_SIZE; lia|rewrite length_drop; lia]|].
    apply run_ret. apply H2; [done|done|]. unfold pack_result. cbn. rewrite Hpk. fold es. split_and!; [done..| |].
    - unfold load. rewrite app_assoc. fold (packed e). rewrite drop_0.
      change ((take 6 (ea_data e) ++ c) ++ enc es) with ((take 6 (ea_data e) ++ c) ++ enc es).
      assert (packed e = (take 6 (ea_data e) ++ c) ++ enc es) as <- by (unfold packed; fold es; by rewrite <- app_assoc).
      rewrite bool_decide_eq_true_2 by (rewrite length_app; lia). by rewrite <- Hpk, take_app_length.
    - assert (zlen (live es) <= zlen (ea_entries e)).
      { apply inj_le. etrans; [apply length_filter|]. unfold es. rewrite length_take. lia. }
      constructor; cbn; [lia|done|]. rewrite !length_app, !length_drop. unfold n, EA_HEADER_SIZE in *. lia. }
  case_test.
  - apply run_bind, run_alloc. intros [] s' Hs' Hq; cbn [negb].
    + apply Hgo; [done|naive_solver|apply resize_front; unfold n, EA_HEADER_SIZE; lia|by rewrite length_resize].
    + apply run_ret, H1; [done|]. intros H. by destruct (Hq H).
  - run_walk. cbn [negb]. apply Hgo; [done|done|done|lia].
Qed.

(** ** Unpacking *)

(** A failed [unpack_header] aside, any handle with a whole buffer is read safely, and a
    successful one is well-formed. *)
Definition entry_read (x : ea_entry) : Prop := entry_ok x /\ has_name x.

Lemma unpack_entries_wp E n : forall buf e s (Q : Z * ea -> sys -> Prop),
  ea_size e = zlen (ea_data e) -> Forall entry_read (ea_entries e) ->
  (forall s' e', same_fs s s' -> Q (-1, e') s') ->
  (forall s' l, same_fs s s' -> Forall entry_read l -> length l = (length (ea_entries e) + n)%nat ->
     Q (0, set_entries (ea_count e) l e) s') ->
  wp E (unpack_entries n buf e) s Q.
Proof.
  induction n as [|n IH]; intros buf e s Q Hs He H1 H2; cbn [unpack_entries].
  - apply run_ret. replace e with (set_entries (ea_count e) (ea_entries e) e) by (by destruct e). apply H2; [done|done|lia].
  - case_test; [apply run_ret; by apply H1|].
    apply run_bind. eapply run_lift; [unfold load; rewrite bool_decide_eq_true_2 by lia; done|].
    apply run_bind. eapply run_lift; [unfold load; rewrite bool_decide_eq_true_2 by lia; done|].
    apply run_bind, run_alloc. intros [] s' Hs' _; cbn [negb]; [|apply run_ret; by apply H1].
    apply IH; [done| | |].
    + cbn. apply Forall_app. split; [done|]. apply Forall_singleton. split; [intros m [= <-]; done|by eexists].
    + intros s2 e' Hs2. apply H1. by eapply same_fs_trans.
    + intros s2 l Hs2 Hl Hlen. apply (H2 s2 l); [by eapply same_fs_trans|done|].
      rewrite Hlen. cbn. rewrite length_app. cbn. lia.
Qed.

Lemma unpack_header_wp E e s (Q : Z * ea -> sys -> Prop) :
  ea_size e = zlen (ea_data e) -> 8 <= ea_size e -> ea_entries e = [] -> Forall byte (ea_data e) ->
  (forall s' e', same_fs s s' -> Q (-1, e') s') ->
  (forall s' n l, same_fs s s' -> ea_wf (set_entries n l e) -> n = zlen l -> Forall has_name l -> Q (0, set_entries n l e) s') ->
  wp E (unpack_header e) s Q.
Proof.
  intros Hs H8 He Hb H1 H2. unfold unpack_header.
  apply run_bind. eapply run_lift; [unfold load; rewrite bool_decide_eq_true_2 by lia; done|].
  case_test; [apply run_ret; by apply H1|].
  apply run_bind. eapply run_lift; [unfold load; rewrite bool_decide_eq_true_2 by lia; done|].
  case_test; [apply run_ret; by apply H1|].
  apply run_bind. eapply run_lift; [unfold load; rewrite bool_decide_eq_true_2 by lia; done|].
  cbn [ea_count set_entries]. set (c := rd16 _). assert (0 <= c) as Hc0.
  { unfold c, rd16. pose proof (nth_byte (take 2 (drop 6 (ea_data e))) 0 (Forall_take _ _ _ (Forall_drop _ _ _ Hb))).
    pose proof (nth_byte (take 2 (drop 6 (ea_data e))) 1 (Forall_take _ _ _ (Forall_drop _ _ _ Hb))). unfold byte in *. lia. }
  case_test.
  - apply run_ret. rewrite He. apply (H2 s); [done| |by rewrite E2|done]. constructor; cbn; [lia|done|lia].
  - apply run_bind, run_alloc. intros [] s' Hs' _; cbn [negb]; [|apply run_ret; by apply H1].
    apply unpack_entries_wp; [done|done|intros; apply H1; by eapply same_fs_trans|].
    cbn. intros s2 l Hs2 Hl Hlen. apply Forall_and in Hl as [Hl1 Hl2].
    apply (H2 s2 c l); [by eapply same_fs_trans| |lia|done]. constructor; cbn; [lia|done|lia].
Qed.

Lemma cstr_app name rest : 0 ∉ name -> cstr (name ++ 0 :: rest) = name.
Proof.
  induction name as [|b name IH]; [done|]. intros H. cbn. apply not_elem_of_cons in H as [Hb Hn]. replace (b =? 0) with false by lia. by rewrite IH.
Qed.

(** The entries a header can hold as they are. *)
Definition entry_good (x : ea_entry) : Prop :=
  exists name, ea_name x = Some name /\ 0 ∉ name /\ ea_namelen x = length name /\ 0 <= ea_entry_size x < 2 ^ 32.

Lemma entry_good_ok l : Forall entry_good l -> Forall entry_ok l.
Proof. intros H. eapply Forall_impl; [exact H|]. intros x (name & H1 & H2 & H3 & _) n' Hn. rewrite H1 in Hn. by injection Hn as <-. Qed.

Lemma live_good l : Forall entry_good l -> live l = l.
Proof.
  intros H. apply list_filter_all. intros x Hx. rewrite Forall_forall in H. destruct (H x Hx) as (n & Hn & _). by exists n.
Qed.

Lemma alloc_quiet s : answers s = [] -> alloc s = Ok (true, s).
Proof. intros H. unfold alloc, mbind, M_bind, call. by rewrite H. Qed.

Lemma unpack_entries_exact es : forall e s p q, answers s = [] -> Forall entry_good es ->
  ea_data e = p ++ enc es ++ q -> ea_size e = zlen (ea_data e) ->
  unpack_entries (length es) (length p) e s = Ok ((0, set_entries (ea_count e) (ea_entries e ++ es) e), s).
Proof.
  induction es as [|x es IH]; intros e s p q Ha Hg Hd Hs.
  { cbn. rewrite app_nil_r. by destruct e. }
  apply Forall_cons in Hg as [(name & Hn & H0 & Hlen & Hsz) Hg]. cbn [unpack_entries length enc] in *.
  unfold enc_entry in Hd. rewrite Hn in Hd. rewrite wrap_small in Hd by done. rewrite <- !app_assoc in Hd.
  set (w := be32 (ea_entry_size x)) in *. assert (length w = 4%nat) as Hw by done.
  assert (length (ea_data e) = length p + 4 + length name + 1 + length (enc es) + length q)%nat as Htot.
  { rewrite Hd, !length_app. cbn. lia. }
  rewrite (proj2 (Z.ltb_ge (ea_size e) (Z.of_nat (length p + 5)))) by (rewrite Hs; lia).
  unfold mbind at 1, M_bind at 1. rewrite Hd at 1. unfold lift at 1.
  rewrite (load_past p w (name ++ [0] ++ enc es ++ q) (length p) 4) by done.
  unfold mbind at 1, M_bind at 1, lift at 1. set (rest := name ++ [0] ++ enc es ++ q).
  assert (load (length p + 4) (Z.to_nat (ea_size e) - (length p + 4)) (ea_data e) = Ok rest) as ->.
  { rewrite Hs, Hd. fold rest. pose proof (load_past (p ++ w) rest [] (length p + 4) (length rest)) as Hl.
    rewrite app_nil_r, <- app_assoc in Hl. rewrite <- Hl; [|rewrite length_app; lia|done]. f_equal. rewrite !length_app. lia. }
  unfold mbind at 1, M_bind at 1. rewrite alloc_quiet by done. cbn [negb].
  assert (cstr rest = name) as -> by by apply cstr_app.
  replace (rd32 w) with (ea_entry_size x) by (unfold w; rewrite <- (app_nil_r (be32 _)); by rewrite rd32_be32).
  replace (EaEntry (length name) (ea_entry_size x) (Some name)) with x by (destruct x; cbn in *; congruence).
  replace (length p + 4 + length name + 1)%nat with (length (p ++ w ++ name ++ [0])) by (rewrite !length_app; cbn; lia).
  rewrite (IH _ s _ q); [|done|done|cbn [ea_data set_entries]; rewrite Hd, <- !app_assoc; done|done]. cbn. by rewrite <- app_assoc.
Qed.

(** The header of the entries [es]. *)
Definition header (es : list ea_entry) : list Z :=
  be32 EA_MAGIC ++ be16 EA_VERSION ++ be16 (wrap 16 (zlen es)) ++ enc es.

Lemma new_header : ea_new_header = header [].
Proof. reflexivity. Qed.

Lemma load_front (d q : list Z) n : length d = n -> load 0 n (d ++ q) = Ok d.
Proof. intros H. exact (load_past [] d q 0 n eq_refl H). Qed.

(** What [unpack_header] finds in a header: as many of the entries as the 16 bits of the
    count tell. *)
Lemma unpack_header_exact e s es : answers s = [] -> Forall entry_good es ->
  ea_data e = header es -> ea_size e = zlen (ea_data e) -> ea_entries e = [] ->
  let n := Z.to_nat (wrap 16 (zlen es)) in
  unpack_header e s = Ok ((0, set_entries (Z.of_nat n) (take n es) e), s).
Proof.
  intros Ha Hg Hd Hs He n. unfold unpack_header, header in *.
  set (m := be32 EA_MAGIC) in *. set (w := be16 EA_VERSION) in *. set (c := be16 (wrap 16 (zlen es))) in *.
  assert (0 <= wrap 16 (zlen es) < 2 ^ 16) as Hr by (apply wrap_range; lia).
  assert (rd16 c = Z.of_nat n) as Hc.
  { unfold c. rewrite <- (app_nil_r (be16 _)), rd16_be16 by done. unfold n. lia. }
  unfold mbind at 1, M_bind at 1, lift at 1. rewrite Hd at 1. rewrite load_front by done.
  change (rd32 m =? EA_MAGIC) with true. cbn [negb].
  unfold mbind at 1, M_bind at 1, lift at 1. rewrite Hd at 1. rewrite (load_past m w _ 4 2) by done.
  change (rd16 w =? EA_VERSION) with true. cbn [negb].
  unfold mbind at 1, M_bind at 1, lift at 1. rewrite Hd at 1. rewrite (app_assoc m w), (load_past (m ++ w) c _ 6 2) by done.
  rewrite Hc. cbn [ea_count set_entries]. case_test.
  - rewrite He. replace n with O by lia. done.
  - unfold mbind at 1, M_bind at 1. rewrite alloc_quiet by done. cbn [negb]. rewrite Nat2Z.id.
    assert (n <= length es)%nat by (unfold n, wrap; pose proof (Z.mod_le (zlen es) (2 ^ 16)); lia).
    replace n with (length (take n es)) at 1 by (rewrite length_take; lia).
    change EA_HEADER_SIZE with (length (m ++ w ++ c)).
    rewrite (unpack_entries_exact (take n es) _ s (m ++ w ++ c) (enc (drop n es))); [done|done|by apply Forall_take| |done].
    cbn [ea_data set_entries]. rewrite Hd, <- enc_app, take_drop. by rewrite <- !app_assoc.
Qed.
