(* ===== verification/EaStore.v ===== *)
(** * EaStore

    The abstract store of extended attributes, an ordered list of names and values, and
    how a calm kernel's files represent it.  Each step of the operations of [Ea] is
    related to the store: what [ea_open] reads, what the entries become, what
    [ea_close] writes. *)

From S2P Require Import Prelude Bytes AdHeader AdHeaderTheorems Vfs VfsFacts Ea EaFacts.

(** ** The store *)

Abbreviation attrs := (list (list Z * list Z)).

Fixpoint att_get (n : list Z) (m : attrs) : option (list Z) :=
  match m with
  | [] => None
  | (k, x) :: m => if decide (k = n) then Some x else att_get n m
  end.

(** Replace the value in place, or add the attribute at the end. *)
Fixpoint att_set (n y : list Z) (m : attrs) : attrs :=
  match m with
  | [] => [(n, y)]
  | (k, x) :: m => if decide (k = n) then (k, y) :: m else (k, x) :: att_set n y m
  end.

Definition att_del (n : list Z) (m : attrs) : attrs := filter (fun kx => kx.1 <> n) m.

Lemma att_get_None n m : att_get n m = None <-> n ∉ m.*1.
Proof.
  induction m as [|[k x] m IH]; cbn; [set_solver|]. destruct (decide (k = n)) as [->|Hk]; [set_solver|]. rewrite IH. set_solver.
Qed.

Lemma att_get_elem n x m : att_get n m = Some x -> (n, x) ∈ m.
Proof.
  induction m as [|[k y] m IH]; cbn; [done|]. destruct (decide (k = n)) as [->|Hk]; [intros [= ->]; left|intros H; right; auto].
Qed.

Lemma att_set_new n y m : att_get n m = None -> att_set n y m = m ++ [(n, y)].
Proof. induction m as [|[k x] m IH]; cbn; [done|]. destruct (decide (k = n)); [done|]. intros H. by rewrite IH. Qed.

Lemma att_set_elem n y m k x : NoDup m.*1 -> (k, x) ∈ att_set n y m -> (k = n /\ x = y) \/ (k <> n /\ (k, x) ∈ m).
Proof.
  induction m as [|[k' x'] m IH]; cbn.
  - intros _ [= -> ->]%list_elem_of_singleton. by left.
  - intros [Hk' Hnd]%NoDup_cons. destruct (decide (k' = n)) as [->|Hne]; rewrite elem_of_cons; intros [[= -> ->]|H].
    + by left.
    + right. split; [|by right]. intros ->. apply Hk'. apply list_elem_of_fmap. by exists (n, x).
    + right. split; [done|left].
    + destruct (IH Hnd H) as [?|[? ?]]; [by left|right; split; [done|by right]].
Qed.

Lemma att_set_names n y m : att_get n m <> None -> (att_set n y m).*1 = m.*1.
Proof.
  induction m as [|[k x] m IH]; cbn; [done|]. destruct (decide (k = n)) as [->|Hk]; [done|]. intros H. cbn. by rewrite IH.
Qed.

Lemma att_del_elem n m k x : (k, x) ∈ att_del n m <-> k <> n /\ (k, x) ∈ m.
Proof. unfold att_del. rewrite list_elem_of_filter. done. Qed.

Lemma att_del_names n m : (att_del n m).*1 ⊆ m.*1.
Proof.
  intros k Hk. apply list_elem_of_fmap in Hk as ([k' x] & -> & [_ H]%att_del_elem). apply list_elem_of_fmap. by exists (k', x).
Qed.

Lemma att_del_NoDup n m : NoDup m.*1 -> NoDup (att_del n m).*1.
Proof.
  induction m as [|[k x] m IH]; [done|]. intros [Hk Hnd]%NoDup_cons. unfold att_del in *. rewrite filter_cons.
  destruct (decide _); [|auto]. cbn. apply NoDup_cons. split; [|auto]. intros H. by apply Hk, (att_del_names n m).
Qed.

Lemma att_set_NoDup n y m : NoDup m.*1 -> NoDup (att_set n y m).*1.
Proof.
  intros H. destruct (att_get n m) eqn:Hn; [by rewrite att_set_names by (by rewrite Hn)|].
  rewrite att_set_new, fmap_app by done. apply att_get_None in Hn. apply NoDup_app. split_and!; [done|set_solver|apply NoDup_singleton].
Qed.

(** ** The entries of a store *)

Definition entry_of (kx : list Z * list Z) : ea_entry := EaEntry (length kx.1) (zlen kx.2) (Some kx.1).
Definition entries_of (m : attrs) : list ea_entry := entry_of <$> m.

Lemma find_entries n m :
  match find_entry n (entries_of m) with
  | Some i => exists x, m !! i = Some (n, x) /\ att_get n m = Some x /\
      (forall y, alter (fun e => EaEntry (ea_namelen e) (zlen y) (ea_name e)) i (entries_of m) = entries_of (att_set n y m)) /\
      (NoDup m.*1 -> live (alter (fun e => EaEntry (ea_namelen e) (ea_entry_size e) None) i (entries_of m))
                     = entries_of (att_del n m))
  | None => att_get n m = None
  end.
Proof.
  induction m as [|[k x] m IH]; [done|]. cbn [entries_of fmap list_fmap find_entry att_get]. cbn [entry_of ea_name fst snd].
  case_bool_decide as Hk.
  - injection Hk as ->. rewrite decide_True by done. exists x. split_and!; [done|done| |].
    + intros y. cbn. by rewrite decide_True.
    + intros [Hn Hnd]%NoDup_cons. etrans; [by apply (live_cons_none (EaEntry (length n) (zlen x) None) (entries_of m))|].
      unfold att_del. rewrite filter_cons_False by naive_solver.
      assert (filter (fun kx => kx.1 <> n) m = m) as ->.
      { apply list_filter_all. intros [k' x'] Hin <-. apply Hn, list_elem_of_fmap. by exists (k', x'). }
      apply list_filter_all. intros e He. apply list_elem_of_fmap in He as (kx & -> & _). by exists kx.1.
  - assert (k <> n) as Hne by congruence. rewrite decide_False by done. fold (entries_of m).
    destruct (find_entry n (entries_of m)) as [i|]; [|done]. cbn [fmap option_fmap option_map]. destruct IH as (x' & H1 & H2 & H3 & H4). exists x'.
    split_and!; [done|done| |].
    + intros y. cbn. rewrite decide_False by done. cbn. f_equal. apply H3.
    + intros [Hn Hnd]%NoDup_cons. unfold att_del. rewrite filter_cons_True by done.
      etrans; [by apply (live_cons_some (entry_of (k, x)) k)|]. cbn. f_equal. by apply H4.
Qed.

Lemma live_entries m : live (entries_of m) = entries_of m.
Proof. apply list_filter_all. intros e He. apply list_elem_of_fmap in He as (kx & -> & _). by exists kx.1. Qed.

Lemma entries_app m m' : entries_of (m ++ m') = entries_of m ++ entries_of m'.
Proof. apply fmap_app. Qed.

Lemma length_entries m : length (entries_of m) = length m.
Proof. apply length_fmap. Qed.

Lemma entries_ok m : Forall entry_ok (entries_of m).
Proof. apply Forall_fmap, Forall_true. intros kx n [= <-]. done. Qed.

Lemma entries_good m : (forall k x, (k, x) ∈ m -> 0 ∉ k /\ zlen x < 2 ^ 32) -> Forall entry_good (entries_of m).
Proof.
  intros H. apply Forall_fmap, Forall_forall. intros [k x] Hin. destruct (H _ _ Hin) as [H0 Hx]. exists k. cbn. split_and!; done || lia.
Qed.

(** ** A file and its attributes *)

(** The header of a file, and the file of a value. *)
Definition hpath (adn : path) : path := strlcat (take MAXPATHLEN adn) ea_suffix.
Definition vpath (v : vol) (adn : path) (n : list Z) : path :=
  strlcat (strlcat (hpath adn) ea_colons) (default [] (mtoupath v n)).

(** A name the volume can store: no slash, no NUL, convertible, and short enough for its
    path to fit. *)
Definition name_ok (v : vol) (adn : path) (n : list Z) : Prop :=
  0 ∉ n /\ 47 ∉ n /\ exists u, mtoupath v n = Some u /\ (length adn + 6 + length u <= MAXPATHLEN)%nat.

(** The names in use: storable, and converted to different names. *)
Record names_ok (v : vol) (adn : path) (N : list (list Z)) : Prop := {
  names_each : Forall (name_ok v adn) N;
  names_inj : forall n n', n ∈ N -> n' ∈ N -> mtoupath v n = mtoupath v n' -> n = n';
  names_count : zlen N < 65536
}.

Section file.
Context (v : vol) (uname : path) (c : Z) (D : gset fkey) (adn : path).

Definition isd : bool := bool_decide ((c, uname) ∈ D).

Hypothesis Had : v_ad_path v uname isd = Some adn.

Definition hk : fkey := (c, hpath adn).
Definition vk (n : list Z) : fkey := (c, vpath v adn n).

Lemma name_paths n : name_ok v adn n -> exists u, mtoupath v n = Some u /\
  hpath adn = adn ++ ea_suffix /\ vpath v adn n = adn ++ ea_suffix ++ ea_colons ++ u.
Proof.
  intros (_ & _ & u & Hu & Hl). exists u. unfold vpath. rewrite Hu. cbn [default from_option id].
  assert (hpath adn = adn ++ ea_suffix) as Hh.
  { unfold hpath, strlcat. rewrite (take_ge adn) by lia. apply take_ge. rewrite length_app. cbn. lia. }
  rewrite Hh. split_and!; [done|done|]. unfold strlcat. rewrite (take_ge (_ ++ ea_colons)); [|rewrite !length_app; cbn; lia].
  rewrite take_ge; [by rewrite <- !app_assoc|]. rewrite !length_app. cbn. lia.
Qed.

Lemma vk_hk n : name_ok v adn n -> vk n <> hk.
Proof.
  intros (u & _ & Hh & Hv)%name_paths [= H]. rewrite Hh, Hv in H. apply (f_equal length) in H. rewrite !length_app in H. cbn in H. lia.
Qed.

Lemma vk_inj N n n' : names_ok v adn N -> n ∈ N -> n' ∈ N -> vk n = vk n' -> n = n'.
Proof.
  intros [He Hi _] Hn Hn' [= H]. rewrite Forall_forall in He. apply Hi; [done|done|].
  destruct (name_paths n (He _ Hn)) as (u & -> & _ & H1). destruct (name_paths n' (He _ Hn')) as (u' & -> & _ & H2).
  rewrite H1, H2 in H. do 3 apply app_inv_head in H. by rewrite H.
Qed.

(** The flags the calls open with, and those of the handle. *)
Definition call_flags (fl : Z) : Prop := fl = EA_RDONLY \/ fl = EA_RDWR \/ fl = Z.lor EA_CREATE EA_RDWR.
Definition hflags (fl : Z) : Z := if isd then Z.lor fl EA_DIR else fl.

Lemma hflags_dir fl : call_flags fl -> flag (hflags fl) EA_DIR = isd.
Proof. unfold hflags. intros [->|[->| ->]]; by destruct isd. Qed.

Lemma hflags_rdwr fl : call_flags fl -> flag (hflags fl) EA_RDWR = flag fl EA_RDWR.
Proof. unfold hflags. intros [->|[->| ->]]; by destruct isd. Qed.

(** The handle of the entries [es], all of them used; the buffer is [d]. *)
Definition handle (fl : Z) (es : list ea_entry) (d : list Z) : ea :=
  Ea EA_INITED (-1) (Some uname) (zlen es) es (Some hk) (hflags fl) (zlen d) d.

Lemma path_header e s : ea_filename e = Some uname -> flag (ea_flags e) EA_DIR = isd ->
  ea_path v e None false s = Ok (Some (hpath adn), s).
Proof. intros H1 H2. unfold ea_path. by rewrite H1, H2, Had. Qed.

Lemma path_value e s n : ea_filename e = Some uname -> flag (ea_flags e) EA_DIR = isd -> name_ok v adn n ->
  ea_path v e (Some n) true s = Ok (Some (vpath v adn n), s).
Proof.
  intros H1 H2 (_ & H47 & u & Hu & _). unfold ea_path. rewrite H1, H2, Had, bool_decide_eq_false_2 by done.
  unfold vpath. by rewrite Hu.
Qed.

Lemma run_header E fl es d s (Q : option path -> sys -> Prop) : call_flags fl ->
  Q (Some (hpath adn)) s -> wp E (ea_path v (handle fl es d) None false) s Q.
Proof. intros Hf HQ. eapply result_wp; [apply path_header; [done|by apply hflags_dir]|done]. Qed.

Lemma run_value E fl es d n s (Q : option path -> sys -> Prop) : call_flags fl -> name_ok v adn n ->
  Q (Some (vpath v adn n)) s -> wp E (ea_path v (handle fl es d) (Some n) true) s Q.
Proof. intros Hf Hn HQ. eapply result_wp; [apply path_value; [done|by apply hflags_dir|done]|done]. Qed.

(** ** Opening *)

(** The part of [ea_open] before the header is opened. *)
Lemma run_open E fl F s e0 (Q : Z * ea -> sys -> Prop) : call_flags fl -> calm c D F s ->
  (forall s', calm c D F s' ->
    wp E (fd ← sys_openat (-1) (hpath adn) (flag fl EA_CREATE) false;
          let e := set_fd fd (set_filename (Some uname) (set_dirfd (-1) (set_flags (hflags fl) ea_zero))) in
          match fd with
          | None => s ← get; ea_open_exit (if (sys_errno s =? ENOENT) && negb (flag fl EA_CREATE) then -2 else -1) e
          | Some fd => ea_load e fd
          end) s' Q) ->
  wp E (ea_open v uname fl e0) s Q.
Proof.
  intros Hf Hs HQ. unfold ea_open.
  replace (flag fl (Z.lor EA_RDONLY EA_RDWR)) with true by (destruct Hf as [->|[->| ->]]; done). cbn [negb].
  apply run_bind, (run_isdir_calm _ c D F); [done|]. intros s1 Hs1. apply run_bind, (run_alloc_calm _ c D F); [done|]. cbn [negb].
  apply run_bind. eapply result_wp; [apply path_header; [done|]|].
  - rewrite <- (hflags_dir fl Hf). unfold hflags, isd. by destruct (bool_decide _).
  - replace (set_filename _ _) with (set_filename (Some uname) (set_dirfd (-1) (set_flags (hflags fl) ea_zero))); [by apply HQ|].
    unfold hflags, isd. by destruct (bool_decide _).
Qed.

Lemma open_present E fl F s e0 es : call_flags fl -> calm c D F s -> Forall entry_good es -> zlen es < 65536 ->
  F !! hk = Some (header es) ->
  wp E (ea_open v uname fl e0) s (fun r s' => r = (0, handle fl es (header es)) /\ calm c D F s').
Proof.
  intros Hf Hs Hg Hlen HF. apply (run_open _ _ F); [done|done|]. intros s1 Hs1.
  apply run_bind, (run_openat_calm _ c D F); [done|]. fold hk. rewrite HF. intros s2 Hs2. unfold ea_load.
  apply run_bind, (run_attempt_calm _ c D F); [done|]. cbn [negb].
  apply run_bind, (run_fstat_calm _ c D F _ _ (header es)); [done|done|].
  assert (8 <= length (header es))%nat as H8 by (unfold header; rewrite !length_app; cbn; lia). case_test; [lia|].
  apply run_bind, (run_alloc_calm _ c D F); [done|]. cbn [negb].
  apply run_bind, (run_read_calm _ c D F _ _ _ _ (header es)); [done|done|]. rewrite Nat2Z.id, drop_0, firstn_all.
  rewrite Z.eqb_refl. cbn [negb]. apply run_bind.
  eapply result_wp; [apply (unpack_header_exact _ _ es); [by destruct Hs2|done|done|done|done]|].
  rewrite wrap_small by lia. rewrite Nat2Z.id, firstn_all. cbn. done.
Qed.

Lemma open_create E F s e0 : calm c D F s -> F !! hk = None ->
  wp E (ea_open v uname (Z.lor EA_CREATE EA_RDWR) e0) s (fun r s' =>
    r = (0, handle (Z.lor EA_CREATE EA_RDWR) [] (header [])) /\ calm c D (<[hk := []]> F) s').
Proof.
  intros Hs HF. apply (run_open _ _ F); [by right; right|done|]. intros s1 Hs1.
  apply run_bind, (run_openat_calm _ c D F); [done|]. fold hk. rewrite HF. intros s2 Hs2. unfold ea_load.
  apply run_bind, (run_attempt_calm _ c D (<[hk := []]> F)); [done|]. cbn [negb].
  apply run_bind, (run_fstat_calm _ c D (<[hk := []]> F) _ _ []); [done|apply lookup_insert_eq|]. cbn [length Z.of_nat Z.eqb].
  apply run_bind, (run_alloc_calm _ c D (<[hk := []]> F)); [done|]. done.
Qed.

Lemma open_absent E fl F s e0 : call_flags fl -> flag fl EA_CREATE = false -> calm c D F s -> F !! hk = None ->
  wp E (ea_open v uname fl e0) s (fun r s' => r.1 = -2 /\ sys_errno s' = ENOENT /\ calm c D F s').
Proof.
  intros Hf Hcr Hs HF. apply (run_open _ _ F); [done|done|]. intros s1 Hs1. rewrite Hcr.
  apply run_bind, (run_openat_calm _ c D F); [done|]. fold hk. rewrite HF. intros s2 Hs2 He.
  run_walk. rewrite He. done.
Qed.

(** ** Closing *)

(** The files after the header of the entries [es] was written or removed. *)
Definition put_header (es : list ea_entry) (F : gmap fkey (list Z)) : gmap fkey (list Z) :=
  match es with [] => delete hk F | _ => <[hk := header es]> F end.

Lemma put_header_ne es F k : k <> hk -> put_header es F !! k = F !! k.
Proof. intros H. destruct es; cbn; [by apply lookup_delete_ne|by apply lookup_insert_ne]. Qed.

(** The buffer of a handle starts with magic and version. *)
Definition buffer_ok (d : list Z) : Prop := take 6 d = be32 EA_MAGIC ++ be16 EA_VERSION /\ (8 <= length d)%nat.

Lemma header_buffer es : buffer_ok (header es).
Proof. split; [done|]. unfold header. rewrite !length_app. cbn. lia. Qed.

Lemma handle_wf fl es d : Forall entry_ok es -> buffer_ok d -> ea_wf (handle fl es d).
Proof. intros He [_ Hd]. constructor; cbn; [lia|done|lia]. Qed.

Lemma packed_handle fl es d : buffer_ok d -> packed (handle fl es d) = header (live es).
Proof.
  intros [Hd _]. unfold packed, header. cbn [ea_data ea_count ea_entries handle]. rewrite Nat2Z.id, firstn_all, Hd, enc_live.
  by rewrite <- !app_assoc.
Qed.

Lemma unlink_header E fl F s x e : call_flags fl -> calm c D F s -> F !! hk = Some x ->
  ea_filename e = Some uname -> ea_flags e = hflags fl -> ea_dirfd e = -1 ->
  wp E (eaname ← ea_path v e None false;
        match eaname with
        | None => undefined
        | Some eaname =>
          exists_ ← statat (ea_dirfd e) eaname;
          if (exists_ : bool) then
            r ← netatalk_unlinkat (ea_dirfd e) eaname;
            mret (if negb (r =? 0) then -1 else 0, e)
          else s ← get; mret (if negb (sys_errno s =? ENOENT) then -1 else 0, e)
        end) s (fun r s' => r = (0, e) /\ calm c D (delete hk F) s').
Proof.
  intros Hf Hs HF He Hfl Hdir. apply run_bind. eapply result_wp; [apply path_header; [done|rewrite Hfl; by apply hflags_dir]|].
  rewrite Hdir. apply run_bind, (run_statat_calm _ c D F); [done| |intros s' _ Hn; unfold hk in HF; by rewrite HF in Hn].
  intros s1 Hs1 _. apply run_bind. unfold netatalk_unlinkat.
  apply run_bind, (run_unlinkat_calm _ c D F _ _ x); [done|done|]. intros s2 Hs2. run_walk. done.
Qed.

Lemma close_rdwr E fl es d F s x : call_flags fl -> flag fl EA_RDWR = true -> calm c D F s -> F !! hk = Some x ->
  Forall entry_ok es -> buffer_ok d ->
  wp E (ea_close v (handle fl es d)) s (fun r s' => r.1 = 0 /\ calm c D (put_header (live es) F) s').
Proof.
  intros Hf Hrw Hs HF He Hd. unfold ea_close. cbn [ea_inited handle ea_flags]. replace (EA_INITED =? EA_INITED) with true by done.
  cbn [negb]. rewrite hflags_rdwr, Hrw by done. pose proof (handle_wf fl es d He Hd) as Hwf.
  assert (forall e s', ea_entries e = es -> calm c D (put_header (live es) F) s' ->
    wp E (_ ← lift (used (set_entries (zlen es) (ea_entries e) e));
          mret (0, set_fd None (set_buffer (ea_size e) [] (set_filename None (set_entries 0 [] e))))) s'
      (fun r s' => r.1 = 0 /\ calm c D (put_header (live es) F) s')) as Hend.
  { intros e s' Hes Hs'. apply run_bind. eapply run_lift; [unfold used; cbn; rewrite Hes, bool_decide_eq_true_2 by lia; done|]. done. }
  apply run_bind. unfold ea_flush. apply run_bind. destruct es as [|x0 es'] eqn:Hes.
  { apply run_ret. cbn [fst snd Z.eqb negb]. change (ea_count (handle fl [] d) =? 0) with true. cbv iota.
    eapply run_mono; [|apply (unlink_header E fl F s x (handle fl [] d) Hf Hs HF eq_refl eq_refl eq_refl)]. cbn beta. intros r s' [-> Hs']. by apply Hend. }
  rewrite <- Hes in *. assert (0 < zlen es) as Hpos by (rewrite Hes; cbn; lia). clear Hes x0 es'.
  apply pack_header_wp; [done|done|intros s' _ H; by destruct Hs|].
  intros s1 e1 _ Hq Hpk. rewrite (Hq (proj1 Hs)). clear s1 Hq. destruct Hpk as (He1 & Hc1 & Hs1 & Hl1 & Hwf1).
  rewrite packed_handle in * by done. cbn [ea_count handle ea_entries] in Hc1. rewrite Nat2Z.id, firstn_all in Hc1.
  cbn [fst snd Z.eqb negb]. cbv iota. assert (ea_entries e1 = es) as Hent by by rewrite He1.
  case_test.
  - assert (live es = []) as Hnil by (apply nil_length_inv; lia).
    eapply run_mono; [|apply (unlink_header E fl F s x e1 Hf Hs HF); rewrite He1; reflexivity]. cbn beta. intros r s' [-> Hs']. apply Hend; [done|].
    by rewrite Hnil.
  - replace (ea_fd e1) with (Some hk) by by rewrite He1.
    apply run_bind, (run_attempt_calm _ c D F); [done|]. cbn [negb].
    apply run_bind, (run_ftruncate_calm _ c D F); [done|]. intros s2 Hs2. cbn [negb].
    rewrite Hs1, Nat2Z.id. apply run_bind. eapply run_lift; [exact Hl1|].
    apply run_bind, (run_write_calm _ c D (<[hk := []]> F)); [done|apply lookup_insert_eq|]. intros s3 Hs3.
    rewrite bool_decide_eq_true_2 by done. apply run_ret. apply Hend; [done|]. rewrite insert_insert_eq in Hs3.
    destruct (live es); [cbn in *; lia|done].
Qed.

Lemma close_rdonly E es d F s : calm c D F s ->
  wp E (ea_close v (handle EA_RDONLY es d)) s (fun r s' => r.1 = 0 /\ calm c D F s').
Proof.
  intros Hs. unfold ea_close. cbn [ea_inited handle ea_flags]. replace (EA_INITED =? EA_INITED) with true by done. cbn [negb].
  rewrite hflags_rdwr by by left. cbn [flag Z.land negb]. change (flag EA_RDONLY EA_RDWR) with false. run_walk.
  eapply run_lift; [unfold used; cbn; rewrite bool_decide_eq_true_2 by lia; done|]. done.
Qed.

End file.
