(* ===== verification/EaOps.v ===== *)
(** * EaOps

    What each call of [Ea] does to the store of [EaStore] under a calm kernel: the calls
    as operations, their specification on the store, and one lemma per call. *)

From S2P Require Import Prelude Bytes AdHeader AdHeaderTheorems Vfs VfsFacts Ea EaFacts EaStore.

(** ** The calls and what they promise *)

Inductive ea_op : Type :=
  | OpSize (n : list Z)
  | OpGet (n : list Z) (maxreply : Z)
  | OpList
  | OpSet (n x : list Z) (oflag : Z)
  | OpRemove (n : list Z)
  | OpDelete.

(** A call on the file [uname] of the working directory, with its reply.  The name list
    of [list_eas] is a buffer of [ATTRNAMEBUFSIZ] bytes. *)
Definition run_op (v : vol) (uname : path) (op : ea_op) : M (Z * list Z) :=
  match op with
  | OpSize n => get_easize v uname (Some n)
  | OpGet n maxreply => get_eacontent v uname (Some n) maxreply
  | OpList =>
    r ← list_eas v (replicate (Z.to_nat ATTRNAMEBUFSIZ) 0) 0 uname;
    mret (r.1, take r.2.2 r.2.1)
  | OpSet n x oflag => r ← set_ea v uname (Some n) x oflag; mret (r, [])
  | OpRemove n => r ← remove_ea v uname (Some n); mret (r, [])
  | OpDelete => r ← ea_deletefile v (-1) uname; mret (r, [])
  end.

Fixpoint run_ops (v : vol) (uname : path) (ops : list ea_op) : M (list (Z * list Z)) :=
  match ops with
  | [] => mret []
  | op :: ops => r ← run_op v uname op; rs ← run_ops v uname ops; mret (r :: rs)
  end.

Definition absent (v : vol) : Z := if 34 <=? afp_version v then AFPERR_NOITEM else AFPERR_MISC.

(** The names of the attributes, each with its NUL, until one cannot be converted or the
    room runs out. *)
Fixpoint spec_list (v : vol) (m : attrs) (acc : list Z) : Z * list Z :=
  match m with
  | [] => (AFP_OK, acc)
  | (n, _) :: m =>
    match v_to_mac v n with
    | None | Some [] => (AFPERR_MISC, acc)
    | Some mac =>
      let acc := acc ++ mac ++ [0] in
      if ATTRNAMEBUFSIZ - 256 <? zlen acc then (AFPERR_MISC, acc) else spec_list v m acc
    end
  end.

(** The reply to a fetch of the value [x]: the value, when the client has room for it,
    behind its size. *)
Definition spec_get (x : list Z) (maxreply : Z) : Z * list Z :=
  if maxreply <=? MAX_REPLY_EXTRA_BYTES then (AFPERR_PARAM, [0; 0; 0; 0])
  else if Z.min (maxreply - MAX_REPLY_EXTRA_BYTES) MAX_EA_SIZE <? zlen x then (AFPERR_PARAM, be32 (zlen x))
  else (AFP_OK, be32 (zlen x) ++ x).

(** The reply of an operation, and the store after it. *)
Definition spec_op (v : vol) (op : ea_op) (m : attrs) : (Z * list Z) * attrs :=
  match op with
  | OpSize n => (match att_get n m with Some x => (AFP_OK, be32 (zlen x)) | None => (absent v, [0; 0; 0; 0]) end, m)
  | OpGet n maxreply => (match att_get n m with Some x => spec_get x maxreply | None => (absent v, [0; 0; 0; 0]) end, m)
  | OpList => (spec_list v m [], m)
  | OpSet n x oflag =>
    match att_get n m with
    | Some _ => if flag oflag O_CREAT then ((AFPERR_EXIST, []), m) else ((AFP_OK, []), att_set n x m)
    | None => if flag oflag O_TRUNC then ((absent v, []), m) else ((AFP_OK, []), att_set n x m)
    end
  | OpRemove n => if decide (m = []) then ((AFPERR_MISC, []), m) else ((AFP_OK, []), att_del n m)
  | OpDelete => ((AFP_OK, []), [])
  end.

Fixpoint spec_ops (v : vol) (ops : list ea_op) (m : attrs) : list (Z * list Z) * attrs :=
  match ops with
  | [] => ([], m)
  | op :: ops =>
    let '(r, m) := spec_op v op m in
    let '(rs, m) := spec_ops v ops m in (r :: rs, m)
  end.

(** The names and values an operation brings. *)
Definition op_ok (N : list (list Z)) (op : ea_op) : Prop :=
  match op with
  | OpSize n | OpGet n _ | OpRemove n => n ∈ N
  | OpSet n x _ => n ∈ N /\ zlen x < 2 ^ 32
  | OpList | OpDelete => True
  end.

Section ops.
Context (v : vol) (uname : path) (c : Z) (D : gset fkey) (adn : path) (N : list (list Z)).
Hypothesis Had : v_ad_path v uname (isd uname c D) = Some adn.
Hypothesis HN : names_ok v adn N.
Hypothesis HD : forall n, n ∈ N -> vk v c adn n ∉ D.
Hypothesis Hmac : forall n mac, v_to_mac v n = Some mac -> (length mac <= 255)%nat.

Abbreviation hk := (hk c adn).
Abbreviation vk := (vk v c adn).
Abbreviation calm := (calm c D).
Abbreviation handle := (handle uname c D adn).
Abbreviation put_header := (put_header c adn).

(** The files [F] hold the store [m]. *)
Record store_ok (m : attrs) (F : gmap fkey (list Z)) : Prop := {
  store_header : F !! hk = match m with [] => None | _ => Some (header (entries_of m)) end;
  store_values : forall k x, (k, x) ∈ m -> F !! vk k = Some x;
  store_nodup : NoDup m.*1;
  store_names : forall k x, (k, x) ∈ m -> k ∈ N /\ zlen x < 2 ^ 32
}.

(** Only the files of the attributes change. *)
Definition frame (F F' : gmap fkey (list Z)) : Prop :=
  forall k, k <> hk -> (forall n, n ∈ N -> k <> vk n) -> F' !! k = F !! k.

Lemma frame_refl F : frame F F.
Proof. done. Qed.

Lemma frame_trans F1 F2 F3 : frame F1 F2 -> frame F2 F3 -> frame F1 F3.
Proof. intros H1 H2 k Hk Hn. by rewrite H2, H1. Qed.

Lemma name_each n : n ∈ N -> name_ok v adn n.
Proof. destruct HN as [He _ _]. rewrite Forall_forall in He. apply He. Qed.

Lemma store_good m F : store_ok m F -> Forall entry_good (entries_of m).
Proof.
  intros Hm. apply entries_good. intros k x Hin. destruct (store_names _ _ Hm _ _ Hin) as [Hk Hx].
  by destruct (name_each _ Hk).
Qed.

Lemma store_count m F : store_ok m F -> zlen (entries_of m) < 65536.
Proof.
  intros Hm. rewrite length_entries. destruct HN as [_ _ Hc].
  assert (length m.*1 <= length N)%nat as Hl; [|rewrite length_fmap in Hl; lia].
  apply submseteq_length, NoDup_submseteq; [by eapply store_nodup|]. intros k Hk.
  apply list_elem_of_fmap in Hk as ([k' x] & -> & Hin). by destruct (store_names _ _ Hm _ _ Hin).
Qed.

(** Opening for a read, or for a change of what is there. *)
Lemma open_store E fl m F s e0 : call_flags fl -> flag fl EA_CREATE = false -> calm F s -> store_ok m F ->
  wp E (ea_open v uname fl e0) s (fun r s' => calm F s' /\
    if decide (m = []) then r.1 = -2 /\ sys_errno s' = ENOENT
    else r = (0, handle fl (entries_of m) (header (entries_of m)))).
Proof.
  intros Hf Hcr Hs Hm. pose proof (store_header _ _ Hm) as Hh. destruct m as [|kx m].
  - eapply run_mono; [|by eapply open_absent]. cbn. naive_solver.
  - eapply run_mono; [|eapply open_present; [done|done|done|by eapply store_good|by eapply store_count|done]].
    intros r s' [-> Hs']. split; [done|]. by rewrite decide_False.
Qed.

(** Opening for [set_ea]: the header exists afterwards. *)
Lemma open_set E m F s e0 : calm F s -> store_ok m F ->
  wp E (ea_open v uname (Z.lor EA_CREATE EA_RDWR) e0) s (fun r s' => exists F', calm F' s' /\
    r = (0, handle (Z.lor EA_CREATE EA_RDWR) (entries_of m) (header (entries_of m))) /\
    is_Some (F' !! hk) /\ forall k, k <> hk -> F' !! k = F !! k).
Proof.
  intros Hs Hm. pose proof (store_header _ _ Hm) as Hh. destruct m as [|kx m].
  - eapply run_mono; [|by eapply open_create]. cbn. intros r s' [-> Hs']. eexists. split_and!; [done|done| |].
    + rewrite lookup_insert_eq. by eexists.
    + intros k Hk. by apply lookup_insert_ne.
  - eapply run_mono; [|eapply open_present; [done|by right; right|done|by eapply store_good|by eapply store_count|done]].
    cbn. intros r s' [-> Hs']. exists F. split_and!; [done|done|by rewrite Hh|done].
Qed.

(** ** The parts of the calls *)

Lemma used_handle fl es d : used (handle fl es d) = Ok es.
Proof. unfold used. cbn. rewrite bool_decide_eq_true_2 by lia. by rewrite Nat2Z.id, firstn_all. Qed.

Lemma find_value n m : find_entry n (entries_of m) ≫= (fun i => entries_of m !! i) = (fun x => entry_of (n, x)) <$> att_get n m.
Proof.
  pose proof (find_entries n m) as H. destruct (find_entry n (entries_of m)) as [i|]; cbn; [|by rewrite H].
  destruct H as (x & Hi & -> & _). unfold entries_of. rewrite list_lookup_fmap, Hi. done.
Qed.

Lemma close_reply_calm E {A} es d F s (reply : Z * A) : calm F s ->
  wp E (close_reply v (handle EA_RDONLY es d) reply) s (fun r s' => r = reply /\ calm F s').
Proof.
  intros Hs. apply run_bind. eapply run_mono; [|by apply close_rdonly]. cbn. intros r s' [-> Hs']. done.
Qed.

Lemma close_ret_calm E fl es d F s ret : call_flags fl -> flag fl EA_RDWR = true -> calm F s -> is_Some (F !! hk) ->
  Forall entry_ok es -> buffer_ok d ->
  wp E (close_ret v (handle fl es d) ret) s (fun r s' => r = ret /\ calm (put_header (live es) F) s').
Proof.
  intros Hf Hrw Hs [x Hx] He Hd. apply run_bind. eapply run_mono; [|by eapply close_rdwr]. cbn. intros r s' [-> Hs'].
  done.
Qed.

Lemma write_value E fl es d n y F s : call_flags fl -> n ∈ N -> calm F s ->
  wp E (write_ea v (handle fl es d) (Some n) y) s (fun r s' => r = AFP_OK /\ calm (<[vk n := y]> F) s').
Proof.
  intros Hf Hn Hs. apply run_bind, (run_value v uname c D adn Had); [done|by apply name_each|].
  assert (forall F' s', calm F' s' -> <[vk n := y]> F' = <[vk n := y]> F ->
    wp E (locked ← attempt;
          if negb locked then mret AFPERR_MISC else
          truncated ← sys_ftruncate (vk n);
          if negb truncated then mret AFPERR_MISC else
          w ← sys_write (vk n) 0 y;
          mret (if bool_decide (w = Some (length y)) then AFP_OK else AFPERR_MISC)) s'
       (fun r s' => r = AFP_OK /\ calm (<[vk n := y]> F) s')) as Hgo.
  { intros F' s' Hs' HF'. apply run_bind, (run_attempt_calm _ c D F'); [done|]. cbn [negb].
    apply run_bind, (run_ftruncate_calm _ c D F'); [done|]. intros s2 Hs2. cbn [negb].
    apply run_bind, (run_write_calm _ c D (<[vk n := []]> F')); [done|apply lookup_insert_eq|]. intros s3 Hs3.
    rewrite bool_decide_eq_true_2 by done. apply run_ret. split; [done|]. by rewrite insert_insert_eq, HF' in Hs3. }
  apply run_bind, (run_openat_calm _ c D F); [done|]. change (c, vpath v adn n) with (vk n).
  destruct (F !! vk n) as [x|] eqn:Hx; intros s1 Hs1; eapply Hgo; [exact Hs1|done|exact Hs1|]. by rewrite insert_insert_eq.
Qed.

Lemma delete_value E fl es d n F s : call_flags fl -> n ∈ N -> calm F s ->
  wp E (delete_ea_file v (handle fl es d) (Some n)) s (fun r s' => r = 0 /\ calm (delete (vk n) F) s').
Proof.
  intros Hf Hn Hs. apply run_bind, (run_value v uname c D adn Had); [done|by apply name_each|].
  apply run_bind, (run_statat_calm _ c D F); [done| |].
  - intros s1 Hs1 [[x Hx]|Hin]; [|by destruct (HD n Hn)].
    apply run_bind, (run_unlinkat_calm _ c D F _ _ x); [done|done|]. intros s2 Hs2. by apply run_ret.
  - intros s1 Hs1 Hx _ _. apply run_ret. split; [done|]. change (c, vpath v adn n) with (vk n) in Hx. by rewrite delete_id.
Qed.

(** ** The calls *)

Definition op_post (op : ea_op) (m : attrs) (F : gmap fkey (list Z)) (r : Z * list Z) (s' : sys) : Prop :=
  exists F', calm F' s' /\ store_ok (spec_op v op m).2 F' /\ frame F F' /\ r = (spec_op v op m).1.

Lemma op_same op m F s' : calm F s' -> store_ok m F -> (spec_op v op m).2 = m -> op_post op m F (spec_op v op m).1 s'.
Proof. intros Hs Hm Hsame. exists F. rewrite Hsame. done. Qed.

Lemma store_put m F : (forall k x, (k, x) ∈ m -> F !! vk k = Some x) -> NoDup m.*1 ->
  (forall k x, (k, x) ∈ m -> k ∈ N /\ zlen x < 2 ^ 32) -> store_ok m (put_header (entries_of m) F).
Proof.
  intros Hv Hnd Hn. constructor; [|intros k x Hin|done|done].
  - destruct m; [apply lookup_delete_eq|apply lookup_insert_eq].
  - rewrite put_header_ne; [by apply Hv|]. apply vk_hk, name_each. by destruct (Hn _ _ Hin).
Qed.

Lemma frame_put es F F' : (forall k, k <> hk -> (forall n, n ∈ N -> k <> vk n) -> F' !! k = F !! k) -> frame F (put_header es F').
Proof. intros H k Hk Hn. rewrite put_header_ne by done. by apply H. Qed.

Lemma not_zero r : r = -2 -> (r =? 0) = false.
Proof. by intros ->. Qed.

Lemma size_value m F n x : store_ok m F -> att_get n m = Some x -> u32 (zlen x) = zlen x.
Proof. intros Hm Hx. apply wrap_small. destruct (store_names _ _ Hm _ _ (att_get_elem _ _ _ Hx)). lia. Qed.

Lemma op_size n m F s : calm F s -> store_ok m F -> wp never (run_op v uname (OpSize n)) s (op_post (OpSize n) m F).
Proof.
  intros Hs Hm. cbn [run_op]. unfold get_easize. apply run_bind.
  eapply run_mono; [|eapply (open_store _ EA_RDONLY); [by left|done|exact Hs|exact Hm]].
  cbn beta. intros [r e] s1 [Hs1 Hr]. destruct (decide (m = [])) as [->|Hne].
  - destruct Hr as [Hr _]. cbn in Hr. rewrite (not_zero _ Hr). cbn [negb]. apply run_ret.
    by apply (op_same (OpSize n) []).
  - injection Hr as -> ->. cbn [Z.eqb negb]. apply run_bind. eapply run_lift; [apply used_handle|].
    eapply run_mono; [|by apply close_reply_calm]. cbn beta. intros r s2 [-> Hs2]. rewrite find_value.
    assert (match (fun x => entry_of (n, x)) <$> att_get n m with
            | Some x => (AFP_OK, be32 (u32 (ea_entry_size x))) | None => ea_absent v end = (spec_op v (OpSize n) m).1) as ->.
    { cbn [spec_op fst]. destruct (att_get n m) as [x|] eqn:Hx; [|done]. cbn. by rewrite (size_value m F n x). }
    by apply op_same.
Qed.

Lemma content_value fl es d n x F s maxreply : call_flags fl -> n ∈ N -> calm F s -> F !! vk n = Some x -> zlen x < 2 ^ 32 ->
  wp never (eacontent v (handle fl es d) n (entry_of (n, x)) maxreply) s
    (fun r s' => r = spec_get x maxreply /\ calm F s').
Proof.
  intros Hf Hn Hs Hx Hl. apply run_bind, (run_value v uname c D adn Had); [done|by apply name_each|].
  apply run_bind, (run_openat_calm _ c D F); [done|]. change (c, vpath v adn n) with (vk n). rewrite Hx. intros s1 Hs1.
  unfold spec_get. case_test; [by apply run_ret|]. cbn [entry_of ea_entry_size snd].
  replace (if maxreply - MAX_REPLY_EXTRA_BYTES >? MAX_EA_SIZE then MAX_EA_SIZE else maxreply - MAX_REPLY_EXTRA_BYTES)
    with (Z.min (maxreply - MAX_REPLY_EXTRA_BYTES) MAX_EA_SIZE) by (case_test; lia).
  rewrite wrap_small by lia. case_test; [by apply run_ret|].
  apply run_bind, (run_read_calm _ c D F _ _ _ _ x); [done|done|]. apply run_ret.
  rewrite Nat2Z.id, drop_0, firstn_all, Z.eqb_refl. done.
Qed.

Lemma op_get n maxreply m F s : n ∈ N -> calm F s -> store_ok m F ->
  wp never (run_op v uname (OpGet n maxreply)) s (op_post (OpGet n maxreply) m F).
Proof.
  intros Hn Hs Hm. cbn [run_op]. unfold get_eacontent. apply run_bind.
  eapply run_mono; [|eapply (open_store _ EA_RDONLY); [by left|done|exact Hs|exact Hm]].
  cbn beta. intros [r e] s1 [Hs1 Hr]. destruct (decide (m = [])) as [->|Hne].
  - destruct Hr as [Hr _]. cbn in Hr. rewrite (not_zero _ Hr). cbn [negb]. apply run_ret.
    by apply (op_same (OpGet n maxreply) []).
  - injection Hr as -> ->. cbn [Z.eqb negb]. apply run_bind. eapply run_lift; [apply used_handle|]. rewrite find_value.
    apply run_bind. eapply run_mono with (Q := fun r s' => r = (spec_op v (OpGet n maxreply) m).1 /\ calm F s').
    + intros r s2 [-> Hs2]. eapply run_mono; [|by apply close_reply_calm]. cbn beta. intros r s3 [-> Hs3]. by apply op_same.
    + cbn [spec_op fst]. destruct (att_get n m) as [x|] eqn:Hx; [|by apply run_ret]. cbn [fmap option_fmap option_map].
      apply att_get_elem in Hx. destruct (store_names _ _ Hm _ _ Hx).
      apply content_value; [by left|done|done|by eapply store_values|done].
Qed.

Lemma list_names_spec m : forall acc rest, Z.of_nat (length acc + length rest) = ATTRNAMEBUFSIZ -> zlen acc <= ATTRNAMEBUFSIZ - 256 ->
  exists rest', list_names v (entries_of m) (acc ++ rest) (length acc)
    = Ok ((spec_list v m acc).1, ((spec_list v m acc).2 ++ rest', length (spec_list v m acc).2)).
Proof.
  induction m as [|[n x] m IH]; intros acc rest Hl Ha; cbn [entries_of fmap list_fmap list_names spec_list]; [by exists rest|].
  cbn [entry_of ea_name fst snd]. destruct (v_to_mac v n) as [[|b mac]|] eqn:Hv; [by exists rest| |by exists rest].
  pose proof (Hmac _ _ Hv) as Hb. remember (b :: mac) as bs eqn:Hbs. clear Hbs b mac. unfold ATTRNAMEBUFSIZ in *.
  rewrite (store_past acc rest _ _ 0); [|lia|rewrite length_app; cbn; lia]. cbn [mbind res_bind]. rewrite blit_0.
  replace (length acc + (length bs + 1))%nat with (length (acc ++ bs ++ [0])) by (rewrite !length_app; cbn; lia).
  rewrite (app_assoc acc (bs ++ [0]) (drop _ _)). case_test; [by eexists|].
  destruct (IH (acc ++ bs ++ [0]) (drop (length (bs ++ [0])) rest)) as [rest' Hr]; [|lia|by exists rest'].
  rewrite length_drop, !length_app. cbn. lia.
Qed.

Lemma op_list m F s : calm F s -> store_ok m F -> wp never (run_op v uname OpList) s (op_post OpList m F).
Proof.
  intros Hs Hm. cbn [run_op]. unfold list_eas. do 2 apply run_bind.
  eapply run_mono; [|eapply (open_store _ EA_RDONLY); [by left|done|exact Hs|exact Hm]].
  cbn beta. intros [r e] s1 [Hs1 Hr]. destruct (decide (m = [])) as [->|Hne].
  - destruct Hr as [Hr He]. cbn in Hr. rewrite (not_zero _ Hr). cbn [negb]. run_walk. rewrite He.
    by apply (op_same OpList []).
  - injection Hr as -> ->. cbn [Z.eqb negb]. apply run_bind. eapply run_lift; [apply used_handle|]. apply run_bind.
    destruct (list_names_spec m [] (replicate (Z.to_nat ATTRNAMEBUFSIZ) 0)) as [rest Hr];
      [rewrite length_replicate; done|done|]. cbn [app length] in Hr.
    eapply run_lift; [exact Hr|]. eapply run_mono; [|by apply close_reply_calm]. cbn beta. intros r s2 [-> Hs2]. apply run_ret.
    cbn [fst snd]. rewrite take_app_length, <- surjective_pairing. by apply (op_same OpList m).
Qed.

(** What [ea_addentry] makes of a handle, by the store. *)
Lemma add_entry fl n x oflag m d F s : calm F s ->
  wp never (ea_addentry (handle fl (entries_of m) d) (Some n) (zlen x) oflag) s (fun r s' => calm F s' /\
    match att_get n m with
    | Some _ => if flag oflag O_CREAT then r = (-2, handle fl (entries_of m) d)
                else r = (0, handle fl (entries_of (att_set n x m)) d)
    | None => if flag oflag O_TRUNC then r = (-3, handle fl (entries_of m) d)
              else 0 < r.1 /\ r.2 = handle fl (entries_of (att_set n x m)) d
    end).
Proof.
  intros Hs. unfold ea_addentry. apply run_bind. eapply run_lift; [apply used_handle|].
  pose proof (find_entries n m) as Hf. destruct (find_entry n (entries_of m)) as [i|].
  - destruct Hf as (x' & Hi & Hg & Hset & _). rewrite Hg. case_test; [by apply run_ret|]. apply run_ret. split; [done|].
    assert (length (entries_of (att_set n x m)) = length (entries_of m)) as Hlen.
    { rewrite !length_entries, <- (length_fmap fst (att_set n x m)), att_set_names by congruence. apply length_fmap. }
    unfold EaStore.handle, set_entries. cbn. by rewrite Hset, Hlen.
  - rewrite Hf. case_test; [by apply run_ret|]. apply run_bind, (run_alloc_calm _ c D F); [done|]. cbn [negb].
    apply run_bind, (run_alloc_calm _ c D F); [done|]. cbn [negb]. apply run_ret. split; [done|]. cbn [fst snd].
    split; [cbn; lia|]. rewrite att_set_new, entries_app by done. unfold set_entries. cbn.
    unfold handle, EaStore.handle. rewrite !length_app. cbn. f_equal. lia.
Qed.

Abbreviation set_flags := (Z.lor EA_CREATE EA_RDWR).

Lemma set_call : call_flags set_flags.
Proof. by right; right. Qed.

(** The end of a call that leaves the store [m'] in the entries: the files then hold
    it. *)
Lemma close_store E op m m' F F' fl es d s (ret : Z) : (spec_op v op m) = ((ret, []), m') ->
  call_flags fl -> flag fl EA_RDWR = true -> calm F' s -> is_Some (F' !! hk) ->
  Forall entry_ok es -> buffer_ok d -> live es = entries_of m' ->
  (forall k x, (k, x) ∈ m' -> F' !! vk k = Some x) -> NoDup m'.*1 ->
  (forall k x, (k, x) ∈ m' -> k ∈ N /\ zlen x < 2 ^ 32) ->
  (forall k, k <> hk -> (forall n, n ∈ N -> k <> vk n) -> F' !! k = F !! k) ->
  wp E (close_ret v (handle fl es d) ret) s (fun r s' => op_post op m F (r, []) s').
Proof.
  intros Hop Hf Hrw Hs Hh He Hd Hl Hv Hnd Hn Hfr. eapply run_mono; [|by apply close_ret_calm].
  cbn beta. intros r s' [-> Hs']. rewrite Hl in Hs'. eexists. split; [exact Hs'|]. rewrite Hop. cbn [fst snd].
  split_and!; [by apply store_put|by apply frame_put|done].
Qed.

Lemma op_set n x oflag m F s : n ∈ N -> zlen x < 2 ^ 32 -> calm F s -> store_ok m F ->
  wp never (run_op v uname (OpSet n x oflag)) s (op_post (OpSet n x oflag) m F).
Proof.
  intros Hn Hx Hs Hm. pose proof Hm as [_ Hval Hnd Hnames]. cbn [run_op]. apply run_bind.
  eapply run_mono with (Q := fun r s' => op_post (OpSet n x oflag) m F (r, []) s'); [done|]. unfold set_ea.
  apply run_bind. eapply run_mono; [|by apply open_set]. cbn beta. intros r s1 (F1 & Hs1 & -> & Hh & HF1). cbn [Z.eqb negb].
  assert (forall k y, (k, y) ∈ m -> F1 !! vk k = Some y) as Hval1.
  { intros k y Hin. rewrite HF1; [by apply Hval|]. apply vk_hk, name_each. by destruct (Hnames _ _ Hin). }
  assert (forall ret s', spec_op v (OpSet n x oflag) m = ((ret, []), m) -> calm F1 s' ->
    wp never (close_ret v (handle set_flags (entries_of m) (header (entries_of m))) ret) s'
      (fun r s' => op_post (OpSet n x oflag) m F (r, []) s')) as Hrefuse.
  { intros ret s' Hop Hs'. eapply close_store; try done; [by apply set_call|apply entries_ok|apply header_buffer|apply live_entries|].
    intros k Hk _. by apply HF1. }
  assert (forall s', spec_op v (OpSet n x oflag) m = ((AFP_OK, []), att_set n x m) -> calm (<[vk n := x]> F1) s' ->
    wp never (close_ret v (handle set_flags (entries_of (att_set n x m)) (header (entries_of m))) AFP_OK) s'
      (fun r s' => op_post (OpSet n x oflag) m F (r, []) s')) as Hclose.
  { intros s' Hop Hs'. pose proof (vk_hk v c adn n (name_each n Hn)) as Hne.
    assert (forall k y, (k, y) ∈ att_set n x m -> k ∈ N /\ zlen y < 2 ^ 32) as Hnames'.
    { intros k y [[-> ->]|[_ Hin]]%att_set_elem; [done|by apply (Hnames k y)|done]. }
    eapply close_store; try done; [by apply set_call|by rewrite lookup_insert_ne|apply entries_ok|apply header_buffer|
      apply live_entries| |by apply att_set_NoDup|].
    - intros k y Hin. destruct (att_set_elem _ _ _ _ _ Hnd Hin) as [[-> ->]|[Hk Hin']]; [apply lookup_insert_eq|].
      rewrite lookup_insert_ne; [by apply Hval1|]. intros Heq. apply Hk. symmetry. eapply vk_inj; [exact HN|done| |exact Heq].
      by destruct (Hnames _ _ Hin').
    - intros k Hk Hvk. rewrite lookup_insert_ne by (intros <-; by apply (Hvk n)). by apply HF1. }
  assert (forall added s', spec_op v (OpSet n x oflag) m = ((AFP_OK, []), att_set n x m) -> calm F1 s' ->
    let e := handle set_flags (entries_of (att_set n x m)) (header (entries_of m)) in
    wp never (w ← write_ea v e (Some n) x;
              if negb (w =? 0) then
                d ← (if 0 <? added then delete_ea_file v e (Some n) else mret (-1));
                r ← (if d =? 0 then ea_delentry e (Some n) else mret (0, e));
                close_ret v r.2 AFPERR_MISC
              else close_ret v e AFP_OK) s'
      (fun r s' => op_post (OpSet n x oflag) m F (r, []) s')) as Hwrite.
  { intros added s' Hop Hs' e. apply run_bind. eapply run_mono; [|by apply write_value; [apply set_call|..]].
    cbn beta. intros r s2 [-> Hs2]. cbn [Z.eqb negb AFP_OK]. by apply Hclose. }
  apply run_bind. eapply run_mono; [|by apply add_entry]. cbn beta. intros [added e] s2 [Hs2 Hadd].
  cbn [spec_op] in *. unfold absent. destruct (att_get n m) as [y|]; [destruct (flag oflag O_CREAT)|destruct (flag oflag O_TRUNC)].
  - injection Hadd as -> ->. by apply Hrefuse.
  - injection Hadd as -> ->. by apply (Hwrite 0).
  - injection Hadd as -> ->. by apply Hrefuse.
  - cbn [fst snd] in Hadd. destruct Hadd as [Hpos ->].
    rewrite !(proj2 (Z.eqb_neq added _)) by lia. by apply (Hwrite added).
Qed.

Lemma del_entry fl n m d s : m <> [] -> NoDup m.*1 ->
  exists es, ea_delentry (handle fl (entries_of m) d) (Some n) s = Ok ((0, handle fl es d), s) /\
    Forall entry_ok es /\ live es = entries_of (att_del n m).
Proof.
  intros Hne Hnd. unfold ea_delentry. assert (0 < zlen (entries_of m)) as Hpos.
  { rewrite length_entries. destruct m; [done|cbn; lia]. }
  replace (ea_count (handle fl (entries_of m) d) =? 0) with false by (cbn; lia).
  unfold mbind, M_bind, lift. rewrite used_handle. pose proof (find_entries n m) as Hf.
  destruct (find_entry n (entries_of m)) as [i|].
  - destruct Hf as (x & Hi & _ & _ & Hdel). eexists. split; [|split; [|by apply Hdel]].
    + unfold set_entries, EaStore.handle. cbn. by rewrite length_alter.
    + apply Forall_alter; [apply entries_ok|]. intros e _ _ name [=].
  - exists (entries_of m). split_and!; [done|apply entries_ok|]. rewrite live_entries. f_equal. symmetry.
    apply list_filter_all. intros [k x] Hin Hk. cbn in Hk. subst k. apply att_get_None in Hf. apply Hf, list_elem_of_fmap. by exists (n, x).
Qed.

Lemma op_remove n m F s : n ∈ N -> calm F s -> store_ok m F -> wp never (run_op v uname (OpRemove n)) s (op_post (OpRemove n) m F).
Proof.
  intros Hn Hs Hm. pose proof Hm as [Hh Hval Hnd Hnames]. cbn [run_op]. apply run_bind.
  eapply run_mono with (Q := fun r s' => op_post (OpRemove n) m F (r, []) s'); [done|]. unfold remove_ea.
  apply run_bind. eapply run_mono; [|eapply (open_store _ EA_RDWR); [by right; left|done|exact Hs|exact Hm]].
  cbn beta. intros [r e] s1 [Hs1 Hr]. destruct (decide (m = [])) as [->|Hne].
  - destruct Hr as [Hr _]. cbn in Hr. rewrite (not_zero _ Hr). cbn [negb]. apply run_ret. by apply (op_same (OpRemove n) []).
  - injection Hr as -> ->. cbn [Z.eqb negb]. apply run_bind.
    destruct (del_entry EA_RDWR n m (header (entries_of m)) s1 Hne Hnd) as (es & Hdel & Hes & Hlive).
    eapply result_wp; [exact Hdel|]. cbn [Z.eqb]. apply run_bind.
    eapply run_mono; [|apply (delete_value _ EA_RDWR _ _ _ F); [by right; left|done|done]].
    cbn beta. intros r s2 [-> Hs2]. cbn [Z.eqb negb]. pose proof (vk_hk v c adn n (name_each n Hn)) as Hnk.
    eapply (close_store _ _ _ (att_del n m) F (delete (vk n) F)); try done.
    + cbn. by rewrite decide_False.
    + by right; left.
    + rewrite lookup_delete_ne by done. rewrite Hh. by destruct m.
    + apply header_buffer.
    + intros k y [Hk Hin]%att_del_elem. rewrite lookup_delete_ne; [by apply Hval|]. intros Heq. apply Hk. symmetry.
      eapply vk_inj; [exact HN|done| |exact Heq]. by destruct (Hnames _ _ Hin).
    + by apply att_del_NoDup.
    + intros k y [_ Hin]%att_del_elem. by apply (Hnames k y).
    + intros k Hk Hvk. apply lookup_delete_ne. intros <-. by apply (Hvk n).
Qed.

(** The loop of [ea_deletefile]: the names go one by one. *)
Lemma delete_loop d fl m : forall p F s, call_flags fl -> calm F s -> live p = [] -> Forall entry_ok p ->
  (forall k x, (k, x) ∈ m -> k ∈ N) ->
  wp never (delete_files v (length m) (length p) (handle fl (p ++ entries_of m) d) AFP_OK) s (fun r s' =>
    exists es F', r = (AFP_OK, handle fl es d) /\ calm F' s' /\ live es = [] /\ Forall entry_ok es /\
      F' !! hk = F !! hk /\ frame F F').
Proof.
  induction m as [|[n x] m IH]; intros p F s Hf Hs Hp Hok Hn.
  { apply run_ret. exists p, F. cbn [entries_of fmap list_fmap]. rewrite app_nil_r. done. }
  cbn [delete_files length]. apply run_bind. eapply run_lift.
  { unfold entry_at. cbn [handle ea_entries EaStore.handle]. by rewrite lookup_app_r, Nat.sub_diag by lia. }
  cbn [ea_name entry_of fst]. assert (n ∈ N) as Hn1 by (apply (Hn n x); left).
  apply run_bind. eapply run_mono; [|apply (delete_value _ fl _ _ _ F); done]. cbn beta. intros r s1 [-> Hs1]. cbn [Z.eqb negb].
  set (dead := EaEntry (length n) (zlen x) None).
  assert (set_entries (ea_count (handle fl (p ++ entries_of ((n, x) :: m)) d))
    (alter (fun x0 => EaEntry (ea_namelen x0) (ea_entry_size x0) None) (length p)
      (ea_entries (handle fl (p ++ entries_of ((n, x) :: m)) d))) (handle fl (p ++ entries_of ((n, x) :: m)) d)
    = handle fl ((p ++ [dead]) ++ entries_of m) d) as ->.
  { unfold set_entries, EaStore.handle. cbn [ea_inited ea_dirfd ea_filename ea_count ea_entries ea_fd ea_flags ea_size ea_data].
    rewrite alter_app_r_alt, Nat.sub_diag, <- app_assoc by lia. cbn. by rewrite !length_app. }
  replace (S (length p)) with (length (p ++ [dead])) by (rewrite length_app; cbn; lia).
  eapply run_mono; [|apply (IH (p ++ [dead]) (delete (vk n) F) s1); [done|done| | |]].
  - cbn beta. intros r s2 (es & F' & -> & Hs2 & Hl & He & Hh & Hfr). exists es, F'. split_and!; [done|done|done|done| |].
    + rewrite Hh. apply lookup_delete_ne, vk_hk. by apply name_each.
    + intros k Hk Hvk. rewrite Hfr by done. apply lookup_delete_ne. intros <-. by apply (Hvk n).
  - unfold live in *. rewrite filter_app, Hp. done.
  - apply Forall_app. split; [done|]. apply Forall_singleton. intros name [=].
  - intros k y Hin. apply (Hn k y). by right.
Qed.

Lemma op_delete m F s : calm F s -> store_ok m F -> wp never (run_op v uname OpDelete) s (op_post OpDelete m F).
Proof.
  intros Hs Hm. pose proof Hm as [Hh Hval Hnd Hnames]. cbn [run_op]. apply run_bind.
  eapply run_mono with (Q := fun r s' => op_post OpDelete m F (r, []) s'); [done|]. unfold ea_deletefile, ea_openat.
  change (-1 =? -1) with true. cbv iota. do 2 apply run_bind.
  eapply run_mono; [|eapply (open_store _ EA_RDWR); [by right; left|done|exact Hs|exact Hm]].
  cbn beta. intros [r e] s1 [Hs1 Hr]. run_walk. destruct (decide (m = [])) as [->|Hne].
  - destruct Hr as [Hr He]. cbn in Hr. rewrite (not_zero _ Hr). cbn [negb]. run_walk. rewrite He. by apply (op_same OpDelete []).
  - injection Hr as -> ->. cbn [Z.eqb negb]. change (set_dirfd (-1) _) with (handle EA_RDWR (entries_of m) (header (entries_of m))).
    apply run_bind. replace (Z.to_nat _) with (length m) by (cbn; rewrite length_entries; lia).
    eapply run_mono; [|apply (delete_loop (header (entries_of m)) EA_RDWR m [] F s1); [by right; left|done|done|done|]].
    + cbn beta. intros r s2 (es & F' & -> & Hs2 & Hl & He & Hh' & Hfr).
      eapply (close_store _ _ _ [] F F'); try done; [by right; left| |apply header_buffer|set_solver|apply NoDup_nil_2|set_solver].
      rewrite Hh', Hh. by destruct m.
    + intros k y Hin. by destruct (Hnames k y Hin).
Qed.

(** Every call does to the files what its specification does to the store. *)
Lemma op_refines op m F s : op_ok N op -> calm F s -> store_ok m F -> wp never (run_op v uname op) s (op_post op m F).
Proof.
  destruct op; cbn [op_ok].
  - intros _. apply op_size.
  - apply op_get.
  - intros _. apply op_list.
  - intros [? ?]. by apply op_set.
  - apply op_remove.
  - intros _. apply op_delete.
Qed.

Lemma ops_refine ops : forall m F s, Forall (op_ok N) ops -> calm F s -> store_ok m F ->
  wp never (run_ops v uname ops) s (fun rs s' => exists F', calm F' s' /\ store_ok (spec_ops v ops m).2 F' /\
    frame F F' /\ rs = (spec_ops v ops m).1).
Proof.
  induction ops as [|op ops IH]; intros m F s Hok Hs Hm; [apply run_ret; by exists F|].
  apply Forall_cons in Hok as [Hop Hok]. cbn [run_ops spec_ops]. apply run_bind.
  eapply run_mono; [|by eapply op_refines]. cbn beta. intros r s1 (F1 & Hs1 & Hm1 & Hf1 & ->).
  destruct (spec_op v op m) as [r m1]. cbn [fst snd] in *. apply run_bind.
  eapply run_mono; [|by eapply IH]. cbn beta. intros rs s2 (F2 & Hs2 & Hm2 & Hf2 & ->).
  destruct (spec_ops v ops m1) as [rs m2]. cbn [fst snd] in *. apply run_ret. exists F2.
  split_and!; [done|done|by eapply frame_trans|done].
Qed.

End ops.
