(* ===== verification/EaSafe.v ===== *)
(** * EaSafe

    The calls of [Ea] against any kernel and any header: whatever fails and whatever the
    files hold, each call returns and stays inside its buffers, as long as the header
    file is empty or has the eight bytes of its fixed part. *)

From S2P Require Import Prelude Bytes AdHeader Vfs VfsFacts Ea EaFacts EaStore EaOps.

Section safe.
Context (v : vol) (uname : path).
Hypothesis Had : forall d, is_Some (v_ad_path v uname d).
Hypothesis Hmac : forall n mac, v_to_mac v n = Some mac -> (length mac <= 255)%nat.

(** The header of the file in the working directory, if there is one. *)
Definition header_whole (s : sys) : Prop :=
  forall d p b, v_ad_path v uname d = Some p -> files s !! (cwd s, hpath p) = Some b ->
  Forall byte b /\ (b = [] \/ (8 <= length b)%nat).

(** A handle the calls can work on. *)
Definition open_ok (e : ea) : Prop := ea_wf e /\ ea_filename e = Some uname.

Lemma path_total e n mac : ea_filename e = Some uname -> harmless (ea_path v e n mac).
Proof.
  intros Hf s. unfold ea_path. rewrite Hf. destruct (Had (flag (ea_flags e) EA_DIR)) as [p ->].
  destruct n as [n|]; [|eauto]. case_bool_decide; [eauto|]. destruct mac; [|eauto]. destruct (mtoupath v n); eauto.
Qed.

Lemma open_exit_safe E ret e s (Q : Z * ea -> sys -> Prop) :
  (ret = 0 -> Q (0, set_inited EA_INITED e) s) -> (forall r e' s', r <> 0 -> Q (r, e') s') -> wp E (ea_open_exit ret e) s Q.
Proof.
  intros H1 H2. unfold ea_open_exit. case_test; [subst; apply run_ret; by apply H1|]. apply run_bind.
  apply run_harmless; [case_test; [apply harmless_modify|apply harmless_ret]|]. intros _ s'. apply run_ret. by apply H2.
Qed.

Lemma isdir_same E p s Q : (forall b s', same_fs s s' -> Q b s') -> wp E (sys_isdir p) s Q.
Proof.
  intros H. unfold sys_isdir, sys_statat. run_walk. apply run_attempt. intros [] s1 Hs1; cbn [negb]; run_walk; [|by apply H].
  case_test; run_walk; apply H; done.
Qed.

(** What a handle just opened is good for. *)
Definition opened (r : Z * ea) (s : sys) : Prop :=
  r.1 = 0 -> open_ok r.2 /\ ea_count r.2 = zlen (ea_entries r.2) /\ Forall has_name (ea_entries r.2).

Lemma opened_fails E ret e s : ret <> 0 -> wp E (ea_open_exit ret e) s opened.
Proof. intros H. apply open_exit_safe; [done|]. intros r e' s' Hr. done. Qed.

Lemma unpack_safe E (b bytes : list Z) e s : ea_filename e = Some uname -> ea_entries e = [] -> Forall byte bytes -> (8 <= length b)%nat ->
  wp E (if negb (zlen bytes =? zlen b) then ea_open_exit (-1) (set_buffer (zlen b) [] e)
        else r ← unpack_header (set_buffer (zlen b) bytes e);
             let '(r, e) := r in ea_open_exit (if r =? 0 then 0 else -1) e) s opened.
Proof.
  intros Hf He Hby Hl. case_test; [by apply opened_fails|]. apply run_bind.
  apply unpack_header_wp; [cbn; lia|cbn; lia|done|done|intros s7 e7 _; by apply opened_fails|].
  intros s7 n l _ Hwf Hn Hnames. apply open_exit_safe; [|done]. intros _ _. cbn. split_and!; [|done|done]. split; [|done].
  destruct Hwf. by constructor.
Qed.

Lemma load_safe E k s e : let b := default [] (files s !! k) in
  Forall byte b -> b = [] \/ (8 <= length b)%nat ->
  ea_filename e = Some uname -> ea_entries e = [] -> ea_count e = 0 -> wp E (ea_load e k) s opened.
Proof.
  intros b Hby Hb Hf He Hz. unfold ea_load, sys_fstat, sys_read.
  apply run_bind, run_attempt. intros [] s3 (HF3 & _); cbn [negb]; [|by apply opened_fails].
  apply run_bind, run_bind, run_attempt. intros [] s4 (HF4 & _); cbn [negb]; run_walk; [|by apply opened_fails].
  rewrite HF4, HF3. fold b. case_test.
  - apply run_bind, run_alloc. intros [] s5 _ _; cbn [negb]; [|by apply opened_fails]. apply open_exit_safe; [|done]. intros _ _.
    cbn. rewrite He, Hz. split_and!; [|done|done]. split; [|done]. constructor; cbn; rewrite ?He, ?Hz; done.
  - destruct Hb as [Hb|Hb]; [rewrite Hb in *; done|].
    apply run_bind, run_alloc. intros [] s5 (HF5 & _) _; cbn [negb]; [|by apply opened_fails].
    apply run_bind, run_bind, run_call. intros a s6 (HF6 & _). run_walk. rewrite HF6, HF5, HF4, HF3. fold b.
    rewrite drop_0, Nat2Z.id, firstn_all.
    destruct a as [|er|m]; run_walk; [by apply unpack_safe|by apply opened_fails|apply unpack_safe; try done; by apply Forall_take].
Qed.

Lemma open_safe E fl e0 s : header_whole s -> flag fl (Z.lor EA_RDONLY EA_RDWR) = true ->
  wp E (ea_open v uname fl e0) s opened.
Proof.
  intros Hh Hfl. unfold ea_open. rewrite Hfl. cbn [negb]. apply run_bind, isdir_same. intros isdir s1 Hs1.
  set (e := if isdir : bool then _ else _). assert (exists f, e = set_dirfd (-1) (set_flags f ea_zero)) as [f ->].
  { unfold e. destruct isdir; eexists; reflexivity. }
  apply run_bind, run_alloc. intros [] s2 Hs2 _; cbn [negb]; [|by apply run_ret].
  assert (same_fs s s2) as Hs by by eapply same_fs_trans. clear Hs1 Hs2 s1.
  destruct (Had (flag f EA_DIR)) as [adn Hadn]. apply run_bind. eapply result_wp.
  { unfold ea_path. cbn [ea_filename set_filename ea_flags set_dirfd set_flags]. rewrite Hadn. reflexivity. }
  fold (hpath adn). apply run_bind. unfold sys_openat. apply run_bind, run_attempt. intros [] s3 (HF3 & _ & HC3); cbn [negb]; run_walk.
  2: { apply opened_fails. by destruct (_ && _). }
  unfold at_dir. change (-1 =? -1) with true. cbv iota. destruct Hs as (HF & _ & HC). rewrite HF3, HC3, HF, HC.
  destruct (files s !! (cwd s, hpath adn)) as [b|] eqn:Hx; run_walk.
  - destruct (Hh _ _ _ Hadn Hx). apply load_safe; rewrite ?HF3, ?HF, ?Hx; done.
  - destruct (flag fl EA_CREATE); run_walk; [|apply opened_fails; by destruct (_ && _)].
    apply load_safe; cbn; rewrite ?lookup_insert_eq; cbn; try done. by left.
Qed.

(** ** Closing *)

Abbreviation any := (fun _ _ => True).

Lemma flush_safe E e s : open_ok e ->
  wp E (ea_flush v e) s (fun r s' => ea_entries r.2 = ea_entries e).
Proof.
  intros [Hwf Hf].
  assert (forall e' s', open_ok e' -> ea_entries e' = ea_entries e ->
    wp E (if ea_count e' =? 0 then
            eaname ← ea_path v e' None false;
            match eaname with
            | None => undefined
            | Some eaname =>
              exists_ ← statat (ea_dirfd e') eaname;
              if (exists_ : bool) then
                r ← netatalk_unlinkat (ea_dirfd e') eaname;
                mret (if negb (r =? 0) then -1 else 0, e')
              else s ← get; mret (if negb (sys_errno s =? ENOENT) then -1 else 0, e')
            end
          else match ea_fd e' with
            | None => mret (-1, e')
            | Some fd =>
              seek ← attempt;
              if negb seek then mret (-1, e') else
              truncated ← sys_ftruncate fd;
              if negb truncated then mret (-1, e') else
              bytes ← lift (load 0 (Z.to_nat (ea_size e')) (ea_data e'));
              n ← sys_write fd 0 bytes;
              mret (if bool_decide (n = Some (length bytes)) then 0 else -1, e')
            end) s' (fun r s' => ea_entries r.2 = ea_entries e)) as Hgo.
  { intros e' s' [[_ _ Hs'] Hf'] He'. case_test.
    - destruct (Had (flag (ea_flags e') EA_DIR)) as [adn Hadn]. apply run_bind. eapply result_wp.
      { unfold ea_path. rewrite Hf', Hadn. reflexivity. }
      apply run_bind, run_harmless; [apply harmless_statat|]. intros [] s1; run_walk; [|done].
      apply run_harmless; [apply harmless_netatalk_unlinkat|]. intros r s2. by apply run_ret.
    - destruct (ea_fd e') as [fd|]; [|by apply run_ret]. apply run_bind, run_attempt. intros [] s1 _; cbn [negb]; [|by apply run_ret].
      apply run_bind, run_harmless; [apply harmless_ftruncate|]. intros [] s2; cbn [negb]; [|by apply run_ret].
      apply run_bind. eapply run_lift; [unfold load; rewrite bool_decide_eq_true_2 by lia; done|].
      apply run_bind, run_harmless; [apply harmless_write|]. intros n s3. by apply run_ret. }
  unfold ea_flush. apply run_bind. destruct (decide (ea_count e = 0)) as [Hc|Hc].
  - unfold pack_header. replace (ea_count e =? 0) with true by lia. apply run_ret. cbn [Z.eqb negb]. by apply Hgo.
  - pose proof Hwf as [Hn _ _]. apply pack_header_wp; [done|lia|intros s' _ _; by apply run_ret|].
    intros s' e' _ _ (He' & _ & _ & _ & Hwf'). cbn [Z.eqb negb]. apply Hgo; [|by rewrite He']. split; [done|by rewrite He'].
Qed.

Lemma close_safe E e s : open_ok e -> wp E (ea_close v e) s any.
Proof.
  intros He. unfold ea_close. case_test; [by apply run_ret|]. apply run_bind. destruct He as [Hwf Hf].
  apply run_mono with (Q := fun r s' => ea_entries r.2 = ea_entries e).
  - intros [r e'] s' Hent. cbn in Hent. apply run_bind. eapply run_lift; [|by apply run_ret].
    unfold used. cbn. rewrite Hent, bool_decide_eq_true_2; [done|]. destruct Hwf. lia.
  - case_test; [by apply flush_safe|by apply run_ret].
Qed.

Lemma close_reply_safe E {A} e (reply : Z * A) s : open_ok e -> wp E (close_reply v e reply) s any.
Proof. intros He. apply run_bind. eapply run_mono; [|by apply close_safe]. intros r s' _. by apply run_ret. Qed.

Lemma close_ret_safe E e ret s : open_ok e -> wp E (close_ret v e ret) s any.
Proof. intros He. apply run_bind. eapply run_mono; [|by apply close_safe]. intros r s' _. by apply run_ret. Qed.

(** ** Entries and value files *)

Lemma open_ok_entries e n l : open_ok e -> 0 <= n <= zlen l -> Forall entry_ok l -> open_ok (set_entries n l e).
Proof. intros [[_ _ Hs] Hf] Hn Hl. split; [by constructor|done]. Qed.

Lemma open_ok_used e : open_ok e -> used e = Ok (take (Z.to_nat (ea_count e)) (ea_entries e)).
Proof. intros [Hwf _]. by apply used_wf. Qed.

Lemma alter_ok f i l : (forall x, entry_ok x -> entry_ok (f x)) -> Forall entry_ok l -> Forall entry_ok (alter f i l).
Proof. intros Hf Hl. apply Forall_alter; [done|]. auto. Qed.

Lemma addentry_safe E e n z oflag s : open_ok e -> wp E (ea_addentry e n z oflag) s (fun r s' => open_ok r.2).
Proof.
  intros He. unfold ea_addentry. destruct n as [n|]; [|by apply run_ret]. pose proof He as [[Hc Hok _] _].
  apply run_bind. eapply run_lift; [by apply open_ok_used|]. destruct (find_entry _ _) as [i|].
  - case_test; apply run_ret; [done|]. apply open_ok_entries; [done|by rewrite length_alter|]. by apply alter_ok.
  - case_test; [by apply run_ret|]. apply run_bind, run_alloc. intros [] s1 _ _; cbn [negb].
    2: { apply run_ret. cbn. case_test; [by apply open_ok_entries|done]. }
    apply run_bind, run_alloc. intros [] s2 _ _; cbn [negb]; apply run_ret.
    + apply open_ok_entries; [done|rewrite length_app, length_take; cbn; lia|].
      apply Forall_app. split; [by apply Forall_take|]. apply Forall_singleton. intros m [= <-]. done.
    + apply open_ok_entries; [done|lia|]. by case_test.
Qed.

Lemma delentry_safe E e n s : open_ok e -> wp E (ea_delentry e n) s (fun r s' => open_ok r.2).
Proof.
  intros He. unfold ea_delentry. destruct n as [n|]; [|by apply run_ret]. case_test; [by apply run_ret|]. pose proof He as [[Hc Hok _] _].
  apply run_bind. eapply run_lift; [by apply open_ok_used|]. destruct (find_entry _ _) as [i|]; apply run_ret; [|done].
  apply open_ok_entries; [done|by rewrite length_alter|]. by apply alter_ok.
Qed.

Lemma write_harmless e n x : open_ok e -> harmless (write_ea v e n x).
Proof. intros [_ Hf]. unfold write_ea. pose proof (fun m => path_total e (Some m) true Hf). harmless_walk. Qed.

Lemma delete_harmless e n : open_ok e -> harmless (delete_ea_file v e n).
Proof. intros [_ Hf]. unfold delete_ea_file. pose proof (fun m => path_total e (Some m) true Hf). harmless_walk. Qed.

Lemma content_harmless e n x maxreply : open_ok e -> harmless (eacontent v e n x maxreply).
Proof. intros [_ Hf]. unfold eacontent. pose proof (fun m => path_total e (Some m) true Hf). harmless_walk. Qed.

Lemma list_names_safe l : forall buf n, Forall has_name l -> zlen buf = ATTRNAMEBUFSIZ -> Z.of_nat n <= ATTRNAMEBUFSIZ - 256 ->
  exists r, list_names v l buf n = Ok r.
Proof.
  induction l as [|x l IH]; intros buf n Hl Hb Hn; [by eexists|]. apply Forall_cons in Hl as [[name Hx] Hl]. cbn [list_names].
  rewrite Hx. destruct (v_to_mac v name) as [[|b mac]|] eqn:Hm; [by eexists| |by eexists]. apply Hmac in Hm.
  remember (b :: mac) as bs eqn:Hbs. clear Hbs. unfold ATTRNAMEBUFSIZ in *.
  assert (store n (bs ++ [0]) buf = Ok (blit n (bs ++ [0]) buf)) as ->.
  { unfold store. rewrite bool_decide_eq_true_2; [done|]. rewrite length_app. cbn. lia. }
  cbn [mbind res_bind]. case_test; [by eexists|]. apply IH; [done| |lia].
  rewrite length_blit; [done|]. rewrite length_app. cbn. lia.
Qed.

Lemma delete_files_safe n : forall count e s ret, open_ok e -> (count + n <= length (ea_entries e))%nat ->
  wp never (delete_files v n count e ret) s (fun r s' => open_ok r.2).
Proof.
  induction n as [|n IH]; intros count e s ret He Hn; cbn [delete_files]; [by apply run_ret|].
  destruct (lookup_lt_is_Some_2 (ea_entries e) count) as [x Hx]; [lia|].
  apply run_bind. eapply run_lift; [unfold entry_at; by rewrite Hx|].
  apply run_bind, run_harmless; [by apply delete_harmless|]. intros d s2. case_test; [apply IH; [done|lia]|].
  apply IH; [|cbn; rewrite length_alter; lia]. pose proof He as [[Hc Hok _] _].
  apply open_ok_entries; [done|by rewrite length_alter|]. by apply alter_ok.
Qed.

(** ** The calls *)

Lemma op_safe op s : header_whole s -> wp never (run_op v uname op) s any.
Proof.
  intros Hh. destruct op; cbn [run_op].
  - unfold get_easize. apply run_bind. eapply run_mono; [|by apply open_safe]. intros [r e] s1 Ho.
    case_test; [by apply run_ret|]. destruct (Ho E) as (He & _). apply run_bind. eapply run_lift; [by apply open_ok_used|].
    by apply close_reply_safe.
  - unfold get_eacontent. apply run_bind. eapply run_mono; [|by apply open_safe]. intros [r e] s1 Ho.
    case_test; [by apply run_ret|]. destruct (Ho E) as (He & _). apply run_bind. eapply run_lift; [by apply open_ok_used|].
    apply run_bind, run_harmless; [case_match; [by apply content_harmless|apply harmless_ret]|]. intros reply s2. by apply close_reply_safe.
  - unfold list_eas. do 2 apply run_bind. eapply run_mono; [|by apply open_safe]. intros [r e] s1 Ho.
    case_test; [run_walk; done|]. destruct (Ho E) as (He & _ & Hn). apply run_bind. eapply run_lift; [by apply open_ok_used|]. cbn [snd] in *.
    destruct (list_names_safe (take (Z.to_nat (ea_count e)) (ea_entries e)) (replicate (Z.to_nat ATTRNAMEBUFSIZ) 0) 0) as [reply Hr];
      [by apply Forall_take|rewrite length_replicate; done|done|].
    apply run_bind. eapply run_lift; [exact Hr|]. eapply run_mono; [|by apply close_reply_safe]. intros. by apply run_ret.
  - apply run_bind. eapply run_mono with (Q := any); [intros; by apply run_ret|]. unfold set_ea. apply run_bind.
    eapply run_mono; [|by apply open_safe]. intros [r e] s1 Ho. case_test; [by apply run_ret|]. destruct (Ho E) as (He & _).
    apply run_bind. eapply run_mono; [|by apply addentry_safe]. intros [added e'] s2 He'. cbn [snd] in He'.
    do 3 (case_test; [by apply close_ret_safe|]).
    apply run_bind, run_harmless; [by apply write_harmless|]. intros w s3. case_test; [|by apply close_ret_safe].
    apply run_bind, run_harmless; [case_test; [by apply delete_harmless|apply harmless_ret]|]. intros d s4. apply run_bind.
    case_test; [|apply run_ret; by apply close_ret_safe].
    eapply run_mono; [|by apply delentry_safe]. intros r' s5 Hr'. by apply close_ret_safe.
  - apply run_bind. eapply run_mono with (Q := any); [intros; by apply run_ret|]. unfold remove_ea. apply run_bind.
    eapply run_mono; [|by apply open_safe]. intros [r e] s1 Ho. case_test; [by apply run_ret|]. destruct (Ho E) as (He & _).
    apply run_bind. eapply run_mono; [|by apply delentry_safe]. intros [r' e'] s2 He'. cbn [snd] in He'.
    case_test; [by apply close_ret_safe|]. apply run_bind, run_harmless; [by apply delete_harmless|]. intros. by apply close_ret_safe.
  - apply run_bind. eapply run_mono with (Q := any); [intros; by apply run_ret|]. unfold ea_deletefile, ea_openat.
    change (-1 =? -1) with true. cbv iota. do 2 apply run_bind.
    eapply run_mono; [|by apply open_safe]. intros [r e] s1 Ho. apply run_ret. case_test; [run_walk; done|].
    destruct (Ho E) as (He & Hc & _). apply run_bind. cbn [fst snd] in *.
    apply run_mono with (Q := fun r s' => open_ok r.2); [intros [? ?] ? ?; by apply close_ret_safe|].
    apply delete_files_safe; [destruct He as [[? ? ?] ?]; split; [by constructor|done]|]. cbn. lia.
Qed.

End safe.
