(* ===== verification/EaMove.v ===== *)
(** * EaMove

    Attributes that go with their file: with a calm kernel, [ea_renamefile] moves every
    attribute of one file to another and [ea_copyfile] copies them, on top of what the
    other file had, and no other file changes. *)

From S2P Require Import Prelude Bytes AdHeader AdHeaderTheorems Vfs VfsFacts VfsTheorems Ea EaFacts EaStore EaOps.

(** ** The kernel's part *)

Section kernel.
Context (c : Z) (D : gset fkey).

Lemma run_renameat_calm E F s p q x (Q : bool -> sys -> Prop) : calm c D F s -> F !! (c, p) = Some x ->
  (forall s', calm c D (<[(c, q) := x]> (delete (c, p) F)) s' -> Q true s') -> wp E (sys_renameat (-1) p (-1) q) s Q.
Proof.
  intros Hs Hx HQ. apply run_bind, (run_attempt_calm _ c D F); [done|]. cbn. apply run_bind, run_get.
  destruct Hs as (Ha & Hc & HD & HF). unfold at_dir. cbn. rewrite Hc, HF, Hx. cbn. apply HQ. unfold calm. cbn. by rewrite HF, Hc.
Qed.

Lemma run_opentrunc_calm E F s p (Q : option fkey -> sys -> Prop) : calm c D F s ->
  (forall s', calm c D (<[(c, p) := []]> F) s' -> Q (Some (c, p)) s') -> wp E (sys_openat (-1) p true true) s Q.
Proof.
  intros Hs HQ. apply run_bind, (run_attempt_calm _ c D F); [done|]. cbn. apply run_bind, run_get.
  destruct Hs as (Ha & Hc & HD & HF). unfold at_dir. cbn. rewrite Hc, HF.
  destruct (F !! (c, p)); cbn; apply HQ; unfold calm; cbn; by rewrite HF.
Qed.

Lemma copy_file_calm F s p q x : calm c D F s -> F !! (c, p) = Some x -> p <> q ->
  wp never (copy_file (-1) p q) s (fun r s' => r = 0 /\ calm c D (<[(c, q) := x]> F) s').
Proof.
  intros Hs Hx Hpq. apply run_bind, (run_openat_calm _ c D F); [done|]. rewrite Hx. intros s1 Hs1.
  apply run_bind, (run_opentrunc_calm _ F); [done|]. intros s2 Hs2. pose proof Hs2 as (Ha & Hc & HD & HF). apply run_bind.
  eapply run_mono; [|apply (copy_fd_keeps s2 (c, p) (c, q) x)].
  - cbn beta. intros r s3 (-> & Ha3 & HD3 & HC3 & HF3).
    assert (calm c D (<[(c, q) := x]> F) s3) as Hs3.
    { unfold calm. rewrite HD3, HC3, HF3, HF, insert_insert_eq. done. }
    apply run_bind, (run_attempt_calm _ c D (<[(c, q) := x]> F)); [done|]. by apply run_ret.
  - intros [= H]. by apply Hpq.
  - rewrite HF, lookup_insert_ne; [done|]. intros [= H]. by apply Hpq.
  - rewrite HF. apply lookup_insert_eq.
  - done.
Qed.

End kernel.

(** ** The loops *)

(** What a file has after the attributes [m] came to those it had. *)
Fixpoint moved (m md : attrs) : attrs :=
  match m with
  | [] => md
  | (n, x) :: m => moved m (att_set n x md)
  end.

Lemma moved_NoDup m : forall md, NoDup md.*1 -> NoDup (moved m md).*1.
Proof. induction m as [|[n x] m IH]; intros md H; [done|]. by apply IH, att_set_NoDup. Qed.

Lemma moved_all (P : list Z -> list Z -> Prop) m : forall md, NoDup md.*1 ->
  (forall k x, (k, x) ∈ m -> P k x) -> (forall k x, (k, x) ∈ md -> P k x) -> forall k x, (k, x) ∈ moved m md -> P k x.
Proof.
  induction m as [|[n y] m IH]; intros md Hnd Hm Hmd; [done|]. apply IH; [by apply att_set_NoDup| |].
  - intros k x Hin. apply Hm. by right.
  - intros k x Hin. destruct (att_set_elem _ _ _ _ _ Hnd Hin) as [[-> ->]|[_ Hin']]; [apply Hm; left|by apply Hmd].
Qed.

Lemma find_dead n p l : live p = [] -> find_entry n (p ++ l) = Nat.add (length p) <$> find_entry n l.
Proof.
  induction p as [|e p IH]; intros Hp; [cbn; by destruct (find_entry n l)|]. destruct (ea_name e) as [k|] eqn:He.
  - by rewrite (live_cons_some _ _ _ He) in Hp.
  - rewrite (live_cons_none _ _ He) in Hp. cbn [app find_entry]. rewrite He, bool_decide_eq_false_2, IH by done.
    by destruct (find_entry n l).
Qed.

Section move.
Context (v : vol) (c : Z) (D : gset fkey) (src dst adn1 adn2 : path) (N : list (list Z)).
Hypothesis Had1 : v_ad_path v src (isd src c D) = Some adn1.
Hypothesis Had2 : v_ad_path v dst (isd dst c D) = Some adn2.
Hypothesis HN1 : names_ok v adn1 N.
Hypothesis HN2 : names_ok v adn2 N.

Abbreviation hk1 := (hk c adn1).
Abbreviation hk2 := (hk c adn2).
Abbreviation vk1 := (vk v c adn1).
Abbreviation vk2 := (vk v c adn2).
Abbreviation h1 := (handle src c D adn1 EA_RDWR).
Abbreviation h2 := (handle dst c D adn2 (Z.lor EA_CREATE EA_RDWR)).

(** The attribute files of the two are different files. *)
Definition apart : Prop :=
  hk1 <> hk2 /\ (forall n, n ∈ N -> hk1 <> vk2 n /\ vk1 n <> hk2) /\
  (forall n n', n ∈ N -> n' ∈ N -> vk1 n <> vk2 n').
Hypothesis Hap : apart.

(** No file but the attributes' changes. *)
Definition frame2 (F F' : gmap fkey (list Z)) : Prop :=
  forall k, (forall n, n ∈ N -> k <> vk1 n /\ k <> vk2 n) -> F' !! k = F !! k.

Lemma frame2_trans F1 F2 F3 : frame2 F1 F2 -> frame2 F2 F3 -> frame2 F1 F3.
Proof. intros H1 H2 k Hk. by rewrite H2, H1. Qed.

Lemma src_path E es d n s (Q : option path -> sys -> Prop) : n ∈ N ->
  Q (Some (vpath v adn1 n)) s -> wp E (ea_path v (h1 es d) (Some n) true) s Q.
Proof. intros Hn. apply (run_value v src c D adn1 Had1); [by right; left|by eapply name_each]. Qed.

Lemma dst_path E es d n s (Q : option path -> sys -> Prop) : n ∈ N ->
  Q (Some (vpath v adn2 n)) s -> wp E (ea_path v (h2 es d) (Some n) true) s Q.
Proof. intros Hn. apply (run_value v dst c D adn2 Had2); [by right; right|by eapply name_each]. Qed.

(** The entry a turn of either loop adds to the destination. *)
Lemma add_moved n x md d F s : calm c D F s ->
  wp never (ea_addentry (h2 (entries_of md) d) (Some n) (zlen x) 0) s (fun r s' =>
    calm c D F s' /\ 0 <= r.1 /\ r.2 = h2 (entries_of (att_set n x md)) d).
Proof.
  intros Hs. eapply run_mono; [|eapply (add_entry _ _ _ _ _ n x 0 md d F); exact Hs].
  cbn beta. intros [r e] s' [Hs' H]. change (flag 0 O_CREAT) with false in H. change (flag 0 O_TRUNC) with false in H.
  cbn [fst snd] in *. destruct (att_get n md); [injection H as -> ->; done|]. split; [done|]. destruct H as [? ->]. split; [lia|done].
Qed.

(** The entry a turn of the renaming loop takes from the source. *)
Lemma del_moved n x p m d s : live p = [] ->
  ea_delentry (h1 (p ++ entries_of ((n, x) :: m)) d) (Some n) s =
    Ok ((0, h1 ((p ++ [EaEntry (length n) (zlen x) None]) ++ entries_of m) d), s).
Proof.
  intros Hp. unfold ea_delentry.
  replace (ea_count (h1 (p ++ entries_of ((n, x) :: m)) d) =? 0) with false by (symmetry; apply Z.eqb_neq; cbn; rewrite length_app; cbn; lia).
  unfold mbind, M_bind, lift. rewrite used_handle, find_dead by done. cbn [entries_of fmap list_fmap find_entry].
  rewrite bool_decide_eq_true_2 by done. cbn [fmap option_fmap option_map]. f_equal. f_equal. f_equal.
  unfold set_entries, handle. cbn [ea_inited ea_dirfd ea_filename ea_count ea_entries ea_fd ea_flags ea_size ea_data].
  rewrite alter_app_r, <- app_assoc. cbn. by rewrite !length_app.
Qed.

(** What either loop does to the files of the destination for one attribute. *)
Lemma moved_dst (n x : list Z) (md : attrs) (F F1 : gmap fkey (list Z)) : n ∈ N -> NoDup md.*1 -> (forall k y, (k, y) ∈ md -> k ∈ N /\ F !! vk2 k = Some y) ->
  F1 !! vk2 n = Some x -> (forall k, k ∈ N -> k <> n -> F1 !! vk2 k = F !! vk2 k) ->
  forall k y, (k, y) ∈ att_set n x md -> k ∈ N /\ F1 !! vk2 k = Some y.
Proof.
  intros Hn Hnd Hmd H1 H2 k y Hin. destruct (att_set_elem _ _ _ _ _ Hnd Hin) as [[-> ->]|[Hk Hin']]; [done|].
  destruct (Hmd _ _ Hin') as [Hkn Hy]. split; [done|]. by rewrite H2.
Qed.

Lemma rename_loop d1 d2 (m : attrs) : forall p (md : attrs) F s, calm c D F s -> live p = [] -> Forall entry_ok p -> NoDup m.*1 ->
  (forall k x, (k, x) ∈ m -> k ∈ N /\ F !! vk1 k = Some x) -> NoDup md.*1 ->
  (forall k x, (k, x) ∈ md -> k ∈ N /\ F !! vk2 k = Some x) ->
  wp never (rename_files v (-1) (length m) (length p) (h1 (p ++ entries_of m) d1) (h2 (entries_of md) d2)) s (fun r s' =>
    exists es F', r = (AFP_OK, (h1 es d1, h2 (entries_of (moved m md)) d2)) /\ calm c D F' s' /\ live es = [] /\
      Forall entry_ok es /\ (forall k x, (k, x) ∈ moved m md -> k ∈ N /\ F' !! vk2 k = Some x) /\ frame2 F F').
Proof.
  induction m as [|[n x] m IH]; intros p md F s Hs Hp Hok Hnd Hm Hmdd Hmd.
  { apply run_ret. exists p, F. cbn [entries_of fmap list_fmap]. by rewrite app_nil_r. }
  cbn [rename_files length]. apply run_bind. eapply run_lift.
  { unfold entry_at. cbn [ea_entries handle]. by rewrite lookup_app_r, Nat.sub_diag by lia. }
  cbn [ea_name ea_entry_size entry_of fst snd]. destruct (Hm n x) as [Hn Hx]; [left|]. apply NoDup_cons in Hnd as [Hnm Hnd].
  destruct Hap as (_ & _ & Hvv). apply run_bind, src_path; [done|]. apply run_bind, dst_path; [done|].
  apply run_bind. eapply run_mono; [|by apply add_moved]. cbn beta. intros [r e] s1 (Hs1 & Hr & He). cbn [fst snd] in Hr, He. subst e.
  rewrite (proj2 (Z.eqb_neq r (-1))) by lia. apply run_bind. eapply result_wp; [by apply del_moved|]. cbn [Z.eqb].
  apply run_bind, run_bind, (run_renameat_calm c D _ F _ _ _ x); [done|done|]. intros s2 Hs2. apply run_ret. cbn [negb].
  change (0 <? 0) with false. cbv iota. set (F1 := <[_ := x]> (delete _ F)) in Hs2.
  replace (S (length p)) with (length (p ++ [EaEntry (length n) (zlen x) None])) by (rewrite length_app; cbn; lia).
  assert (frame2 F F1) as Hf1.
  { intros k Hk. destruct (Hk n Hn). unfold F1. rewrite lookup_insert_ne, lookup_delete_ne by done. done. }
  eapply run_mono; [|apply (IH _ (att_set n x md) F1 s2); [done| | |done| |by apply att_set_NoDup|]].
  - cbn beta. intros r' s' (es & F' & -> & H1 & H2 & H3 & H4 & H5). exists es, F'. split_and!; try done. by eapply frame2_trans.
  - unfold live in *. by rewrite filter_app, Hp.
  - apply Forall_app. split; [done|]. apply Forall_singleton. intros name [=].
  - intros k y Hin. destruct (Hm k y) as [Hk Hy]; [by right|]. split; [done|]. unfold F1.
    rewrite lookup_insert_ne by (intros H; by apply (Hvv k n)). rewrite lookup_delete_ne; [done|].
    intros H. apply Hnm. rewrite (vk_inj v c adn1 N n k HN1 Hn Hk H). apply list_elem_of_fmap. by exists (k, y).
  - apply (moved_dst n x md F F1); [done|done|done|apply lookup_insert_eq|]. intros k Hk Hkn. unfold F1.
    rewrite lookup_insert_ne, lookup_delete_ne; [done|intros H; by apply (Hvv n k)|].
    intros H. apply Hkn. symmetry. by apply (vk_inj v c adn2 N n k HN2).
Qed.

Lemma copy_loop d1 d2 mp (m : attrs) : forall (md : attrs) F s, calm c D F s ->
  (forall k x, (k, x) ∈ m -> k ∈ N /\ F !! vk1 k = Some x) -> NoDup md.*1 ->
  (forall k x, (k, x) ∈ md -> k ∈ N /\ F !! vk2 k = Some x) ->
  wp never (copy_files v (-1) (length m) (length mp) (h1 (mp ++ entries_of m) d1) (h2 (entries_of md) d2)) s (fun r s' =>
    exists F', r = (AFP_OK, (h1 (mp ++ entries_of m) d1, h2 (entries_of (moved m md)) d2)) /\ calm c D F' s' /\
      (forall k x, (k, x) ∈ moved m md -> k ∈ N /\ F' !! vk2 k = Some x) /\ frame2 F F' /\
      (forall n, n ∈ N -> F' !! vk1 n = F !! vk1 n)).
Proof.
  revert mp. induction m as [|[n x] m IH]; intros mp md F s Hs Hm Hmdd Hmd; [apply run_ret; by exists F|].
  cbn [copy_files length]. apply run_bind. eapply run_lift.
  { unfold entry_at. cbn [ea_entries handle]. by rewrite lookup_app_r, Nat.sub_diag by lia. }
  cbn [ea_name ea_entry_size entry_of fst snd]. destruct (Hm n x) as [Hn Hx]; [left|].
  destruct Hap as (_ & _ & Hvv). apply run_bind, src_path; [done|]. apply run_bind, dst_path; [done|].
  apply run_bind. eapply run_mono; [|by apply add_moved]. cbn beta. intros [r e] s1 (Hs1 & Hr & He). cbn [fst snd] in Hr, He. subst e.
  rewrite (proj2 (Z.eqb_neq r (-1))) by lia. apply run_bind.
  eapply run_mono; [|apply (copy_file_calm c D F s1 _ _ x); [done|done|intros H; apply (Hvv n n); [done|done|]; unfold vk; by rewrite H]].
  cbn beta. intros r' s2 [-> Hs2]. change (0 <? 0) with false. cbv iota. set (F1 := <[_ := x]> F) in Hs2.
  assert (forall k, k ∈ N -> F1 !! vk1 k = F !! vk1 k) as Hv1.
  { intros k Hk. apply lookup_insert_ne. intros H. by apply (Hvv k n). }
  assert (frame2 F F1) as Hf1 by (intros k Hk; destruct (Hk n Hn); by apply lookup_insert_ne).
  change (entries_of ((n, x) :: m)) with ([entry_of (n, x)] ++ entries_of m). rewrite app_assoc.
  replace (S (length mp)) with (length (mp ++ [entry_of (n, x)])) by (rewrite length_app; cbn; lia).
  eapply run_mono; [|apply (IH _ (att_set n x md) F1 s2); [done| |by apply att_set_NoDup|]].
  - cbn beta. intros r' s' (F' & -> & H1 & H2 & H3 & H4). exists F'. split_and!; try done; [by eapply frame2_trans|].
    intros k Hk. by rewrite H4, Hv1.
  - intros k y Hin. destruct (Hm k y) as [Hk Hy]; [by right|]. by rewrite Hv1.
  - apply (moved_dst n x md F F1); [done|done|done|apply lookup_insert_eq|]. intros k Hk Hkn.
    apply lookup_insert_ne. intros H. apply Hkn. symmetry. by apply (vk_inj v c adn2 N n k HN2).
Qed.

(** ** The calls *)

(** The files hold [m] for the source and [md] for the destination. *)
Definition both_ok (m md : attrs) (F : gmap fkey (list Z)) : Prop := store_ok v c adn1 N m F /\ store_ok v c adn2 N md F.

(** No file but those of the attributes changes, headers included. *)
Definition frame3 (F F' : gmap fkey (list Z)) : Prop :=
  forall k, k <> hk1 -> k <> hk2 -> (forall n, n ∈ N -> k <> vk1 n /\ k <> vk2 n) -> F' !! k = F !! k.

(** Attributes as the loops leave them: their files, and what a header can hold. *)
Definition values_ok (adn : path) (m : attrs) (F : gmap fkey (list Z)) : Prop :=
  NoDup m.*1 /\ (forall k x, (k, x) ∈ m -> F !! vk v c adn k = Some x) /\
  (forall k x, (k, x) ∈ m -> k ∈ N /\ zlen x < 2 ^ 32).

Lemma values_put adn m F : names_ok v adn N -> values_ok adn m F -> store_ok v c adn N m (put_header c adn (entries_of m) F).
Proof. intros HN (H1 & H2 & H3). by apply store_put. Qed.

Lemma close_pair ret es m md d1 d2 F s : calm c D F s -> is_Some (F !! hk1) -> is_Some (F !! hk2) ->
  Forall entry_ok es -> live es = entries_of m -> buffer_ok d1 -> buffer_ok d2 ->
  values_ok adn1 m F -> values_ok adn2 md F ->
  wp never (close_both v ret (h1 es d1) (h2 (entries_of md) d2)) s (fun r s' =>
    r = ret /\ exists F', calm c D F' s' /\ both_ok m md F' /\ frame3 F F').
Proof.
  intros Hs [x1 Hx1] [x2 Hx2] Hes Hl Hd1 Hd2 Hv1 Hv2. destruct Hap as (Hhh & Hhv & Hvv).
  apply run_bind. eapply run_mono; [|eapply (close_rdwr v src c D adn1 Had1); [by right; left|done|exact Hs|exact Hx1|done|done]].
  cbn beta. intros r1 s1 [_ Hs1]. rewrite Hl in Hs1. set (F1 := put_header c adn1 (entries_of m) F) in Hs1.
  assert (F1 !! hk2 = Some x2) as Hx2' by (unfold F1; rewrite put_header_ne; [done|by apply not_eq_sym]).
  apply run_bind. eapply run_mono; [|eapply (close_rdwr v dst c D adn2 Had2); [by right; right|done|exact Hs1|exact Hx2'|apply entries_ok|done]].
  cbn beta. intros r2 s2 [_ Hs2]. rewrite live_entries in Hs2. apply run_ret. split; [done|]. eexists. split; [exact Hs2|].
  pose proof (values_put adn1 m F HN1 Hv1) as [Ha1 Ha2 Ha3 Ha4]. fold F1 in Ha1, Ha2. split; [split|].
  - constructor; [by rewrite put_header_ne| |done|done]. intros k y Hin. rewrite put_header_ne; [by apply Ha2|].
    destruct (Ha4 _ _ Hin). by apply (Hhv k).
  - apply values_put; [done|]. destruct Hv2 as (Hb1 & Hb2 & Hb3). split_and!; [done| |done]. intros k y Hin.
    unfold F1. rewrite put_header_ne; [by apply Hb2|]. destruct (Hb3 _ _ Hin). apply not_eq_sym. by apply (Hhv k).
  - intros k Hk1 Hk2 _. rewrite put_header_ne by done. unfold F1. by rewrite put_header_ne.
Qed.

(** A source without attributes. *)
Lemma transfer_nothing loop md F s : calm c D F s -> both_ok [] md F ->
  wp never (transfer v (-1) src dst loop) s (fun r s' => r = AFP_OK /\ calm c D F s').
Proof.
  intros Hs [Hm _]. unfold transfer, ea_openat. change (-1 =? -1) with true. cbv iota. do 2 apply run_bind.
  eapply run_mono; [|eapply (open_store v src c D adn1 N Had1 HN1 _ EA_RDWR); [by right; left|done|exact Hs|exact Hm]].
  cbn beta. intros [r e] s1 (Hs1 & Hr & He). cbn in Hr. subst r. run_walk. cbn [Z.eqb negb]. run_walk. by rewrite He.
Qed.

(** Both calls up to their loop, which works on the open handles. *)
Lemma transfer_opens loop m md F s (Q : Z -> sys -> Prop) : calm c D F s -> both_ok m md F -> m <> [] ->
  (forall F1 s1, calm c D F1 s1 -> F1 !! hk1 = F !! hk1 -> is_Some (F1 !! hk2) -> (forall k, k <> hk2 -> F1 !! k = F !! k) ->
    wp never (r ← loop (length m) 0%nat (h1 (entries_of m) (header (entries_of m))) (h2 (entries_of md) (header (entries_of md)));
              let '(ret, (srcea, dstea)) := r in close_both v ret srcea dstea) s1 Q) ->
  wp never (transfer v (-1) src dst loop) s Q.
Proof.
  intros Hs [Hm Hmd] Hne HQ. destruct Hap as (Hhh & _ & _). unfold transfer, ea_openat. change (-1 =? -1) with true. cbv iota.
  do 2 apply run_bind.
  eapply run_mono; [|eapply (open_store v src c D adn1 N Had1 HN1 _ EA_RDWR); [by right; left|done|exact Hs|exact Hm]].
  cbn beta. intros r s1 [Hs1 Hr]. rewrite decide_False in Hr by done. subst r. apply run_ret. cbn [Z.eqb negb].
  change (set_dirfd (-1) _) with (h1 (entries_of m) (header (entries_of m))). apply run_bind.
  change (Z.lor EA_RDWR EA_CREATE) with (Z.lor EA_CREATE EA_RDWR).
  eapply run_mono; [|eapply (open_set v dst c D adn2 N Had2 HN2); [exact Hs1|exact Hmd]].
  cbn beta. intros r s2 (F1 & Hs2 & -> & Hh2 & HF1). run_walk. cbn [Z.eqb negb andb].
  replace (Z.to_nat _) with (length m) by (cbn; rewrite length_entries; lia).
  apply (HQ F1); [done|by apply HF1|done|done].
Qed.

Lemma values_from (adn : path) (m : attrs) (F F' : gmap fkey (list Z)) : store_ok v c adn N m F -> (forall n, n ∈ N -> F' !! vk v c adn n = F !! vk v c adn n) ->
  values_ok adn m F'.
Proof.
  intros [_ Hv Hnd Hn] H. split_and!; [done| |done]. intros k x Hin. rewrite H; [by apply Hv|]. by destruct (Hn _ _ Hin).
Qed.

Lemma store_headed adn m F : store_ok v c adn N m F -> m <> [] -> is_Some (F !! hk c adn).
Proof. intros [-> _ _ _] Hne. by destruct m. Qed.

Lemma moved_values (m md : attrs) (F F' : gmap fkey (list Z)) : both_ok m md F -> (forall k x, (k, x) ∈ moved m md -> k ∈ N /\ F' !! vk2 k = Some x) ->
  values_ok adn2 (moved m md) F'.
Proof.
  intros [[_ _ Hnd Hn] [_ _ Hndd Hnn]] H. split_and!; [by apply moved_NoDup| |].
  - intros k x Hin. by destruct (H _ _ Hin).
  - by apply moved_all.
Qed.

(** What holds for both loops once the destination is open. *)
Lemma opened_pair (m md : attrs) (F F1 : gmap fkey (list Z)) : both_ok m md F -> (forall k, k <> hk2 -> F1 !! k = F !! k) ->
  (forall k x, (k, x) ∈ m -> k ∈ N /\ F1 !! vk1 k = Some x) /\ (forall k x, (k, x) ∈ md -> k ∈ N /\ F1 !! vk2 k = Some x).
Proof.
  intros [[_ Hv1 _ Hn1] [_ Hv2 _ Hn2]] HF. destruct Hap as (_ & Hhv & _). split; intros k x Hin.
  - destruct (Hn1 _ _ Hin) as [Hk _]. split; [done|]. rewrite HF; [by apply Hv1|]. by apply (Hhv k).
  - destruct (Hn2 _ _ Hin) as [Hk _]. split; [done|]. rewrite HF; [by apply Hv2|]. apply vk_hk. by eapply name_each.
Qed.

Lemma frame2_headers F F' : frame2 F F' -> F' !! hk1 = F !! hk1 /\ F' !! hk2 = F !! hk2.
Proof.
  intros H. destruct Hap as (_ & Hhv & _). split; apply H; intros n Hn; split.
  - apply not_eq_sym, vk_hk. by eapply name_each.
  - by apply (Hhv n).
  - apply not_eq_sym. by apply (Hhv n).
  - apply not_eq_sym, vk_hk. by eapply name_each.
Qed.

Lemma frame3_trans (F F1 F2 F3 : gmap fkey (list Z)) : (forall k, k <> hk2 -> F1 !! k = F !! k) -> frame2 F1 F2 -> frame3 F2 F3 -> frame3 F F3.
Proof. intros H1 H2 H3 k Hk1 Hk2 Hk. rewrite H3, H2, H1; done. Qed.

Lemma rename_moves m md F s : calm c D F s -> both_ok m md F ->
  wp never (ea_renamefile v (-1) src dst) s (fun r s' =>
    r = AFP_OK /\ exists F', calm c D F' s' /\ both_ok [] (moved m md) F' /\ frame3 F F').
Proof.
  intros Hs Hb. destruct (decide (m = [])) as [->|Hne].
  { eapply run_mono; [|apply (transfer_nothing _ md F); done]. cbn beta. intros r s' [-> Hs']. split; [done|]. by exists F. }
  apply (transfer_opens _ m md F); [done|done|done|]. intros F1 s1 Hs1 Hh1 Hh2 HF1.
  destruct (opened_pair m md F F1 Hb HF1) as [Hv1 Hv2]. apply run_bind.
  eapply run_mono; [|apply (rename_loop (header (entries_of m)) (header (entries_of md)) m [] md F1 s1 Hs1);
    [done|done|by destruct Hb as [[] _]|done|by destruct Hb as [_ []]|done]].
  cbn beta. intros r s2 (es & F2 & -> & Hs2 & Hl & Hes & Hv & Hf). destruct (frame2_headers _ _ Hf) as [H1 H2].
  eapply run_mono; [|apply (close_pair AFP_OK es [] (moved m md) _ _ F2); [done| | |done|done|apply header_buffer|apply header_buffer| |]].
  - cbn beta. intros r s3 (-> & F3 & Hs3 & Hb3 & Hf3). split; [done|]. exists F3. split_and!; [done|done|]. by eapply frame3_trans.
  - rewrite H1, Hh1. eapply store_headed; [apply Hb|done].
  - by rewrite H2.
  - split_and!; [apply NoDup_nil_2|set_solver|set_solver].
  - by eapply moved_values.
Qed.

Lemma copy_copies m md F s : calm c D F s -> both_ok m md F ->
  wp never (ea_copyfile v (-1) src dst) s (fun r s' =>
    r = AFP_OK /\ exists F', calm c D F' s' /\ both_ok m (moved m md) F' /\ frame3 F F').
Proof.
  intros Hs Hb. destruct (decide (m = [])) as [->|Hne].
  { eapply run_mono; [|apply (transfer_nothing _ md F); done]. cbn beta. intros r s' [-> Hs']. split; [done|]. by exists F. }
  apply (transfer_opens _ m md F); [done|done|done|]. intros F1 s1 Hs1 Hh1 Hh2 HF1.
  destruct (opened_pair m md F F1 Hb HF1) as [Hv1 Hv2]. apply run_bind.
  eapply run_mono; [|apply (copy_loop (header (entries_of m)) (header (entries_of md)) [] m md F1 s1 Hs1);
    [done|by destruct Hb as [_ []]|done]].
  cbn beta. intros r s2 (F2 & -> & Hs2 & Hv & Hf & Hk). destruct (frame2_headers _ _ Hf) as [H1 H2].
  eapply run_mono; [|apply (close_pair AFP_OK (entries_of m) m (moved m md) _ _ F2);
    [done| | |apply entries_ok|apply live_entries|apply header_buffer|apply header_buffer| |]].
  - cbn beta. intros r s3 (-> & F3 & Hs3 & Hb3 & Hf3). split; [done|]. exists F3. split_and!; [done|done|]. by eapply frame3_trans.
  - rewrite H1, Hh1. eapply store_headed; [apply Hb|done].
  - by rewrite H2.
  - destruct Hb as [Hb1 _]. eapply values_from; [exact Hb1|]. intros n Hn. rewrite Hk, HF1; [done| |done].
    destruct Hap as (_ & Hhv & _). by apply (Hhv n).
  - by eapply moved_values.
Qed.

End move.
