(* ===== verification/EaTheorems.v ===== *)
(** * EaTheorems

    The claims on extended attributes: any sequence of calls behaves as the ordered list
    of attributes of [EaStore]; the calls are safe against any kernel; the header reads
    back what was packed.  Then what the code does not withstand: a destination that
    cannot be opened, a torn header, and an allocation that fails at the wrong place. *)

From S2P Require Import Prelude Bytes AdHeader AdHeaderTheorems Vfs VfsFacts Ea EaFacts EaStore EaOps EaSafe EaMove.

(** A volume of the version 2 layout that stores names as they are. *)
Definition sample_vol : vol :=
  Vol ad_path Some (fun n => if bool_decide (length n <= 255)%nat then Some n else None) 34 (fun _ => mret 0) 170.
Definition sample_sys : sys := Sys ∅ ∅ 7 0 [].

(** ** The store *)

(** C17: On a file without attributes and with a kernel that carries out every call, any
    sequence of fetches, listings, sets, removals and deletions answers as the list of
    attributes does, and no file but those of the attributes changes. *)
Theorem ea_ops_refine v uname adn N ops s :
  answers s = [] ->
  v_ad_path v uname (isd uname (cwd s) (dirs s)) = Some adn ->
  names_ok v adn N ->
  (forall n, n ∈ N -> vk v (cwd s) adn n ∉ dirs s) ->
  (forall n mac, v_to_mac v n = Some mac -> (length mac <= 255)%nat) ->
  files s !! hk (cwd s) adn = None ->
  Forall (op_ok N) ops ->
  exists s', run_ops v uname ops s = Ok ((spec_ops v ops []).1, s') /\
    frame v (cwd s) adn N (files s) (files s').
Proof.
  intros Ha Had HN HD Hmac Hh Hops.
  assert (store_ok v (cwd s) adn N [] (files s)) as Hm by (constructor; [done|set_solver|apply NoDup_nil_2|set_solver]).
  pose proof (ops_refine v uname (cwd s) (dirs s) adn N Had HN HD Hmac ops [] (files s) s Hops) as H.
  apply run_result in H as (rs & s' & Hr & F' & (_ & _ & _ & <-) & _ & Hf & ->); [|done|done]. by exists s'.
Qed.

Lemma ea_ops_refine_witness :
  exists s', run_ops sample_vol [97] [OpSet [120] [1; 2; 3] 0; OpSet [121] [9] 0; OpSet [120] [4] O_CREAT;
                                      OpList; OpRemove [120]; OpGet [121] 100; OpSize [120]] sample_sys =
    Ok ([(0, []); (0, []); (-5017, []); (0, [120; 0; 121; 0]); (0, []); (0, [0; 0; 0; 1; 9]); (-5012, [0; 0; 0; 0])], s').
Proof.
  destruct (ea_ops_refine sample_vol [97] (appledouble ++ [97]) [[120]; [121]]
    [OpSet [120] [1; 2; 3] 0; OpSet [121] [9] 0; OpSet [120] [4] O_CREAT; OpList; OpRemove [120]; OpGet [121] 100; OpSize [120]]
    sample_sys) as (s' & H & _).
  - reflexivity.
  - vm_compute. reflexivity.
  - constructor.
    + repeat constructor; try (rewrite list_elem_of_singleton; discriminate); eexists; (split; [reflexivity|]);
        apply Nat.leb_le; vm_compute; reflexivity.
    + intros n n' Hn Hn'. rewrite !elem_of_cons in Hn, Hn'. destruct Hn as [->|[->|Hn%not_elem_of_nil]],
        Hn' as [->|[->|Hn'%not_elem_of_nil]]; intros H; vm_compute in H; done.
    + reflexivity.
  - intros n _ H. apply elem_of_empty in H. exact H.
  - intros n mac. cbn. case_bool_decide; [|discriminate]. intros [= <-]. exact H.
  - vm_compute. reflexivity.
  - repeat constructor; cbn; lia.
  - exists s'. exact H.
Defined.

(** ** Safety *)

(** C18: Whatever calls of the kernel and the allocator fail or are cut short, and whatever
    bytes the header holds, a call on a file returns and stays inside its buffers,
    provided that the header is empty or has at least its eight fixed bytes. *)
Theorem ea_calls_safe v uname op s :
  (forall d, is_Some (v_ad_path v uname d)) ->
  (forall n mac, v_to_mac v n = Some mac -> (length mac <= 255)%nat) ->
  header_whole v uname s ->
  exists r s', run_op v uname op s = Ok (r, s').
Proof.
  intros Had Hmac Hh. pose proof (op_safe v uname Had Hmac op s Hh) as H.
  apply run_result in H as (r & s' & Hr & _). eauto.
Qed.

(** A header that promises 65535 entries, and a kernel that fails the fifth call. *)
Lemma ea_calls_safe_witness :
  exists r s', run_op sample_vol [97] OpList
    (Sys {[(7, appledouble ++ [97; 58; 58; 69; 65]) := [97; 100; 69; 65; 0; 1; 255; 255; 0; 0; 0; 1; 120]]} ∅ 7 0
       [Fine; Fine; Fine; Fine; Errno 5]) = Ok (r, s').
Proof.
  apply ea_calls_safe.
  - intros []; vm_compute; eexists; reflexivity.
  - intros n mac. cbn. case_bool_decide; [|discriminate]. intros [= <-]. exact H.
  - intros d p b Hp Hb. cbn in Hb. apply lookup_singleton_Some in Hb as [_ <-]. split; [|right; cbn; lia].
    apply byte_list. reflexivity.
Defined.

(** ** The header *)

(** C30: What [pack_header] leaves in the buffer, [unpack_header] reads back: the entries that
    still have a name, in order, as many as the 16 bits of the count can tell. *)
Theorem ea_header_round_trip v e s :
  answers s = [] -> ea_wf e -> 0 < ea_count e ->
  take 6 (ea_data e) = be32 EA_MAGIC ++ be16 EA_VERSION ->
  let es := live (take (Z.to_nat (ea_count e)) (ea_entries e)) in
  Forall entry_good es ->
  exists e1, pack_header v e s = Ok ((0, e1), s) /\
    forall e2, ea_data e2 = take (Z.to_nat (ea_size e1)) (ea_data e1) -> ea_size e2 = ea_size e1 -> ea_entries e2 = [] ->
    exists e3, unpack_header e2 s = Ok ((0, e3), s) /\
      ea_count e3 = zlen es mod 65536 /\ ea_entries e3 = take (Z.to_nat (zlen es mod 65536)) es.
Proof.
  intros Ha Hwf Hc H6 es Hg.
  assert (wp never (pack_header v e) s (fun r s' => s' = s /\ r.1 = 0 /\ pack_result e r.2)) as H.
  { apply pack_header_wp; [done|done|done|]. intros s' e' _ Hs Hp. by split; [apply Hs|]. }
  apply run_result in H as ([r e1] & s' & Hr & -> & Hr0 & (_ & _ & Hsz & Hl & _)). cbn in Hr0, Hsz, Hl. subst r.
  exists e1. split; [done|]. intros e2 Hd Hs2 He2. rewrite Hsz, Nat2Z.id in Hd.
  assert (packed e = header es) as Hpk.
  { unfold packed, header. rewrite H6. unfold es. by rewrite enc_live, <- !app_assoc. }
  assert (ea_data e2 = header es) as Hd2.
  { rewrite Hd, <- Hpk. unfold load in Hl. case_bool_decide; [|done]. rewrite drop_0 in Hl. congruence. }
  eexists. split; [apply (unpack_header_exact e2 s es); [done|done|done|by rewrite Hs2, Hsz, Hd2, Hpk|done]|].
  cbn [ea_count ea_entries set_entries]. split; [|done]. rewrite Z2Nat.id; [done|]. apply wrap_range. lia.
Qed.

Definition sample_ea : ea :=
  Ea EA_INITED (-1) (Some [97]) 2 [EaEntry 1 3 (Some [120]); EaEntry 1 5 None] None EA_RDWR 8 ea_new_header.

Lemma ea_header_round_trip_witness : exists e1, pack_header sample_vol sample_ea sample_sys = Ok ((0, e1), sample_sys).
Proof.
  destruct (ea_header_round_trip sample_vol sample_ea sample_sys) as (e1 & H & _).
  - reflexivity.
  - constructor; cbn; [lia| |lia]. repeat constructor; intros n [=]; subst; reflexivity.
  - reflexivity.
  - reflexivity.
  - repeat constructor. exists [120]. repeat split; [rewrite list_elem_of_singleton; discriminate|vm_compute; discriminate].
  - exists e1. exact H.
Defined.

(** ** Files that move *)

(** File [97] has the attribute [120] with the value 5. *)
Definition one_attr (l : list answer) : sys :=
  Sys {[(7, appledouble ++ [97; 58; 58; 69; 65]) := [97; 100; 69; 65; 0; 1; 0; 1; 0; 0; 0; 1; 120; 0];
        (7, appledouble ++ [97; 58; 58; 69; 65; 58; 58; 120]) := [5]]} ∅ 7 0 l.

(** C19: When the kernel and the allocator carry out every call, and no directory descriptor
    is given, a rename moves every attribute of a file to its new name and a copy copies
    them, in order and on top of what the destination had; no file but those of the
    attributes of the two changes.  The two files have different paths for their attributes,
    and names that fit. *)
Theorem ea_files_follow v src dst adn1 adn2 N m md s :
  answers s = [] ->
  v_ad_path v src (isd src (cwd s) (dirs s)) = Some adn1 -> v_ad_path v dst (isd dst (cwd s) (dirs s)) = Some adn2 ->
  names_ok v adn1 N -> names_ok v adn2 N -> apart v (cwd s) adn1 adn2 N ->
  both_ok v (cwd s) adn1 adn2 N m md (files s) ->
  (exists s', ea_renamefile v (-1) src dst s = Ok (AFP_OK, s') /\
     both_ok v (cwd s) adn1 adn2 N [] (moved m md) (files s') /\ frame3 v (cwd s) adn1 adn2 N (files s) (files s')) /\
  (exists s', ea_copyfile v (-1) src dst s = Ok (AFP_OK, s') /\
     both_ok v (cwd s) adn1 adn2 N m (moved m md) (files s') /\ frame3 v (cwd s) adn1 adn2 N (files s) (files s')).
Proof.
  intros Ha Had1 Had2 HN1 HN2 Hap Hb. split.
  - pose proof (rename_moves v (cwd s) (dirs s) src dst adn1 adn2 N Had1 Had2 HN1 HN2 Hap m md (files s) s) as H.
    apply run_result in H as (r & s' & Hr & -> & F' & (_ & _ & _ & <-) & Hb' & Hf); [|done|done]. by exists s'.
  - pose proof (copy_copies v (cwd s) (dirs s) src dst adn1 adn2 N Had1 Had2 HN1 HN2 Hap m md (files s) s) as H.
    apply run_result in H as (r & s' & Hr & -> & F' & (_ & _ & _ & <-) & Hb' & Hf); [|done|done]. by exists s'.
Qed.

Lemma sample_names a : names_ok sample_vol (appledouble ++ [a]) [[120]].
Proof.
  constructor; [|intros n n' ->%list_elem_of_singleton ->%list_elem_of_singleton; reflexivity|reflexivity].
  apply Forall_singleton. split; [rewrite list_elem_of_singleton; discriminate|].
  split; [rewrite list_elem_of_singleton; discriminate|]. exists [120]. split; [reflexivity|]. apply Nat.leb_le. vm_compute. reflexivity.
Qed.

Lemma ea_files_follow_witness :
  (exists s', ea_renamefile sample_vol (-1) [97] [98] (one_attr []) = Ok (AFP_OK, s')) /\
  (exists s', ea_copyfile sample_vol (-1) [97] [98] (one_attr []) = Ok (AFP_OK, s')).
Proof.
  destruct (ea_files_follow sample_vol [97] [98] (appledouble ++ [97]) (appledouble ++ [98]) [[120]] [([120], [5])] [] (one_attr []))
    as [(s1 & H1 & _) (s2 & H2 & _)].
  - reflexivity.
  - vm_compute. reflexivity.
  - vm_compute. reflexivity.
  - exact (sample_names 97).
  - exact (sample_names 98).
  - split; [vm_compute; discriminate|]. split.
    + intros n ->%list_elem_of_singleton. split; vm_compute; discriminate.
    + intros n n' ->%list_elem_of_singleton ->%list_elem_of_singleton. vm_compute. discriminate.
  - split; constructor.
    + vm_compute. reflexivity.
    + intros k x [= -> ->]%list_elem_of_singleton. vm_compute. reflexivity.
    + apply NoDup_singleton.
    + intros k x [= -> ->]%list_elem_of_singleton. split; [left|reflexivity].
    + vm_compute. reflexivity.
    + intros k x H%not_elem_of_nil. destruct H.
    + apply NoDup_nil_2.
    + intros k x H%not_elem_of_nil. destruct H.
  - split; [exists s1; exact H1|exists s2; exact H2].
Defined.

(** ** A destination that does not open *)

Definition whatever (w : why) : Prop := True.

Lemma run_whatever {A} (m : M A) s (Q : A -> sys -> Prop) : (forall a s', Q a s') -> wp whatever m s Q.
Proof. intros H. unfold wp. destruct (m s) as [[a s']|w]; [apply H|done]. Qed.

Definition unopened (r : Z * ea) (s : sys) : Prop := r.1 <> 0 -> sys_errno s <> ENOENT /\ ea_filename r.2 = None.

Lemma exit_unopened ret e s : ret = 0 \/ ret = -1 -> wp whatever (ea_open_exit ret e) s unopened.
Proof. by intros [-> | ->]. Qed.

Lemma load_unopened e fd s : wp whatever (ea_load e fd) s unopened.
Proof.
  unfold ea_load. repeat match goal with
  | |- wp _ (ea_open_exit _ _) _ _ => apply exit_unopened; case_match; auto
  | |- wp _ (_ ≫= _) _ _ => apply run_bind, run_whatever; intros
  | |- wp _ (match ?x with _ => _ end) _ _ => destruct x
  end; apply exit_unopened; auto.
Qed.

(** An open that may create the header never fails with ENOENT. *)
Lemma open_unopened v uname e0 s : wp whatever (ea_open v uname (Z.lor EA_RDWR EA_CREATE) e0) s unopened.
Proof.
  unfold ea_open. replace (flag (Z.lor EA_RDWR EA_CREATE) (Z.lor EA_RDONLY EA_RDWR)) with true by done. cbn [negb].
  apply run_bind, run_whatever. intros isdir s1. set (e := if isdir : bool then _ else _).
  assert (ea_filename e = None) as He by (unfold e; by destruct isdir).
  unfold alloc. do 2 apply run_bind. apply run_whatever. intros a s2.
  assert (forall s3, wp whatever (eaname ← ea_path v (set_filename (Some uname) e) None false;
    match eaname with
    | None => undefined
    | Some eaname =>
      fd ← sys_openat (-1) eaname (flag (Z.lor EA_RDWR EA_CREATE) EA_CREATE) false;
      let e := set_fd fd (set_filename (Some uname) e) in
      match fd with
      | None => s ← get; ea_open_exit (if (sys_errno s =? ENOENT) && negb (flag (Z.lor EA_RDWR EA_CREATE) EA_CREATE) then -2 else -1) e
      | Some fd => ea_load e fd
      end
    end) s3 unopened) as Hgo.
  { intros s3. apply run_bind, run_whatever. intros [p|] s4; [|done]. apply run_bind, run_whatever. intros [fd|] s5; [apply load_unopened|].
    run_walk. change (flag (Z.lor EA_RDWR EA_CREATE) EA_CREATE) with true. rewrite andb_false_r. apply exit_unopened. auto. }
  destruct a as [|er|m]; run_walk; cbn [negb]; [apply Hgo|run_walk; split; [discriminate|done]|apply Hgo].
Qed.

(** C39: When the header of the destination does not open, [ea_renamefile] and [ea_copyfile]
    neither create the directory and try again nor give up: [ea_open] reports EFAULT and
    not the ENOENT they ask for, and the loop takes the path of a handle without a
    name. *)
Theorem ea_transfer_unopened v dirfd src dst s srcea s1 r dstea s2 x p :
  ea_openat v dirfd src EA_RDWR ea_zero s = Ok ((0, srcea), s1) ->
  ea_open v dst (Z.lor EA_RDWR EA_CREATE) ea_zero s1 = Ok ((r, dstea), s2) -> r <> 0 ->
  0 < ea_count srcea -> ea_entries srcea !! 0%nat = Some x ->
  ea_path v srcea (ea_name x) true s2 = Ok (Some p, s2) ->
  ea_renamefile v dirfd src dst s = Abort Undefined /\ ea_copyfile v dirfd src dst s = Abort Undefined.
Proof.
  intros Hsrc Hdst Hr Hc Hx Hp. pose proof (open_unopened v dst ea_zero s1) as Hu. unfold wp in Hu. rewrite Hdst in Hu.
  destruct (Hu Hr) as [Herr Hf]. cbn [snd] in Hf.
  assert (ea_path v dstea (ea_name x) true s2 = Abort Undefined) as Hpd by (unfold ea_path; by rewrite Hf).
  destruct (Z.to_nat (ea_count srcea)) as [|n] eqn:Hn; [lia|].
  unfold ea_renamefile, ea_copyfile, transfer, mbind, M_bind. rewrite Hsrc. cbn [Z.eqb negb].
  rewrite Hdst. unfold get. rewrite (proj2 (Z.eqb_neq r 0) Hr), (proj2 (Z.eqb_neq _ _) Herr). cbn [negb andb]. rewrite Hn.
  cbn [rename_files copy_files]. unfold mbind, M_bind, lift, entry_at. rewrite Hx, Hp, Hpd. done.
Qed.

(** The kernel refuses to create the header of [98], as it does when the directory
    .AppleDouble is missing. *)
Lemma ea_transfer_unopened_witness :
  ea_renamefile sample_vol (-1) [97] [98] (one_attr (replicate 11 Fine ++ [Errno ENOENT])) = Abort Undefined.
Proof.
  eapply (ea_transfer_unopened sample_vol (-1) [97] [98]).
  - vm_compute. reflexivity.
  - vm_compute. reflexivity.
  - vm_compute. discriminate.
  - vm_compute. reflexivity.
  - vm_compute. reflexivity.
  - vm_compute. reflexivity.
Defined.

(** ** Torn headers and failed allocations *)

(** A header of one to three bytes, such as a write that was cut short leaves, is read
    past its end: [unpack_header] copies the magic without asking for the size. *)
Theorem ea_torn_header v uname adn n s b : answers s = [] ->
  v_ad_path v uname (isd uname (cwd s) (dirs s)) = Some adn -> files s !! hk (cwd s) adn = Some b ->
  (0 < length b < 4)%nat -> get_easize v uname (Some n) s = Abort Undefined.
Proof.
  intros Ha Had Hb Hl. assert (calm (cwd s) (dirs s) (files s) s) as Hs by done.
  assert (wp (fun w => w = Undefined) (get_easize v uname (Some n)) s (fun _ _ => False)) as H.
  { unfold get_easize. apply run_bind, (run_open v uname (cwd s) (dirs s) adn Had _ _ (files s)); [by left|done|]. intros s1 Hs1.
    apply run_bind, (run_openat_calm _ (cwd s) (dirs s) (files s)); [done|]. fold (hk (cwd s) adn). rewrite Hb. intros s2 Hs2.
    unfold ea_load. apply run_bind, (run_attempt_calm _ (cwd s) (dirs s) (files s)); [done|]. cbn [negb].
    apply run_bind, (run_fstat_calm _ (cwd s) (dirs s) (files s) _ _ b); [done|done|]. case_test; [lia|].
    apply run_bind, (run_alloc_calm _ (cwd s) (dirs s) (files s)); [done|]. cbn [negb].
    apply run_bind, (run_read_calm _ (cwd s) (dirs s) (files s) _ _ _ _ b); [done|done|]. rewrite Nat2Z.id, drop_0, firstn_all.
    rewrite Z.eqb_refl. cbn [negb]. apply run_bind, run_bind. unfold wp, lift, load. cbn [ea_data set_buffer].
    by rewrite bool_decide_eq_false_2 by lia. }
  unfold wp in H. destruct (get_easize v uname (Some n) s) as [[r s']|w]; [done|by subst w].
Qed.

(** How such a header comes about: the disk fills up while [set_ea] writes the header of
    the second attribute, and the next call on the file reads past the buffer. *)
Example ea_torn_by_set :
  match set_ea sample_vol [97] (Some [121]) [9] 0 (one_attr (replicate 18 Fine ++ [Short 2])) with
  | Ok (r, s) => r = AFPERR_MISC /\ get_easize sample_vol [97] (Some [120]) s = Abort Undefined
  | Abort _ => False
  end.
Proof. vm_compute. split; reflexivity. Qed.

(** When the allocation of a new name fails, [ea_addentry] sets the count of entries to
    zero, and [ea_close] takes the header of the other attributes for empty and removes
    it. *)
Example ea_lost_by_alloc :
  match set_ea sample_vol [97] (Some [121]) [9] 0 (one_attr (replicate 10 Fine ++ [Errno ENOMEM])) with
  | Ok (r, s) => r = AFPERR_MISC /\ run_op sample_vol [97] OpList s = Ok ((AFP_OK, []), set_errno ENOENT s)
  | Abort _ => False
  end.
Proof. vm_compute. split; reflexivity. Qed.
