(* ===== verification/CharsetTables.v ===== *)
(** * The tables of the single-byte Mac character sets, libatalk/unicode/charsets

    For each of the six sets: the table of the upper half of its bytes, the pages of the
    UCS-2 characters it holds, and the two functions that map a character to its byte and a
    byte to its character. *)

From S2P Require Import Prelude.

(** The entry of a table at an index the caller has checked against its size. *)
Definition entry (t : list Z) (i : Z) : Z := nth (Z.to_nat i) t 0.

(** *** MAC_ROMAN *)

Definition mac_roman_page00 : list Z :=
  [0xca; 0xc1; 0xa2; 0xa3; 0xdb; 0xb4; 0; 0xa4; 0xac; 0xa9; 0xbb; 0xc7; 0xc2; 0; 0xa8; 0xf8; 0xa1; 0xb1; 0; 0;
   0xab; 0xb5; 0xa6; 0xe1; 0xfc; 0; 0xbc; 0xc8; 0; 0; 0; 0xc0; 0xcb; 0xe7; 0xe5; 0xcc; 0x80; 0x81; 0xae; 0x82;
   0xe9; 0x83; 0xe6; 0xe8; 0xed; 0xea; 0xeb; 0xec; 0; 0x84; 0xf1; 0xee; 0xef; 0xcd; 0x85; 0; 0xaf; 0xf4; 0xf2;
   0xf3; 0x86; 0; 0; 0xa7; 0x88; 0x87; 0x89; 0x8b; 0x8a; 0x8c; 0xbe; 0x8d; 0x8f; 0x8e; 0x90; 0x91; 0x93; 0x92;
   0x94; 0x95; 0; 0x96; 0x98; 0x97; 0x99; 0x9b; 0x9a; 0xd6; 0xbf; 0x9d; 0x9c; 0x9e; 0x9f; 0; 0; 0xd8].

Definition mac_roman_page01 : list Z :=
  [0; 0xf5; 0; 0; 0; 0; 0; 0; 0; 0; 0; 0; 0; 0; 0; 0; 0; 0; 0; 0; 0; 0; 0; 0; 0; 0; 0; 0; 0; 0; 0; 0; 0; 0;
   0xce; 0xcf; 0; 0; 0; 0; 0; 0; 0; 0; 0; 0; 0; 0; 0; 0; 0; 0; 0; 0; 0; 0; 0; 0; 0; 0; 0; 0; 0; 0; 0; 0; 0; 0;
   0; 0; 0; 0; 0xd9; 0; 0; 0; 0; 0; 0; 0; 0; 0; 0; 0; 0; 0; 0; 0; 0; 0; 0; 0; 0; 0; 0; 0; 0; 0; 0xc4; 0; 0; 0;
   0; 0].

Definition mac_roman_page02 : list Z :=
  [0; 0; 0; 0; 0; 0; 0xf6; 0xff; 0; 0; 0; 0; 0; 0; 0; 0; 0; 0; 0; 0; 0; 0; 0; 0; 0xf9; 0xfa; 0xfb; 0xfe; 0xf7;
   0xfd; 0; 0].

Definition mac_roman_page20 : list Z :=
  [0; 0; 0; 0xd0; 0xd1; 0; 0; 0; 0xd4; 0xd5; 0xe2; 0; 0xd2; 0xd3; 0xe3; 0; 0xa0; 0xe0; 0xa5; 0; 0; 0; 0xc9; 0;
   0; 0; 0; 0; 0; 0; 0; 0; 0xe4; 0; 0; 0; 0; 0; 0; 0; 0; 0xdc; 0xdd; 0; 0; 0; 0; 0; 0; 0; 0; 0; 0xda; 0; 0; 0].

Definition mac_roman_page21 : list Z :=
  [0; 0; 0xaa; 0; 0; 0; 0xbd; 0].

Definition mac_roman_page22 : list Z :=
  [0; 0; 0xb6; 0; 0; 0; 0xc6; 0; 0; 0; 0; 0; 0; 0; 0; 0xb8; 0; 0xb7; 0; 0; 0; 0; 0; 0; 0; 0; 0xc3; 0; 0; 0;
   0xb0; 0; 0; 0; 0; 0; 0; 0; 0; 0; 0; 0; 0; 0xba; 0; 0; 0; 0; 0; 0; 0; 0; 0; 0; 0; 0; 0; 0; 0; 0; 0; 0; 0; 0;
   0; 0; 0; 0; 0; 0; 0; 0; 0xc5; 0; 0; 0; 0; 0; 0; 0; 0; 0; 0; 0; 0; 0; 0; 0; 0; 0; 0; 0; 0; 0; 0; 0; 0xad; 0;
   0; 0; 0xb2; 0xb3; 0; 0].

Definition mac_roman_pagefb : list Z :=
  [0; 0xde; 0xdf; 0; 0; 0; 0; 0].

Definition mac_roman_2uni : list Z :=
  [0xc4; 0xc5; 0xc7; 0xc9; 0xd1; 0xd6; 0xdc; 0xe1; 0xe0; 0xe2; 0xe4; 0xe3; 0xe5; 0xe7; 0xe9; 0xe8; 0xea; 0xeb;
   0xed; 0xec; 0xee; 0xef; 0xf1; 0xf3; 0xf2; 0xf4; 0xf6; 0xf5; 0xfa; 0xf9; 0xfb; 0xfc; 0x2020; 0xb0; 0xa2;
   0xa3; 0xa7; 0x2022; 0xb6; 0xdf; 0xae; 0xa9; 0x2122; 0xb4; 0xa8; 0x2260; 0xc6; 0xd8; 0x221e; 0xb1; 0x2264;
   0x2265; 0xa5; 0xb5; 0x2202; 0x2211; 0x220f; 0x3c0; 0x222b; 0xaa; 0xba; 0x2126; 0xe6; 0xf8; 0xbf; 0xa1; 0xac;
   0x221a; 0x192; 0x2248; 0x2206; 0xab; 0xbb; 0x2026; 0xa0; 0xc0; 0xc3; 0xd5; 0x152; 0x153; 0x2013; 0x2014;
   0x201c; 0x201d; 0x2018; 0x2019; 0xf7; 0x25ca; 0xff; 0x178; 0x2044; 0xa4; 0x2039; 0x203a; 0xfb01; 0xfb02;
   0x2021; 0xb7; 0x201a; 0x201e; 0x2030; 0xc2; 0xca; 0xc1; 0xcb; 0xc8; 0xcd; 0xce; 0xcf; 0xcc; 0xd3; 0xd4;
   0xf8ff; 0xd2; 0xda; 0xdb; 0xd9; 0x131; 0x2c6; 0x2dc; 0xaf; 0x2d8; 0x2d9; 0x2da; 0xb8; 0x2dd; 0x2db; 0x2c7].

Definition char_ucs2_to_mac_roman (wc : Z) : option Z :=
  if wc <? 0x80 then Some wc else
  let c :=
    if (0xa0 <=? wc) && (wc <? 0x100) then entry mac_roman_page00 (wc - 0xa0)
    else if (0x130 <=? wc) && (wc <? 0x198) then entry mac_roman_page01 (wc - 0x130)
    else if (0x2c0 <=? wc) && (wc <? 0x2e0) then entry mac_roman_page02 (wc - 0x2c0)
    else if wc =? 0x3c0 then 0xb9
    else if (0x2010 <=? wc) && (wc <? 0x2048) then entry mac_roman_page20 (wc - 0x2010)
    else if (0x2120 <=? wc) && (wc <? 0x2128) then entry mac_roman_page21 (wc - 0x2120)
    else if (0x2200 <=? wc) && (wc <? 0x2268) then entry mac_roman_page22 (wc - 0x2200)
    else if wc =? 0x25ca then 0xd7
    else if (0xfb00 <=? wc) && (wc <? 0xfb08) then entry mac_roman_pagefb (wc - 0xfb00)
    else if wc =? 0xf8ff then 0xf0
    else 0 in
  if c =? 0 then None else Some c.

Definition char_mac_roman_to_ucs2 (c : Z) : option Z :=
  if c <? 0x80 then Some c else Some (entry mac_roman_2uni (c - 0x80)).

(** *** MAC_CENTRALEUROPE *)

Definition mac_centraleurope_2uni : list Z :=
  [0xc4; 0x100; 0x101; 0xc9; 0x104; 0xd6; 0xdc; 0xe1; 0x105; 0x10c; 0xe4; 0x10d; 0x106; 0x107; 0xe9; 0x179;
   0x17a; 0x10e; 0xed; 0x10f; 0x112; 0x113; 0x116; 0xf3; 0x117; 0xf4; 0xf6; 0xf5; 0xfa; 0x11a; 0x11b; 0xfc;
   0x2020; 0xb0; 0x118; 0xa3; 0xa7; 0x2022; 0xb6; 0xdf; 0xae; 0xa9; 0x2122; 0x119; 0xa8; 0x2260; 0x123; 0x12e;
   0x12f; 0x12a; 0x2264; 0x2265; 0x12b; 0x136; 0x2202; 0x2211; 0x142; 0x13b; 0x13c; 0x13d; 0x13e; 0x139; 0x13a;
   0x145; 0x146; 0x143; 0xac; 0x221a; 0x144; 0x147; 0x2206; 0xab; 0xbb; 0x2026; 0xa0; 0x148; 0x150; 0xd5;
   0x151; 0x14c; 0x2013; 0x2014; 0x201c; 0x201d; 0x2018; 0x2019; 0xf7; 0x25ca; 0x14d; 0x154; 0x155; 0x158;
   0x2039; 0x203a; 0x159; 0x156; 0x157; 0x160; 0x201a; 0x201e; 0x161; 0x15a; 0x15b; 0xc1; 0x164; 0x165; 0xcd;
   0x17d; 0x17e; 0x16a; 0xd3; 0xd4; 0x16b; 0x16e; 0xda; 0x16f; 0x170; 0x171; 0x172; 0x173; 0xdd; 0xfd; 0x137;
   0x17b; 0x141; 0x17c; 0x122; 0x2c7].

Definition mac_centraleurope_page00 : list Z :=
  [0xca; 0; 0; 0xa3; 0; 0; 0; 0xa4; 0xac; 0xa9; 0; 0xc7; 0xc2; 0; 0xa8; 0; 0xa1; 0; 0; 0; 0; 0; 0xa6; 0; 0; 0;
   0; 0xc8; 0; 0; 0; 0; 0; 0xe7; 0; 0; 0x80; 0; 0; 0; 0; 0x83; 0; 0; 0; 0xea; 0; 0; 0; 0; 0; 0xee; 0xef; 0xcd;
   0x85; 0; 0; 0; 0xf2; 0; 0x86; 0xf8; 0; 0xa7; 0; 0x87; 0; 0; 0x8a; 0; 0; 0; 0; 0x8e; 0; 0; 0; 0x92; 0; 0; 0;
   0; 0; 0x97; 0x99; 0x9b; 0x9a; 0xd6; 0; 0; 0x9c; 0; 0x9f; 0xf9; 0; 0; 0x81; 0x82; 0; 0; 0x84; 0x88; 0x8c;
   0x8d; 0; 0; 0; 0; 0x89; 0x8b; 0x91; 0x93; 0; 0; 0x94; 0x95; 0; 0; 0x96; 0x98; 0xa2; 0xab; 0x9d; 0x9e; 0; 0;
   0; 0; 0; 0; 0xfe; 0xae; 0; 0; 0; 0; 0; 0; 0xb1; 0xb4; 0; 0; 0xaf; 0xb0; 0; 0; 0; 0; 0; 0; 0xb5; 0xfa; 0;
   0xbd; 0xbe; 0xb9; 0xba; 0xbb; 0xbc; 0; 0; 0xfc; 0xb8; 0xc1; 0xc4; 0xbf; 0xc0; 0xc5; 0xcb; 0; 0; 0; 0xcf;
   0xd8; 0; 0; 0xcc; 0xce; 0; 0; 0xd9; 0xda; 0xdf; 0xe0; 0xdb; 0xde; 0xe5; 0xe6; 0; 0; 0; 0; 0xe1; 0xe4; 0; 0;
   0xe8; 0xe9; 0; 0; 0; 0; 0xed; 0xf0; 0; 0; 0xf1; 0xf3; 0xf4; 0xf5; 0xf6; 0xf7; 0; 0; 0; 0; 0; 0x8f; 0x90;
   0xfb; 0xfd; 0xeb; 0xec; 0].

Definition mac_centraleurope_page20 : list Z :=
  [0; 0; 0; 0xd0; 0xd1; 0; 0; 0; 0xd4; 0xd5; 0xe2; 0; 0xd2; 0xd3; 0xe3; 0; 0xa0; 0; 0xa5; 0; 0; 0; 0xc9; 0; 0;
   0; 0; 0; 0; 0; 0; 0; 0; 0; 0; 0; 0; 0; 0; 0; 0; 0xdc; 0xdd; 0; 0; 0; 0; 0].

Definition mac_centraleurope_page22 : list Z :=
  [0; 0; 0xb6; 0; 0; 0; 0xc6; 0; 0; 0; 0; 0; 0; 0; 0; 0; 0; 0xb7; 0; 0; 0; 0; 0; 0; 0; 0; 0xc3; 0; 0; 0; 0; 0].

Definition mac_centraleurope_page22_1 : list Z :=
  [0xad; 0; 0; 0; 0xb2; 0xb3; 0; 0].

Definition char_ucs2_to_mac_centraleurope (wc : Z) : option Z :=
  if wc <? 0x80 then Some wc else
  let c :=
    if (0xa0 <=? wc) && (wc <? 0x180) then entry mac_centraleurope_page00 (wc - 0xa0)
    else if wc =? 0x2c7 then 0xff
    else if (0x2010 <=? wc) && (wc <? 0x2040) then entry mac_centraleurope_page20 (wc - 0x2010)
    else if wc =? 0x2122 then 0xaa
    else if (0x2200 <=? wc) && (wc <? 0x2220) then entry mac_centraleurope_page22 (wc - 0x2200)
    else if (0x2260 <=? wc) && (wc <? 0x2268) then entry mac_centraleurope_page22_1 (wc - 0x2260)
    else if wc =? 0x25ca then 0xd7
    else 0 in
  if c =? 0 then None else Some c.

Definition char_mac_centraleurope_to_ucs2 (c : Z) : option Z :=
  if c <? 0x80 then Some c else Some (entry mac_centraleurope_2uni (c - 0x80)).

(** *** MAC_CYRILLIC *)

Definition mac_cyrillic_2uni : list Z :=
  [0x410; 0x411; 0x412; 0x413; 0x414; 0x415; 0x416; 0x417; 0x418; 0x419; 0x41a; 0x41b; 0x41c; 0x41d; 0x41e;
   0x41f; 0x420; 0x421; 0x422; 0x423; 0x424; 0x425; 0x426; 0x427; 0x428; 0x429; 0x42a; 0x42b; 0x42c; 0x42d;
   0x42e; 0x42f; 0x2020; 0xb0; 0x490; 0xa3; 0xa7; 0x2022; 0xb6; 0x406; 0xae; 0xa9; 0x2122; 0x402; 0x452;
   0x2260; 0x403; 0x453; 0x221e; 0xb1; 0x2264; 0x2265; 0x456; 0xb5; 0x491; 0x408; 0x404; 0x454; 0x407; 0x457;
   0x409; 0x459; 0x40a; 0x45a; 0x458; 0x405; 0xac; 0x221a; 0x192; 0x2248; 0x2206; 0xab; 0xbb; 0x2026; 0xa0;
   0x40b; 0x45b; 0x40c; 0x45c; 0x455; 0x2013; 0x2014; 0x201c; 0x201d; 0x2018; 0x2019; 0xf7; 0x201e; 0x40e;
   0x45e; 0x40f; 0x45f; 0x2116; 0x401; 0x451; 0x44f; 0x430; 0x431; 0x432; 0x433; 0x434; 0x435; 0x436; 0x437;
   0x438; 0x439; 0x43a; 0x43b; 0x43c; 0x43d; 0x43e; 0x43f; 0x440; 0x441; 0x442; 0x443; 0x444; 0x445; 0x446;
   0x447; 0x448; 0x449; 0x44a; 0x44b; 0x44c; 0x44d; 0x44e; 0x20ac].

Definition mac_cyrillic_page00 : list Z :=
  [0xca; 0; 0xa2; 0xa3; 0xff; 0; 0; 0xa4; 0; 0xa9; 0; 0xc7; 0xc2; 0; 0xa8; 0; 0xa1; 0xb1; 0; 0; 0; 0xb5; 0xa6;
   0; 0; 0; 0; 0xc8; 0; 0; 0; 0].

Definition mac_cyrillic_page04 : list Z :=
  [0; 0xdd; 0xab; 0xae; 0xb8; 0xc1; 0xa7; 0xba; 0xb7; 0xbc; 0xbe; 0xcb; 0xcd; 0; 0xd8; 0xda; 0x80; 0x81; 0x82;
   0x83; 0x84; 0x85; 0x86; 0x87; 0x88; 0x89; 0x8a; 0x8b; 0x8c; 0x8d; 0x8e; 0x8f; 0x90; 0x91; 0x92; 0x93; 0x94;
   0x95; 0x96; 0x97; 0x98; 0x99; 0x9a; 0x9b; 0x9c; 0x9d; 0x9e; 0x9f; 0xe0; 0xe1; 0xe2; 0xe3; 0xe4; 0xe5; 0xe6;
   0xe7; 0xe8; 0xe9; 0xea; 0xeb; 0xec; 0xed; 0xee; 0xef; 0xf0; 0xf1; 0xf2; 0xf3; 0xf4; 0xf5; 0xf6; 0xf7; 0xf8;
   0xf9; 0xfa; 0xfb; 0xfc; 0xfd; 0xfe; 0xdf; 0; 0xde; 0xac; 0xaf; 0xb9; 0xcf; 0xb4; 0xbb; 0xc0; 0xbd; 0xbf;
   0xcc; 0xce; 0; 0xd9; 0xdb].

Definition mac_cyrillic_page20 : list Z :=
  [0; 0; 0; 0xd0; 0xd1; 0; 0; 0; 0xd4; 0xd5; 0; 0; 0xd2; 0xd3; 0xd7; 0; 0xa0; 0; 0xa5; 0; 0; 0; 0xc9; 0].

Definition mac_cyrillic_page21 : list Z :=
  [0; 0; 0; 0; 0; 0; 0xdc; 0; 0; 0; 0; 0; 0; 0; 0; 0; 0; 0; 0xaa; 0; 0; 0; 0; 0].

Definition mac_cyrillic_page22 : list Z :=
  [0; 0; 0xb6; 0; 0; 0; 0xc6; 0; 0; 0; 0; 0; 0; 0; 0; 0; 0; 0; 0; 0; 0; 0; 0; 0; 0; 0; 0xc3; 0; 0; 0; 0xb0; 0;
   0; 0; 0; 0; 0; 0; 0; 0; 0; 0; 0; 0; 0; 0; 0; 0; 0; 0; 0; 0; 0; 0; 0; 0; 0; 0; 0; 0; 0; 0; 0; 0; 0; 0; 0; 0;
   0; 0; 0; 0; 0xc5; 0; 0; 0; 0; 0; 0; 0; 0; 0; 0; 0; 0; 0; 0; 0; 0; 0; 0; 0; 0; 0; 0; 0; 0xad; 0; 0; 0; 0xb2;
   0xb3; 0; 0].

Definition char_ucs2_to_mac_cyrillic (wc : Z) : option Z :=
  if wc <? 0x80 then Some wc else
  let c :=
    if (0xa0 <=? wc) && (wc <? 0xc0) then entry mac_cyrillic_page00 (wc - 0xa0)
    else if wc =? 0xf7 then 0xd6
    else if wc =? 0x192 then 0xc4
    else if (0x400 <=? wc) && (wc <? 0x460) then entry mac_cyrillic_page04 (wc - 0x400)
    else if wc =? 0x490 then 0xa2
    else if wc =? 0x491 then 0xb6
    else if (0x2010 <=? wc) && (wc <? 0x2028) then entry mac_cyrillic_page20 (wc - 0x2010)
    else if wc =? 0x20ac then 0xff
    else if (0x2110 <=? wc) && (wc <? 0x2128) then entry mac_cyrillic_page21 (wc - 0x2110)
    else if (0x2200 <=? wc) && (wc <? 0x2268) then entry mac_cyrillic_page22 (wc - 0x2200)
    else 0 in
  if c =? 0 then None else Some c.

Definition char_mac_cyrillic_to_ucs2 (c : Z) : option Z :=
  if c <? 0x80 then Some c else Some (entry mac_cyrillic_2uni (c - 0x80)).

(** *** MAC_GREEK *)

Definition mac_greek_2uni : list Z :=
  [0xc4; 0xb9; 0xb2; 0xc9; 0xb3; 0xd6; 0xdc; 0x385; 0xe0; 0xe2; 0xe4; 0x384; 0xa8; 0xe7; 0xe9; 0xe8; 0xea;
   0xeb; 0xa3; 0x2122; 0xee; 0xef; 0x2022; 0xbd; 0x2030; 0xf4; 0xf6; 0xa6; 0xad; 0xf9; 0xfb; 0xfc; 0x2020;
   0x393; 0x394; 0x398; 0x39b; 0x39e; 0x3a0; 0xdf; 0xae; 0xa9; 0x3a3; 0x3aa; 0xa7; 0x2260; 0xb0; 0x387; 0x391;
   0xb1; 0x2264; 0x2265; 0xa5; 0x392; 0x395; 0x396; 0x397; 0x399; 0x39a; 0x39c; 0x3a6; 0x3ab; 0x3a8; 0x3a9;
   0x3ac; 0x39d; 0xac; 0x39f; 0x3a1; 0x2248; 0x3a4; 0xab; 0xbb; 0x2026; 0xa0; 0x3a5; 0x3a7; 0x386; 0x388;
   0x153; 0x2013; 0x2015; 0x201c; 0x201d; 0x2018; 0x2019; 0xf7; 0x389; 0x38a; 0x38c; 0x38e; 0x3ad; 0x3ae;
   0x3af; 0x3cc; 0x38f; 0x3cd; 0x3b1; 0x3b2; 0x3c8; 0x3b4; 0x3b5; 0x3c6; 0x3b3; 0x3b7; 0x3b9; 0x3be; 0x3ba;
   0x3bb; 0x3bc; 0x3bd; 0x3bf; 0x3c0; 0x3ce; 0x3c1; 0x3c3; 0x3c4; 0x3b8; 0x3c9; 0x3c2; 0x3c7; 0x3c5; 0x3b6;
   0x3ca; 0x3cb; 0x390; 0x3b0; 0xfffd].

Definition mac_greek_page00 : list Z :=
  [0xca; 0; 0; 0x92; 0; 0xb4; 0x9b; 0xac; 0x8c; 0xa9; 0; 0xc7; 0xc2; 0x9c; 0xa8; 0; 0xae; 0xb1; 0x82; 0x84; 0;
   0; 0; 0; 0; 0x81; 0; 0xc8; 0; 0x97; 0; 0; 0; 0; 0; 0; 0x80; 0; 0; 0; 0; 0x83; 0; 0; 0; 0; 0; 0; 0; 0; 0; 0;
   0; 0; 0x85; 0; 0; 0; 0; 0; 0x86; 0; 0; 0xa7; 0x88; 0; 0x89; 0; 0x8a; 0; 0; 0x8d; 0x8f; 0x8e; 0x90; 0x91; 0;
   0; 0x94; 0x95; 0; 0; 0; 0; 0x99; 0; 0x9a; 0xd6; 0; 0x9d; 0; 0x9e; 0x9f; 0; 0; 0].

Definition mac_greek_page03 : list Z :=
  [0; 0; 0; 0; 0x8b; 0x87; 0xcd; 0xaf; 0xce; 0xd7; 0xd8; 0; 0xd9; 0; 0xda; 0xdf; 0xfd; 0xb0; 0xb5; 0xa1; 0xa2;
   0xb6; 0xb7; 0xb8; 0xa3; 0xb9; 0xba; 0xa4; 0xbb; 0xc1; 0xa5; 0xc3; 0xa6; 0xc4; 0; 0xaa; 0xc6; 0xcb; 0xbc;
   0xcc; 0xbe; 0xbf; 0xab; 0xbd; 0xc0; 0xdb; 0xdc; 0xdd; 0xfe; 0xe1; 0xe2; 0xe7; 0xe4; 0xe5; 0xfa; 0xe8; 0xf5;
   0xe9; 0xeb; 0xec; 0xed; 0xee; 0xea; 0xef; 0xf0; 0xf2; 0xf7; 0xf3; 0xf4; 0xf9; 0xe6; 0xf8; 0xe3; 0xf6; 0xfb;
   0xfc; 0xde; 0xe0; 0xf1; 0].

Definition mac_greek_page20 : list Z :=
  [0; 0; 0; 0xd0; 0; 0xd1; 0; 0; 0xd4; 0xd5; 0; 0; 0xd2; 0xd3; 0; 0; 0xa0; 0; 0x96; 0; 0; 0; 0xc9; 0; 0; 0; 0;
   0; 0; 0; 0; 0; 0x98; 0; 0; 0; 0; 0; 0; 0].

Definition mac_greek_page22 : list Z :=
  [0xc5; 0; 0; 0; 0; 0; 0; 0; 0; 0; 0; 0; 0; 0; 0; 0; 0; 0; 0; 0; 0; 0; 0; 0; 0xad; 0; 0; 0; 0xb2; 0xb3; 0; 0].

Definition char_ucs2_to_mac_greek (wc : Z) : option Z :=
  if wc <? 0x80 then Some wc else
  let c :=
    if (0xa0 <=? wc) && (wc <? 0x100) then entry mac_greek_page00 (wc - 0xa0)
    else if wc =? 0x153 then 0xcf
    else if (0x380 <=? wc) && (wc <? 0x3d0) then entry mac_greek_page03 (wc - 0x380)
    else if (0x2010 <=? wc) && (wc <? 0x2038) then entry mac_greek_page20 (wc - 0x2010)
    else if wc =? 0x2122 then 0x93
    else if (0x2248 <=? wc) && (wc <? 0x2268) then entry mac_greek_page22 (wc - 0x2248)
    else 0 in
  if c =? 0 then None else Some c.

Definition char_mac_greek_to_ucs2 (c : Z) : option Z :=
  if c <? 0x80 then Some c else
  let wc := entry mac_greek_2uni (c - 0x80) in if wc =? 0xfffd then None else Some wc.

(** *** MAC_TURKISH *)

Definition mac_turkish_2uni : list Z :=
  [0xc4; 0xc5; 0xc7; 0xc9; 0xd1; 0xd6; 0xdc; 0xe1; 0xe0; 0xe2; 0xe4; 0xe3; 0xe5; 0xe7; 0xe9; 0xe8; 0xea; 0xeb;
   0xed; 0xec; 0xee; 0xef; 0xf1; 0xf3; 0xf2; 0xf4; 0xf6; 0xf5; 0xfa; 0xf9; 0xfb; 0xfc; 0x2020; 0xb0; 0xa2;
   0xa3; 0xa7; 0x2022; 0xb6; 0xdf; 0xae; 0xa9; 0x2122; 0xb4; 0xa8; 0x2260; 0xc6; 0xd8; 0x221e; 0xb1; 0x2264;
   0x2265; 0xa5; 0xb5; 0x2202; 0x2211; 0x220f; 0x3c0; 0x222b; 0xaa; 0xba; 0x2126; 0xe6; 0xf8; 0xbf; 0xa1; 0xac;
   0x221a; 0x192; 0x2248; 0x2206; 0xab; 0xbb; 0x2026; 0xa0; 0xc0; 0xc3; 0xd5; 0x152; 0x153; 0x2013; 0x2014;
   0x201c; 0x201d; 0x2018; 0x2019; 0xf7; 0x25ca; 0xff; 0x178; 0x11e; 0x11f; 0x130; 0x131; 0x15e; 0x15f; 0x2021;
   0xb7; 0x201a; 0x201e; 0x2030; 0xc2; 0xca; 0xc1; 0xcb; 0xc8; 0xcd; 0xce; 0xcf; 0xcc; 0xd3; 0xd4; 0xf8ff;
   0xd2; 0xda; 0xdb; 0xd9; 0xf8a0; 0x2c6; 0x2dc; 0xaf; 0x2d8; 0x2d9; 0x2da; 0xb8; 0x2dd; 0x2db; 0x2c7].

Definition mac_turkish_page00 : list Z :=
  [0xca; 0xc1; 0xa2; 0xa3; 0; 0xb4; 0; 0xa4; 0xac; 0xa9; 0xbb; 0xc7; 0xc2; 0; 0xa8; 0xf8; 0xa1; 0xb1; 0; 0;
   0xab; 0xb5; 0xa6; 0xe1; 0xfc; 0; 0xbc; 0xc8; 0; 0; 0; 0xc0; 0xcb; 0xe7; 0xe5; 0xcc; 0x80; 0x81; 0xae; 0x82;
   0xe9; 0x83; 0xe6; 0xe8; 0xed; 0xea; 0xeb; 0xec; 0; 0x84; 0xf1; 0xee; 0xef; 0xcd; 0x85; 0; 0xaf; 0xf4; 0xf2;
   0xf3; 0x86; 0; 0; 0xa7; 0x88; 0x87; 0x89; 0x8b; 0x8a; 0x8c; 0xbe; 0x8d; 0x8f; 0x8e; 0x90; 0x91; 0x93; 0x92;
   0x94; 0x95; 0; 0x96; 0x98; 0x97; 0x99; 0x9b; 0x9a; 0xd6; 0xbf; 0x9d; 0x9c; 0x9e; 0x9f; 0; 0; 0xd8].

Definition mac_turkish_page01 : list Z :=
  [0; 0; 0; 0; 0; 0; 0xda; 0xdb; 0; 0; 0; 0; 0; 0; 0; 0; 0; 0; 0; 0; 0; 0; 0; 0; 0xdc; 0xdd; 0; 0; 0; 0; 0; 0;
   0; 0; 0; 0; 0; 0; 0; 0; 0; 0; 0; 0; 0; 0; 0; 0; 0; 0; 0; 0; 0; 0; 0; 0; 0; 0; 0xce; 0xcf; 0; 0; 0; 0; 0; 0;
   0; 0; 0; 0; 0xde; 0xdf; 0; 0; 0; 0; 0; 0; 0; 0; 0; 0; 0; 0; 0; 0; 0; 0; 0; 0; 0; 0; 0; 0; 0; 0; 0xd9; 0; 0;
   0; 0; 0; 0; 0; 0; 0; 0; 0; 0; 0; 0; 0; 0; 0; 0; 0; 0; 0; 0; 0; 0; 0; 0xc4; 0; 0; 0; 0; 0].

Definition mac_turkish_page02 : list Z :=
  [0; 0; 0; 0; 0; 0; 0xf6; 0xff; 0; 0; 0; 0; 0; 0; 0; 0; 0; 0; 0; 0; 0; 0; 0; 0; 0xf9; 0xfa; 0xfb; 0xfe; 0xf7;
   0xfd; 0; 0].

Definition mac_turkish_page20 : list Z :=
  [0; 0; 0; 0xd0; 0xd1; 0; 0; 0; 0xd4; 0xd5; 0xe2; 0; 0xd2; 0xd3; 0xe3; 0; 0xa0; 0xe0; 0xa5; 0; 0; 0; 0xc9; 0;
   0; 0; 0; 0; 0; 0; 0; 0; 0xe4; 0; 0; 0; 0; 0; 0; 0].

Definition mac_turkish_page21 : list Z :=
  [0; 0; 0xaa; 0; 0; 0; 0xbd; 0].

Definition mac_turkish_page22 : list Z :=
  [0; 0; 0xb6; 0; 0; 0; 0xc6; 0; 0; 0; 0; 0; 0; 0; 0; 0xb8; 0; 0xb7; 0; 0; 0; 0; 0; 0; 0; 0; 0xc3; 0; 0; 0;
   0xb0; 0; 0; 0; 0; 0; 0; 0; 0; 0; 0; 0; 0; 0xba; 0; 0; 0; 0; 0; 0; 0; 0; 0; 0; 0; 0; 0; 0; 0; 0; 0; 0; 0; 0;
   0; 0; 0; 0; 0; 0; 0; 0; 0xc5; 0; 0; 0; 0; 0; 0; 0; 0; 0; 0; 0; 0; 0; 0; 0; 0; 0; 0; 0; 0; 0; 0; 0; 0xad; 0;
   0; 0; 0xb2; 0xb3; 0; 0].

Definition char_ucs2_to_mac_turkish (wc : Z) : option Z :=
  if wc <? 0x80 then Some wc else
  let c :=
    if (0xa0 <=? wc) && (wc <? 0x100) then entry mac_turkish_page00 (wc - 0xa0)
    else if (0x118 <=? wc) && (wc <? 0x198) then entry mac_turkish_page01 (wc - 0x118)
    else if (0x2c0 <=? wc) && (wc <? 0x2e0) then entry mac_turkish_page02 (wc - 0x2c0)
    else if wc =? 0x3c0 then 0xb9
    else if (0x2010 <=? wc) && (wc <? 0x2038) then entry mac_turkish_page20 (wc - 0x2010)
    else if (0x2120 <=? wc) && (wc <? 0x2128) then entry mac_turkish_page21 (wc - 0x2120)
    else if (0x2200 <=? wc) && (wc <? 0x2268) then entry mac_turkish_page22 (wc - 0x2200)
    else if wc =? 0x25ca then 0xd7
    else if wc =? 0xf8ff then 0xf0
    else if wc =? 0xf8a0 then 0xf5
    else 0 in
  if c =? 0 then None else Some c.

Definition char_mac_turkish_to_ucs2 (c : Z) : option Z :=
  if c <? 0x80 then Some c else
  let wc := entry mac_turkish_2uni (c - 0x80) in if wc =? 0xfffd then None else Some wc.

(** *** MAC_HEBREW *)

Definition mac_hebrew_2uni : list Z :=
  [0xc4; 1; 0xc7; 0xc9; 0xd1; 0xd6; 0xdc; 0xe1; 0xe0; 0xe2; 0xe4; 0xe3; 0xe5; 0xe7; 0xe9; 0xe8; 0xea; 0xeb;
   0xed; 0xec; 0xee; 0xef; 0xf1; 0xf3; 0xf2; 0xf4; 0xf6; 0xf5; 0xfa; 0xf9; 0xfb; 0xfc; 0x20; 0x21; 0x22; 0x23;
   0x24; 0x25; 0x20aa; 0x27; 0x29; 0x28; 0x2a; 0x2b; 0x2c; 0x2d; 0x2e; 0x2f; 0x30; 0x31; 0x32; 0x33; 0x34;
   0x35; 0x36; 0x37; 0x38; 0x39; 0x3a; 0x3b; 0x3c; 0x3d; 0x3e; 0x3f; 2; 0x201e; 0xf89b; 0xf89c; 0xf89d; 0xf89e;
   0x5bc; 0xfb4b; 0xfb35; 0x2026; 0xa0; 0x5b8; 0x5b7; 0x5b5; 0x5b6; 0x5b4; 0x2013; 0x2014; 0x201c; 0x201d;
   0x2018; 0x2019; 0xfb2a; 0xfb2b; 0x5bf; 0x5b0; 0x5b2; 0x5b1; 0x5bb; 0x5b9; 3; 0x5b3; 0x5d0; 0x5d1; 0x5d2;
   0x5d3; 0x5d4; 0x5d5; 0x5d6; 0x5d7; 0x5d8; 0x5d9; 0x5da; 0x5db; 0x5dc; 0x5dd; 0x5de; 0x5df; 0x5e0; 0x5e1;
   0x5e2; 0x5e3; 0x5e4; 0x5e5; 0x5e6; 0x5e7; 0x5e8; 0x5e9; 0x5ea; 0x7d; 0x5d; 0x7b; 0x5b; 0x7c].

Definition mac_hebrew_page00 : list Z :=
  [0xca; 0; 0; 0; 0; 0; 0; 0; 0; 0; 0; 0; 0; 0; 0; 0; 0; 0; 0; 0; 0; 0; 0; 0; 0; 0; 0; 0; 0; 0; 0; 0; 0; 0; 0;
   0; 0x80; 0; 0; 0x82; 0; 0x83; 0; 0; 0; 0; 0; 0; 0; 0x84; 0; 0; 0; 0; 0x85; 0; 0; 0; 0; 0; 0x86; 0; 0; 0;
   0x88; 0x87; 0x89; 0x8b; 0x8a; 0x8c; 0; 0x8d; 0x8f; 0x8e; 0x90; 0x91; 0x93; 0x92; 0x94; 0x95; 0; 0x96; 0x98;
   0x97; 0x99; 0x9b; 0x9a; 0; 0; 0x9d; 0x9c; 0x9e; 0x9f; 0; 0; 0].

Definition mac_hebrew_page05 : list Z :=
  [0xd9; 0xdb; 0xda; 0xdf; 0xcf; 0xcd; 0xce; 0xcc; 0xcb; 0xdd; 0; 0xdc; 0xc6; 0; 0; 0xd8; 0; 0; 0; 0; 0; 0; 0;
   0; 0; 0; 0; 0; 0; 0; 0; 0; 0xe0; 0xe1; 0xe2; 0xe3; 0xe4; 0xe5; 0xe6; 0xe7; 0xe8; 0xe9; 0xea; 0xeb; 0xec;
   0xed; 0xee; 0xef; 0xf0; 0xf1; 0xf2; 0xf3; 0xf4; 0xf5; 0xf6; 0xf7; 0xf8; 0xf9; 0xfa; 0; 0; 0; 0; 0].

Definition mac_hebrew_page20 : list Z :=
  [0; 0; 0; 0xd0; 0xd1; 0; 0; 0; 0xd4; 0xd5; 0; 0; 0xd2; 0xd3; 0xc1; 0; 0; 0; 0; 0; 0; 0; 0xc9; 0].

Definition mac_hebrew_pagefb : list Z :=
  [0; 0; 0; 0; 0; 0; 0; 0x81; 0; 0; 0; 0; 0; 0; 0; 0; 0; 0; 0xd6; 0xd7; 0; 0; 0; 0; 0; 0; 0; 0; 0; 0xc8; 0; 0;
   0; 0; 0; 0; 0; 0; 0; 0; 0; 0; 0; 0; 0; 0; 0; 0; 0; 0; 0; 0xc7; 0; 0; 0; 0].

Definition char_ucs2_to_mac_hebrew (wc : Z) : option Z :=
  if wc <? 0x80 then Some wc else
  let c :=
    if (0xa0 <=? wc) && (wc <? 0x100) then entry mac_hebrew_page00 (wc - 0xa0)
    else if (0x5b0 <=? wc) && (wc <? 0x5f0) then entry mac_hebrew_page05 (wc - 0x5b0)
    else if (0x2010 <=? wc) && (wc <? 0x2028) then entry mac_hebrew_page20 (wc - 0x2010)
    else if wc =? 0x20aa then 0xa6
    else if (0xfb18 <=? wc) && (wc <? 0xfb50) then entry mac_hebrew_pagefb (wc - 0xfb18)
    else 0 in
  if c =? 0 then None else Some c.

Definition char_mac_hebrew_to_ucs2 (c : Z) : option Z :=
  if c <? 0x80 then Some c else
  let wc := entry mac_hebrew_2uni (c - 0x80) in if wc =? 0xfffd then None else Some wc.
