(* ===== verification/Charsets.v ===== *)
(** * The built-in character sets, libatalk/unicode/iconv.c and charsets/

    Every set has a function that pulls its bytes into UCS-2 and one that pushes UCS-2 into
    its bytes, with the calling convention of iconv ([Utf8.conv]).  The registry gives the
    number of a set by its name.  The build modelled is the one without a usable system
    iconv, where the built-in sets are the only ones. *)

From stdpp Require Import strings.
From S2P Require Import Prelude Bytes Utf8 CharsetTables.

(** ** The loops

    A conversion takes a step as long as enough input and output is left; [stop] is what it
    answers when it ends, by the input left.  A turn of fuel per byte of the input and one
    to end. *)

Section drive.
  Context (need_in need_out : Z) (step : list Z -> Z -> errno + (nat * list Z)) (stop : Z -> option errno).

Fixpoint drive (fuel : nat) (s : conv) : option errno * conv :=
  match fuel with
  | O => (None, s)
  | S n =>
      if (need_in <=? inbytesleft s) && (need_out <=? outbytesleft s) then
        match step (inbuf s) (outbytesleft s) with
        | inl e => (Some e, s)
        | inr (len, bs) => drive n (advance s len bs)
        end
      else (stop (inbytesleft s), s)
  end.

Definition run (s : conv) : option errno * conv := drive (S (length (inbuf s))) s.

End drive.

Definition full (left : Z) : option errno := if 0 <? left then Some E2BIG else None.

Definition full_or_odd (left : Z) : option errno :=
  if left =? 1 then Some EINVAL else if 1 <? left then Some E2BIG else None.

(** ** generic_mb.c *)

Definition mb_push_step (char_func : Z -> option Z) (c : list Z) (outleft : Z) : errno + (nat * list Z) :=
  match char_func (SVAL c 0) with Some b => inr (2%nat, [b]) | None => inl EILSEQ end.

Definition mb_pull_step (char_func : Z -> option Z) (c : list Z) (outleft : Z) : errno + (nat * list Z) :=
  match char_func (Utf8.at_ c 0) with Some wc => inr (1%nat, SSVAL wc) | None => inl EILSEQ end.

Definition mb_generic_push (char_func : Z -> option Z) : conv -> option errno * conv :=
  run 2 1 (mb_push_step char_func) full.

Definition mb_generic_pull (char_func : Z -> option Z) : conv -> option errno * conv :=
  run 1 2 (mb_pull_step char_func) full.

(** ** mac_hebrew.c *)

Definition mac_hebrew_push_step (c : list Z) (outleft : Z) : errno + (nat * list Z) :=
  let left := Z.of_nat (length c) in
  let inptr := SVAL c 0 in
  if inptr =? 0x05b8 then
    if (2 <=? left - 2) && (SVAL c 2 =? 0xf87f) then inr (4%nat, [0xde]) else inr (2%nat, [0xcb])
  else if (inptr =? 0x05f2) && (4 <=? left) && (SVAL c 2 =? 0x05b7) then inr (4%nat, [0x81])
  else if (inptr =? 0xf86a) && (6 <=? left) && (SVAL c 2 =? 0x05dc) && (SVAL c 4 =? 0x05b9) then inr (6%nat, [0xc0])
  else match char_ucs2_to_mac_hebrew inptr with Some b => inr (2%nat, [b]) | None => inl EILSEQ end.

Definition mac_hebrew_pull_step (c : list Z) (outleft : Z) : errno + (nat * list Z) :=
  match char_mac_hebrew_to_ucs2 (Utf8.at_ c 0) with
  | None => inl EILSEQ
  | Some temp =>
      if temp =? 1 then if outleft <? 4 then inl E2BIG else inr (1%nat, SSVAL 0x05f2 ++ SSVAL 0x05b7)
      else if temp =? 2 then
        if outleft <? 6 then inl E2BIG else inr (1%nat, SSVAL 0xf86a ++ SSVAL 0x05dc ++ SSVAL 0x05b9)
      else if temp =? 3 then if outleft <? 4 then inl E2BIG else inr (1%nat, SSVAL 0x05b8 ++ SSVAL 0xf87f)
      else inr (1%nat, SSVAL temp)
  end.

Definition mac_hebrew_push : conv -> option errno * conv := run 2 1 mac_hebrew_push_step full.
Definition mac_hebrew_pull : conv -> option errno * conv := run 1 2 mac_hebrew_pull_step full.

(** ** ASCII and UCS-2 *)

Definition ascii_pull : conv -> option errno * conv :=
  run 1 2 (fun c _ => if Utf8.at_ c 0 <? 0x80 then inr (1%nat, SSVAL (Utf8.at_ c 0)) else inl EILSEQ) full.

Definition ascii_push : conv -> option errno * conv :=
  run 2 1 (fun c _ => if SVAL c 0 <? 0x80 then inr (2%nat, [SVAL c 0]) else inl EILSEQ) full_or_odd.

Definition iconv_copy (s : conv) : option errno * conv :=
  let n := Z.to_nat (Z.min (inbytesleft s) (outbytesleft s)) in
  let s := advance s n (take n (inbuf s)) in
  (if 0 <? inbytesleft s then Some E2BIG else None, s).

(** ** struct charset_functions

    [advances] says whether push moves the output position past the bytes it writes; the
    single-byte sets leave it where it was. *)

Definition CHARSET_CLIENT : Z := 1.
Definition CHARSET_VOLUME : Z := 2.
Definition CHARSET_PRECOMPOSED : Z := 4.
Definition CHARSET_DECOMPOSED : Z := 8.
Definition CHARSET_MULTIBYTE : Z := 16.
Definition CHARSET_WIDECHAR : Z := 32.

Record charset_functions := CharsetFunctions {
  name : string;
  pull : conv -> option errno * conv;
  push : conv -> option errno * conv;
  advances : bool;
  flags : Z;
}.

Definition mac_set (n : string) (to_ucs2 of_ucs2 : Z -> option Z) (more : Z) : charset_functions :=
  CharsetFunctions n (mb_generic_pull to_ucs2) (mb_generic_push of_ucs2) false
    (Z.lor (Z.lor CHARSET_CLIENT CHARSET_MULTIBYTE) more).

Definition charset_ucs2 := CharsetFunctions "UCS-2" iconv_copy iconv_copy true (Z.lor CHARSET_WIDECHAR CHARSET_PRECOMPOSED).
Definition charset_ascii := CharsetFunctions "ASCII" ascii_pull ascii_push true (Z.lor CHARSET_MULTIBYTE CHARSET_PRECOMPOSED).
Definition charset_utf8 := CharsetFunctions "UTF8" utf8_pull utf8_push true
  (Z.lor (Z.lor CHARSET_VOLUME CHARSET_MULTIBYTE) CHARSET_PRECOMPOSED).
Definition charset_utf8_mac := CharsetFunctions "UTF8-MAC" utf8_pull utf8_push true
  (Z.lor (Z.lor (Z.lor CHARSET_VOLUME CHARSET_CLIENT) CHARSET_MULTIBYTE) CHARSET_DECOMPOSED).
Definition charset_mac_roman := mac_set "MAC_ROMAN" char_mac_roman_to_ucs2 char_ucs2_to_mac_roman CHARSET_PRECOMPOSED.
Definition charset_mac_greek := mac_set "MAC_GREEK" char_mac_greek_to_ucs2 char_ucs2_to_mac_greek 0.
Definition charset_mac_turkish := mac_set "MAC_TURKISH" char_mac_turkish_to_ucs2 char_ucs2_to_mac_turkish 0.
Definition charset_mac_centraleurope :=
  mac_set "MAC_CENTRALEUROPE" char_mac_centraleurope_to_ucs2 char_ucs2_to_mac_centraleurope 0.
Definition charset_mac_cyrillic := mac_set "MAC_CYRILLIC" char_mac_cyrillic_to_ucs2 char_ucs2_to_mac_cyrillic 0.
Definition charset_mac_hebrew := CharsetFunctions "MAC_HEBREW" mac_hebrew_pull mac_hebrew_push false
  (Z.lor CHARSET_CLIENT CHARSET_MULTIBYTE).

(** What [lazy_initialize_iconv] registers, the last one at the head of the list. *)
Definition charsets : list charset_functions :=
  [charset_mac_cyrillic; charset_mac_centraleurope; charset_mac_turkish; charset_mac_greek; charset_mac_hebrew;
   charset_mac_roman; charset_utf8_mac; charset_utf8; charset_ascii; charset_ucs2].

(** ** The registry *)

Fixpoint strlower (s : string) : string :=
  match s with
  | EmptyString => EmptyString
  | String c s =>
      let n := Ascii.N_of_ascii c in
      String (if ((65 <=? n) && (n <=? 90))%N then Ascii.ascii_of_N (n + 32) else c) (strlower s)
  end.

(** Whether [strcasecmp] gives 0. *)
Definition same_name (a b : string) : bool := bool_decide (strlower a = strlower b).

Fixpoint find_in (l : list charset_functions) (n : string) : option charset_functions :=
  match l with
  | [] => None
  | c :: l => if same_name n (name c) then Some c else find_in l n
  end.

Definition find_charset_functions : string -> option charset_functions := find_in charsets.

Definition CH_UCS2 : Z := 0.
Definition CH_UTF8 : Z := 1.
Definition CH_MAC : Z := 2.
Definition CH_UNIX : Z := 3.
Definition CH_UTF8_MAC : Z := 4.
Definition NUM_CHARSETS : Z := 5.
Definition MAX_CHARSETS : Z := 20.

(** The names of the slots that have one, and the number of the last set registered. *)
Record registry := Registry { charset_names : Z -> option string; max_charset_t : Z }.

Definition charset_name (r : registry) (ch : Z) : option string :=
  if ch =? CH_UCS2 then Some "UCS-2"%string
  else if ch =? CH_UTF8 then Some "UTF8"%string
  else if ch =? CH_UTF8_MAC then Some "UTF8-MAC"%string
  else charset_names r ch.

Definition set_name (r : registry) (ch : Z) (n : string) : Z -> option string :=
  fun c => if c =? ch then Some n else charset_names r c.

Definition set_charset_name (r : registry) (ch : Z) (n : string) : Z * registry :=
  if NUM_CHARSETS <=? ch then (-1, r) else (0, Registry (set_name r ch n) (max_charset_t r)).

Definition registry_init : registry := Registry (fun _ => None) (NUM_CHARSETS - 1).

(** The set a slot stands for; its two conversions are the descriptors
    [conv_handles[ch][CH_UCS2]] and [conv_handles[CH_UCS2][ch]]. *)
Definition charset_of (r : registry) (ch : Z) : option charset_functions :=
  match charset_name r ch with Some n => find_charset_functions n | None => None end.

(** The search of [add_charset] from slot [c1]; the comparison reads the name of every
    slot it passes. *)
Fixpoint find_slot (fuel : nat) (r : registry) (n : string) (c1 : Z) : res (option Z) :=
  match fuel with
  | O => Ok None
  | S fuel =>
      if max_charset_t r <? c1 then Ok None else
      match charset_name r c1 with
      | None => Abort Undefined
      | Some m => if same_name n m then Ok (Some c1) else find_slot fuel r n (c1 + 1)
      end
  end.

(** [None] is the result -1. *)
Definition add_charset (r : registry) (n : string) : res (option Z * registry) :=
  let cur := max_charset_t r + 1 in
  found ← find_slot (Z.to_nat MAX_CHARSETS) r n 0;
  match found with
  | Some ch => Ok (Some ch, r)
  | None =>
      if MAX_CHARSETS <=? cur then Ok (None, r)
      else match find_charset_functions n with
           | None => Ok (None, r)
           | Some _ => Ok (Some cur, Registry (set_name r cur n) cur)
           end
  end.
