(* ===== verification/Charcnv.v ===== *)
(** * The conversion of names between character sets, libatalk/unicode/charcnv.c

    [convert_charset] decodes a name into UCS-2, maps the punctuation of file names, composes
    or decomposes the text, folds its case and encodes it in the target set, as its flags
    say.  Buffers are lists of bytes of their size: a conversion writes into the one it is
    given and returns the length of what it wrote. *)

From S2P Require Import Prelude Bytes Utf8 Unicode CharsetTables Charsets.

Definition MAXPATHLEN : Z := 4096.

Definition CONV_IGNORE : Z := Z.shiftl 1 0.
Definition CONV_ESCAPEHEX : Z := Z.shiftl 1 1.
Definition CONV_ESCAPEDOTS : Z := Z.shiftl 1 2.
Definition CONV_UNESCAPEHEX : Z := Z.shiftl 1 3.
Definition CONV_TOUPPER : Z := Z.shiftl 1 4.
Definition CONV_TOLOWER : Z := Z.shiftl 1 5.
Definition CONV_PRECOMPOSE : Z := Z.shiftl 1 6.
Definition CONV_DECOMPOSE : Z := Z.shiftl 1 7.
Definition CONV_FORCE : Z := Z.shiftl 1 8.
Definition CONV__EILSEQ : Z := Z.shiftl 1 9.
Definition CONV_REQMANGLE : Z := Z.shiftl 1 14.
Definition CONV_REQESCAPE : Z := Z.shiftl 1 15.

Definition IGNORE_CHAR : Z := 95.
Definition DOT : Z := 46.
Definition COLON : Z := 58.
Definition SLASH : Z := 47.

(** Whether a flag is set. *)
Definition has (opt flag : Z) : bool := negb (Z.land opt flag =? 0).

(** The UCS-2 units of a buffer, and the bytes of units. *)
Fixpoint units (bs : list Z) : list Z :=
  match bs with
  | lo :: hi :: bs => Z.lor lo (Z.shiftl hi 8) :: units bs
  | _ => []
  end.

Definition bytes_of_units (us : list Z) : list Z := us ≫= SSVAL.

(** ** Decoding *)

Definition source_code_unit_size (from : charset_functions) : Z :=
  let '(r, s) := push from (Conv [0; 0] [] 16) in
  if bool_decide (r = None) && (inbytesleft s =? 0) then
    let '(r2, s2) := push from (Conv [0; 0] [] (outbytesleft s)) in
    if bool_decide (r2 = None) && (inbytesleft s2 =? 0) then
      let unit := outbytesleft s - outbytesleft s2 in
      if (unit =? 2) || (unit =? 4) then unit else 1
    else 1
  else 1.

(** The error of a call that does not give 0. *)
Definition restore_source_bom (from : charset_functions) (src : list Z) (unit : Z) : option errno :=
  if (unit =? 1) || (Z.of_nat (length src) <? unit) then None else
  let '(r, s) := pull from (Conv (take (Z.to_nat unit) src) [] 4) in
  if bool_decide (r = None) && (inbytesleft s =? 0) && (outbytesleft s =? 4)
  then (pull from (Conv (take (Z.to_nat unit) src) [] 4)).1
  else None.

(** What a call that fails with [e] returns: what it has, when CONV_FORCE was asked. *)
Definition forced {A} (opt : Z) (e : errno) (flags : Z) (a : A) : errno * Z + A :=
  if has opt CONV_FORCE then inr a else inl (e, flags).

(** The bytes decoded, the input left and the flags. *)
Fixpoint decode_loop (fuel : nat) (from : charset_functions) (wide : bool) (src : list Z) (opt : Z)
    (input decoded : list Z) (decoded_left flags : Z) : errno * Z + (list Z * list Z * Z) :=
  match fuel, input with
  | O, _ | _, [] => inr (decoded, input, flags)
  | S fuel, _ =>
      let n := if wide then (length input / 2 * 2)%nat else length input in
      let '(r, s) := pull from (Conv (take n input) decoded decoded_left) in
      let input := inbuf s ++ drop n input in
      let decoded := outbuf s in
      if bool_decide (r = None) && bool_decide (input = []) then inr (decoded, input, flags) else
      match r with
      | Some E2BIG => forced opt E2BIG flags (decoded, input, flags)
      | _ =>
          if has opt CONV_IGNORE then inr (decoded, input, Z.lor flags CONV_REQMANGLE)
          else if has opt CONV__EILSEQ then
            if outbytesleft s <? 2 then forced opt E2BIG flags (decoded, input, flags) else
            let decoded := decoded ++ SSVAL IGNORE_CHAR in
            let input := drop (Z.to_nat (source_code_unit_size from)) input in
            match (if bool_decide (input = []) then None else restore_source_bom from src (source_code_unit_size from)) with
            | Some e => forced opt e flags (decoded, input, flags)
            | None => decode_loop fuel from wide src opt input decoded (outbytesleft s - 2) flags
            end
          else forced opt EILSEQ flags (decoded, input, flags)
      end
  end.

(** The length of the source is given; the fuel is one more than it. *)
Definition decode_source_ucs2 (from : option charset_functions) (wide : bool) (src : list Z) (decoded_len flags : Z) :
    errno * Z + (list Z * list Z * Z) :=
  match from with
  | None => inl (EINVAL, flags)
  | Some from => decode_loop (S (length src)) from wide src flags src [] decoded_len flags
  end.

(** ** File name punctuation *)

Definition filename_hex_value (c : Z) : Z :=
  if (48 <=? c) && (c <=? 57) then c - 48
  else if (97 <=? c) && (c <=? 102) then c - 97 + 10
  else if (65 <=? c) && (c <=? 70) then c - 65 + 10
  else -1.

(** The bytes of a run of escapes, whether they are too many, and what follows them.  The
    bytes stored so far are the filled part of the array hex of MAXPATHLEN bytes. *)
Fixpoint unescape (fuel : nat) (rest hex : list Z) : list Z * bool * list Z :=
  match fuel, rest with
  | S fuel, c :: h :: l :: rest' =>
      if (c =? COLON) && (0 <=? filename_hex_value h) && (0 <=? filename_hex_value l) then
        if Z.of_nat (length hex) =? MAXPATHLEN then (hex, true, rest)
        else unescape fuel rest' (hex ++ [Z.lor (Z.shiftl (filename_hex_value h) 4) (filename_hex_value l)])
      else (hex, false, rest)
  | _, _ => (hex, false, rest)
  end.

Definition is_mac (ch : Z) : bool := (ch =? CH_UTF8_MAC) || (ch =? CH_MAC).

(** The units a character that starts no escape becomes, and whether the name needed an
    escape; [first] is the first character of a name that goes on behind it. *)
Definition emit_char (from_set to_set opt : Z) (first : bool) (c : Z) : list Z * bool :=
  if first && (c =? DOT) && has opt CONV_ESCAPEDOTS then ([COLON; 50; 101], true)
  else if ((c =? COLON) || (c =? SLASH)) && has opt CONV_ESCAPEHEX
  then ([COLON; if c =? COLON then 51 else 50; if c =? COLON then 97 else 102], false)
  else if (c =? COLON) && is_mac to_set then ([SLASH], false)
  else if (c =? SLASH) && is_mac from_set && negb (is_mac to_set) then ([COLON], false)
  else ([c], false).

Section emit.
Context (from_set to_set : Z) (cap : option charset_functions) (opt : Z).

(** What the call returns from its label escape_error. *)
Definition escape_error (e : errno) (out : list Z) (flags : Z) : errno * Z + (list Z * Z) :=
  if bool_decide (e = EILSEQ) && has opt CONV_IGNORE then inr (out, Z.lor flags CONV_REQMANGLE)
  else forced opt e flags (out, flags).

(** The bytes written and the flags; a turn of fuel per character. *)
Fixpoint emit_loop (fuel : nat) (first : bool) (rest out : list Z) (outleft flags : Z) : errno * Z + (list Z * Z) :=
  match fuel, rest with
  | O, _ | _, [] => inr (out, flags)
  | S fuel, c :: rest' =>
      if (c =? COLON) && has opt CONV_UNESCAPEHEX then
        let '(hex, over, rest'') := unescape (length rest) rest [] in
        if over then forced opt E2BIG flags (out, flags) else
        match hex, cap with
        | [], _ => escape_error EILSEQ out flags
        | _, None => escape_error EINVAL out flags
        | _, Some cap =>
            let '(r, s) := pull cap (Conv hex out outleft) in
            match r with
            | Some e => escape_error e (outbuf s) flags
            | None => emit_loop fuel false rest'' (outbuf s) (outbytesleft s) flags
            end
        end
      else
        let '(us, escaped) := emit_char from_set to_set opt first c in
        let flags := if escaped then Z.lor flags CONV_REQESCAPE else flags in
        let n := 2 * Z.of_nat (length us) in
        if outleft <? n then forced opt E2BIG flags (out, flags)
        else emit_loop fuel false rest' (out ++ bytes_of_units us) (outleft - n) flags
  end.

Definition emit_filename_chars (decoded : list Z) (input_left destlen flags : Z) : errno * Z + (list Z * Z) :=
  emit_loop (S (length decoded)) ((2 <=? Z.of_nat (length decoded)) || (0 <? input_left)) decoded [] destlen flags.

End emit.

(** ** Both, on the sets of a registry *)

Section convert.
Context (r : registry).

(** The bytes of the array decoded that a call hands to the decoder. *)
Definition decoded_len (flags : Z) : Z := (MAXPATHLEN + 1) * 2 * (if has flags CONV_UNESCAPEHEX then 3 else 1).

Definition pull_charset_flags (from_set to_set cap_set : Z) (src : list Z) (destlen flags : Z) : errno * Z + (list Z * Z) :=
  match decode_source_ucs2 (charset_of r from_set) (from_set =? CH_UCS2) src (decoded_len flags) flags with
  | inl e => inl e
  | inr (decoded, input, flags') =>
      emit_filename_chars from_set to_set (charset_of r cap_set) flags' (units decoded) (Z.of_nat (length input)) destlen flags'
  end.

(** ** Encoding *)

(** The bytes of the next character in the set of the escapes and the input behind it;
    [room] is the size tried. *)
Fixpoint escape_loop (fuel : nat) (cap : charset_functions) (bufsiz room : Z) (input : list Z) : errno + (list Z * list Z) :=
  match fuel with
  | O => inl E2BIG
  | S fuel =>
      if bufsiz <? room then inl E2BIG else
      let '(e, s) := push cap (Conv input [] room) in
      match e with
      | None => inr (outbuf s, inbuf s)
      | Some E2BIG => if outbytesleft s <? room then inr (outbuf s, inbuf s) else escape_loop fuel cap bufsiz (room + 1) (inbuf s)
      | Some e => inl e
      end
  end.

Definition hexdig : list Z := [48; 49; 50; 51; 52; 53; 54; 55; 56; 57; 97; 98; 99; 100; 101; 102].

Definition escape_byte (b : Z) : list Z :=
  [COLON; nth (Z.to_nat (Z.land (Z.shiftr b 4) 0x0f)) hexdig 0; nth (Z.to_nat (Z.land b 0x0f)) hexdig 0].

(** The answer of [push_charset_flags] from its label end. *)
Definition push_end (opt destlen : Z) (input dest : list Z) (o_len flags : Z) : res (option Z * list Z * Z) :=
  Ok (if bool_decide (input = []) || has opt CONV_FORCE then Some (destlen - o_len) else None, dest, flags).

(** The two loops; [inner] is the one that converts, [dest] the output buffer and [pos] the
    output position in it.  [room] says whether an allocation succeeds. *)
Fixpoint push_loop (fuel : nat) (room : bool) (to : charset_functions) (cap : option charset_functions) (opt destlen : Z)
    (inner : bool) (input dest : list Z) (pos : nat) (o_len flags : Z) : res (option Z * list Z * Z) :=
  match fuel with
  | O => Abort Undefined
  | S fuel =>
      if negb inner then
        if 2 <=? Z.of_nat (length input) then push_loop fuel room to cap opt destlen true input dest pos o_len flags
        else push_end opt destlen input dest o_len flags
      else if bool_decide (input = []) then push_loop fuel room to cap opt destlen false input dest pos o_len flags
      else
        let '(e, s) := push to (Conv input [] o_len) in
        let input := inbuf s in
        let dest := blit pos (outbuf s) dest in
        let pos := if advances to then (pos + length (outbuf s))%nat else pos in
        let o_len := outbytesleft s in
        match e with
        | None => push_loop fuel room to cap opt destlen false input dest pos o_len flags
        | Some EILSEQ =>
            if has opt CONV_IGNORE then Ok (Some (destlen - o_len), dest, Z.lor flags CONV_REQMANGLE)
            else if has opt CONV_ESCAPEHEX then
              if room then
                match cap with
                | None => Abort Undefined
                | Some cap =>
                    match escape_loop (S (Z.to_nat (o_len / 3 + 1))) cap (o_len / 3 + 1) 1 input with
                    | inl _ => push_end opt destlen input dest o_len flags
                    | inr (buf, input') =>
                        if o_len <? 3 * Z.of_nat (length buf) then push_end opt destlen input dest o_len flags
                        else push_loop fuel room to (Some cap) opt destlen true input'
                               (blit pos (buf ≫= escape_byte) dest) (pos + 3 * length buf) (o_len - 3 * Z.of_nat (length buf))
                               (Z.lor flags CONV_REQESCAPE)
                    end
                end
              else push_end opt destlen input dest o_len flags
            else push_end opt destlen input dest o_len flags
        | Some _ => push_end opt destlen input dest o_len flags
        end
  end.

Definition push_charset_flags (room : bool) (to_set cap_set : Z) (src dest : list Z) (destlen flags : Z) :
    res (option Z * list Z * Z) :=
  match charset_of r to_set with
  | None => Ok (None, dest, flags)
  | Some to => push_loop (3 * length src + 3) room to (charset_of r cap_set) flags destlen false src dest 0 destlen flags
  end.

(** ** convert_charset *)

(** A case conversion of a NUL terminated string in a buffer. *)
Fixpoint before_nul (us : list Z) : nat :=
  match us with
  | [] => 0
  | u :: us => if u =? 0 then 0 else S (before_nul us)
  end.

Definition fold_case (change : list Z -> list Z * bool) (us : list Z) : list Z :=
  (change (take (before_nul us) us)).1 ++ drop (before_nul us) us.

(** The units of a buffer of whole units, with their case folded. *)
Definition cased (flags : Z) (u : list Z) : res (list Z) :=
  if has flags CONV_TOUPPER || has flags CONV_TOLOWER then
    if Nat.even (length u) then
      Ok (bytes_of_units (fold_case (if has flags CONV_TOUPPER then strupper_w else strlower_w) (units u)))
    else Abort Undefined
  else Ok u.

(** Both buffers have MAXPATHLEN + 2 units. *)
Definition buffer_size : Z := 2 * (MAXPATHLEN + 2).

(** The composition or the decomposition of the name: [None] when the call fails. *)
Definition composed_name (from_set to_set : Z) (buffer : list Z) (flags : Z) : res (option (list Z)) :=
  let o_len := Z.of_nat (length buffer) in
  let as_bytes (c : converted) := match c with Done out _ => Some (bytes_of_units out) | _ => None end in
  if has flags CONV_DECOMPOSE || from_option (fun to => has (Charsets.flags to) CHARSET_DECOMPOSED) false (charset_of r to_set)
  then c ← decompose_w (units buffer) o_len (buffer_size - 2); Ok (as_bytes c)
  else if has flags CONV_PRECOMPOSE || from_option (fun from => has (Charsets.flags from) CHARSET_DECOMPOSED) true (charset_of r from_set)
  then c ← precompose_w (units buffer) o_len (buffer_size - 2); Ok (as_bytes c)
  else Ok (Some buffer).

(** The length of the result, [None] for -1, the output buffer and the flags. *)
Definition convert_charset (room : bool) (from_set to_set cap_charset : Z) (src dest : list Z) (dest_len flags : Z) :
    res (option Z * list Z * Z) :=
  match pull_charset_flags from_set to_set cap_charset src (buffer_size - 2) flags with
  | inl (_, flags) => Ok (None, dest, flags)
  | inr (buffer, flags) =>
      if dest_len <? 2 then Ok (None, dest, flags)
      else if bool_decide (buffer = []) then Ok (Some 0, blit 0 [0; 0] dest, flags)
      else
        u ← composed_name from_set to_set buffer flags;
        match u with
        | None => Ok (None, dest, flags)
        | Some u =>
            if buffer_size - 2 <? Z.of_nat (length u) then Ok (None, dest, flags) else
            u ← cased flags u;
            '(o_len, dest, flags) ← push_charset_flags room to_set cap_charset u dest (dest_len - 2) flags;
            match o_len with
            | None => Ok (None, dest, flags)
            | Some o_len => Ok (Some o_len, blit (Z.to_nat o_len) [0; 0] dest, flags)
            end
        end
  end.

End convert.
