(* ===== verification/CharcnvTests.v ===== *)
(** * The cases of test/libatalk/test_unicode.c

    The table of the repository's own test of [convert_charset], run on the model: the
    bytes and the flags it gives, the two NULs behind them, and that the destination keeps
    the bytes behind its size. *)

From stdpp Require Import strings.
From S2P Require Import Prelude Bytes Utf8 Unicode CharsetTables Charsets Charcnv.

(** The registry the test sets up: the names of the fixed slots, then ASCII. *)
Definition test_registry : res registry :=
  let r := (set_charset_name registry_init CH_UNIX "UTF8"%string).2 in
  let r := (set_charset_name r CH_MAC "MAC_ROMAN"%string).2 in
  '(_, r) ← add_charset r "UTF8"%string;
  '(_, r) ← add_charset r "UTF8-MAC"%string;
  '(_, r) ← add_charset r "MAC_ROMAN"%string;
  '(_, r) ← add_charset r "ASCII"%string;
  Ok r.

Record case := Case {
  c_from : string; c_to : string; input : list Z; options : Z; capacity : Z; expected : option (list Z); expected_flags : Z
}.

Definition SENTINEL : Z := 0xa5.

Definition passes (c : case) : bool :=
  match
    r ← test_registry;
    '(from, r) ← add_charset r (c_from c);
    '(to, r) ← add_charset r (c_to c);
    match from, to with
    | Some from, Some to =>
        convert_charset r true from to CH_MAC (input c) (replicate 80 SENTINEL) (capacity c) (options c)
    | _, _ => Abort Undefined
    end
  with
  | Abort _ => false
  | Ok (len, dest, flags) =>
      (flags =? expected_flags c) &&
      bool_decide (drop (Z.to_nat (capacity c)) dest = drop (Z.to_nat (capacity c)) (replicate 80 SENTINEL)) &&
      match len, expected c with
      | Some n, Some e => (n =? Z.of_nat (length e)) && bool_decide (take (length e + 2) dest = e ++ [0; 0])
      | None, None => true
      | _, _ => false
      end
  end.

Definition filename_cases : list case := Eval cbv in
  let UTF8 := "UTF8"%string in let UTF8_MAC := "UTF8-MAC"%string in
  let MAC_ROMAN := "MAC_ROMAN"%string in let ASCII := "ASCII"%string in
  [
   Case UTF8 UTF8 [104; 101; 108; 108; 111] 0 64 (Some [104; 101; 108; 108; 111]) 0;
   Case MAC_ROMAN UTF8 [142] 0 64 (Some [195; 169]) 0;
   Case UTF8 MAC_ROMAN [195; 169] 0 64 (Some [142]) 0;
   Case MAC_ROMAN UTF8 [240] 0 64 (Some [239; 163; 191]) 0;
   Case UTF8_MAC UTF8 [101; 204; 129] 0 64 (Some [195; 169]) 0;
   Case UTF8 UTF8_MAC [195; 169] 0 64 (Some [101; 204; 129]) 0;
   Case UTF8 UTF8 [101; 204; 129] 64 64 (Some [195; 169]) 64;
   Case UTF8 UTF8 [195; 169] 128 64 (Some [101; 204; 129]) 128;
   Case UTF8 UTF8_MAC [199; 149] 0 64 (Some [85; 204; 136; 204; 132]) 0;
   Case UTF8 UTF8_MAC [234; 176; 129] 0 64 (Some [225; 132; 128; 225; 133; 161; 225; 134; 168]) 0;
   Case UTF8_MAC UTF8 [225; 132; 128; 225; 133; 161; 225; 134; 168] 0 64 (Some [234; 176; 129]) 0;
   Case UTF8 UTF8_MAC [226; 132; 171] 0 64 (Some [226; 132; 171]) 0;
   Case UTF8 UTF8_MAC [240; 159; 152; 128] 0 64 (Some [240; 159; 152; 128]) 0;
   Case UTF8 UTF8 [104; 101; 108; 108; 111] 16 64 (Some [72; 69; 76; 76; 79]) 16;
   Case UTF8 UTF8 [72; 69; 76; 76; 79] 32 64 (Some [104; 101; 108; 108; 111]) 32;
   Case UTF8 UTF8 [195; 169] 16 64 (Some [195; 137]) 16;
   Case UTF8 UTF8 [195; 137] 32 64 (Some [195; 169]) 32;
   Case UTF8 UTF8 [240; 144; 144; 168] 16 64 (Some [240; 144; 144; 128]) 16;
   Case UTF8 UTF8 [240; 144; 144; 128] 32 64 (Some [240; 144; 144; 168]) 32;
   Case UTF8 UTF8 [72; 101; 108; 108; 111] 48 64 (Some [72; 69; 76; 76; 79]) 48;
   Case UTF8 UTF8 [97; 47; 98] 0 64 (Some [97; 47; 98]) 0;
   Case UTF8_MAC UTF8 [97; 47; 98] 0 64 (Some [97; 58; 98]) 0;
   Case MAC_ROMAN UTF8 [97; 47; 98] 0 64 (Some [97; 58; 98]) 0;
   Case UTF8 UTF8_MAC [97; 58; 98] 0 64 (Some [97; 47; 98]) 0;
   Case UTF8 MAC_ROMAN [97; 58; 98] 0 64 (Some [97; 47; 98]) 0;
   Case UTF8 UTF8 [97; 58; 98] 0 64 (Some [97; 58; 98]) 0;
   Case UTF8_MAC UTF8_MAC [97; 47; 98] 0 64 (Some [97; 47; 98]) 0;
   Case MAC_ROMAN MAC_ROMAN [97; 47; 98] 0 64 (Some [97; 47; 98]) 0;
   Case UTF8_MAC MAC_ROMAN [97; 47; 98] 0 64 (Some [97; 47; 98]) 0;
   Case MAC_ROMAN UTF8_MAC [97; 47; 98] 0 64 (Some [97; 47; 98]) 0;
   Case UTF8 UTF8 [58; 47] 2 64 (Some [58; 51; 97; 58; 50; 102]) 2;
   Case UTF8 UTF8 [46; 104; 105; 100; 100; 101; 110] 4 64 (Some [58; 50; 101; 104; 105; 100; 100; 101; 110]) 32772;
   Case UTF8 UTF8 [97; 46; 98] 4 64 (Some [97; 46; 98]) 4;
   Case UTF8 ASCII [195; 169] 2 64 (Some [58; 56; 101]) 32770;
   Case UTF8 UTF8 [58; 56; 101] 8 64 (Some [195; 169]) 8;
   Case UTF8 UTF8 [58; 52; 49; 58; 52; 50] 8 64 (Some [65; 66]) 8;
   Case UTF8 UTF8 [58; 56; 69] 8 64 (Some [195; 169]) 8;
   Case UTF8 ASCII [97; 195; 169; 122] 1 64 (Some [97]) 16385;
   Case UTF8 UTF8 [97; 255; 122] 1 64 (Some [97]) 16385;
   Case UTF8 UTF8 [97; 255; 122] 256 64 (Some [97]) 256;
   Case UTF8 UTF8 [97; 255; 122] 512 64 (Some [97; 95; 122]) 512;
   Case UTF8 UTF8 [46; 255] 5 64 (Some [58; 50; 101]) 49157;
   Case UTF8 UTF8 [46; 255] 260 64 (Some [58; 50; 101]) 33028;
   Case UTF8 UTF8 [97; 255; 122] 0 64 (None) 0;
   Case UTF8 UTF8 [195] 0 64 (None) 0;
   Case UTF8 ASCII [195; 169] 0 64 (None) 0;
   Case UTF8 UTF8 [58; 122; 122] 8 64 (None) 8;
   Case UTF8 UTF8 [58; 56] 8 64 (None) 8;
   Case UTF8 UTF8 [97] 0 0 (None) 0;
   Case UTF8 UTF8 [97] 0 1 (None) 0;
   Case UTF8 UTF8 [97] 0 2 (None) 0;
   Case UTF8 UTF8 [97] 0 3 (Some [97]) 0;
   Case UTF8_MAC UTF8 [] 0 64 (Some []) 0;
   Case UTF8_MAC UTF8 [] 0 0 (None) 0;
   Case UTF8_MAC UTF8 [] 0 1 (None) 0;
   Case UTF8_MAC UTF8 [] 0 2 (Some []) 0;
   Case UTF8 UTF8 [255] 1 64 (Some []) 16385;
   Case UTF8 UTF8 [255] 256 64 (Some []) 256
  ].

(** Every case of the table passes. *)
Lemma filename_cases_pass : forallb passes filename_cases = true.
Proof. vm_compute. reflexivity. Qed.
