(* ===== verification/CharsetFacts.v ===== *)
(** * Facts on the built-in character sets

    What a conversion did, as the pieces of input it took with the bytes it made of them;
    the laws every set obeys; the sets whose tables are inverse to each other. *)

From stdpp Require Import strings.
From S2P Require Import Prelude Bytes Utf8 Utf8Theorems CharsetTables Charsets Charcnv.

(** ** Traces *)

(** The conversion took the pieces of [ps] from the input and wrote what they became. *)
Definition traced (ps : list (list Z * list Z)) (s s' : conv) : Prop :=
  inbuf s = (ps ≫= fst) ++ inbuf s' /\ outbuf s' = outbuf s ++ (ps ≫= snd) /\
  outbytesleft s' = outbytesleft s - Z.of_nat (length (ps ≫= snd)) /\ 0 <= outbytesleft s'.

(** What every piece of a conversion by steps obeys. *)
Class Stepwise (need_in need_out : Z) (step : list Z -> Z -> errno + (nat * list Z)) (R : list Z -> list Z -> Prop) : Prop :=
  stepwise c o n bs : Forall byte c -> need_in <= Z.of_nat (length c) -> need_out <= o -> step c o = inr (n, bs) ->
    (0 < n <= length c)%nat /\ Z.of_nat (length bs) <= o /\ R (take n c) bs.

Lemma drive_trace need_in need_out step stop R `{!Stepwise need_in need_out step R} :
  0 < need_in -> (forall l, stop l = None -> l <= 0) -> forall fuel s e s',
  (length (inbuf s) < fuel)%nat -> Forall byte (inbuf s) -> 0 <= outbytesleft s ->
  drive need_in need_out step stop fuel s = (e, s') ->
  exists ps, traced ps s s' /\ Forall (fun p => p.1 <> [] /\ R p.1 p.2) ps /\ (e = None -> inbuf s' = []).
Proof.
  intros Hin Hstop fuel. induction fuel as [|fuel IH]; intros s e s' Hf Hb Ho; [lia|]. cbn [drive].
  destruct (_ && _) eqn:G; [|intros [= <- <-]].
  - apply andb_prop in G as [G1 G2]. apply Z.leb_le in G1, G2. destruct (step _ _) as [e0|[n bs]] eqn:E.
    { intros [= <- <-]. exists []. split_and!; [unfold traced; cbn; rewrite app_nil_r; split_and!; [done|done|lia|done]|done|done]. }
    destruct (stepwise _ _ _ _ Hb G1 G2 E) as (Hn & Hl & HR). intros D. apply IH in D as (ps & (T1 & T2 & T3 & T4) & HF & He).
    + exists ((take n (inbuf s), bs) :: ps). cbn [advance inbuf outbuf outbytesleft] in *. split_and!; [split_and!| |done].
      * cbn [mbind list_bind fst]. by rewrite <- app_assoc, <- T1, take_drop.
      * cbn. by rewrite T2, <- app_assoc.
      * cbn. rewrite T3, length_app. lia.
      * done.
      * constructor; [|done]. split; [|done]. cbn. intros Et. apply (f_equal length) in Et. rewrite length_take in Et. cbn in Et. lia.
    + cbn. rewrite length_drop. lia.
    + by apply Forall_drop.
    + cbn. lia.
  - exists []. split_and!; [unfold traced; cbn; rewrite app_nil_r; split_and!; [done|done|lia|done]|done|].
    intros Hs. apply Hstop in Hs. unfold inbytesleft in Hs. by destruct (inbuf s); cbn in *; [|lia].
Qed.

(** A text of pieces that a step turns into their bytes wherever they stand is converted
    as a whole when there is room. *)
Lemma drive_pieces need_in need_out step stop ps : 0 < need_in -> forall fuel out left,
  Forall (fun p => need_in <= Z.of_nat (length p.1) /\ need_out <= Z.of_nat (length p.2) /\
    forall rest o, Z.of_nat (length p.2) <= o -> step (p.1 ++ rest) o = inr (length p.1, p.2)) ps ->
  (length (ps ≫= fst) < fuel)%nat -> Z.of_nat (length (ps ≫= snd)) <= left ->
  drive need_in need_out step stop fuel (Conv (ps ≫= fst) out left) =
    (stop 0, Conv [] (out ++ (ps ≫= snd)) (left - Z.of_nat (length (ps ≫= snd)))).
Proof.
  intros Hin. induction ps as [|[c b] ps IH]; intros fuel out left HF Hf Hl.
  - destruct fuel; [cbn in Hf; lia|]. cbn. unfold inbytesleft. cbn. rewrite (proj2 (Z.leb_gt _ _)) by lia. cbn. by rewrite app_nil_r, Z.sub_0_r.
  - inversion HF as [|? ? (H1 & H2 & H3) HF']; subst. cbn [mbind list_bind fst snd] in *. rewrite !length_app in *.
    change (list_bind _ _ fst ps) with (ps ≫= fst) in *. change (list_bind _ _ snd ps) with (ps ≫= snd) in *.
    destruct fuel; [lia|]. cbn [drive]. unfold inbytesleft. cbn [inbuf outbytesleft]. rewrite length_app.
    rewrite (proj2 (Z.leb_le _ _)), (proj2 (Z.leb_le need_out _)) by lia. cbn [andb].
    rewrite H3 by lia. unfold advance. cbn [inbuf outbuf outbytesleft]. rewrite drop_app_length, IH by (done || lia).
    f_equal. f_equal; [by rewrite app_assoc|lia].
Qed.

(** ** The pieces of the built-in sets *)

(** A pull writes whole units. *)
Definition whole_units (c bs : list Z) : Prop := Nat.even (length bs) = true /\ Forall byte bs.

(** A push takes whole units, and writes a slash for a slash only. *)
Definition slash_for_slash (c bs : list Z) : Prop :=
  Nat.even (length c) = true /\ Forall byte bs /\ (SLASH ∈ bs -> SLASH ∈ units c).

Lemma SSVAL_bytes_ok v : Forall byte (SSVAL v).
Proof. unfold SSVAL, byte. rewrite !mask_ff. repeat constructor; zmod. Qed.

Lemma unit_of c : Forall byte c -> 2 <= Z.of_nat (length c) ->
  exists u, 0 <= u < 65536 /\ take 2 c = unit16 u /\ SVAL c 0 = u /\ units (take 2 c) = [u].
Proof.
  intros Hb Hl. destruct (units_of c Hb ltac:(lia)) as (u & Hu & ->). exists u.
  assert (take 2 (unit16 u ++ drop 2 c) = unit16 u) as ->
    by (unfold unit16; cbn; by rewrite take_0).
  split_and!; [lia..|done|by apply SVAL_unit|]. pose proof (SVAL_unit u [] Hu) as E. unfold unit16, SVAL in *. cbn in *. by rewrite E.
Qed.

#[export] Instance utf8_pull_stepwise : Stepwise 1 2 pull_char whole_units.
Proof.
  intros c o n bs Hb Hi Ho H. assert (c <> []) as Hn by (by intros ->).
  destruct (pull_char_inv c o n bs H Hb Hn) as (cp & Hs & Hc & Hn' & -> & Ho'). pose proof (utf8_length cp).
  rewrite utf16_length in *. split_and!; [lia| |destruct (cp <? _); lia|split].
  - apply (f_equal length) in Hc. rewrite length_app, length_drop in Hc. lia.
  - rewrite utf16_length. by destruct (cp <? _).
  - unfold utf16, scalar, beyond, unit16 in *. case_test; rewrite ?Forall_app; repeat constructor; zmod.
Qed.

Lemma utf8_byte_slash cp b : scalar cp -> b ∈ utf8 cp -> byte b /\ (b = SLASH -> cp = SLASH).
Proof.
  unfold scalar, utf8, SLASH, byte. repeat case_test; intros Hs Hin; set_unfold in Hin; (split; [zmod|]); intros ->; zmod.
Qed.

#[export] Instance utf8_push_stepwise : Stepwise 2 1 push_char slash_for_slash.
Proof.
  intros c o n bs Hb Hi Ho H. destruct (push_char_inv c o n bs H Hb ltac:(lia) ltac:(lia)) as (cp & Hs & Hc & Hn & -> & Hl).
  assert (take n c = utf16 cp) as Et by (rewrite Hc, Hn; by rewrite take_app_length).
  pose proof (utf16_length cp) as H16. split_and!; [rewrite H16 in Hn; destruct (cp <? _); lia| |done|].
  - apply (f_equal length) in Hc. rewrite length_app, length_drop in Hc. lia.
  - rewrite Et. split_and!; [rewrite H16; by destruct (cp <? _)| |].
    + unfold pushed. case_decide; [constructor|]. apply Forall_forall. intros b Hb'. by apply (utf8_byte_slash cp).
    + unfold pushed. case_decide; [set_solver|]. intros Hin. apply (utf8_byte_slash cp) in Hin as [_ Hin]; [|done].
      rewrite Hin by done. vm_compute. left.
Qed.

(** ** The single-byte sets *)

(** The tables of a set: the units of its bytes and the bytes of units, a slash for the
    slash only. *)
Class MacTables (to_ucs2 of_ucs2 : Z -> option Z) : Prop := {
  to_ucs2_unit b wc : byte b -> to_ucs2 b = Some wc -> 0 <= wc < 65536;
  of_ucs2_byte u b : 0 <= u < 65536 -> of_ucs2 u = Some b -> byte b /\ (b = SLASH -> u = SLASH);
  to_ucs2_ascii b : 0 <= b < 128 -> to_ucs2 b = Some b;
  of_ucs2_ascii u : 0 <= u < 128 -> of_ucs2 u = Some u
}.

(** Whether a test holds of every unit. *)
Definition every_unit (P : Z -> bool) : bool :=
  forallb (fun hi => forallb (fun lo => P (hi * 256 + lo)) (seqZ 0 256)) (seqZ 0 256).

Lemma unit_check (P : Z -> bool) : every_unit P = true -> forall u, 0 <= u < 65536 -> P u = true.
Proof.
  intros H u Hu. pose proof (byte_check _ H (u / 256) ltac:(unfold byte; zmod)) as H'. cbv beta in H'.
  pose proof (byte_check _ H' (u mod 256) ltac:(unfold byte; zmod)) as H''. cbv beta in H''.
  by replace (u / 256 * 256 + u mod 256) with u in H'' by zmod.
Qed.

(** The laws, evaluated on every byte and every unit. *)
Lemma tables_check to_ucs2 of_ucs2 :
  forallb (fun b => match to_ucs2 b with Some wc => (0 <=? wc) && (wc <? 65536) && ((128 <=? b) || (wc =? b)) | None => 128 <=? b end) (seqZ 0 256) = true ->
  every_unit (fun u => match of_ucs2 u with Some b => (0 <=? b) && (b <? 256) && (negb (b =? SLASH) || (u =? SLASH)) && ((128 <=? u) || (u =? b))
    | None => 128 <=? u end) = true ->
  MacTables to_ucs2 of_ucs2.
Proof.
  intros H1 H2. pose proof (byte_check _ H1) as C1. pose proof (unit_check _ H2) as C2. cbv beta in C1, C2. unfold byte in *. split.
  - intros b wc Hb E. specialize (C1 b Hb). rewrite E in C1. lia.
  - intros u b Hu E. specialize (C2 u Hu). rewrite E in C2. unfold SLASH, byte in *. lia.
  - intros b Hb. specialize (C1 b ltac:(lia)). destruct (to_ucs2 b); [f_equal|exfalso]; lia.
  - intros u Hu. specialize (C2 u ltac:(lia)). destruct (of_ucs2 u); [f_equal|exfalso]; lia.
Qed.

#[export] Instance mac_roman_tables : MacTables char_mac_roman_to_ucs2 char_ucs2_to_mac_roman.
Proof. apply tables_check; vm_compute; reflexivity. Qed.
#[export] Instance mac_greek_tables : MacTables char_mac_greek_to_ucs2 char_ucs2_to_mac_greek.
Proof. apply tables_check; vm_compute; reflexivity. Qed.
#[export] Instance mac_turkish_tables : MacTables char_mac_turkish_to_ucs2 char_ucs2_to_mac_turkish.
Proof. apply tables_check; vm_compute; reflexivity. Qed.
#[export] Instance mac_centraleurope_tables : MacTables char_mac_centraleurope_to_ucs2 char_ucs2_to_mac_centraleurope.
Proof. apply tables_check; vm_compute; reflexivity. Qed.
#[export] Instance mac_cyrillic_tables : MacTables char_mac_cyrillic_to_ucs2 char_ucs2_to_mac_cyrillic.
Proof. apply tables_check; vm_compute; reflexivity. Qed.
#[export] Instance mac_hebrew_tables : MacTables char_mac_hebrew_to_ucs2 char_ucs2_to_mac_hebrew.
Proof. apply tables_check; vm_compute; reflexivity. Qed.

Section mac.
Context (to_ucs2 of_ucs2 : Z -> option Z) `{!MacTables to_ucs2 of_ucs2}.

#[export] Instance mb_pull_stepwise : Stepwise 1 2 (mb_pull_step to_ucs2) whole_units.
Proof.
  intros c o n bs Hb Hi Ho. unfold mb_pull_step. destruct (to_ucs2 _); [|done]. intros [= <- <-]. split_and!; [lia..|cbn; lia|].
  split; [done|apply SSVAL_bytes_ok].
Qed.

Lemma push_one c o b : Forall byte c -> 2 <= Z.of_nat (length c) -> 1 <= o -> of_ucs2 (SVAL c 0) = Some b ->
  (0 < 2 <= length c)%nat /\ Z.of_nat (length [b]) <= o /\ slash_for_slash (take 2 c) [b].
Proof.
  intros Hb Hi Ho E. destruct (unit_of c Hb Hi) as (u & Hu & H2 & Hs & Hus). rewrite Hs in E.
  destruct (of_ucs2_byte u b Hu E) as [Hby Hsl]. split_and!; [lia..|cbn; lia|].
  split_and!; [by rewrite H2|by constructor|]. intros Hin%list_elem_of_singleton. rewrite Hus. apply list_elem_of_singleton. symmetry. by apply Hsl.
Qed.

#[export] Instance mb_push_stepwise : Stepwise 2 1 (mb_push_step of_ucs2) slash_for_slash.
Proof.
  intros c o n bs Hb Hi Ho. unfold mb_push_step. destruct (of_ucs2 _) eqn:E; [|done]. intros [= <- <-]. by apply push_one.
Qed.

End mac.

(** ** Hebrew and ASCII *)

#[export] Instance mac_hebrew_pull_stepwise : Stepwise 1 2 mac_hebrew_pull_step whole_units.
Proof.
  intros c o n bs Hb Hi Ho. unfold mac_hebrew_pull_step. destruct (char_mac_hebrew_to_ucs2 _); [|done].
  repeat (case_test; try done); intros [= <- <-]; (split_and!; [lia..|rewrite ?length_app; cbn; lia|]);
    (split; [done|]); first [apply SSVAL_bytes_ok|apply byte_list; vm_compute; reflexivity].
Qed.

Lemma push_marker c o n b : Nat.even n = true -> (0 < n <= length c)%nat -> byte b -> b <> SLASH -> 1 <= o ->
  (0 < n <= length c)%nat /\ Z.of_nat (length [b]) <= o /\ slash_for_slash (take n c) [b].
Proof.
  intros He Hn Hb Hs Ho. split_and!; [lia..|cbn; lia|]. split_and!; [by rewrite length_take_le by lia|by constructor|].
  intros Hin%list_elem_of_singleton. by destruct Hs.
Qed.

#[export] Instance mac_hebrew_push_stepwise : Stepwise 2 1 mac_hebrew_push_step slash_for_slash.
Proof.
  intros c o n bs Hb Hi Ho. unfold mac_hebrew_push_step.
  repeat case_test; try (intros [= <- <-]; apply push_marker; [done|lia|unfold byte; lia|done|done]).
  destruct (char_ucs2_to_mac_hebrew _) eqn:Ec; [|done]. intros [= <- <-]. by apply (push_one char_mac_hebrew_to_ucs2 char_ucs2_to_mac_hebrew).
Qed.

#[export] Instance ascii_tables : MacTables (fun b => if b <? 0x80 then Some b else None) (fun u => if u <? 0x80 then Some u else None).
Proof. apply tables_check; vm_compute; reflexivity. Qed.

#[export] Instance ascii_pull_stepwise :
  Stepwise 1 2 (fun c _ => if Utf8.at_ c 0 <? 0x80 then inr (1%nat, SSVAL (Utf8.at_ c 0)) else inl EILSEQ) whole_units.
Proof.
  intros c o n bs Hb Hi Ho H. apply (mb_pull_stepwise (fun b => if b <? 0x80 then Some b else None) c o); [done..|].
  unfold mb_pull_step. revert H. by case_test.
Qed.

#[export] Instance ascii_push_stepwise :
  Stepwise 2 1 (fun c _ => if SVAL c 0 <? 0x80 then inr (2%nat, [SVAL c 0]) else inl EILSEQ) slash_for_slash.
Proof.
  intros c o n bs Hb Hi Ho H. apply (mb_push_stepwise _ (fun u => if u <? 0x80 then Some u else None) c o); [done..|].
  unfold mb_push_step. revert H. by case_test.
Qed.

(** ** The laws of the sets *)

(** What every conversion does: it takes a front of the input and writes what it becomes
    within the room; without an error it takes it all. *)
Definition lawful (f : conv -> option errno * conv) (R : list Z -> list Z -> Prop) : Prop :=
  forall s e s', Forall byte (inbuf s) -> 0 <= outbytesleft s -> f s = (e, s') ->
  exists ps, traced ps s s' /\ Forall (fun p => p.1 <> [] /\ Forall byte p.2 /\ R p.1 p.2) ps /\ (e = None -> inbuf s' = []).

Definition anything (c bs : list Z) : Prop := True.

(** A set of bytes, where a unit is no unit of the set: every one but UCS-2. *)
Class ByteCharset (f : charset_functions) : Prop := {
  pull_lawful : lawful (pull f) whole_units;
  push_lawful : lawful (push f) slash_for_slash;
  pull_dot rest out left : 2 <= left -> Forall byte rest ->
    exists more, outbuf (pull f (Conv (DOT :: rest) out left)).2 = out ++ SSVAL DOT ++ more;
  push_dot rest out left : 1 <= left -> Forall byte rest ->
    exists more, outbuf (push f (Conv (SSVAL DOT ++ rest) out left)).2 = out ++ [DOT] ++ more
}.

Lemma run_lawful need_in need_out step stop R `{!Stepwise need_in need_out step R} :
  0 < need_in -> (forall l, stop l = None -> l <= 0) -> (forall c bs, R c bs -> Forall byte bs) -> lawful (run need_in need_out step stop) R.
Proof.
  intros Hi Hs HR s e s' Hb Ho H. apply (drive_trace _ _ _ _ R) in H as (ps & T & HF & He); [|done|done|lia|done|done].
  exists ps. split_and!; [done| |done]. apply (Forall_impl _ _ _ HF). naive_solver.
Qed.

(** The first step of a conversion that takes one. *)
Lemma run_first need_in need_out step stop R `{!Stepwise need_in need_out step R} c rest bs out left :
  0 < need_in -> (forall l, stop l = None -> l <= 0) -> Forall byte (c ++ rest) -> need_in <= Z.of_nat (length (c ++ rest)) -> need_out <= left -> 0 <= need_out ->
  step (c ++ rest) left = inr (length c, bs) ->
  exists more, outbuf (run need_in need_out step stop (Conv (c ++ rest) out left)).2 = out ++ bs ++ more.
Proof.
  intros Hi Hs Hb Hin Hout Ho E. unfold run. cbn [inbuf]. cbn [drive]. unfold inbytesleft. cbn [inbuf outbytesleft].
  rewrite !(proj2 (Z.leb_le _ _)) by lia. cbn [andb]. rewrite E.
  destruct (stepwise _ _ _ _ Hb Hin Hout E) as (Hn & Hl & _).
  destruct (drive _ _ _ _ _ _) as [e s'] eqn:D. apply (drive_trace _ _ _ _ R) in D as (ps & (_ & T & _) & _);
    [|done|done|cbn; rewrite drop_app_length, length_app in *; lia|cbn; by apply Forall_drop|cbn; lia].
  cbn in T. exists (ps ≫= snd). by rewrite <- app_assoc in T.
Qed.

Lemma full_stops l : full l = None -> l <= 0.
Proof. unfold full. case_test; [done|lia]. Qed.

Lemma full_or_odd_stops l : full_or_odd l = None -> l <= 0.
Proof. unfold full_or_odd. repeat case_test; try done. lia. Qed.

Section byte_charset.
Context (n : string) (pull_step push_step : list Z -> Z -> errno + (nat * list Z)) (stop : Z -> option errno).
Context `{!Stepwise 1 2 pull_step whole_units, !Stepwise 2 1 push_step slash_for_slash}.
Hypothesis stops : forall l, stop l = None -> l <= 0.
Hypothesis dot_pulled : forall rest o, 2 <= o -> pull_step (DOT :: rest) o = inr (1%nat, SSVAL DOT).
Hypothesis dot_pushed : forall rest o, push_step (SSVAL DOT ++ rest) o = inr (2%nat, [DOT]).

Lemma stepwise_charset advances flags : ByteCharset (CharsetFunctions n (run 1 2 pull_step full) (run 2 1 push_step stop) advances flags).
Proof.
  split; cbn [pull push].
  - apply (run_lawful 1 2 pull_step full whole_units); [done|apply full_stops|by intros ? ? []].
  - apply (run_lawful 2 1 push_step stop slash_for_slash); [done|done|by intros ? ? (_ & ? & _)].
  - intros rest out left Hl Hb. apply (run_first 1 2 pull_step full whole_units [DOT]); [done|apply full_stops| |cbn; lia|done|done|by apply dot_pulled].
    constructor; [unfold byte, DOT; lia|done].
  - intros rest out left Hl Hb. apply (run_first 2 1 push_step stop slash_for_slash (SSVAL DOT)); [done|done| |rewrite length_app; cbn; lia|done|done|by apply dot_pushed].
    rewrite Forall_app. split; [apply SSVAL_bytes_ok|done].
Qed.

End byte_charset.

Lemma mac_charset n to_ucs2 of_ucs2 `{!MacTables to_ucs2 of_ucs2} more : ByteCharset (mac_set n to_ucs2 of_ucs2 more).
Proof.
  apply stepwise_charset; [apply _|by apply (mb_push_stepwise to_ucs2)|apply full_stops| |].
  - intros rest o _. unfold mb_pull_step. cbn [Utf8.at_ nth]. by rewrite to_ucs2_ascii.
  - intros rest o. unfold mb_push_step. change (SVAL (SSVAL DOT ++ rest) 0) with DOT. by rewrite of_ucs2_ascii.
Qed.

#[export] Instance mac_roman_charset : ByteCharset charset_mac_roman.
Proof. apply mac_charset, _. Qed.
#[export] Instance mac_greek_charset : ByteCharset charset_mac_greek.
Proof. apply mac_charset, _. Qed.
#[export] Instance mac_turkish_charset : ByteCharset charset_mac_turkish.
Proof. apply mac_charset, _. Qed.
#[export] Instance mac_centraleurope_charset : ByteCharset charset_mac_centraleurope.
Proof. apply mac_charset, _. Qed.
#[export] Instance mac_cyrillic_charset : ByteCharset charset_mac_cyrillic.
Proof. apply mac_charset, _. Qed.
#[export] Instance mac_hebrew_charset : ByteCharset charset_mac_hebrew.
Proof. apply stepwise_charset; [apply _..|apply full_stops|done|done]. Qed.
#[export] Instance ascii_charset : ByteCharset charset_ascii.
Proof. apply stepwise_charset; [apply _..|apply full_or_odd_stops|done|done]. Qed.

Lemma utf8_functions n fl : ByteCharset (CharsetFunctions n utf8_pull utf8_push true fl).
Proof. apply (stepwise_charset n pull_char push_char full_or_odd); [apply full_or_odd_stops|done|done]. Qed.

#[export] Instance utf8_charset : ByteCharset charset_utf8.
Proof. apply utf8_functions. Qed.
#[export] Instance utf8_mac_charset : ByteCharset charset_utf8_mac.
Proof. apply utf8_functions. Qed.

(** UCS-2 copies bytes. *)
Lemma iconv_copy_lawful : lawful iconv_copy anything.
Proof.
  intros s e s' Hb Ho. unfold iconv_copy. intros [= <- <-]. set (n := Z.to_nat _).
  assert (n <= length (inbuf s))%nat as Hn by (subst n; unfold inbytesleft; lia).
  assert (Z.of_nat n <= outbytesleft s) as Ho' by (subst n; unfold inbytesleft; lia). clearbody n.
  destruct (decide (n = 0%nat)) as [->|H0].
  - exists []. unfold traced, advance. cbn. rewrite ?take_0, ?drop_0, ?app_nil_r. cbn. split_and!; [done|done|lia|lia|constructor|].
    unfold inbytesleft. cbn. destruct (inbuf s); [done|]. by case_test.
  - exists [(take n (inbuf s), take n (inbuf s))]. unfold traced, advance. cbn. rewrite !app_nil_r, length_take_le by lia. split_and!.
    + by rewrite take_drop.
    + done.
    + done.
    + lia.
    + constructor; [|constructor]. cbn. split_and!; [|by apply Forall_take|done]. intros E. apply (f_equal length) in E. rewrite length_take_le in E by lia. cbn in E. lia.
    + unfold inbytesleft. cbn. destruct (drop n (inbuf s)); [done|]. by case_test.
Qed.

(** Every set, UCS-2 included. *)
Class Charset (f : charset_functions) : Prop := {
  pull_any : lawful (pull f) anything;
  push_any : lawful (push f) anything
}.

#[export] Instance byte_charset_charset f : ByteCharset f -> Charset f.
Proof.
  intros [H1 H2 _ _]. split; intros s e s' Hb Ho H.
  - destruct (H1 s e s' Hb Ho H) as (ps & T & HF & He). exists ps. split_and!; [done| |done]. apply (Forall_impl _ _ _ HF). unfold anything. tauto.
  - destruct (H2 s e s' Hb Ho H) as (ps & T & HF & He). exists ps. split_and!; [done| |done]. apply (Forall_impl _ _ _ HF). unfold anything. tauto.
Qed.

#[export] Instance ucs2_charset : Charset charset_ucs2.
Proof. split; apply iconv_copy_lawful. Qed.

Lemma find_in_elem l n f : find_in l n = Some f -> f ∈ l /\ same_name n (name f) = true.
Proof. induction l as [|g l IH]; cbn; [done|]. case_match eqn:E; [intros [= <-]; split; [left|done]|]. intros H%IH. set_solver. Qed.

(** The sets a registry knows are the built-in ones. *)
Lemma charset_of_charset r ch f : charset_of r ch = Some f -> Charset f.
Proof.
  unfold charset_of, find_charset_functions. destruct (charset_name r ch); [|done]. intros [H _]%find_in_elem. unfold charsets in H.
  rewrite !elem_of_cons in H. decompose [or] H; subst; try apply _. set_solver.
Qed.

Lemma charset_of_bytes r ch f : charset_of r ch = Some f -> name f <> "UCS-2"%string -> ByteCharset f.
Proof.
  unfold charset_of, find_charset_functions. destruct (charset_name r ch); [|done]. intros [H _]%find_in_elem Hn. unfold charsets in H.
  rewrite !elem_of_cons in H. decompose [or] H; subst; try apply _; [done|set_solver].
Qed.
