(* ===== verification/CharsetTheorems.v ===== *)
(** * Claims on the built-in character sets *)

From stdpp Require Import strings.
From S2P Require Import Prelude Bytes Utf8 Utf8Theorems CharsetTables Charsets Charcnv CharsetFacts.

(** The sets whose tables are inverse to each other, with the bytes they have no character
    for. *)
Definition inverse_sets : list (charset_functions * (Z -> bool)) :=
  [(charset_mac_roman, fun _ => true); (charset_mac_centraleurope, fun _ => true); (charset_mac_cyrillic, fun _ => true);
   (charset_mac_greek, fun b => negb (b =? 0xff)); (charset_mac_turkish, fun _ => true)].

Section inverse.
Context (n : string) (to_ucs2 of_ucs2 : Z -> option Z) (more : Z) (has_char : Z -> bool).

(** The unit of a byte, and that it goes back to the byte. *)
Definition unit_of_byte (b : Z) : Z := default 0 (to_ucs2 b).
Definition goes_back (b : Z) : bool :=
  negb (has_char b) || (bool_decide (to_ucs2 b = Some (unit_of_byte b)) && bool_decide (of_ucs2 (unit_of_byte b) = Some b) &&
    (0 <=? unit_of_byte b) && (unit_of_byte b <? 65536)).

Lemma goes_back_true b : goes_back b = true -> has_char b = true ->
  to_ucs2 b = Some (unit_of_byte b) /\ of_ucs2 (unit_of_byte b) = Some b /\ 0 <= unit_of_byte b < 65536.
Proof.
  unfold goes_back. intros H Hc. rewrite Hc in H. cbn [negb orb] in H. rewrite !andb_true_iff, !bool_decide_eq_true in H. intuition lia.
Qed.

Lemma mac_round_trip bs left16 left8 :
  forallb goes_back (seqZ 0 256) = true -> Forall (fun b => byte b /\ has_char b = true) bs -> 2 * zlen bs <= left16 -> zlen bs <= left8 ->
  exists u, mb_generic_pull to_ucs2 (Conv bs [] left16) = (None, Conv [] u (left16 - 2 * zlen bs)) /\
    mb_generic_push of_ucs2 (Conv u [] left8) = (None, Conv [] bs (left8 - zlen bs)).
Proof.
  intros Hall Hbs H16 H8. pose proof (byte_check _ Hall) as C.
  assert (Forall (fun b => to_ucs2 b = Some (unit_of_byte b) /\ of_ucs2 (unit_of_byte b) = Some b /\ 0 <= unit_of_byte b < 65536) bs) as HF.
  { apply (Forall_impl _ _ _ Hbs). intros b [Hb Hc]. apply goes_back_true; [by apply C|done]. }
  set (ps := (fun b => ([b], SSVAL (unit_of_byte b))) <$> bs). set (qs := (fun b => (SSVAL (unit_of_byte b), [b])) <$> bs).
  assert (ps ≫= fst = bs) as P1 by (subst ps; clear; induction bs; cbn; [done|f_equal; done]).
  assert (qs ≫= snd = bs) as Q2 by (subst qs; clear; induction bs; cbn; [done|f_equal; done]).
  assert (qs ≫= fst = ps ≫= snd) as QP by (subst ps qs; clear; induction bs; cbn; [done|do 2 f_equal; done]).
  assert (zlen (ps ≫= snd) = 2 * zlen bs) as PL by (subst ps; clear; induction bs; cbn in *; lia).
  exists (ps ≫= snd). split.
  - pose proof (drive_pieces 1 2 (mb_pull_step to_ucs2) full ps ltac:(lia) (S (length bs)) [] left16) as D.
    rewrite P1, PL in D. apply D; [|lia|lia]. subst ps. rewrite Forall_fmap. apply (Forall_impl _ _ _ HF). intros b (E1 & _ & _).
    cbn [compose fst snd length]. split_and!; [lia|cbn; lia|]. intros rest o _. unfold mb_pull_step. cbn [app Utf8.at_ nth]. by rewrite E1.
  - pose proof (drive_pieces 2 1 (mb_push_step of_ucs2) full qs ltac:(lia) (S (length (ps ≫= snd))) [] left8) as D.
    rewrite Q2, QP in D. apply D; [|lia|lia]. subst qs. rewrite Forall_fmap. apply (Forall_impl _ _ _ HF). intros b (_ & E2 & Hu).
    cbn [compose fst snd]. split_and!; [cbn; lia|cbn; lia|]. intros rest o _. unfold mb_push_step.
    rewrite SSVAL_bytes, SVAL_unit by lia. by rewrite E2.
Qed.

End inverse.

(** C16: Five of the six single-byte Mac sets lose nothing: given the room, a text of any of
    their bytes is pulled into UCS-2 and pushed back as it was (MAC_GREEK has no character
    for its last byte). *)
Theorem mac_charsets_round_trip f has_char bs left16 left8 :
  (f, has_char) ∈ inverse_sets -> Forall (fun b => byte b /\ has_char b = true) bs -> 2 * zlen bs <= left16 -> zlen bs <= left8 ->
  exists u, pull f (Conv bs [] left16) = (None, Conv [] u (left16 - 2 * zlen bs)) /\
    push f (Conv u [] left8) = (None, Conv [] bs (left8 - zlen bs)).
Proof.
  intros Hf. unfold inverse_sets in Hf. rewrite !elem_of_cons in Hf.
  decompose [or] Hf; simplify_eq; try set_solver; apply mac_round_trip; vm_compute; reflexivity.
Qed.

Lemma mac_charsets_round_trip_witness :
  exists u, pull charset_mac_turkish (Conv [0x61; 0xdd; 0xf5] [] 6) = (None, Conv [] u 0) /\
    push charset_mac_turkish (Conv u [] 3) = (None, Conv [] [0x61; 0xdd; 0xf5] 0).
Proof.
  apply (mac_charsets_round_trip charset_mac_turkish (fun _ => true) [0x61; 0xdd; 0xf5] 6 3);
    [unfold inverse_sets; do 4 right; left|repeat constructor; unfold byte; lia|cbn; lia|cbn; lia].
Defined.

(** MAC_HEBREW takes the bytes 1 to 3 for the markers of its table: the control character
    U+0001 of a name becomes two Hebrew characters, and goes back as the byte 0x81. *)
Theorem hebrew_control_bytes :
  pull charset_mac_hebrew (Conv [1] [] 8) = (None, Conv [] (bytes_of_units [0x05f2; 0x05b7]) 4) /\
  push charset_mac_hebrew (Conv (bytes_of_units [0x05f2; 0x05b7]) [] 8) = (None, Conv [] [0x81] 7) /\
  push charset_mac_hebrew (Conv (bytes_of_units [1]) [] 8) = (None, Conv [] [1] 7).
Proof. split_and!; vm_compute; reflexivity. Qed.
