(* ===== verification/CharcnvFacts.v ===== *)
(** * Facts on the conversion of names

    The units of buffers, the flags, and what decoding, punctuation and encoding keep: they
    stay inside the room they have and end. *)

From stdpp Require Import strings.
From S2P Require Import Prelude Bytes Utf8 Utf8Theorems Unicode UnicodeFacts UnicodeCompose UnicodeTheorems.
From S2P Require Import CharsetTables Charsets Charcnv CharsetFacts.

Create HintDb charcnv.

(** ** Flags *)

(** The flags that are options; a conversion adds the others only. *)
Definition same_options (f f' : Z) : Prop := Z.land f' 0x3ff = Z.land f 0x3ff.

#[export] Instance same_options_refl : Reflexive same_options.
Proof. by intros f. Qed.
#[export] Instance same_options_trans : Transitive same_options.
Proof. unfold same_options. intros f g h H1 H2. congruence. Qed.

Lemma same_has f f' x : same_options f f' -> Z.land 0x3ff x = x -> has f' x = has f x.
Proof. unfold same_options, has. intros H Hx. by rewrite <- Hx, !Z.land_assoc, H. Qed.

Lemma adds_flag f x : Z.land x 0x3ff = 0 -> same_options f (Z.lor f x).
Proof. unfold same_options. intros H. by rewrite Z.land_lor_distr_l, H, Z.lor_0_r. Qed.

Lemma adds_mangle f : same_options f (Z.lor f CONV_REQMANGLE).
Proof. by apply adds_flag. Qed.

Lemma adds_escape f : same_options f (Z.lor f CONV_REQESCAPE).
Proof. by apply adds_flag. Qed.

#[export] Hint Resolve adds_mangle adds_escape : charcnv.
#[export] Hint Extern 1 (same_options ?f ?f) => reflexivity : charcnv.

(** ** Units *)

Lemma bytes_of_units_cons u us : bytes_of_units (u :: us) = SSVAL u ++ bytes_of_units us.
Proof. done. Qed.

Lemma bytes_of_units_length us : length (bytes_of_units us) = (2 * length us)%nat.
Proof. unfold bytes_of_units. induction us; cbn in *; [done|]. rewrite IHus. lia. Qed.

Lemma bytes_of_units_bytes us : Forall byte (bytes_of_units us).
Proof. induction us as [|u us IH]; [constructor|]. rewrite bytes_of_units_cons, Forall_app. split; [apply SSVAL_bytes_ok|done]. Qed.

Lemma bytes_of_units_even us : Nat.even (length (bytes_of_units us)) = true.
Proof. rewrite bytes_of_units_length. apply Nat.even_spec. by exists (length us). Qed.

Lemma units_cons lo hi bs : units (lo :: hi :: bs) = Z.lor lo (Z.shiftl hi 8) :: units bs.
Proof. done. Qed.

(** Induction over a buffer two bytes at a time. *)
Lemma pairs_ind (P : list Z -> Prop) : P [] -> (forall a, P [a]) -> (forall a b l, P l -> P (a :: b :: l)) -> forall l, P l.
Proof. intros H0 H1 H2. fix IH 1. intros [|a [|b l]]; [done|done|]. apply H2, IH. Qed.

Lemma units_length bs : length (units bs) = (length bs / 2)%nat.
Proof.
  induction bs as [|a|a b bs IH] using pairs_ind; [done|done|]. cbn [units length]. rewrite IH.
  replace (S (S (length bs))) with (length bs + 1 * 2)%nat by lia. rewrite Nat.div_add by lia. lia.
Qed.

Lemma units_units bs : Forall byte bs -> Forall (fun u => 0 <= u < 65536) (units bs).
Proof.
  induction bs as [|a|a b bs IH] using pairs_ind; [constructor..|]. intros [Ha [Hb Hr]%Forall_cons]%Forall_cons. unfold byte in *.
  cbn [units]. constructor; [|by apply IH]. rewrite Z.lor_comm, (lor_add _ _ 8), Z.shiftl_mul_pow2 by (rewrite ?Z.shiftl_mul_pow2; zmod). lia.
Qed.

Lemma units_of_bytes us : Forall (fun u => 0 <= u < 65536) us -> units (bytes_of_units us) = us.
Proof.
  induction us as [|u us IH]; [done|]. intros [Hu Hr]%Forall_cons. rewrite bytes_of_units_cons, SSVAL_bytes by done.
  unfold Utf8Theorems.unit16. cbn [app]. rewrite units_cons, IH by done. f_equal. exact (SVAL_unit u [] Hu).
Qed.

Lemma bytes_of_units_of bs : Forall byte bs -> Nat.even (length bs) = true -> bytes_of_units (units bs) = bs.
Proof.
  induction bs as [|a|a b bs IH] using pairs_ind; [done|done|]. intros [Ha [Hb Hr]%Forall_cons]%Forall_cons He. unfold byte in *.
  cbn [units]. rewrite bytes_of_units_cons, IH by done. unfold SSVAL. cbn [app].
  rewrite Z.lor_comm, (lor_add _ _ 8), Z.shiftl_mul_pow2, Z.shiftr_div_pow2, !mask_ff by (rewrite ?Z.shiftl_mul_pow2; zmod).
  f_equal; [zmod|]. f_equal. zmod.
Qed.

Lemma bytes_of_units_app us vs : bytes_of_units (us ++ vs) = bytes_of_units us ++ bytes_of_units vs.
Proof. apply bind_app. Qed.

Lemma buffer_units_app as_ bs : Nat.even (length as_) = true -> units (as_ ++ bs) = units as_ ++ units bs.
Proof. induction as_ as [|a|a b l IH] using pairs_ind; [done|done|]. intros H. cbn [app units]. by rewrite IH. Qed.

(** ** What a conversion keeps *)

Lemma traced_room ps s s' : traced ps s s' -> zlen (outbuf s') + outbytesleft s' = zlen (outbuf s) + outbytesleft s.
Proof. intros (_ & T2 & T3 & _). rewrite T2, length_app. lia. Qed.

Section lawful.
Context (f : conv -> option errno * conv) (R : list Z -> list Z -> Prop) (L : lawful f R).

Lemma lawful_keeps s e s' : Forall byte (inbuf s) -> Forall byte (outbuf s) -> 0 <= outbytesleft s -> f s = (e, s') ->
  Forall byte (inbuf s') /\ Forall byte (outbuf s') /\ 0 <= outbytesleft s' /\
  zlen (outbuf s') + outbytesleft s' = zlen (outbuf s) + outbytesleft s /\
  (length (inbuf s') <= length (inbuf s))%nat /\ (e = None -> inbuf s' = []) /\
  (outbytesleft s' < outbytesleft s -> (length (inbuf s') < length (inbuf s))%nat) /\
  exists bs, outbuf s' = outbuf s ++ bs.
Proof.
  intros Hb Ho H0 H. destruct (L s e s' Hb H0 H) as (ps & T & HF & He). pose proof (traced_room _ _ _ T) as Hr. destruct T as (T1 & T2 & T3 & T4).
  rewrite T1, Forall_app in Hb. split_and!; [tauto| |done|done| |done| |eauto].
  - rewrite T2, Forall_app. split; [done|]. clear -HF. induction HF as [|[c b] ps (_ & Hb & _) _ IH]; [constructor|]. cbn. by apply Forall_app.
  - rewrite T1, length_app. lia.
  - intros Hlt. rewrite T1, length_app. destruct ps as [|[c b] ps]; [cbn in T3; lia|]. inversion HF as [|? ? (Hne & _) _]; subst.
    cbn in *. destruct c; [done|]. cbn. lia.
Qed.

End lawful.

Lemma pulled_even f s e s' : lawful f whole_units -> Forall byte (inbuf s) -> 0 <= outbytesleft s -> f s = (e, s') ->
  Nat.even (length (outbuf s)) = true -> Nat.even (length (outbuf s')) = true.
Proof.
  intros L Hb H0 H He. destruct (L s e s' Hb H0 H) as (ps & (_ & T2 & _) & HF & _). rewrite T2, length_app, Nat.even_add, He. clear -HF.
  induction HF as [|[c b] ps (_ & _ & Hw & _) _ IH]; [done|]. cbn in *. rewrite length_app, Nat.even_add, Hw.
  revert IH. change (list_bind _ _ snd ps) with (ps ≫= snd). by destruct (Nat.even (length (ps ≫= snd))).
Qed.

(** ** Decoding *)

Lemma forced_cases {A} opt e fl (a : A) : forced opt e fl a = inr a \/ forced opt e fl a = inl (e, fl).
Proof. unfold forced. case_match; auto. Qed.

(** What the result of a phase obeys, and the flags of an error. *)
Definition outcome {A} (fl : Z) (P : A -> Prop) (Fl : A -> Z) (x : errno * Z + A) : Prop :=
  match x with inr a => P a /\ same_options fl (Fl a) | inl (_, f) => same_options fl f end.

Lemma forced_outcome {A} opt e fl fl' (a : A) (P : A -> Prop) Fl : P a -> Fl a = fl' -> same_options fl fl' -> outcome fl P Fl (forced opt e fl' a).
Proof. intros HP HF Hs. destruct (forced_cases opt e fl' a) as [-> | ->]; cbn; [by rewrite HF|done]. Qed.

Definition decoded_ok (decoded : list Z) (x : list Z * list Z * Z) : Prop :=
  Forall byte x.1.1 /\ Forall byte x.1.2 /\ exists more, x.1.1 = decoded ++ more.

Lemma unit_size_pos from : 1 <= source_code_unit_size from.
Proof. unfold source_code_unit_size. repeat (case_match; try lia). Qed.

Lemma decode_keeps from `{!Charset from} wide src opt : forall fuel input decoded left flags,
  Forall byte input -> Forall byte decoded -> 0 <= left ->
  outcome flags (decoded_ok decoded) snd (decode_loop fuel from wide src opt input decoded left flags).
Proof.
  induction fuel as [|fuel IH]; intros input decoded left flags Hi Hd Hl; cbn [decode_loop].
  { split; [split_and!; [done|done|exists []; by rewrite app_nil_r]|done]. }
  destruct input as [|b input]; [split; [split_and!; [done|done|exists []; by rewrite app_nil_r]|done]|].
  set (all := b :: input) in *. clearbody all. set (n := if wide then _ else _). clearbody n.
  destruct (pull from _) as [e s] eqn:E.
  apply (lawful_keeps _ _ pull_any) in E as (K1 & K2 & K3 & _ & _ & _ & _ & more & K4); [|by apply Forall_take|done|done]. cbn in K4.
  assert (Forall byte (inbuf s ++ drop n all)) as K5 by (apply Forall_app; split; [done|by apply Forall_drop]).
  assert (decoded_ok decoded (outbuf s, inbuf s ++ drop n all, flags)) as K6 by (split_and!; eauto).
  destruct (_ && _); [by split|].
  assert (decoded_ok decoded (outbuf s, inbuf s ++ drop n all, Z.lor flags CONV_REQMANGLE)) as K7 by (split_and!; eauto).
  assert (outcome flags (decoded_ok decoded) snd
    (if has opt CONV_IGNORE then inr (outbuf s, inbuf s ++ drop n all, Z.lor flags CONV_REQMANGLE)
     else if has opt CONV__EILSEQ then
       if outbytesleft s <? 2 then forced opt E2BIG flags (outbuf s, inbuf s ++ drop n all, flags) else
       let decoded := outbuf s ++ SSVAL IGNORE_CHAR in
       let input := drop (Z.to_nat (source_code_unit_size from)) (inbuf s ++ drop n all) in
       match (if bool_decide (input = []) then None else restore_source_bom from src (source_code_unit_size from)) with
       | Some e => forced opt e flags (decoded, input, flags)
       | None => decode_loop fuel from wide src opt input decoded (outbytesleft s - 2) flags
       end
     else forced opt EILSEQ flags (outbuf s, inbuf s ++ drop n all, flags))) as K8.
  { case_match; [split; auto with charcnv|]. case_match; [|by apply forced_outcome]. case_test; [by apply forced_outcome|]. cbn zeta.
    assert (Forall byte (outbuf s ++ SSVAL IGNORE_CHAR)) as D1 by (apply Forall_app; split; [done|apply SSVAL_bytes_ok]).
    assert (exists m, outbuf s ++ SSVAL IGNORE_CHAR = decoded ++ m) as D2 by (rewrite K4, <- app_assoc; eauto).
    assert (Forall byte (drop (Z.to_nat (source_code_unit_size from)) (inbuf s ++ drop n all))) as D3 by (by apply Forall_drop).
    case_match; [by apply forced_outcome|].
    specialize (IH _ _ (outbytesleft s - 2) flags D3 D1 ltac:(lia)). revert IH. destruct (decode_loop _ _ _ _ _ _ _ _ _) as [[? ?]|[[d i] f]]; cbn; [done|].
    intros [(I1 & I2 & m & I3) I4]. split; [|done]. split_and!; [done|done|]. cbn in *. destruct D2 as [m' D2]. rewrite I3, D2, <- app_assoc. eauto. }
  destruct e as [[]|]; [done|done|by apply forced_outcome|done].
Qed.

(** The decoder fills at most the room it is given. *)
Lemma decode_room from `{!Charset from} wide src opt : forall fuel input decoded left flags d i f,
  Forall byte input -> Forall byte decoded -> 0 <= left ->
  decode_loop fuel from wide src opt input decoded left flags = inr (d, i, f) -> zlen d <= zlen decoded + left.
Proof.
  assert (forall e fl (a x : list Z * list Z * Z), forced opt e fl a = inr x -> x = a) as FE
    by (intros e fl a x; unfold forced; case_match; naive_solver).
  induction fuel as [|fuel IH]; intros input decoded left flags d i f Hi Hd Hl; cbn [decode_loop]; [intros [= <- _ _]; lia|].
  destruct input as [|b input]; [intros [= <- _ _]; lia|]. set (all := b :: input) in *. clearbody all. set (n := if wide then _ else _). clearbody n.
  destruct (pull from _) as [e s] eqn:E.
  apply (lawful_keeps _ _ pull_any) in E as (K1 & K2 & K3 & K4 & _); [|by apply Forall_take|done|done]. cbn in K4.
  assert (Forall byte (drop (Z.to_nat (source_code_unit_size from)) (inbuf s ++ drop n all))) as D
    by (apply Forall_drop, Forall_app; split; [done|by apply Forall_drop]).
  repeat (case_match; try (intros [= <- _ _]; lia); try (intros [= -> _ _]%FE; lia)); bool_cases;
    try (intros [= -> _ _]%FE; rewrite length_app; cbn [length SSVAL]; lia);
    (intros Hrec; apply IH in Hrec; [rewrite length_app in Hrec; cbn [length SSVAL] in Hrec; lia|done|apply Forall_app; split; [done|apply SSVAL_bytes_ok]|lia]).
Qed.

(** The fuel is enough: every turn but the last takes a byte. *)
Lemma decode_loop_ends from `{!Charset from} wide src opt k : forall fuel input decoded left flags,
  Forall byte input -> Forall byte decoded -> 0 <= left -> (length input < fuel)%nat ->
  decode_loop (fuel + k) from wide src opt input decoded left flags = decode_loop fuel from wide src opt input decoded left flags.
Proof.
  induction fuel as [|fuel IH]; intros input decoded left flags Hi Hd Hl Hf; [lia|]. cbn [Nat.add decode_loop].
  destruct input as [|b input]; [done|]. cbn [length] in Hf. set (n := if wide then _ else _).
  destruct (pull from _) as [e s] eqn:E. pose proof (unit_size_pos from) as Hu.
  apply (lawful_keeps _ _ pull_any) in E as (K1 & K2 & K3 & _ & K4 & _); [|by apply Forall_take|done|done]. cbn [inbuf] in K4.
  assert (length (inbuf s ++ drop n (b :: input)) <= S (length input))%nat as Hlen.
  { rewrite length_app. rewrite length_take in K4. rewrite length_drop. cbn [length] in *. lia. }
  assert (Forall byte (drop (Z.to_nat (source_code_unit_size from)) (inbuf s ++ drop n (b :: input)))) as D
    by (apply Forall_drop, Forall_app; split; [done|by apply Forall_drop]).
  repeat (case_match; try done); apply IH; try done; try lia; try (apply Forall_app; split; [done|apply SSVAL_bytes_ok]);
    rewrite length_drop; lia.
Qed.

(** ** Punctuation *)

Lemma hex_value_range c : -1 <= filename_hex_value c < 16.
Proof. unfold filename_hex_value. repeat case_test; lia. Qed.

Lemma unescape_keeps fuel : forall rest hex h over rest',
  unescape fuel rest hex = (h, over, rest') -> Forall byte hex -> Forall byte h /\ exists n, rest' = drop n rest /\ (hex = [] -> h <> [] -> 0 < n)%nat.
Proof.
  induction fuel as [|fuel IH]; intros rest hex h over rest'; cbn [unescape].
  { intros [= <- <- <-] Hh. split; [done|]. exists 0%nat. by rewrite drop_0. }
  destruct rest as [|c [|a [|l rest]]]; try (intros [= <- <- <-] Hh; split; [done|]; exists 0%nat; by rewrite ?drop_0).
  case_match eqn:E; [|intros [= <- <- <-] Hh; split; [done|]; exists 0%nat; by rewrite ?drop_0].
  case_match; [intros [= <- <- <-] Hh; split; [done|]; exists 0%nat; by rewrite ?drop_0|].
  intros Hu Hh. pose proof (hex_value_range a). pose proof (hex_value_range l). apply IH in Hu as (U1 & n & U2 & _).
  - split; [done|]. exists (3 + n)%nat. split; [by rewrite U2|lia].
  - apply Forall_app. split; [done|]. constructor; [|constructor]. unfold byte.
    rewrite (lor_add _ _ 4), Z.shiftl_mul_pow2 by (rewrite ?Z.shiftl_mul_pow2; zmod). lia.
Qed.

(** A run of escapes fits the array of its bytes. *)
Lemma unescape_fits fuel : forall rest hex, zlen hex <= MAXPATHLEN -> zlen (unescape fuel rest hex).1.1 <= MAXPATHLEN.
Proof.
  induction fuel as [|fuel IH]; intros rest hex Hh; cbn [unescape]; [done|]. destruct rest as [|c [|a [|l rest]]]; try done.
  case_match; [|done]. case_match eqn:E; [done|]. apply Z.eqb_neq in E. apply IH. rewrite length_app. cbn [length]. lia.
Qed.

Section emit.
Context (from_set to_set : Z) (cap : option charset_functions) (opt : Z).
Context (capok : forall f, cap = Some f -> Charset f).

Definition emitted_ok (out : list Z) (outleft : Z) (x : list Z * Z) : Prop :=
  Forall byte x.1 /\ zlen x.1 <= zlen out + outleft /\ exists more, x.1 = out ++ more.

Lemma escape_error_outcome e out outleft out0 left0 fl :
  Forall byte out -> 0 <= outleft -> zlen out + outleft = zlen out0 + left0 -> (exists more, out = out0 ++ more) ->
  outcome fl (emitted_ok out0 left0) snd (escape_error opt e out fl).
Proof.
  intros Hb Ho He Hm. assert (forall f, emitted_ok out0 left0 (out, f)) as K by (intros f; split_and!; cbn; [done|lia|done]).
  unfold escape_error. case_match; [split; auto with charcnv|by apply forced_outcome].
Qed.

Lemma emit_keeps : forall fuel first rest out outleft flags,
  Forall byte out -> 0 <= outleft -> outcome flags (emitted_ok out outleft) snd (emit_loop from_set to_set cap opt fuel first rest out outleft flags).
Proof.
  assert (forall out outleft f, Forall byte out -> 0 <= outleft -> emitted_ok out outleft (out, f)) as K0.
  { intros out outleft f Hb Ho. split_and!; cbn; [done|lia|exists []; by rewrite app_nil_r]. }
  induction fuel as [|fuel IH]; intros first rest out outleft flags Hb Ho; cbn [emit_loop]; [split; [by apply K0|done]|].
  destruct rest as [|c rest]; [split; [by apply K0|done]|].
  assert (forall out' left' f rest' first', same_options flags f -> Forall byte out' -> 0 <= left' -> zlen out' + left' = zlen out + outleft ->
    (exists more, out' = out ++ more) -> outcome flags (emitted_ok out outleft) snd (emit_loop from_set to_set cap opt fuel first' rest' out' left' f)) as next.
  { intros out' left' f rest' first' Hs Hb' Hl' He [m ->]. specialize (IH first' rest' (out ++ m) left' f Hb' Hl'). revert IH.
    destruct (emit_loop _ _ _ _ _ _ _ _ _ _) as [[? f']|[o f']]; cbn; [by intros; trans f|]. intros [(I1 & I2 & m' & I3) I4]. cbn in *.
    split; [|by trans f]. split_and!; cbn; [done|lia|]. rewrite I3, <- app_assoc. eauto. }
  case_match.
  - destruct (unescape _ _ _) as [[hex over] rest''] eqn:Eu. apply unescape_keeps in Eu as [Hh _]; [|constructor].
    destruct over; [by apply forced_outcome; [apply K0|..]|].
    assert (forall e, outcome flags (emitted_ok out outleft) snd (escape_error opt e out flags)) as esc
      by (intros e; apply (escape_error_outcome e out outleft); [done..|exists []; by rewrite app_nil_r]).
    destruct hex as [|h hex]; [apply esc|]. destruct cap as [f|] eqn:Ec; [|apply esc].
    destruct (pull f _) as [e s] eqn:E. pose proof (capok f eq_refl) as Hf.
    apply (lawful_keeps _ _ pull_any) in E as (_ & K2 & K3 & K4 & _ & _ & _ & K5); [|done|done|done]. cbn in K4, K5.
    destruct e; [by apply (escape_error_outcome _ _ (outbytesleft s))|by apply next].
  - destruct (emit_char _ _ _ _ _) as [us esc]. case_test.
    + apply forced_outcome; [by apply K0|done|]. destruct esc; auto with charcnv.
    + apply next; [destruct esc; auto with charcnv|apply Forall_app; split; [done|apply bytes_of_units_bytes]|lia| |eauto].
      rewrite length_app, bytes_of_units_length. lia.
Qed.

(** The fuel is enough: every turn takes a character. *)
Lemma emit_loop_ends k : forall fuel first rest out outleft flags,
  (length rest < fuel)%nat -> emit_loop from_set to_set cap opt (fuel + k) first rest out outleft flags = emit_loop from_set to_set cap opt fuel first rest out outleft flags.
Proof.
  induction fuel as [|fuel IH]; intros first rest out outleft flags Hf; [lia|]. cbn [Nat.add emit_loop].
  destruct rest as [|c rest]; [done|]. cbn [length] in Hf. case_match.
  - destruct (unescape _ _ _) as [[hex over] rest''] eqn:Eu. apply unescape_keeps in Eu as (_ & n & -> & Hn); [|constructor].
    destruct over; [done|]. destruct hex as [|h hex]; [done|]. destruct cap; [|done]. destruct (pull _ _) as [[] s]; [done|].
    apply IH. rewrite length_drop. cbn. specialize (Hn eq_refl ltac:(done)). lia.
  - destruct (emit_char _ _ _ _ _). case_match; [done|]. apply IH. lia.
Qed.

End emit.

(** ** Encoding *)

Lemma drop_blit_past off bs (d : list Z) m : (off + length bs <= m <= length d)%nat -> drop m (blit off bs d) = drop m d.
Proof.
  intros H. unfold blit. rewrite drop_app_ge by (rewrite length_take; lia). rewrite drop_app_ge by (rewrite length_take; lia).
  rewrite drop_drop, length_take. f_equal. lia.
Qed.

Lemma blit_bytes off bs d : Forall byte bs -> Forall byte d -> Forall byte (blit off bs d).
Proof. intros Hb Hd. unfold blit. rewrite !Forall_app. split_and!; [by apply Forall_take|done|by apply Forall_drop]. Qed.

(** A buffer after writes inside its first [n] bytes. *)
Definition written (n : Z) (d d' : list Z) : Prop :=
  length d' = length d /\ drop (Z.to_nat n) d' = drop (Z.to_nat n) d /\ (Forall byte d -> Forall byte d').

#[export] Instance written_refl n : Reflexive (written n).
Proof. by intros d. Qed.
#[export] Instance written_trans n : Transitive (written n).
Proof. intros a b c (H1 & H2 & H3) (I1 & I2 & I3). split_and!; [congruence|congruence|auto]. Qed.

Lemma blit_written n off bs d : Forall byte bs -> Z.of_nat (off + length bs) <= n <= zlen d -> written n d (blit off bs d).
Proof. intros Hb H. split_and!; [apply length_blit; lia|apply drop_blit_past; lia|intros; by apply blit_bytes]. Qed.

Lemma escape_byte_bytes b : Forall byte (escape_byte b).
Proof.
  assert (Forall byte hexdig) as H by (by apply byte_list). unfold escape_byte. repeat apply Forall_cons_2; [unfold byte, COLON; lia| | |constructor];
    by apply nth_byte.
Qed.

Lemma escapes_length buf : length (buf ≫= escape_byte) = (3 * length buf)%nat.
Proof. induction buf; cbn in *; [done|]. rewrite IHbuf. lia. Qed.

Lemma escapes_bytes buf : Forall byte (buf ≫= escape_byte).
Proof. induction buf; [constructor|]. cbn [mbind list_bind]. apply Forall_app. split; [apply escape_byte_bytes|done]. Qed.

Lemma escape_loop_keeps cap `{!Charset cap} bufsiz : forall fuel room input buf input',
  Forall byte input -> 0 <= room -> escape_loop fuel cap bufsiz room input = inr (buf, input') ->
  Forall byte input' /\ ((length input' < length input)%nat \/ input' = []).
Proof.
  induction fuel as [|fuel IH]; intros room input buf input' Hi Hr; cbn [escape_loop]; [done|]. case_match; [done|].
  destruct (push cap _) as [e s] eqn:E.
  apply (lawful_keeps _ _ push_any) in E as (K1 & _ & _ & _ & K4 & K5 & K6 & _); [|done|done|done]. cbn in K4, K6.
  destruct e as [[]|]; try done.
  - case_test; [intros [= <- <-]; auto|]. intros Er. apply IH in Er as [H1 H2]; [|done|lia]. split; [done|]. destruct H2; [left; lia|auto].
  - intros [= <- <-]. auto.
Qed.

Section push.
Context (room : bool) (to : charset_functions) (cap : option charset_functions) (opt destlen : Z).
Context `{!Charset to} (capok : forall f, cap = Some f -> Charset f) (capped : has opt CONV_ESCAPEHEX = true -> is_Some cap).

Definition pushed_ok (dest : list Z) (flags : Z) (x : res (option Z * list Z * Z)) : Prop :=
  exists len dest' flags', x = Ok (len, dest', flags') /\ same_options flags flags' /\ written destlen dest dest' /\
    forall n, len = Some n -> 0 <= n <= destlen.

(** The fuel that is enough: the inner loop takes a byte in every turn. *)
Definition enough (inner : bool) (input : list Z) : nat :=
  if inner then 3 * length input + 2 else if (length input <? 2)%nat then 1 else 3 * length input + 3.

Lemma push_end_ok input dest dest0 o_len flags flags0 :
  0 <= o_len <= destlen -> written destlen dest0 dest -> same_options flags0 flags -> pushed_ok dest0 flags0 (push_end opt destlen input dest o_len flags).
Proof. intros Ho Hw Hf. unfold push_end. eexists _, _, _. split_and!; [done|done|done|]. intros n. case_match; [intros [= <-]; lia|done]. Qed.

Lemma pushed_ok_trans dest dest' flags flags' x : written destlen dest dest' -> same_options flags flags' -> pushed_ok dest' flags' x -> pushed_ok dest flags x.
Proof. intros Hw Hs (len & d & f & E & H1 & H2 & H3). exists len, d, f. split_and!; [done|by trans flags'|by trans dest'|done]. Qed.

Lemma push_loop_safe : forall fuel inner input dest pos o_len flags,
  (enough inner input <= fuel)%nat -> Forall byte input -> 0 <= o_len <= destlen -> Z.of_nat pos <= destlen - o_len -> destlen <= zlen dest ->
  pushed_ok dest flags (push_loop fuel room to cap opt destlen inner input dest pos o_len flags).
Proof.
  induction fuel as [|fuel IH]; intros inner input dest pos o_len flags Hf Hi Ho Hp Hd; [unfold enough in Hf; repeat case_match; lia|].
  cbn [push_loop]. destruct inner; cbn [negb].
  2: { case_match eqn:E; [|by apply push_end_ok]. apply Z.leb_le in E. apply IH; try done. unfold enough in *. case_match eqn:E2; [apply Nat.ltb_lt in E2|]; lia. }
  unfold enough in Hf. case_bool_decide as En.
  { apply IH; try done. subst. cbn in *. lia. }
  assert (0 < length input)%nat as Hn by (destruct input; cbn; [done|lia]).
  destruct (push to _) as [e s] eqn:E.
  apply (lawful_keeps _ _ push_any) in E as (K1 & K2 & K3 & K4 & K5 & K6 & _); [|done|constructor|cbn; lia]. cbn in K4, K5.
  assert (written destlen dest (blit pos (outbuf s) dest)) as W by (apply blit_written; [done|lia]).
  assert (forall inp, pushed_ok dest flags (push_end opt destlen inp (blit pos (outbuf s) dest) (outbytesleft s) flags)) as fin
    by (intros inp; apply push_end_ok; [lia|done|done]).
  set (pos' := if advances to then _ else pos). assert (Z.of_nat pos' <= destlen - outbytesleft s) as Hp' by (subst pos'; case_match; lia).
  destruct e as [e|].
  2: { apply (pushed_ok_trans dest (blit pos (outbuf s) dest) flags flags); [done|done|]. apply IH; [|done|lia|done|destruct W as [-> _]; lia].
       rewrite K6 by done. cbn. lia. }
  destruct e; [|apply fin|apply fin].
  case_match eqn:Eig; [eexists _, _, _; split_and!; [done|auto with charcnv|done|intros n [= <-]; lia]|].
  case_match eqn:Ees; [|apply fin]. destruct room; [|apply fin]. destruct (capped eq_refl) as [f Hf']. rewrite Hf'.
  pose proof (capok f Hf') as Hc. destruct (escape_loop _ _ _ _ _) as [?|[buf input']] eqn:El; [apply fin|].
  apply escape_loop_keeps in El as [H1 H2]; [|done|done|lia]. case_test; [apply fin|].
  set (dest' := blit pos' _ _). assert (written destlen (blit pos (outbuf s) dest) dest') as W'
    by (apply blit_written; [apply escapes_bytes|rewrite escapes_length; destruct W as [-> _]; lia]).
  apply (pushed_ok_trans dest dest' flags (Z.lor flags CONV_REQESCAPE)); [by trans (blit pos (outbuf s) dest)|auto with charcnv|].
  rewrite <- Hf'. apply IH; [|done|lia|lia|destruct W as [E1 _], W' as [E2 _]; rewrite E2, E1; lia].
  cbn [enough]. destruct H2 as [H2| ->]; [|cbn]; lia.
Qed.

End push.

(** ** Composition and case *)

Lemma zlen_odd (b : list Z) : Z.odd (zlen b) = negb (Nat.even (length b)).
Proof.
  rewrite <- Z.negb_even. f_equal. induction b as [|x|x y b IH] using pairs_ind; [done|done|]. cbn [length Nat.even].
  replace (Z.of_nat (S (S (length b)))) with (zlen b + 2 * 1) by lia. by rewrite Z.even_add_mul_2.
Qed.

Lemma units_whole b : Nat.even (length b) = true -> length b = (2 * length (units b))%nat.
Proof. rewrite units_length. intros [h ->]%Nat.even_spec. rewrite Nat.mul_comm, Nat.div_mul; lia. Qed.

(** A buffer is converted whole, or refused when a byte is left over. *)
Lemma decompose_buffer b outlen : 0 <= outlen ->
  decompose_w (units b) (zlen b) outlen =
    Ok (if bool_decide (b = []) || negb (Nat.even (length b)) then Refused else answer outlen [] (dec (units b))).
Proof.
  intros Ho. destruct (Nat.even (length b)) eqn:E.
  - pose proof (units_whole b E) as Hl. rewrite decompose_w_units, zlen_odd, E by lia.
    replace (Z.to_nat (zlen b / 2)) with (length (units b)) by zmod. rewrite firstn_all.
    cbn [negb]. rewrite !orb_false_r. by destruct b.
  - unfold decompose_w. rewrite odd_bit, zlen_odd, E. cbn [negb]. by rewrite !orb_true_r.
Qed.

Lemma precompose_buffer b outlen : Z.even outlen = true -> zlen b <= outlen ->
  precompose_w (units b) (zlen b) outlen =
    Ok (if bool_decide (b = []) || negb (Nat.even (length b)) then Refused else answer outlen [] (composed (units b))).
Proof.
  intros He Ho. destruct (Nat.even (length b)) eqn:E.
  - pose proof (units_whole b E) as Hl. rewrite precompose_w_units, zlen_odd, E, (proj2 (Z.ltb_ge _ _)) by (done || lia).
    replace (Z.to_nat (zlen b / 2)) with (length (units b)) by zmod. rewrite firstn_all.
    cbn [negb]. rewrite !orb_false_r. by destruct b.
  - unfold precompose_w. rewrite odd_bit, zlen_odd, E. cbn [negb]. by rewrite !orb_true_r.
Qed.

(** How the composition is chosen. *)
Inductive form := Decomposed | Precomposed | AsIs.

#[export] Instance form_eq_dec : EqDecision form.
Proof. solve_decision. Defined.

Definition form_of (r : registry) (from_set to_set flags : Z) : form :=
  if has flags CONV_DECOMPOSE || from_option (fun to => has (Charsets.flags to) CHARSET_DECOMPOSED) false (charset_of r to_set) then Decomposed
  else if has flags CONV_PRECOMPOSE || from_option (fun from => has (Charsets.flags from) CHARSET_DECOMPOSED) true (charset_of r from_set) then Precomposed
  else AsIs.

Definition formed (f : form) (us : list Z) : list Z := match f with Decomposed => dec us | Precomposed => composed us | AsIs => us end.

Lemma composed_name_ok r from_set to_set b flags : b <> [] -> zlen b <= buffer_size - 2 -> exists u, composed_name r from_set to_set b flags = Ok u /\
  (Nat.even (length b) = true -> Forall byte b ->
    u = if bool_decide (form_of r from_set to_set flags = AsIs) || (2 * zlen (formed (form_of r from_set to_set flags) (units b)) + 2 <=? buffer_size - 2)
        then Some (bytes_of_units (formed (form_of r from_set to_set flags) (units b))) else None) /\
  forall v, u = Some v -> Forall byte b -> Forall byte v /\ zlen v <= buffer_size - 2 /\ (Nat.even (length b) = true -> Nat.even (length v) = true).
Proof.
  intros Hne Hl. unfold composed_name, form_of. rewrite decompose_buffer, precompose_buffer by done. rewrite (bool_decide_false _ Hne). cbn [orb].
  assert (forall us, exists u, Ok (match answer (buffer_size - 2) [] us with Done out _ => Some (bytes_of_units out) | _ => None end) = Ok u /\
    (u = if 2 * zlen us + 2 <=? buffer_size - 2 then Some (bytes_of_units us) else None) /\
    forall v, u = Some v -> Forall byte v /\ zlen v <= buffer_size - 2 /\ Nat.even (length v) = true) as K.
  { intros us. unfold answer. eexists. split; [done|]. replace (length (@nil Z) + length us)%nat with (length us) by done. cbn [app].
    destruct (_ <=? _) eqn:E; (split; [done|]); [|done]. intros v [= <-]. apply Z.leb_le in E.
    split_and!; [apply bytes_of_units_bytes|rewrite bytes_of_units_length; lia|apply bytes_of_units_even]. }
  destruct (has flags CONV_DECOMPOSE || _); [|destruct (has flags CONV_PRECOMPOSE || _)].
  3: { exists (Some b). split_and!; [done| |by intros v [= <-]]. intros He Hb. cbn. by rewrite bytes_of_units_of. }
  all: destruct (Nat.even (length b)) eqn:E; cbn [negb mbind res_bind formed]; [|exists None; split_and!; done].
  - destruct (K (dec (units b))) as (u & -> & Hu & Hv). exists u. split_and!; [done|done|]. intros v Hs _. apply Hv in Hs. tauto.
  - destruct (K (composed (units b))) as (u & -> & Hu & Hv). exists u. split_and!; [done|done|]. intros v Hs _. apply Hv in Hs. tauto.
Qed.
