(* ===== verification/CharcnvSafe.v ===== *)
(** * The conversion of names keeps to its buffers *)

From stdpp Require Import strings.
From S2P Require Import Prelude Bytes Utf8 Utf8Theorems Unicode UnicodeFacts UnicodeCompose UnicodeTheorems.
From S2P Require Import CharsetTables Charsets Charcnv CharsetFacts CharcnvFacts.

Section convert.
Context (r : registry).

(** What [pull_charset_flags] gives: bytes within the room, the options as they were. *)
Definition pulled_ok (destlen flags : Z) (x : errno * Z + (list Z * Z)) : Prop :=
  match x with
  | inl (_, f) => same_options flags f
  | inr (b, f) => Forall byte b /\ zlen b <= destlen /\ same_options flags f
  end.

Lemma pull_keeps from_set to_set cap_set src destlen flags : Forall byte src -> 0 <= destlen ->
  pulled_ok destlen flags (pull_charset_flags r from_set to_set cap_set src destlen flags).
Proof.
  intros Hs Hd. unfold pull_charset_flags, decode_source_ucs2, decoded_len. destruct (charset_of r from_set) as [from|] eqn:Ef; [|by cbn].
  pose proof (charset_of_charset _ _ _ Ef) as Hc.
  match goal with |- context [decode_loop ?n from ?w src flags src [] ?l flags] =>
    pose proof (decode_keeps from w src flags n src [] l flags Hs ltac:(constructor) ltac:(case_match; unfold MAXPATHLEN; lia)) as D;
    destruct (decode_loop n from w src flags src [] l flags) as [[? f]|[[decoded input] f]] end; [done|].
  destruct D as [_ Df]. cbn in Df. unfold emit_filename_chars.
  match goal with |- context [emit_loop from_set to_set ?c ?o ?n ?first ?rest ?out ?left ?fl] =>
    pose proof (emit_keeps from_set to_set c o ltac:(intros g; apply charset_of_charset) n first rest out left fl ltac:(constructor) Hd) as E;
    destruct (emit_loop from_set to_set c o n first rest out left fl) as [[? f']|[b f']] end; cbn in *; [by trans f|].
  destruct E as [(E1 & E2 & _) E3]. cbn in *. split_and!; [done|lia|by trans f].
Qed.

(** Without CONV_UNESCAPEHEX the result has whole units. *)
Lemma emit_even from_set to_set cap opt : has opt CONV_UNESCAPEHEX = false -> forall fuel first rest out outleft flags b f,
  Nat.even (length out) = true -> emit_loop from_set to_set cap opt fuel first rest out outleft flags = inr (b, f) -> Nat.even (length b) = true.
Proof.
  intros Hu. assert (forall e fl (a x : list Z * Z), forced opt e fl a = inr x -> x = a) as FE
    by (intros e fl a x; unfold forced; case_match; naive_solver).
  induction fuel as [|fuel IH]; intros first rest out outleft flags b f He; cbn [emit_loop]; [by intros [= <- <-]|].
  destruct rest as [|c rest]; [by intros [= <- <-]|]. rewrite Hu, andb_false_r. destruct (emit_char _ _ _ _ _) as [us esc].
  case_match; [intros Hx%FE; by simplify_eq|]. apply IH. by rewrite length_app, Nat.even_add, He, bytes_of_units_even.
Qed.

Lemma pull_even from_set to_set cap_set src destlen flags b f : Forall byte src -> has flags CONV_UNESCAPEHEX = false ->
  pull_charset_flags r from_set to_set cap_set src destlen flags = inr (b, f) -> Nat.even (length b) = true.
Proof.
  intros Hs Hu. unfold pull_charset_flags, decode_source_ucs2, decoded_len. destruct (charset_of r from_set) as [from|] eqn:Ef; [|done].
  pose proof (charset_of_charset _ _ _ Ef) as Hc.
  match goal with |- context [decode_loop ?n from ?w src flags src [] ?l flags] =>
    pose proof (decode_keeps from w src flags n src [] l flags Hs ltac:(constructor) ltac:(case_match; unfold MAXPATHLEN; lia)) as D;
    destruct (decode_loop n from w src flags src [] l flags) as [[? g]|[[decoded input] g]] end; [done|].
  destruct D as [_ Df]. apply emit_even; [|done]. by rewrite (same_has flags).
Qed.

(** What [convert_charset] gives. *)
Definition converted_ok (dest_len flags : Z) (dest : list Z) (x : res (option Z * list Z * Z)) : Prop :=
  exists len dest' flags', x = Ok (len, dest', flags') /\ same_options flags flags' /\ written dest_len dest dest' /\
    forall n, len = Some n -> 0 <= n <= dest_len - 2 /\ take 2 (drop (Z.to_nat n) dest') = [0; 0].

Lemma terminated n dest dest_len : 0 <= n <= dest_len - 2 -> dest_len <= zlen dest ->
  written dest_len dest (blit (Z.to_nat n) [0; 0] dest) /\ take 2 (drop (Z.to_nat n) (blit (Z.to_nat n) [0; 0] dest)) = [0; 0].
Proof.
  intros Hn Hd. split; [apply blit_written; [by apply byte_list|cbn; lia]|]. by rewrite drop_blit by lia.
Qed.

Lemma cased_ok flags b : Forall byte b -> Nat.even (length b) = true \/ (has flags CONV_TOUPPER = false /\ has flags CONV_TOLOWER = false) ->
  exists u, cased flags b = Ok u /\ Forall byte u.
Proof.
  intros Hb [He|[H1 H2]]; unfold cased.
  - rewrite He. case_match; [|by eexists]. eexists. split; [done|apply bytes_of_units_bytes].
  - rewrite H1, H2. by eexists.
Qed.

Lemma write_terminator dest_len dest0 dest flags flags' (x : res (option Z * list Z * Z)) :
  dest_len <= zlen dest -> written dest_len dest0 dest -> same_options flags flags' -> pushed_ok (dest_len - 2) dest flags' x -> 2 <= dest_len ->
  converted_ok dest_len flags dest0 ('(o_len, dest, flags) ← x;
    match o_len with
    | None => Ok (None, dest, flags)
    | Some o_len => Ok (Some o_len, blit (Z.to_nat o_len) [0; 0] dest, flags)
    end).
Proof.
  intros Hd Hw Hs (len & dest' & f & -> & Hf & (W1 & W2 & W3) & Hn) H2. cbn [mbind res_bind].
  assert (written dest_len dest dest') as W.
  { split_and!; [done| |done]. apply (f_equal (drop 2)) in W2. rewrite !drop_drop in W2. by replace (Z.to_nat (dest_len - 2) + 2)%nat with (Z.to_nat dest_len) in W2 by lia. }
  destruct len as [n|].
  - destruct (Hn n eq_refl) as [N1 N2]. destruct (terminated n dest' dest_len ltac:(lia) ltac:(lia)) as [T1 T2].
    eexists _, _, _. split_and!; [done|by trans flags'|trans dest'; [by trans dest|done]|]. intros ? [= <-]. split; [lia|done].
  - eexists _, _, _. split_and!; [done|by trans flags'|by trans dest|done].
Qed.

Lemma convert_keeps room from_set to_set cap_charset src dest dest_len flags :
  Forall byte src -> 0 <= dest_len <= zlen dest ->
  (has flags CONV_ESCAPEHEX = true -> is_Some (charset_of r cap_charset)) ->
  (has flags CONV_UNESCAPEHEX = true -> has flags CONV_TOUPPER = false /\ has flags CONV_TOLOWER = false) ->
  converted_ok dest_len flags dest (convert_charset r room from_set to_set cap_charset src dest dest_len flags).
Proof.
  intros Hs Hd Hcap Hcase. unfold convert_charset.
  pose proof (pull_keeps from_set to_set cap_charset src (buffer_size - 2) flags Hs ltac:(done)) as P.
  destruct (pull_charset_flags _ _ _ _ _ _ _) as [[e f]|[b f]] eqn:Ep; [eexists _, _, _; by split_and!|].
  destruct P as (P1 & P2 & P3). case_test; [eexists _, _, _; by split_and!|]. case_bool_decide as Eb.
  { destruct (terminated 0 dest dest_len ltac:(lia) ltac:(lia)) as [T1 T2].
    eexists _, _, _. split_and!; [done|done|done|]. intros n [= <-]. split; [lia|done]. }
  destruct (composed_name_ok r from_set to_set b f Eb P2) as (u & -> & _ & Hu). cbn [mbind res_bind].
  destruct u as [u|]; [|eexists _, _, _; by split_and!]. destruct (Hu u eq_refl P1) as (U1 & U2 & U3). rewrite (proj2 (Z.ltb_ge _ _)) by done.
  destruct (cased_ok f u U1) as (v & -> & Hv).
  { destruct (has flags CONV_UNESCAPEHEX) eqn:Eu; [right|left].
    - rewrite !(same_has flags f) by done. by apply Hcase.
    - apply U3. by apply (pull_even from_set to_set cap_charset src (buffer_size - 2) flags b f). }
  cbn [mbind res_bind]. unfold push_charset_flags. destruct (charset_of r to_set) as [to|] eqn:Et.
  - apply write_terminator with (dest := dest) (flags' := f); [lia|done|done| |lia]. pose proof (charset_of_charset _ _ _ Et) as Hto. apply push_loop_safe; try done; try lia.
    + intros g. apply charset_of_charset.
    + rewrite (same_has flags f) by done. done.
    + unfold enough. case_match; lia.
  - eexists _, _, _. by split_and!.
Qed.

(** The size of the array decoded, in bytes. *)
Definition DECODED_SIZE : Z := 3 * (MAXPATHLEN + 1) * 2.

(** C15: A conversion between any two of the built-in sets keeps to its buffers whatever the
    name.  It ends and writes inside the first [dest_len] bytes of the destination only, and
    a result leaves room for the two NULs behind it, which are there; of the flags, it
    changes the two that report.  Of the arrays of its phases, what the decoder leaves in
    decoded[] is within its [DECODED_SIZE] bytes, the bytes of a run of escapes are within the
    [MAXPATHLEN] of hex[], and the units that [emit_filename_chars] writes are within the
    first buffer less its last unit.  A call that asks for escapes in its result names a
    known set for them, and a call that reads escapes folds no case. *)
Theorem convert_charset_safe room from_set to_set cap_charset src dest dest_len flags :
  Forall byte src -> 0 <= dest_len <= zlen dest ->
  (has flags CONV_ESCAPEHEX = true -> is_Some (charset_of r cap_charset)) ->
  (has flags CONV_UNESCAPEHEX = true -> has flags CONV_TOUPPER = false /\ has flags CONV_TOLOWER = false) ->
  converted_ok dest_len flags dest (convert_charset r room from_set to_set cap_charset src dest dest_len flags) /\
  (forall d i f, decode_source_ucs2 (charset_of r from_set) (from_set =? CH_UCS2) src (decoded_len flags) flags = inr (d, i, f) -> zlen d <= DECODED_SIZE) /\
  (forall fuel rest, zlen (unescape fuel rest []).1.1 <= MAXPATHLEN) /\
  (forall b f, pull_charset_flags r from_set to_set cap_charset src (buffer_size - 2) flags = inr (b, f) -> zlen b <= buffer_size - 2).
Proof.
  intros Hs Hd Hcap Hcase. split; [by apply convert_keeps|]. split; [|split].
  - intros d i f. unfold decode_source_ucs2. destruct (charset_of r from_set) as [from|] eqn:Ef; [|done]. pose proof (charset_of_charset _ _ _ Ef) as Hc.
    intros Hrun. apply decode_room in Hrun; [|done|done|constructor|unfold decoded_len, MAXPATHLEN; case_match; lia].
    cbn [length] in Hrun. unfold decoded_len, DECODED_SIZE in *. revert Hrun. case_match; unfold MAXPATHLEN; lia.
  - intros fuel rest. apply unescape_fits. cbn. unfold MAXPATHLEN. lia.
  - intros b f Ep. pose proof (pull_keeps from_set to_set cap_charset src (buffer_size - 2) flags Hs ltac:(done)) as P. rewrite Ep in P. apply P.
Qed.

End convert.

(** ** Without escapes *)

(** The one push of a conversion that writes no escapes: its error and its end. *)
Definition one_push (to : charset_functions) (src : list Z) (destlen : Z) : option errno * conv :=
  if (length src <? 2)%nat then (None, Conv src [] destlen) else push to (Conv src [] destlen).

Lemma push_once r room to to_set cap_set src dest destlen flags : charset_of r to_set = Some to -> Forall byte src -> 0 <= destlen ->
  has flags CONV_ESCAPEHEX = false ->
  push_charset_flags r room to_set cap_set src dest destlen flags =
    let '(e, s) := one_push to src destlen in
    let ignored := bool_decide (e = Some EILSEQ) && has flags CONV_IGNORE in
    Ok (if ignored || bool_decide (inbuf s = []) || has flags CONV_FORCE then Some (zlen (outbuf s)) else None,
        blit 0 (outbuf s) dest, if ignored then Z.lor flags CONV_REQMANGLE else flags).
Proof.
  intros Et Hs Hd He. unfold push_charset_flags, one_push. rewrite Et. pose proof (charset_of_charset _ _ _ Et) as Hc.
  destruct (length src <? 2)%nat eqn:El.
  - apply Nat.ltb_lt in El. replace (3 * length src + 3)%nat with (S (3 * length src + 2)) by lia. cbn [push_loop negb].
    rewrite (proj2 (Z.leb_gt _ _)) by lia. unfold push_end. cbn. by rewrite Z.sub_diag.
  - apply Nat.ltb_ge in El. replace (3 * length src + 3)%nat with (S (S (S (3 * length src)))) by lia.
    cbn [push_loop negb]. rewrite (proj2 (Z.leb_le _ _)) by lia. rewrite bool_decide_false by (intros ->; cbn in El; lia).
    destruct (push to _) as [e s] eqn:E. apply (lawful_keeps _ _ push_any) in E as (_ & _ & K3 & K4 & _ & K6 & _); [|done|constructor|done]. cbn in K4.
    replace (destlen - outbytesleft s) with (zlen (outbuf s)) by lia. unfold push_end.
    replace (destlen - outbytesleft s) with (zlen (outbuf s)) by lia. rewrite He. destruct e as [[]|]; cbn [andb]; rewrite ?bool_decide_true by done.
    + cbn [andb]. by destruct (has flags CONV_IGNORE).
    + done.
    + done.
    + rewrite K6 by done. destruct (3 * length src)%nat eqn:E3; [lia|]. cbn [push_loop negb length]. unfold push_end. cbn. by replace (destlen - outbytesleft s) with (zlen (outbuf s)) by lia.
Qed.

Lemma written_front bs d : take (length bs) (blit 0 bs d) = bs.
Proof. rewrite blit_0. apply take_app_length. Qed.

Lemma convert_charset_safe_witness :
  converted_ok 10 CONV_IGNORE (replicate 12 0) (convert_charset registry_init true CH_UTF8 CH_UTF8_MAC CH_MAC [0x61; 0xC3; 0xA9] (replicate 12 0) 10 CONV_IGNORE).
Proof.
  apply (convert_charset_safe registry_init true CH_UTF8 CH_UTF8_MAC CH_MAC [0x61; 0xC3; 0xA9] (replicate 12 0) 10 CONV_IGNORE);
    [by apply byte_list|cbn; lia|done|done].
Defined.
