(* ===== verification/Punctuation.v ===== *)
(** * The punctuation of file names under composition and case folding

    A dot, a slash or a colon is in the composition, the decomposition or the folded form
    of a name only when it is in the name: none of the tables makes one. *)

From S2P Require Import Prelude Bytes Unicode UnicodeTables UnicodeFacts UnicodeCompose UnicodeTheorems UnicodeCase.
From S2P Require Import Utf8 CharsetTables Charsets Charcnv CharsetFacts CharcnvFacts.

Definition punct (p : Z) : bool := (p =? DOT) || (p =? SLASH) || (p =? COLON).

Lemma punct_small p : punct p = true -> 46 <= p < 59.
Proof. unfold punct, DOT, SLASH, COLON. lia. Qed.

(** ** Decomposition *)

Lemma base_not_punct r b c : composes r b c -> punct b = false.
Proof.
  intros H. pose proof (forallb_elem (fun e => negb (punct (base e))) precompositions (Comp r b c) ltac:(vm_compute; reflexivity) H) as K.
  by apply negb_true_iff in K.
Qed.

(** The elements are units, and punctuation is the unit itself. *)
Lemma dec_unit_punct n : forall u x, length (dec_unit u) = n -> unit16 u -> x ∈ dec_unit u -> unit16 x /\ (punct x = true -> x = u).
Proof.
  induction n as [n IH] using lt_wf_ind. intros u x Hl Hu Hx. destruct (hangul u) eqn:Hh.
  - assert (0x1100 <= x < 2 ^ 16) as Hr; [|split; [unfold unit16; lia|intros ?%punct_small; lia]].
    unfold dec_unit, decompose_unit in Hx. revert Hx. fold (hangul u). rewrite Hh. unfold hangul, SBASE, SCOUNT in Hh. case_test; [lia|]. unfold decompose_hangul.
    unfold LBASE, VBASE, TBASE, SBASE, NCOUNT, TCOUNT. case_test; intros Hx; set_unfold in Hx; zmod.
  - destruct (do_decomposition_cases u) as [(b & c & Hc & _)|[_ Hn]].
    + destruct (dec_unit_composes _ _ _ Hc) as [E _]. rewrite E in Hx. pose proof (composes_range _ _ _ Hc) as (_ & Rb & Rc). apply elem_of_app in Hx as [Hx|Hx].
      * destruct (IH (length (dec_unit b)) ltac:(rewrite <- Hl, E, length_app; cbn; lia) b x eq_refl ltac:(unfold unit16; lia) Hx) as [I1 I2].
        split; [done|]. intros Hp. rewrite (I2 Hp), (base_not_punct _ _ _ Hc) in Hp. done.
      * apply list_elem_of_singleton in Hx as ->. split; [unfold unit16; lia|intros ?%punct_small; lia].
    + rewrite dec_unit_plain in Hx by done. by apply list_elem_of_singleton in Hx as ->.
Qed.

Lemma dec_pair_high r b c : composes_sp r b c -> Forall (fun x => 0xD7C0 <= x < 2 ^ 16) (dec_pair r).
Proof.
  intros H. pose proof (forallb_elem (fun e => forallb (fun x => (0xD7C0 <=? x) && (x <? 2 ^ 16)) (dec_pair (replacement e))) precompositions_sp (Comp r b c)
    ltac:(vm_compute; reflexivity) H) as K. cbn [replacement] in K. rewrite forallb_forall in K. apply Forall_forall. intros x Hx%list_elem_of_In%K. lia.
Qed.

Lemma dec_pair_punct hi lo x : is_high hi = true -> unit16 lo -> x ∈ dec_pair (pair hi lo) -> unit16 x /\ (punct x = true -> x = lo).
Proof.
  intros Hh Ul Hx. apply is_high_range in Hh. assert (unit16 hi) as Uh by (unfold unit16; lia).
  destruct (do_decomposition_sp_cases (pair hi lo)) as [(b & c & Hc & _)|[_ Hn]].
  - pose proof (dec_pair_high _ _ _ Hc) as Hf. rewrite Forall_forall in Hf. apply Hf in Hx. split; [unfold unit16; lia|intros ?%punct_small; lia].
  - rewrite dec_pair_plain, pair_hi, pair_lo in Hx by done. set_unfold in Hx. split; [unfold unit16 in *; lia|intros ?%punct_small; lia].
Qed.

Lemma dec_punct n : forall us x, (length us <= n)%nat -> Forall unit16 us -> x ∈ dec us -> unit16 x /\ (punct x = true -> x ∈ us).
Proof.
  induction n as [|n IH]; intros us x Hn Hu; (destruct us as [|u us]; [set_solver|]); cbn in Hn; [lia|]. cbn [dec].
  apply Forall_cons in Hu as [Hu Hus]. destruct (is_high u) eqn:Hh.
  - destruct us as [|lo us]; [by intros ->%list_elem_of_singleton; split; [|left]|]. cbn in Hn. apply Forall_cons in Hus as [Hl Hus]. intros [Hx|Hx]%elem_of_app.
    + apply dec_pair_punct in Hx as [? Hx]; [|done..]. split; [done|]. intros ->%Hx. set_solver.
    + apply IH in Hx as [? Hx]; [|lia|done]. split; [done|]. intros ?%Hx. by do 2 right.
  - intros [Hx|Hx]%elem_of_app.
    + apply (dec_unit_punct (length (dec_unit u))) in Hx as [? Hx]; [|done..]. split; [done|]. intros ->%Hx. left.
    + apply IH in Hx as [? Hx]; [|lia|done]. split; [done|]. intros ?%Hx. by right.
Qed.

(** ** Composition *)

Lemma compose_pairs_punct n : forall p rest, (length rest <= n)%nat -> is_pair p = true -> Forall unit16 rest ->
  is_pair (compose_pairs p rest).1 = true /\ exists k, (compose_pairs p rest).2 = drop k rest.
Proof.
  induction n as [|n IH]; intros p rest Hn Hp Hu; [destruct rest; [|cbn in Hn; lia]; split; [done|by exists 0%nat]|].
  destruct rest as [|c1 [|c2 rest]]; [split; [done|by exists 0%nat]..|]. cbn [compose_pairs]. case_test; [split; [done|by exists 0%nat]|].
  apply Forall_cons in Hu as [U1 [U2 Hu]%Forall_cons]. pose proof (is_pair_range p Hp) as (_ & _ & Rp).
  destruct (do_precomposition_sp_cases p (pair c1 c2)) as [[_ Hc]|[E0 _]]; [done|rewrite pair_eq by done; unfold unit16 in *; lia| |congruence].
  apply composes_sp_pairs in Hc as (Hr & _). cbn in Hn. destruct (IH _ rest ltac:(lia) Hr Hu) as (I1 & k & I2). split; [done|]. exists (2 + k)%nat. exact I2.
Qed.

Lemma join_high b c rest : is_high b = true ->
  match join b c rest with
  | Join _ => False
  | Pair p rest' => is_low c = true /\ (p, rest') = compose_pairs (pair b c) rest
  | Apart => True
  end.
Proof.
  intros Hh. pose proof Hh as R. apply is_high_range in R. unfold join. rewrite Hh. unfold LBASE, LCOUNT, SBASE, SCOUNT.
  repeat (case_test; try lia; try done). by destruct (compose_pairs (pair b c) rest).
Qed.

Lemma join_range b c r :
  composes r b c \/
  (exists l v, 0 <= l < 19 /\ 0 <= v <= 21 /\ b = LBASE + l /\ c = VBASE + v /\ r = SBASE + (l * VCOUNT + v) * TCOUNT) \/
  (exists t, hangul b = true /\ (b - SBASE) mod TCOUNT = 0 /\ 0 < t < TCOUNT /\ c = TBASE + t /\ r = b + t) ->
  unit16 r /\ 0x80 <= r.
Proof.
  unfold unit16. intros [J|[(l & v & J)|(t & Hh & _ & Ht & _ & ->)]].
  - apply composes_range in J. lia.
  - unfold SBASE, VCOUNT, TCOUNT in J. lia.
  - unfold hangul, SBASE, SCOUNT, TCOUNT in *. lia.
Qed.

Lemma comp_punct n : forall b rest x, (length rest <= n)%nat -> Forall unit16 (b :: rest) -> x ∈ comp b rest -> unit16 x /\ (punct x = true -> x ∈ b :: rest).
Proof.
  induction n as [|n IH]; intros b rest x Hn Hu Hx;
    (destruct rest as [|c rest]; [rewrite comp_nil in Hx; apply Forall_cons in Hu as [? _]; by apply list_elem_of_singleton in Hx as ->; split; [|left]|]);
    cbn in Hn; [lia|].
  apply Forall_cons in Hu as [Ub Hu]. pose proof Hu as [Uc Hr]%Forall_cons. rewrite comp_cons in Hx.
  assert (x = b \/ x ∈ comp c rest -> unit16 x /\ (punct x = true -> x ∈ b :: c :: rest)) as apart.
  { intros [->|Hy]; [split; [done|left]|]. apply IH in Hy as [? Hy]; [|lia|done]. split; [done|]. intros ?%Hy. by right. }
  destruct (is_high b) eqn:Hh.
  - pose proof (join_high b c rest Hh) as J. destruct (join b c rest) as [|p rest'|]; [done| |].
    + destruct J as [Hl J]. pose proof (compose_pairs_punct (length rest) (pair b c) rest ltac:(lia) (is_pair_pair _ _ Hh Hl) Hr) as K.
      rewrite <- J in K. cbn in K. destruct K as [K1 [k ->]]. apply is_pair_range in K1 as (R1 & R2 & _).
      apply elem_of_cons in Hx as [->|Hx]; [split; [unfold unit16; lia|intros ?%punct_small; lia]|].
      apply elem_of_cons in Hx as [->|Hx]; [split; [unfold unit16; lia|intros ?%punct_small; lia]|].
      assert (Forall unit16 (drop k rest)) as Hd by (by apply Forall_drop). assert (length (drop k rest) <= length rest)%nat as Hk by (rewrite length_drop; lia).
      assert (drop k rest ⊆ rest) as Hsub by (intros y Hy; rewrite <- (take_drop k rest); set_solver). destruct (drop k rest) as [|b' r']; [by apply not_elem_of_nil in Hx|].
      cbn in Hk. apply IH in Hx as [? Hx]; [|lia|done]. split; [done|]. intros ?%Hx. do 2 right. by apply Hsub.
    + apply apart. by apply elem_of_cons in Hx.
  - pose proof (join_cases b c rest Hh Ub Uc) as J. destruct (join b c rest) as [r|p rest'|]; [|done|].
    + assert (unit16 r /\ 0x80 <= r) as [Ur Rr] by (clear -J; by apply join_range in J).
      apply IH in Hx as [? Hx]; [|lia|by constructor]. split; [done|]. intros Hp. pose proof (punct_small x Hp). specialize (Hx Hp).
      apply elem_of_cons in Hx as [->|Hx]; [lia|by do 2 right].
    + apply apart. by apply elem_of_cons in Hx.
Qed.

Lemma formed_punct f us x : Forall unit16 us -> x ∈ formed f us -> unit16 x /\ (punct x = true -> x ∈ us).
Proof.
  intros Hu. destruct f; cbn; [by apply (dec_punct (length us))| |].
  - destruct us as [|b us]; [by intros ?%not_elem_of_nil|]. cbn. by apply (comp_punct (length us)).
  - intros Hx. split; [|done]. rewrite Forall_forall in Hu. by apply Hu.
Qed.

Lemma formed_units f us : Forall unit16 us -> Forall unit16 (formed f us).
Proof. intros Hu. apply Forall_forall. intros x Hx. by apply formed_punct in Hx as [? _]. Qed.

(** ** Case *)

Definition upper_ranges_sp : list (Z * Z) :=
  [(0xD801DC00, 0xD801DC7F); (0xD801DCC0, 0xD801DCFF); (0xD801DD80, 0xD801DDBF); (0xD803DCC0, 0xD803DCFF); (0xD803DD40, 0xD803DD7F);
   (0xD803DD40, 0xD803DDBF); (0xD806DCC0, 0xD806DCFF); (0xD81BDE40, 0xD81BDE7F); (0xD81BDE40, 0xD81BDEFF); (0xD83ADD00, 0xD83ADD7F)].

Lemma toupper_sp_pair p : is_pair p = true -> is_pair (toupper_sp p) = true.
Proof.
  intros H. destruct (outside_or_member upper_ranges_sp p) as [Ho|Hm].
  - assert (toupper_sp p = p) as ->; [|done]. clear H. revert Ho. unfold toupper_sp, upper_ranges_sp. outside_tests.
  - exact (forallb_elem (fun v => is_pair (toupper_sp v)) (members upper_ranges_sp) p ltac:(vm_compute; reflexivity) Hm).
Qed.

(** A case conversion that makes no punctuation and keeps pairs. *)
Class KeepsPunct (to_w to_sp : Z -> Z) : Prop := {
  to_w_punct u : unit16 u -> unit16 (to_w u) /\ (punct (to_w u) = true -> to_w u = u);
  to_sp_pair p : is_pair p = true -> is_pair (to_sp p) = true
}.

#[export] Instance lower_keeps : KeepsPunct tolower_w tolower_sp.
Proof.
  split; [|apply tolower_sp_pair]. intros u Hu.
  pose proof (unit_check (fun u => (0 <=? tolower_w u) && (tolower_w u <? 65536) && (negb (punct (tolower_w u)) || (tolower_w u =? u))) ltac:(vm_compute; reflexivity) u Hu) as K.
  cbv beta in K. unfold unit16. destruct (punct (tolower_w u)); cbn in K; lia.
Qed.

#[export] Instance upper_keeps : KeepsPunct toupper_w toupper_sp.
Proof.
  split; [|apply toupper_sp_pair]. intros u Hu.
  pose proof (unit_check (fun u => (0 <=? toupper_w u) && (toupper_w u <? 65536) && (negb (punct (toupper_w u)) || (toupper_w u =? u))) ltac:(vm_compute; reflexivity) u Hu) as K.
  cbv beta in K. unfold unit16. destruct (punct (toupper_w u)); cbn in K; lia.
Qed.

Lemma change_punct to_w to_sp `{!KeepsPunct to_w to_sp} n : forall us x, (length us <= n)%nat -> Forall unit16 us ->
  x ∈ (change_w to_w to_sp us).1 -> punct x = true -> x ∈ us.
Proof.
  induction n as [|n IH]; intros us x Hn Hu Hx Hp; (destruct us as [|u us]; [done|]); cbn in Hn; [lia|].
  pose proof (punct_small x Hp) as Hs. apply Forall_cons in Hu as [Uu Hu]. cbn [change_w] in Hx.
  assert (forall y, x ∈ y :: (change_w to_w to_sp us).1 -> x = y \/ x ∈ us) as next.
  { intros y [->|Hy]%elem_of_cons; [by left|right]. apply IH; [lia|done..]. }
  assert (x ∈ u :: (change_w to_w to_sp us).1 -> x ∈ u :: us) as same by (intros [->|?]%next; [left|by right]).
  destruct (is_high u) eqn:Hh.
  - destruct us as [|lo us]; [done|]. destruct (is_low lo) eqn:Hl; [|destruct (change_w _ _ (lo :: us)); by apply same].
    destruct (negb _); [|destruct (change_w _ _ (lo :: us)); by apply same]. cbn [fst] in Hx.
    pose proof (to_sp_pair _ (is_pair_pair _ _ Hh Hl)) as (R1 & R2 & _)%is_pair_range.
    apply elem_of_cons in Hx as [->|Hx]; [lia|]. apply elem_of_cons in Hx as [->|Hx]; [lia|].
    do 2 right. apply IH; [cbn in Hn; lia|by apply Forall_cons in Hu as [_ ?]|done|done].
  - destruct (change_w _ _ us) as [r c] eqn:Er. cbn [fst] in *. destruct (negb _) eqn:Ee; cbn [fst] in Hx; [|by apply same].
    apply elem_of_cons in Hx as [->|Hx]; [|apply same; by right]. apply (proj2 (to_w_punct u Uu)) in Hp. rewrite Hp in Ee. lia.
Qed.

Lemma fold_case_punct to_w to_sp `{!KeepsPunct to_w to_sp} us x : Forall unit16 us -> x ∈ fold_case (change_w to_w to_sp) us -> punct x = true -> x ∈ us.
Proof.
  intros Hu Hx Hp. unfold fold_case in Hx. set (n := before_nul us) in *. clearbody n. rewrite <- (take_drop n us). apply elem_of_app.
  apply elem_of_app in Hx as [Hx|Hx]; [left|by right]. apply change_punct with (n := length (take n us)) in Hx; [done|done|lia|by apply Forall_take|done].
Qed.

Lemma change_units to_w to_sp `{!KeepsPunct to_w to_sp} n : forall us, (length us <= n)%nat -> Forall unit16 us -> Forall unit16 (change_w to_w to_sp us).1.
Proof.
  induction n as [|n IH]; intros us Hn Hu; (destruct us as [|u us]; [done|]); cbn in Hn; [lia|].
  apply Forall_cons in Hu as [Uu Hu]. cbn [change_w]. pose proof (IH us ltac:(lia) Hu) as Hr.
  assert (Forall unit16 (u :: (change_w to_w to_sp us).1)) as same by (by constructor).
  destruct (is_high u) eqn:Hh.
  - destruct us as [|lo us]; [done|]. destruct (is_low lo) eqn:Hl; [|by destruct (change_w _ _ (lo :: us))].
    destruct (negb _); [|by destruct (change_w _ _ (lo :: us))]. cbn [fst].
    pose proof (to_sp_pair _ (is_pair_pair _ _ Hh Hl)) as (R1 & R2 & _)%is_pair_range. apply Forall_cons in Hu as [_ Hu].
    repeat apply Forall_cons_2; [unfold unit16; lia..|apply IH; [cbn in Hn; lia|done]].
  - destruct (change_w _ _ us) as [r c]. cbn [fst] in *. destruct (negb _); cbn [fst]; [|done].
    apply Forall_cons_2; [by apply to_w_punct|done].
Qed.

Lemma cased_punct flags b v x : Forall byte b -> Nat.even (length b) = true -> cased flags b = Ok v -> x ∈ units v -> punct x = true -> x ∈ units b.
Proof.
  intros Hb He. unfold cased. rewrite He. case_match; [|by intros [= <-]]. intros [= <-] Hx Hp.
  pose proof (units_units b Hb) as Hu. change (Forall unit16 (units b)) in Hu. set (us := units b) in *. clearbody us.
  assert (forall to_w to_sp, KeepsPunct to_w to_sp -> x ∈ units (bytes_of_units (fold_case (change_w to_w to_sp) us)) -> x ∈ us) as K.
  { intros to_w to_sp Hk Hx'. rewrite units_of_bytes in Hx'; [by apply fold_case_punct in Hx'|]. unfold fold_case. apply Forall_app.
    split; [|by apply Forall_drop]. apply (change_units _ _ (length (take (before_nul us) us))); [lia|by apply Forall_take]. }
  revert Hx. destruct (has flags CONV_TOUPPER); [apply (K toupper_w toupper_sp), _|apply (K tolower_w tolower_sp), _].
Qed.
