(* ===== verification/CharcnvTheorems.v ===== *)
(** * What the conversion of names makes of their punctuation *)

From stdpp Require Import strings.
From S2P Require Import Prelude Bytes Utf8 Utf8Theorems Unicode UnicodeFacts UnicodeCompose UnicodeTheorems.
From S2P Require Import CharsetTables Charsets Charcnv CharsetFacts CharcnvFacts CharcnvSafe Punctuation.

Section convert.
Context (r : registry) (room : bool) (from_set to_set cap_charset : Z) (src dest : list Z) (dest_len flags : Z).
Context (Hsrc : Forall byte src) (Hdest : 0 <= dest_len <= zlen dest) (Hesc : has flags CONV_ESCAPEHEX = false).

(** A conversion that writes no escapes gives what its last phase wrote. *)
Lemma convert_inv n dest' flags' :
  convert_charset r room from_set to_set cap_charset src dest dest_len flags = Ok (Some n, dest', flags') ->
  exists b f, pull_charset_flags r from_set to_set cap_charset src (buffer_size - 2) flags = inr (b, f) /\ same_options flags f /\ Forall byte b /\ 2 <= dest_len /\
    (take (Z.to_nat n) dest' = [] \/
     exists u v to e s, b <> [] /\ zlen b <= buffer_size - 2 /\ composed_name r from_set to_set b f = Ok (Some u) /\ cased f u = Ok v /\ charset_of r to_set = Some to /\
       Forall byte v /\ one_push to v (dest_len - 2) = (e, s) /\ n = zlen (outbuf s) /\ take (Z.to_nat n) dest' = outbuf s).
Proof using Hsrc Hdest Hesc.
  unfold convert_charset. pose proof (pull_keeps r from_set to_set cap_charset src (buffer_size - 2) flags Hsrc ltac:(done)) as P.
  destruct (pull_charset_flags _ _ _ _ _ _ _) as [[e f]|[b f]] eqn:Ep; [done|]. destruct P as (P1 & P2 & P3). case_test; [done|].
  case_bool_decide as Eb; [intros [= <- <- <-]; exists b, f; split_and!; [done..|by left]|].
  destruct (composed_name_ok r from_set to_set b f Eb P2) as (u & Eu & _ & Hu). rewrite Eu. cbn [mbind res_bind].
  destruct u as [u|]; [|done]. destruct (Hu u eq_refl P1) as (U1 & U2 & U3). rewrite (proj2 (Z.ltb_ge _ _)) by done.
  destruct (cased f u) as [v|] eqn:Ev; [|done]. cbn [mbind res_bind].
  assert (Forall byte v) as Hv by (revert Ev; unfold cased; repeat case_match; intros; simplify_eq; first [apply bytes_of_units_bytes|done]).
  destruct (charset_of r to_set) as [to|] eqn:Et; [|by unfold push_charset_flags; rewrite Et].
  rewrite (push_once r room to) by first [done|lia|by rewrite (same_has flags f)]. destruct (one_push to v (dest_len - 2)) as [e s] eqn:Eo.
  cbn zeta. cbn [mbind res_bind]. destruct (_ || _); [|done]. intros [= <- <- <-]. exists b, f. split_and!; [done..|]. right. exists u, v, to, e, s. split_and!; try done.
  rewrite Nat2Z.id. unfold blit at 1. rewrite take_app_le by (rewrite length_take_le; [lia|]; rewrite blit_0, length_app; lia).
  rewrite take_take, Nat.min_id. apply written_front.
Qed.

End convert.

(** ** Slashes *)

Lemma pieces_slash ps rest : Forall (fun p => p.1 <> [] /\ Forall byte p.2 /\ slash_for_slash p.1 p.2) ps -> SLASH ∈ ps ≫= snd -> SLASH ∈ units ((ps ≫= fst) ++ rest).
Proof.
  induction 1 as [|[c b] ps (_ & _ & He & _ & Hsl) _ IH]; cbn [mbind list_bind fst snd]; [by intros ?%not_elem_of_nil|].
  rewrite <- app_assoc. intros [Hin|Hin]%elem_of_app; rewrite buffer_units_app by done; apply elem_of_app; [left; by apply Hsl|right; by apply IH].
Qed.

Lemma one_push_slash to `{!ByteCharset to} v destlen e s : Forall byte v -> 0 <= destlen -> one_push to v destlen = (e, s) -> SLASH ∈ outbuf s -> SLASH ∈ units v.
Proof.
  intros Hv Hd. unfold one_push. case_match; [intros [= <- <-]; by intros ?%not_elem_of_nil|]. intros E. apply push_lawful in E as (ps & (T1 & T2 & _) & HF & _); [|done|done].
  cbn in T1, T2. rewrite T2, T1. by apply pieces_slash.
Qed.

Lemma emit_slash from_set to_set cap opt : is_mac from_set = true -> is_mac to_set = false -> has opt CONV_UNESCAPEHEX = false ->
  forall fuel first rest out outleft flags b f, Forall unit16 rest -> Nat.even (length out) = true -> SLASH ∉ units out ->
  emit_loop from_set to_set cap opt fuel first rest out outleft flags = inr (b, f) -> SLASH ∉ units b.
Proof.
  intros Hf Ht Hu. assert (forall e fl (a x : list Z * Z), forced opt e fl a = inr x -> x = a) as FE
    by (intros e fl a x; unfold forced; case_match; naive_solver).
  induction fuel as [|fuel IH]; intros first rest out outleft flags b f Hr He Hs; cbn [emit_loop]; [by intros [= <- <-]|].
  destruct rest as [|c rest]; [by intros [= <- <-]|]. apply Forall_cons in Hr as [Uc Hr]. rewrite Hu, andb_false_r.
  assert (Forall unit16 (emit_char from_set to_set opt first c).1 /\ SLASH ∉ (emit_char from_set to_set opt first c).1) as [E1 E2].
  { unfold emit_char. rewrite Hf, Ht, andb_false_r. cbn [andb negb]. rewrite !andb_true_r. unfold SLASH, COLON, DOT, unit16 in *.
    repeat (case_test; cbn [fst]); (split; [repeat constructor; lia|set_unfold; lia]). }
  destruct (emit_char _ _ _ _ _) as [us esc]. cbn [fst] in *. case_match; [intros Hx%FE; by simplify_eq|].
  apply IH; [done|by rewrite length_app, Nat.even_add, He, bytes_of_units_even|]. rewrite buffer_units_app by done.
  rewrite units_of_bytes by done. set_solver.
Qed.

Lemma pull_slash r from_set to_set cap_set src destlen flags b f : Forall byte src -> is_mac from_set = true -> is_mac to_set = false ->
  has flags CONV_UNESCAPEHEX = false -> pull_charset_flags r from_set to_set cap_set src destlen flags = inr (b, f) -> SLASH ∉ units b.
Proof.
  intros Hs Hf Ht Hu. unfold pull_charset_flags, decode_source_ucs2, decoded_len. destruct (charset_of r from_set) as [from|] eqn:Ef; [|done].
  pose proof (charset_of_charset _ _ _ Ef) as Hc.
  match goal with |- context [decode_loop ?n from ?w src flags src [] ?l flags] =>
    pose proof (decode_keeps from w src flags n src [] l flags Hs ltac:(constructor) ltac:(case_match; unfold MAXPATHLEN; lia)) as D;
    destruct (decode_loop n from w src flags src [] l flags) as [[? g]|[[decoded input] g]] end; [done|].
  destruct D as [(D1 & _) Df]. cbn in D1, Df. apply emit_slash; [done|done|by rewrite (same_has flags)|by apply units_units|done|set_solver].
Qed.

(** A name of a Mac set converted to a set of bytes that is none is free of slashes. *)
Lemma convert_no_slash r room from_set to_set cap_charset src dest dest_len flags n dest' flags' to :
  is_mac from_set = true -> is_mac to_set = false -> charset_of r to_set = Some to -> name to <> "UCS-2"%string ->
  has flags CONV_ESCAPEHEX = false -> has flags CONV_UNESCAPEHEX = false -> Forall byte src -> 0 <= dest_len <= zlen dest ->
  convert_charset r room from_set to_set cap_charset src dest dest_len flags = Ok (Some n, dest', flags') -> SLASH ∉ take (Z.to_nat n) dest'.
Proof.
  intros Hf Ht Et Hn He Hu Hs Hd H. apply convert_inv in H as (b & f & Ep & So & Hb & Hd2 & [->|(u & v & to' & e & s & Hne & Hl & Ec & Ev & Et' & Hv & Eo & _ & ->)]);
    [set_solver| |done..]. simplify_eq. pose proof (charset_of_bytes _ _ _ Et Hn) as Hto. intros Hin.
  apply (one_push_slash to v (dest_len - 2) e s Hv ltac:(lia) Eo) in Hin.
  pose proof (pull_even r from_set to_set cap_charset src _ flags b f Hs Hu Ep) as Hev.
  destruct (composed_name_ok r from_set to_set b f Hne Hl) as (u' & Eu & Hu' & Hu2). rewrite Ec in Eu. injection Eu as <-.
  destruct (Hu2 u eq_refl Hb) as (U1 & _ & U3). apply (cased_punct f u v) in Hin; [|done|by apply U3|done|done].
  specialize (Hu' Hev Hb). destruct (_ || _); [|done]. injection Hu' as ->. pose proof (units_units b Hb) as Hub.
  rewrite units_of_bytes in Hin by (by apply formed_units). apply formed_punct in Hin as [_ Hin]; [|done].
  by apply (pull_slash r from_set to_set cap_charset src (buffer_size - 2) flags b f); [..|apply Hin].
Qed.
