(* ===== verification/Mangle.v ===== *)
(** * Mangled names, etc/afpd/mangle.c and the name conversions of etc/afpd/desktop.c

    A name the client cannot take is shortened and tagged with the CNID of its object
    ([mangle]); a name from the client that carries such a tag is resolved to the name of
    the object ([private_demangle]).  [utompath] and [mtoupath] convert names in the two
    directions.  A name is the list of its bytes without the NUL. *)

From stdpp Require Import strings.
From S2P Require Import Prelude Bytes Utf8 CharsetTables Charsets Charcnv.

Definition MANGLE_CHAR : Z := 35.
Definition MAX_EXT_LENGTH : Z := 5.
Definition MANGLE_LENGTH : Z := 9.
Definition MACFILELEN : Z := 31.
Definition UTF8FILELEN_EARLY : Z := 255.
Definition CNID_INVALID : Z := 0.
Definition CNID_START : Z := 17.
Definition CNID_MAX_PATH_LEN : Z := 12 + MAXPATHLEN + 1.

(** The part of struct vol that names depend on; [v_utf8] is [utf8_encoding] of its session. *)
Record vol := Vol {
  v_volcharset : Z;
  v_maccharset : Z;
  v_mtou_flags : Z;
  v_utom_flags : Z;
  max_filename : Z;
  v_utf8 : bool;
}.

(** The conversion flags of a volume, from its options and its case folding. *)
Definition AFPVOL_EILSEQ : Z := Z.shiftl 1 20.
Definition AFPVOL_MTOUUPPER : Z := Z.shiftl 1 0.
Definition AFPVOL_MTOULOWER : Z := Z.shiftl 1 1.
Definition AFPVOL_UTOMUPPER : Z := Z.shiftl 1 2.
Definition AFPVOL_UTOMLOWER : Z := Z.shiftl 1 3.

Definition mtou_flags (v_flags v_casefold : Z) : Z :=
  let f := if has v_flags AFPVOL_EILSEQ then CONV__EILSEQ else 0 in
  if has v_casefold AFPVOL_MTOUUPPER then Z.lor f CONV_TOUPPER
  else if has v_casefold AFPVOL_MTOULOWER then Z.lor f CONV_TOLOWER else f.

Definition utom_flags (v_flags v_casefold : Z) : Z :=
  let f := if has v_casefold AFPVOL_UTOMUPPER then Z.lor CONV_IGNORE CONV_TOUPPER
           else if has v_casefold AFPVOL_UTOMLOWER then Z.lor CONV_IGNORE CONV_TOLOWER else CONV_IGNORE in
  if has v_flags AFPVOL_EILSEQ then Z.lor f CONV__EILSEQ else f.

(** ** Strings *)

(** The string at the start of a buffer. *)
Fixpoint cstr (b : list Z) : list Z :=
  match b with
  | [] => []
  | c :: b => if c =? 0 then [] else c :: cstr b
  end.

(** What follows the last dot, the dot included, and what is before it. *)
Fixpoint strrchr (s : list Z) (c : Z) : option (list Z) :=
  match s with
  | [] => None
  | x :: s' => match strrchr s' c with Some r => Some r | None => if x =? c then Some s else None end
  end.

(** [strlcat] and [strlcpy] into a buffer of [size] bytes. *)
Definition strlcat (d s : list Z) (size : Z) : list Z :=
  d ++ take (Z.to_nat (size - 1 - zlen d)) s.

Definition strlcpy (s : list Z) (size : Z) : list Z := take (Z.to_nat (size - 1)) s.

(** Whether [strncmp] gives 0, the second string in a buffer. *)
Fixpoint strncmp_0 (n : nat) (a b : list Z) : bool :=
  match n with
  | O => true
  | S n =>
      let x := hd 0 a in
      (x =? hd 0 b) && ((x =? 0) || strncmp_0 n (tl a) (tl b))
  end.

Definition isdigit (c : Z) : bool := (48 <=? c) && (c <=? 57).
Definition hextoint (c : Z) : Z := if isdigit c then c - 48 else c + 10 - 65.
Definition isuxdigit (c : Z) : bool := isdigit c || ((65 <=? c) && (c <=? 70)).

(** The digits of the conversion %X, at most [fuel] of them. *)
Definition hex_digit (d : Z) : Z := if d <? 10 then 48 + d else 55 + d.

Fixpoint hex_digits (fuel : nat) (n : Z) (acc : list Z) : list Z :=
  match fuel with
  | O => acc
  | S fuel => let acc := hex_digit (n mod 16) :: acc in if n / 16 =? 0 then acc else hex_digits fuel (n / 16) acc
  end.

Definition print_hex (n : Z) : list Z := hex_digits 8 n [].

Definition question_marks : list Z := [63; 63; 63].

(** ** Mangling *)

Section names.
Context (r : registry).

(** The buffer [size] bytes long that a conversion writes into. *)
Definition fresh (size : Z) : list Z := replicate (Z.to_nat size) 0.

Definition mangle_extension (v : vol) (uname : list Z) (charset : Z) : res (list Z) :=
  match strrchr uname DOT with
  | Some p =>
      if bool_decide (p = uname) then Ok [] else
      '(len, extension, _) ← convert_charset r true (v_volcharset v) charset (v_maccharset v) p (fresh (MAX_EXT_LENGTH + 2))
                               (MAX_EXT_LENGTH + 2) (Z.lor CONV_FORCE CONV_UNESCAPEHEX);
      Ok (match len with Some n => take (Z.to_nat n) extension | None => [] end)
  | None => Ok []
  end.

(** The client's charset for a name. *)
Definition client_charset (v : vol) (utf8 : bool) : Z := if utf8 then CH_UTF8_MAC else v_maccharset v.

(** [forced] and [utf8] are the two bits of the flags; [None] is the result NULL. *)
Definition mangle (v : vol) (filename uname : list Z) (id : Z) (forced utf8 : bool) : res (option (list Z)) :=
  let maxlen := if utf8 then UTF8FILELEN_EARLY else MACFILELEN in
  if negb forced && (zlen filename <=? maxlen) then Ok (Some (cstr filename))
  else if id =? 0 then Ok None
  else
    ext ← mangle_extension v uname (client_charset v utf8);
    let mangle_suffix := take (Z.to_nat MANGLE_LENGTH) (MANGLE_CHAR :: print_hex (ntohl id)) in
    let k := zlen mangle_suffix in
    m ← (if maxlen <? zlen filename + k + zlen ext then
           let prefix_len := maxlen - k - zlen ext in
           '(n, m, _) ← convert_charset r true (v_volcharset v) (client_charset v utf8) (v_maccharset v) uname (fresh (MAXPATHLEN + 2))
                          (prefix_len + 2) (Z.lor CONV_FORCE CONV_UNESCAPEHEX);
           Ok (match n with Some n => cstr (take (Z.to_nat n) m) | None => [] end)
         else Ok (cstr (strlcpy filename (zlen filename + 1))));
    let m := if bool_decide (m = []) then strlcat m question_marks MAXPATHLEN else m in
    let m := strlcat m mangle_suffix MAXPATHLEN in
    Ok (Some (m ++ cstr ext)).

(** ** utompath *)

Definition utompath (v : vol) (upath : list Z) (id : Z) (utf8 : bool) : res (option (list Z)) :=
  '(outlen, m, flags) ← convert_charset r true (v_volcharset v) (client_charset v utf8) (v_maccharset v) upath
                          (fresh (MAXPATHLEN + 2)) (MAXPATHLEN + 2) (v_utom_flags v);
  match outlen with
  | None => mangle v question_marks upath id true utf8
  | Some outlen => mangle v (take (Z.to_nat outlen) m) upath id (has flags CONV_REQMANGLE) utf8
  end.

(** ** Demangling *)

(** The digits behind a MANGLE_CHAR, [n] of them at most: the number and what follows. *)
Fixpoint scan_hex (n : nat) (t : list Z) (id : Z) : Z * list Z :=
  match n, t with
  | S n, c :: t' => if isuxdigit c then scan_hex n t' (u32(id * 16 + hextoint c)) else (id, t)
  | _, _ => (id, t)
  end.

(** [t] follows the MANGLE_CHAR; the CNID in host order and the extension. *)
Definition mangled_id (t : list Z) : option (Z * list Z) :=
  if hd 0 t =? 48 then None else
  let '(id, ext) := scan_hex (Z.to_nat (MANGLE_LENGTH - 1)) t 0 in
  let c := hd 0 ext in
  if (negb (c =? 0) && negb (c =? DOT)) || (MAX_EXT_LENGTH <? zlen ext) || (id <? CNID_START) then None
  else Some (id, ext).

(** Whether [demangle_checks] gives the name on disk; [buffer] is its static buffer. *)
Definition demangle_checks (v : vol) (uname mfilename : list Z) (prefix : Z) (ext buffer : list Z) : res (bool * list Z) :=
  buf ← mangle_extension v uname CH_UTF8_MAC;
  if negb (bool_decide (ext = cstr buf)) then Ok (false, buffer) else
  '(len, buffer, flags) ← convert_charset r true (v_volcharset v) (v_maccharset v) 0 uname buffer (MAXPATHLEN + 2) (Z.lor CONV_IGNORE CONV_UNESCAPEHEX);
  match len with
  | None => Ok (false, buffer)
  | Some len =>
      let mfilenamelen := zlen mfilename in
      let long := (max_filename v <=? len) || (mfilenamelen =? MACFILELEN) in
      let flags := if long then Z.lor flags CONV_REQMANGLE else flags in
      let len := if long then prefix else len in
      if negb (has flags CONV_REQMANGLE) then Ok (false, buffer) else
      let whole buffer flags :=
        if 0 <? prefix then
          '(len, buffer, _) ← convert_charset r true (v_volcharset v) CH_UTF8_MAC 0 uname buffer (MAXPATHLEN + 2) flags;
          Ok (bool_decide (is_Some len) && strncmp_0 (Z.to_nat prefix) mfilename buffer, buffer)
        else Ok (false, buffer) in
      if len =? 0 then
        if (prefix =? 3) && strncmp_0 3 mfilename question_marks then Ok (true, buffer) else whole buffer flags
      else
        '(len, buffer, flags) ← convert_charset r true (v_maccharset v) CH_UTF8_MAC 0 (take (Z.to_nat len) buffer) buffer (MAXPATHLEN + 2) flags;
        match len with
        | None => Ok (false, buffer)
        | Some len =>
            if ((prefix <? len) && negb (mfilenamelen =? MACFILELEN)) || negb (strncmp_0 (Z.to_nat len) mfilename buffer)
            then Ok (false, buffer)
            else if prefix <=? len then Ok (true, buffer)
            else whole buffer flags
        end
  end.

End names.

(** ** The catalog

    What names are looked up in: the directory cache, the stat of an object of it, and the
    CNID database, which answer in a state of their own. *)

Record dir := Dir { d_pdid : Z; d_u_name : list Z; dcache_ino : Z; dcache_ctime : Z; d_isfile : bool }.
Record stat := Stat { st_ino : Z; st_ctime : Z }.

Class Catalog (W : Type) := {
  dircache_lookup_did : Z -> W -> option dir * W;
  pfd_ostat : dir -> W -> option stat * W;
  cnid_resolve : Z -> W -> option (Z * list Z) * W
}.

Section demangle.
Context (r : registry) `{Catalog W}.

(** The directory and the name of an object: those of its entry in the cache when the
    entry is up to date, else those of the database. *)
Definition find_object (id : Z) (w : W) : option (Z * list Z) * W :=
  let '(d, w) := dircache_lookup_did id w in
  let resolved w :=
    let '(o, w) := cnid_resolve id w in
    (match o with Some (pdid, u) => Some (pdid, strlcpy u CNID_MAX_PATH_LEN) | None => None end, w) in
  match d with
  | None => resolved w
  | Some d =>
      let '(st, w) := pfd_ostat d w in
      match st with
      | Some st =>
          if (st_ino st =? dcache_ino d) && (negb (d_isfile d) || (st_ctime st =? dcache_ctime d))
          then (Some (d_pdid d, strlcpy (d_u_name d) CNID_MAX_PATH_LEN), w) else resolved w
      | None => resolved w
      end
  end.

(** The loop over the [n] bytes from [first] on, the last first; [osx] asks for
    the other forms.  The object found, with its CNID in network order. *)
Fixpoint demangle_loop (n : nat) (first : nat) (v : vol) (mfilename : list Z) (did : Z) (osx : bool) (buffer : list Z) (w : W) :
    res (option (Z * list Z) * W) :=
  match n with
  | O => Ok (None, w)
  | S n =>
      let again := demangle_loop n first v mfilename did osx in
      match drop (first + n) mfilename with
      | c :: t =>
          if negb (c =? MANGLE_CHAR) then again buffer w else
          match mangled_id t with
          | None => again buffer w
          | Some (id, ext) =>
              let prefix := Z.of_nat (first + n) in
              let id := htonl id in
              let '(o, w) := find_object id w in
              match o with
              | None => again buffer w
              | Some (pdid, u_name) =>
                  if negb (pdid =? did) then again buffer w else
                  m ← utompath r v u_name id (v_utf8 v);
                  match m with
                  | None => Abort Undefined
                  | Some m =>
                      if bool_decide (m = mfilename) then Ok (Some (id, u_name), w)
                      else if osx then
                        match demangle_checks r v u_name mfilename prefix ext buffer with
                        | Ok (found, buffer) => if found then Ok (Some (id, u_name), w) else again buffer w
                        | Abort e => Abort e
                        end
                      else again buffer w
                  end
              end
          end
      | [] => Abort Undefined
      end
  end.

(** [None] is the result [mfilename]. *)
Definition private_demangle (v : vol) (mfilename : list Z) (did : Z) (osx : bool) (buffer : list Z) (w : W) : res (option (Z * list Z) * W) :=
  let len := length mfilename in
  let window := Nat.min len (Z.to_nat (MANGLE_LENGTH + MAX_EXT_LENGTH)) in
  demangle_loop window (len - window) v mfilename did osx buffer w.

Definition demangle (v : vol) (mfilename : list Z) (did : Z) (buffer : list Z) (w : W) : res (option (Z * list Z) * W) :=
  private_demangle v mfilename did false buffer w.

Definition demangle_osx (v : vol) (mfilename : list Z) (did : Z) (buffer : list Z) (w : W) : res (option (Z * list Z) * W) :=
  private_demangle v mfilename did true buffer w.

(** ** mtoupath *)

Definition mtoupath (v : vol) (mpath : list Z) (did : Z) (utf8 : bool) (buffer : list Z) (w : W) : res (option (list Z) * W) :=
  match mpath with
  | [] => Ok (Some [DOT], w)
  | _ =>
      '(m, w) ← (if did =? CNID_INVALID then (Ok (None, w) : res (option (Z * list Z) * W)) else demangle v mpath did buffer w);
      match m with
      | Some (_, u) => Ok (Some u, w)
      | None =>
          '(len, upath, _) ← convert_charset r true (client_charset v utf8) (v_volcharset v) (v_maccharset v) mpath
                               (fresh (MAXPATHLEN + 2)) (MAXPATHLEN + 2) (v_mtou_flags v);
          Ok (match len with Some n => Some (cstr (take (Z.to_nat n) upath)) | None => None end, w)
      end
  end.

End demangle.
