(* ===== verification/MangleFacts.v ===== *)
(** * Facts on mangled names

    Strings in buffers, the digits of a CNID, and the form of a mangled name: a prefix, the
    MANGLE_CHAR with the digits of the CNID, and an extension of a few bytes. *)

From stdpp Require Import strings.
From S2P Require Import Prelude Bytes Utf8 Utf8Theorems Unicode UnicodeFacts UnicodeCompose UnicodeTheorems.
From S2P Require Import CharsetTables Charsets Charcnv CharsetFacts CharcnvFacts CharcnvSafe Punctuation CharcnvTheorems Mangle.

(** ** Strings *)

Lemma cstr_length b : zlen (cstr b) <= zlen b.
Proof. induction b as [|c b IH]; cbn; [done|]. case_test; cbn; lia. Qed.

Lemma cstr_no_nul b : 0 ∉ cstr b.
Proof. induction b as [|c b IH]; cbn; [set_solver|]. case_test; set_solver. Qed.

Lemma cstr_bytes b : Forall byte b -> Forall byte (cstr b).
Proof. induction 1 as [|c b Hc _ IH]; cbn; [constructor|]. case_test; [constructor|by constructor]. Qed.

Lemma cstr_id b : 0 ∉ b -> cstr b = b.
Proof. induction b as [|c b IH]; cbn; [done|]. intros H. case_test; [set_solver|]. rewrite IH by set_solver. done. Qed.

Lemma cstr_sub b x : x ∈ cstr b -> x ∈ b.
Proof. induction b as [|c b IH]; cbn; [done|]. case_test; set_solver. Qed.

Lemma strrchr_suffix s c p : strrchr s c = Some p -> exists a t, s = a ++ p /\ p = c :: t.
Proof.
  induction s as [|x s IH]; cbn; [done|]. destruct (strrchr s c) as [q|].
  - intros [= ->]. destruct (IH eq_refl) as (a & t & -> & ->). by exists (x :: a), t.
  - case_test; [|done]. intros [= <-]. subst. by exists [], s.
Qed.

(** ** The digits of a CNID *)

Lemma hex_digits_app fuel : forall n acc, hex_digits fuel n acc = hex_digits fuel n [] ++ acc.
Proof.
  induction fuel as [|fuel IH]; intros n acc; cbn [hex_digits]; [done|]. case_test; [done|].
  rewrite IH, (IH _ [_]), <- app_assoc. done.
Qed.

Lemma hex_digits_length fuel : forall n, (length (hex_digits fuel n []) <= fuel)%nat.
Proof.
  induction fuel as [|fuel IH]; intros n; cbn [hex_digits]; [done|]. case_test; [cbn; lia|]. rewrite hex_digits_app, length_app.
  pose proof (IH (n / 16)). cbn. lia.
Qed.

Lemma hex_digit_spec d : 0 <= d < 16 -> isuxdigit (hex_digit d) = true /\ hextoint (hex_digit d) = d /\ byte (hex_digit d) /\
  (hex_digit d = 48 <-> d = 0) /\ hex_digit d <> 0 /\ hex_digit d <> MANGLE_CHAR.
Proof.
  intros Hd. unfold isuxdigit, hextoint, isdigit, hex_digit, byte, MANGLE_CHAR.
  case_test; split_and!; try lia; case_test; lia.
Qed.

Definition hex_step (id c : Z) : Z := u32(id * 16 + hextoint c).

(** The digits of a number that fits are read back as it. *)
Lemma hex_digits_read fuel : forall n, 0 <= n < 16 ^ Z.of_nat fuel -> n < 2 ^ 32 -> (0 < fuel)%nat ->
  foldl hex_step 0 (hex_digits fuel n []) = n /\
  Forall (fun c => isuxdigit c = true /\ byte c /\ c <> 0 /\ c <> MANGLE_CHAR) (hex_digits fuel n []) /\
  exists c ds, hex_digits fuel n [] = c :: ds /\ (n <> 0 -> c <> 48).
Proof.
  induction fuel as [|fuel IH]; intros n Hn H32 Hf; [lia|]. cbn [hex_digits].
  assert (0 <= n mod 16 < 16) as Hm by zmod. destruct (hex_digit_spec _ Hm) as (D1 & D2 & D3 & D4 & D5 & D6).
  destruct (Z.eqb_spec (n / 16) 0) as [E|E].
  - split_and!.
    + cbn. unfold hex_step. rewrite D2, wrap_small by zmod. zmod.
    + constructor; [done|constructor].
    + eexists _, []. split; [done|]. intros Hne. rewrite D4. zmod.
  - rewrite hex_digits_app. rewrite Nat2Z.inj_succ, Z.pow_succ_r in Hn by lia.
    assert (fuel <> 0)%nat as Hf0 by (intros ->; cbn in Hn; zmod).
    destruct (IH (n / 16)) as (I1 & I2 & c & ds & I3 & I4); [zmod|zmod|lia|]. split_and!.
    + rewrite foldl_app, I1. cbn. unfold hex_step. rewrite D2, wrap_small by zmod. zmod.
    + apply Forall_app. split; [done|constructor; [done|constructor]].
    + exists c, (ds ++ [hex_digit (n mod 16)]). rewrite I3. split; [done|]. intros _. by apply I4.
Qed.

Lemma scan_hex_digits ds : forall n ext id, (length ds <= n)%nat -> Forall (fun c => isuxdigit c = true) ds -> isuxdigit (hd 0 ext) = false ->
  scan_hex n (ds ++ ext) id = (foldl hex_step id ds, ext).
Proof.
  induction ds as [|d ds IH]; intros n ext id Hn HF He.
  - cbn. destruct n, ext as [|c ext]; cbn in *; try done. by rewrite He.
  - destruct n; [cbn in Hn; lia|]. apply Forall_cons in HF as [Hd HF]. cbn. rewrite Hd. apply IH; [cbn in Hn; lia|done|done].
Qed.

Definition extension_ok (ext : list Z) : Prop := zlen ext <= MAX_EXT_LENGTH /\ (ext = [] \/ exists t, ext = DOT :: t).

(** The number a mangled name carries is read back from it, with the extension. *)
Lemma mangled_id_back id ext : CNID_START <= id < 2 ^ 32 -> extension_ok ext -> mangled_id (print_hex id ++ ext) = Some (id, ext).
Proof.
  intros Hid [Hl He]. unfold print_hex. destruct (hex_digits_read 8 id) as (R1 & R2 & c & ds & R3 & R4); [unfold CNID_START in *; lia..|].
  unfold mangled_id. rewrite scan_hex_digits, R1; [|apply hex_digits_length|by apply (Forall_impl _ _ _ R2); intros ? []|by destruct He as [->|[t ->]]].
  rewrite R3. cbn [app hd]. rewrite (proj2 (Z.eqb_neq _ _)) by (apply R4; unfold CNID_START in *; lia).
  rewrite !(proj2 (Z.ltb_ge _ _)) by (unfold CNID_START, MAX_EXT_LENGTH in *; lia). rewrite !orb_false_r.
  destruct He as [->|[t ->]]; done.
Qed.

Lemma print_hex_ok id : 0 <= id < 2 ^ 32 ->
  (0 < length (print_hex id) <= 8)%nat /\ Forall (fun c => isuxdigit c = true /\ byte c /\ c <> 0 /\ c <> MANGLE_CHAR) (print_hex id).
Proof.
  intros Hid. unfold print_hex. destruct (hex_digits_read 8 id) as (_ & R2 & c & ds & R3 & _); [lia..|]. split; [|done].
  pose proof (hex_digits_length 8 id). rewrite R3 in *. cbn in *. lia.
Qed.

(** ** The dot of an extension *)

Lemma decode_dot from `{!ByteCharset from} fuel src opt rest decoded_left flags d i f : Forall byte rest -> 2 <= decoded_left ->
  decode_loop (S fuel) from false src opt (DOT :: rest) [] decoded_left flags = inr (d, i, f) -> exists more, d = SSVAL DOT ++ more.
Proof.
  intros Hr Hl H. assert (Forall byte (DOT :: rest)) as Hb by (constructor; [unfold byte, DOT; lia|done]).
  cbn [decode_loop] in H. rewrite firstn_all, drop_all in H. pose proof (pull_dot rest [] decoded_left Hl Hr) as [m Hm].
  destruct (pull from _) as [e s] eqn:E. cbn [snd] in Hm. apply (lawful_keeps _ _ pull_lawful) in E as (K1 & K2 & K3 & _); [|done|constructor|cbn; lia].
  rewrite app_nil_r in H. cbn [app] in Hm. assert (forall (x y : list Z * list Z * Z) e, forced opt e flags x = inr y -> y = x) as FE
    by (intros x y e0; unfold forced; destruct (has opt CONV_FORCE); [by intros [= <-]|done]).
  assert (forall input left, Forall byte input -> 0 <= left -> decode_loop fuel from false src opt input (outbuf s ++ SSVAL IGNORE_CHAR) left flags = inr (d, i, f) ->
    exists more, d = SSVAL DOT ++ more) as rec.
  { intros input left Hi Hl' Hd. pose proof (decode_keeps from false src opt fuel input (outbuf s ++ SSVAL IGNORE_CHAR) left flags Hi) as D.
    rewrite Hd in D. destruct D as [(_ & _ & more & D) _]; [apply Forall_app; split; [done|apply SSVAL_bytes_ok]|done|].
    cbn in D. rewrite D, Hm, <- !app_assoc. eauto. }
  repeat (case_match; try done); try (apply FE in H); simplify_eq; rewrite ?Hm, <- ?app_assoc; eauto;
    (eapply rec; [|..|exact H]; [by apply Forall_drop|lia]).
Qed.

Lemma emit_dot from_set to_set cap opt (capok : forall f, cap = Some f -> Charset f) fuel first rest outleft flags b f : has opt CONV_ESCAPEDOTS = false -> 2 <= outleft ->
  emit_loop from_set to_set cap opt (S fuel) first (DOT :: rest) [] outleft flags = inr (b, f) -> exists more, b = SSVAL DOT ++ more.
Proof.
  intros He Ho. cbn [emit_loop]. change (DOT =? COLON) with false. cbn [andb]. unfold emit_char. rewrite He, andb_false_r.
  change (DOT =? COLON) with false. change (DOT =? SLASH) with false. cbn [orb andb length]. rewrite (proj2 (Z.ltb_ge _ _)) by lia.
  intros H. pose proof (emit_keeps from_set to_set cap opt capok fuel false rest ([] ++ bytes_of_units [DOT]) (outleft - 2 * Z.of_nat 1) flags
    ltac:(apply bytes_of_units_bytes) ltac:(lia)) as K. rewrite H in K. destruct K as [(_ & _ & more & K) _]. eauto.
Qed.

Lemma formed_dot f us : Forall unit16 us -> exists more, formed f (DOT :: us) = DOT :: more.
Proof.
  intros Hu. destruct f; [by exists (dec us)| |by eexists]. change (formed Precomposed (DOT :: us)) with (comp DOT us).
  destruct us as [|c us]; [by eexists|]. apply Forall_cons in Hu as [Uc _]. rewrite comp_cons.
  pose proof (join_cases DOT c us eq_refl ltac:(done) Uc) as J. destruct (join DOT c us) as [r|p rest|]; [exfalso|done|eauto].
  destruct J as [J|[(l & v & J)|(t & J & _)]]; [|unfold DOT, LBASE in J; lia|done]. by apply base_not_punct in J.
Qed.

Lemma composed_name_dot r from_set to_set more flags u : Forall byte (SSVAL DOT ++ more) -> zlen (SSVAL DOT ++ more) <= buffer_size - 2 ->
  composed_name r from_set to_set (SSVAL DOT ++ more) flags = Ok (Some u) -> exists more', u = SSVAL DOT ++ more'.
Proof.
  intros Hb Hl. set (b := SSVAL DOT ++ more) in *. unfold composed_name. rewrite decompose_buffer, precompose_buffer by done.
  assert (Forall unit16 (units more)) as Hm by (apply units_units; by apply Forall_app in Hb as [_ ?]).
  assert (units b = DOT :: units more) as Eu by done.
  assert (forall f, exists m, bytes_of_units (formed f (units b)) = SSVAL DOT ++ m) as K.
  { intros f. rewrite Eu. destruct (formed_dot f (units more) Hm) as [m ->]. by eexists. }
  pose proof (K Decomposed) as [m1 K1]. pose proof (K Precomposed) as [m2 K2]. cbn [formed] in K1, K2.
  unfold answer. cbn [app] in *.
  destruct (has flags CONV_DECOMPOSE || _); [|destruct (has flags CONV_PRECOMPOSE || _)]; [| |by intros [= <-]; eexists].
  all: cbn [mbind res_bind]; destruct (bool_decide (b = []) || _); [done|]; destruct (_ <=? _); [|done]; intros [= <-]; eauto.
Qed.

Definition force_unescape : Z := Z.lor CONV_FORCE CONV_UNESCAPEHEX.

(** The set of a slot is one of bytes. *)
Definition byte_set (r : registry) (ch : Z) : Prop := exists f, charset_of r ch = Some f /\ name f <> "UCS-2"%string.

Lemma byte_set_charset r ch : byte_set r ch -> ch <> CH_UCS2 /\ exists f, charset_of r ch = Some f /\ ByteCharset f.
Proof.
  intros (f & Hf & Hn). split; [|exists f; split; [done|by eapply charset_of_bytes]]. intros ->. unfold charset_of in Hf. cbn in Hf. by injection Hf as <-.
Qed.

Lemma utf8_mac_byte_set r : byte_set r CH_UTF8_MAC.
Proof. by exists charset_utf8_mac. Qed.

Lemma convert_dot r from_set to_set cap src dest dest_len n dest' flags' :
  byte_set r from_set -> byte_set r to_set -> Forall byte src -> 3 <= dest_len <= zlen dest ->
  convert_charset r true from_set to_set cap (DOT :: src) dest dest_len force_unescape = Ok (Some n, dest', flags') ->
  take (Z.to_nat n) dest' = [] \/ exists t, take (Z.to_nat n) dest' = DOT :: t.
Proof.
  intros (Hw & from & Ef & Hfrom)%byte_set_charset (_ & to & Et & Hto)%byte_set_charset Hs Hd H.
  assert (Forall byte (DOT :: src)) as Hs' by (constructor; [unfold byte, DOT; lia|done]).
  apply convert_inv in H as (b & f & Ep & So & Hb & Hd2 & [->|(u & v & to' & e & s & Hne & Hl & Ec & Ev & Et' & Hv & Eo & _ & ->)]); [by left| |done|lia|done].
  right. simplify_eq. unfold pull_charset_flags, decode_source_ucs2, decoded_len in Ep. rewrite Ef in Ep. rewrite (proj2 (Z.eqb_neq _ _) Hw) in Ep.
  match type of Ep with context [decode_loop ?n from ?w ?src' ?fl ?i [] ?l ?fl'] =>
    pose proof (decode_keeps from w src' fl n i [] l fl' Hs' ltac:(constructor) ltac:(done)) as D;
    destruct (decode_loop n from w src' fl i [] l fl') as [[? g]|[[decoded input] g]] eqn:Edec end; [done|].
  destruct D as [(D1 & _) Df]. cbn in D1, Df. apply (decode_dot from) in Edec as [m ->]; [|done|done].
  change (units (SSVAL DOT ++ m)) with (DOT :: units m) in Ep. unfold emit_filename_chars in Ep.
  apply emit_dot in Ep as [m' ->]; [|intros h; apply charset_of_charset|by rewrite (same_has force_unescape)|done].
  apply composed_name_dot in Ec as [m'' ->]; [|done|done].
  unfold cased in Ev. rewrite !(same_has force_unescape f) in Ev by done. injection Ev as <-.
  change (push to (Conv (SSVAL DOT ++ m'') [] (dest_len - 2)) = (e, s)) in Eo.
  apply Forall_cons in Hv as [_ [_ Hv]%Forall_cons]. destruct (push_dot m'' [] (dest_len - 2) ltac:(lia) Hv) as [t Ht].
  rewrite Eo in Ht. cbn in Ht. rewrite Ht. eauto.
Qed.

(** ** The form of a mangled name *)

(** The sets of a volume are sets of bytes, and its flags those of a mounted volume. *)
Record mounted (r : registry) (v : vol) : Prop := {
  vol_bytes : byte_set r (v_volcharset v);
  mac_bytes : byte_set r (v_maccharset v);
  mtou_set : exists fl cf, v_mtou_flags v = mtou_flags fl cf;
  utom_set : exists fl cf, v_utom_flags v = utom_flags fl cf
}.

Lemma mtou_escapes fl cf : has (mtou_flags fl cf) CONV_ESCAPEHEX = false /\ has (mtou_flags fl cf) CONV_UNESCAPEHEX = false.
Proof. unfold mtou_flags. by repeat case_match. Qed.

Lemma utom_escapes fl cf : has (utom_flags fl cf) CONV_ESCAPEHEX = false /\ has (utom_flags fl cf) CONV_UNESCAPEHEX = false.
Proof. unfold utom_flags. by repeat case_match. Qed.

Lemma client_bytes r v utf8 : mounted r v -> byte_set r (client_charset v utf8).
Proof. intros M. unfold client_charset. destruct utf8; [apply utf8_mac_byte_set|apply (mac_bytes r v M)]. Qed.

(** A conversion that unescapes always ends, with bytes. *)
Lemma convert_ends r from_set to_set cap src dest_len size flags : Forall byte src -> 0 <= dest_len <= size ->
  has flags CONV_ESCAPEHEX = false -> (has flags CONV_UNESCAPEHEX = true -> has flags CONV_TOUPPER = false /\ has flags CONV_TOLOWER = false) ->
  exists len dest flags', convert_charset r true from_set to_set cap src (fresh size) dest_len flags = Ok (len, dest, flags') /\
    Forall byte dest /\ forall n, len = Some n -> 0 <= n <= dest_len - 2 /\ n <= zlen dest.
Proof.
  intros Hs Hd He Hu. unfold fresh.
  destruct (convert_keeps r true from_set to_set cap src (replicate (Z.to_nat size) 0) dest_len flags) as (len & dest & f & -> & _ & (W1 & W2 & W3) & Hn);
    [done|rewrite length_replicate; lia|by rewrite He|done|].
  exists len, dest, f. rewrite length_replicate in *. split_and!; [done|apply W3, Forall_replicate; unfold byte; lia|].
  intros n ->. destruct (Hn n eq_refl) as [? _]. lia.
Qed.

Lemma extension_nil : extension_ok [].
Proof. split; [done|by left]. Qed.

Lemma mangle_extension_ok r v uname utf8 : mounted r v -> Forall byte uname ->
  exists ext, mangle_extension r v uname (client_charset v utf8) = Ok ext /\ extension_ok ext /\ Forall byte ext.
Proof.
  intros M Hu. unfold mangle_extension. destruct (strrchr uname DOT) as [p|] eqn:Ep; [|exists []; split_and!; [done|apply extension_nil|constructor]].
  case_bool_decide; [exists []; split_and!; [done|apply extension_nil|constructor]|].
  apply strrchr_suffix in Ep as (a & t & -> & ->). apply Forall_app in Hu as [_ [_ Ht]%Forall_cons].
  assert (Forall byte (DOT :: t)) as Hp by (constructor; [unfold byte, DOT; lia|done]).
  destruct (convert_ends r (v_volcharset v) (client_charset v utf8) (v_maccharset v) (DOT :: t) (MAX_EXT_LENGTH + 2) (MAX_EXT_LENGTH + 2) force_unescape)
    as (len & dest & f & E & Hb & Hn); [done|done|done|done|]. unfold force_unescape in E. rewrite E. cbn [mbind res_bind].
  destruct len as [n|]; [|exists []; split_and!; [done|apply extension_nil|constructor]].
  destruct (Hn n eq_refl) as [N1 N2]. exists (take (Z.to_nat n) dest). split_and!; [done| |by apply Forall_take].
  split; [rewrite length_take_le by lia; lia|].
  eapply convert_dot; [apply (vol_bytes r v M)|by apply client_bytes|exact Ht| |exact E].
  unfold fresh. rewrite length_replicate. unfold MAX_EXT_LENGTH. lia.
Qed.

Lemma extension_cstr ext : extension_ok ext -> extension_ok (cstr ext).
Proof.
  intros [Hl He]. split; [pose proof (cstr_length ext); lia|]. destruct He as [->|[t ->]]; [by left|right]. by exists (cstr t).
Qed.

Definition limit (utf8 : bool) : Z := if utf8 then UTF8FILELEN_EARLY else MACFILELEN.

(** A name of bytes without a NUL. *)
Definition name_ok (m : list Z) : Prop := Forall byte m /\ 0 ∉ m.

Lemma cstr_ok b : Forall byte b -> name_ok (cstr b).
Proof. split; [by apply cstr_bytes|apply cstr_no_nul]. Qed.

Lemma name_app a b : name_ok a -> name_ok b -> name_ok (a ++ b).
Proof. intros [A1 A2] [B1 B2]. split; [by apply Forall_app|]. rewrite elem_of_app. tauto. Qed.

(** The tag of a mangled name. *)
Definition tag (id : Z) : list Z := MANGLE_CHAR :: print_hex (ntohl id).

Lemma tag_ok id : name_ok (tag id) /\ (2 <= length (tag id) <= 9)%nat.
Proof.
  destruct (print_hex_ok (ntohl id)) as [Hl HF]; [apply bswap32_range|]. split; [|unfold tag; cbn [length]; lia]. split.
  - constructor; [unfold byte, MANGLE_CHAR; lia|]. apply (Forall_impl _ _ _ HF). tauto.
  - unfold tag. rewrite elem_of_cons. intros [?|Hin]; [done|]. rewrite Forall_forall in HF. apply HF in Hin. tauto.
Qed.

(** What a mangled name looks like. *)
Definition mangled (id : Z) (m : list Z) : Prop := exists pre ext, pre <> [] /\ extension_ok ext /\ m = pre ++ tag id ++ ext.

(** The last part of [mangle]: what it puts behind the prefix. *)
Lemma tagged pre ext id max : name_ok pre -> zlen pre <= max - zlen (tag id) - zlen ext -> 17 <= max -> max <= 255 -> extension_ok ext -> Forall byte ext ->
  let m := if bool_decide (pre = []) then strlcat pre question_marks MAXPATHLEN else pre in
  let m := strlcat m (tag id) MAXPATHLEN ++ cstr ext in
  zlen m <= max /\ name_ok m /\ mangled id m.
Proof.
  intros Hp Hl Hm1 Hm2 He Hb. cbn zeta. destruct (tag_ok id) as [T1 T2].
  assert (exists pre', (if bool_decide (pre = []) then strlcat pre question_marks MAXPATHLEN else pre) = pre' /\ pre' <> [] /\ name_ok pre' /\
    zlen pre' <= max - zlen (tag id) - zlen ext) as (pre' & -> & Hne & Hp' & Hl').
  { case_bool_decide as E; [|by exists pre]. subst. exists question_marks. split_and!; [done|done| |destruct He as [He _]; unfold MAX_EXT_LENGTH in He; change (zlen question_marks) with 3; lia].
    split; [repeat (constructor; [unfold byte; lia|]); constructor|]. unfold question_marks. set_solver by lia. }
  unfold strlcat. rewrite take_ge by (unfold MAXPATHLEN; lia).
  pose proof (cstr_length ext). split_and!.
  - rewrite !length_app. lia.
  - apply name_app; [by apply name_app|by apply cstr_ok].
  - exists pre', (cstr ext). split_and!; [done|by apply extension_cstr|by rewrite <- app_assoc].
Qed.

Lemma mangle_ok r v filename uname id forced utf8 : mounted r v -> Forall byte filename -> Forall byte uname -> 0 < id < 2 ^ 32 ->
  exists m, mangle r v filename uname id forced utf8 = Ok (Some m) /\ zlen m <= limit utf8 /\ name_ok m /\
    ((forced = false /\ zlen filename <= limit utf8 /\ m = cstr filename) \/ mangled id m).
Proof.
  intros M Hf Hu Hid. unfold mangle. fold (limit utf8). assert (31 <= limit utf8 <= 255) as HL by (by destruct utf8).
  destruct (negb forced && _) eqn:E.
  { apply andb_prop in E as [E1 E2]. pose proof (cstr_length filename). exists (cstr filename). split_and!; [done|lia|by apply cstr_ok|].
    left. destruct forced; [done|]. split_and!; [done|lia|done]. }
  rewrite (proj2 (Z.eqb_neq _ _)) by lia. destruct (mangle_extension_ok r v uname utf8 M Hu) as (ext & -> & Hext & Hb). cbn [mbind res_bind].
  fold (tag id). destruct (tag_ok id) as [T1 T2]. pose proof Hext as [X1 _]. unfold MAX_EXT_LENGTH in X1.
  rewrite (take_ge (tag id)) by (unfold MANGLE_LENGTH; lia).
  assert (forall pre, name_ok pre -> zlen pre <= limit utf8 - zlen (tag id) - zlen ext ->
    exists m, Ok (Some (strlcat (if bool_decide (pre = []) then strlcat pre question_marks MAXPATHLEN else pre) (tag id) MAXPATHLEN ++ cstr ext)) = Ok (Some m) /\
      zlen m <= limit utf8 /\ name_ok m /\ ((forced = false /\ zlen filename <= limit utf8 /\ m = cstr filename) \/ mangled id m)) as K.
  { intros pre Hp Hl. destruct (tagged pre ext id (limit utf8)) as (A & B & C); [done|done|lia|lia|done|done|]. eauto 8. }
  destruct (_ <? _) eqn:El.
  - destruct (convert_ends r (v_volcharset v) (client_charset v utf8) (v_maccharset v) uname (limit utf8 - zlen (tag id) - zlen ext + 2) (MAXPATHLEN + 2) force_unescape)
      as (len & dest & f & Ec & Hd & Hn); [done|unfold MAXPATHLEN; lia|done|done|]. unfold force_unescape in Ec. rewrite Ec. cbn [mbind res_bind].
    apply K.
    + destruct len; [apply cstr_ok; by apply Forall_take|split; [constructor|set_solver]].
    + destruct len as [n|]; [|change (zlen []) with 0; lia]. destruct (Hn n eq_refl). pose proof (cstr_length (take (Z.to_nat n) dest)). rewrite length_take in *. lia.
  - cbn [mbind res_bind]. apply K; [apply cstr_ok; by apply Forall_take|]. pose proof (cstr_length (strlcpy filename (zlen filename + 1))).
    unfold strlcpy in *. rewrite length_take in *. lia.
Qed.

(** The name of an object for a client fits and is the converted name or a mangled one. *)
Lemma utompath_ok r v u id utf8 : mounted r v -> Forall byte u -> 0 < id < 2 ^ 32 ->
  exists m, utompath r v u id utf8 = Ok (Some m) /\ zlen m <= limit utf8 /\ name_ok m /\
    ((exists n dest flags, convert_charset r true (v_volcharset v) (client_charset v utf8) (v_maccharset v) u (fresh (MAXPATHLEN + 2)) (MAXPATHLEN + 2) (v_utom_flags v) =
        Ok (Some n, dest, flags) /\ has flags CONV_REQMANGLE = false /\ m = cstr (take (Z.to_nat n) dest)) \/ mangled id m).
Proof.
  intros M Hu Hid. destruct (utom_set r v M) as (fl & cf & Ef). destruct (utom_escapes fl cf) as [E1 E2]. rewrite <- Ef in E1, E2.
  unfold utompath. destruct (convert_ends r (v_volcharset v) (client_charset v utf8) (v_maccharset v) u (MAXPATHLEN + 2) (MAXPATHLEN + 2) (v_utom_flags v))
    as (len & dest & f & E & Hb & Hn); [done|done|done|by rewrite E2|]. rewrite E. cbn [mbind res_bind]. destruct len as [n|].
  - destruct (mangle_ok r v (take (Z.to_nat n) dest) u id (has f CONV_REQMANGLE) utf8 M (Forall_take _ _ _ Hb) Hu Hid) as (m & -> & Hl & Ho & [(Hf & _ & ->)|Hm]); eauto 12.
  - destruct (mangle_ok r v question_marks u id true utf8 M) as (m & -> & Hl & Ho & [(Hf & _)|Hm]); [|done|done|done|eauto 8].
    repeat (constructor; [unfold byte; lia|]). constructor.
Qed.

(** ** The other forms of a name *)

Definition scratch (b : list Z) : Prop := length b = Z.to_nat (MAXPATHLEN + 2) /\ Forall byte b.

Lemma scratch_bytes b : scratch b -> Forall byte b.
Proof. by intros []. Qed.

Definition ignore_unescape : Z := Z.lor CONV_IGNORE CONV_UNESCAPEHEX.

Lemma convert_scratch r from_set to_set cap src buffer flags : Forall byte src -> scratch buffer -> same_options ignore_unescape flags ->
  exists len buffer' flags', convert_charset r true from_set to_set cap src buffer (MAXPATHLEN + 2) flags = Ok (len, buffer', flags') /\
    scratch buffer' /\ same_options ignore_unescape flags'.
Proof.
  intros Hs [Hl Hb] Hf. destruct (convert_keeps r true from_set to_set cap src buffer (MAXPATHLEN + 2) flags) as (len & dest & f & -> & So & (W1 & W2 & W3) & Hn).
  - done.
  - unfold MAXPATHLEN in *. lia.
  - by rewrite (same_has ignore_unescape flags).
  - by rewrite !(same_has ignore_unescape flags).
  - exists len, dest, f. split_and!; [done|split; [congruence|auto]|by trans flags].
Qed.

(** Each conversion of [demangle_checks] leaves its buffer in order. *)
Ltac scratch_call :=
  match goal with |- context [convert_charset ?r true ?a ?b ?c ?src ?buf _ ?f] =>
    destruct (convert_scratch r a b c src buf f) as (? & ? & ? & -> & ? & ?); [first [assumption|by apply Forall_take, scratch_bytes]|assumption|first [assumption|reflexivity]|cbn [mbind res_bind]] end.

Lemma demangle_checks_ok r v u m prefix ext buffer : mounted r v -> Forall byte u -> scratch buffer ->
  exists found buffer', demangle_checks r v u m prefix ext buffer = Ok (found, buffer') /\ scratch buffer'.
Proof.
  intros M Hu Hb. unfold demangle_checks.
  destruct (mangle_extension_ok r v u true M Hu) as (x & Ex & _). cbn [client_charset] in Ex. rewrite Ex. cbn [mbind res_bind]. case_match; [by eauto|].
  fold ignore_unescape. scratch_call. case_match; [|by eauto]. cbn zeta.
  match goal with |- context [negb (has ?f CONV_REQMANGLE)] => assert (same_options ignore_unescape f) by
    (case_match; [etrans; [done|apply adds_mangle]|done]); generalize dependent f end.
  intros f Hf.
  match goal with |- context [if ?c then prefix else ?l] => generalize (if c then prefix else l); intros n end.
  destruct (negb (has f _)); [by eauto|]. destruct (n =? 0).
  - destruct (_ && _); [by eauto|]. destruct (_ <? _); [|by eauto]. scratch_call. eauto.
  - scratch_call. case_match; [|by eauto]. destruct (_ || _); [by eauto|]. destruct (_ <=? _); [by eauto|]. destruct (_ <? _); [|by eauto]. scratch_call. eauto.
Qed.
