(* ===== verification/MangleTheorems.v ===== *)
(** * What mangled names guarantee

    The names that clients get fit them, and a mangled one leads back to its object: the
    search is sound, complete, and exact as long as the extension carries no MANGLE_CHAR. *)

From stdpp Require Import strings gmap.
From S2P Require Import Prelude Bytes Utf8 Utf8Theorems Unicode UnicodeFacts UnicodeCompose UnicodeTheorems.
From S2P Require Import CharsetTables Charsets Charcnv CharsetFacts CharcnvFacts CharcnvSafe Punctuation CharcnvTheorems Mangle MangleFacts.

(** C13: The name that a client gets for an object fits it, 255 bytes of UTF-8 or 31 of the Mac
    set, on any volume and whatever the name on disk: it is the converted name, or a prefix
    that is not empty, MANGLE_CHAR with the digits of the CNID, and at most five bytes of
    extension. *)
Theorem utompath_fits r v u id utf8 : mounted r v -> Forall byte u -> 0 < id < 2 ^ 32 ->
  exists m, utompath r v u id utf8 = Ok (Some m) /\ zlen m <= limit utf8 /\ name_ok m /\
    ((exists n dest flags, convert_charset r true (v_volcharset v) (client_charset v utf8) (v_maccharset v) u (fresh (MAXPATHLEN + 2)) (MAXPATHLEN + 2) (v_utom_flags v) =
        Ok (Some n, dest, flags) /\ has flags CONV_REQMANGLE = false /\ m = cstr (take (Z.to_nat n) dest)) \/ mangled id m).
Proof. apply utompath_ok. Qed.

(** ** The catalog *)

(** What the search relies on: no lookup changes which objects there are, an entry of the
    cache whose stat matches names its object, and the database names the others.  [object]
    gives the directory and the name of a CNID; a name on disk is one component of a path. *)
Class CatalogLaws (W : Type) `{Catalog W} := {
  object : Z -> W -> option (Z * list Z);
  lookup_keeps id w i : object i (dircache_lookup_did id w).2 = object i w;
  ostat_keeps d w i : object i (pfd_ostat d w).2 = object i w;
  resolve_keeps id w i : object i (cnid_resolve id w).2 = object i w;
  fresh_entry id w d st : (dircache_lookup_did id w).1 = Some d -> (pfd_ostat d (dircache_lookup_did id w).2).1 = Some st ->
    st_ino st = dcache_ino d -> (d_isfile d = true -> st_ctime st = dcache_ctime d) -> object id w = Some (d_pdid d, d_u_name d);
  resolved id w : (cnid_resolve id w).1 = object id w;
  object_ok id w did u : object id w = Some (did, u) -> name_ok u /\ SLASH ∉ u /\ zlen u < CNID_MAX_PATH_LEN
}.

Section demangle.
Context (r : registry) (v : vol) (M : mounted r v) `{CatalogLaws W}.

Definition same_objects (w w' : W) : Prop := forall i, object i w' = object i w.

Lemma strlcpy_name u : zlen u < CNID_MAX_PATH_LEN -> strlcpy u CNID_MAX_PATH_LEN = u.
Proof. intros Hl. apply take_ge. unfold CNID_MAX_PATH_LEN, MAXPATHLEN in *. lia. Qed.

Lemma find_object_ok id w : exists w', find_object id w = (object id w, w') /\ same_objects w w'.
Proof.
  unfold find_object. pose proof (lookup_keeps id w) as K1. pose proof (fresh_entry id w) as F. destruct (dircache_lookup_did id w) as [d w1]. cbn in K1, F.
  assert (forall w2, same_objects w w2 -> exists w', (let '(o, w3) := cnid_resolve id w2 in
    (match o with Some (pdid, u) => Some (pdid, strlcpy u CNID_MAX_PATH_LEN) | None => None end, w3)) = (object id w, w') /\ same_objects w w') as K.
  { intros w2 H2. pose proof (resolve_keeps id w2) as K3. pose proof (resolved id w2) as R. destruct (cnid_resolve id w2) as [o w3]. cbn in K3, R. exists w3.
    split; [|intros i; by rewrite K3, H2]. f_equal. subst. rewrite (H2 id). destruct (object id w) as [[p u]|] eqn:E; [|done].
    by rewrite strlcpy_name by apply (object_ok id w p u E). }
  destruct d as [d|]; [|by apply K]. pose proof (ostat_keeps d w1) as K2. specialize (F d). destruct (pfd_ostat d w1) as [st w2]. cbn in K2, F.
  assert (same_objects w w2) as S2 by (intros i; by rewrite K2, K1). destruct st as [st|]; [|by apply K].
  destruct (_ && _) eqn:E; [|by apply K]. apply andb_prop in E as [E1%Z.eqb_eq E2].
  exists w2. split; [|done]. rewrite (F st eq_refl eq_refl E1) by (destruct (d_isfile d); [by apply Z.eqb_eq in E2|done]). f_equal. do 2 f_equal.
  apply strlcpy_name. apply (object_ok id w (d_pdid d)). rewrite (F st eq_refl eq_refl E1); [done|]. destruct (d_isfile d); [by apply Z.eqb_eq in E2|done].
Qed.

Context (did : Z) (m : list Z).

(** The object [id] is one of the directory whose name for the client is [m]. *)
Definition named (w : W) (id : Z) (u : list Z) : Prop := object id w = Some (did, u) /\ utompath r v u id (v_utf8 v) = Ok (Some m).

(** The CNID that a MANGLE_CHAR at a position introduces, in network order. *)
Definition tag_at (p : nat) : option Z :=
  match drop p m with
  | c :: t => if c =? MANGLE_CHAR then match mangled_id t with Some (id, _) => Some (htonl id) | None => None end else None
  | [] => None
  end.

Lemma scan_hex_range n : forall t id, 0 <= id < 2 ^ 32 -> 0 <= (scan_hex n t id).1 < 2 ^ 32.
Proof. induction n as [|n IH]; intros [|c t] id Hid; cbn [scan_hex]; try done. case_match; [|done]. apply IH, wrap_range. lia. Qed.

Lemma mangled_id_range t id ext : mangled_id t = Some (id, ext) -> CNID_START <= id < 2 ^ 32.
Proof.
  unfold mangled_id. case_test; [done|]. pose proof (scan_hex_range (Z.to_nat (MANGLE_LENGTH - 1)) t 0 ltac:(lia)) as R.
  destruct (scan_hex _ _ _) as [i e]. cbn in R. case_match eqn:E1; [done|]. intros [= <- <-]. rewrite !orb_false_iff in E1. lia.
Qed.

Lemma tag_at_range p id : tag_at p = Some id -> 0 < id < 2 ^ 32 /\ CNID_START <= ntohl id.
Proof.
  unfold tag_at. destruct (drop p m) as [|c t]; [done|]. case_test; [|done]. destruct (mangled_id t) as [[i e]|] eqn:E1; [|done]. intros [= <-].
  apply mangled_id_range in E1. unfold htonl, ntohl. pose proof (bswap32_range i). pose proof (bswap32_twice i) as T. unfold CNID_START in *.
  rewrite T by lia. split; [|lia]. destruct (decide (bswap32 i = 0)) as [E0|]; [|lia]. rewrite E0 in T. change (bswap32 0) with 0 in T. lia.
Qed.

(** What the loop over positions gives: the object of the last tag that stands for [m], or,
    asked for the other forms, of one behind it. *)
Definition search_result (osx : bool) (first n : nat) (w : W) (o : option (Z * list Z)) : Prop :=
  match o with
  | Some (id, u) => exists p, (p < n)%nat /\ tag_at (first + p) = Some id /\ object id w = Some (did, u) /\ (osx = false -> named w id u) /\
      forall q id' u', (p < q < n)%nat -> tag_at (first + q) = Some id' -> ~ named w id' u'
  | None => forall q id' u', (q < n)%nat -> tag_at (first + q) = Some id' -> ~ named w id' u'
  end.

Lemma search_next osx first n w w' o : same_objects w w' -> (forall id u, tag_at (first + n) = Some id -> ~ named w id u) ->
  search_result osx first n w' o -> search_result osx first (S n) w o.
Proof.
  intros So N. assert (forall id u, named w' id u <-> named w id u) as EN by (intros id u; unfold named; by rewrite So).
  assert (forall q id u, (q < S n)%nat -> tag_at (first + q) = Some id -> ((q < n)%nat -> ~ named w' id u) -> ~ named w id u) as K.
  { intros q id u Hq Ht Hn. destruct (decide (q = n)) as [->|]; [by apply N|]. rewrite <- EN. apply Hn. lia. }
  destruct o as [[id u]|]; cbn.
  - intros (p & Hp & Ht & Ho & Hs & Hl). exists p. rewrite <- (So id). split_and!; [lia|done|done|intros E1; apply EN; by apply Hs|].
    intros q id' u' Hq Ht'. apply (K q id' u'); [lia|done|]. intros ?. apply (Hl q); [lia|done].
  - intros Hl q id' u' Hq Ht'. apply (K q id' u'); [done|done|]. intros ?. by apply (Hl q).
Qed.

Lemma demangle_loop_ok osx first : forall n buffer w, scratch buffer -> (first + n <= length m)%nat ->
  exists o w', demangle_loop r n first v m did osx buffer w = Ok (o, w') /\ same_objects w w' /\ search_result osx first n w o.
Proof.
  induction n as [|n IH]; intros buffer w Hb Hn; cbn [demangle_loop]; [exists None, w; split_and!; [done|done|intros q ? ? ?; lia]|].
  assert (forall buffer' w1, scratch buffer' -> same_objects w w1 -> (forall id u, tag_at (first + n) = Some id -> ~ named w id u) ->
    exists o w', demangle_loop r n first v m did osx buffer' w1 = Ok (o, w') /\ same_objects w w' /\ search_result osx first (S n) w o) as again.
  { intros b1 w1 Hb1 S1 N. destruct (IH b1 w1 Hb1 ltac:(lia)) as (o & w' & -> & S2 & R). exists o, w'.
    split_and!; [done|intros i; by rewrite (S2 i), (S1 i)|by apply (search_next osx first n w w1)]. }
  destruct (drop (first + n) m) as [|c t] eqn:Ed; [apply (f_equal length) in Ed; rewrite length_drop in Ed; cbn in Ed; lia|].
  assert (forall id, tag_at (first + n) = Some id -> 0 < id < 2 ^ 32) as HR by (intros id Hi; by apply (tag_at_range (first + n))).
  unfold tag_at in again, HR. rewrite Ed in again, HR. destruct (c =? MANGLE_CHAR) eqn:Ec; cbn [negb]; [|by apply again].
  destruct (mangled_id t) as [[id ext]|] eqn:Em; [|by apply again]. specialize (HR _ eq_refl).
  destruct (find_object_ok (htonl id) w) as (w1 & -> & S1). destruct (object (htonl id) w) as [[pdid u]|] eqn:Eo.
  2: { apply again; [done|done|]. intros ? u [= <-] [Ho _]. congruence. }
  destruct (pdid =? did) eqn:Ep; cbn [negb]; [apply Z.eqb_eq in Ep as ->|].
  2: { apply again; [done|done|]. intros ? u' [= <-] [Ho _]. rewrite Eo in Ho. injection Ho as -> ->. by rewrite Z.eqb_refl in Ep. }
  destruct (object_ok _ _ _ _ Eo) as [[Hu _] _]. destruct (utompath_ok r v u (htonl id) (v_utf8 v) M Hu HR) as (m' & Em' & _). rewrite Em'. cbn [mbind res_bind].
  assert (m' <> m -> forall id' u', Some (htonl id) = Some id' -> ~ named w id' u') as other.
  { intros Hne ? u' [= <-] [Ho Hm]. rewrite Eo in Ho. injection Ho as ->. congruence. }
  assert (forall w', same_objects w w' -> (osx = false -> m' = m) ->
    exists o w'', Ok (Some (htonl id, u), w') = Ok (o, w'') /\ same_objects w w'' /\ search_result osx first (S n) w o) as found.
  { intros w' S' Hm. exists (Some (htonl id, u)), w'. split_and!; [done|done|]. exists n. split_and!; [lia|unfold tag_at; by rewrite Ed, Ec, Em|done| |lia].
    intros E0. split; [done|]. by rewrite Em', Hm. }
  case_bool_decide as Eq; [by apply found|]. destruct osx; [|by apply again; [..|apply other]].
  destruct (demangle_checks_ok r v u m (Z.of_nat (first + n)) ext buffer M Hu Hb) as (fd & b' & -> & Hb'). destruct fd; [by apply found|by apply again; [..|apply other]].
Qed.

Lemma tag_at_pre pre id ext : m = pre ++ tag id ++ ext -> extension_ok ext -> 0 < id < 2 ^ 32 -> CNID_START <= ntohl id -> tag_at (length pre) = Some id.
Proof.
  intros Em He Hid Hs. unfold tag_at. rewrite Em, drop_app_length. unfold tag. cbn [app]. rewrite Z.eqb_refl.
  rewrite mangled_id_back; [|pose proof (bswap32_range id); unfold ntohl in *; lia|done]. unfold htonl, ntohl. by rewrite bswap32_twice by lia.
Qed.

Lemma window_tag pre id ext : m = pre ++ tag id ++ ext -> extension_ok ext ->
  let window := Nat.min (length m) (Z.to_nat (MANGLE_LENGTH + MAX_EXT_LENGTH)) in
  exists p, length pre = (length m - window + p)%nat /\ (p < window)%nat.
Proof.
  intros -> [He _]. cbn zeta. destruct (tag_ok id) as [_ T]. rewrite !length_app. change (Z.to_nat (MANGLE_LENGTH + MAX_EXT_LENGTH)) with 14%nat.
  unfold MAX_EXT_LENGTH in He. exists (Nat.min (length pre) (14 - length (tag id) - length ext)). lia.
Qed.

(** No MANGLE_CHAR introduces a CNID behind the tag. *)
Lemma no_tag_behind pre id ext q : m = pre ++ tag id ++ ext -> MANGLE_CHAR ∉ ext -> (length pre < q)%nat -> tag_at q = None.
Proof.
  intros Em Hx Hq. unfold tag_at. destruct (drop q m) as [|c t] eqn:Ed; [done|]. case_test; [|done]. exfalso.
  assert (MANGLE_CHAR ∈ drop q m) as Hin by (rewrite Ed, <- E; by left). rewrite Em, drop_app_ge in Hin by lia.
  destruct (q - length pre)%nat as [|k] eqn:Ek; [lia|]. unfold tag in Hin. cbn [app drop] in Hin. rewrite drop_app in Hin.
  destruct (print_hex_ok (ntohl id)) as [_ HF]; [apply bswap32_range|]. rewrite Forall_forall in HF.
  apply elem_of_app in Hin as [Hin|Hin]; apply list_elem_of_lookup in Hin as [i Hi]; rewrite lookup_drop in Hi; apply list_elem_of_lookup_2 in Hi; [|done].
  apply HF in Hi. tauto.
Qed.

Lemma private_demangle_ok osx buffer w : scratch buffer ->
  exists o w', private_demangle r v m did osx buffer w = Ok (o, w') /\ same_objects w w' /\
    match o with
    | Some (id, u) => object id w = Some (did, u) /\ CNID_START <= ntohl id /\ (osx = false -> named w id u)
    | None => forall id u, 0 < id < 2 ^ 32 -> CNID_START <= ntohl id -> named w id u -> ~ mangled id m
    end.
Proof.
  intros Hb. unfold private_demangle. set (window := Nat.min _ _).
  destruct (demangle_loop_ok osx (length m - window) window buffer w Hb) as (o & w' & -> & So & R); [unfold window; lia|].
  exists o, w'. split_and!; [done|done|]. destruct o as [[id u]|]; cbn in R.
  - destruct R as (p & _ & Ht & Ho & Hn & _). split_and!; [done|by apply (tag_at_range _ _ Ht)|done].
  - intros id u Hid Hs Hn (pre & ext & _ & Hx & Em). destruct (window_tag pre id ext Em Hx) as (p & Ep & Hp).
    apply (R p id u); [done| |done]. fold window in Ep. rewrite <- Ep. by apply (tag_at_pre pre id ext).
Qed.

End demangle.

(** C12: The search for the object of a mangled name ends, changes no object, and answers
    right: what it gives is an object of the directory, whose name for the client is the
    name searched for when the exact form was asked; when it gives nothing, no object of
    the directory has that as its mangled name. *)
Theorem demangle_correct r v m did osx buffer `{CatalogLaws W} (w : W) : mounted r v -> scratch buffer ->
  exists o w', private_demangle r v m did osx buffer w = Ok (o, w') /\ same_objects w w' /\
    match o with
    | Some (id, u) => object id w = Some (did, u) /\ CNID_START <= ntohl id /\ (osx = false -> named r v did m w id u)
    | None => forall id u, 0 < id < 2 ^ 32 -> CNID_START <= ntohl id -> named r v did m w id u -> ~ mangled id m
    end.
Proof.
  intros M. by apply private_demangle_ok.
Qed.

(** C11: A mangled name leads back to its object: [mtoupath] of the name that [utompath] made
    gives the name on disk, unless the extension kept in it carries a MANGLE_CHAR too. *)
Theorem mangled_name_back r v did u id m pre ext buffer `{CatalogLaws W} (w : W) :
  mounted r v -> scratch buffer -> 0 < id < 2 ^ 32 -> CNID_START <= ntohl id -> did <> CNID_INVALID -> object id w = Some (did, u) ->
  utompath r v u id (v_utf8 v) = Ok (Some m) -> m = pre ++ tag id ++ ext -> extension_ok ext -> MANGLE_CHAR ∉ ext ->
  exists w', mtoupath r v m did (v_utf8 v) buffer w = Ok (Some u, w') /\ same_objects w w'.
Proof.
  intros M Hb Hid Hs Hd Ho Hm Em Hx Hnx. unfold mtoupath, demangle, private_demangle. rewrite (proj2 (Z.eqb_neq _ _) Hd). set (window := Nat.min _ _).
  destruct (demangle_loop_ok r v M did m false (length m - window) window buffer w Hb) as (o & w' & -> & So & R); [unfold window; lia|].
  destruct (window_tag m pre id ext Em Hx) as (p & Ep & Hp). fold window in Ep, Hp. pose proof (tag_at_pre m pre id ext Em Hx Hid Hs) as Ht.
  exists w'. destruct m as [|c m']; [by destruct pre|]. cbn [mbind res_bind]. destruct o as [[id' u']|]; unfold search_result in R.
  - destruct R as (p' & Hp' & Ht' & Ho' & _ & Hl). assert (p' = p) as ->.
    { destruct (lt_eq_lt_dec p p') as [[Hlt|]|Hlt]; [|done|].
      - rewrite (no_tag_behind _ pre id ext _ Em Hnx) in Ht' by lia. done.
      - exfalso. apply (Hl p id u); [lia|by rewrite <- Ep|done]. }
    rewrite <- Ep, Ht in Ht'. injection Ht' as <-. rewrite Ho in Ho'. injection Ho' as <-. done.
  - exfalso. apply (R p id u); [done|by rewrite <- Ep|done].
Qed.


(** ** A catalog, and the names of a volume *)

(** Objects by CNID, and entries of the cache that may be out of date; a name that no
    directory can hold names no object. *)
Record shelf := Shelf { objects : gmap Z (Z * list Z); entries : gmap Z dir }.

Definition possible (u : list Z) : Prop := name_ok u /\ SLASH ∉ u /\ zlen u < CNID_MAX_PATH_LEN.

#[export] Instance possible_decision u : Decision (possible u).
Proof. unfold possible, name_ok, byte. apply _. Defined.

Definition shelf_object (id : Z) (s : shelf) : option (Z * list Z) :=
  o ← objects s !! id; if decide (possible o.2) then Some o else None.

#[export] Instance shelf_catalog : Catalog shelf := {
  dircache_lookup_did id s := (d ← entries s !! id; if dcache_ino d =? id then Some d else None, s);
  pfd_ostat d s := (if bool_decide (shelf_object (dcache_ino d) s = Some (d_pdid d, d_u_name d))
                    then Some (Stat (dcache_ino d) (dcache_ctime d)) else None, s);
  cnid_resolve id s := (shelf_object id s, s)
}.

#[export] Instance shelf_laws : CatalogLaws shelf.
Proof.
  refine {| object := shelf_object |}; try done.
  - intros id w d st. cbn. destruct (entries w !! id) as [e|]; cbn; [|done]. case_test; [|done]. intros [= ->]. case_bool_decide; [|done]. by subst.
  - intros id w did u. unfold shelf_object. destruct (objects w !! id) as [[p n]|]; cbn; [|done]. case_match; [|done]. by intros [= -> ->].
Defined.

Definition name_registry : registry := Eval cbv in match
    (let r := (set_charset_name (set_charset_name registry_init CH_UNIX "UTF8"%string).2 CH_MAC "MAC_ROMAN"%string).2 in
     '(_, r) ← add_charset r "MAC_CYRILLIC"%string; Ok r) with Ok r => r | Abort _ => registry_init end.

(** A volume in UTF-8 of a client that takes 31 bytes. *)
Definition plain_volume : vol := Vol CH_UTF8 CH_MAC (mtou_flags 0 0) (utom_flags 0 0) 255 false.

Lemma plain_mounted : mounted name_registry plain_volume.
Proof.
  split; cbn.
  - by exists charset_utf8.
  - by exists charset_mac_roman.
  - by exists 0, 0.
  - by exists 0, 0.
Qed.

Lemma fresh_scratch : scratch (fresh (MAXPATHLEN + 2)).
Proof. split; [apply length_replicate|]. apply Forall_replicate. unfold byte. lia. Qed.

(** 40 letters and an extension. *)
Definition long_name : list Z := replicate 40 97 ++ [46; 116; 120; 116].

Definition long_id : Z := htonl 0x1234.

(** The directory 2 holds it; the cache has an old name for it. *)
Definition one_shelf : shelf := Shelf {[ long_id := (2, long_name) ]} {[ long_id := Dir 2 [98] long_id 0 true ]}.

Definition long_mangled : list Z := replicate 22 97 ++ tag long_id ++ [46; 116; 120; 116].

Lemma utompath_fits_witness : exists m, utompath name_registry plain_volume long_name long_id false = Ok (Some m) /\ zlen m <= 31.
Proof.
  destruct (utompath_fits name_registry plain_volume long_name long_id false) as (m & E & Hl & _); [apply plain_mounted|by apply byte_list|done|]. eauto.
Defined.

Lemma mangled_name_back_witness : exists w', mtoupath name_registry plain_volume long_mangled 2 false (fresh (MAXPATHLEN + 2)) one_shelf = Ok (Some long_name, w').
Proof.
  destruct (mangled_name_back name_registry plain_volume 2 long_name long_id long_mangled (replicate 22 97) [46; 116; 120; 116] (fresh (MAXPATHLEN + 2)) one_shelf)
    as (w' & E & _); [apply plain_mounted|apply fresh_scratch|done|done|done|by vm_compute|by vm_compute|done| | |eauto].
  - split; [done|right; by eexists].
  - set_solver by lia.
Defined.

Lemma demangle_correct_witness : exists o w', private_demangle name_registry plain_volume [97; 35; 49; 50] 2 true (fresh (MAXPATHLEN + 2)) one_shelf = Ok (o, w').
Proof.
  destruct (demangle_correct name_registry plain_volume [97; 35; 49; 50] 2 true (fresh (MAXPATHLEN + 2)) one_shelf) as (o & w' & E & _);
    [apply plain_mounted|apply fresh_scratch|]. eauto.
Defined.


(** A volume that has the set of the Mac on disk keeps the slash of a client. *)
Example mac_volume_keeps_slash (w : shelf) :
  mtoupath name_registry (Vol CH_UTF8_MAC CH_MAC (mtou_flags 0 0) (utom_flags 0 0) 255 false) [46; 46; 47; 120] 0 true [] w = Ok (Some [46; 46; 47; 120], w).
Proof. by vm_compute. Qed.

(** ** A volume with a Mac set of its own *)

(** The slot that [add_charset] gives to the set of a volume, when it is not the global
    one, is not CH_MAC, and the conversion takes names in it for names of no Mac. *)
Definition own_set_volume : vol := Vol CH_UTF8 5 (mtou_flags 0 0) (utom_flags 0 0) 255 false.

(** On such a volume a slash in the name of a client with 31 bytes names goes into the path on disk,
    and a colon on disk goes to the client; on a volume with the global set each stands
    for the other. *)
Theorem own_mac_set_keeps_slash :
  add_charset name_registry "MAC_CYRILLIC" = Ok (Some 5, name_registry) /\
  (forall w : shelf, mtoupath name_registry own_set_volume [46; 46; 47; 120] 0 false [] w = Ok (Some [46; 46; 47; 120], w)) /\
  (forall w : shelf, mtoupath name_registry plain_volume [46; 46; 47; 120] 0 false [] w = Ok (Some [46; 46; 58; 120], w)) /\
  utompath name_registry own_set_volume [97; 58; 98] long_id false = Ok (Some [97; 58; 98]) /\
  utompath name_registry plain_volume [97; 58; 98] long_id false = Ok (Some [97; 47; 98]).
Proof.
  split_and!; [by vm_compute|..].
  - intros w. by vm_compute.
  - intros w. by vm_compute.
  - by vm_compute.
  - by vm_compute.
Qed.

(** The prefix of a mangled name is no prefix of the name: [mangle] converts it with the
    escapes read, so that a slash of the client's name followed by two hexadecimal digits
    becomes one other character, and any other ends the prefix. *)
Theorem mangled_prefix_unescapes :
  utompath name_registry plain_volume ([97; 58; 98; 97] ++ replicate 4 99) long_id false = Ok (Some ([97; 47; 98; 97] ++ replicate 4 99)) /\
  utompath name_registry plain_volume ([97; 58; 98; 97] ++ replicate 40 99) long_id false = Ok (Some ([97; 0xba] ++ replicate 24 99 ++ tag long_id)) /\
  utompath name_registry plain_volume ([97; 58; 122] ++ replicate 40 99) long_id false = Ok (Some ([97] ++ tag long_id)).
Proof. by vm_compute. Qed.
