(* ===== verification/NameText.v ===== *)
(** * Names as text

    The code points of well-formed units, their UTF-8 form, and the colons and slashes that
    stand for each other on the two sides of a conversion. *)

From stdpp Require Import strings.
From S2P Require Import Prelude Bytes Utf8 Utf8Theorems Unicode UnicodeTables UnicodeFacts UnicodeCompose UnicodeTheorems.
From S2P Require Import CharsetTables Charsets Charcnv CharsetFacts CharcnvFacts CharcnvSafe Punctuation CharcnvTheorems.

(** ** Code points *)

Fixpoint points (us : list Z) : list Z :=
  match us with
  | [] => []
  | u :: us =>
      if is_high u then
        match us with
        | lo :: us => (u - 0xD800) * 1024 + (lo - 0xDC00) + 0x10000 :: points us
        | [] => []
        end
      else u :: points us
  end.

Definition encoded (us : list Z) : list Z := to8 (points us).

(** Induction over the characters of a text. *)
Lemma text_ind (P : list Z -> Prop) :
  P [] ->
  (forall hi lo us, is_high hi = true -> is_low lo = true -> wf us = true -> P us -> P (hi :: lo :: us)) ->
  (forall u us, unit16 u -> is_high u = false -> is_low u = false -> wf us = true -> P us -> P (u :: us)) ->
  forall us, wf us = true -> P us.
Proof.
  intros H0 H2 H1. assert (forall n us, (length us <= n)%nat -> wf us = true -> P us) as K; [|intros us Hw; by apply (K (length us))].
  induction n as [|n IH]; intros us Hn Hw; (destruct us as [|u us]; [done|]); cbn in Hn; [lia|].
  apply wf_cons in Hw as [Uu [(Hh & lo & rest & -> & Hl & Hw)|(Hh & Hl & Hw)]].
  - apply H2; [done|done|done|]. apply IH; [cbn in Hn; lia|done].
  - apply H1; [done|done|done|done|]. apply IH; [lia|done].
Qed.

Lemma surrogates hi lo : is_high hi = true -> is_low lo = true ->
  let cp := (hi - 0xD800) * 1024 + (lo - 0xDC00) + 0x10000 in
  0x10000 <= cp < 0x110000 /\ utf16 cp = Utf8Theorems.unit16 hi ++ Utf8Theorems.unit16 lo.
Proof.
  intros Hh%is_high_range Hl%is_low_range. cbn zeta. split; [lia|]. unfold utf16. case_test; [lia|]. f_equal; f_equal; zmod.
Qed.

Lemma points_scalar us : wf us = true -> Forall scalar (points us).
Proof.
  revert us. apply text_ind; [|intros hi lo us Hh Hl _ IH|intros u us Uu Hh Hl _ IH]; cbn [points]; [constructor|rewrite Hh..].
  - constructor; [|done]. pose proof (surrogates hi lo Hh Hl) as [R _]. unfold scalar. lia.
  - constructor; [|done]. unfold scalar, unit16, is_high, is_low in *. lia.
Qed.

Lemma points_to16 us : wf us = true -> to16 (points us) = bytes_of_units us.
Proof.
  unfold to16. revert us. apply text_ind; [|intros hi lo us Hh Hl _ IH|intros u us Uu Hh Hl _ IH]; cbn [points]; [done|rewrite Hh..]; rewrite fmap_cons; cbn [concat]; rewrite IH.
  - rewrite (proj2 (surrogates hi lo Hh Hl)). apply is_high_range in Hh. apply is_low_range in Hl. rewrite !bytes_of_units_cons, !SSVAL_bytes by lia. by rewrite <- app_assoc.
  - unfold utf16, unit16 in *. rewrite (proj2 (Z.ltb_lt _ _)) by lia. by rewrite bytes_of_units_cons, SSVAL_bytes by lia.
Qed.

(** A unit takes a byte at least. *)
Lemma encoded_length us : wf us = true -> (length us <= length (encoded us))%nat.
Proof.
  unfold encoded, to8. revert us. apply text_ind; [|intros hi lo us Hh Hl _ IH|intros u us Uu Hh Hl _ IH]; cbn [points]; [done|rewrite Hh..];
    rewrite fmap_cons; cbn [concat length]; rewrite length_app.
  - pose proof (surrogates hi lo Hh Hl) as [R _]. unfold utf8 at 1. do 3 (case_test; [lia|]). cbn [length]. lia.
  - pose proof (utf8_length u). lia.
Qed.

Lemma utf8_bytes cp : scalar cp -> Forall byte (utf8 cp) /\ (0 ∈ utf8 cp -> cp = 0).
Proof.
  unfold scalar, utf8, byte. intros Hs.
  repeat case_test; (split; [repeat constructor; zmod|]); rewrite !elem_of_cons; intros Hin; decompose [or] Hin; try lia; try (by apply not_elem_of_nil in H0); try zmod;
    exfalso; repeat match goal with H : _ ∈ [] |- _ => by apply not_elem_of_nil in H end; zmod.
Qed.

(** ** Decomposition keeps text text *)

(** What a name must not hold besides slashes: NUL, and the marks that UTF-8 loses. *)
Definition lost (x : Z) : bool := (x =? 0) || ((0x202A <=? x) && (x <=? 0x202E)).

Lemma parts_not_lost r b c : composes r b c -> lost b = false /\ lost c = false.
Proof.
  intros H. pose proof (forallb_elem (fun e => negb (lost (base e)) && negb (lost (comb e))) precompositions (Comp r b c) ltac:(vm_compute; reflexivity) H) as K.
  cbn [base comb] in K. apply andb_true_iff in K as [K1 K2]. by rewrite negb_true_iff in K1, K2.
Qed.

Definition plain_unit (x : Z) : Prop := unit16 x /\ is_high x = false /\ is_low x = false.

Lemma range_plain x : (0 <= x < 0xD800 \/ 0xE000 <= x < 2 ^ 16) <-> plain_unit x.
Proof. unfold plain_unit, unit16, is_high, is_low. lia. Qed.

Lemma dec_unit_text n : forall u x, length (dec_unit u) = n -> plain_unit u -> x ∈ dec_unit u -> plain_unit x /\ (lost x = true -> x = u).
Proof.
  induction n as [n IH] using lt_wf_ind. intros u x Hl Hu Hx. destruct (hangul u) eqn:Hh.
  - rewrite dec_unit_hangul in Hx by done. unfold hangul in Hh. rewrite <- range_plain. unfold lost, LBASE, VBASE, TBASE, SBASE, NCOUNT, SCOUNT, TCOUNT in *.
    destruct (_ =? 0) in Hx; set_unfold in Hx; zmod.
  - destruct (do_decomposition_cases u) as [(b & c & Hc & _)|[_ Hn]].
    + destruct (dec_unit_composes _ _ _ Hc) as [E0 _]. rewrite E0 in Hx. pose proof (composes_range _ _ _ Hc) as (_ & Rb & Rc). destruct (parts_not_lost _ _ _ Hc) as [Lb Lc].
      apply elem_of_app in Hx as [Hx|Hx].
      * destruct (IH (length (dec_unit b)) ltac:(rewrite <- Hl, E0, length_app; cbn; lia) b x eq_refl ltac:(apply range_plain; lia) Hx) as [I1 I2].
        split; [done|]. intros Hp. rewrite (I2 Hp) in Hp. congruence.
      * apply list_elem_of_singleton in Hx as ->. split; [apply range_plain; lia|congruence].
    + rewrite dec_unit_plain in Hx by done. by apply list_elem_of_singleton in Hx as ->.
Qed.

Lemma dec_pair_text hi lo x : is_high hi = true -> is_low lo = true -> x ∈ dec_pair (pair hi lo) -> 0xD7C0 <= x < 2 ^ 16.
Proof.
  intros Hh%is_high_range Hl%is_low_range. destruct (do_decomposition_sp_cases (pair hi lo)) as [(b & c & Hc & _)|[_ Hn]].
  - apply dec_pair_high in Hc. rewrite Forall_forall in Hc. apply Hc.
  - rewrite dec_pair_plain, pair_hi, pair_lo by (done || unfold unit16; lia). intros Hx. set_unfold in Hx. lia.
Qed.

Lemma dec_lost us : wf us = true -> forall x, x ∈ dec us -> lost x = true -> x ∈ us.
Proof.
  revert us. apply (text_ind (fun us => forall x, x ∈ dec us -> lost x = true -> x ∈ us)); [done|intros hi lo us Hh Hl _ IH|intros u us Uu Hh Hl _ IH].
  - rewrite dec_surrogates by done. intros x [Hx|Hx]%elem_of_app Hp; [apply dec_pair_text in Hx; [|done..]; unfold lost in Hp; lia|]. do 2 right. by apply IH.
  - rewrite dec_plain by done. intros x [Hx|Hx]%elem_of_app Hp; [|right; by apply IH].
    apply (dec_unit_text (length (dec_unit u))) in Hx as [_ Hx]; [|done..]. rewrite (Hx Hp). left.
Qed.

(** ** Colons and slashes *)

(** A colon on disk is a slash to the client, and the other way round. *)
Definition to_client (x : Z) : Z := if x =? COLON then SLASH else x.
Definition to_disk (x : Z) : Z := if x =? SLASH then COLON else x.

Lemma dec_unit_colon : dec_unit COLON = [COLON] /\ dec_unit SLASH = [SLASH].
Proof. done. Qed.

Lemma to_client_fixed us : Forall (fun x => punct x = false) us -> to_client <$> us = us.
Proof.
  induction 1 as [|x us Hx _ IH]; [done|]. rewrite fmap_cons, IH. f_equal. unfold to_client, punct in *. case_test; [|done].
  subst. done.
Qed.

(** Decomposition does not see which of the two it is. *)
Lemma dec_to_client us : wf us = true -> dec (to_client <$> us) = to_client <$> dec us.
Proof.
  revert us. apply text_ind; [done|intros hi lo us Hh Hl _ IH|intros u us Uu Hh Hl _ IH]; rewrite !fmap_cons.
  - assert (to_client hi = hi /\ to_client lo = lo) as [-> ->].
    { apply is_high_range in Hh. apply is_low_range in Hl. unfold to_client, COLON. by do 2 (case_test; [lia|]). }
    rewrite !dec_surrogates, IH, fmap_app by done. f_equal. symmetry. apply to_client_fixed, Forall_forall. intros x Hx.
    apply dec_pair_text in Hx; [|done..]. unfold punct, DOT, SLASH, COLON. lia.
  - destruct (decide (u = COLON)) as [->|Hc]; [change (to_client COLON) with SLASH; rewrite !dec_plain, IH, fmap_app by done; done|].
    assert (to_client u = u) as -> by (unfold to_client; by case_test). rewrite !dec_plain, IH, fmap_app by done. f_equal. symmetry.
    destruct (punct u) eqn:Hp.
    + assert (u = DOT \/ u = SLASH) as [->| ->] by (unfold punct in Hp; lia); done.
    + apply to_client_fixed, Forall_forall. intros x Hx. apply not_true_is_false. intros Hx'.
      apply (dec_unit_punct (length (dec_unit u))) in Hx as [_ Hx]; [|done..]. rewrite (Hx Hx') in Hx'. congruence.
Qed.

Lemma back_to_disk (us : list Z) : SLASH ∉ us -> to_disk <$> (to_client <$> us) = us.
Proof.
  induction us as [|u us IH]; [done|]. intros H. rewrite !fmap_cons, IH by set_solver. f_equal. destruct (decide (u = COLON)) as [->|Hc]; [done|].
  assert (u <> SLASH) as Hs by set_solver. unfold to_disk, to_client. by rewrite (proj2 (Z.eqb_neq _ _) Hc), (proj2 (Z.eqb_neq _ _) Hs).
Qed.

Lemma to_client_text us : wf us = true -> wf (to_client <$> us) = true.
Proof.
  revert us. apply text_ind; [done|intros hi lo us Hh Hl _ IH|intros u us Uu Hh Hl _ IH]; rewrite !fmap_cons.
  - assert (to_client hi = hi /\ to_client lo = lo) as [-> ->].
    { apply is_high_range in Hh. apply is_low_range in Hl. unfold to_client, COLON. by do 2 (case_test; [lia|]). }
    cbn [wf]. rewrite Hh, Hl, IH. apply is_high_range in Hh. lia.
  - set (w := to_client <$> us) in *. unfold to_client. case_test; cbn [wf]; rewrite IH; [done|]. rewrite Hh, Hl. unfold unit16 in Uu. lia.
Qed.

Lemma points_lost us : wf us = true -> Forall (fun x => lost x = false) us -> Forall (fun x => lost x = false) (points us).
Proof.
  revert us. apply (text_ind (fun us => Forall _ us -> Forall _ (points us))); [done|intros hi lo us Hh Hl _ IH|intros u us Uu Hh Hl _ IH]; cbn [points]; rewrite Hh.
  - intros [_ [_ H]%Forall_cons]%Forall_cons. constructor; [|by apply IH]. pose proof (surrogates hi lo Hh Hl) as [R _]. unfold lost. lia.
  - intros [? H]%Forall_cons. constructor; [done|by apply IH].
Qed.

Lemma wf_units us : wf us = true -> Forall unit16 us.
Proof.
  revert us. apply text_ind; [done|intros hi lo us Hh Hl _ IH|intros u us Uu Hh Hl _ IH]; repeat constructor; try done;
    unfold is_high, is_low, unit16 in *; lia.
Qed.

Lemma encoded_name us : wf us = true -> Forall (fun x => lost x = false) us -> Forall byte (encoded us) /\ 0 ∉ encoded us.
Proof.
  intros Hw Hl. pose proof (points_scalar us Hw) as HS. pose proof (points_lost us Hw Hl) as HL. unfold encoded, to8.
  induction (points us) as [|cp cps IH]; [by split; [constructor|apply not_elem_of_nil]|].
  apply Forall_cons in HS as [S1 HS]. apply Forall_cons in HL as [L1 HL]. destruct (IH HS HL) as [I1 I2]. destruct (utf8_bytes cp S1) as [U1 U2].
  rewrite fmap_cons. cbn [concat]. split; [by apply Forall_app|]. intros [Hin|Hin]%elem_of_app; [|done]. by rewrite (U2 Hin) in L1.
Qed.

Lemma to_client_lost us : Forall (fun x => lost x = false) us -> Forall (fun x => lost x = false) (to_client <$> us).
Proof. induction 1 as [|x us Hx _ IH]; [constructor|]. rewrite fmap_cons. constructor; [|done]. unfold to_client. by case_test. Qed.

Lemma dec_not_lost us : wf us = true -> Forall (fun x => lost x = false) us -> Forall (fun x => lost x = false) (dec us).
Proof.
  intros Hw Hl. apply Forall_forall. intros x Hx. apply not_true_is_false. intros Hx'. pose proof (dec_lost us Hw x Hx Hx') as Hin.
  rewrite Forall_forall in Hl. apply Hl in Hin. congruence.
Qed.
