(* ===== verification/NameTheorems.v ===== *)
(** * Names that need no mangling

    A name of a UTF-8 volume goes to a client of AFP 3 and back without a change: the
    composition of the decomposed form, the colons and the slashes all return. *)

From stdpp Require Import strings gmap.
From S2P Require Import Prelude Bytes Utf8 Utf8Theorems Unicode UnicodeTables UnicodeFacts UnicodeCompose UnicodeTheorems.
From S2P Require Import CharsetTables Charsets Charcnv CharsetFacts CharcnvFacts CharcnvSafe Punctuation CharcnvTheorems Mangle MangleFacts MangleTheorems NameText.

Section text.
Context (r : registry) (from_set to_set cap_set flags : Z) (from to : charset_functions) (f : Z -> Z).
Context (Efrom : charset_of r from_set = Some from) (Pfrom : pull from = utf8_pull) (Hwide : from_set <> CH_UCS2).
Context (Eto : charset_of r to_set = Some to) (Pto : push to = utf8_push).
Context (Hesc : has flags CONV_ESCAPEHEX = false) (Hun : has flags CONV_UNESCAPEHEX = false).
Context (Hup : has flags CONV_TOUPPER = false) (Hlow : has flags CONV_TOLOWER = false).
Context (Hemit : forall first c, emit_char from_set to_set flags first c = ([f c], false)).

Lemma decode_text us decoded_len : wf us = true -> 2 * zlen us <= decoded_len ->
  decode_source_ucs2 (Some from) false (encoded us) decoded_len flags = inr (bytes_of_units us, [], flags).
Proof using Pfrom.
  intros Hw Hl. unfold decode_source_ucs2. destruct (decide (us = [])) as [->|Hne]; [done|]. pose proof (encoded_length us Hw) as He.
  assert (pull from (Conv (encoded us) [] decoded_len) = (None, Conv [] (bytes_of_units us) (decoded_len - zlen (bytes_of_units us)))) as P.
  { rewrite Pfrom. unfold utf8_pull, encoded. cbn [inbuf]. rewrite (pull_loop_text (points us) _ []), points_to16 by
      (try done; rewrite ?points_to16 by done; rewrite ?bytes_of_units_length; first [by apply points_scalar|pose proof (to8_length (points us)); lia]). done. }
  destruct (encoded us) as [|b bs]; [destruct us; [done|cbn in He; lia]|].
  cbn [decode_loop]. by rewrite firstn_all, drop_all, P.
Qed.

Lemma emit_text : forall us fuel first out outleft, (length us < fuel)%nat -> 2 * zlen us <= outleft ->
  emit_loop from_set to_set (charset_of r cap_set) flags fuel first us out outleft flags = inr (out ++ bytes_of_units (f <$> us), flags).
Proof using Hun Hemit.
  induction us as [|c us IH]; intros fuel first out outleft Hf Hl; (destruct fuel as [|fuel]; [cbn in Hf; lia|]); cbn [emit_loop]; [by rewrite app_nil_r|].
  rewrite Hun, andb_false_r, Hemit. cbn [length] in *. rewrite (proj2 (Z.ltb_ge _ _)) by lia. rewrite IH by lia.
  rewrite fmap_cons, bytes_of_units_cons. unfold bytes_of_units at 1. cbn [mbind list_bind]. by rewrite app_nil_r, <- app_assoc.
Qed.

Lemma push_text ws destlen : wf ws = true -> Forall (fun x => lost x = false) ws -> ws <> [] -> zlen (encoded ws) <= destlen ->
  one_push to (bytes_of_units ws) destlen = (None, Conv [] (encoded ws) (destlen - zlen (encoded ws))).
Proof using Pto.
  intros Hw Hlost Hne Hl. unfold one_push. rewrite bytes_of_units_length. destruct ws as [|w ws]; [done|].
  rewrite (proj2 (Nat.ltb_ge _ _)) by (cbn [length]; lia). rewrite Pto. unfold utf8_push. cbn [inbuf]. rewrite <- points_to16 by done.
  assert (concat (pushed <$> points (w :: ws)) = encoded (w :: ws)) as Ep.
  { rewrite pushed_to8. unfold encoded. f_equal. apply list_filter_all. pose proof (points_lost _ Hw Hlost) as HF. rewrite Forall_forall in HF.
    intros x Hx%HF. unfold lost, bidi in *. lia. }
  rewrite (push_loop_text (points (w :: ws)) _ []); rewrite ?Ep; [done|by apply points_scalar|pose proof (to16_length (points (w :: ws))); lia|done|].
  intros Hb. exfalso. apply Exists_exists in Hb as (x & Hx & Hb). pose proof (points_lost _ Hw Hlost) as HF. rewrite Forall_forall in HF. apply HF in Hx.
  unfold lost, bidi in *. lia.
Qed.

Lemma convert_text us dest dest_len : wf us = true -> us <> [] -> zlen us <= MAXPATHLEN ->
  let ws := formed (form_of r from_set to_set flags) (f <$> us) in
  wf ws = true -> Forall (fun x => lost x = false) ws -> ws <> [] -> Forall unit16 (f <$> us) -> zlen (encoded ws) <= MAXPATHLEN -> zlen (encoded ws) <= dest_len - 2 -> dest_len <= zlen dest ->
  exists dest', convert_charset r true from_set to_set cap_set (encoded us) dest dest_len flags = Ok (Some (zlen (encoded ws)), dest', flags) /\
    take (length (encoded ws)) dest' = encoded ws.
Proof using Efrom Pfrom Hwide Eto Pto Hesc Hun Hup Hlow Hemit.
  intros Hw Hne Hl ws Hw' Hlost Hne' Hf Hm Hd Hdest. pose proof (encoded_length ws Hw') as Hel. unfold MAXPATHLEN in *.
  assert (pull_charset_flags r from_set to_set cap_set (encoded us) (buffer_size - 2) flags = inr (bytes_of_units (f <$> us), flags)) as Ep.
  { unfold pull_charset_flags, decoded_len. rewrite Efrom, Hun. rewrite (proj2 (Z.eqb_neq _ _) Hwide), decode_text by (done || unfold MAXPATHLEN; lia).
    unfold emit_filename_chars. pose proof (wf_units us Hw) as Hu. rewrite units_of_bytes by done. rewrite emit_text by (unfold buffer_size, MAXPATHLEN; lia). done. }
  unfold convert_charset. rewrite Ep. rewrite (proj2 (Z.ltb_ge _ _)) by lia.
  assert (bytes_of_units (f <$> us) <> []) as Hb by (intros E0; apply (f_equal length) in E0; rewrite bytes_of_units_length, length_fmap in E0; destruct us; [done|cbn in E0; lia]).
  rewrite bool_decide_false by done.
  assert (zlen (bytes_of_units (f <$> us)) <= buffer_size - 2) as Hs by (rewrite bytes_of_units_length, length_fmap; unfold buffer_size, MAXPATHLEN; lia).
  destruct (composed_name_ok r from_set to_set _ flags Hb Hs) as (u & -> & Hu & _). specialize (Hu (bytes_of_units_even _) (bytes_of_units_bytes _)).
  rewrite units_of_bytes in Hu by done. fold ws in Hu. rewrite (proj2 (Z.leb_le _ _)), orb_true_r in Hu by (unfold buffer_size, MAXPATHLEN; lia). subst u.
  cbn [mbind res_bind]. rewrite (proj2 (Z.ltb_ge _ _)) by (rewrite bytes_of_units_length; unfold buffer_size, MAXPATHLEN; lia).
  unfold cased. rewrite Hup, Hlow. cbn [orb mbind res_bind]. rewrite (push_once r true to) by (done || apply bytes_of_units_bytes || lia).
  rewrite push_text by done. cbn [inbuf outbuf]. cbn zeta. rewrite bool_decide_false, bool_decide_true by done. cbn [andb orb mbind res_bind].
  eexists. split; [done|]. unfold blit at 1. rewrite Nat2Z.id. rewrite take_app_le by (rewrite length_take_le; [lia|rewrite blit_0, length_app; lia]).
  rewrite take_take, Nat.min_id. apply written_front.
Qed.

End text.

(** ** Both ways *)

(** A volume in UTF-8 without case folding, and a client of AFP 3. *)
Record utf8_volume (v : vol) : Prop := {
  in_utf8 : v_volcharset v = CH_UTF8;
  client_utf8 : v_utf8 v = true;
  mtou_plain : exists fl, v_mtou_flags v = mtou_flags fl 0;
  utom_plain : exists fl, v_utom_flags v = utom_flags fl 0
}.

(** A text that can be a name: composed, with a decomposition that is a text, without
    slashes and without the characters that get lost. *)
Record name_text (us : list Z) : Prop := {
  text_units : wf us = true;
  text_composed : settled us = true;
  text_decomposed : wf (dec us) = true;
  text_one : us <> [];
  text_component : SLASH ∉ us;
  text_kept : Forall (fun x => lost x = false) us
}.

(** What the client sees. *)
Definition client_name (us : list Z) : list Z := encoded (to_client <$> dec us).

Section name.
Context (r : registry) (v : vol) (V : utf8_volume v) (us : list Z) (T : name_text us).
Context (Hdisk : zlen (encoded us) <= MAXPATHLEN) (Hclient : zlen (client_name us) <= UTF8FILELEN_EARLY).

Lemma to_client_name cap dest dest_len flags : UTF8FILELEN_EARLY <= dest_len - 2 -> dest_len <= zlen dest -> (exists fl, flags = utom_flags fl 0) ->
  exists dest', convert_charset r true CH_UTF8 CH_UTF8_MAC cap (encoded us) dest dest_len flags = Ok (Some (zlen (client_name us)), dest', flags) /\
    take (length (client_name us)) dest' = client_name us.
Proof using T Hdisk Hclient.
  intros H1 H2 [fl ->]. destruct T as [Hw _ Hwd Hne _ Hk]. pose proof (encoded_length us Hw) as Hl.
  assert (forall first c, emit_char CH_UTF8 CH_UTF8_MAC (utom_flags fl 0) first c = ([to_client c], false)) as He.
  { intros first c. unfold emit_char, to_client. rewrite (proj1 (utom_escapes fl 0)).
    replace (has (utom_flags fl 0) CONV_ESCAPEDOTS) with false by (unfold utom_flags; by destruct (has fl _)).
    change (is_mac CH_UTF8_MAC) with true. rewrite !andb_false_r, andb_true_r. by case_match. }
  pose proof (convert_text r CH_UTF8 CH_UTF8_MAC cap (utom_flags fl 0) charset_utf8 charset_utf8_mac to_client eq_refl eq_refl ltac:(done) eq_refl eq_refl) as K.
  assert (form_of r CH_UTF8 CH_UTF8_MAC (utom_flags fl 0) = Decomposed) as Ef by (unfold form_of; cbn; by rewrite orb_true_r).
  rewrite Ef in K. cbn [formed] in K. specialize (K (proj1 (utom_escapes fl 0)) (proj2 (utom_escapes fl 0))).
  specialize (K ltac:(unfold utom_flags; by destruct (has fl _)) ltac:(unfold utom_flags; by destruct (has fl _)) He us dest dest_len Hw Hne ltac:(lia)).
  rewrite dec_to_client in K by done. fold (client_name us) in K. unfold UTF8FILELEN_EARLY, MAXPATHLEN in *.
  apply K; [by apply to_client_text|by apply to_client_lost, dec_not_lost| |by apply wf_units, to_client_text|lia|lia|done].
  intros E0%fmap_nil_inv. by apply (dec_nonempty us).
Qed.

Lemma to_disk_name cap dest dest_len flags : MAXPATHLEN <= dest_len - 2 -> dest_len <= zlen dest -> (exists fl, flags = mtou_flags fl 0) ->
  exists dest', convert_charset r true CH_UTF8_MAC CH_UTF8 cap (client_name us) dest dest_len flags = Ok (Some (zlen (encoded us)), dest', flags) /\
    take (length (encoded us)) dest' = encoded us.
Proof using T Hdisk Hclient.
  intros H1 H2 [fl ->]. destruct T as [Hw Hst Hwd Hne Hsl Hk]. set (ds := to_client <$> dec us).
  assert (wf ds = true) as Hds by by apply to_client_text. pose proof (encoded_length ds Hds) as Hl. change (encoded ds) with (client_name us) in Hl.
  assert (to_disk <$> ds = dec us) as Eds.
  { apply back_to_disk. intros Hin. apply (dec_punct (length us)) in Hin as [_ Hin]; [|done|by apply wf_units]. by apply Hsl, Hin. }
  assert (forall first c, emit_char CH_UTF8_MAC CH_UTF8 (mtou_flags fl 0) first c = ([to_disk c], false)) as He.
  { intros first c. unfold emit_char, to_disk. rewrite (proj1 (mtou_escapes fl 0)).
    replace (has (mtou_flags fl 0) CONV_ESCAPEDOTS) with false by (unfold mtou_flags; by destruct (has fl _)).
    change (is_mac CH_UTF8_MAC) with true. change (is_mac CH_UTF8) with false. rewrite !andb_false_r, !andb_true_r. by case_match. }
  pose proof (convert_text r CH_UTF8_MAC CH_UTF8 cap (mtou_flags fl 0) charset_utf8_mac charset_utf8 to_disk eq_refl eq_refl ltac:(done) eq_refl eq_refl) as K.
  assert (form_of r CH_UTF8_MAC CH_UTF8 (mtou_flags fl 0) = Precomposed) as Ef by (unfold form_of, mtou_flags; cbn; by destruct (has fl AFPVOL_EILSEQ)).
  rewrite Ef in K. cbn [formed] in K. specialize (K (proj1 (mtou_escapes fl 0)) (proj2 (mtou_escapes fl 0))).
  specialize (K ltac:(unfold mtou_flags; by destruct (has fl _)) ltac:(unfold mtou_flags; by destruct (has fl _)) He ds dest dest_len Hds).
  unfold UTF8FILELEN_EARLY, MAXPATHLEN in *. rewrite Eds, (composed_dec (length us)) in K by done.
  apply K; [|lia|done|done|done|by apply wf_units|lia|lia|done].
  intros E0%fmap_nil_inv. by apply (dec_nonempty us).
Qed.

End name.

(** C10: A name that fits the client goes there and back: the client sees the decomposed
    form, with the colons as slashes, and [mtoupath] of that is the name on disk again,
    unless the directory holds another object whose mangled name is the same. *)
Theorem plain_name_back r v us id did buffer `{CatalogLaws W} (w : W) :
  mounted r v -> utf8_volume v -> name_text us -> scratch buffer -> zlen (encoded us) <= MAXPATHLEN -> zlen (client_name us) <= UTF8FILELEN_EARLY ->
  utompath r v (encoded us) id true = Ok (Some (client_name us)) /\
  exists u w', mtoupath r v (client_name us) did true buffer w = Ok (Some u, w') /\ same_objects w w' /\
    (u = encoded us \/ exists id', named r v did (client_name us) w id' u).
Proof.
  intros M V T Hb Hd Hc. destruct V as [Vset Vcl Vm Vu]. pose proof T as [Hw _ Hwd Hne _ Hk].
  assert (zlen (fresh (MAXPATHLEN + 2)) = MAXPATHLEN + 2) as Hfresh by (unfold fresh; rewrite length_replicate; unfold MAXPATHLEN; lia).
  assert (forall us, wf us = true -> Forall (fun x => lost x = false) us -> cstr (encoded us) = encoded us) as Hcstr
    by (intros x X1 X2; apply cstr_id; by apply encoded_name). split.
  - unfold utompath. cbn [client_charset]. rewrite Vset. destruct (to_client_name r us T Hd Hc (v_maccharset v) (fresh (MAXPATHLEN + 2)) (MAXPATHLEN + 2) (v_utom_flags v))
      as (dest & -> & Ht); [done|lia|done|]. cbn [mbind res_bind]. rewrite Nat2Z.id, Ht. destruct Vu as [fl ->].
    replace (has (utom_flags fl 0) CONV_REQMANGLE) with false by (unfold utom_flags; by destruct (has fl _)).
    unfold mangle. rewrite (proj2 (Z.leb_le _ _)) by done. cbn [negb andb]. unfold client_name.
    rewrite Hcstr; [done|by apply to_client_text|by apply to_client_lost, dec_not_lost].
  - unfold mtoupath. assert (client_name us <> []) as Hcn.
    { intros E0. pose proof (encoded_length (to_client <$> dec us) (to_client_text _ Hwd)) as Hl. fold (client_name us) in Hl. rewrite E0, length_fmap in Hl. cbn in Hl.
      pose proof (dec_nonempty us Hne). destruct (dec us); [done|cbn in Hl; lia]. }
    assert (forall w1, same_objects w w1 -> exists u w', ('(len, upath, _) ← convert_charset r true (client_charset v true) (v_volcharset v) (v_maccharset v) (client_name us)
      (fresh (MAXPATHLEN + 2)) (MAXPATHLEN + 2) (v_mtou_flags v); Ok (match len with Some n => Some (cstr (take (Z.to_nat n) upath)) | None => None end, w1)) = Ok (Some u, w') /\
      same_objects w w' /\ (u = encoded us \/ exists id', named r v did (client_name us) w id' u)) as K.
    { intros w1 S1. cbn [client_charset]. rewrite Vset. destruct (to_disk_name r us T Hd Hc (v_maccharset v) (fresh (MAXPATHLEN + 2)) (MAXPATHLEN + 2) (v_mtou_flags v))
        as (dest & -> & Ht); [lia|lia|done|]. cbn [mbind res_bind]. rewrite Nat2Z.id, Ht, Hcstr by done. exists (encoded us), w1. auto. }
    destruct (client_name us) as [|c cn] eqn:Ecn; [done|]. rewrite <- Ecn in *. destruct (did =? CNID_INVALID); cbn [mbind res_bind]; [by apply K|].
    unfold demangle. destruct (private_demangle_ok r v M did (client_name us) false buffer w Hb) as (o & w' & -> & So & R).
    cbn [mbind res_bind]. destruct o as [[id' u']|]; [|by apply K]. exists u', w'. split_and!; [done|done|]. right. exists id'. by apply R.
Qed.

(** Letters, a colon, a letter with two accents, a Hangul syllable and a musical note. *)
Definition sample_name : list Z := [0x41; 0x3A; 0x1EBE; 0xD55C; 0xD834; 0xDD60; 0x61].

Definition afp3_volume : vol := Vol CH_UTF8 CH_MAC (mtou_flags 0 0) (utom_flags 0 0) 255 true.

Lemma plain_name_back_witness :
  utompath name_registry afp3_volume (encoded sample_name) 0 true = Ok (Some (client_name sample_name)) /\ client_name sample_name <> encoded sample_name.
Proof.
  split; [|by vm_compute]. apply (plain_name_back name_registry afp3_volume sample_name 0 0 (fresh (MAXPATHLEN + 2)) one_shelf).
  - split; [by exists charset_utf8|by exists charset_mac_roman|by exists 0, 0|by exists 0, 0].
  - split; [done|done|by exists 0|by exists 0].
  - split; [by vm_compute|by vm_compute|by vm_compute|done| |repeat constructor].
    unfold sample_name, SLASH. set_solver by lia.
  - apply fresh_scratch.
  - by vm_compute.
  - by vm_compute.
Defined.
